(* ===== verification/_CoqProject ===== *)
-Q . S2P
Prelude.v
Common.v
VersionManager.v
Backend.v
Prefixed.v
MemDB.v
StateStore.v
StateStoreSpec.v
MetaStore.v
Wire.v
TxMessages.v
ChainMessages.v
ConsMessages.v
TxBasic.v
TxCore.v
TxCoreSpec.v
TxPool.v
TxPoolSpec.v
Text.v
Json.v
JsonCodec.v
StateBase.v
StateNode.v
StateNodeSpec.v
StateChain.v
StateChainSpec.v
Address.v
Account.v
AccountSpec.v
Composition.v
CompositionSpec.v
Scheduler.v
SchedulerSpec.v
RoleSelector.v
RoleSelectorSpec.v
EpochService.v
EpochServiceSpec.v
MessageDeliver.v
MessageDeliverSpec.v
Consensus.v
ConsensusSpec.v
Executor.v
ExecutorSpec.v
ResultValidate.v
ResultValidateSpec.v
Servant.v
NativeVM.v
Crypt.v
Universal.v
UniversalSpec.v
ContractSpec.v
BlockSub.v
BlockSubSpec.v
DkgExchange.v
DomainConsensus.v
DkgSpec.v
Hexutil.v
HexutilSpec.v
