(* ===== verification/Prelude.v ===== *)
(** * A verification development of the Topia node

    Topia (the Go program under [src/]) is a node of a block chain whose nodes
    play roles.  Executors of a domain collect transactions in a pool and
    execute them; one of them, the launcher, prepares a list of transactions
    for the executors of its domain and for the proposers.  A proposer that
    wins an election makes a block of the prepared lists, validators vote for
    it after sampling the executors' results, and with enough votes it is
    committed, published and taken up by every node.  Epochs, execution domains
    and consensus domains, whose keys come from a distributed key generation,
    say who plays which role.  All of this is kept in named state stores, each
    with a Merkle tree, over a versioned key-value backend.

    The development is a shallow embedding: a Go function is a Rocq function
    with the same name and the same branches, a struct is a record, a handler
    of a message is one step on an explicit state.  Definitions run:
    examples and witnesses evaluate them on concrete inputs.

    ** Conventions

    - [outcome E A] (this file) is what a Go call does: it returns ([Ok]),
      returns an error ([Err]) or panics ([Panic]); [go] is the case without
      errors.  [cmd S E A] is a call that changes a state [S] and returns an
      error or a value; nil dereferences and indices out of range are [Panic].
    - A [uint64] is a [Z] with [u64] written where the code may wrap around;
      likewise [i64] and [u32].  Bytes are [list Byte.byte].
    - Maps are [gmap]; where the order of an iteration over a Go map matters
      it is an input, or that of [map_to_list].
    - Pointers that are shared (composition states, B-trees) are references
      into an explicit heap.  Goroutines are steps of a relation where their
      interleaving matters; otherwise a handler is one atomic step.
    - Code that is not under [src/] is a parameter: a type class with its
      operations, and where needed a class with the documented laws
      ([BTreeLaws], [SMTLaws], [LRULaws], [SodiumLaws]), or a variable of a
      section.  Hash functions are variables.  The main theorems with
      hypotheses have witnesses that instantiate them.

    ** Files

    Foundations.
    - Prelude: outcomes, commands, machine integers, lists, search.
    - Common ([src/common]): checked arithmetic, shrinkable maps, node and
      domain types.
    - Text, Json, JsonCodec: the parts of Go's library for UTF-8, decimals,
      base64 and JSON that the program's stored data goes through.

    Storage ([src/ledger]).
    - Backend: the interfaces of a backend as classes with laws.
    - VersionManager, MemDB, Prefixed: the version sets, the in-memory backend
      over a heap of B-trees, the prefixed views.
    - StateStore, StateStoreSpec, MetaStore: the named stores with their trees.

    Messages.
    - Wire: the generated protobuf code as schema combinators (sizes, varints,
      skipping, decoding); TxMessages, ChainMessages, ConsMessages: the
      schemas of the [.pb.go] files.

    State ([src/state], [src/account], [src/crypt/types]).
    - StateBase: the state store as an interface [IStateStore] with laws,
      which the components below are proved against.
    - StateNode, StateChain (chain, epochs, domains), Account, Address,
      with StateNodeSpec, StateChainSpec, AccountSpec.
    - Composition, CompositionSpec: all stores of a ledger, and the builders
      that share composition states between components.

    Transactions.
    - TxBasic ([src/transaction/basic]): encoding, identity, verifier chains.
    - TxCore, TxPool with their Spec files ([src/transaction_pool]).
    - Servant, Universal, UniversalSpec ([src/transaction/universal],
      [src/service/transaction.go]): transfers, deployments, invocations, gas.
    - NativeVM, ContractSpec ([src/vm]): the native machine and its contracts.
    - Crypt ([src/crypt]): the ed25519 and secp256k1 services.

    Execution and blocks.
    - Scheduler, SchedulerSpec ([src/execution], [src/chain/types/block.go]).
    - BlockSub, BlockSubSpec ([src/chain]): published blocks, collectors, the
      choice between forks.

    Consensus ([src/consensus]).
    - RoleSelector: weighted draws and elections ([vrf]); EpochService: active
      nodes, weights, epochs.
    - MessageDeliver: signing, delivery and dispatch of messages.
    - Consensus: validators, vote collector, proposers; Executor: preparing
      and launching; ResultValidate: proofs of execution results.
    - DkgExchange, DomainConsensus: the key generation and the consensus
      domains made with it; their theorems are in DkgSpec.
    - Each of the others has its theorems in the Spec file of the same name.

    Interface.
    - Hexutil, HexutilSpec ([src/api/web3/eth/types/hexutil]).

    ** What is shown

    - Refinement: the in-memory backend implements an abstract versioned store
      for every interleaving of calls; the state store, the node registry, the
      chain state and the account state are finite maps or small abstract
      states with their caches coherent; a commit makes the block the latest.
    - Invariants: version sets; executed versions are consecutive; the pool's
      counts and the order in which nonces are released; epochs.
    - Safety: no validator votes twice, a commit has enough votes, a version's
      composition state is built once, an accepted transfer has been checked,
      a native call has been permitted, a key is announced when it is agreed.
    - Functional behaviour: execution of packed lists, transfers, the path of
      prepared lists, of published blocks and of transactions from node to
      node, the validation of results, the selection of launchers and
      candidates, the validity of domains.
    - Round trips and termination: protobuf, addresses, signatures, published
      blocks, hexadecimal texts; decoders return on any bytes, and the
      goroutines that decode transactions come to rest.
    - Where the code does not do what it means to, the theorem states what it
      does: a transfer leaves the state as it was, an archiver commits the last
      part only, a deal that comes twice stops a node, a late response stalls
      the key generation, later domains expire at height 15000.

    ** Fuel and bounds

    Structural recursion is used where the code allows it.  Loops that are not
    structural carry fuel that bounds the iterations the code makes: the length
    of the input for decoders, parsers and texts, of which every iteration
    consumes something; the number of bits for digits; ten bytes for varints;
    the size of the table for iterators and for the nonces of an account.  The
    round trips, [decoders_total] and the specifications of the iterators and
    of the pool's accounts hold with that fuel.  [getAvailPPMProp] and
    [CompositionStateAtVersion] give [None] when their fuel runs out, and are
    proved to give an answer with enough of it; [ChainChoiceAfterAncestor] is
    proved never to give one for some chains.

    ** Not modelled

    The badger, leveldb and rocksdb backends; the block and history stores,
    the wallet and the synchronisation, whose methods are stubs; the network
    (libp2p), the rpc and web3 servers and the services over them, which are
    input, output and reflection; actors, timers, logging, configuration
    files, and the construction and start of the components; the forwarder of
    transactions and the event hub; the block validator, which nothing
    constructs; the BLS service; mocks.  Accessors and [String] methods of
    generated code are left out.  Within a modelled component: data races on
    fields that the code reads without a lock, cancellation by contexts, and
    the texts of most errors. *)
From Stdlib Require Import ZArith Lia Strings.Byte.
From stdpp Require Import base gmap list strings sorting.
#[local] Open Scope Z_scope.

(** * Machine integers

    Go's [uint64], [int64] and [int32] are integers of [Z] with the
    wrap-around written out.  [int] is 64 bits wide on every platform the
    program is built for, so it uses [i64]. *)

Definition u64 (z : Z) : Z := z mod 2 ^ 64.

Definition i64 (z : Z) : Z := (z + 2 ^ 63) mod 2 ^ 64 - 2 ^ 63.

Definition i32 (z : Z) : Z := (z + 2 ^ 31) mod 2 ^ 32 - 2 ^ 31.

Definition is_u64 (z : Z) : Prop := 0 <= z < 2 ^ 64.

Definition is_i64 (z : Z) : Prop := - 2 ^ 63 <= z < 2 ^ 63.

Create HintDb machine.

Lemma u64_range z : is_u64 (u64 z).
Proof. apply Z.mod_pos_bound. lia. Qed.

Lemma u64_small z : is_u64 z -> u64 z = z.
Proof. apply Z.mod_small. Qed.

Lemma i64_small z : is_i64 z -> i64 z = z.
Proof. unfold is_i64, i64. intros. rewrite Z.mod_small; lia. Qed.

Lemma i64_range z : is_i64 (i64 z).
Proof.
  unfold is_i64, i64.
  pose proof (Z.mod_pos_bound (z + 2 ^ 63) (2 ^ 64) ltac:(lia)). lia.
Qed.

Lemma i32_small z : - 2 ^ 31 <= z < 2 ^ 31 -> i32 z = z.
Proof. unfold i32. intros. rewrite Z.mod_small; lia. Qed.

Lemma u64_cases z : is_u64 z -> u64 (z + 1) = z + 1 \/ (z = 2 ^ 64 - 1 /\ u64 (z + 1) = 0).
Proof.
  unfold is_u64. intros H. destruct (decide (z = 2 ^ 64 - 1)) as [->|].
  - right. split; reflexivity.
  - left. apply u64_small. unfold is_u64. lia.
Qed.

(** Converting to [int64], adding modulo 2^64 and converting back is exact
    whenever the exact sum is a [uint64]. *)
Lemma u64_i64_add a b : u64 (i64 (i64 a + b)) = u64 (a + b).
Proof.
  unfold u64, i64.
  assert (Hm : forall x, (x - 2 ^ 63) mod 2 ^ 64 = (x + 2 ^ 63) mod 2 ^ 64).
  { intros x. replace (x - 2 ^ 63) with (x + 2 ^ 63 + (-1) * 2 ^ 64) by lia.
    apply Z.mod_add. lia. }
  rewrite Hm, Z.add_mod_idemp_l by lia.
  replace ((a + 2 ^ 63) mod 2 ^ 64 - 2 ^ 63 + b + 2 ^ 63 + 2 ^ 63)
    with ((a + 2 ^ 63) mod 2 ^ 64 + (b + 2 ^ 63)) by lia.
  rewrite Z.add_mod_idemp_l by lia.
  replace (a + 2 ^ 63 + (b + 2 ^ 63)) with (a + b + 1 * 2 ^ 64) by lia.
  apply Z.mod_add. lia.
Qed.

#[export] Hint Resolve u64_range i64_range u64_small i64_small : machine.

(** * Outcomes of Go calls

    A Go function that returns [(value, error)] is a value or an error; one
    that may panic (a nil dereference, an explicit [panic], an index out of
    range) has the third outcome. *)

Inductive outcome (E A : Type) : Type :=
| Ok (a : A)
| Err (e : E)
| Panic.
Arguments Ok {_ _} _.
Arguments Err {_ _} _.
Arguments Panic {_ _}.

#[export] Instance outcome_ret E : MRet (outcome E) := fun A a => Ok a.

#[export] Instance outcome_bind E : MBind (outcome E) := fun A B f c =>
  match c with
  | Ok a => f a
  | Err e => Err e
  | Panic => Panic
  end.

#[export] Instance outcome_eq_dec {E A} `{EqDecision E, EqDecision A} :
  EqDecision (outcome E A).
Proof. solve_decision. Defined.

Definition is_ok {E A} (c : outcome E A) : bool :=
  match c with Ok _ => true | _ => false end.

(** A call that returns its errors inside its result, and can only panic. *)
Abbreviation go := (outcome Empty_set).

Lemma outcome_bind_Ok {E A B} (c : outcome E A) (f : A -> outcome E B) b :
  c ≫= f = Ok b -> exists a, c = Ok a /\ f a = Ok b.
Proof. destruct c; naive_solver. Qed.

Lemma Ok_bind {E A B} (f : A -> outcome E B) a : (Ok a ≫= f) = f a.
Proof. done. Qed.

Lemma default_Some {A} (d x : A) : default d (Some x) = x.
Proof. done. Qed.

(** Runs the steps that have succeeded.  It rewrites: where a step is a long
    computation, conversion would run it. *)
Ltac run_Ok := repeat first [rewrite Ok_bind | rewrite default_Some | progress (cbv beta iota zeta)].

(** Case analysis on the scrutinee of an [if] or [match] of the goal or of a
    hypothesis, the step every proof about a guarded operation starts with. *)
Ltac split_match :=
  match goal with
  | H : context [match ?c with _ => _ end] |- _ =>
      lazymatch c with
      | context [match _ with _ => _ end] => fail
      | _ => let E := fresh "E" in destruct c eqn:E
      end
  | |- context [match ?c with _ => _ end] =>
      lazymatch c with
      | context [match _ with _ => _ end] => fail
      | _ => let E := fresh "E" in destruct c eqn:E
      end
  end.

Ltac split_matches := repeat (split_match; simplify_eq/=).

(** * Bytes and byte strings

    A Go [[]byte] or [string] is a list of bytes; where the code tells nil
    from empty, the model uses [option bytes] with [None] for nil. *)

#[export] Instance byte_eq_dec : EqDecision byte := Byte.byte_eq_dec.

#[export] Instance byte_countable : Countable byte :=
  inj_countable Byte.to_N Byte.of_N Byte.of_to_N.

Abbreviation bytes := (list byte).

Definition str (s : string) : bytes := String.list_byte_of_string s.

Definition b2z (b : byte) : Z := Z.of_N (Byte.to_N b).

Definition z2b (z : Z) : byte :=
  match Byte.of_N (Z.to_N (z mod 256)) with
  | Some b => b
  | None => x00
  end.

Lemma b2z_range b : 0 <= b2z b < 256.
Proof. unfold b2z. pose proof (Byte.to_N_bounded b). lia. Qed.

Lemma z2b_b2z b : z2b (b2z b) = b.
Proof.
  unfold z2b. pose proof (b2z_range b). rewrite Z.mod_small by lia.
  unfold b2z. rewrite N2Z.id, Byte.of_to_N. done.
Qed.

Lemma b2z_z2b z : b2z (z2b z) = z mod 256.
Proof.
  unfold z2b, b2z. pose proof (Z.mod_pos_bound z 256 ltac:(lia)) as Hz.
  pose proof (Byte.to_of_N_option_map (Z.to_N (z mod 256))) as Hb.
  destruct (Byte.of_N (Z.to_N (z mod 256))) as [b|] eqn:Eb; simpl in Hb.
  - destruct (Z.to_N (z mod 256) <=? 255)%N; simplify_eq. rewrite Hb. lia.
  - destruct (N.leb_spec (Z.to_N (z mod 256)) 255); [done|lia].
Qed.

#[export] Instance b2z_inj : Inj (=) (=) b2z.
Proof. intros a b H. rewrite <- (z2b_b2z a), <- (z2b_b2z b). by f_equal. Qed.

(** [bytes.Compare] of the Go library. *)
Fixpoint bytes_Compare (a b : bytes) : comparison :=
  match a, b with
  | [], [] => Eq
  | [], _ :: _ => Lt
  | _ :: _, [] => Gt
  | x :: a', y :: b' =>
      match b2z x ?= b2z y with
      | Eq => bytes_Compare a' b'
      | c => c
      end
  end.

Definition bytes_lt (a b : bytes) : Prop := bytes_Compare a b = Lt.

Definition bytes_ltb (a b : bytes) : bool :=
  match bytes_Compare a b with Lt => true | _ => false end.

Definition bytes_le (a b : bytes) : Prop := bytes_Compare a b <> Gt.

Definition bytes_leb (a b : bytes) : bool :=
  match bytes_Compare a b with Gt => false | _ => true end.

Lemma bytes_Compare_refl a : bytes_Compare a a = Eq.
Proof. induction a; simpl; [done|]. by rewrite Z.compare_refl. Qed.

Lemma bytes_Compare_eq a b : bytes_Compare a b = Eq <-> a = b.
Proof.
  split; [|intros ->; apply bytes_Compare_refl].
  revert b. induction a as [|x a IH]; intros [|y b]; simpl; try done.
  destruct (Z.compare_spec (b2z x) (b2z y)); intros; simplify_eq.
  f_equal; auto.
Qed.

Lemma bytes_Compare_antisym a b : bytes_Compare b a = CompOpp (bytes_Compare a b).
Proof.
  revert b. induction a as [|x a IH]; intros [|y b]; simpl; try done.
  rewrite (Z.compare_antisym (b2z x) (b2z y)).
  destruct (b2z x ?= b2z y); simpl; auto.
Qed.

Lemma bytes_lt_trans a b c : bytes_lt a b -> bytes_lt b c -> bytes_lt a c.
Proof.
  unfold bytes_lt. revert b c.
  induction a as [|x a IH]; intros [|y b] [|z c]; simpl; try done.
  destruct (Z.compare_spec (b2z x) (b2z y)), (Z.compare_spec (b2z y) (b2z z));
    try done; intros;
    destruct (Z.compare_spec (b2z x) (b2z z)); try done; try lia; eauto.
Qed.

Lemma bytes_lt_irrefl a : ~ bytes_lt a a.
Proof. unfold bytes_lt. by rewrite bytes_Compare_refl. Qed.

Lemma bytes_ltb_spec a b : bytes_ltb a b = true <-> bytes_lt a b.
Proof. unfold bytes_ltb, bytes_lt. destruct (bytes_Compare a b); naive_solver. Qed.

Lemma bytes_leb_spec a b : bytes_leb a b = true <-> bytes_le a b.
Proof. unfold bytes_leb, bytes_le. destruct (bytes_Compare a b); naive_solver. Qed.

Lemma bytes_le_lt_iff a b : bytes_le a b <-> ~ bytes_lt b a.
Proof.
  unfold bytes_le, bytes_lt. rewrite (bytes_Compare_antisym a b).
  destruct (bytes_Compare a b); naive_solver.
Qed.

Lemma bytes_le_eq_or_lt a b : bytes_le a b <-> a = b \/ bytes_lt a b.
Proof.
  unfold bytes_le, bytes_lt. rewrite <- bytes_Compare_eq.
  destruct (bytes_Compare a b); intuition discriminate.
Qed.

#[export] Instance bytes_lt_dec : RelDecision bytes_lt.
Proof. intros a b. unfold bytes_lt. apply _. Defined.

#[export] Instance bytes_le_dec : RelDecision bytes_le.
Proof. intros a b. unfold bytes_le. apply _. Defined.

#[export] Instance bytes_le_trans : Transitive bytes_le.
Proof.
  intros a b c. rewrite !bytes_le_eq_or_lt.
  intros [->|] [->|]; eauto using bytes_lt_trans.
Qed.

#[export] Instance bytes_le_total : Total bytes_le.
Proof.
  intros a b. unfold bytes_le. rewrite (bytes_Compare_antisym a b).
  destruct (bytes_Compare a b); naive_solver.
Qed.

Lemma bytes_lt_total a b : bytes_lt a b \/ a = b \/ bytes_lt b a.
Proof.
  unfold bytes_lt. rewrite (bytes_Compare_antisym a b), <- bytes_Compare_eq.
  destruct (bytes_Compare a b); naive_solver.
Qed.

(** A common prefix does not change the comparison. *)
Lemma bytes_Compare_app p a b : bytes_Compare (p ++ a) (p ++ b) = bytes_Compare a b.
Proof. induction p; simpl; [done|]. by rewrite Z.compare_refl. Qed.

Lemma bytes_le_app p a : bytes_le p (p ++ a).
Proof.
  unfold bytes_le. rewrite <- (app_nil_r p) at 1. rewrite bytes_Compare_app.
  by destruct a.
Qed.

Lemma length_eqb_nil (k : bytes) : (length k =? 0)%nat = bool_decide (k = []).
Proof. by destruct k. Qed.

Create HintDb bytes.

#[export] Hint Resolve bytes_lt_irrefl bytes_le_app : bytes.

(** * Lists *)

(** Folding a state over a list until the visitor says stop: how Go code
    walks a container with a callback that returns a bool. *)
Fixpoint visit {A S} (f : S -> A -> S * bool) (s : S) (l : list A) : S :=
  match l with
  | [] => s
  | x :: l' =>
      let '(s', continue) := f s x in
      if continue then visit f s' l' else s'
  end.

Lemma StronglySorted_filter {A} (R : relation A) (P : A -> Prop)
    `{forall x, Decision (P x)} (l : list A) :
  StronglySorted R l -> StronglySorted R (filter P l).
Proof.
  induction 1 as [|a l HS IH HF]; [constructor|].
  rewrite filter_cons. destruct (decide (P a)); [|done].
  constructor; [done|]. rewrite Forall_forall in *. intros x Hx.
  apply list_elem_of_filter in Hx as [_ Hx]. auto.
Qed.

Lemma StronglySorted_reverse {A} (R : relation A) (l : list A) :
  StronglySorted R l -> StronglySorted (flip R) (reverse l).
Proof.
  induction 1 as [|x l Hl IH Hx]; [constructor|]. rewrite reverse_cons.
  revert IH Hx. rewrite <- (reverse_involutive l) at 2. generalize (reverse l) as k. clear.
  intros k Hk Hx. rewrite Forall_forall in Hx. induction Hk as [|y k Hk IH Hy]; simpl.
  - repeat constructor.
  - constructor.
    + apply IH. intros z Hz. apply Hx. rewrite elem_of_reverse in *. by right.
    + apply Forall_app. split; [done|]. constructor; [|constructor].
      apply Hx. rewrite elem_of_reverse. by left.
Qed.

Fixpoint take_while {A} (f : A -> bool) (l : list A) : list A :=
  match l with
  | [] => []
  | x :: l' => if f x then x :: take_while f l' else []
  end.

Lemma take_while_all {A} (f : A -> bool) (l : list A) :
  (forall x, x ∈ l -> f x = true) -> take_while f l = l.
Proof.
  induction l as [|x l IH]; intros Hf; simpl; [done|].
  rewrite (Hf x) by (by left). f_equal. apply IH. intros y Hy. apply Hf. by right.
Qed.

(** On a list in which nothing that satisfies [f] comes after something that
    does not, taking while [f] is filtering by [f]. *)
Lemma take_while_filter {A} (R : relation A) (f : A -> bool) (l : list A) :
  StronglySorted R l ->
  (forall x y, x ∈ l -> y ∈ l -> R x y -> f y = true -> f x = true) ->
  take_while f l = filter (fun x => f x = true) l.
Proof.
  induction 1 as [|x l Hl IH Hx]; intros Hf; [done|]. simpl. rewrite filter_cons.
  rewrite Forall_forall in Hx. destruct (f x) eqn:E; simpl.
  - f_equal. apply IH. intros y z Hy Hz. apply Hf; by right.
  - destruct (filter _ l) as [|y l'] eqn:El; [done|].
    assert (Hy : y ∈ filter (fun x => f x = true) l) by (rewrite El; by left).
    apply list_elem_of_filter in Hy as [Hfy Hy].
    rewrite (Hf x y) in E; [done|by left|by right|by apply Hx|done].
Qed.

Lemma nth_lookup_lt {A} (l : list A) i d : (i < length l)%nat -> l !! i = Some (nth i l d).
Proof. intros [x Hx]%lookup_lt_is_Some_2. by rewrite Hx, (nth_lookup_Some _ _ _ _ Hx). Qed.

Lemma StronglySorted_lookup_lt {A} (R : relation A) (l : list A) i j x y :
  StronglySorted R l -> l !! i = Some x -> l !! j = Some y -> (i < j)%nat -> R x y.
Proof.
  intros HS. revert i j. induction HS as [|a l HS IH HF]; intros i j Hx Hy Hij; [done|].
  destruct j as [|j]; [lia|]. destruct i as [|i]; simplify_eq/=.
  - rewrite Forall_forall in HF. apply HF. by eapply list_elem_of_lookup_2.
  - eapply IH; eauto with lia.
Qed.

(** * Sums over maps *)

Section Sums.
Context {K A : Type} `{Countable K} (f : A -> Z).

Definition msum (m : gmap K A) : Z := map_fold (fun _ x n => f x + n) 0 m.

Lemma msum_empty : msum ∅ = 0.
Proof. apply map_fold_empty. Qed.

Lemma msum_insert m i x : m !! i = None -> msum (<[i:=x]> m) = f x + msum m.
Proof.
  intros Hi. unfold msum. rewrite (map_fold_insert_L _ 0 i x m); [done| |done].
  intros j1 j2 z1 z2 y _ _ _. lia.
Qed.

Lemma msum_delete m i x : m !! i = Some x -> msum m = f x + msum (delete i m).
Proof.
  intros Hi. rewrite <-(msum_insert (delete i m) i x) by apply lookup_delete_eq. by rewrite insert_delete_id.
Qed.

Lemma msum_update m i x : msum (<[i:=x]> m) = f x + msum (delete i m).
Proof. rewrite <-insert_delete_eq. apply msum_insert, lookup_delete_eq. Qed.

Lemma msum_nonneg m : (forall i x, m !! i = Some x -> 0 <= f x) -> 0 <= msum m.
Proof.
  induction m as [|i x m Hi IH] using map_ind; intros Hf; [by rewrite msum_empty|].
  rewrite msum_insert by done. assert (0 <= f x) by (apply (Hf i); apply lookup_insert_eq).
  assert (0 <= msum m); [|lia]. apply IH. intros j y Hj. apply (Hf j).
  rewrite lookup_insert_ne; [done|]. intros <-. congruence.
Qed.
End Sums.

(** * [sort.Search]

    The binary search of the Go library: the smallest index of [0, n) at
    which a monotone predicate holds, or [n]. *)

Fixpoint search_loop (fuel : nat) (f : nat -> bool) (i j : nat) : nat :=
  match fuel with
  | O => i
  | S fuel' =>
      if (i <? j)%nat then
        let h := ((i + j) / 2)%nat in
        if negb (f h) then search_loop fuel' f (S h) j
        else search_loop fuel' f i h
      else i
  end.

Definition sort_Search (n : nat) (f : nat -> bool) : nat := search_loop n f 0 n.

Section Search.
Context (f : nat -> bool) (n : nat).

Lemma search_loop_spec fuel i j :
  (j - i <= fuel)%nat -> (i <= j <= n)%nat ->
  (i = 0%nat \/ f (i - 1) = false) -> (j = n \/ f j = true) ->
  let r := search_loop fuel f i j in
  (i <= r <= j)%nat /\ (r = 0%nat \/ f (r - 1) = false) /\ (r = n \/ f r = true).
Proof.
  revert i j. induction fuel as [|fuel IH]; intros i j Hf Hij Hi Hj; cbn [search_loop].
  - assert (i = j) as -> by lia. auto.
  - destruct (Nat.ltb_spec i j) as [Hlt|Hge].
    + assert (Hh : (i <= (i + j) / 2 < j)%nat).
      { pose proof (Nat.div_mod (i + j) 2 ltac:(lia)).
        pose proof (Nat.mod_upper_bound (i + j) 2 ltac:(lia)). lia. }
      destruct (f ((i + j) / 2)%nat) eqn:E; cbn [negb].
      * destruct (IH i ((i + j) / 2)%nat) as (? & ? & ?); try lia; auto.
        split; [lia|auto].
      * destruct (IH (S ((i + j) / 2)) j) as (? & ? & ?); try lia; auto.
        { right. by replace (S ((i + j) / 2) - 1)%nat with ((i + j) / 2)%nat by lia. }
        split; [lia|auto].
    + assert (i = j) as -> by lia. auto.
Qed.

(** Whatever the predicate, the result is in range, the predicate is false
    just below it and true at it (unless it is [n]). *)
Lemma sort_Search_spec :
  (sort_Search n f <= n)%nat
  /\ (sort_Search n f = 0%nat \/ f (sort_Search n f - 1) = false)
  /\ (sort_Search n f = n \/ f (sort_Search n f) = true).
Proof. destruct (search_loop_spec n 0 n) as ([_ ?] & ? & ?); auto with lia. Qed.

(** For a monotone predicate it splits the range exactly. *)
Lemma sort_Search_monotone :
  (forall i j, (i <= j < n)%nat -> f i = true -> f j = true) ->
  (forall i, (i < sort_Search n f)%nat -> f i = false)
  /\ (forall i, (sort_Search n f <= i < n)%nat -> f i = true).
Proof.
  intros Hmono. destruct sort_Search_spec as (Hle & H0 & Hn). split; intros i Hi.
  - destruct (f i) eqn:E; [|done]. destruct H0 as [H0|H0]; [lia|].
    rewrite (Hmono i (sort_Search n f - 1)%nat) in H0; [done|lia|done].
  - destruct Hn as [Hn|Hn]; [lia|]. apply (Hmono (sort_Search n f)); [lia|done].
Qed.
End Search.
