(* ===== verification/Common.v ===== *)
(** The shared helpers of [src/common]: overflow-checked arithmetic
    (safe_calculate.go), the shrinkable map every cache of the node is kept in
    (shrink_map.go), the byte, string and slice utilities (util.go) and the
    node, network and domain types (types.go). *)
From Stdlib Require Import ZArith Lia Strings.Byte.
From stdpp Require Import base gmap list strings sorting.
From S2P Require Import Prelude.
#[local] Open Scope Z_scope.

(** * safe_calculate.go *)
Module SafeCalculate.

Inductive calc_error :=
| SubOverflow (a b : Z)
| AddOverflow (a b : Z).

(** [big.Int] is unbounded. *)
Definition SafeMul (a b : Z) : Z := a * b.

Definition SafeSubUint64 (a b : Z) : outcome calc_error Z :=
  if a <? b then Err (SubOverflow a b) else Ok (u64 (a - b)).

Definition SafeAddUint64 (a b : Z) : outcome calc_error Z :=
  let s := u64 (a + b) in
  if (s >=? a) && (s >=? b) then Ok s else Err (AddOverflow a b).

(** On [uint64] operands [SafeAddUint64] and [SafeSubUint64] return the
    exact integer result when it is representable and an error otherwise: the
    test on the wrapped sum is a complete overflow test. *)
Theorem safe_arith_exact (a b : Z) :
  is_u64 a -> is_u64 b ->
  SafeAddUint64 a b = (if decide (is_u64 (a + b)) then Ok (a + b) else Err (AddOverflow a b))
  /\ SafeSubUint64 a b = (if decide (is_u64 (a - b)) then Ok (a - b) else Err (SubOverflow a b))
  /\ (is_u64 (SafeMul a b) -> SafeMul a b = u64 (a * b)).
Proof.
  unfold is_u64, SafeAddUint64, SafeSubUint64, SafeMul, u64. intros Ha Hb.
  rewrite !Z.geb_leb. split; [|split].
  - case_decide as Hs; [rewrite Z.mod_small by lia|].
    + by rewrite (proj2 (Z.leb_le a (a + b))), (proj2 (Z.leb_le b (a + b))) by lia.
    + assert ((a + b) mod 2 ^ 64 = a + b - 2 ^ 64) as ->.
      { symmetry. apply (Z.mod_unique _ _ 1); lia. }
      by rewrite (proj2 (Z.leb_gt a _)) by lia.
  - destruct (Z.ltb_spec a b); case_decide; try lia; [done|].
    by rewrite Z.mod_small by lia.
  - intros. by rewrite Z.mod_small.
Qed.

Lemma safe_arith_exact_witness :
  is_u64 (2 ^ 64 - 1) /\ is_u64 1 /\ SafeAddUint64 (2 ^ 64 - 1) 1 = Err (AddOverflow (2 ^ 64 - 1) 1).
Proof.
  assert (H1 : is_u64 (2 ^ 64 - 1)) by (unfold is_u64; lia).
  assert (H2 : is_u64 1) by (unfold is_u64; lia).
  split; [exact H1|]. split; [exact H2|].
  exact (proj1 (safe_arith_exact (2 ^ 64 - 1) 1 H1 H2)).
Defined.

End SafeCalculate.

(** * shrink_map.go *)
Module ShrinkMap.

Definition copyThreshold : nat := 1000.

Definition maxDeletion : nat := Z.to_nat 10000.

Section ShrinkableMap.
Context {K V : Type} `{Countable K}.

(** The read-write lock is released on every path, so each method is one
    atomic step on the four data fields. *)
Record ShrinkableMap := mkShrinkableMap {
  deletionOld : nat;
  deletionNew : nat;
  dirtyOld : gmap K V;
  dirtyNew : gmap K V;
}.

Definition NewShrinkMap : ShrinkableMap := mkShrinkableMap 0 0 ∅ ∅.

(** Copying every entry of [src] into [dst], in whatever order Go iterates. *)
Definition copy_into (src dst : gmap K V) : gmap K V := src ∪ dst.

(** [Del] is three steps in sequence: remove the key, then the two checks
    that copy the survivors of a generation with many deletions. *)
Definition del_key (m : ShrinkableMap) (key : K) : ShrinkableMap :=
  match dirtyOld m !! key with
  | Some _ =>
      mkShrinkableMap (S (deletionOld m)) (deletionNew m)
        (delete key (dirtyOld m)) (dirtyNew m)
  | None =>
      match dirtyNew m !! key with
      | Some _ =>
          mkShrinkableMap (deletionOld m) (S (deletionNew m))
            (dirtyOld m) (delete key (dirtyNew m))
      | None => m
      end
  end.

Definition shrink_old (m : ShrinkableMap) : ShrinkableMap :=
  if (maxDeletion <=? deletionOld m)%nat && (size (dirtyOld m) <? copyThreshold)%nat
  then mkShrinkableMap (deletionNew m) 0 (copy_into (dirtyOld m) (dirtyNew m)) ∅
  else m.

Definition shrink_new (m : ShrinkableMap) : ShrinkableMap :=
  if (maxDeletion <=? deletionNew m)%nat && (size (dirtyNew m) <? copyThreshold)%nat
  then mkShrinkableMap (deletionOld m) 0 (copy_into (dirtyNew m) (dirtyOld m)) ∅
  else m.

Definition Del (m : ShrinkableMap) (key : K) : ShrinkableMap :=
  shrink_new (shrink_old (del_key m key)).

Definition Get (m : ShrinkableMap) (key : K) : option V :=
  match dirtyOld m !! key with
  | Some val => Some val
  | None => dirtyNew m !! key
  end.

Definition AllKeys (m : ShrinkableMap) : list K :=
  (map_to_list (dirtyOld m)).*1 ++ (map_to_list (dirtyNew m)).*1.

Definition IterateCallback {S} (iterCBF : S -> K -> V -> S) (s : S) (m : ShrinkableMap) : S :=
  let run := fold_left (fun s kv => iterCBF s kv.1 kv.2) in
  run (map_to_list (dirtyNew m)) (run (map_to_list (dirtyOld m)) s).

Definition Set' (m : ShrinkableMap) (key : K) (value : V) : ShrinkableMap :=
  if (deletionOld m <=? maxDeletion)%nat then
    let m1 :=
      match dirtyNew m !! key with
      | Some _ => mkShrinkableMap (deletionOld m) (S (deletionNew m))
                    (dirtyOld m) (delete key (dirtyNew m))
      | None => m
      end in
    mkShrinkableMap (deletionOld m1) (deletionNew m1)
      (<[key:=value]> (dirtyOld m1)) (dirtyNew m1)
  else
    let m1 :=
      match dirtyOld m !! key with
      | Some _ => mkShrinkableMap (S (deletionOld m)) (deletionNew m)
                    (delete key (dirtyOld m)) (dirtyNew m)
      | None => m
      end in
    mkShrinkableMap (deletionOld m1) (deletionNew m1)
      (dirtyOld m1) (<[key:=value]> (dirtyNew m1)).

Definition Size (m : ShrinkableMap) : nat := size (dirtyOld m) + size (dirtyNew m).

(** The one map a client sees, and the invariant that makes it well defined:
    no key is in both halves. *)
Definition contents (m : ShrinkableMap) : gmap K V := dirtyOld m ∪ dirtyNew m.

Definition wf (m : ShrinkableMap) : Prop := dirtyOld m ##ₘ dirtyNew m.

Lemma contents_lookup m k : contents m !! k = Get m k.
Proof.
  unfold contents, Get. rewrite lookup_union.
  by destruct (dirtyOld m !! k), (dirtyNew m !! k).
Qed.

Lemma NewShrinkMap_wf : wf NewShrinkMap /\ contents NewShrinkMap = ∅.
Proof. split; [apply map_disjoint_empty_l|apply map_union_empty]. Qed.

Lemma Set'_refines m k v :
  wf m -> wf (Set' m k v) /\ contents (Set' m k v) = <[k:=v]> (contents m).
Proof.
  unfold wf, contents, Set'. intros Hd.
  destruct (_ <=? _)%nat.
  - destruct (dirtyNew m !! k) eqn:E; simpl.
    + split.
      * apply map_disjoint_insert_l_2; [by rewrite lookup_delete_eq|].
        by apply map_disjoint_delete_r.
      * rewrite <- insert_union_l. apply map_eq. intros i.
        destruct (decide (i = k)) as [->|]; [by rewrite !lookup_insert_eq|].
        by rewrite !lookup_insert_ne, !lookup_union, lookup_delete_ne by done.
    + split; [by apply map_disjoint_insert_l_2|]. by rewrite <- insert_union_l.
  - destruct (dirtyOld m !! k) eqn:E; simpl.
    + split.
      * apply map_disjoint_insert_r_2; [by rewrite lookup_delete_eq|].
        by apply map_disjoint_delete_l.
      * rewrite <- insert_union_r by (by rewrite lookup_delete_eq).
        apply map_eq. intros i.
        destruct (decide (i = k)) as [->|]; [by rewrite !lookup_insert_eq|].
        by rewrite !lookup_insert_ne, !lookup_union, lookup_delete_ne by done.
    + split; [by apply map_disjoint_insert_r_2|]. by rewrite <- insert_union_r.
Qed.

Lemma del_key_refines m k :
  wf m -> wf (del_key m k) /\ contents (del_key m k) = delete k (contents m).
Proof.
  unfold del_key, wf, contents. intros Hd.
  destruct (dirtyOld m !! k) eqn:E; [|destruct (dirtyNew m !! k) eqn:E']; simpl.
  - split; [by apply map_disjoint_delete_l|].
    rewrite delete_union. f_equal. symmetry. apply delete_id.
    by eapply map_disjoint_Some_l.
  - split; [by apply map_disjoint_delete_r|].
    rewrite delete_union. f_equal. symmetry. by apply delete_id.
  - split; [done|]. symmetry. apply delete_id. by apply lookup_union_None.
Qed.

Lemma shrink_old_refines m :
  wf m -> wf (shrink_old m) /\ contents (shrink_old m) = contents m.
Proof.
  intros Hd. unfold shrink_old. destruct (_ && _); [|done].
  unfold wf, contents, copy_into; simpl.
  split; [apply map_disjoint_empty_r|apply map_union_empty].
Qed.

Lemma shrink_new_refines m :
  wf m -> wf (shrink_new m) /\ contents (shrink_new m) = contents m.
Proof.
  intros Hd. unfold shrink_new. destruct (_ && _); [|done].
  unfold wf, contents, copy_into in *; simpl.
  split; [apply map_disjoint_empty_r|]. rewrite map_union_empty.
  symmetry. by apply map_union_comm.
Qed.

Lemma Del_refines m k :
  wf m -> wf (Del m k) /\ contents (Del m k) = delete k (contents m).
Proof.
  intros (Hw & <-)%(del_key_refines m k).
  apply shrink_old_refines in Hw as (Hw & <-). by apply shrink_new_refines.
Qed.

(** The operations a client calls, and their meaning on one map. *)
Inductive op := OSet (k : K) (v : V) | ODel (k : K).

Definition run_op (m : ShrinkableMap) (o : op) : ShrinkableMap :=
  match o with OSet k v => Set' m k v | ODel k => Del m k end.

Definition spec_op (m : gmap K V) (o : op) : gmap K V :=
  match o with OSet k v => <[k:=v]> m | ODel k => delete k m end.

Lemma run_ops_refine ops m :
  wf m ->
  wf (fold_left run_op ops m)
  /\ contents (fold_left run_op ops m) = fold_left spec_op ops (contents m).
Proof.
  revert m. induction ops as [|o ops IH]; intros m Hw; [done|]. simpl.
  assert (wf (run_op m o) /\ contents (run_op m o) = spec_op (contents m) o)
    as [Hw' <-] by (destruct o; [by apply Set'_refines|by apply Del_refines]).
  by apply IH.
Qed.

Lemma elem_of_keys (x : gmap K V) k : k ∈ (map_to_list x).*1 <-> is_Some (x !! k).
Proof.
  rewrite list_elem_of_fmap. split.
  - intros ([k' v] & -> & Hv%elem_of_map_to_list). by exists v.
  - intros [v Hv]. exists (k, v). by rewrite elem_of_map_to_list.
Qed.

Lemma AllKeys_perm m : wf m -> AllKeys m ≡ₚ (map_to_list (contents m)).*1.
Proof.
  intros Hw. apply NoDup_Permutation.
  - apply NoDup_app. split_and!; try apply NoDup_fst_map_to_list.
    intros k [v1 H1]%elem_of_keys [v2 H2]%elem_of_keys.
    by eapply (map_disjoint_spec (dirtyOld m) (dirtyNew m)).
  - apply NoDup_fst_map_to_list.
  - intros k. unfold AllKeys, contents. rewrite elem_of_app, !elem_of_keys.
    by rewrite lookup_union, union_is_Some.
Qed.

Lemma Size_contents m : wf m -> Size m = size (contents m).
Proof. intros Hw. symmetry. by apply map_size_disj_union. Qed.

(** The two-generation map with its copying of survivors is, to its
    clients, one finite map: after any sequence of [Set]s and [Del]s, [Get],
    [Size] and [AllKeys] (up to Go's unspecified order) are those of the map
    the sequence denotes, so no shrink loses, duplicates or resurrects a
    key. *)
Theorem shrinkmap_refines_map (ops : list op) :
  let m := fold_left run_op ops NewShrinkMap in
  let s := fold_left spec_op ops ∅ in
  (forall k, Get m k = s !! k) /\ Size m = size s /\ AllKeys m ≡ₚ (map_to_list s).*1.
Proof.
  simpl. destruct NewShrinkMap_wf as [Hw Hc].
  destruct (run_ops_refine ops NewShrinkMap Hw) as [Hw' Hr]. rewrite Hc in Hr.
  rewrite <- Hr. split; [|split].
  - intros k. by rewrite contents_lookup.
  - by apply Size_contents.
  - by apply AllKeys_perm.
Qed.
End ShrinkableMap.
Arguments ShrinkableMap K V {_ _}.
Arguments op K V : clear implicits.

End ShrinkMap.

(** * util.go *)
Module Util.

Definition BytesCopy (src : option bytes) : option bytes :=
  match src with
  | None => None
  | Some s => Some s
  end.

Definition CloneSlice (a : list (option bytes)) : list (option bytes) := BytesCopy <$> a.

(** [binary.BigEndian.PutUint64]: byte [i] is [byte(v >> (56 - 8 i))]. *)
Definition Uint64ToBytes (v : Z) : bytes :=
  (fun i => z2b (Z.shiftr v (56 - 8 * Z.of_nat i))) <$> seq 0 8.

(** [binary.BigEndian.Uint64] reads the first eight bytes and panics when
    there are fewer. *)
Definition BytesToUint64 (d : bytes) : outcome unit Z :=
  if (length d <? 8)%nat then Panic
  else Ok (fold_left (fun acc b => Z.lor (Z.shiftl acc 8) (b2z b)) (take 8 d) 0).

(** [sort.Strings] sorts the caller's slice in place, so the slice is part of
    the result. *)
Definition sort_Strings (a : list bytes) : list bytes := merge_sort bytes_le a.

Definition SearchStrings (a : list bytes) (x : bytes) : nat :=
  sort_Search (length a) (fun i => bytes_leb x (nth i a [])).

Definition IsContainString (target : bytes) (str_array : list bytes) : bool * list bytes :=
  let str_array := sort_Strings str_array in
  let index := SearchStrings str_array target in
  ((index <? length str_array)%nat && bool_decide (nth index str_array [] = target), str_array).

Definition RemoveIfExistString (target : bytes) (str_array : list bytes) : list bytes :=
  fold_left (fun rtnArray s => if decide (s <> target) then rtnArray ++ [s] else rtnArray)
    str_array [].

Definition Has0xPrefix (s : bytes) : bool :=
  match s with
  | c0 :: c1 :: _ => Byte.eqb c0 "0" && (Byte.eqb c1 "x" || Byte.eqb c1 "X")
  | _ => false
  end.

Definition IsHexCharacter (c : byte) : bool :=
  let between a b := (b2z a <=? b2z c) && (b2z c <=? b2z b) in
  between "0"%byte "9"%byte || between "a"%byte "f"%byte || between "A"%byte "F"%byte.

Definition IsHex (s : bytes) : bool :=
  if negb (Nat.even (length s)) then false else forallb IsHexCharacter s.

Definition MinUint64 (x y : Z) : Z := if x >? y then y else x.

Definition MinInt64 (x y : Z) : Z := if x >? y then y else x.

(** [GenerateRandomNumber] draws from [rand]; the draws are an argument, and
    the loop runs over as many of them as it needs ([None] when they run
    out before [count] distinct numbers were drawn). *)
Fixpoint generate_loop (draws : list Z) (start : Z) (count : nat) (nums : list Z) : option (list Z) :=
  if (length nums <? count)%nat then
    match draws with
    | [] => None
    | d :: draws' =>
        let num := i64 (d + start) in
        generate_loop draws' start count
          (if existsb (Z.eqb num) nums then nums else nums ++ [num])
    end
  else Some nums.

Definition GenerateRandomNumber (draws : list Z) (start end_ count : Z) : option (list Z) :=
  if (end_ <? start) || (i64 (end_ - start) <? count) then Some []
  else generate_loop draws start (Z.to_nat count) [].

(** Eight big-endian digits, read back by Horner's rule. *)
Lemma lor_shiftl_add a c : 0 <= c < 256 -> Z.lor (Z.shiftl a 8) c = a * 256 + c.
Proof.
  intros Hc. rewrite <- Z.lxor_lor, <- Z.add_nocarry_lxor.
  all: try (rewrite Z.shiftl_mul_pow2 by lia; lia).
  all: apply Z.bits_inj'; intros n Hn; rewrite Z.land_spec, Z.bits_0;
    destruct (Z.lt_ge_cases n 8);
    [rewrite Z.shiftl_spec_low by done; done|].
  all: rewrite (Z.bits_above_log2 c n), andb_false_r; [done|lia|].
  all: destruct (decide (c = 0)) as [->|]; [simpl; lia|].
  all: assert (Z.log2 c < 8) by (apply Z.log2_lt_pow2; lia); lia.
Qed.

Lemma horner_step v k k' :
  0 <= v -> 0 <= k' -> k = k' + 8 ->
  Z.lor (Z.shiftl (Z.shiftr v k) 8) (b2z (z2b (Z.shiftr v k'))) = Z.shiftr v k'.
Proof.
  intros Hv Hk ->. rewrite lor_shiftl_add by apply b2z_range. rewrite b2z_z2b.
  rewrite !Z.shiftr_div_pow2 by lia.
  rewrite Z.pow_add_r, <- Z.div_div by lia.
  change (2 ^ 8) with 256. rewrite Z.mul_comm. symmetry. apply Z.div_mod. lia.
Qed.

Definition horner (acc : Z) (l : bytes) : Z :=
  fold_left (fun acc b => Z.lor (Z.shiftl acc 8) (b2z b)) l acc.

Lemma horner_lt a b x y :
  length a = length b -> x < y -> horner x a < horner y b.
Proof.
  revert b x y. induction a as [|c a IH]; intros [|d b] x y Hl Hxy; try done.
  simpl in *. apply IH; [lia|].
  rewrite !lor_shiftl_add by apply b2z_range.
  pose proof (b2z_range c). pose proof (b2z_range d). lia.
Qed.

Lemma horner_compare a b x :
  length a = length b -> bytes_Compare a b = (horner x a ?= horner x b).
Proof.
  revert b x. induction a as [|c a IH]; intros [|d b] x Hl; try done.
  - symmetry. apply Z.compare_refl.
  - simpl in *. destruct (Z.compare_spec (b2z c) (b2z d)) as [->%(inj b2z)|Hlt|Hlt].
    + apply IH. lia.
    + symmetry. apply Z.compare_lt_iff. apply horner_lt; [lia|].
      rewrite !lor_shiftl_add by apply b2z_range. lia.
    + symmetry. apply Z.compare_gt_iff. apply horner_lt; [lia|].
      rewrite !lor_shiftl_add by apply b2z_range. lia.
Qed.

Lemma horner_Uint64ToBytes v : is_u64 v -> horner 0 (Uint64ToBytes v) = v.
Proof.
  unfold is_u64. intros Hv.
  assert (H0 : Z.shiftr v 64 = 0).
  { rewrite Z.shiftr_div_pow2 by lia. by apply Z.div_small. }
  rewrite <- H0 at 1. unfold horner, Uint64ToBytes.
  change (seq 0 8) with [0; 1; 2; 3; 4; 5; 6; 7]%nat.
  cbn [fmap list_fmap fold_left].
  change (56 - 8 * Z.of_nat 0) with 56. change (56 - 8 * Z.of_nat 1) with 48.
  change (56 - 8 * Z.of_nat 2) with 40. change (56 - 8 * Z.of_nat 3) with 32.
  change (56 - 8 * Z.of_nat 4) with 24. change (56 - 8 * Z.of_nat 5) with 16.
  change (56 - 8 * Z.of_nat 6) with 8. change (56 - 8 * Z.of_nat 7) with 0.
  rewrite (horner_step v 64 56), (horner_step v 56 48), (horner_step v 48 40),
    (horner_step v 40 32), (horner_step v 32 24), (horner_step v 24 16),
    (horner_step v 16 8), (horner_step v 8 0) by lia.
  apply Z.shiftr_0_r.
Qed.

Lemma BytesToUint64_of v : is_u64 v -> BytesToUint64 (Uint64ToBytes v) = Ok v.
Proof.
  intros Hv. unfold BytesToUint64. change (Uint64ToBytes v) with (take 8 (Uint64ToBytes v)) at 2.
  simpl length. simpl Nat.ltb. f_equal. by apply horner_Uint64ToBytes.
Qed.

(** Heights, timestamps and versions are stored as eight big-endian
    bytes: encoding and decoding a [uint64] is the identity, and encodings
    compare bytewise as the numbers compare, which is what ordered iteration
    over encoded keys relies on. *)
Theorem uint64_bytes_roundtrip (v w : Z) :
  is_u64 v -> is_u64 w ->
  BytesToUint64 (Uint64ToBytes v) = Ok v
  /\ bytes_Compare (Uint64ToBytes v) (Uint64ToBytes w) = (v ?= w).
Proof.
  intros Hv Hw. split.
  - by apply BytesToUint64_of.
  - rewrite (horner_compare _ _ 0) by done. by rewrite !horner_Uint64ToBytes.
Qed.

Lemma uint64_bytes_roundtrip_witness :
  is_u64 258 /\ Uint64ToBytes 258 = [x00; x00; x00; x00; x00; x00; x01; x02]
  /\ BytesToUint64 (Uint64ToBytes 258) = Ok 258.
Proof.
  assert (H : is_u64 258) by (unfold is_u64; lia).
  split; [exact H|]. split; [vm_compute; reflexivity|].
  exact (proj1 (uint64_bytes_roundtrip 258 258 H H)).
Defined.

Lemma sort_Strings_perm a : sort_Strings a ≡ₚ a.
Proof. apply merge_sort_Permutation. Qed.

Lemma sort_Strings_sorted a : StronglySorted bytes_le (sort_Strings a).
Proof. apply StronglySorted_merge_sort; apply _. Qed.

(** [IsContainString] (the committee and domain membership test) is
    membership, for every slice, although it searches by bisection: it sorts
    first, and the caller's slice is left sorted, a permutation of what it
    was. *)
Lemma IsContainString_spec (target : bytes) (arr : list bytes) :
  let '(found, arr') := IsContainString target arr in
  (found = true <-> target ∈ arr) /\ arr' ≡ₚ arr /\ StronglySorted bytes_le arr'.
Proof.
  unfold IsContainString. split_and!; [|apply sort_Strings_perm|apply sort_Strings_sorted].
  assert (Hm : target ∈ arr <-> target ∈ sort_Strings arr) by (by rewrite sort_Strings_perm).
  rewrite Hm. clear Hm.
  generalize (sort_Strings_sorted arr). generalize (sort_Strings arr) as l. intros l Hs.
  unfold SearchStrings. set (f := fun i => bytes_leb target (nth i l [])).
  destruct (sort_Search_monotone f (length l)) as [Hlo Hhi].
  { intros i j Hij. unfold f. rewrite !bytes_leb_spec. intros Hi.
    destruct (decide (i = j)) as [->|]; [done|]. transitivity (nth i l []); [done|].
    eapply (StronglySorted_lookup_lt _ _ i j); [done| | |lia]; apply nth_lookup_lt; lia. }
  generalize dependent (sort_Search (length l) f). intros r Hlo Hhi.
  rewrite andb_true_iff, Nat.ltb_lt, bool_decide_eq_true. split.
  - intros [Hr <-]. by eapply list_elem_of_lookup_2, nth_lookup_lt.
  - intros [i Hi]%list_elem_of_lookup. pose proof (lookup_lt_Some _ _ _ Hi) as Hil.
    assert (Hfi : f i = true).
    { unfold f. rewrite (nth_lookup_Some _ _ _ _ Hi). apply bytes_leb_spec.
      apply bytes_le_eq_or_lt; by left. }
    assert (Hri : (r <= i)%nat).
    { destruct (decide (r <= i)%nat); [done|]. rewrite Hlo in Hfi; [done|lia]. }
    split; [lia|]. assert (Hfr : f r = true) by (apply Hhi; lia).
    unfold f in Hfr. apply bytes_leb_spec in Hfr.
    destruct (decide (r = i)) as [->|]; [by apply nth_lookup_Some|].
    assert (Hri' : bytes_le (nth r l []) target).
    { eapply (StronglySorted_lookup_lt _ _ r i); [done| |done|lia]. apply nth_lookup_lt; lia. }
    apply bytes_le_lt_iff in Hri'. apply bytes_le_eq_or_lt in Hfr as [|]; done.
Qed.

Lemma RemoveIfExistString_filter target arr :
  RemoveIfExistString target arr = filter (fun s => s <> target) arr.
Proof.
  unfold RemoveIfExistString.
  assert (Hg : forall acc, fold_left (fun rtnArray s =>
      if decide (s <> target) then rtnArray ++ [s] else rtnArray) arr acc
      = acc ++ filter (fun s => s <> target) arr).
  { induction arr as [|s arr IH]; intros acc; simpl; [by rewrite app_nil_r|].
    rewrite filter_cons. destruct (decide (s <> target)); rewrite IH; [|done].
    by rewrite <- app_assoc. }
  apply Hg.
Qed.
(** Every draw the loop keeps is new, so the result has [count] distinct
    numbers of the range. *)
Lemma generate_loop_spec draws start end_ count nums r :
  is_i64 start -> is_i64 end_ -> Forall (fun d => 0 <= d < end_ - start) draws ->
  NoDup nums -> Forall (fun n => start <= n < end_) nums -> (length nums <= count)%nat ->
  generate_loop draws start count nums = Some r ->
  NoDup r /\ Forall (fun n => start <= n < end_) r /\ length r = count.
Proof.
  intros Hs He Hd. revert nums. induction Hd as [|d draws Hd1 Hd IH]; intros nums HN HR HL;
    simpl; destruct (Nat.ltb_spec (length nums) count); intros ?; simplify_eq;
    try (split_and!; [done|done|lia]).
  - rewrite i64_small in * by (unfold is_i64 in *; lia).
    destruct (existsb (Z.eqb (d + start)) nums) eqn:E; [by eapply IH|].
    assert (Hnew : d + start ∉ nums).
    { intros Hin%list_elem_of_In. apply not_true_iff_false in E. apply E, existsb_exists.
      exists (d + start). by rewrite Z.eqb_refl. }
    eapply IH; [| | |done].
    + apply NoDup_app. split_and!; [done| |apply NoDup_singleton].
      intros x Hx ->%list_elem_of_singleton. done.
    + apply Forall_app. split; [done|]. constructor; [lia|constructor].
    + rewrite length_app. simpl. lia.
Qed.

Lemma IsHex_spec s :
  IsHex s = true <-> Nat.Even (length s) /\ Forall (fun c => IsHexCharacter c = true) s.
Proof.
  unfold IsHex. rewrite <- Nat.even_spec. destruct (Nat.even (length s)); simpl.
  - rewrite forallb_forall, Forall_forall. setoid_rewrite list_elem_of_In. naive_solver.
  - split; [done|]. by intros [? _].
Qed.
End Util.

(** * types.go *)
Module Types.

Definition EpochSpan : Z := 300.

(** [DomainType], [NodeState] and [NetworkType] are bytes; values without a name occur, as
    they are read from storage. *)
Definition DomainType : Type := Z.

Definition DomainType_Unknown : DomainType := 0.

Definition DomainType_Execute : DomainType := 1.

Definition DomainType_Consensus : DomainType := 2.

Definition NodeState : Type := Z.

Definition NodeState_Unknown : NodeState := 0.

Definition NodeState_Standby : NodeState := 1.

Definition NodeState_Active : NodeState := 2.

Definition NodeState_Frozen : NodeState := 3.

(** [NodeRole] is a bit set over [uint64]. *)
Definition NodeRole_Unknown : Z := 0.

Definition NodeRole_Executor : Z := 1.

Definition NodeRole_Proposer : Z := 2.

Definition NodeRole_Validator : Z := 4.

Definition NodeRole_Archiver : Z := 8.

Definition NetworkType : Type := Z.

Definition NetworkType_Unknown : NetworkType := 0.

Definition NetworkType_Mainnet : NetworkType := 1.

Definition NetworkType_Testnet : NetworkType := 2.

Inductive LedgerState := LedgerState_Uninitialized | LedgerState_Genesis | LedgerState_AutoInc.

Definition NetworkType_String (n : NetworkType) : bytes :=
  if n =? NetworkType_Mainnet then str "Mainnet"
  else if n =? NetworkType_Testnet then str "Testnet"
  else str "Unknown".

Definition NetworkType_Value (netType : byte) : NetworkType :=
  if Byte.eqb netType "m" then NetworkType_Mainnet
  else if Byte.eqb netType "t" then NetworkType_Testnet
  else NetworkType_Unknown.

Definition NodeRole_String (n : Z) : bytes :=
  if Z.land n NodeRole_Executor =? NodeRole_Executor then str "executor"
  else if Z.land n NodeRole_Proposer =? NodeRole_Proposer then str "proposer"
  else if Z.land n NodeRole_Validator =? NodeRole_Validator then str "validator"
  else str "Unknown".

Definition NodeRole_Value (role : bytes) : Z :=
  if decide (role = str "executor") then NodeRole_Executor
  else if decide (role = str "proposer") then NodeRole_Proposer
  else if decide (role = str "validator") then NodeRole_Validator
  else if decide (role = str "archiver") then NodeRole_Archiver
  else NodeRole_Unknown.

Record NodeDomainMember := mkNodeDomainMember {
  ndm_NodeID : bytes;
  ndm_NodeRole : Z;
  ndm_Weight : Z;
}.

Record NodeConsensusDomain := mkNodeConsensusDomain {
  ncd_Threshold : Z;
  ncd_NParticipant : Z;
  ncd_PublicKey : option bytes;
  ncd_PubShares : option (list (option bytes));
  ncd_Members : option (list (option NodeDomainMember));
}.

Record NodeExecuteDomain := mkNodeExecuteDomain {
  ned_Members : option (list bytes);
}.

Record NodeDomainInfo := mkNodeDomainInfo {
  nd_ID : bytes;
  nd_Type : DomainType;
  nd_ValidHeightStart : Z;
  nd_ValidHeightEnd : Z;
  nd_CSDomainData : option NodeConsensusDomain;
  nd_ExeDomainData : option NodeExecuteDomain;
}.

Record NodeInfo := mkNodeInfo {
  NodeID : bytes;
  Address : bytes;
  Weight : Z;
  DKGPartPubKey : bytes;
  DKGPriShare : option bytes;
  Role : Z;
  State : NodeState;
}.

Record EpochInfo := mkEpochInfo {
  Epoch : Z;
  StartTimeStamp : Z;
  StartHeight : Z;
}.

(** A nil member is dereferenced. *)
Fixpoint NodeIDs (nodeM : list (option NodeDomainMember)) : go (list bytes) :=
  match nodeM with
  | [] => Ok []
  | None :: _ => Panic
  | Some m :: nodeM => nIDs ← NodeIDs nodeM; Ok (ndm_NodeID m :: nIDs)
  end.

(** The three working roles print and parse back; the archiver role has a
    value but no name of its own. *)
Lemma NodeRole_String_Value :
  (forall r, r ∈ [NodeRole_Executor; NodeRole_Proposer; NodeRole_Validator] ->
     NodeRole_Value (NodeRole_String r) = r)
  /\ NodeRole_Value (NodeRole_String NodeRole_Archiver) = NodeRole_Unknown.
Proof.
  split; [|vm_compute; reflexivity].
  intros r Hr. rewrite !elem_of_cons in Hr.
  destruct Hr as [->|[->|[->|Hr]]]; [vm_compute; reflexivity..|].
  by apply elem_of_nil in Hr.
Qed.
End Types.
