(* ===== verification/VersionManager.v ===== *)
(** The version sets of the storage backends: the [VersionManager] of
    [src/ledger/backend/common/version_manager.go].  A backend keeps one and
    copies it before every change, so a [VersionSet] handed to a client never
    changes under it. *)
From Stdlib Require Import ZArith Lia.
From stdpp Require Import base gmap list sorting.
From S2P Require Import Prelude.
#[local] Open Scope Z_scope.

Module VersionManager.

Record VersionManager := mkVersionManager {
  versions : gset Z;
  initial : Z;
  last : Z;
}.

Inductive version_error :=
| TargetTooSmall (target next : Z)
| VersionExists (target : Z).

#[export] Instance version_error_eq_dec : EqDecision version_error.
Proof. solve_decision. Defined.

Definition NewVersionManager (vs : list Z) : VersionManager :=
  let step '(vmap, init, last) ver :=
    ({[ver]} ∪ vmap,
     if (init =? 0) || (ver <? init) then ver else init,
     if ver >? last then ver else last) in
  let '(vmap, init, last) := fold_left step vs (∅ : gset Z, 0, 0) in
  mkVersionManager vmap init last.

Definition Exists (vm : VersionManager) (version : Z) : bool :=
  bool_decide (version ∈ versions vm).

Definition Last (vm : VersionManager) : Z := last vm.

Definition Initial (vm : VersionManager) : Z := initial vm.

Definition Count (vm : VersionManager) : nat := size (versions vm).

Definition Save (vm : VersionManager) (target : Z) : outcome version_error (VersionManager * Z) :=
  let next := u64 (Last vm + 1) in
  if negb (target =? 0) && (target <? next) then Err (TargetTooSmall target next)
  else
    let target := if target =? 0 then next else target in
    if bool_decide (target ∈ versions vm) then Err (VersionExists target)
    else
      let versions' := {[target]} ∪ versions vm in
      let initial' := if (size versions' =? 1)%nat then target else initial vm in
      Ok (mkVersionManager versions' initial' target, target).

(** Go visits a map in an unspecified order: [m] is the order of this visit. *)
Definition findLimit (m : list Z) (cmp : Z -> Z -> bool) (init : Z) : Z :=
  fold_left (fun init x => if cmp x init then x else init) m init.

Definition Delete (vm : VersionManager) (target : Z) : VersionManager :=
  let versions' := versions vm ∖ {[target]} in
  let last' :=
    if target =? last vm then findLimit (elements versions') (fun x max => x >? max) 0
    else last vm in
  let initial' :=
    if target =? initial vm then findLimit (elements versions') (fun x min => x <? min) last'
    else initial vm in
  mkVersionManager versions' initial' last'.

(** The iterator receives from a channel a goroutine feeds with every version
    once; the channel's pending sends are the list. *)
Record vmIterator := mkvmIterator {
  ch : list Z;
  open : bool;
  buf : Z;
}.

Definition Iterator (vm : VersionManager) : vmIterator :=
  mkvmIterator (elements (versions vm)) false 0.

Definition Next (vi : vmIterator) : vmIterator * bool :=
  match ch vi with
  | ver :: rest => (mkvmIterator rest true ver, true)
  | [] => (mkvmIterator [] false 0, false)
  end.

Definition Value (vi : vmIterator) : Z := buf vi.

(** The loop of [Equal]; its fuel is one more than the versions to receive. *)
Fixpoint equal_loop (fuel : nat) (vm : VersionManager) (it : vmIterator) : bool :=
  match fuel with
  | O => true
  | S fuel' =>
      let '(it', ok) := Next it in
      if ok then
        if Exists vm (Value it') then equal_loop fuel' vm it' else false
      else true
  end.

Definition Equal (vm that : VersionManager) : bool :=
  if negb (Count vm =? Count that)%nat then false
  else equal_loop (S (Count that)) vm (Iterator that).

Definition Copy (vm : VersionManager) : VersionManager :=
  mkVersionManager (set_fold (fun ver vmap => {[ver]} ∪ vmap) ∅ (versions vm))
    (initial vm) (last vm).

(** * Well-formedness

    [last] is the greatest version and [initial] the least one, both 0 when
    there is none, and version 0 is never in the set (it stands for "none"). *)
Record wf (vm : VersionManager) : Prop := {
  wf_range : forall v, v ∈ versions vm -> 0 < v < 2 ^ 64;
  wf_last : forall v, v ∈ versions vm -> v <= last vm;
  wf_last_in : last vm ∈ versions vm \/ (versions vm = ∅ /\ last vm = 0);
  wf_initial : forall v, v ∈ versions vm -> initial vm <= v;
  wf_initial_in : initial vm ∈ versions vm \/ (versions vm = ∅ /\ initial vm = 0);
}.

Lemma wf_last_u64 vm : wf vm -> is_u64 (last vm).
Proof.
  intros [Hr _ [Hl|[_ ->]] _ _]; unfold is_u64; [|lia]. specialize (Hr _ Hl). lia.
Qed.

(** The visit order does not matter: an upper (or lower) bound that is the
    start value or an element is the greatest (or least) one. *)
Lemma findLimit_max l init :
  let r := findLimit l (fun x max => x >? max) init in
  init <= r /\ (forall x, x ∈ l -> x <= r) /\ (r = init \/ r ∈ l).
Proof.
  unfold findLimit. simpl. revert init. induction l as [|y l IH]; intros init; simpl.
  - split_and!; [lia|by intros ? ?%elem_of_nil|by left].
  - specialize (IH (if y >? init then y else init)). simpl in IH.
    destruct IH as (H1 & H2 & H3). rewrite Z.gtb_ltb in *.
    destruct (Z.ltb_spec init y); split_and!; try lia;
      try (intros x [->|]%elem_of_cons; auto with lia);
      rewrite elem_of_cons; naive_solver.
Qed.

Lemma findLimit_min l init :
  let r := findLimit l (fun x min => x <? min) init in
  r <= init /\ (forall x, x ∈ l -> r <= x) /\ (r = init \/ r ∈ l).
Proof.
  unfold findLimit. simpl. revert init. induction l as [|y l IH]; intros init; simpl.
  - split_and!; [lia|by intros ? ?%elem_of_nil|by left].
  - specialize (IH (if y <? init then y else init)). simpl in IH.
    destruct IH as (H1 & H2 & H3).
    destruct (Z.ltb_spec y init); split_and!; try lia;
      try (intros x [->|]%elem_of_cons; auto with lia);
      rewrite elem_of_cons; naive_solver.
Qed.

Lemma Copy_eq vm : Copy vm = vm.
Proof.
  destruct vm as [vs i l]. unfold Copy. simpl. f_equal.
  apply (set_fold_ind_L (fun r X => r = X)); [done|]. by intros x X r _ ->.
Qed.

Lemma wf_empty : wf (NewVersionManager []).
Proof. split; simpl; try (intros v Hv; by apply elem_of_empty in Hv); by right. Qed.

(** What a successful [Save] does, as one function. *)
Definition add_version (vm : VersionManager) (t : Z) : VersionManager :=
  mkVersionManager ({[t]} ∪ versions vm)
    (if (size ({[t]} ∪ versions vm) =? 1)%nat then t else initial vm) t.

Lemma add_version_wf vm t : wf vm -> last vm < t < 2 ^ 64 -> wf (add_version vm t).
Proof.
  intros Hwf Ht. pose proof (wf_last_u64 vm Hwf) as Hl. unfold is_u64 in Hl.
  destruct Hwf as [Hr Hla Hli Hin Hini].
  assert (Hnew : t ∉ versions vm) by (intros Hv%Hla; lia).
  assert (Hsz : size ({[t]} ∪ versions vm) = S (size (versions vm))).
  { rewrite size_union by set_solver. by rewrite size_singleton. }
  split; simpl; rewrite ?Hsz.
  - intros v [->%elem_of_singleton|Hv]%elem_of_union; [lia|auto].
  - intros v [->%elem_of_singleton|Hv]%elem_of_union; [lia|]. specialize (Hla v Hv). lia.
  - left. set_solver.
  - destruct Hini as [Hini|[He Hi]].
    + assert (size (versions vm) <> 0%nat) as Hne by (apply size_non_empty_iff; set_solver).
      destruct (Nat.eqb_spec (S (size (versions vm))) 1); [lia|].
      intros v [->%elem_of_singleton|Hv]%elem_of_union; [|auto]. specialize (Hla _ Hini). lia.
    + rewrite He, size_empty. simpl. intros v [->%elem_of_singleton|Hv]%elem_of_union; [lia|].
      set_solver.
  - left. destruct Hini as [Hini|[He Hi]].
    + assert (size (versions vm) <> 0%nat) as Hne by (apply size_non_empty_iff; set_solver).
      destruct (Nat.eqb_spec (S (size (versions vm))) 1); [lia|]. set_solver.
    + rewrite He, size_empty. simpl. set_solver.
Qed.

Lemma Save_spec vm target :
  wf vm -> is_u64 target -> last vm + 1 < 2 ^ 64 ->
  Save vm target =
    if decide (target = 0) then Ok (add_version vm (last vm + 1), last vm + 1)
    else if decide (target <= last vm) then Err (TargetTooSmall target (last vm + 1))
    else Ok (add_version vm target, target).
Proof.
  intros Hwf Ht Hmax. pose proof (wf_last_u64 vm Hwf) as Hl. unfold is_u64 in *.
  assert (Hnew : forall t, last vm < t -> t ∉ versions vm).
  { intros t Hlt Hv%(wf_last vm Hwf). lia. }
  unfold Save, Last. rewrite u64_small by (unfold is_u64; lia).
  destruct (Z.eqb_spec target 0) as [->|Ht0]; simpl.
  - rewrite bool_decide_eq_false_2 by (apply Hnew; lia). done.
  - destruct (decide (target = 0)); [lia|].
    destruct (Z.ltb_spec target (last vm + 1)); simpl; case_decide; try lia; [done|].
    rewrite bool_decide_eq_false_2 by (apply Hnew; lia). done.
Qed.

Lemma Delete_wf vm target : wf vm -> wf (Delete vm target).
Proof.
  intros [Hr Hla Hli Hin Hini].
  destruct (findLimit_max (elements (versions vm ∖ {[target]})) 0) as (M0 & M1 & M2).
  set (last' := last (Delete vm target)).
  destruct (findLimit_min (elements (versions vm ∖ {[target]})) last') as (N0 & N1 & N2).
  set (mx := findLimit _ (fun x max => x >? max) 0) in *.
  assert (Hlast : (forall v, v ∈ versions vm ∖ {[target]} -> v <= last')
     /\ (last' ∈ versions vm ∖ {[target]} \/ (versions vm ∖ {[target]} = ∅ /\ last' = 0))).
  { unfold last', Delete. simpl. destruct (Z.eqb_spec target (last vm)) as [->|Hne].
    - fold mx. split; [intros v Hv; by apply M1, elem_of_elements|].
      destruct M2 as [M2|M2]; [|left; by apply elem_of_elements].
      right. split; [|done]. apply elem_of_equiv_empty_L. intros v Hv.
      pose proof (M1 v (proj2 (elem_of_elements _ _) Hv)).
      assert (0 < v < 2 ^ 64) by (apply Hr; set_solver). lia.
    - split; [set_solver|]. destruct Hli as [Hli|[He ->]]; [left; set_solver|].
      right. set_solver. }
  destruct Hlast as [HL1 HL2].
  assert (Hinit : initial (Delete vm target) =
    if target =? initial vm
    then findLimit (elements (versions vm ∖ {[target]})) (fun x min => x <? min) last'
    else initial vm) by done.
  split; fold last'; try done; rewrite ?Hinit; clearbody last'; simpl.
  - set_solver.
  - destruct (Z.eqb_spec target (initial vm)) as [_|Hne]; [|set_solver].
    intros v Hv. by apply N1, elem_of_elements.
  - destruct (Z.eqb_spec target (initial vm)) as [_|Hne].
    + destruct N2 as [->|N2]; [done|left; by apply elem_of_elements].
    + destruct Hini as [Hini|[He ->]]; [left; set_solver|right; set_solver].
Qed.

Lemma equal_loop_spec l vm o b fuel :
  (length l < fuel)%nat ->
  equal_loop fuel vm (mkvmIterator l o b) = true <-> (forall v, v ∈ l -> v ∈ versions vm).
Proof.
  revert l o b. induction fuel as [|fuel IH]; intros l o b Hf; [lia|].
  destruct l as [|v l]; simpl.
  - split; [|done]. by intros _ v ?%elem_of_nil.
  - unfold Value, Exists. simpl. case_bool_decide as Hv.
    + rewrite IH by (simpl in Hf; lia). setoid_rewrite elem_of_cons. naive_solver.
    + split; [done|]. intros H. exfalso. apply Hv, H, elem_of_cons. by left.
Qed.

Definition new_step : gset Z * Z * Z -> Z -> gset Z * Z * Z :=
  fun '(vmap, init, last) ver =>
    ({[ver]} ∪ vmap,
     if (init =? 0) || (ver <? init) then ver else init,
     if ver >? last then ver else last).

Lemma new_step_wf X i l ver :
  wf (mkVersionManager X i l) -> 0 < ver < 2 ^ 64 ->
  let '(X', i', l') := new_step (X, i, l) ver in wf (mkVersionManager X' i' l').
Proof.
  intros [Hr Hla Hli Hin Hini] Hv. simpl in *. rewrite Z.gtb_ltb.
  assert (Hi : X = ∅ /\ i = 0 /\ l = 0 \/ i ∈ X /\ l ∈ X /\ i <> 0 /\ i <= l).
  { destruct Hini as [Hini|[-> ->]]; [right|left; set_solver].
    specialize (Hla _ Hini). destruct Hli as [Hli|[-> _]]; [|set_solver].
    split_and!; try done. specialize (Hr _ Hini). lia. }
  destruct Hi as [(-> & -> & ->)|(Hi & Hl & Hi0 & Hil)].
  - rewrite (proj2 (Z.ltb_lt 0 ver)) by lia. simpl.
    split; simpl; try (intros v [->%elem_of_singleton|?]%elem_of_union; [lia|set_solver]);
      left; set_solver.
  - destruct (Z.eqb_spec i 0); [done|]. simpl.
    destruct (Z.ltb_spec ver i), (Z.ltb_spec l ver); split; simpl;
      try (intros v [->%elem_of_singleton|HX]%elem_of_union;
           [lia|specialize (Hr _ HX); specialize (Hla _ HX); specialize (Hin _ HX); lia]);
      left; set_solver.
Qed.

Lemma new_fold_wf vs X i l :
  wf (mkVersionManager X i l) -> Forall (fun v => 0 < v < 2 ^ 64) vs ->
  let '(X', i', l') := fold_left new_step vs (X, i, l) in
  wf (mkVersionManager X' i' l') /\ X' = list_to_set vs ∪ X.
Proof.
  intros Hwf Hvs. revert X i l Hwf. induction Hvs as [|v vs Hv Hvs IH]; intros X i l Hwf.
  - simpl. split; [done|set_solver].
  - pose proof (new_step_wf X i l v Hwf Hv) as Hs. cbn [fold_left].
    destruct (new_step (X, i, l) v) as [[X1 i1] l1] eqn:E.
    specialize (IH _ _ _ Hs). destruct (fold_left new_step vs (X1, i1, l1)) as [[X' i'] l'].
    destruct IH as [IH ->]. split; [done|]. unfold new_step in E. simplify_eq. set_solver.
Qed.

(** C35. A version set built from saved version ids (in any order, with
    repetitions), or changed by [Save] and [Delete], is well formed: [last] is
    its maximum and [initial] its minimum.  Below the [uint64] limit [Save]
    fails only on a target that is not beyond [last], and otherwise returns a
    version greater than every existing one and adds exactly it. *)
Theorem version_set_invariant (vs : list Z) (vm : VersionManager) (target : Z) :
  Forall (fun v => 0 < v < 2 ^ 64) vs -> wf vm -> is_u64 target -> last vm + 1 < 2 ^ 64 ->
  wf (NewVersionManager vs) /\ versions (NewVersionManager vs) = list_to_set vs
  /\ wf (Delete vm target) /\ versions (Delete vm target) = versions vm ∖ {[target]}
  /\ match Save vm target with
     | Ok (vm', v) =>
         wf vm' /\ v = last vm' /\ (forall w, w ∈ versions vm -> w < v)
         /\ versions vm' = {[v]} ∪ versions vm
     | Err e => 0 < target <= last vm /\ e = TargetTooSmall target (last vm + 1)
     | Panic => False
     end.
Proof.
  intros Hvs Hwf Ht Hmax.
  pose proof (new_fold_wf vs ∅ 0 0 wf_empty Hvs) as Hnew.
  change (NewVersionManager vs) with
    (let '(vmap, init, last) := fold_left new_step vs (∅ : gset Z, 0, 0) in
     mkVersionManager vmap init last).
  destruct (fold_left new_step vs (∅ : gset Z, 0, 0)) as [[X i] l].
  destruct Hnew as [Hnew ->]. split_and!; [done|set_solver|by apply Delete_wf|done|].
  pose proof (wf_last vm Hwf) as Hla. rewrite (Save_spec vm target) by done.
  unfold is_u64 in Ht. repeat case_decide; simpl.
  - split_and!; [apply add_version_wf; [done|lia]|done| |done].
    intros w Hw%Hla. lia.
  - split; [lia|done].
  - split_and!; [apply add_version_wf; [done|lia]|done| |done].
    intros w Hw%Hla. lia.
Qed.

Lemma version_set_invariant_witness :
  wf (NewVersionManager [7; 3; 7]) /\ last (NewVersionManager [7; 3; 7]) = 7
  /\ initial (NewVersionManager [7; 3; 7]) = 3.
Proof.
  split; [|split; vm_compute; reflexivity].
  apply (version_set_invariant [7; 3; 7] (NewVersionManager []) 5).
  - repeat constructor; lia.
  - exact wf_empty.
  - unfold is_u64; lia.
  - simpl; lia.
Defined.

(** [Equal] decides whether two version sets hold the same versions,
    although it only counts and checks one inclusion. *)
Theorem Equal_spec (vm that : VersionManager) :
  Equal vm that = true <-> versions vm = versions that.
Proof.
  unfold Equal, Count, Iterator.
  destruct (Nat.eqb_spec (size (versions vm)) (size (versions that))) as [Hs|Hs]; cbn [negb].
  - rewrite equal_loop_spec by (unfold size, set_size; simpl; lia).
    setoid_rewrite elem_of_elements. split.
    + intros Hsub. symmetry. apply set_eq. intros v. split; [apply Hsub|].
      assert (Heq : versions that ≡ versions vm).
      { apply set_subseteq_size_equiv; [exact Hsub|lia]. }
      by rewrite Heq.
    + by intros ->.
  - split; [done|]. intros Heq. by rewrite Heq in Hs.
Qed.

(** At the very last version number the next one wraps to 0, the number that
    means "no version": the hypothesis on [last] above is needed. *)
Lemma Save_wraps :
  Save (mkVersionManager {[2 ^ 64 - 1]} (2 ^ 64 - 1) (2 ^ 64 - 1)) 0
  = Ok (mkVersionManager ({[0]} ∪ {[2 ^ 64 - 1]}) (2 ^ 64 - 1) 0, 0).
Proof. vm_compute. reflexivity. Qed.

End VersionManager.
