(* ===== verification/Backend.v ===== *)
(** What the ledger expects of a storage backend
    ([src/ledger/backend/common/interface.go] and error.go): errors, iterators
    over ordered keys, and read-write transactions.  Each interface is a class
    of operations, and a class of laws relates the operations to a finite map
    from non-empty keys to values.  Clients are verified against the laws, the
    in-memory backend and the prefixed views discharge them. *)
From Stdlib Require Import ZArith Lia Strings.Byte.
From stdpp Require Import base gmap list strings sorting.
From S2P Require Import Prelude VersionManager.

(** * error.go *)

Inductive db_error :=
| ErrTransactionClosed
| ErrKeyEmpty
| ErrValueNil
| ErrVersionDoesNotExist
| ErrOpenTransactions
| ErrReadOnly
| ErrInvalidVersion
| ErrVersionManager (e : VersionManager.version_error)
| ErrOther (what : string)
| ErrCombined (ret : db_error) (desc : string) (also : db_error).

#[local] Existing Instance VersionManager.version_error_eq_dec.

#[export] Instance db_error_eq_dec : EqDecision db_error.
Proof. solve_decision. Defined.

Definition ValidateKv (key : bytes) (value : option bytes) : outcome db_error unit :=
  match key, value with
  | [], _ => Err ErrKeyEmpty
  | _, None => Err ErrValueNil
  | _, Some _ => Ok tt
  end.

Definition CombineErrors (ret also : option db_error) (desc : string) : option db_error :=
  match also with
  | None => ret
  | Some a =>
      match ret with
      | Some r => Some (ErrCombined r desc a)
      | None => Some a
      end
  end.

(** * Key-value pairs in key order *)

Abbreviation item := (bytes * bytes)%type.

Abbreviation kvmap := (gmap bytes bytes).

Definition key_lt (x y : item) : Prop := bytes_lt x.1 y.1.

Definition key_le (x y : item) : Prop := bytes_le x.1 y.1.

#[export] Instance key_lt_trans : Transitive key_lt.
Proof. intros x y z. apply bytes_lt_trans. Qed.

#[export] Instance key_le_dec : RelDecision key_le.
Proof. intros x y. unfold key_le. apply _. Defined.

(** [l] is the listing of [m] in ascending key order. *)
Definition lists (m : kvmap) (l : list item) : Prop :=
  StronglySorted key_lt l /\ (forall k v, (k, v) ∈ l <-> m !! k = Some v).

Definition sorted_items (m : kvmap) : list item := merge_sort key_le (map_to_list m).

(** Keys of [start, end), where [None] is an absent bound. *)
Definition in_range (start end_ : option bytes) (k : bytes) : bool :=
  match start with None => true | Some s => bytes_leb s k end
  && match end_ with None => true | Some e => bytes_ltb k e end.

Definition range_items (start end_ : option bytes) (m : kvmap) : list item :=
  filter (fun kv => in_range start end_ kv.1 = true) (sorted_items m).

Lemma key_sorted_unique (l l' : list item) :
  StronglySorted key_lt l -> StronglySorted key_lt l' ->
  (forall x, x ∈ l <-> x ∈ l') -> l = l'.
Proof.
  intros Hl Hl' Heq.
  assert (Hirr : forall x : item, ~ key_lt x x) by (intros x; apply bytes_lt_irrefl).
  revert l' Hl' Heq. induction Hl as [|x l Hl IH Hx]; intros l' Hl' Heq.
  - destruct l' as [|y l']; [done|].
    assert (y ∈ (@nil item)) by (apply Heq; left). by apply not_elem_of_nil in H.
  - destruct Hl' as [|y l' Hl' Hy].
    { assert (x ∈ (@nil item)) by (apply Heq; left). by apply not_elem_of_nil in H. }
    rewrite Forall_forall in Hx, Hy.
    assert (x = y) as ->.
    { assert (Hxin : x ∈ y :: l') by (apply Heq; left).
      assert (Hyin : y ∈ x :: l) by (apply Heq; left).
      apply elem_of_cons in Hxin as [|Hxin], Hyin as [|Hyin]; try done.
      exfalso. eapply (Hirr x). etransitivity; [by apply Hx|by apply Hy]. }
    f_equal. apply IH; [done|]. intros z. specialize (Heq z).
    rewrite !elem_of_cons in Heq.
    split; intros Hz.
    + destruct (proj1 Heq (or_intror Hz)) as [->|]; [|done].
      exfalso. by eapply (Hirr y), Hx.
    + destruct (proj2 Heq (or_intror Hz)) as [->|]; [|done].
      exfalso. by eapply (Hirr y), Hy.
Qed.

Lemma lists_unique m l l' : lists m l -> lists m l' -> l = l'.
Proof.
  intros [Hs He] [Hs' He']. apply key_sorted_unique; [done|done|].
  intros [k v]. by rewrite He, He'.
Qed.

Lemma strictly_sorted {A} (l : list (bytes * A)) : StronglySorted (fun x y => bytes_le x.1 y.1) l -> NoDup l.*1 ->
  StronglySorted (fun x y => bytes_lt x.1 y.1) l.
Proof.
  induction 1 as [|x l Hl IH Hx]; intros Hnd; [constructor|].
  rewrite fmap_cons, NoDup_cons in Hnd. destruct Hnd as [Hnx Hnd].
  constructor; [by apply IH|]. rewrite Forall_forall in *. intros y Hy.
  specialize (Hx y Hy). apply bytes_le_eq_or_lt in Hx as [Hx|]; [|done].
  destruct Hnx. rewrite Hx. by apply list_elem_of_fmap_2.
Qed.

Lemma merge_sort_keys {A} (l : list (bytes * A)) :
  StronglySorted (fun x y => bytes_le x.1 y.1) (merge_sort (fun x y => bytes_le x.1 y.1) l).
Proof.
  apply StronglySorted_merge_sort.
  - intros x y z. apply (transitivity (R := bytes_le)).
  - intros x y. apply (total bytes_le).
Qed.

Lemma sorted_items_lists m : lists m (sorted_items m).
Proof.
  assert (Hperm : sorted_items m ≡ₚ map_to_list m) by apply merge_sort_Permutation.
  split.
  - apply strictly_sorted; [apply merge_sort_keys|]. rewrite Hperm. apply NoDup_fst_map_to_list.
  - intros k v. rewrite Hperm. apply elem_of_map_to_list.
Qed.

Lemma lists_sorted_items m l : lists m l -> l = sorted_items m.
Proof. intros Hl. by eapply lists_unique, sorted_items_lists. Qed.

Lemma elem_of_range_items start end_ m k v :
  (k, v) ∈ range_items start end_ m <-> m !! k = Some v /\ in_range start end_ k = true.
Proof.
  unfold range_items. rewrite list_elem_of_filter. simpl.
  rewrite (proj2 (sorted_items_lists m) k v). tauto.
Qed.

Lemma range_items_sorted start end_ m : StronglySorted key_lt (range_items start end_ m).
Proof. apply StronglySorted_filter, sorted_items_lists. Qed.

(** * Iterators *)

Class DBIterator (I : Type) := {
  it_Next : I -> I * bool;
  it_Key : I -> outcome db_error bytes;
  it_Value : I -> outcome db_error bytes;
  (** the pairs not yet delivered *)
  it_rest : I -> list item;
  (** the iterators the laws are about *)
  it_ok : I -> Prop;
}.

Arguments it_Next : simpl never.
Arguments it_Key : simpl never.
Arguments it_Value : simpl never.
Arguments it_rest : simpl never.
Arguments it_ok : simpl never.

Class DBIteratorLaws (I : Type) `{DBIterator I} := {
  it_next_nil : forall i, it_ok i -> it_rest i = [] -> (it_Next i).2 = false;
  it_next_cons : forall i k v r, it_ok i -> it_rest i = (k, v) :: r ->
    exists i', it_Next i = (i', true) /\ it_ok i' /\ it_rest i' = r
      /\ it_Key i' = Ok k /\ it_Value i' = Ok v;
}.

(** The client's loop [for it.Next() { ... it.Key() ... it.Value() ... }]. *)
Fixpoint drain {I} `{DBIterator I} (fuel : nat) (i : I) : outcome db_error (list item) :=
  match fuel with
  | O => Panic
  | S fuel' =>
      let '(i', ok) := it_Next i in
      if ok then
        k ← it_Key i';
        v ← it_Value i';
        l ← drain fuel' i';
        mret ((k, v) :: l)
      else mret []
  end.

Lemma drain_rest {I} `{DBIteratorLaws I} fuel (i : I) :
  it_ok i -> (length (it_rest i) < fuel)%nat -> drain fuel i = Ok (it_rest i).
Proof.
  revert i. induction fuel as [|fuel IH]; intros i Hok Hf; [lia|]. simpl.
  destruct (it_rest i) as [|[k v] r] eqn:E.
  - pose proof (it_next_nil i Hok E) as Hn. destruct (it_Next i). simpl in Hn. by rewrite Hn.
  - destruct (it_next_cons i k v r Hok E) as (i' & -> & Hok' & Hr & -> & ->). simpl.
    rewrite IH, Hr; [done|done|]. rewrite Hr. simpl in Hf. lia.
Qed.

(** * Transactions

    [S] is the state a transaction handle denotes, with the database behind
    it; a call that fails leaves it unchanged. *)

Class DBReader (S I : Type) := {
  r_Get : S -> bytes -> outcome db_error (option bytes);
  r_Has : S -> bytes -> outcome db_error bool;
  r_Iterator : S -> option bytes -> option bytes -> outcome db_error I;
  r_ReverseIterator : S -> option bytes -> option bytes -> outcome db_error I;
}.

Class DBWriter (S : Type) := {
  w_Set : S -> bytes -> option bytes -> outcome db_error S;
  w_Delete : S -> bytes -> outcome db_error S;
  w_Commit : S -> outcome db_error S;
  w_Discard : S -> S;
}.

(** The database behind a transaction ([Backend] of
    [src/ledger/backend/backend.go]): opening transactions on the current
    contents or on a version, saving, reverting. *)
Class DBBackend (S : Type) := {
  b_Reader : S -> outcome db_error S;
  b_ReaderAt : S -> Z -> outcome db_error S;
  b_ReadWriter : S -> outcome db_error S;
  b_PendingTxCount : S -> Z;
  b_Versions : S -> VersionManager.VersionManager;
  b_SaveVersion : S -> Z -> outcome db_error S;
  b_Revert : S -> S * option db_error;
}.

(** The abstraction: the transactions the laws are about, the pairs an open
    transaction sees ([None] once it is closed) and the pairs the database
    holds. *)
Class DBView (S : Type) := {
  v_ok : S -> Prop;
  v_txn : S -> option kvmap;
  v_db : S -> kvmap;
}.

Arguments b_Reader : simpl never.
Arguments b_ReaderAt : simpl never.
Arguments b_ReadWriter : simpl never.
Arguments b_PendingTxCount : simpl never.
Arguments b_Versions : simpl never.
Arguments b_SaveVersion : simpl never.
Arguments b_Revert : simpl never.
Arguments r_Get : simpl never.
Arguments r_Has : simpl never.
Arguments r_Iterator : simpl never.
Arguments r_ReverseIterator : simpl never.
Arguments w_Set : simpl never.
Arguments w_Delete : simpl never.
Arguments w_Commit : simpl never.
Arguments w_Discard : simpl never.
Arguments v_ok : simpl never.
Arguments v_txn : simpl never.
Arguments v_db : simpl never.

(** [s] is a good state whose transaction is open on [m] over database [d]. *)
Definition opened {S} `{DBView S} (s : S) (m d : kvmap) : Prop :=
  v_ok s /\ v_txn s = Some m /\ v_db s = d.

Definition closed {S} `{DBView S} (s : S) (d : kvmap) : Prop :=
  v_ok s /\ v_txn s = None /\ v_db s = d.

(** An iteration bound that is given is not empty. *)
Definition bound_ok (b : option bytes) : bool :=
  match b with Some [] => false | _ => true end.

Class DBReadWriterLaws (S I : Type)
    `{DBIterator I, !DBReader S I, !DBWriter S, !DBView S} := {
  l_iter :: DBIteratorLaws I;
  l_nonempty : forall s m d, opened s m d -> m !! [] = None;
  l_get : forall s m d k, opened s m d ->
    r_Get s k = if decide (k = []) then Err ErrKeyEmpty else Ok (m !! k);
  l_has : forall s m d k, opened s m d ->
    r_Has s k = if decide (k = []) then Err ErrKeyEmpty
                else Ok (bool_decide (is_Some (m !! k)));
  l_iterator : forall s m d start end_, opened s m d ->
    bound_ok start = true -> bound_ok end_ = true ->
    exists i, r_Iterator s start end_ = Ok i /\ it_ok i /\ it_rest i = range_items start end_ m;
  l_reverse : forall s m d start end_, opened s m d ->
    bound_ok start = true -> bound_ok end_ = true ->
    exists i, r_ReverseIterator s start end_ = Ok i /\ it_ok i
      /\ it_rest i = reverse (range_items start end_ m);
  l_set : forall s m d k v, opened s m d -> k <> [] ->
    exists s', w_Set s k (Some v) = Ok s' /\ opened s' (<[k:=v]> m) d;
  l_set_err : forall s m d k, opened s m d ->
    (forall v, w_Set s [] v = Err ErrKeyEmpty)
    /\ (k <> [] -> w_Set s k None = Err ErrValueNil);
  l_delete : forall s m d k, opened s m d -> k <> [] ->
    exists s', w_Delete s k = Ok s' /\ opened s' (delete k m) d;
  l_delete_err : forall s m d, opened s m d -> w_Delete s [] = Err ErrKeyEmpty;
  l_commit : forall s m d, opened s m d ->
    exists s', w_Commit s = Ok s' /\ closed s' m;
  l_discard : forall s, v_ok s -> closed (w_Discard s) (v_db s);
  l_closed : forall s d k v, closed s d ->
    is_ok (r_Get s k) = false /\ is_ok (r_Has s k) = false
    /\ is_ok (w_Set s k v) = false /\ is_ok (w_Delete s k) = false
    /\ is_ok (w_Commit s) = false;
}.

(** * The reference backend

    The laws read as a program: a transaction is a finite map, an iterator the
    list of the pairs it will deliver.  It shows that the laws can be met. *)
Module RefBackend.

Record list_iter := mkListIter {
  rest : list item;
  current : option item;
}.

Definition of_option {A} (o : option A) : outcome db_error A :=
  match o with Some a => Ok a | None => Panic end.

#[export] Instance list_iterator : DBIterator list_iter := {
  it_Next i := match rest i with
               | x :: r => (mkListIter r (Some x), true)
               | [] => (mkListIter [] None, false)
               end;
  it_Key i := of_option (fst <$> current i);
  it_Value i := of_option (snd <$> current i);
  it_rest := rest;
  it_ok _ := True;
}.

#[export] Instance list_iterator_laws : DBIteratorLaws list_iter.
Proof.
  split; intros [l c]; unfold it_rest, it_Next; simpl.
  - by intros _ ->.
  - intros k v r _ ->. by eexists.
Qed.

Record txn := mkTxn {
  contents : option kvmap;
  db : kvmap;
}.

Definition with_open {A} (t : txn) (f : kvmap -> outcome db_error A) : outcome db_error A :=
  match contents t with Some m => f m | None => Err ErrTransactionClosed end.

#[export] Instance ref_reader : DBReader txn list_iter := {
  r_Get t k := with_open t (fun m => if decide (k = []) then Err ErrKeyEmpty else Ok (m !! k));
  r_Has t k := with_open t (fun m => if decide (k = []) then Err ErrKeyEmpty
                                     else Ok (bool_decide (is_Some (m !! k))));
  r_Iterator t start end_ := with_open t (fun m =>
    if bound_ok start && bound_ok end_ then Ok (mkListIter (range_items start end_ m) None)
    else Err ErrKeyEmpty);
  r_ReverseIterator t start end_ := with_open t (fun m =>
    if bound_ok start && bound_ok end_
    then Ok (mkListIter (reverse (range_items start end_ m)) None)
    else Err ErrKeyEmpty);
}.

#[export] Instance ref_writer : DBWriter txn := {
  w_Set t k v := with_open t (fun m =>
    _ ← ValidateKv k v; mret (mkTxn (Some (<[k:=default [] v]> m)) (db t)));
  w_Delete t k := with_open t (fun m =>
    if decide (k = []) then Err ErrKeyEmpty else Ok (mkTxn (Some (delete k m)) (db t)));
  w_Commit t := with_open t (fun m => Ok (mkTxn None m));
  w_Discard t := mkTxn None (db t);
}.

#[export] Instance ref_view : DBView txn := {
  v_ok t := match contents t with Some m => m !! [] = None | None => True end;
  v_txn := contents;
  v_db := db;
}.

Ltac ref_unfold :=
  unfold opened, closed, v_ok, v_txn, v_db, r_Get, r_Has, r_Iterator, r_ReverseIterator,
    w_Set, w_Delete, w_Commit, w_Discard, with_open in *; simpl in *.

#[export] Instance ref_laws : DBReadWriterLaws txn list_iter.
Proof.
  split; try apply _; intros [c d]; ref_unfold.
  - by intros m d' (Hn & -> & _).
  - by intros m d' k (Hn & -> & _).
  - by intros m d' k (Hn & -> & _).
  - intros m d' start end_ (Hn & -> & _) -> ->. simpl. by eexists.
  - intros m d' start end_ (Hn & -> & _) -> ->. simpl. by eexists.
  - intros m d' k v (Hn & -> & <-) Hk. destruct k as [|b k]; [done|]. simpl.
    eexists. split; [done|]. simpl. by rewrite lookup_insert_ne.
  - intros m d' k (Hn & -> & _). by destruct k.
  - intros m d' k (Hn & -> & <-) Hk. destruct k as [|b k]; [done|]. simpl.
    eexists. split; [done|]. simpl. by rewrite lookup_delete_ne.
  - by intros m d' (Hn & -> & <-).
  - intros m d' (Hn & -> & <-). by eexists.
  - by intros _.
  - by intros d' k v (_ & -> & _).
Qed.
End RefBackend.
