(* ===== verification/Prefixed.v ===== *)
(** Prefixed views of a backend ([src/ledger/backend/backend_prefixed.go]):
    every key of a view is the view's prefix followed by the client's key.
    The file proves that a view of a lawful backend is a lawful backend again,
    whose contents are the pairs under the prefix, and that writing through a
    view leaves every other key alone. *)
From Stdlib Require Import ZArith Lia Strings.Byte.
From stdpp Require Import base gmap list strings sorting.
From S2P Require Import Prelude Backend.

Module Prefixed.

(** [append(BytesCopy(prefix), key...)]; it is nil only when the prefix is
    nil and there is nothing to append. *)
Definition prefixed (prefix key : option bytes) : option bytes :=
  match prefix, key with
  | None, (None | Some []) => None
  | None, Some k => Some k
  | Some p, _ => Some (p ++ default [] key)
  end.

(** The loop of [endIter] from index [i - 1] down. *)
Fixpoint endIter_loop (i : nat) (ret : bytes) : option bytes :=
  match i with
  | O => None
  | S j =>
      match ret !! j with
      | None => None
      | Some c =>
          if (b2z c <? 255)%Z then Some (<[j:=z2b (b2z c + 1)]> ret)
          else if (j =? 0)%nat then None
          else endIter_loop j (<[j:=x00]> ret)
      end
  end.

Definition endIter (bz : option bytes) : outcome db_error (option bytes) :=
  match default [] bz with
  | [] => Panic
  | _ :: _ => Ok (endIter_loop (length (default [] bz)) (default [] bz))
  end.

Definition has_prefix (prefix key : bytes) : bool :=
  bool_decide (take (length prefix) key = prefix).

Section Iterator.
Context {I : Type} `{DBIterator I}.

Record prefixDBIterator := mkPrefixDBIterator {
  pi_prefix : option bytes;
  pi_start : option bytes;
  pi_end : option bytes;
  source : I;
  err : option db_error;
}.

Definition newPrefixIterator (prefix start end_ : option bytes) (source : I) : prefixDBIterator :=
  mkPrefixDBIterator prefix start end_ source None.

Definition Domain (itr : prefixDBIterator) : option bytes * option bytes :=
  (pi_start itr, pi_end itr).

Definition with_source (itr : prefixDBIterator) (i : I) : prefixDBIterator :=
  mkPrefixDBIterator (pi_prefix itr) (pi_start itr) (pi_end itr) i (err itr).

(** [valid] records the error in the iterator before it answers. *)
Definition valid (itr : prefixDBIterator) : outcome db_error (prefixDBIterator * bool) :=
  match err itr with
  | Some _ => Ok (itr, false)
  | None =>
      key ← it_Key (source itr);
      if (length key <? length (default [] (pi_prefix itr)))%nat
         || negb (has_prefix (default [] (pi_prefix itr)) key)
      then Ok (mkPrefixDBIterator (pi_prefix itr) (pi_start itr) (pi_end itr) (source itr)
                 (Some (ErrOther "received invalid key from backend")), false)
      else Ok (itr, true)
  end.

(** [Next] calls itself to skip a key equal to the prefix; each call takes one
    pair from the source, which bounds the recursion.  After a [Next] that
    returned true the source's [Key] does not panic, so the last branch is not
    taken. *)
Fixpoint next_loop (fuel : nat) (itr : prefixDBIterator) : prefixDBIterator * bool :=
  match fuel with
  | O => (itr, false)
  | S fuel' =>
      let '(i', ok) := it_Next (source itr) in
      let itr' := with_source itr i' in
      if negb ok then (itr', false)
      else
        match it_Key i' with
        | Ok key =>
            if negb (has_prefix (default [] (pi_prefix itr)) key) then (itr', false)
            else if bool_decide (key = default [] (pi_prefix itr)) then next_loop fuel' itr'
            else (itr', true)
        | _ => (itr', false)
        end
  end.

Definition Next (itr : prefixDBIterator) : prefixDBIterator * bool :=
  next_loop (S (length (it_rest (source itr)))) itr.

Definition assertIsValid (itr : prefixDBIterator) : outcome db_error unit :=
  '(_, ok) ← valid itr; if ok : bool then Ok tt else Panic.

Definition Key (itr : prefixDBIterator) : outcome db_error bytes :=
  _ ← assertIsValid itr;
  key ← it_Key (source itr);
  mret (drop (length (default [] (pi_prefix itr))) key).

Definition Value (itr : prefixDBIterator) : outcome db_error bytes :=
  _ ← assertIsValid itr; it_Value (source itr).
End Iterator.
Arguments prefixDBIterator I : clear implicits.

Section Views.
Context {S I : Type} `{DBIterator I, !DBReader S I, !DBWriter S}.

(** [BackendRPrefixed], [BackendWPrefixed] and [BackendRWPrefixed] have the
    same two fields. *)
Record BackendRWPrefixed := mkBackendRWPrefixed {
  prefix : option bytes;
  backendRW : S;
}.

Definition NewBackendRWPrefixed (prefix : option bytes) (rw : S) : BackendRWPrefixed :=
  mkBackendRWPrefixed prefix rw.

(** The backend key of a client key. *)
Definition pkey (rp : BackendRWPrefixed) (key : bytes) : bytes :=
  default [] (prefixed (prefix rp) (Some key)).

Definition Get (rp : BackendRWPrefixed) (key : bytes) : outcome db_error (option bytes) :=
  if (length key =? 0)%nat then Err ErrKeyEmpty else r_Get (backendRW rp) (pkey rp key).

Definition Has (rp : BackendRWPrefixed) (key : bytes) : outcome db_error bool :=
  if (length key =? 0)%nat then Err ErrKeyEmpty else r_Has (backendRW rp) (pkey rp key).

Definition iterate (open : S -> option bytes -> option bytes -> outcome db_error I)
    (rp : BackendRWPrefixed) (start end_ : option bytes) : outcome db_error (prefixDBIterator I) :=
  if negb (bound_ok start) || negb (bound_ok end_) then Err ErrKeyEmpty
  else
    pend ← match end_ with
           | None => endIter (prefix rp)
           | Some _ => Ok (prefixed (prefix rp) end_)
           end;
    itr ← open (backendRW rp) (prefixed (prefix rp) start) pend;
    mret (newPrefixIterator (prefix rp) start end_ itr).

Definition Iterator := iterate r_Iterator.

Definition ReverseIterator := iterate r_ReverseIterator.

Definition with_backend (rp : BackendRWPrefixed) (s : S) : BackendRWPrefixed :=
  mkBackendRWPrefixed (prefix rp) s.

Definition Set' (wp : BackendRWPrefixed) (key : bytes) (value : option bytes) :
    outcome db_error BackendRWPrefixed :=
  if (length key =? 0)%nat then Err ErrKeyEmpty
  else s ← w_Set (backendRW wp) (pkey wp key) value; mret (with_backend wp s).

Definition Delete (wp : BackendRWPrefixed) (key : bytes) : outcome db_error BackendRWPrefixed :=
  if (length key =? 0)%nat then Err ErrKeyEmpty
  else s ← w_Delete (backendRW wp) (pkey wp key); mret (with_backend wp s).

Definition Commit (wp : BackendRWPrefixed) : outcome db_error BackendRWPrefixed :=
  s ← w_Commit (backendRW wp); mret (with_backend wp s).

Definition Discard (wp : BackendRWPrefixed) : BackendRWPrefixed :=
  with_backend wp (w_Discard (backendRW wp)).

(** [IteratePrefix] hands out the backend's own iterator over the keys of a
    prefix, all keys for an empty one. *)
Definition IteratePrefix (dbr : S) (prefix : option bytes) : outcome db_error I :=
  match default [] prefix with
  | [] => r_Iterator dbr None None
  | _ :: _ => end_ ← endIter prefix; r_Iterator dbr prefix end_
  end.
End Views.
Arguments BackendRWPrefixed S : clear implicits.

(** * Prefix order

    How keys with a prefix lie in the order of all keys. *)

Lemma has_prefix_app p k : has_prefix p k = true <-> exists x, k = p ++ x.
Proof.
  unfold has_prefix. rewrite bool_decide_eq_true. split.
  - intros Ht. exists (drop (length p) k). by rewrite <- Ht at 1; rewrite take_drop.
  - intros [x ->]. by rewrite take_app_length.
Qed.

Lemma has_prefix_between p a b k :
  bytes_le (p ++ a) k -> bytes_lt k (p ++ b) -> has_prefix p k = true.
Proof.
  intros Hle Hlt. apply has_prefix_app. revert k Hle Hlt.
  induction p as [|c p IH]; intros k; [by exists k|].
  destruct k as [|d k]; unfold bytes_le, bytes_lt in *; simpl; [done|].
  destruct (Z.compare_spec (b2z c) (b2z d)) as [->%(inj b2z)|?|?]; [|intros _|done].
  - rewrite Z.compare_refl. intros H1 H2. destruct (IH k H1 H2) as [x ->]. by exists x.
  - rewrite (proj2 (Z.compare_gt_iff (b2z d) (b2z c))) by lia. done.
Qed.

(** A key above the prefix without it is above every key with it. *)
Lemma no_prefix_above p k x :
  bytes_le p k -> has_prefix p k = false -> bytes_lt (p ++ x) k.
Proof.
  intros Hle Hp. destruct (bytes_lt_total (p ++ x) k) as [|[<-|Hlt]]; [done| |].
  - assert (has_prefix p (p ++ x) = true) by (apply has_prefix_app; by exists x). congruence.
  - rewrite (has_prefix_between p [] x k) in Hp; [done|by rewrite app_nil_r|done].
Qed.

(** [endIter] adds one to the last byte that is not 0xFF and clears the bytes
    behind it; it has no answer for a prefix of 0xFF bytes only. *)
Lemma endIter_loop_spec p z :
  (exists q c n, p = q ++ [c] ++ replicate n xff /\ c <> xff
     /\ endIter_loop (length p) (p ++ z) = Some (q ++ [z2b (b2z c + 1)] ++ replicate n x00 ++ z))
  \/ (p = replicate (length p) xff /\ endIter_loop (length p) (p ++ z) = None).
Proof.
  revert z. induction p as [|c q IH] using rev_ind; intros z; [by right|].
  rewrite length_app. simpl length. rewrite Nat.add_1_r. cbn [endIter_loop].
  rewrite <- app_assoc. rewrite (lookup_app_r q) by lia. rewrite Nat.sub_diag.
  assert (Hins : forall b, <[length q:=b]> (q ++ [c] ++ z) = q ++ [b] ++ z).
  { intros b. rewrite insert_app_r_alt by lia. by rewrite Nat.sub_diag. }
  simpl app at 1. cbn [lookup list_lookup app]. rewrite !Hins.
  destruct (Z.ltb_spec (b2z c) 255).
  - left. exists q, c, 0%nat. simpl. split_and!; [done| |done]. intros ->. vm_compute in H. done.
  - assert (c = xff) as ->.
    { apply (inj b2z). pose proof (b2z_range c). change (b2z xff) with 255%Z. lia. }
    destruct (Nat.eqb_spec (length q) 0) as [Hq|Hq].
    + right. destruct q; [|done]. done.
    + destruct (IH ([x00] ++ z)) as [(q' & c & n & -> & Hc & ->)|[Hq' ->]].
      * left. exists q', c, (n + 1)%nat. rewrite !replicate_add, <- !app_assoc. done.
      * right. split; [|done]. rewrite replicate_S_end. by rewrite <- Hq'.
Qed.

Lemma b2z_succ c : c <> xff -> b2z (z2b (b2z c + 1)) = (b2z c + 1)%Z.
Proof.
  intros Hc. rewrite b2z_z2b. apply Z.mod_small. pose proof (b2z_range c).
  assert (b2z c <> 255%Z) by (by change 255%Z with (b2z xff); intros ?%(inj b2z)). lia.
Qed.

Lemma all_ff_prefix n k : bytes_le (replicate n xff) k -> has_prefix (replicate n xff) k = true.
Proof.
  intros Hle. apply has_prefix_app. revert k Hle.
  induction n as [|n IH]; intros k Hle; [by exists k|].
  destruct k as [|d k]; unfold bytes_le in *; cbn [replicate bytes_Compare] in Hle; [done|].
  pose proof (b2z_range d). change (b2z xff) with 255%Z in Hle.
  destruct (Z.compare_spec 255 (b2z d)) as [Hd|?|?]; [|lia|congruence].
  change 255%Z with (b2z xff) in Hd. apply (inj b2z) in Hd as <-.
  destruct (IH k Hle) as [x ->]. by exists x.
Qed.

Lemma succ_prefix q c k :
  c <> xff -> bytes_le (q ++ [c]) k -> bytes_lt k (q ++ [z2b (b2z c + 1)]) ->
  has_prefix (q ++ [c]) k = true.
Proof.
  intros Hc Hle Hlt. pose proof (has_prefix_between q _ _ k Hle Hlt) as [y ->]%has_prefix_app.
  unfold bytes_le, bytes_lt in *. rewrite bytes_Compare_app in Hle, Hlt.
  destruct y as [|d y]; simpl in *; [done|]. rewrite (b2z_succ c Hc) in Hlt.
  destruct (Z.compare_spec (b2z c) (b2z d)) as [->%(inj b2z)|?|?]; [|exfalso|congruence].
  - apply has_prefix_app. exists y. by rewrite <- app_assoc.
  - destruct (Z.compare_spec (b2z d) (b2z c + 1)) as [|?|?]; [by destruct y|lia|congruence].
Qed.

Lemma endIter_bound p :
  p <> [] ->
  match endIter (Some p) with
  | Ok (Some e) =>
      (forall x, bytes_lt (p ++ x) e)
      /\ (last p <> Some xff ->
           forall k, bytes_le p k -> bytes_lt k e -> has_prefix p k = true)
      /\ e <> []
  | Ok None => forall k, bytes_le p k -> has_prefix p k = true
  | _ => False
  end.
Proof.
  intros Hp. unfold endIter. simpl.
  destruct (endIter_loop_spec p []) as [(q & c & n & Heq & Hc & Hl)|[Heq Hl]];
    rewrite app_nil_r in Hl; destruct p as [|p0 p']; try done;
    rewrite Hl; clear Hl; generalize dependent (p0 :: p'); intros p _ Heq.
  - rewrite Heq. rewrite !app_nil_r. split_and!.
    + intros x. unfold bytes_lt. rewrite <- app_assoc, bytes_Compare_app. simpl.
      rewrite (b2z_succ c Hc). by rewrite (proj2 (Z.compare_lt_iff _ _)) by lia.
    + intros Hlast k Hle Hlt. destruct n as [|n].
      * by apply succ_prefix.
      * destruct Hlast. rewrite replicate_S_end, !app_assoc. apply last_snoc.
    + by destruct q.
  - intros k. rewrite Heq. apply all_ff_prefix.
Qed.

(** * The prefixed iterator is an iterator *)

Definition strip (p : bytes) (kv : item) : item := (drop (length p) kv.1, kv.2).

(** The pairs a prefixed iterator still delivers, of those of its source. *)
Definition project (p : bytes) (l : list item) : list item :=
  strip p <$> filter (fun kv => kv.1 <> p) (take_while (fun kv => has_prefix p kv.1) l).

Section IteratorLaws.
Context {I : Type} `{DBIteratorLaws I}.

#[export] Instance prefix_iterator : DBIterator (prefixDBIterator I) := {
  it_Next := Next;
  it_Key := Key;
  it_Value := Value;
  it_rest itr := project (default [] (pi_prefix itr)) (it_rest (source itr));
  it_ok itr := it_ok (source itr) /\ err itr = None;
}.

Lemma valid_current (itr : prefixDBIterator I) k v :
  err itr = None -> it_Key (source itr) = Ok k -> it_Value (source itr) = Ok v ->
  has_prefix (default [] (pi_prefix itr)) k = true ->
  Key itr = Ok (drop (length (default [] (pi_prefix itr))) k) /\ Value itr = Ok v.
Proof.
  intros He Hk Hv Hp. unfold Key, Value, assertIsValid, valid.
  rewrite He, Hk. simpl. rewrite Hp.
  destruct (Nat.ltb_spec (length k) (length (default [] (pi_prefix itr)))) as [Hlt|_]; simpl.
  - apply has_prefix_app in Hp as [x ->]. rewrite length_app in Hlt. lia.
  - by split.
Qed.

Lemma next_loop_spec fuel (itr : prefixDBIterator I) :
  it_ok itr -> (length (it_rest (source itr)) < fuel)%nat ->
  match it_rest itr with
  | [] => (next_loop fuel itr).2 = false
  | (k, v) :: r =>
      exists itr', next_loop fuel itr = (itr', true) /\ it_ok itr' /\ it_rest itr' = r
        /\ it_Key itr' = Ok k /\ it_Value itr' = Ok v
  end.
Proof.
  revert itr. induction fuel as [|fuel IH]; intros itr [Hok He] Hf; [lia|].
  unfold it_rest at 1. cbn [prefix_iterator next_loop]. unfold project.
  destruct (it_rest (source itr)) as [|[k v] r] eqn:E.
  - simpl. pose proof (it_next_nil _ Hok E) as Hn.
    destruct (it_Next (source itr)) as [i' b]. simpl in Hn. by subst b.
  - destruct (it_next_cons _ k v r Hok E) as (i' & -> & Hok' & Hr & Hk & Hv).
    cbn [take_while negb]. rewrite Hk. simpl fst.
    destruct (has_prefix (default [] (pi_prefix itr)) k) eqn:Hp; simpl negb; [|done].
    cbv iota. rewrite filter_cons. simpl fst.
    case_bool_decide as Hkp.
    + destruct (decide (k <> default [] (pi_prefix itr))); [done|].
      specialize (IH (with_source itr i')). unfold it_rest at 2, project in IH.
      cbn [prefix_iterator with_source source pi_prefix] in IH. rewrite Hr in IH.
      apply IH; [done|]. simpl in Hf. lia.
    + destruct (decide (k <> default [] (pi_prefix itr))); [|done]. simpl.
      exists (with_source itr i'). split; [done|]. split; [done|].
      split; [unfold it_rest, project; cbn [prefix_iterator]; by rewrite <- Hr|].
      by apply (valid_current (with_source itr i') k v).
Qed.

#[export] Instance prefix_iterator_laws : DBIteratorLaws (prefixDBIterator I).
Proof.
  split.
  - intros itr Hok Hr. pose proof (next_loop_spec _ itr Hok (Nat.lt_succ_diag_r _)) as Hs.
    by rewrite Hr in Hs.
  - intros itr k v r Hok Hr. pose proof (next_loop_spec _ itr Hok (Nat.lt_succ_diag_r _)) as Hs.
    by rewrite Hr in Hs.
Qed.
End IteratorLaws.

(** * The pairs under a prefix *)

Definition view (p : bytes) (m : kvmap) : kvmap :=
  list_to_map (strip p <$> filter (fun kv => has_prefix p kv.1 = true /\ kv.1 <> p)
                             (map_to_list m)).

Lemma elem_of_strip p (P : item -> Prop) `{forall x, Decision (P x)} (l : list item) k v :
  (forall x, P x -> has_prefix p x.1 = true) ->
  (k, v) ∈ strip p <$> filter P l <-> (p ++ k, v) ∈ l /\ P (p ++ k, v).
Proof.
  intros HP. rewrite list_elem_of_fmap. split.
  - intros ([k' v'] & Heq & [HPx Hin]%list_elem_of_filter).
    pose proof (HP _ HPx) as [x Hx]%has_prefix_app. simpl in Hx. subst k'.
    unfold strip in Heq. simpl in Heq. rewrite drop_app_length in Heq. by simplify_eq.
  - intros [Hin HPx]. exists (p ++ k, v). split.
    + unfold strip. simpl. by rewrite drop_app_length.
    + by apply list_elem_of_filter.
Qed.

Lemma lookup_view p m k : view p m !! k = if decide (k = []) then None else m !! (p ++ k).
Proof.
  assert (Hel : forall v, (k, v) ∈ strip p <$> filter (fun kv : item =>
      has_prefix p kv.1 = true /\ kv.1 <> p) (map_to_list m)
      <-> k <> [] /\ m !! (p ++ k) = Some v).
  { intros v. rewrite elem_of_strip by naive_solver. rewrite elem_of_map_to_list. simpl.
    assert (p ++ k <> p <-> k <> []) as ->.
    { rewrite <- (app_nil_r p) at 2. split; [congruence|]. by intros Hk ?%(inj (app p)). }
    assert (has_prefix p (p ++ k) = true) by (apply has_prefix_app; eauto). naive_solver. }
  unfold view. destruct (m !! (p ++ k)) as [v|] eqn:E; case_decide as Hk.
  - apply not_elem_of_list_to_map_1. intros [[k' v'] [-> Hin]]%list_elem_of_fmap.
    apply Hel in Hin. naive_solver.
  - apply elem_of_list_to_map_1'; [|by apply Hel].
    intros v' Hin. apply Hel in Hin. naive_solver.
  - apply not_elem_of_list_to_map_1. intros [[k' v'] [-> Hin]]%list_elem_of_fmap.
    apply Hel in Hin. naive_solver.
  - apply not_elem_of_list_to_map_1. intros [[k' v'] [-> Hin]]%list_elem_of_fmap.
    apply Hel in Hin. simpl in *. naive_solver.
Qed.

Lemma view_insert p m k v : k <> [] -> view p (<[p ++ k:=v]> m) = <[k:=v]> (view p m).
Proof.
  intros Hk. apply map_eq. intros i. rewrite lookup_view.
  destruct (decide (i = k)) as [->|Hik].
  - rewrite !lookup_insert_eq. by rewrite decide_False.
  - rewrite (lookup_insert_ne _ k) by done. rewrite lookup_view.
    rewrite lookup_insert_ne; [done|]. by intros ?%(inj (app p)).
Qed.

Lemma view_delete p m k : view p (delete (p ++ k) m) = delete k (view p m).
Proof.
  apply map_eq. intros i. rewrite lookup_view.
  destruct (decide (i = k)) as [->|Hik].
  - rewrite !lookup_delete_eq. by case_decide.
  - rewrite (lookup_delete_ne _ k) by done. rewrite lookup_view.
    rewrite lookup_delete_ne; [done|]. by intros ?%(inj (app p)).
Qed.

(** Writing a key without the prefix does not change the view. *)
Lemma view_insert_other p m k v : has_prefix p k = false -> view p (<[k:=v]> m) = view p m.
Proof.
  intros Hp. apply map_eq. intros i. rewrite !lookup_view. case_decide; [done|].
  rewrite lookup_insert_ne; [done|]. intros ->.
  assert (has_prefix p (p ++ i) = true) by (apply has_prefix_app; eauto). congruence.
Qed.

Lemma view_delete_other p m k : has_prefix p k = false -> view p (delete k m) = view p m.
Proof.
  intros Hp. apply map_eq. intros i. rewrite !lookup_view. case_decide; [done|].
  rewrite lookup_delete_ne; [done|]. intros ->.
  assert (has_prefix p (p ++ i) = true) by (apply has_prefix_app; eauto). congruence.
Qed.

(** * Ranges of a view *)

(** The bounds a view passes to its backend. *)
Definition backend_range (p : bytes) (start end_ pend : option bytes) : Prop :=
  (end_ = None /\ endIter (Some p) = Ok pend)
  \/ (exists e, end_ = Some e /\ pend = Some (p ++ e)).

Section Ranges.
Context (p : bytes) (start end_ pend : option bytes).
Context (Hp : p <> []) (Hpend : backend_range p start end_ pend).

Let pstart : option bytes := Some (p ++ default [] start).

Lemma in_range_prefixed k : in_range pstart pend (p ++ k) = in_range start end_ k.
Proof.
  unfold in_range, pstart. f_equal.
  - unfold bytes_leb. destruct start; simpl; rewrite bytes_Compare_app; [done|by destruct k].
  - destruct Hpend as [[-> He]|(e & -> & ->)].
    + pose proof (endIter_bound p Hp) as Hb. rewrite He in Hb.
      destruct pend as [e|]; [|done]. destruct Hb as [Hlt _]. by apply bytes_ltb_spec, Hlt.
    + unfold bytes_ltb. by rewrite bytes_Compare_app.
Qed.

Lemma in_range_above k : in_range pstart pend k = true -> bytes_le (p ++ default [] start) k.
Proof. unfold in_range, pstart. intros [Hs _]%andb_true_iff. by apply bytes_leb_spec. Qed.

Lemma in_range_has_prefix k :
  last p <> Some xff -> in_range pstart pend k = true -> has_prefix p k = true.
Proof.
  intros Hff Hin. pose proof (in_range_above k Hin) as Hle.
  unfold in_range in Hin. apply andb_true_iff in Hin as [_ Hin].
  destruct Hpend as [[-> He]|(e & -> & ->)].
  - assert (bytes_le p k) by (etransitivity; [apply bytes_le_app|done]).
    pose proof (endIter_bound p Hp) as Hb. rewrite He in Hb. destruct pend as [e|]; [|auto].
    apply Hb; [done|done|]. by apply bytes_ltb_spec.
  - eapply has_prefix_between; [done|]. by apply bytes_ltb_spec.
Qed.

Lemma project_filter m :
  project p (range_items pstart pend m) =
  strip p <$> filter (fun kv => kv.1 <> p)
    (filter (fun kv => has_prefix p kv.1 = true) (range_items pstart pend m)).
Proof.
  unfold project. do 2 f_equal.
  apply (take_while_filter key_lt); [apply range_items_sorted|].
  intros [k v] [k' v'] Hx Hy Hlt [b Hb]%has_prefix_app. simpl in *. subst k'.
  apply elem_of_range_items in Hx as [_ Hx%in_range_above].
  by eapply has_prefix_between.
Qed.

Lemma strip_sorted l :
  StronglySorted key_lt l -> (forall x, x ∈ l -> has_prefix p x.1 = true) ->
  StronglySorted key_lt (strip p <$> l).
Proof.
  induction 1 as [|[k v] l Hl IH Hx]; intros Hall; [constructor|].
  rewrite fmap_cons. constructor; [apply IH; intros; apply Hall; by right|].
  rewrite Forall_forall in *. intros y ([k' v'] & -> & Hy)%list_elem_of_fmap.
  specialize (Hx _ Hy).
  pose proof (Hall (k, v) ltac:(by left)) as [a Ha]%has_prefix_app.
  pose proof (Hall (k', v') ltac:(by right)) as [b Hb]%has_prefix_app.
  simpl in *. subst. unfold key_lt, bytes_lt, strip in *. simpl in *.
  by rewrite !drop_app_length; rewrite bytes_Compare_app in Hx.
Qed.

(** Iterating the backend over the translated bounds and projecting gives the
    view's own range, in the same order. *)
Lemma project_range m :
  project p (range_items pstart pend m) = range_items start end_ (view p m).
Proof.
  rewrite project_filter, list_filter_filter. apply key_sorted_unique.
  - apply strip_sorted.
    + apply StronglySorted_filter, range_items_sorted.
    + intros x Hx%list_elem_of_filter. naive_solver.
  - apply range_items_sorted.
  - intros [k v]. rewrite elem_of_strip by naive_solver.
    rewrite !elem_of_range_items, lookup_view, in_range_prefixed. simpl.
    assert (has_prefix p (p ++ k) = true) by (apply has_prefix_app; eauto).
    case_decide as Hk.
    + subst k. rewrite app_nil_r. naive_solver.
    + assert (p ++ k <> p).
      { rewrite <- (app_nil_r p) at 2. by intros ?%(inj (app p)). }
      naive_solver.
Qed.

Lemma project_range_reverse m :
  last p <> Some xff ->
  project p (reverse (range_items pstart pend m)) = reverse (range_items start end_ (view p m)).
Proof.
  intros Hff. rewrite <- project_range. unfold project.
  rewrite !take_while_all, filter_reverse, fmap_reverse; [done| |].
  - intros [k v] [_ Hr]%elem_of_range_items. by apply in_range_has_prefix.
  - intros [k v] Hin. rewrite elem_of_reverse in Hin.
    apply elem_of_range_items in Hin as [_ Hr]. by apply in_range_has_prefix.
Qed.
End Ranges.

(** * A view of a lawful backend is a lawful backend *)

(** The prefixes whose last byte can be incremented. *)
Definition good_prefix (p : option bytes) : Prop :=
  default [] p <> [] /\ last (default [] p) <> Some xff.

Section ViewLaws.
Context {S I : Type} `{DBReadWriterLaws S I}.

#[export] Instance view_reader : DBReader (BackendRWPrefixed S) (prefixDBIterator I) := {
  r_Get := Get;
  r_Has := Has;
  r_Iterator := Iterator;
  r_ReverseIterator := ReverseIterator;
}.

#[export] Instance view_writer : DBWriter (BackendRWPrefixed S) := {
  w_Set := Set';
  w_Delete := Delete;
  w_Commit := Commit;
  w_Discard := Discard;
}.

#[export] Instance view_view : DBView (BackendRWPrefixed S) := {
  v_ok rp := v_ok (backendRW rp) /\ good_prefix (prefix rp);
  v_txn rp := view (default [] (prefix rp)) <$> v_txn (backendRW rp);
  v_db rp := view (default [] (prefix rp)) (v_db (backendRW rp));
}.

(** An open view is an open backend transaction and a usable prefix. *)
Lemma opened_view (rp : BackendRWPrefixed S) m d :
  opened rp m d <-> exists p bm bd, prefix rp = Some p /\ p <> [] /\ last p <> Some xff
    /\ opened (backendRW rp) bm bd /\ m = view p bm /\ d = view p bd.
Proof.
  unfold opened at 1. unfold v_ok at 1, v_txn at 1, v_db at 1. simpl. split.
  - intros ((Hok & Hp & Hff) & Ht & Hd). destruct (prefix rp) as [p|]; [|done]. simpl in *.
    apply fmap_Some in Ht as (bm & Ht & ->). exists p, bm, (v_db (backendRW rp)).
    by rewrite Hd.
  - intros (p & bm & bd & -> & Hp & Hff & (Hok & Ht & Hd) & -> & ->). simpl.
    by rewrite Ht, Hd.
Qed.

Lemma pkey_app (rp : BackendRWPrefixed S) p k : prefix rp = Some p -> pkey rp k = p ++ k.
Proof. unfold pkey. by intros ->. Qed.

Lemma view_iterate (opn : S -> option bytes -> option bytes -> outcome db_error I)
    (rp : BackendRWPrefixed S) start end_ p (f : list item -> list item) bm :
  prefix rp = Some p -> p <> [] -> bound_ok start = true -> bound_ok end_ = true ->
  (forall st en, bound_ok st = true -> bound_ok en = true ->
     exists i, opn (backendRW rp) st en = Ok i /\ it_ok i /\ it_rest i = f (range_items st en bm)) ->
  (forall pend, backend_range p start end_ pend ->
     project p (f (range_items (Some (p ++ default [] start)) pend bm))
     = f (range_items start end_ (view p bm))) ->
  exists itr, iterate opn rp start end_ = Ok itr /\ it_ok itr
    /\ it_rest itr = f (range_items start end_ (view p bm)).
Proof.
  intros Hpre Hp Hs He Hopn Hproj. unfold iterate. rewrite Hs, He, Hpre. cbn [negb orb].
  assert (Hpend : exists pend, match end_ with
      | None => endIter (Some p) | Some _ => Ok (prefixed (Some p) end_) end = Ok pend
      /\ backend_range p start end_ pend /\ bound_ok pend = true).
  { pose proof (endIter_bound p Hp) as Hb. unfold backend_range.
    destruct end_ as [e|]; simpl in *.
    - eexists. split; [done|]. split; [right; by exists e|]. by destruct p, e.
    - destruct (endIter (Some p)) as [pend| |]; [|done|done]. exists pend.
      split; [done|]. split; [by left|]. destruct pend as [[|]|]; naive_solver. }
  destruct Hpend as (pend & -> & Hr & Hok). simpl.
  destruct (Hopn (Some (p ++ default [] start)) pend) as (i & -> & Hi & Hrest);
    [by destruct p|done|]. simpl.
  eexists. split; [done|]. split; [done|].
  unfold it_rest. simpl. by rewrite Hrest, Hproj.
Qed.

#[export] Instance view_laws : DBReadWriterLaws (BackendRWPrefixed S) (prefixDBIterator I).
Proof.
  split.
  - apply _.
  - intros rp m d (p & bm & bd & Hpre & Hp & Hff & Ho & -> & ->)%opened_view.
    rewrite lookup_view. by rewrite decide_True.
  - intros rp m d k (p & bm & bd & Hpre & Hp & Hff & Ho & -> & ->)%opened_view.
    unfold r_Get. simpl. unfold Get. rewrite length_eqb_nil.
    rewrite lookup_view. case_bool_decide; repeat case_decide; try done.
    rewrite (l_get _ _ _ _ Ho), (pkey_app _ p) by done. case_decide; [by destruct p|done].
  - intros rp m d k (p & bm & bd & Hpre & Hp & Hff & Ho & -> & ->)%opened_view.
    unfold r_Has. simpl. unfold Has. rewrite length_eqb_nil.
    rewrite lookup_view. case_bool_decide; repeat case_decide; try done.
    rewrite (l_has _ _ _ _ Ho), (pkey_app _ p) by done. case_decide; [by destruct p|done].
  - intros rp m d start end_ (p & bm & bd & Hpre & Hp & Hff & Ho & -> & ->)%opened_view Hs He.
    apply (view_iterate r_Iterator rp start end_ p id bm); try done.
    + intros st en. by apply (l_iterator _ _ bd).
    + intros pend Hr. by apply project_range.
  - intros rp m d start end_ (p & bm & bd & Hpre & Hp & Hff & Ho & -> & ->)%opened_view Hs He.
    apply (view_iterate r_ReverseIterator rp start end_ p reverse bm); try done.
    + intros st en. by apply (l_reverse _ _ bd).
    + intros pend Hr. by apply project_range_reverse.
  - intros rp m d k v (p & bm & bd & Hpre & Hp & Hff & Ho & -> & ->)%opened_view Hk.
    destruct (l_set _ _ _ (p ++ k) v Ho) as (s' & Hs' & Ho'); [by destruct p|].
    exists (with_backend rp s'). unfold w_Set. simpl. unfold Set'.
    rewrite length_eqb_nil, bool_decide_eq_false_2, (pkey_app _ p), Hs' by done.
    split; [done|]. apply opened_view. exists p, (<[p ++ k:=v]> bm), bd.
    by rewrite view_insert.
  - intros rp m d k (p & bm & bd & Hpre & Hp & Hff & Ho & -> & ->)%opened_view.
    unfold w_Set. simpl. unfold Set'. split; [done|]. intros Hk.
    rewrite length_eqb_nil, bool_decide_eq_false_2, (pkey_app _ p) by done.
    by rewrite (proj2 (l_set_err _ _ _ (p ++ k) Ho)) by (by destruct p).
  - intros rp m d k (p & bm & bd & Hpre & Hp & Hff & Ho & -> & ->)%opened_view Hk.
    destruct (l_delete _ _ _ (p ++ k) Ho) as (s' & Hs' & Ho'); [by destruct p|].
    exists (with_backend rp s'). unfold w_Delete. simpl. unfold Delete.
    rewrite length_eqb_nil, bool_decide_eq_false_2, (pkey_app _ p), Hs' by done.
    split; [done|]. apply opened_view. exists p, (delete (p ++ k) bm), bd.
    by rewrite view_delete.
  - done.
  - intros rp m d (p & bm & bd & Hpre & Hp & Hff & Ho & -> & ->)%opened_view.
    destruct (l_commit _ _ _ Ho) as (s' & Hs' & (Hok & Ht & Hd)).
    exists (with_backend rp s'). unfold w_Commit. simpl. unfold Commit. rewrite Hs'.
    split; [done|]. unfold closed, v_ok, v_txn, v_db. simpl.
    by rewrite Ht, Hd, Hpre.
  - intros rp [Hok Hg]. destruct (l_discard _ Hok) as (Hok' & Ht & Hd).
    unfold closed, w_Discard, v_ok, v_txn, v_db. simpl. by rewrite Ht, Hd.
  - intros rp d k v ((Hok & Hg) & Ht & _). unfold v_txn in Ht. simpl in Ht.
    apply fmap_None in Ht.
    destruct (l_closed (backendRW rp) _ (pkey rp k) v (conj Hok (conj Ht eq_refl)))
      as (H1 & H2 & H3 & H4 & H5).
    unfold r_Get, r_Has, w_Set, w_Delete, w_Commit. simpl.
    unfold Get, Has, Set', Delete, Commit.
    destruct (r_Get _ _), (r_Has _ _), (w_Set _ _ _), (w_Delete _ _), (w_Commit _);
      try done; by destruct (length k =? 0)%nat.
Qed.
End ViewLaws.

(** * Properties *)

(** [endIter] bounds a prefix from above: every key with the prefix lies
    in the range from the prefix to [endIter prefix], and when the prefix does
    not end in 0xFF nothing else does.  It has no bound exactly for a prefix
    of 0xFF bytes, above which there are only keys with the prefix. *)
Theorem endIter_range (p k : bytes) :
  p <> [] ->
  exists pend, endIter (Some p) = Ok pend
    /\ (has_prefix p k = true -> in_range (Some p) pend k = true)
    /\ (last p <> Some xff \/ pend = None -> in_range (Some p) pend k = true -> has_prefix p k = true).
Proof.
  intros Hp. pose proof (endIter_bound p Hp) as Hb.
  destruct (endIter (Some p)) as [pend| |]; [|done|done]. exists pend. split; [done|].
  unfold in_range. split.
  - intros [x ->]%has_prefix_app. apply andb_true_iff. split.
    + apply bytes_leb_spec, bytes_le_app.
    + destruct pend as [e|]; [|done]. apply bytes_ltb_spec. by apply Hb.
  - intros Hff [Hle%bytes_leb_spec Hlt]%andb_true_iff.
    destruct pend as [e|]; [|by apply Hb]. apply bytes_ltb_spec in Hlt.
    destruct Hff as [Hff|]; [|done]. by apply Hb.
Qed.

Lemma endIter_range_witness :
  [x61; xff] <> [] /\ endIter (Some [x61; xff]) = Ok (Some [x62; x00])
  /\ in_range (Some [x61; xff]) (Some [x62; x00]) [x61; xff; x07] = true.
Proof.
  assert (Hp : [x61; xff] <> []) by discriminate.
  split; [exact Hp|]. split; [vm_compute; reflexivity|].
  destruct (endIter_range [x61; xff] [x61; xff; x07] Hp) as (pend & He & Hin & _).
  vm_compute in He. injection He as <-. apply Hin. vm_compute. reflexivity.
Defined.

Section Isolation.
Context {S I : Type} `{DBReadWriterLaws S I}.

(** Stores that share a backend under prefixes of which neither extends
    the other do not interfere: a [Set] or [Delete] through one view changes
    that view as it would change a map of its own, leaves the other view as
    it was, and touches no backend key outside its prefix. *)
Theorem prefixed_isolation (s : S) (bm bd : kvmap) (p q k v : bytes) :
  opened s bm bd -> good_prefix (Some p) -> good_prefix (Some q) ->
  has_prefix p q = false -> has_prefix q p = false -> k <> [] ->
  (exists s1 m1, Set' (NewBackendRWPrefixed (Some p) s) k (Some v) = Ok (NewBackendRWPrefixed (Some p) s1)
     /\ opened s1 m1 bd /\ view p m1 = <[k:=v]> (view p bm) /\ view q m1 = view q bm
     /\ (forall x, has_prefix p x = false -> m1 !! x = bm !! x))
  /\ (exists s2 m2, Delete (NewBackendRWPrefixed (Some p) s) k = Ok (NewBackendRWPrefixed (Some p) s2)
     /\ opened s2 m2 bd /\ view p m2 = delete k (view p bm) /\ view q m2 = view q bm
     /\ (forall x, has_prefix p x = false -> m2 !! x = bm !! x)).
Proof.
  intros Ho [Hp _] [Hq _] Hpq Hqp Hk. simpl in *.
  assert (Hother : has_prefix q (p ++ k) = false).
  { apply not_true_iff_false. intros [x Hx]%has_prefix_app.
    apply not_true_iff_false in Hpq, Hqp. rewrite has_prefix_app in Hpq, Hqp.
    apply app_eq_inv in Hx as [(l & -> & _)|(l & -> & _)]; eauto. }
  assert (Hpk : p ++ k <> []) by (by destruct p).
  assert (Hout : forall x, has_prefix p x = false -> p ++ k <> x).
  { intros x Hx <-. apply not_true_iff_false in Hx. apply Hx, has_prefix_app. eauto. }
  unfold Set', Delete. rewrite length_eqb_nil, bool_decide_eq_false_2 by done.
  rewrite (pkey_app _ p) by done. simpl. split.
  - destruct (l_set s bm bd (p ++ k) v Ho Hpk) as (s1 & -> & Ho1).
    exists s1, (<[p ++ k:=v]> bm). rewrite view_insert, view_insert_other by done.
    split_and!; try done. intros x Hx. rewrite lookup_insert_ne; auto.
  - destruct (l_delete s bm bd (p ++ k) Ho Hpk) as (s2 & -> & Ho2).
    exists s2, (delete (p ++ k) bm). rewrite view_delete, view_delete_other by done.
    split_and!; try done. intros x Hx. rewrite lookup_delete_ne; auto.
Qed.

(** Walking a prefixed store's iterators to the end delivers exactly the
    pairs under the prefix whose keys lie in the requested range, with the
    prefix stripped, in ascending order for [Iterator] and in descending
    order for [ReverseIterator]. *)
Theorem prefixed_iteration (s : S) (bm bd : kvmap) (p : bytes) (start end_ : option bytes) :
  opened s bm bd -> good_prefix (Some p) -> bound_ok start = true -> bound_ok end_ = true ->
  let rp := NewBackendRWPrefixed (Some p) s in
  let r := range_items start end_ (view p bm) in
  (exists i, Iterator rp start end_ = Ok i /\ drain (Datatypes.S (length r)) i = Ok r)
  /\ (exists i, ReverseIterator rp start end_ = Ok i
        /\ drain (Datatypes.S (length r)) i = Ok (reverse r)).
Proof.
  intros Ho [Hp Hff] Hs He rp r.
  assert (Hov : opened rp (view p bm) (view p bd)).
  { apply opened_view. by exists p, bm, bd. }
  split.
  - destruct (l_iterator _ _ _ start end_ Hov Hs He) as (i & Hi & Hok & Hr).
    exists i. split; [done|]. fold r in Hr. rewrite drain_rest by (try done; rewrite Hr; lia).
    by rewrite Hr.
  - destruct (l_reverse _ _ _ start end_ Hov Hs He) as (i & Hi & Hok & Hr).
    exists i. split; [done|]. fold r in Hr.
    rewrite drain_rest by (try done; rewrite Hr, length_reverse; lia). by rewrite Hr.
Qed.
End Isolation.

Import RefBackend.

(** A small backend: three pairs, two of them under the prefix "a". *)
Definition sample : kvmap :=
  {[ str "ax" := str "1"; str "ay" := str "2"; str "b" := str "3" ]}.

Lemma sample_opened : opened (RefBackend.mkTxn (Some sample) ∅) sample ∅.
Proof. split; [vm_compute; reflexivity|]. split; reflexivity. Qed.

Lemma good_prefix_a : good_prefix (Some (str "a")).
Proof. by vm_compute. Qed.

Lemma good_prefix_b : good_prefix (Some (str "b")).
Proof. by vm_compute. Qed.

Lemma prefixed_isolation_witness :
  exists s1 m1, Set' (NewBackendRWPrefixed (Some (str "a")) (RefBackend.mkTxn (Some sample) ∅))
      (str "z") (Some (str "9")) = Ok (NewBackendRWPrefixed (Some (str "a")) s1)
    /\ opened s1 m1 ∅ /\ view (str "b") m1 = view (str "b") sample.
Proof.
  destruct (prefixed_isolation (RefBackend.mkTxn (Some sample) ∅) sample ∅
    (str "a") (str "b") (str "z") (str "9") sample_opened good_prefix_a good_prefix_b
    ltac:(vm_compute; reflexivity) ltac:(vm_compute; reflexivity) ltac:(discriminate))
    as [(s1 & m1 & Hs & Ho & _ & Hb & _) _].
  exists s1, m1. auto.
Defined.

Lemma prefixed_iteration_witness :
  exists i, ReverseIterator (NewBackendRWPrefixed (Some (str "a")) (RefBackend.mkTxn (Some sample) ∅))
      None None = Ok i
    /\ drain 3 i = Ok [(str "y", str "2"); (str "x", str "1")].
Proof.
  destruct (prefixed_iteration (RefBackend.mkTxn (Some sample) ∅) sample ∅ (str "a") None None
    sample_opened good_prefix_a eq_refl eq_refl) as [_ (i & Hi & Hd)].
  exists i. split; [exact Hi|].
  replace (range_items None None (view (str "a") sample))
    with [(str "x", str "1"); (str "y", str "2")] in Hd by (vm_compute; reflexivity).
  exact Hd.
Defined.

(** A prefix that ends in 0xFF is not good for a reason: [endIter] of 01 FF is
    02 00, so the key 02 of somebody else is in the range, and it comes first
    in descending order.  [Next] then answers false at once, although the
    view has a pair. *)
Lemma reverse_ff_prefix_empty :
  let m : kvmap := {[ [x01; xff; x05] := str "v"; [x02] := str "w" ]} in
  let rp := NewBackendRWPrefixed (Some [x01; xff]) (RefBackend.mkTxn (Some m) ∅) in
  view [x01; xff] m !! [x05] = Some (str "v")
  /\ (i ← ReverseIterator rp None None; drain 3 i) = Ok [].
Proof. split; vm_compute; reflexivity. Qed.

End Prefixed.
