(* ===== verification/MemDB.v ===== *)
(** The in-memory backend ([src/ledger/backend/memdb/backend.go] and
    iterator.go).  It keeps B-trees of the third-party package google/btree
    behind pointers: the working tree, one tree per saved version, and the
    trees of the open transactions, several of which may be the same object.
    The model keeps that sharing: trees live in a heap, and everything else
    holds locations.  The main theorem is that this is indistinguishable from
    a store in which every transaction and every version owns a copy of the
    map it was opened on. *)
From Stdlib Require Import ZArith Lia Strings.Byte.
From stdpp Require Import base gmap list strings sorting.
From S2P Require Import Prelude VersionManager Backend.
#[local] Open Scope Z_scope.

(** * google/btree, instantiated with the backend's [item]s

    The traversals are given by the order in which they call the visitor. *)
Class BTree (T : Type) := {
  bt_New : T;
  bt_Get : T -> bytes -> option item;
  bt_Has : T -> bytes -> bool;
  bt_ReplaceOrInsert : T -> item -> T;
  bt_Delete : T -> bytes -> T;
  bt_Clone : T -> T;
  bt_Len : T -> nat;
  bt_Ascend : T -> list item;
  bt_AscendGreaterOrEqual : T -> bytes -> list item;
  bt_AscendRange : T -> bytes -> bytes -> list item;
  bt_Descend : T -> list item;
  bt_DescendLessOrEqual : T -> bytes -> list item;
}.

(** The documented behaviour: an ordered map under [item.Less], which compares
    keys bytewise. *)
Class BTreeLaws (T : Type) `{BTree T} := {
  bt_map : T -> kvmap;
  bt_new : bt_map bt_New = ∅;
  bt_get : forall t k, bt_Get t k = pair k <$> bt_map t !! k;
  bt_has : forall t k, bt_Has t k = bool_decide (is_Some (bt_map t !! k));
  bt_insert : forall t k v, bt_map (bt_ReplaceOrInsert t (k, v)) = <[k:=v]> (bt_map t);
  bt_delete : forall t k, bt_map (bt_Delete t k) = delete k (bt_map t);
  bt_clone : forall t, bt_map (bt_Clone t) = bt_map t;
  bt_len : forall t, bt_Len t = size (bt_map t);
  bt_ascend : forall t, bt_Ascend t = sorted_items (bt_map t);
  bt_ascend_ge : forall t a,
    bt_AscendGreaterOrEqual t a = filter (fun kv => bytes_leb a kv.1 = true) (sorted_items (bt_map t));
  bt_ascend_range : forall t a b,
    bt_AscendRange t a b =
    filter (fun kv => bytes_leb a kv.1 && bytes_ltb kv.1 b = true) (sorted_items (bt_map t));
  bt_descend : forall t, bt_Descend t = reverse (sorted_items (bt_map t));
  bt_descend_le : forall t a,
    bt_DescendLessOrEqual t a =
    reverse (filter (fun kv => bytes_leb kv.1 a = true) (sorted_items (bt_map t)));
}.

(** A concrete tree that meets the laws, for evaluation. *)
Module MapTree.

#[export] Instance map_tree : BTree kvmap := {
  bt_New := ∅;
  bt_Get t k := pair k <$> t !! k;
  bt_Has t k := bool_decide (is_Some (t !! k));
  bt_ReplaceOrInsert t kv := <[kv.1:=kv.2]> t;
  bt_Delete t k := delete k t;
  bt_Clone t := t;
  bt_Len t := size t;
  bt_Ascend := sorted_items;
  bt_AscendGreaterOrEqual t a := filter (fun kv => bytes_leb a kv.1 = true) (sorted_items t);
  bt_AscendRange t a b :=
    filter (fun kv => bytes_leb a kv.1 && bytes_ltb kv.1 b = true) (sorted_items t);
  bt_Descend t := reverse (sorted_items t);
  bt_DescendLessOrEqual t a := reverse (filter (fun kv => bytes_leb kv.1 a = true) (sorted_items t));
}.

#[export] Instance map_tree_laws : BTreeLaws kvmap.
Proof. by refine {| bt_map := fun m => m |}. Defined.

End MapTree.

Module MemDB.

(** * iterator.go *)

(** The iterator receives what the traversal goroutine sends; [ch] is what is
    still to be received.  The goroutine works on the tree the transaction had
    when the iterator was opened, which the interface's contract (no writes
    under an open iterator) makes the same as reading it later. *)
Record memDBIterator := mkMemDBIterator {
  ch : list item;
  it_item : option item;
  it_start : option bytes;
  it_end : option bytes;
}.

(** The visitor's variable [skipEqual] and the items it has sent. *)
Definition visitor (abortLessThan : option bytes) (st : option bytes * list item) (i : item) :
    (option bytes * list item) * bool :=
  let '(skipEqual, sent) := st in
  if bool_decide (skipEqual = Some i.1) then ((None, sent), true)
  else if match abortLessThan with Some a => bytes_ltb i.1 a | None => false end
  then ((skipEqual, sent), false)
  else ((skipEqual, sent ++ [i]), true).

Section Iterator.
Context {T : Type} `{BTree T}.

Definition traverse (t : T) (start end_ : option bytes) (reverse : bool) : list item :=
  let run skipEqual abortLessThan l := (visit (visitor abortLessThan) (skipEqual, []) l).2 in
  match start, end_, reverse with
  | None, None, false => run None None (bt_Ascend t)
  | None, None, true => run None None (bt_Descend t)
  | Some s, None, false => run None None (bt_AscendGreaterOrEqual t s)
  | _, Some e, false => run None None (bt_AscendRange t (default [] start) e)
  | Some s, None, true => run None (Some s) (bt_Descend t)
  | _, Some e, true => run (Some e) start (bt_DescendLessOrEqual t e)
  end.

Definition newMemDBIterator (t : T) (start end_ : option bytes) (reverse : bool) : memDBIterator :=
  mkMemDBIterator (traverse t start end_ reverse) None start end_.
End Iterator.

Definition it_close (i : memDBIterator) : memDBIterator :=
  mkMemDBIterator [] None (it_start i) (it_end i).

Definition it_domain (i : memDBIterator) : option bytes * option bytes := (it_start i, it_end i).

Definition it_next (i : memDBIterator) : memDBIterator * bool :=
  match ch i with
  | x :: r => (mkMemDBIterator r (Some x) (it_start i) (it_end i), true)
  | [] => (mkMemDBIterator [] None (it_start i) (it_end i), false)
  end.

Definition assertIsValid (i : memDBIterator) : outcome db_error item :=
  match it_item i with Some x => Ok x | None => Panic end.

Definition it_key (i : memDBIterator) : outcome db_error bytes :=
  x ← assertIsValid i; mret x.1.

Definition it_value (i : memDBIterator) : outcome db_error bytes :=
  x ← assertIsValid i; mret x.2.

(** * backend.go *)

(** A pointer to a tree is a heap location; location 0 is the nil pointer. *)
Definition nil_loc : nat := 0.

(** A transaction handle: its tree (nil once closed), and whether it is a
    [dbWriter]. *)
Record dbTxn := mkDbTxn {
  tx_btree : nat;
  tx_writer : bool;
}.

Section Backend.
Context {T : Type} `{BTree T}.

(** [heap] holds the trees; [txns] the handles that were given out.  The
    mutex is held for the whole of each method, so methods are atomic. *)
Record MemDBBackend := mkMemDBBackend {
  heap : gmap nat T;
  next_loc : nat;
  btree : nat;
  saved : gmap Z nat;
  vmgr : VersionManager.VersionManager;
  openWriters : Z;
  txns : gmap nat dbTxn;
  next_txn : nat;
}.

Definition NewMemDBBackend : MemDBBackend :=
  mkMemDBBackend {[ 1%nat := bt_New ]} 2 1 ∅ (VersionManager.NewVersionManager []) 0 ∅ 0.

Definition alloc (m : MemDBBackend) (t : T) : MemDBBackend * nat :=
  (mkMemDBBackend (<[next_loc m:=t]> (heap m)) (S (next_loc m)) (btree m) (saved m) (vmgr m)
     (openWriters m) (txns m) (next_txn m), next_loc m).

Definition set_heap (m : MemDBBackend) (l : nat) (t : T) : MemDBBackend :=
  mkMemDBBackend (<[l:=t]> (heap m)) (next_loc m) (btree m) (saved m) (vmgr m)
    (openWriters m) (txns m) (next_txn m).

Definition set_btree (m : MemDBBackend) (b : nat) : MemDBBackend :=
  mkMemDBBackend (heap m) (next_loc m) b (saved m) (vmgr m) (openWriters m) (txns m) (next_txn m).

Definition set_saved (m : MemDBBackend) (s : gmap Z nat) (v : VersionManager.VersionManager) :
    MemDBBackend :=
  mkMemDBBackend (heap m) (next_loc m) (btree m) s v (openWriters m) (txns m) (next_txn m).

Definition set_openWriters (m : MemDBBackend) (n : Z) : MemDBBackend :=
  mkMemDBBackend (heap m) (next_loc m) (btree m) (saved m) (vmgr m) n (txns m) (next_txn m).

Definition set_txn (m : MemDBBackend) (h : nat) (t : dbTxn) : MemDBBackend :=
  mkMemDBBackend (heap m) (next_loc m) (btree m) (saved m) (vmgr m) (openWriters m)
    (<[h:=t]> (txns m)) (next_txn m).

Definition newTxn (m : MemDBBackend) (tree : nat) (writer : bool) : MemDBBackend * nat :=
  (mkMemDBBackend (heap m) (next_loc m) (btree m) (saved m) (vmgr m) (openWriters m)
     (<[next_txn m:=mkDbTxn tree writer]> (txns m)) (S (next_txn m)), next_txn m).

Definition Versions (m : MemDBBackend) : VersionManager.VersionManager := vmgr m.

Definition Reader (m : MemDBBackend) : MemDBBackend * nat := newTxn m (btree m) false.

Definition ReaderAt (m : MemDBBackend) (version : Z) : outcome db_error (MemDBBackend * nat) :=
  match saved m !! version with
  | None => Err ErrVersionDoesNotExist
  | Some tree => Ok (newTxn m tree false)
  end.

(** [Clone] of a nil tree panics. *)
Definition ReadWriter (m : MemDBBackend) : outcome db_error (MemDBBackend * nat) :=
  let m := set_openWriters m (i32 (openWriters m + 1)) in
  match heap m !! btree m with
  | None => Panic
  | Some t => let '(m, l) := alloc m (bt_Clone t) in Ok (newTxn m l true)
  end.

Definition Writer := ReadWriter.

Definition save (m : MemDBBackend) (target : Z) : outcome db_error (MemDBBackend * Z) :=
  if openWriters m >? 0 then Err ErrOpenTransactions
  else
    let newVmgr := VersionManager.Copy (vmgr m) in
    match VersionManager.Save newVmgr target with
    | Ok (newVmgr, target) =>
        Ok (set_saved m (<[target:=btree m]> (saved m)) newVmgr, target)
    | Err e => Err (ErrVersionManager e)
    | Panic => Panic
    end.

Definition SaveNextVersion (m : MemDBBackend) : outcome db_error (MemDBBackend * Z) := save m 0.

Definition SaveVersion (m : MemDBBackend) (target : Z) : outcome db_error MemDBBackend :=
  if target =? 0 then Err ErrInvalidVersion
  else '(m, _) ← save m target; mret m.

Definition DeleteVersion (m : MemDBBackend) (target : Z) : outcome db_error MemDBBackend :=
  match saved m !! target with
  | None => Err ErrVersionDoesNotExist
  | Some _ =>
      let vmgr' := VersionManager.Copy (vmgr m) in
      Ok (set_saved m (delete target (saved m)) (VersionManager.Delete vmgr' target))
  end.

(** The assignment to [btree] is done before the check of [has]. *)
Definition Revert (m : MemDBBackend) : MemDBBackend * option db_error :=
  if openWriters m >? 0 then (m, Some ErrOpenTransactions)
  else
    let last := VersionManager.Last (vmgr m) in
    if last =? 0 then
      let '(m, l) := alloc m bt_New in (set_btree m l, None)
    else
      match saved m !! last with
      | None => (set_btree m nil_loc, Some (ErrOther "bad version history"))
      | Some l =>
          (set_saved (set_btree m l)
             (filter (fun vl => ~ last < vl.1) (saved m)) (vmgr m), None)
      end.

Definition PendingTxCount (m : MemDBBackend) : Z := openWriters m.

(** The tree of a handle, nil when it is closed. *)
Definition tree_of (m : MemDBBackend) (h : nat) : option (nat * T) :=
  tx ← txns m !! h; t ← heap m !! tx_btree tx; mret (tx_btree tx, t).

Definition Get (m : MemDBBackend) (h : nat) (key : bytes) : outcome db_error (option bytes) :=
  match tree_of m h with
  | None => Err ErrTransactionClosed
  | Some (_, t) =>
      if (length key =? 0)%nat then Err ErrKeyEmpty
      else match bt_Get t key with
           | Some i => Ok (Some i.2)
           | None => Ok None
           end
  end.

Definition Has (m : MemDBBackend) (h : nat) (key : bytes) : outcome db_error bool :=
  match tree_of m h with
  | None => Err ErrTransactionClosed
  | Some (_, t) =>
      if (length key =? 0)%nat then Err ErrKeyEmpty else Ok (bt_Has t key)
  end.

Definition Set' (m : MemDBBackend) (h : nat) (key : bytes) (value : option bytes) :
    outcome db_error MemDBBackend :=
  match tree_of m h with
  | None => Err ErrTransactionClosed
  | Some (l, t) =>
      _ ← ValidateKv key value;
      mret (set_heap m l (bt_ReplaceOrInsert t (key, default [] value)))
  end.

Definition Delete (m : MemDBBackend) (h : nat) (key : bytes) : outcome db_error MemDBBackend :=
  match tree_of m h with
  | None => Err ErrTransactionClosed
  | Some (l, t) =>
      if (length key =? 0)%nat then Err ErrKeyEmpty
      else Ok (set_heap m l (bt_Delete t key))
  end.

Definition open_iterator (reverse : bool) (m : MemDBBackend) (h : nat) (start end_ : option bytes) :
    outcome db_error memDBIterator :=
  match tree_of m h with
  | None => Err ErrTransactionClosed
  | Some (_, t) =>
      if negb (bound_ok start) || negb (bound_ok end_) then Err ErrKeyEmpty
      else Ok (newMemDBIterator t start end_ reverse)
  end.

Definition Iterator := open_iterator false.

Definition ReverseIterator := open_iterator true.

(** Both [Discard]s: a writer's also counts itself out. *)
Definition Discard (m : MemDBBackend) (h : nat) : MemDBBackend :=
  match txns m !! h with
  | None => m
  | Some tx =>
      let m1 := set_txn m h (mkDbTxn nil_loc (tx_writer tx)) in
      if negb (tx_btree tx =? nil_loc)%nat && tx_writer tx
      then set_openWriters m1 (i32 (openWriters m1 - 1))
      else m1
  end.

Definition Commit (m : MemDBBackend) (h : nat) : outcome db_error MemDBBackend :=
  match tree_of m h with
  | None => Err ErrTransactionClosed
  | Some (l, _) => Ok (Discard (set_btree m l) h)
  end.

Definition Stats (m : MemDBBackend) : string * nat :=
  ("memDB", match heap m !! btree m with Some t => bt_Len t | None => 0%nat end).
End Backend.
Arguments MemDBBackend T : clear implicits.

(** * The traversal delivers the range *)

(** Not yet below the lower bound. *)
Definition not_below (a : option bytes) (kv : item) : bool :=
  match a with Some a => negb (bytes_ltb kv.1 a) | None => true end.

Lemma visit_sends ab sent l :
  visit (visitor ab) (None, sent) l = (None, sent ++ take_while (not_below ab) l).
Proof.
  revert sent. induction l as [|x l IH]; intros sent; simpl; [by rewrite app_nil_r|].
  unfold not_below at 1. destruct ab as [a|]; simpl.
  - destruct (bytes_ltb x.1 a); simpl; [by rewrite app_nil_r|].
    rewrite IH. by rewrite <- app_assoc.
  - rewrite IH. by rewrite <- app_assoc.
Qed.

Lemma visit_skips e ab sent l :
  NoDup l.*1 ->
  (visit (visitor ab) (Some e, sent) l).2
  = sent ++ take_while (not_below ab) (filter (fun kv => kv.1 <> e) l).
Proof.
  revert sent. induction l as [|x l IH]; intros sent Hnd; simpl; [by rewrite app_nil_r|].
  rewrite fmap_cons, NoDup_cons in Hnd. destruct Hnd as [Hx Hnd]. rewrite filter_cons.
  case_bool_decide as He.
  - injection He as ->. rewrite decide_False by naive_solver. rewrite visit_sends. simpl.
    do 2 f_equal. clear -Hx. induction l as [|y l IH]; [done|].
    rewrite fmap_cons, not_elem_of_cons in Hx. rewrite filter_cons_True by naive_solver.
    f_equal. apply IH. naive_solver.
  - rewrite decide_True by naive_solver. simpl. unfold not_below at 1. destruct ab as [a|].
    + destruct (bytes_ltb x.1 a); simpl; [by rewrite app_nil_r|].
      rewrite IH by done. by rewrite <- app_assoc.
    + rewrite IH by done. by rewrite <- app_assoc.
Qed.

Lemma sorted_NoDup_keys l : StronglySorted key_lt l -> NoDup l.*1.
Proof.
  induction 1 as [|x l Hl IH Hx]; [constructor|]. rewrite fmap_cons. constructor; [|done].
  intros (y & Heq & Hy)%list_elem_of_fmap. rewrite Forall_forall in Hx.
  specialize (Hx y Hy). unfold key_lt in Hx. rewrite Heq in Hx. by apply bytes_lt_irrefl in Hx.
Qed.

(** In descending order, stopping at the lower bound is filtering by it. *)
Lemma descending_take_while ab l :
  StronglySorted key_lt l ->
  take_while (not_below ab) (reverse l) = reverse (filter (fun kv => not_below ab kv = true) l).
Proof.
  intros Hl. rewrite <- filter_reverse.
  apply (take_while_filter (flip key_lt)); [by apply StronglySorted_reverse|].
  intros x y _ _ Hlt. unfold not_below. destruct ab as [a|]; [|done].
  rewrite !negb_true_iff, <- !not_true_iff_false, !bytes_ltb_spec.
  intros Hy Hx. apply Hy. by eapply bytes_lt_trans.
Qed.

Section Traverse.
Context {T : Type} `{BTreeLaws T}.

Lemma traverse_forward t start end_ :
  traverse t start end_ false = range_items start end_ (bt_map t).
Proof.
  assert (Hall : forall sent l, visit (visitor None) (None, sent) l = (None, sent ++ l)).
  { intros sent l. rewrite visit_sends, take_while_all; done. }
  unfold traverse. destruct start as [s|], end_ as [e|]; rewrite Hall; simpl.
  - by rewrite bt_ascend_range.
  - rewrite bt_ascend_ge. apply list_filter_iff. intros [k v]. unfold in_range.
    by rewrite andb_true_r.
  - rewrite bt_ascend_range. apply list_filter_iff. intros [k v]. unfold in_range. simpl.
    rewrite !andb_true_iff, bytes_leb_spec. unfold bytes_le. by destruct k; naive_solver.
  - rewrite bt_ascend. unfold range_items. induction (sorted_items (bt_map t)) as [|x l IH]; [done|].
    by rewrite filter_cons_True, <- IH.
Qed.

Lemma traverse_reverse t start end_ :
  traverse t start end_ true = reverse (range_items start end_ (bt_map t)).
Proof.
  pose proof (proj1 (sorted_items_lists (bt_map t))) as Hs.
  assert (Hall : forall sent l, visit (visitor None) (None, sent) l = (None, sent ++ l)).
  { intros sent l. rewrite visit_sends, take_while_all; done. }
  unfold traverse. destruct end_ as [e|].
  - assert (Hnd : NoDup (bt_DescendLessOrEqual t e).*1).
    { rewrite bt_descend_le, fmap_reverse, reverse_Permutation. by apply sorted_NoDup_keys, StronglySorted_filter. }
    assert (Hmain : (visit (visitor start) (Some e, []) (bt_DescendLessOrEqual t e)).2
      = reverse (range_items start (Some e) (bt_map t))).
    { rewrite visit_skips by done. simpl. rewrite bt_descend_le, filter_reverse.
      rewrite descending_take_while by (by apply StronglySorted_filter, StronglySorted_filter).
      f_equal. rewrite !list_filter_filter. apply list_filter_iff. intros [k v].
      unfold in_range, not_below. simpl.
      rewrite andb_true_iff, bytes_ltb_spec, bytes_leb_spec, bytes_le_eq_or_lt.
      assert (bytes_lt k e -> k <> e) by (intros Hlt ->; by apply bytes_lt_irrefl in Hlt).
      destruct start as [s|]; [|naive_solver].
      rewrite negb_true_iff, <- not_true_iff_false, bytes_ltb_spec, bytes_leb_spec, bytes_le_lt_iff.
      naive_solver. }
    by destruct start.
  - destruct start as [s|].
    + rewrite visit_sends, bt_descend, descending_take_while by done. simpl. f_equal.
      apply list_filter_iff. intros [k v]. unfold in_range, not_below. simpl.
      by rewrite andb_true_r, negb_true_iff, <- not_true_iff_false, bytes_ltb_spec,
        bytes_leb_spec, bytes_le_lt_iff.
    + rewrite Hall. simpl. rewrite bt_descend. f_equal. unfold range_items.
      induction (sorted_items (bt_map t)) as [|x l IH]; [done|].
      rewrite filter_cons_True by done. f_equal. apply IH. by inversion Hs.
Qed.
End Traverse.

(** * The abstract versioned store

    Every transaction and every saved version owns its map. *)

Record store := mkStore {
  s_cur : kvmap;
  s_saved : gmap Z kvmap;
  s_vers : VersionManager.VersionManager;
  s_txns : gmap nat (option kvmap * bool);
  s_next : nat;
}.

Definition store_init : store :=
  mkStore ∅ ∅ (VersionManager.NewVersionManager []) ∅ 0.

(** The calls of the backend and of its transactions, and their answers. *)
Inductive call :=
| CReader
| CReaderAt (version : Z)
| CReadWriter
| CSaveNext
| CSave (target : Z)
| CDeleteVersion (target : Z)
| CRevert
| CGet (h : nat) (k : bytes)
| CHas (h : nat) (k : bytes)
| CIterate (h : nat) (reverse : bool) (start end_ : option bytes)
| CSet (h : nat) (k : bytes) (v : option bytes)
| CDelete (h : nat) (k : bytes)
| CCommit (h : nat)
| CDiscard (h : nat).

Inductive answer :=
| AHandle (h : nat)
| AVersion (v : Z)
| AValue (v : option bytes)
| ABool (b : bool)
| AItems (l : list item)
| ADone.

Definition s_open_writers (s : store) : nat :=
  size (filter (fun ht => ht.2.2 = true /\ is_Some ht.2.1) (s_txns s)).

Definition s_newTxn (s : store) (m : kvmap) (writer : bool) : store * outcome db_error answer :=
  (mkStore (s_cur s) (s_saved s) (s_vers s) (<[s_next s:=(Some m, writer)]> (s_txns s))
     (S (s_next s)), Ok (AHandle (s_next s))).

Definition s_save (s : store) (target : Z) : store * outcome db_error answer :=
  if (0 <? s_open_writers s)%nat then (s, Err ErrOpenTransactions)
  else
    match VersionManager.Save (s_vers s) target with
    | Ok (vers, v) =>
        (mkStore (s_cur s) (<[v:=s_cur s]> (s_saved s)) vers (s_txns s) (s_next s), Ok (AVersion v))
    | Err e => (s, Err (ErrVersionManager e))
    | Panic => (s, Panic)
    end.

Definition s_map_of (s : store) (h : nat) : option kvmap := s_txns s !! h ≫= fst.

(** Answering from the map of an open transaction. *)
Definition s_read (s : store) (h : nat) (f : kvmap -> outcome db_error answer) :
    store * outcome db_error answer :=
  match s_map_of s h with
  | None => (s, Err ErrTransactionClosed)
  | Some m => (s, f m)
  end.

(** Replacing the map of an open writer. *)
Definition s_write (s : store) (h : nat) (f : kvmap -> outcome db_error kvmap) :
    store * outcome db_error answer :=
  match s_map_of s h with
  | None => (s, Err ErrTransactionClosed)
  | Some m =>
      match f m with
      | Ok m' => (mkStore (s_cur s) (s_saved s) (s_vers s) (<[h:=(Some m', true)]> (s_txns s))
                    (s_next s), Ok ADone)
      | Err e => (s, Err e)
      | Panic => (s, Panic)
      end
  end.

Definition s_close (s : store) (h : nat) : store :=
  mkStore (s_cur s) (s_saved s) (s_vers s)
    (alter (fun t => (None, t.2)) h (s_txns s)) (s_next s).

Definition store_step (s : store) (c : call) : store * outcome db_error answer :=
  match c with
  | CReader => s_newTxn s (s_cur s) false
  | CReaderAt v =>
      match s_saved s !! v with
      | Some m => s_newTxn s m false
      | None => (s, Err ErrVersionDoesNotExist)
      end
  | CReadWriter => s_newTxn s (s_cur s) true
  | CSaveNext => s_save s 0
  | CSave v => if v =? 0 then (s, Err ErrInvalidVersion) else s_save s v
  | CDeleteVersion v =>
      match s_saved s !! v with
      | Some _ => (mkStore (s_cur s) (delete v (s_saved s)) (VersionManager.Delete (s_vers s) v)
                     (s_txns s) (s_next s), Ok ADone)
      | None => (s, Err ErrVersionDoesNotExist)
      end
  | CRevert =>
      if (0 <? s_open_writers s)%nat then (s, Err ErrOpenTransactions)
      else (mkStore (default ∅ (s_saved s !! VersionManager.Last (s_vers s)))
              (s_saved s) (s_vers s) (s_txns s) (s_next s), Ok ADone)
  | CGet h k => s_read s h (fun m => if decide (k = []) then Err ErrKeyEmpty else Ok (AValue (m !! k)))
  | CHas h k => s_read s h (fun m =>
      if decide (k = []) then Err ErrKeyEmpty else Ok (ABool (bool_decide (is_Some (m !! k)))))
  | CIterate h rev start end_ => s_read s h (fun m =>
      if bound_ok start && bound_ok end_
      then Ok (AItems (if rev then reverse (range_items start end_ m) else range_items start end_ m))
      else Err ErrKeyEmpty)
  | CSet h k v => s_write s h (fun m => _ ← ValidateKv k v; Ok (<[k:=default [] v]> m))
  | CDelete h k => s_write s h (fun m =>
      if decide (k = []) then Err ErrKeyEmpty else Ok (delete k m))
  | CCommit h =>
      match s_map_of s h with
      | None => (s, Err ErrTransactionClosed)
      | Some m => (s_close (mkStore m (s_saved s) (s_vers s) (s_txns s) (s_next s)) h, Ok ADone)
      end
  | CDiscard h => (s_close s h, Ok ADone)
  end.

Section Refinement.
Context {T : Type} `{BTreeLaws T}.

Definition handle (r : MemDBBackend T * nat) : MemDBBackend T * outcome db_error answer :=
  (r.1, Ok (AHandle r.2)).

Definition lift {A} (m : MemDBBackend T) (r : outcome db_error A)
    (f : A -> MemDBBackend T * outcome db_error answer) : MemDBBackend T * outcome db_error answer :=
  match r with Ok a => f a | Err e => (m, Err e) | Panic => (m, Panic) end.

Definition finish (m : MemDBBackend T) : MemDBBackend T * outcome db_error answer := (m, Ok ADone).

(** One call of the backend; an iterator is walked to its end. *)
Definition memdb_step (m : MemDBBackend T) (c : call) : MemDBBackend T * outcome db_error answer :=
  match c with
  | CReader => handle (Reader m)
  | CReaderAt v => lift m (ReaderAt m v) handle
  | CReadWriter => lift m (ReadWriter m) handle
  | CSaveNext => lift m (SaveNextVersion m) (fun r => (r.1, Ok (AVersion r.2)))
  | CSave v => lift m (SaveVersion m v) (fun m' => (m', Ok (AVersion v)))
  | CDeleteVersion v => lift m (DeleteVersion m v) finish
  | CRevert => let '(m', e) := Revert m in
               (m', match e with Some e => Err e | None => Ok ADone end)
  | CGet h k => lift m (Get m h k) (fun v => (m, Ok (AValue v)))
  | CHas h k => lift m (Has m h k) (fun b => (m, Ok (ABool b)))
  | CIterate h rev start end_ =>
      lift m (open_iterator rev m h start end_) (fun i => (m, Ok (AItems (ch i))))
  | CSet h k v => lift m (Set' m h k v) finish
  | CDelete h k => lift m (Delete m h k) finish
  | CCommit h => lift m (Commit m h) finish
  | CDiscard h => finish (Discard m h)
  end.

(** * Abstraction and invariant *)

Definition content (m : MemDBBackend T) (l : nat) : kvmap := from_option bt_map ∅ (heap m !! l).

Definition abs_txn (m : MemDBBackend T) (tx : dbTxn) : option kvmap * bool :=
  (bt_map <$> heap m !! tx_btree tx, tx_writer tx).

Definition abs (m : MemDBBackend T) : store :=
  mkStore (content m (btree m)) (content m <$> saved m) (vmgr m) (abs_txn m <$> txns m) (next_txn m).

Definition is_open_writer (tx : dbTxn) : Prop := tx_writer tx = true /\ tx_btree tx <> nil_loc.

#[export] Instance is_open_writer_dec tx : Decision (is_open_writer tx).
Proof. unfold is_open_writer. apply _. Defined.

Definition open_writers (t : gmap nat dbTxn) : nat := size (filter (fun ht => is_open_writer ht.2) t).

(** No other pointer reaches the tree of an open writer. *)
Definition owns (m : MemDBBackend T) (h : nat) (tx : dbTxn) : Prop :=
  tx_btree tx <> btree m
  /\ (forall v l, saved m !! v = Some l -> l <> tx_btree tx)
  /\ (forall h' tx', h' <> h -> txns m !! h' = Some tx' -> tx_btree tx' <> tx_btree tx).

Record inv (m : MemDBBackend T) : Prop := {
  inv_heap : forall l, is_Some (heap m !! l) <-> (0 < l < next_loc m)%nat;
  inv_btree : (0 < btree m < next_loc m)%nat;
  inv_saved : forall v l, saved m !! v = Some l -> (0 < l < next_loc m)%nat;
  inv_txn : forall h tx, txns m !! h = Some tx -> (tx_btree tx < next_loc m)%nat /\ (h < next_txn m)%nat;
  inv_owns : forall h tx, txns m !! h = Some tx -> is_open_writer tx -> owns m h tx;
  inv_count : openWriters m = Z.of_nat (open_writers (txns m));
  inv_count32 : openWriters m < 2 ^ 31;
  inv_dom : dom (saved m) = VersionManager.versions (vmgr m);
  inv_vm : VersionManager.wf (vmgr m);
  inv_nonempty : forall l t, heap m !! l = Some t -> bt_map t !! [] = None;
}.

(** What a caller must respect: version numbers and writer counts stay within
    their machine types, and only writers are written to (a [DBReader] has no
    method for it). *)
Definition call_ok (m : MemDBBackend T) (c : call) : Prop :=
  match c with
  | CReadWriter => openWriters m + 1 < 2 ^ 31
  | CSaveNext => VersionManager.last (vmgr m) + 1 < 2 ^ 64
  | CSave v => is_u64 v /\ VersionManager.last (vmgr m) + 1 < 2 ^ 64
  | CSet h _ _ | CDelete h _ | CCommit h =>
      forall tx, txns m !! h = Some tx -> tx_writer tx = true
  | _ => True
  end.
End Refinement.

(** * The simulation *)

Lemma open_writers_insert t h tx :
  open_writers (<[h:=tx]> t)
  = ((if decide (is_open_writer tx) then 1 else 0) + open_writers (delete h t))%nat.
Proof.
  unfold open_writers. rewrite map_filter_insert. simpl. destruct (decide (is_open_writer tx)).
  - rewrite <- insert_delete_eq, map_size_insert_None, map_filter_delete by apply lookup_delete_eq.
    done.
  - done.
Qed.

Lemma open_writers_lookup t h tx :
  t !! h = Some tx ->
  open_writers t = ((if decide (is_open_writer tx) then 1 else 0) + open_writers (delete h t))%nat.
Proof. intros Hh. rewrite <- open_writers_insert. by rewrite insert_id. Qed.

Section Simulation.
Context {T : Type} `{BTreeLaws T}.
Implicit Types m : MemDBBackend T.

Lemma inv_init : inv NewMemDBBackend /\ abs NewMemDBBackend = store_init.
Proof.
  split.
  - split; simpl; try done.
    + intros l. destruct (decide (l = 1%nat)) as [->|Hl].
      * rewrite lookup_singleton_eq. split; [lia|]. by eexists.
      * rewrite lookup_singleton_ne by done. split; [by intros []|lia].
    + lia.
    + apply VersionManager.wf_empty.
    + intros l t [<- <-]%lookup_singleton_Some. by rewrite bt_new.
  - unfold abs, store_init, content. simpl. rewrite !fmap_empty. f_equal.
    rewrite lookup_singleton_eq. simpl. apply bt_new.
Qed.

Lemma abs_map_of m h : s_map_of (abs m) h = (fun lt => bt_map lt.2) <$> tree_of m h.
Proof.
  unfold s_map_of, tree_of. simpl. rewrite lookup_fmap.
  destruct (txns m !! h) as [tx|]; simpl; [|done].
  by destruct (heap m !! tx_btree tx).
Qed.

Lemma tree_of_Some m h l t :
  tree_of m h = Some (l, t) <->
  exists tx, txns m !! h = Some tx /\ l = tx_btree tx /\ heap m !! l = Some t.
Proof.
  unfold tree_of. split.
  - intros (tx & -> & (t' & Ht & [= <- <-])%bind_Some)%bind_Some. eauto.
  - intros (tx & -> & -> & Ht). simpl. by rewrite Ht.
Qed.

Lemma tree_of_loc m h l t : inv m -> tree_of m h = Some (l, t) -> (0 < l < next_loc m)%nat.
Proof. intros Hi (tx & _ & _ & Ht)%tree_of_Some. by apply (inv_heap m Hi); eexists. Qed.

Lemma abs_open_writers m : inv m -> s_open_writers (abs m) = open_writers (txns m).
Proof.
  intros Hi. unfold s_open_writers, open_writers. simpl.
  rewrite map_filter_fmap, map_size_fmap. f_equal. apply map_filter_ext.
  intros h tx Htx. simpl. unfold is_open_writer, abs_txn, nil_loc. simpl.
  rewrite fmap_is_Some, (inv_heap m Hi). destruct (inv_txn m Hi h tx Htx). 
  split; intros [-> ?]; split; done || lia.
Qed.

Lemma writers_guard m :
  inv m -> (openWriters m >? 0) = (0 <? s_open_writers (abs m))%nat.
Proof.
  intros Hi. rewrite abs_open_writers by done. rewrite (inv_count m Hi).
  rewrite Z.gtb_ltb. destruct (Nat.ltb_spec 0 (open_writers (txns m))).
  - apply Z.ltb_lt. lia.
  - apply Z.ltb_ge. lia.
Qed.

(** Extending the heap with a fresh tree changes no abstract value. *)
Lemma content_alloc m t l :
  (l < next_loc m)%nat -> content (alloc m t).1 l = content m l.
Proof. intros Hl. unfold content. simpl. by rewrite lookup_insert_ne by lia. Qed.

Lemma abs_alloc m t : inv m -> abs (alloc m t).1 = abs m.
Proof.
  intros Hi. unfold abs. simpl. f_equal.
  - apply content_alloc. apply (inv_btree m Hi).
  - apply map_fmap_ext. intros v l Hl. apply content_alloc. by eapply (inv_saved m Hi).
  - apply map_fmap_ext. intros h tx Htx. unfold abs_txn. simpl.
    rewrite lookup_insert_ne; [done|]. destruct (inv_txn m Hi h tx Htx). lia.
Qed.

Lemma inv_alloc m t : inv m -> bt_map t !! [] = None -> inv (alloc m t).1.
Proof.
  intros [I1 I2 I3 I4 I5 I6 I7 I8 I9 I10] Ht. split; simpl; try done.
  - intros l. destruct (decide (l = next_loc m)) as [->|Hl].
    + rewrite lookup_insert_eq. specialize (I1 0%nat). split; [lia|]. by eexists.
    + rewrite lookup_insert_ne by done. rewrite I1. lia.
  - lia.
  - intros v l Hl. specialize (I3 v l Hl). lia.
  - intros h tx Htx. destruct (I4 h tx Htx). lia.
  - intros l t' [[<- <-]|[_ Hl]]%lookup_insert_Some; eauto.
Qed.

(** Registering a new transaction on a tree. *)
Lemma abs_newTxn m l t w :
  heap m !! l = Some t ->
  s_newTxn (abs m) (bt_map t) w = (abs (newTxn m l w).1, Ok (AHandle (newTxn m l w).2)).
Proof.
  intros Hl. unfold s_newTxn, newTxn, abs. simpl. f_equal. f_equal.
  rewrite fmap_insert. f_equal. unfold abs_txn. simpl. by rewrite Hl.
Qed.

Lemma inv_newTxn_reader m l :
  inv m -> (0 < l < next_loc m)%nat ->
  (forall h tx, txns m !! h = Some tx -> is_open_writer tx -> tx_btree tx <> l) ->
  inv (newTxn m l false).1.
Proof.
  intros [I1 I2 I3 I4 I5 I6 I7 I8 I9 I10] Hl Hfree.
  assert (Hnew : txns m !! next_txn m = None).
  { destruct (txns m !! next_txn m) eqn:E; [|done]. destruct (I4 _ _ E). lia. }
  split; simpl; try done.
  - intros h tx [[<- <-]|[_ Htx]]%lookup_insert_Some; simpl; [lia|].
    destruct (I4 h tx Htx). lia.
  - intros h tx [[<- <-]|[Hne Htx]]%lookup_insert_Some Hw; [by destruct Hw|].
    destruct (I5 h tx Htx Hw) as (O1 & O2 & O3). split_and!; [done|done|]. simpl.
    intros h' tx' Hh' [[<- <-]|[_ Htx']]%lookup_insert_Some; [|by eapply O3].
    simpl. intros ->. by eapply Hfree.
  - rewrite open_writers_insert, decide_False, delete_id by (done || by intros []). done.
Qed.

Lemma inv_newTxn_writer m t :
  inv m -> bt_map t !! [] = None -> openWriters m + 1 < 2 ^ 31 ->
  inv (newTxn (set_openWriters (alloc m t).1 (i32 (openWriters m + 1))) (next_loc m) true).1.
Proof.
  intros Hi Ht Hmax. pose proof (inv_alloc m t Hi Ht) as [I1 I2 I3 I4 I5 I6 I7 I8 I9 I10].
  assert (Hnew : txns m !! next_txn m = None).
  { destruct (txns m !! next_txn m) eqn:E; [|done]. destruct (I4 _ _ E). simpl in *. lia. }
  simpl in *. rewrite i32_small by lia.
  split; simpl; try done.
  - intros h tx [[<- <-]|[_ Htx]]%lookup_insert_Some; simpl; [lia|].
    destruct (I4 h tx Htx). lia.
  - intros h tx [[<- <-]|[Hne Htx]]%lookup_insert_Some Hw.
    + unfold owns. simpl. split_and!.
      * pose proof (inv_btree m Hi). lia.
      * intros v l Hl. pose proof (inv_saved m Hi v l Hl). lia.
      * intros h' tx' Hh' [[<- _]|[_ Htx']]%lookup_insert_Some; [done|].
        pose proof (inv_txn m Hi h' tx' Htx'). lia.
    + destruct (I5 h tx Htx Hw) as (O1 & O2 & O3). split_and!; [done|done|]. simpl.
      intros h' tx' Hh' [[<- <-]|[_ Htx']]%lookup_insert_Some; [|by eapply O3].
      simpl. pose proof (inv_txn m Hi h tx Htx). lia.
  - pose proof (inv_btree m Hi). rewrite open_writers_insert, decide_True, delete_id.
    + lia.
    + done.
    + split; [done|]. simpl. unfold nil_loc. lia.
Qed.
(** Writing to the tree of an open writer changes that transaction only. *)
Lemma content_set_heap m l t l' : l' <> l -> content (set_heap m l t) l' = content m l'.
Proof. intros Hl. unfold content. simpl. by rewrite lookup_insert_ne. Qed.

Lemma abs_set_heap m h tx t :
  inv m -> txns m !! h = Some tx -> is_open_writer tx ->
  abs (set_heap m (tx_btree tx) t)
  = mkStore (s_cur (abs m)) (s_saved (abs m)) (vmgr m)
      (<[h:=(Some (bt_map t), true)]> (s_txns (abs m))) (next_txn m).
Proof.
  intros Hi Htx Hw. destruct (inv_owns m Hi h tx Htx Hw) as (O1 & O2 & O3).
  unfold abs at 1. simpl. f_equal.
  - by apply content_set_heap.
  - apply map_fmap_ext. intros v l Hl. apply content_set_heap. by eapply O2.
  - apply map_eq. intros h'. rewrite lookup_fmap. destruct (decide (h' = h)) as [->|Hne].
    + rewrite lookup_insert_eq, Htx. simpl. unfold abs_txn. simpl.
      rewrite lookup_insert_eq. destruct Hw as [-> _]. done.
    + rewrite lookup_insert_ne, lookup_fmap by done.
      destruct (txns m !! h') as [tx'|] eqn:E; [|done]. simpl. unfold abs_txn. simpl.
      by rewrite lookup_insert_ne by (apply not_eq_sym; by eapply O3).
Qed.

Lemma inv_set_heap m l t :
  inv m -> is_Some (heap m !! l) -> bt_map t !! [] = None -> inv (set_heap m l t).
Proof.
  intros [I1 I2 I3 I4 I5 I6 I7 I8 I9 I10] Hl Ht. split; simpl; try done.
  - intros l'. destruct (decide (l' = l)) as [->|Hne].
    + rewrite lookup_insert_eq, <- I1. split; [done|]. by eexists.
    + by rewrite lookup_insert_ne.
  - intros l' t' [[<- <-]|[_ Hl']]%lookup_insert_Some; eauto.
Qed.

Lemma tree_of_writer m h l t :
  inv m -> tree_of m h = Some (l, t) -> (forall tx, txns m !! h = Some tx -> tx_writer tx = true) ->
  exists tx, txns m !! h = Some tx /\ l = tx_btree tx /\ heap m !! l = Some t /\ is_open_writer tx.
Proof.
  intros Hi Ht Hw. pose proof (tree_of_loc m h l t Hi Ht) as Hl.
  apply tree_of_Some in Ht as (tx & Htx & -> & Ht). exists tx. split_and!; auto.
  split; [auto|]. unfold nil_loc. lia.
Qed.

(** Closing a transaction. *)
Lemma heap_nil m : inv m -> heap m !! nil_loc = None.
Proof.
  intros Hi. destruct (heap m !! nil_loc) eqn:E; [|done].
  pose proof (proj1 (inv_heap m Hi nil_loc) (ex_intro _ _ E)). unfold nil_loc in *. lia.
Qed.

Lemma abs_set_txn_close m h tx :
  heap m !! nil_loc = None -> txns m !! h = Some tx ->
  abs_txn m <$> <[h:=mkDbTxn nil_loc (tx_writer tx)]> (txns m)
  = alter (fun t => (None, t.2)) h (abs_txn m <$> txns m).
Proof.
  intros Hi Htx. apply map_eq. intros h'. rewrite lookup_fmap.
  destruct (decide (h' = h)) as [->|Hne].
  - rewrite lookup_insert_eq, lookup_alter_eq, lookup_fmap, Htx. simpl. unfold abs_txn. simpl.
    by rewrite Hi.
  - by rewrite lookup_insert_ne, lookup_alter_ne, lookup_fmap by done.
Qed.

Lemma abs_Discard m h : heap m !! nil_loc = None -> abs (Discard m h) = s_close (abs m) h.
Proof.
  intros Hi. unfold Discard, s_close. simpl.
  destruct (txns m !! h) as [tx|] eqn:Htx.
  - rewrite <- (abs_set_txn_close m h tx Hi Htx). by destruct (_ && _).
  - unfold abs. f_equal. apply map_eq. intros h'. destruct (decide (h' = h)) as [->|Hne].
    + by rewrite lookup_alter_eq, lookup_fmap, Htx.
    + by rewrite lookup_alter_ne.
Qed.

(** Before its own [Discard], [Commit] makes the writer's tree the working
    tree; what [Discard] needs of such a state. *)
Lemma inv_Discard_gen m h b :
  inv m -> (0 < b < next_loc m)%nat ->
  (forall h' tx, h' <> h -> txns m !! h' = Some tx -> is_open_writer tx -> tx_btree tx <> b) ->
  (b <> btree m -> is_Some (txns m !! h)) ->
  inv (Discard (set_btree m b) h).
Proof.
  intros Hi Hb Hfree Hh. pose proof Hi as [I1 I2 I3 I4 I5 I6 I7 I8 I9 I10].
  unfold Discard. simpl. destruct (txns m !! h) as [tx|] eqn:Htx.
  - assert (Howns : forall h' tx', <[h:=mkDbTxn nil_loc (tx_writer tx)]> (txns m) !! h' = Some tx' ->
      is_open_writer tx' ->
      owns (set_txn (set_btree m b) h (mkDbTxn nil_loc (tx_writer tx))) h' tx').
    { intros h' tx' [[<- <-]|[Hne Htx']]%lookup_insert_Some Hw; [by destruct Hw|].
      destruct (I5 h' tx' Htx' Hw) as (O1 & O2 & O3). unfold owns. simpl.
      split_and!; [by eapply Hfree|done|].
      intros h2 tx2 Hh2 [[<- <-]|[_ Htx2]]%lookup_insert_Some; [|by eapply O3].
      simpl. destruct Hw as [_ Hw]. by apply not_eq_sym. }
    assert (Htxn : forall h' tx', <[h:=mkDbTxn nil_loc (tx_writer tx)]> (txns m) !! h' = Some tx' ->
      (tx_btree tx' < next_loc m)%nat /\ (h' < next_txn m)%nat).
    { intros h' tx' [[<- <-]|[Hne Htx']]%lookup_insert_Some; [|by apply I4].
      simpl. unfold nil_loc. destruct (I4 h tx Htx). lia. }
    pose proof (open_writers_lookup (txns m) h tx Htx) as Hc.
    pose proof (open_writers_insert (txns m) h (mkDbTxn nil_loc (tx_writer tx))) as Hc'.
    rewrite decide_False in Hc' by (by intros []).
    destruct (negb (tx_btree tx =? nil_loc)%nat && tx_writer tx) eqn:Hopen.
    + apply andb_true_iff in Hopen as [Hn Hw]. apply negb_true_iff, Nat.eqb_neq in Hn.
      rewrite decide_True in Hc by done.
      split; simpl; try done; rewrite ?i32_small by lia;
        first [lia|by apply Howns].
    + rewrite decide_False in Hc.
      { split; simpl; try done; first [lia|by apply Howns]. }
      intros [Hw Hn]. rewrite Hw in Hopen. apply Nat.eqb_neq in Hn. by rewrite Hn in Hopen.
  - assert (b = btree m) as ->.
    { destruct (decide (b = btree m)); [done|]. by destruct (Hh n). }
    by destruct m.
Qed.

Lemma inv_Discard m h : inv m -> inv (Discard m h).
Proof.
  intros Hi. replace m with (set_btree m (btree m)) by (by destruct m).
  apply inv_Discard_gen; [done|apply (inv_btree m Hi)| |done].
  intros h' tx _ Htx Hw. by apply (inv_owns m Hi h' tx Htx Hw).
Qed.

Lemma inv_Commit m h tx :
  inv m -> txns m !! h = Some tx -> is_open_writer tx ->
  inv (Discard (set_btree m (tx_btree tx)) h).
Proof.
  intros Hi Htx Hw. destruct (inv_owns m Hi h tx Htx Hw) as (O1 & O2 & O3).
  apply inv_Discard_gen; [done| | |by rewrite Htx].
  - destruct Hw as [_ Hn]. unfold nil_loc in Hn. destruct (inv_txn m Hi h tx Htx). lia.
  - intros h' tx' Hne Htx' _. by eapply O3.
Qed.
(** The store answers as the backend does, and the backend's invariant is
    kept. *)
Definition simulated m (c : call) : Prop :=
  inv (memdb_step m c).1 /\ store_step (abs m) c = (abs (memdb_step m c).1, (memdb_step m c).2).

Lemma heap_btree m : inv m -> exists t, heap m !! btree m = Some t /\ content m (btree m) = bt_map t.
Proof.
  intros Hi. destruct (proj2 (inv_heap m Hi _) (inv_btree m Hi)) as [t Ht].
  exists t. unfold content. by rewrite Ht.
Qed.

Lemma sim_open m c :
  inv m -> call_ok m c -> c = CReader \/ c = CReadWriter \/ (exists v, c = CReaderAt v) ->
  simulated m c.
Proof.
  intros Hi Hok Hc. destruct (heap_btree m Hi) as (t & Ht & Hcur). unfold simulated.
  destruct Hc as [->|[->|[v ->]]]; simpl.
  - split.
    + apply inv_newTxn_reader; [done|apply (inv_btree m Hi)|].
      intros h tx Htx Hw. by apply (inv_owns m Hi h tx Htx Hw).
    + unfold handle, Reader. rewrite Hcur. by apply abs_newTxn.
  - unfold ReadWriter. simpl. rewrite Ht. simpl. split.
    + apply (inv_newTxn_writer m (bt_Clone t)); [done| |done].
      rewrite bt_clone. by eapply (inv_nonempty m Hi).
    + rewrite Hcur, <- bt_clone. rewrite <- (abs_alloc m (bt_Clone t) Hi).
      apply (abs_newTxn (set_openWriters (alloc m (bt_Clone t)).1 (i32 (openWriters m + 1)))
               (next_loc m) (bt_Clone t) true).
      simpl. by rewrite lookup_insert_eq.
  - unfold ReaderAt. rewrite lookup_fmap. destruct (saved m !! v) as [l|] eqn:Hl; simpl; [|done].
    pose proof (inv_saved m Hi v l Hl) as Hll.
    destruct (proj2 (inv_heap m Hi l) Hll) as [t' Ht']. split.
    + apply inv_newTxn_reader; [done|done|]. intros h tx Htx Hw Heq.
      destruct (inv_owns m Hi h tx Htx Hw) as (_ & O2 & _). by apply (O2 v l Hl).
    + unfold content. rewrite Ht'. by apply abs_newTxn.
Qed.

Lemma inv_save m vers v :
  inv m -> VersionManager.wf vers ->
  VersionManager.versions vers = {[v]} ∪ VersionManager.versions (vmgr m) ->
  inv (set_saved m (<[v:=btree m]> (saved m)) vers).
Proof.
  intros [I1 I2 I3 I4 I5 I6 I7 I8 I9 I10] Hwf Hv. split; simpl; try done.
  - intros w l [[<- <-]|[_ Hl]]%lookup_insert_Some; eauto.
  - intros h tx Htx Hw. destruct (I5 h tx Htx Hw) as (O1 & O2 & O3). split_and!; [done| |done].
    simpl. intros w l [[<- <-]|[_ Hl]]%lookup_insert_Some; eauto.
  - rewrite dom_insert_L, I8, Hv. done.
Qed.

Lemma sim_save_gen m target :
  inv m -> is_u64 target -> VersionManager.last (vmgr m) + 1 < 2 ^ 64 ->
  match save m target with
  | Ok (m', v) => inv m' /\ s_save (abs m) target = (abs m', Ok (AVersion v))
                  /\ (target <> 0 -> v = target)
  | Err e => s_save (abs m) target = (abs m, Err e)
  | Panic => False
  end.
Proof.
  intros Hi Ht Hmax. unfold save, s_save. rewrite (writers_guard m Hi).
  destruct (0 <? s_open_writers (abs m))%nat; [done|].
  rewrite VersionManager.Copy_eq. simpl.
  pose proof (inv_vm m Hi) as Hwf.
  rewrite (VersionManager.Save_spec (vmgr m) target) by done.
  assert (Hadd : forall v, VersionManager.last (vmgr m) < v < 2 ^ 64 ->
    inv (set_saved m (<[v:=btree m]> (saved m)) (VersionManager.add_version (vmgr m) v))).
  { intros v Hv. apply inv_save; [done| |done]. by apply VersionManager.add_version_wf. }
  unfold is_u64 in Ht. repeat case_decide; simpl.
  - split_and!; [apply Hadd; lia| |done]. unfold abs. simpl. by rewrite fmap_insert.
  - done.
  - split_and!; [apply Hadd; lia| |done]. unfold abs. simpl. by rewrite fmap_insert.
Qed.

Lemma sim_save m c :
  inv m -> call_ok m c -> c = CSaveNext \/ (exists v, c = CSave v) -> simulated m c.
Proof.
  intros Hi Hok Hc. unfold simulated. destruct Hc as [->|[v ->]]; simpl in *.
  - pose proof (sim_save_gen m 0 Hi ltac:(unfold is_u64; lia) Hok) as Hs.
    unfold SaveNextVersion. destruct (save m 0) as [[m' v]|e|]; simpl; [|done|done].
    destruct Hs as (? & ? & _). done.
  - destruct Hok as [Hv Hmax]. pose proof (sim_save_gen m v Hi Hv Hmax) as Hs.
    unfold SaveVersion. destruct (Z.eqb_spec v 0) as [|Hv0]; [done|].
    destruct (save m v) as [[m' v']|e|]; simpl; [|done|done].
    destruct Hs as (? & -> & ->); done.
Qed.

Lemma sim_deleteVersion m v : inv m -> simulated m (CDeleteVersion v).
Proof.
  intros Hi. unfold simulated. simpl. unfold DeleteVersion. rewrite lookup_fmap.
  destruct (saved m !! v) as [l|] eqn:Hl; simpl; [|done].
  rewrite VersionManager.Copy_eq. split.
  - destruct Hi as [I1 I2 I3 I4 I5 I6 I7 I8 I9 I10]. split; simpl; try done.
    + intros w l' [_ Hl']%lookup_delete_Some. eauto.
    + intros h tx Htx Hw. destruct (I5 h tx Htx Hw) as (O1 & O2 & O3).
      split_and!; [done| |done]. simpl. intros w l' [_ Hl']%lookup_delete_Some. eauto.
    + by rewrite dom_delete_L, I8.
    + by apply VersionManager.Delete_wf.
  - unfold abs. simpl. by rewrite fmap_delete.
Qed.

Lemma inv_set_btree m l :
  inv m -> (0 < l < next_loc m)%nat ->
  (forall h tx, txns m !! h = Some tx -> is_open_writer tx -> tx_btree tx <> l) ->
  inv (set_btree m l).
Proof.
  intros [I1 I2 I3 I4 I5 I6 I7 I8 I9 I10] Hl Hfree. split; simpl; try done.
  intros h tx Htx Hw. destruct (I5 h tx Htx Hw) as (O1 & O2 & O3).
  split_and!; [by eapply Hfree|done|done].
Qed.

Lemma abs_set_btree m l :
  abs (set_btree m l)
  = mkStore (content m l) (s_saved (abs m)) (vmgr m) (s_txns (abs m)) (next_txn m).
Proof. done. Qed.

Lemma filter_saved_id m :
  inv m -> filter (fun vl => ~ VersionManager.Last (vmgr m) < vl.1) (saved m) = saved m.
Proof.
  intros Hi. apply map_filter_id. intros v l Hl. simpl.
  apply Z.nlt_ge. apply (VersionManager.wf_last _ (inv_vm m Hi)).
  rewrite <- (inv_dom m Hi). by eapply elem_of_dom_2.
Qed.

Lemma sim_revert m : inv m -> simulated m CRevert.
Proof.
  intros Hi. unfold simulated. cbn [memdb_step store_step]. unfold Revert.
  rewrite (writers_guard m Hi).
  destruct (0 <? s_open_writers (abs m))%nat; [done|].
  pose proof (inv_vm m Hi) as Hwf. cbn [abs s_saved s_vers]. rewrite lookup_fmap.
  destruct (Z.eqb_spec (VersionManager.Last (vmgr m)) 0) as [Hz|Hz].
  - assert (Hnone : saved m !! 0 = None).
    { apply not_elem_of_dom. rewrite (inv_dom m Hi).
      intros Hin%(VersionManager.wf_range _ Hwf). lia. }
    rewrite Hz, Hnone. simpl. split.
    + apply (inv_set_btree (alloc m bt_New).1).
      * apply inv_alloc; [done|]. by rewrite bt_new.
      * pose proof (inv_btree m Hi). simpl. lia.
      * intros h tx Htx _. destruct (inv_txn m Hi h tx Htx). lia.
    + pose proof (abs_set_btree (alloc m bt_New).1 (next_loc m)) as Ha.
      rewrite (abs_alloc m bt_New Hi) in Ha. simpl in Ha. unfold alloc in Ha. simpl in Ha.
      rewrite Ha. do 2 f_equal. unfold content. simpl. rewrite lookup_insert_eq.
      symmetry. apply bt_new.
  - destruct (VersionManager.wf_last_in _ Hwf) as [Hin|[_ Hl0]]; [|done].
    rewrite <- (inv_dom m Hi) in Hin. apply elem_of_dom in Hin as [l Hl].
    unfold VersionManager.Last. rewrite Hl. simpl.
    pose proof (filter_saved_id m Hi) as Hf. unfold VersionManager.Last in Hf. rewrite Hf.
    split; [|done].
    replace (set_saved (set_btree m l) (saved m) (vmgr m)) with (set_btree m l) by (by destruct m).
    apply inv_set_btree; [done|by eapply (inv_saved m Hi)|].
    intros h tx Htx Hw Heq. destruct (inv_owns m Hi h tx Htx Hw) as (_ & O2 & _).
    by apply (O2 _ l Hl).
Qed.
Lemma sim_read m c :
  inv m ->
  match c with CGet _ _ | CHas _ _ | CIterate _ _ _ _ => True | _ => False end ->
  simulated m c.
Proof.
  intros Hi Hc. unfold simulated.
  destruct c as [| | | | | | |h k|h k|h rev start end_| | | |]; try done;
    simpl; unfold Get, Has, open_iterator, s_read; rewrite (abs_map_of m h);
    destruct (tree_of m h) as [[l t]|]; simpl; try done.
  - rewrite length_eqb_nil, bt_get. case_bool_decide; case_decide; try done.
    by destruct (bt_map t !! k).
  - rewrite length_eqb_nil, bt_has. by case_bool_decide; case_decide.
  - destruct (bound_ok start), (bound_ok end_); simpl; try done. split; [done|].
    do 3 f_equal. destruct rev; [by rewrite traverse_reverse|by rewrite traverse_forward].
Qed.

Lemma sim_write m c :
  inv m -> call_ok m c ->
  match c with CSet _ _ _ | CDelete _ _ => True | _ => False end ->
  simulated m c.
Proof.
  intros Hi Hok Hc. unfold simulated.
  destruct c as [| | | | | | | | | |h k v|h k| |]; try done; simpl in *;
    unfold Set', Delete, s_write; rewrite (abs_map_of m h);
    destruct (tree_of m h) as [[l t]|] eqn:Ht; simpl; try done;
    destruct (tree_of_writer m h l t Hi Ht Hok) as (tx & Htx & -> & Hl & Hw);
    pose proof (inv_nonempty m Hi _ _ Hl) as Hne.
  - destruct (ValidateKv k v) eqn:Hv; simpl; try done. split.
    + apply inv_set_heap; [done|by eexists|]. rewrite bt_insert.
      rewrite lookup_insert_ne; [done|]. by intros ->.
    + by rewrite (abs_set_heap m h tx _ Hi Htx Hw), bt_insert.
  - rewrite length_eqb_nil. case_bool_decide; case_decide; try done. simpl. split.
    + apply inv_set_heap; [done|by eexists|]. rewrite bt_delete.
      by rewrite lookup_delete_None; right.
    + by rewrite (abs_set_heap m h tx _ Hi Htx Hw), bt_delete.
Qed.

Lemma sim_commit m h : inv m -> call_ok m (CCommit h) -> simulated m (CCommit h).
Proof.
  intros Hi Hok. unfold simulated. simpl in *. unfold Commit. rewrite (abs_map_of m h).
  destruct (tree_of m h) as [[l t]|] eqn:Ht; simpl; [|done].
  destruct (tree_of_writer m h l t Hi Ht Hok) as (tx & Htx & -> & Hl & Hw). split.
  - by apply inv_Commit.
  - f_equal. rewrite abs_Discard by exact (heap_nil m Hi). rewrite abs_set_btree.
    do 2 f_equal. unfold content. by rewrite Hl.
Qed.

Lemma sim_step m c : inv m -> call_ok m c -> simulated m c.
Proof.
  intros Hi Hok. destruct c; eauto 6 using sim_open, sim_save, sim_deleteVersion, sim_revert,
    sim_read, sim_write, sim_commit.
  simpl. split; [by apply inv_Discard|]. simpl.
  by rewrite abs_Discard by (by apply heap_nil).
Qed.
(** Running a sequence of calls, and the answers it gives. *)
Fixpoint memdb_run m (cs : list call) : MemDBBackend T * list (outcome db_error answer) :=
  match cs with
  | [] => (m, [])
  | c :: cs' =>
      let '(m', r) := memdb_step m c in
      let '(m'', rs) := memdb_run m' cs' in (m'', r :: rs)
  end.

Fixpoint calls_ok m (cs : list call) : Prop :=
  match cs with
  | [] => True
  | c :: cs' => call_ok m c /\ calls_ok (memdb_step m c).1 cs'
  end.
End Simulation.

Fixpoint store_run (s : store) (cs : list call) : store * list (outcome db_error answer) :=
  match cs with
  | [] => (s, [])
  | c :: cs' =>
      let '(s', r) := store_step s c in
      let '(s'', rs) := store_run s' cs' in (s'', r :: rs)
  end.

Section Properties.
Context {T : Type} `{BTreeLaws T}.

Lemma sim_run cs (m : MemDBBackend T) :
  inv m -> calls_ok m cs ->
  inv (memdb_run m cs).1 /\ store_run (abs m) cs = (abs (memdb_run m cs).1, (memdb_run m cs).2).
Proof.
  revert m. induction cs as [|c cs IH]; intros m Hi Hok; [done|]. destruct Hok as [Hc Hok].
  simpl. destruct (sim_step m c Hi Hc) as [Hi' Hs]. rewrite Hs.
  destruct (memdb_step m c) as [m' r] eqn:E. simpl in *.
  destruct (IH m' Hi' Hok) as [Hi'' Hs'']. rewrite Hs''.
  by destruct (memdb_run m' cs) as [m'' rs].
Qed.


(** In every state the backend can reach, the count of open writers is
    exact, the saved trees and the version set name the same versions, no
    pointer other than a writer's own reaches the tree it writes to, and no
    tree holds an empty key. *)
Theorem memdb_invariant (cs : list call) :
  calls_ok (T := T) NewMemDBBackend cs ->
  let m := (memdb_run (T := T) NewMemDBBackend cs).1 in
  PendingTxCount m = Z.of_nat (open_writers (txns m))
  /\ dom (saved m) = VersionManager.versions (vmgr m)
  /\ (forall h tx, txns m !! h = Some tx -> is_open_writer tx -> owns m h tx)
  /\ (forall l t, heap m !! l = Some t -> bt_map t !! [] = None).
Proof.
  intros Hok m. destruct (inv_init (T := T)) as [Hi _].
  destruct (sim_run cs _ Hi Hok) as [Hinv _]. fold m in Hinv.
  destruct Hinv as [I1 I2 I3 I4 I5 I6 I7 I8 I9 I10]. done.
Qed.
End Properties.

(** * The backend meets the transaction interface *)

#[export] Instance memdb_iterator : DBIterator memDBIterator := {
  it_Next := it_next;
  it_Key := it_key;
  it_Value := it_value;
  it_rest := ch;
  it_ok _ := True;
}.

#[export] Instance memdb_iterator_laws : DBIteratorLaws memDBIterator.
Proof.
  split; intros [l c st en]; unfold it_rest, it_Next; simpl; unfold it_next; simpl.
  - by intros _ ->.
  - intros k v r _ ->. by eexists.
Qed.

Section ReadWriter.
Context {T : Type} `{BTreeLaws T}.

(** A [DBReadWriter] of this backend: the database and a handle. *)
Definition rw : Type := MemDBBackend T * nat.

#[export] Instance memdb_reader : DBReader rw memDBIterator := {
  r_Get s := Get s.1 s.2;
  r_Has s := Has s.1 s.2;
  r_Iterator s := Iterator s.1 s.2;
  r_ReverseIterator s := ReverseIterator s.1 s.2;
}.

#[export] Instance memdb_writer : DBWriter rw := {
  w_Set s k v := m' ← Set' s.1 s.2 k v; mret (m', s.2);
  w_Delete s k := m' ← Delete s.1 s.2 k; mret (m', s.2);
  w_Commit s := m' ← Commit s.1 s.2; mret (m', s.2);
  w_Discard s := (Discard s.1 s.2, s.2);
}.

(** The same database seen from another handle. *)
#[export] Instance memdb_backend : DBBackend rw := {
  b_Reader s := Ok (Reader s.1);
  b_ReaderAt s v := ReaderAt s.1 v;
  b_ReadWriter s := ReadWriter s.1;
  b_PendingTxCount s := PendingTxCount s.1;
  b_Versions s := Versions s.1;
  b_SaveVersion s v := m' ← SaveVersion s.1 v; mret (m', s.2);
  b_Revert s := let '(m', e) := Revert s.1 in ((m', s.2), e);
}.

#[export] Instance memdb_view : DBView rw := {
  v_ok s := inv s.1 /\ exists tx, txns s.1 !! s.2 = Some tx /\ tx_writer tx = true;
  v_txn s := s_map_of (abs s.1) s.2;
  v_db s := s_cur (abs s.1);
}.

(** Handles stay registered, with their kind. *)
Lemma step_keeps_writer (m : MemDBBackend T) c h tx :
  match c with CSet _ _ _ | CDelete _ _ | CCommit _ | CDiscard _ => True | _ => False end ->
  txns m !! h = Some tx ->
  exists tx', txns (memdb_step m c).1 !! h = Some tx' /\ tx_writer tx' = tx_writer tx.
Proof.
  assert (HD : forall (m : MemDBBackend T) h', txns m !! h = Some tx ->
    exists tx', txns (Discard m h') !! h = Some tx' /\ tx_writer tx' = tx_writer tx).
  { clear m. intros m h' Hh. unfold Discard. destruct (txns m !! h') as [tx0|] eqn:E; [|eauto].
    assert (exists tx', <[h':=mkDbTxn nil_loc (tx_writer tx0)]> (txns m) !! h = Some tx'
      /\ tx_writer tx' = tx_writer tx).
    { destruct (decide (h' = h)) as [->|]; [|rewrite lookup_insert_ne by done; eauto].
      rewrite lookup_insert_eq. eexists. split; [done|]. simpl. congruence. }
    by destruct (_ && _). }
  destruct c; intros Hc Hh; try done; simpl; unfold Set', Delete, Commit;
    try (destruct (tree_of m _) as [[l t]|]; simpl; eauto);
    try (destruct (ValidateKv _ _); simpl; eauto); try (destruct (_ =? _)%nat; simpl; eauto);
    by apply HD.
Qed.

(** A successful call of a writer, seen through the store. *)
Lemma rw_step (m : MemDBBackend T) h c m' r :
  match c with CSet h' _ _ | CDelete h' _ | CCommit h' | CDiscard h' => h' = h | _ => False end ->
  v_ok (m, h) -> memdb_step m c = (m', Ok r) ->
  v_ok (m', h) /\ store_step (abs m) c = (abs m', Ok r).
Proof.
  intros Hc [Hi (tx & Htx & Hw)] Hs. simpl in *.
  assert (Hok : call_ok m c) by (destruct c; simpl; naive_solver).
  destruct (sim_step m c Hi Hok) as [Hi' Hst]. rewrite Hs in Hi', Hst. simpl in *.
  destruct (step_keeps_writer m c h tx) as (tx' & Htx' & Hw');
    [by destruct c|done|]. rewrite Hs in Htx'. simpl in *.
  split; [|done]. split; [done|]. exists tx'. split; [done|]. congruence.
Qed.

Lemma rw_map_tree (m : MemDBBackend T) h mm :
  v_txn (m, h) = Some mm -> exists l t, tree_of m h = Some (l, t) /\ bt_map t = mm.
Proof.
  unfold v_txn. simpl. rewrite abs_map_of. intros ([l t] & Ht & Hmm)%fmap_Some. eauto.
Qed.

Lemma rw_closed_tree (m : MemDBBackend T) h : v_txn (m, h) = None -> tree_of m h = None.
Proof. unfold v_txn. simpl. rewrite abs_map_of. apply fmap_None. Qed.

Lemma rw_set (m : MemDBBackend T) h k v mm d :
  opened (S := rw) (m, h) mm d -> k <> [] ->
  exists s', w_Set (S := rw) (m, h) k (Some v) = Ok s' /\ opened s' (<[k:=v]> mm) d.
Proof.
  intros (Hok & Ht & Hd) Hk. destruct (rw_map_tree _ _ _ Ht) as (l & t & Hl & Hmm).
  assert (Hset : exists m', Set' m h k (Some v) = Ok m').
  { unfold Set'. rewrite Hl. destruct k; [done|]. simpl. by eexists. }
  destruct Hset as [m' Hset].
  destruct (rw_step m h (CSet h k (Some v)) m' ADone) as [Hok' Hst]; [done|done| |].
  { simpl. by rewrite Hset. }
  exists (m', h). unfold w_Set. simpl. rewrite Hset. split; [done|]. split; [done|].
  simpl in Hst. unfold s_write in Hst. unfold v_txn, v_db in *. simpl in *. rewrite Ht in Hst.
  destruct k as [|b k]; [done|]. simpl in Hst. injection Hst as Hcur _ _ Htx _.
  unfold s_map_of. simpl. rewrite <- Htx, <- Hcur, lookup_insert_eq. done.
Qed.

Lemma rw_delete (m : MemDBBackend T) h k mm d :
  opened (S := rw) (m, h) mm d -> k <> [] ->
  exists s', w_Delete (S := rw) (m, h) k = Ok s' /\ opened s' (delete k mm) d.
Proof.
  intros (Hok & Ht & Hd) Hk. destruct (rw_map_tree _ _ _ Ht) as (l & t & Hl & Hmm).
  assert (Hdel : exists m', Delete m h k = Ok m').
  { unfold Delete. rewrite Hl. destruct k; [done|]. simpl. by eexists. }
  destruct Hdel as [m' Hdel].
  destruct (rw_step m h (CDelete h k) m' ADone) as [Hok' Hst]; [done|done| |].
  { simpl. by rewrite Hdel. }
  exists (m', h). unfold w_Delete. simpl. rewrite Hdel. split; [done|]. split; [done|].
  simpl in Hst. unfold s_write in Hst. unfold v_txn, v_db in *. simpl in *. rewrite Ht in Hst.
  rewrite decide_False in Hst by done. injection Hst as Hcur _ _ Htx _.
  unfold s_map_of. simpl. rewrite <- Htx, <- Hcur, lookup_insert_eq. done.
Qed.

Lemma s_close_closed s h : s_map_of (s_close s h) h = None.
Proof.
  unfold s_map_of, s_close. simpl. rewrite lookup_alter_eq. by destruct (s_txns s !! h).
Qed.

Lemma rw_commit (m : MemDBBackend T) h mm d :
  opened (S := rw) (m, h) mm d ->
  exists s', w_Commit (S := rw) (m, h) = Ok s' /\ closed s' mm.
Proof.
  intros (Hok & Ht & Hd). destruct (rw_map_tree _ _ _ Ht) as (l & t & Hl & Hmm).
  assert (Hcom : exists m', Commit m h = Ok m').
  { unfold Commit. rewrite Hl. by eexists. }
  destruct Hcom as [m' Hcom].
  destruct (rw_step m h (CCommit h) m' ADone) as [Hok' Hst]; [done|done| |].
  { simpl. by rewrite Hcom. }
  exists (m', h). unfold w_Commit. simpl. rewrite Hcom. split; [done|]. split; [done|].
  change (v_txn (m, h)) with (s_map_of (abs m) h) in Ht.
  cbn [store_step] in Hst. rewrite Ht in Hst.
  assert (Habs : s_close (mkStore mm (s_saved (abs m)) (s_vers (abs m)) (s_txns (abs m))
    (s_next (abs m))) h = abs m') by congruence.
  unfold v_txn, v_db. cbn [memdb_view fst snd]. rewrite <- Habs. split; [apply s_close_closed|done].
Qed.

#[export] Instance memdb_laws : DBReadWriterLaws rw memDBIterator.
Proof.
  split; try apply _; try intros [m h].
  - intros mm d (Hok & Ht & Hd). destruct (rw_map_tree _ _ _ Ht) as (l & t & Hl & <-).
    apply tree_of_Some in Hl as (tx & _ & _ & Hl). by eapply (inv_nonempty m (proj1 Hok)).
  - intros mm d k (Hok & Ht & Hd). destruct (rw_map_tree _ _ _ Ht) as (l & t & Hl & <-).
    unfold r_Get. simpl. unfold Get. rewrite Hl, length_eqb_nil, bt_get.
    case_bool_decide; case_decide; try done. by destruct (bt_map t !! k).
  - intros mm d k (Hok & Ht & Hd). destruct (rw_map_tree _ _ _ Ht) as (l & t & Hl & <-).
    unfold r_Has. simpl. unfold Has. rewrite Hl, length_eqb_nil, bt_has.
    by case_bool_decide; case_decide.
  - intros mm d start end_ (Hok & Ht & Hd) Hs He.
    destruct (rw_map_tree _ _ _ Ht) as (l & t & Hl & <-).
    unfold r_Iterator. simpl. unfold Iterator, open_iterator. rewrite Hl, Hs, He. simpl.
    eexists. split; [done|]. split; [done|]. apply traverse_forward.
  - intros mm d start end_ (Hok & Ht & Hd) Hs He.
    destruct (rw_map_tree _ _ _ Ht) as (l & t & Hl & <-).
    unfold r_ReverseIterator. simpl. unfold ReverseIterator, open_iterator.
    rewrite Hl, Hs, He. simpl.
    eexists. split; [done|]. split; [done|]. apply traverse_reverse.
  - intros mm d k v. apply rw_set.
  - intros mm d k (Hok & Ht & Hd). destruct (rw_map_tree _ _ _ Ht) as (l & t & Hl & _).
    unfold w_Set. simpl. unfold Set'. rewrite Hl. split; [done|]. by destruct k.
  - intros mm d k. apply rw_delete.
  - intros mm d (Hok & Ht & Hd). destruct (rw_map_tree _ _ _ Ht) as (l & t & Hl & _).
    unfold w_Delete. simpl. unfold Delete. by rewrite Hl.
  - intros mm d. apply rw_commit.
  - intros Hok. destruct (rw_step m h (CDiscard h) (Discard m h) ADone) as [Hok' Hst];
      [done|done|done|]. split; [done|].
    cbn [store_step] in Hst. assert (Habs : s_close (abs m) h = abs (Discard m h)) by congruence.
    change (w_Discard (m, h)) with (Discard m h, h).
    unfold v_txn, v_db. cbn [memdb_view fst snd]. rewrite <- Habs. split; [apply s_close_closed|done].
  - intros d k v (_ & Ht%rw_closed_tree & _).
    unfold r_Get, r_Has, w_Set, w_Delete, w_Commit. simpl.
    unfold Get, Has, Set', Delete, Commit. by rewrite Ht.
Qed.
End ReadWriter.

Import MapTree.

(** Two writers, a reader and a version, interleaved. *)
Definition sample_calls : list call :=
  [ CReadWriter; CSet 0 (str "k") (Some (str "1")); CCommit 0; CSaveNext;
    CReader; CReadWriter; CSet 2 (str "k") (Some (str "2")); CGet 1 (str "k");
    CSaveNext; CCommit 2; CGet 1 (str "k"); CReaderAt 1; CGet 3 (str "k");
    CReader; CGet 4 (str "k") ].

Lemma sample_calls_ok : calls_ok (T := kvmap) NewMemDBBackend sample_calls.
Proof.
  unfold sample_calls. repeat split; try (vm_compute; reflexivity);
    try (intros tx Htx; vm_compute in Htx; injection Htx as <-; reflexivity).
Qed.


Lemma memdb_invariant_witness :
  PendingTxCount (memdb_run (T := kvmap) NewMemDBBackend sample_calls).1 = 0.
Proof.
  destruct (memdb_invariant (T := kvmap) sample_calls sample_calls_ok) as [Hc _].
  rewrite Hc. vm_compute. reflexivity.
Defined.

(** The answers of the sample: the old reader keeps seeing 1 after the second
    commit, and saving is refused while the second writer is open. *)
Lemma sample_answers :
  drop 7 (store_run store_init sample_calls).2 =
  [ Ok (AValue (Some (str "1"))); Err ErrOpenTransactions; Ok ADone;
    Ok (AValue (Some (str "1"))); Ok (AHandle 3); Ok (AValue (Some (str "1")));
    Ok (AHandle 4); Ok (AValue (Some (str "2"))) ].
Proof. vm_compute. reflexivity. Qed.

(** The comment on [MemDBBackend] says that the number of open writers is
    limited to one; it is not, and of two writers the one that commits last
    overwrites the other's whole tree. *)
Lemma two_writers_lose_update :
  drop 2 (store_run store_init
    [ CReadWriter; CReadWriter; CSet 0 (str "a") (Some (str "1"));
      CSet 1 (str "b") (Some (str "2")); CCommit 0; CCommit 1; CReader; CGet 2 (str "a") ]).2
  = [ Ok ADone; Ok ADone; Ok ADone; Ok ADone; Ok (AHandle 2); Ok (AValue None) ].
Proof. vm_compute. reflexivity. Qed.

End MemDB.
