(* ===== verification/StateStore.v ===== *)
(** The ledger's state store ([src/ledger/state]): named stores over one
    backend transaction, each a data store and a sparse Merkle tree that
    commits to it.  The sparse Merkle tree is the third-party package
    lazyledger/smt: a parameter that works on two [MapStore]s, with its
    documented behaviour as a class of laws. *)
From Stdlib Require Import ZArith Lia Strings.Byte.
From stdpp Require Import base gmap list strings sorting.
From S2P Require Import Prelude VersionManager Backend Prefixed.
Import Prefixed.

(** * lazyledger/smt *)

(** The storage interface a tree is given; [S] is the state behind it. *)
Record MapStore (S : Type) := mkMapStore {
  ms_Get : S -> bytes -> outcome db_error (option bytes);
  ms_Set : S -> bytes -> option bytes -> outcome db_error S;
  ms_Delete : S -> bytes -> outcome db_error S;
}.
Arguments mkMapStore {_} _ _ _.
Arguments ms_Get {_} _ _ _.
Arguments ms_Set {_} _ _ _ _.
Arguments ms_Delete {_} _ _ _.

(** A tree is its root and the two stores of its nodes and values; an update
    may have written to the stores even when it fails. *)
Class SMT (S : Type) := {
  smt_placeholder : bytes;
  smt_Update : MapStore S -> MapStore S -> S -> bytes -> bytes -> option bytes ->
    S * (bytes + db_error);
  smt_Delete : MapStore S -> MapStore S -> S -> bytes -> bytes -> S * (bytes + db_error);
  smt_Get : MapStore S -> MapStore S -> S -> bytes -> bytes -> option bytes + db_error;
  smt_Has : MapStore S -> MapStore S -> S -> bytes -> bytes -> bool + db_error;
  smt_Prove : MapStore S -> MapStore S -> S -> bytes -> bytes -> bytes + db_error;
}.

Arguments smt_Update : simpl never.
Arguments smt_Delete : simpl never.
Arguments smt_Get : simpl never.
Arguments smt_Has : simpl never.
Arguments smt_Prove : simpl never.

Module StateStore.

Definition stateDataPrefix : byte := x01.

Definition merkleNodePrefix : byte := x03.

Definition merkleValuePrefix : byte := x04.

Definition rootKey : bytes := str "srk".

Inductive store_error :=
| EDb (e : db_error)
| EMulti (es : list db_error)
| EReadOnly
| ENoStore (name : bytes)
| EOtherReadOnly.

Section Store.
Context {S I : Type} `{DBIterator I, !DBReader S I, !DBWriter S, !SMT S}.

(** * The views of a named store

    Two prefixes on top of each other: the name, and one byte for the data,
    the tree's nodes or the tree's values. *)

Definition backendDBNamed (name : bytes) (s : S) : BackendRWPrefixed S :=
  NewBackendRWPrefixed (Some name) s.

Definition sub (name : bytes) (c : byte) (s : S) : BackendRWPrefixed (BackendRWPrefixed S) :=
  NewBackendRWPrefixed (Some [c]) (backendDBNamed name s).

Definition unwrap (v : BackendRWPrefixed (BackendRWPrefixed S)) : S := backendRW (backendRW v).

Definition sub_Get (name : bytes) (c : byte) (s : S) (key : bytes) : outcome db_error (option bytes) :=
  Get (S := BackendRWPrefixed S) (sub name c s) key.

Definition sub_Has (name : bytes) (c : byte) (s : S) (key : bytes) : outcome db_error bool :=
  Has (S := BackendRWPrefixed S) (sub name c s) key.

Definition sub_Set (name : bytes) (c : byte) (s : S) (key : bytes) (value : option bytes) :
    outcome db_error S :=
  v ← Set' (S := BackendRWPrefixed S) (sub name c s) key value; mret (unwrap v).

Definition sub_Delete (name : bytes) (c : byte) (s : S) (key : bytes) : outcome db_error S :=
  v ← Delete (S := BackendRWPrefixed S) (sub name c s) key; mret (unwrap v).

Definition sub_Iterator (name : bytes) (c : byte) (s : S) (start end_ : option bytes) :
    outcome db_error (prefixDBIterator (prefixDBIterator I)) :=
  Iterator (S := BackendRWPrefixed S) (I := prefixDBIterator I) (sub name c s) start end_.

(** * data.go *)

(** The cache is created nil and never consulted. *)
Definition newStateData (cacheSize : Z) : outcome db_error unit :=
  if (0 <? cacheSize)%Z then Ok tt else Panic.

Definition data_Get (name : bytes) (s : S) (key : bytes) : outcome db_error (option bytes) :=
  sub_Get name stateDataPrefix s key.

Definition data_Set (name : bytes) (readonly : bool) (s : S) (key : bytes) (value : option bytes) :
    outcome db_error S :=
  if readonly then Err ErrReadOnly else sub_Set name stateDataPrefix s key value.

Definition data_Delete (name : bytes) (readonly : bool) (s : S) (key : bytes) : outcome db_error S :=
  if readonly then Err ErrReadOnly else sub_Delete name stateDataPrefix s key.

Definition data_Has (name : bytes) (s : S) (key : bytes) : outcome db_error bool :=
  sub_Has name stateDataPrefix s key.

Definition data_Iterator (name : bytes) (s : S) (start end_ : option bytes) :=
  sub_Iterator name stateDataPrefix s start end_.

(** * proof.go *)

Definition stateProofDB (name : bytes) (c : byte) : MapStore S :=
  mkMapStore (sub_Get name c) (sub_Set name c) (sub_Delete name c).

Definition stateProofDBReadonly (name : bytes) (c : byte) : MapStore S :=
  mkMapStore (sub_Get name c) (fun _ _ _ => Err ErrReadOnly) (fun _ _ => Err ErrReadOnly).

Definition proofDB (readonly : bool) (name : bytes) (c : byte) : MapStore S :=
  if readonly then stateProofDBReadonly name c else stateProofDB name c.

Definition nodes (readonly : bool) (name : bytes) : MapStore S := proofDB readonly name merkleNodePrefix.

Definition values (readonly : bool) (name : bytes) : MapStore S := proofDB readonly name merkleValuePrefix.

(** [smTree.Update] sets the tree's root when it succeeds. *)
Definition tree_update (readonly : bool) (name : bytes) (s : S) (root key : bytes) (value : option bytes) :
    S * bytes * option db_error :=
  match smt_Update (nodes readonly name) (values readonly name) s root key value with
  | (s', inl root') => (s', root', None)
  | (s', inr e) => (s', root, Some e)
  end.

Definition tree_delete (readonly : bool) (name : bytes) (s : S) (root key : bytes) :
    S * bytes * option db_error :=
  match smt_Delete (nodes readonly name) (values readonly name) s root key with
  | (s', inl root') => (s', root', None)
  | (s', inr e) => (s', root, Some e)
  end.

(** Rebuilding a tree from the pairs of the values store. *)
Fixpoint rebuild (readonly : bool) (name : bytes) (s : S) (root : bytes) (l : list item) :
    outcome db_error (S * bytes) :=
  match l with
  | [] => Ok (s, root)
  | (k, v) :: l' =>
      let '(s', root', e) := tree_update readonly name s root k (Some v) in
      match e with
      | Some _ => if readonly then rebuild readonly name s' root' l' else Panic
      | None => rebuild readonly name s' root' l'
      end
  end.

(** The root the tree is imported with: the stored one, or the one of a tree
    rebuilt from the values. *)
Definition load_root (readonly : bool) (name : bytes) (s : S) : outcome db_error (S * bytes) :=
  match sub_Get name merkleValuePrefix s rootKey with
  | Ok (Some stateRoot) => Ok (s, stateRoot)
  | Ok None =>
      match sub_Iterator name merkleValuePrefix s None None with
      | Ok it =>
          match drain (Datatypes.S (length (it_rest it))) it with
          | Ok l => rebuild readonly name s smt_placeholder l
          | _ => Panic
          end
      | _ => Panic
      end
  | _ => Panic
  end.

(** The stored root is written here and nowhere else; the error of the write
    is dropped. *)
Definition newStateProof (name : bytes) (s : S) : outcome db_error (S * bytes) :=
  '(s, stateRoot) ← load_root false name s;
  match sub_Set name merkleValuePrefix s rootKey (Some stateRoot) with
  | Ok s' => Ok (s', stateRoot)
  | _ => Ok (s, stateRoot)
  end.

(** A read-only proof store ignores the errors of the updates that rebuild
    the tree. *)
Definition newStateProofReadonly (name : bytes) (s : S) : outcome db_error (S * bytes) :=
  load_root true name s.

(** * store.go *)

(** A named store: the backend is the shared state [S], the tree its root. *)
Record StateStoreComposition := mkComposition {
  c_name : bytes;
  c_readonly : bool;
  c_root : bytes;
}.

Definition newStateStoreComposition (s : S) (name : bytes) (cacheSize : Z) :
    outcome db_error (S * StateStoreComposition) :=
  _ ← newStateData cacheSize;
  '(s, root) ← newStateProof name s;
  mret (s, mkComposition name false root).

Definition newStateStoreCompositionReadOnly (s : S) (name : bytes) (cacheSize : Z) :
    outcome db_error (S * StateStoreComposition) :=
  _ ← newStateData cacheSize;
  '(s, root) ← newStateProofReadonly name s;
  mret (s, mkComposition name true root).

Definition comp_Root (store : StateStoreComposition) : bytes := c_root store.

Definition with_root (store : StateStoreComposition) (root : bytes) : StateStoreComposition :=
  mkComposition (c_name store) (c_readonly store) root.

(** [multierror.Append] of the errors that occurred. *)
Definition multi (e1 e2 : option db_error) : option store_error :=
  match e1, e2 with
  | None, None => None
  | Some e, None | None, Some e => Some (EMulti [e])
  | Some e, Some e' => Some (EMulti [e; e'])
  end.

(** A call's result, or the default, and its error. *)
Definition with_err {A} (d : A) (o : outcome db_error A) : go (A * option db_error) :=
  match o with
  | Ok a => Ok (a, None)
  | Err e => Ok (d, Some e)
  | Panic => Panic
  end.

(** The data store is written first; the tree is updated whether or not that
    succeeded. *)
Definition comp_Put (store : StateStoreComposition) (s : S) (key : bytes) (value : option bytes) :
    go (S * StateStoreComposition * option store_error) :=
  if c_readonly store then Ok (s, store, Some EReadOnly)
  else
    '(s1, err1) ← with_err s (data_Set (c_name store) (c_readonly store) s key value);
    let '(s2, root, err2) := tree_update (c_readonly store) (c_name store) s1 (c_root store) key value in
    Ok (s2, with_root store root, multi err1 err2).

Definition comp_Delete (store : StateStoreComposition) (s : S) (key : bytes) :
    go (S * StateStoreComposition * option store_error) :=
  if c_readonly store then Ok (s, store, Some EReadOnly)
  else
    '(s1, err1) ← with_err s (data_Delete (c_name store) (c_readonly store) s key);
    let '(s2, root, err2) := tree_delete (c_readonly store) (c_name store) s1 (c_root store) key in
    Ok (s2, with_root store root, multi err1 err2).

Definition comp_Exists (store : StateStoreComposition) (s : S) (key : bytes) : outcome db_error bool :=
  data_Has (c_name store) s key.

Definition comp_Update (store : StateStoreComposition) (s : S) (key : bytes) (value : option bytes) :
    go (S * StateStoreComposition * option store_error) :=
  if c_readonly store then Ok (s, store, Some EReadOnly) else comp_Put store s key value.

Definition comp_GetStateData (store : StateStoreComposition) (s : S) (key : bytes) :
    outcome db_error (option bytes) :=
  data_Get (c_name store) s key.

(** Value, proof and error, in the order of the Go results. *)
Definition comp_GetState (store : StateStoreComposition) (s : S) (key : bytes) :
    go (option bytes * option bytes * option store_error) :=
  '(value, err1) ← with_err None (data_Get (c_name store) s key);
  let '(proof, err2) :=
    match smt_Prove (nodes (c_readonly store) (c_name store))
            (values (c_readonly store) (c_name store)) s (c_root store) key with
    | inl p => (Some p, None)
    | inr e => (None, Some e)
    end in
  Ok (value, proof, multi err1 err2).

(** Walking the data iterator to its end. *)
Definition data_items (store : StateStoreComposition) (s : S) : outcome db_error (list item) :=
  it ← data_Iterator (c_name store) s None None;
  drain (Datatypes.S (length (it_rest it))) it.

Definition comp_GetAllStateData (store : StateStoreComposition) (s : S) :
    outcome db_error (list bytes * list bytes) :=
  l ← data_items store s; mret (l.*1, l.*2).

Definition comp_IterateAllStateDataCB {A} (cb : A -> bytes -> bytes -> A) (a : A)
    (store : StateStoreComposition) (s : S) : outcome db_error A :=
  l ← data_items store s; mret (fold_left (fun a kv => cb a kv.1 kv.2) l a).

(** The loop of [GetAllState]: it names the first result of [GetState], the
    value, [proof]. *)
Fixpoint all_state_loop (store : StateStoreComposition) (s : S) (l : list item)
    (keys values : list bytes) (proofs : list (option bytes)) :
    outcome store_error (list bytes * list bytes * list (option bytes)) :=
  match l with
  | [] => Ok (keys, values, proofs)
  | (k, v) :: l' =>
      match comp_GetState store s k with
      | Ok (proof, _, None) =>
          all_state_loop store s l' (keys ++ [k]) (values ++ [v]) (proofs ++ [proof])
      | Ok (_, _, Some e) => Err e
      | _ => Panic
      end
  end.

Definition lift_db {A} (o : outcome db_error A) : outcome store_error A :=
  match o with Ok a => Ok a | Err e => Err (EDb e) | Panic => Panic end.

Definition comp_GetAllState (store : StateStoreComposition) (s : S) :
    outcome store_error (list bytes * list bytes * list (option bytes)) :=
  l ← lift_db (data_items store s); all_state_loop store s l [] [] [].

Fixpoint iterate_state_loop {A} (cb : A -> bytes -> bytes -> option bytes -> A)
    (store : StateStoreComposition) (s : S) (l : list item) (a : A) : go (A * option store_error) :=
  match l with
  | [] => Ok (a, None)
  | (k, v) :: l' =>
      match comp_GetState store s k with
      | Ok (proof, _, None) => iterate_state_loop cb store s l' (cb a k v proof)
      | Ok (_, _, Some e) => Ok (a, Some e)
      | _ => Panic
      end
  end.

Definition comp_IterateAllStateCB {A} (cb : A -> bytes -> bytes -> option bytes -> A) (a : A)
    (store : StateStoreComposition) (s : S) : go (A * option store_error) :=
  match data_items store s with
  | Ok l => iterate_state_loop cb store s l a
  | Err e => Ok (a, Some (EDb e))
  | Panic => Panic
  end.

Definition comp_Commit (store : StateStoreComposition) (s : S) : go (S * option store_error) :=
  if c_readonly store then Ok (s, Some EReadOnly)
  else match w_Commit s with
       | Ok s' => Ok (s', None)
       | Err e => Ok (s, Some (EDb e))
       | Panic => Panic
       end.

(** * store_state.go *)

Definition Flag_ReadOnly : Z := 1.

Definition Flag_WriteOnly : Z := 16.

(** The state store: the shared backend state, whether it holds a reader
    ([backendR]) or a read-writer ([backendRW]), and the named stores. *)
Record stateStore := mkStateStore {
  ss_readonly : bool;
  ss_state : S;
  storeMap : gmap bytes StateStoreComposition;
}.

Context `{!DBBackend S}.

Definition NewStateStore (db : S) (flag : Z) : outcome db_error stateStore :=
  if (Z.lor Flag_ReadOnly Flag_WriteOnly =? flag)%Z then
    s ← b_ReadWriter db; mret (mkStateStore false s ∅)
  else if (Flag_ReadOnly =? flag)%Z then
    s ← b_Reader db; mret (mkStateStore true s ∅)
  else Panic.

Definition NewStateStoreAt (db : S) (flag version : Z) : outcome db_error stateStore :=
  if (Z.lor Flag_ReadOnly Flag_WriteOnly =? flag)%Z then
    s ← b_ReadWriter db; mret (mkStateStore false s ∅)
  else if (Flag_ReadOnly =? flag)%Z then
    match b_ReaderAt db version with
    | Ok s => mret (mkStateStore true s ∅)
    | _ => Panic
    end
  else Panic.

Definition set_store (m : stateStore) (s : S) (name : bytes) (c : StateStoreComposition) : stateStore :=
  mkStateStore (ss_readonly m) s (<[name:=c]> (storeMap m)).

Definition AddNamedStateStore (m : stateStore) (name : bytes) (cacheSize : Z) :
    outcome db_error stateStore :=
  match storeMap m !! name with
  | Some _ => Ok m
  | None =>
      '(s, ss) ← (if ss_readonly m
                  then newStateStoreCompositionReadOnly (ss_state m) name cacheSize
                  else newStateStoreComposition (ss_state m) name cacheSize);
      mret (set_store m s name ss)
  end.

(** Finding the named store, or the error that there is none. *)
Definition with_store {A} (m : stateStore) (name : bytes) (f : StateStoreComposition -> A) :
    A + store_error :=
  match storeMap m !! name with
  | Some ss => inl (f ss)
  | None => inr (ENoStore name)
  end.

Definition Root (m : stateStore) (name : bytes) : bytes + store_error :=
  with_store m name comp_Root.

(** A write to a named store. *)
Definition write_store (m : stateStore) (name : bytes)
    (f : StateStoreComposition -> S -> go (S * StateStoreComposition * option store_error)) :
    go (stateStore * option store_error) :=
  if ss_readonly m then Ok (m, Some EReadOnly)
  else
    match storeMap m !! name with
    | None => Ok (m, Some (ENoStore name))
    | Some ss => '(s, ss', e) ← f ss (ss_state m); mret (set_store m s name ss', e)
    end.

Definition Put (m : stateStore) (name key : bytes) (value : option bytes) :
    go (stateStore * option store_error) :=
  write_store m name (fun ss s => comp_Put ss s key value).

Definition Delete (m : stateStore) (name key : bytes) : go (stateStore * option store_error) :=
  write_store m name (fun ss s => comp_Delete ss s key).

Definition Update (m : stateStore) (name key : bytes) (value : option bytes) :
    go (stateStore * option store_error) :=
  write_store m name (fun ss s => comp_Update ss s key value).

Definition Exists (m : stateStore) (name key : bytes) : outcome db_error bool + store_error :=
  with_store m name (fun ss => comp_Exists ss (ss_state m) key).

Definition GetStateData (m : stateStore) (name key : bytes) :
    outcome db_error (option bytes) + store_error :=
  with_store m name (fun ss => comp_GetStateData ss (ss_state m) key).

Definition GetState (m : stateStore) (name key : bytes) :=
  with_store m name (fun ss => comp_GetState ss (ss_state m) key).

Definition GetAllStateData (m : stateStore) (name : bytes) :=
  with_store m name (fun ss => comp_GetAllStateData ss (ss_state m)).

Definition IterateAllStateDataCB {A} (cb : A -> bytes -> bytes -> A) (a : A)
    (m : stateStore) (name : bytes) :=
  with_store m name (fun ss => comp_IterateAllStateDataCB cb a ss (ss_state m)).

Definition GetAllState (m : stateStore) (name : bytes) :=
  with_store m name (fun ss => comp_GetAllState ss (ss_state m)).

Definition IterateAllStateCB {A} (cb : A -> bytes -> bytes -> option bytes -> A) (a : A)
    (m : stateStore) (name : bytes) :=
  with_store m name (fun ss => comp_IterateAllStateCB cb a ss (ss_state m)).

(** Copying every pair of the backend into another store's backend; the
    errors of the writes are dropped. *)
Fixpoint clone_loop (l : list item) (other : S) : go S :=
  match l with
  | [] => Ok other
  | (k, v) :: l' =>
      match w_Set other k (Some v) with
      | Ok other' => clone_loop l' other'
      | Err _ => clone_loop l' other
      | Panic => Panic
      end
  end.

Definition Clone (m other : stateStore) : go (stateStore * option store_error) :=
  if ss_readonly other then Ok (other, Some EOtherReadOnly)
  else
    match r_Iterator (ss_state m) None None with
    | Ok it =>
        match drain (Datatypes.S (length (it_rest it))) it with
        | Ok l => s ← clone_loop l (ss_state other);
                  mret (mkStateStore false s (storeMap other), None)
        | _ => Panic
        end
    | Err e => Ok (other, Some (EDb e))
    | Panic => Panic
    end.

Definition StateLatestVersion (m : stateStore) : Z := VersionManager.Last (b_Versions (ss_state m)).

Definition StateVersions (m : stateStore) : list Z :=
  VersionManager.ch (VersionManager.Iterator (b_Versions (ss_state m))).

Definition with_state (m : stateStore) (s : S) : stateStore :=
  mkStateStore (ss_readonly m) s (storeMap m).

(** The errors of the commit and of the save are dropped. *)
Definition Commit (m : stateStore) : go (stateStore * option store_error) :=
  if ss_readonly m then Ok (m, Some EReadOnly)
  else
    '(s1, _) ← with_err (ss_state m) (w_Commit (ss_state m));
    let lastVer := VersionManager.Last (b_Versions s1) in
    '(s2, _) ← with_err s1 (b_SaveVersion s1 (u64 (lastVer + 1)));
    Ok (with_state m s2, None).

Definition Rollback (m : stateStore) : stateStore * option store_error :=
  if ss_readonly m then (m, Some EReadOnly)
  else let '(s, e) := b_Revert (ss_state m) in (with_state m s, EDb <$> e).

Definition Stop (m : stateStore) : stateStore := with_state m (w_Discard (ss_state m)).
End Store.
Arguments stateStore S : clear implicits.

End StateStore.
