(* ===== verification/StateStoreSpec.v ===== *)
(** What the state store promises: each named store behaves as a finite map of
    its own, the stores of different names and their Merkle trees do not
    interfere, and the root of a store that was opened empty is the Merkle
    root of exactly its non-empty values.  The file also shows where the
    promise stops: reopening a store imports a root that was never brought up
    to date, and [GetAllState] returns values where proofs are expected. *)
From Stdlib Require Import ZArith Lia Strings.Byte.
From stdpp Require Import base gmap list strings sorting.
From S2P Require Import Prelude VersionManager Backend Prefixed MemDB StateStore.
Import Prefixed StateStore.

(** * The documented behaviour of lazyledger/smt *)

(** Two stores that behave as independent maps on the states of [Inv]. *)
Record stores {S} (n v : MapStore S) (Inv : S -> Prop) (mn mv : S -> kvmap) : Prop := {
  st_get_n : forall s k, Inv s -> k <> [] -> ms_Get n s k = Ok (mn s !! k);
  st_get_v : forall s k, Inv s -> k <> [] -> ms_Get v s k = Ok (mv s !! k);
  st_set_n : forall s k x, Inv s -> k <> [] ->
    exists s', ms_Set n s k (Some x) = Ok s' /\ Inv s' /\ mn s' = <[k:=x]> (mn s) /\ mv s' = mv s;
  st_set_v : forall s k x, Inv s -> k <> [] ->
    exists s', ms_Set v s k (Some x) = Ok s' /\ Inv s' /\ mv s' = <[k:=x]> (mv s) /\ mn s' = mn s;
  st_del_n : forall s k, Inv s -> k <> [] ->
    exists s', ms_Delete n s k = Ok s' /\ Inv s' /\ mn s' = delete k (mn s) /\ mv s' = mv s;
  st_del_v : forall s k, Inv s -> k <> [] ->
    exists s', ms_Delete v s k = Ok s' /\ Inv s' /\ mv s' = delete k (mv s) /\ mn s' = mn s;
}.

(** Setting the empty value removes a key from a tree. *)
Definition tree_upd (c : kvmap) (k : bytes) (v : option bytes) : kvmap :=
  match v with
  | None | Some [] => delete k c
  | Some x => <[k:=x]> c
  end.

(** The values store is addressed by hashes, which are 32 bytes long. *)
Definition smt_pathSize : nat := 32.

Class SMTLaws (S : Type) `{SMT S} := {
  (** the root of a tree with given contents *)
  smt_root : kvmap -> bytes;
  (** the stores hold a tree with this root and these contents *)
  smt_rep : MapStore S -> MapStore S -> S -> bytes -> kvmap -> Prop;
  smt_root_empty : smt_root ∅ = smt_placeholder;
  smt_rep_empty : forall n v s, smt_rep n v s smt_placeholder ∅;
  smt_update_law : forall n v Inv mn mv s r c k x,
    stores n v Inv mn mv -> Inv s -> smt_rep n v s r c ->
    let c' := tree_upd c k x in
    exists s', smt_Update n v s r k x = (s', inl (smt_root c')) /\ smt_rep n v s' (smt_root c') c';
  smt_delete_law : forall n v Inv mn mv s r c k,
    stores n v Inv mn mv -> Inv s -> smt_rep n v s r c ->
    let c' := delete k c in
    exists s', smt_Delete n v s r k = (s', inl (smt_root c')) /\ smt_rep n v s' (smt_root c') c';
  (** every key has a proof, of membership or of absence *)
  smt_prove_law : forall n v Inv mn mv s r c k,
    stores n v Inv mn mv -> Inv s -> smt_rep n v s r c ->
    exists p, smt_Prove n v s r k = inl p;
  (** a tree changes its stores only through their methods, and the values
      store only at paths *)
  smt_frame : forall n v (P : S -> Prop),
    (forall s k x s', P s -> ms_Set n s k x = Ok s' -> P s') ->
    (forall s k s', P s -> ms_Delete n s k = Ok s' -> P s') ->
    (forall s k x s', length k = smt_pathSize -> P s -> ms_Set v s k x = Ok s' -> P s') ->
    (forall s k s', length k = smt_pathSize -> P s -> ms_Delete v s k = Ok s' -> P s') ->
    forall s r k x, P s -> P (smt_Update n v s r k x).1 /\ P (smt_Delete n v s r k).1;
  (** a tree depends on what its stores answer only *)
  smt_rep_frame : forall n v s s' r c,
    (forall k, ms_Get n s k = ms_Get n s' k) ->
    (forall k, length k = smt_pathSize -> ms_Get v s k = ms_Get v s' k) ->
    smt_rep n v s r c -> smt_rep n v s' r c;
}.

Module StateStoreSpec.

(** * Names and views *)

(** The key prefix of one part of a named store. *)
Definition part (name : bytes) (c : byte) : bytes := name ++ [c].

(** Usable names: not empty, and of bytes above the part bytes 0 to 4. *)
Definition good_name (name : bytes) : Prop :=
  name <> [] /\ Forall (fun c => (4 < b2z c < 255)%Z) name.

Definition is_part (c : byte) : Prop := c = stateDataPrefix \/ c = merkleNodePrefix \/ c = merkleValuePrefix.

Lemma view_view p q m : q <> [] -> view q (view p m) = view (p ++ q) m.
Proof.
  intros Hq. apply map_eq. intros k. rewrite !lookup_view. case_decide; [done|].
  rewrite decide_False by (by destruct q). by rewrite app_assoc.
Qed.

(** Parts of the same or of different names never have a common key. *)
Lemma part_no_prefix name name' c c' :
  good_name name -> good_name name' -> is_part c -> is_part c' -> (name, c) <> (name', c') ->
  has_prefix (part name c) (part name' c') = false.
Proof.
  intros [_ Hn] [_ Hn'] Hc Hc' Hne. apply not_true_iff_false. intros [x Hx]%has_prefix_app.
  unfold part in Hx. revert name' Hn' Hx Hne.
  induction Hn as [|a name Ha Hn IH]; intros name' Hn' Hx Hne.
  - destruct name' as [|b name']; simplify_eq/=.
    inversion Hn'; subst. destruct Hc as [-> | [-> | ->]]; vm_compute in H1; by destruct H1.
  - destruct name' as [|b name']; simplify_eq/=.
    + destruct Hc' as [-> | [-> | ->]]; vm_compute in Ha; by destruct Ha.
    + inversion Hn'; subst. eapply IH; eauto. congruence.
Qed.

(** A write under one part leaves the view of another part alone. *)
Lemma part_no_prefix_key name name' c c' k :
  good_name name -> good_name name' -> is_part c -> is_part c' -> (name, c) <> (name', c') ->
  has_prefix (part name' c') (part name c ++ k) = false.
Proof.
  intros Hn Hn' Hc Hc' Hne. apply not_true_iff_false. intros [x Hx]%has_prefix_app.
  pose proof (part_no_prefix name name' c c' Hn Hn' Hc Hc' Hne) as H1.
  pose proof (part_no_prefix name' name c' c Hn' Hn Hc' Hc ltac:(congruence)) as H2.
  apply not_true_iff_false in H1, H2. rewrite has_prefix_app in H1, H2.
  apply app_eq_inv in Hx as [(l & Hl & _)|(l & Hl & _)]; eauto.
Qed.

Lemma good_name_prefix name : good_name name -> good_prefix (Some name).
Proof.
  intros [Hne Hn]. split; [done|]. simpl. intros Hl.
  apply last_Some in Hl as [l ->]. apply Forall_app in Hn as [_ Hn]. inversion Hn; subst.
  vm_compute in H1. by destruct H1.
Qed.

Lemma is_part_prefix c : is_part c -> good_prefix (Some [c]).
Proof. by intros [-> | [-> | ->]]. Qed.

Section Views.
Context {S I : Type} `{DBReadWriterLaws S I}.

Lemma sub_opened name c (s : S) bm bd :
  opened s bm bd -> good_name name -> is_part c ->
  opened (sub name c s) (view (part name c) bm) (view (part name c) bd).
Proof.
  intros Ho Hn Hc. unfold part. rewrite <- !view_view by done.
  destruct (good_name_prefix name Hn) as [Hg1 Hg2], (is_part_prefix c Hc) as [Hg3 Hg4].
  apply opened_view. exists [c], (view name bm), (view name bd). split_and!; try done.
  apply opened_view. by exists name, bm, bd.
Qed.

(** Reading and writing through both prefixes is reading and writing the
    backend under the part's prefix. *)
Lemma sub_Get_eq name c (s : S) bm bd k :
  opened s bm bd -> good_name name -> is_part c ->
  sub_Get name c s k = if decide (k = []) then Err ErrKeyEmpty else Ok (view (part name c) bm !! k).
Proof.
  intros Ho Hn Hc.
  exact (l_get (I := prefixDBIterator (prefixDBIterator I)) _ _ _ k (sub_opened name c s bm bd Ho Hn Hc)).
Qed.

Lemma sub_Has_eq name c (s : S) bm bd k :
  opened s bm bd -> good_name name -> is_part c ->
  sub_Has name c s k = if decide (k = []) then Err ErrKeyEmpty
                       else Ok (bool_decide (is_Some (view (part name c) bm !! k))).
Proof.
  intros Ho Hn Hc.
  exact (l_has (I := prefixDBIterator (prefixDBIterator I)) _ _ _ k (sub_opened name c s bm bd Ho Hn Hc)).
Qed.

Lemma sub_Set_eq name c (s : S) bm bd k v :
  opened s bm bd -> good_name name -> is_part c -> k <> [] ->
  exists s', sub_Set name c s k (Some v) = Ok s' /\ opened s' (<[part name c ++ k:=v]> bm) bd.
Proof.
  intros Ho [Hn _] Hc Hk. destruct (l_set s bm bd (part name c ++ k) v Ho) as (s' & Hs & Ho').
  { unfold part. by destruct name. }
  exists s'. split; [|done]. unfold sub_Set, Set'. rewrite length_eqb_nil, bool_decide_eq_false_2 by done.
  rewrite (pkey_app _ [c]) by done. unfold w_Set at 1. simpl. unfold Set'. simpl.
  unfold pkey. simpl. unfold part in Hs. rewrite <- app_assoc in Hs. simpl in Hs. by rewrite Hs.
Qed.

Lemma sub_Set_err name c (s : S) bm bd k :
  opened s bm bd -> good_name name -> is_part c ->
  (forall v, sub_Set name c s [] v = Err ErrKeyEmpty)
  /\ (k <> [] -> sub_Set name c s k None = Err ErrValueNil).
Proof.
  intros Ho [Hn _] Hc. split; [done|]. intros Hk.
  unfold sub_Set, Set'. rewrite length_eqb_nil, bool_decide_eq_false_2 by done.
  rewrite (pkey_app _ [c]) by done. unfold w_Set at 1. simpl. unfold Set'. simpl.
  unfold pkey. simpl. by rewrite (proj2 (l_set_err s bm bd (name ++ c :: k) Ho)) by (by destruct name).
Qed.

Lemma sub_Delete_eq name c (s : S) bm bd k :
  opened s bm bd -> good_name name -> is_part c -> k <> [] ->
  exists s', sub_Delete name c s k = Ok s' /\ opened s' (delete (part name c ++ k) bm) bd.
Proof.
  intros Ho [Hn _] Hc Hk. destruct (l_delete s bm bd (part name c ++ k) Ho) as (s' & Hs & Ho').
  { unfold part. by destruct name. }
  exists s'. split; [|done].
  unfold sub_Delete, Prefixed.Delete. rewrite length_eqb_nil, bool_decide_eq_false_2 by done.
  rewrite (pkey_app _ [c]) by done. unfold w_Delete at 1. simpl. unfold Prefixed.Delete. simpl.
  unfold pkey. simpl. unfold part in Hs. rewrite <- app_assoc in Hs. simpl in Hs. by rewrite Hs.
Qed.

Lemma sub_Iterator_eq name c (s : S) bm bd start end_ :
  opened s bm bd -> good_name name -> is_part c -> bound_ok start = true -> bound_ok end_ = true ->
  exists it, sub_Iterator name c s start end_ = Ok it
    /\ drain (Datatypes.S (length (it_rest it))) it = Ok (range_items start end_ (view (part name c) bm)).
Proof.
  intros Ho Hn Hc Hs He.
  destruct (l_iterator (I := prefixDBIterator (prefixDBIterator I)) _ _ _ start end_
    (sub_opened name c s bm bd Ho Hn Hc) Hs He) as (it & Hit & Hok & Hr).
  exists it. split; [exact Hit|]. rewrite <- Hr. apply drain_rest; [done|lia].
Qed.

(** Writing a key of one part, seen from any part. *)
Lemma view_part_insert name name' c c' bm k v :
  good_name name -> good_name name' -> is_part c -> is_part c' -> k <> [] ->
  view (part name' c') (<[part name c ++ k:=v]> bm)
  = if decide ((name, c) = (name', c')) then <[k:=v]> (view (part name c) bm)
    else view (part name' c') bm.
Proof.
  intros Hn Hn' Hc Hc' Hk. case_decide as Heq.
  - simplify_eq. by apply view_insert.
  - apply view_insert_other. by apply part_no_prefix_key.
Qed.

Lemma view_part_delete name name' c c' bm k :
  good_name name -> good_name name' -> is_part c -> is_part c' ->
  view (part name' c') (delete (part name c ++ k) bm)
  = if decide ((name, c) = (name', c')) then delete k (view (part name c) bm)
    else view (part name' c') bm.
Proof.
  intros Hn Hn' Hc Hc'. case_decide as Heq.
  - simplify_eq. by apply view_delete.
  - apply view_delete_other. by apply part_no_prefix_key.
Qed.
End Views.

Lemma part_data : is_part stateDataPrefix.
Proof. by left. Qed.

Lemma part_nodes : is_part merkleNodePrefix.
Proof. by right; left. Qed.

Lemma part_values : is_part merkleValuePrefix.
Proof. by right; right. Qed.

Create HintDb parts.
#[export] Hint Resolve part_data part_nodes part_values : parts.

Section Trees.
Context {S I : Type} `{DBReadWriterLaws S I}.

Definition map_of (s : S) : kvmap := default ∅ (v_txn s).

Lemma opened_map_of (s : S) bm bd : opened s bm bd -> map_of s = bm.
Proof. intros (_ & Ht & _). unfold map_of. by rewrite Ht. Qed.

Definition is_opened (bd : kvmap) (s : S) : Prop := exists bm, opened s bm bd.

(** The tree's two stores are independent maps. *)
Lemma tree_stores name bd :
  good_name name ->
  stores (nodes false name) (values false name) (is_opened bd)
    (fun s => view (part name merkleNodePrefix) (map_of s))
    (fun s => view (part name merkleValuePrefix) (map_of s)).
Proof.
  intros Hn.
  assert (Hget : forall c s k, is_part c -> is_opened bd s -> k <> [] ->
    sub_Get name c s k = Ok (view (part name c) (map_of s) !! k)).
  { intros c s k Hc [bm Ho] Hk. rewrite (sub_Get_eq name c s bm bd k Ho Hn Hc).
    rewrite (opened_map_of s bm bd Ho). by rewrite decide_False. }
  assert (Hset : forall c c' s k x, is_part c -> is_part c' -> c <> c' -> is_opened bd s -> k <> [] ->
    exists s', sub_Set name c s k (Some x) = Ok s' /\ is_opened bd s'
      /\ view (part name c) (map_of s') = <[k:=x]> (view (part name c) (map_of s))
      /\ view (part name c') (map_of s') = view (part name c') (map_of s)).
  { intros c c' s k x Hc Hc' Hne [bm Ho] Hk.
    destruct (sub_Set_eq name c s bm bd k x Ho Hn Hc Hk) as (s' & Hs & Ho').
    exists s'. rewrite (opened_map_of s bm bd Ho), (opened_map_of s' _ bd Ho').
    rewrite (view_part_insert name name c c), (view_part_insert name name c c') by done.
    rewrite decide_True, decide_False by congruence.
    split_and!; [done|by eexists|done|done]. }
  assert (Hdel : forall c c' s k, is_part c -> is_part c' -> c <> c' -> is_opened bd s -> k <> [] ->
    exists s', sub_Delete name c s k = Ok s' /\ is_opened bd s'
      /\ view (part name c) (map_of s') = delete k (view (part name c) (map_of s))
      /\ view (part name c') (map_of s') = view (part name c') (map_of s)).
  { intros c c' s k Hc Hc' Hne [bm Ho] Hk.
    destruct (sub_Delete_eq name c s bm bd k Ho Hn Hc Hk) as (s' & Hs & Ho').
    exists s'. rewrite (opened_map_of s bm bd Ho), (opened_map_of s' _ bd Ho').
    rewrite (view_part_delete name name c c), (view_part_delete name name c c') by done.
    rewrite decide_True, decide_False by congruence.
    split_and!; [done|by eexists|done|done]. }
  split; simpl; intros; eauto with parts; (apply Hset || apply Hdel); auto with parts; done.
Qed.

(** What a tree may change: its own two parts, and there not the root key. *)
Definition unaffected (name : bytes) (bm bm' : kvmap) : Prop :=
  (forall n' c', good_name n' -> is_part c' ->
     (n', c') <> (name, merkleNodePrefix) -> (n', c') <> (name, merkleValuePrefix) ->
     view (part n' c') bm' = view (part n' c') bm)
  /\ view (part name merkleValuePrefix) bm' !! rootKey = view (part name merkleValuePrefix) bm !! rootKey.

Lemma unaffected_trans name a b c : unaffected name a b -> unaffected name b c -> unaffected name a c.
Proof.
  intros [H1 H2] [H3 H4]. split; [|congruence].
  intros n' c' Hn' Hc' Hne1 Hne2. rewrite H3 by done. by apply H1.
Qed.

Lemma unaffected_insert name c bm k v :
  good_name name -> c = merkleNodePrefix \/ (c = merkleValuePrefix /\ k <> rootKey) -> k <> [] ->
  unaffected name bm (<[part name c ++ k:=v]> bm).
Proof.
  intros Hn Hc Hk. assert (is_part c) by (destruct Hc as [->|[-> _]]; auto with parts). split.
  - intros n' c' Hn' Hc' Hne1 Hne2. rewrite view_part_insert, decide_False; auto.
    destruct Hc as [->|[-> _]]; congruence.
  - rewrite view_part_insert by auto with parts. case_decide as Heq; [|done].
    rewrite lookup_insert_ne; [congruence|]. destruct Hc as [->|[_ ?]]; [by inversion Heq|congruence].
Qed.

Lemma unaffected_delete name c bm k :
  good_name name -> c = merkleNodePrefix \/ (c = merkleValuePrefix /\ k <> rootKey) ->
  unaffected name bm (delete (part name c ++ k) bm).
Proof.
  intros Hn Hc. assert (is_part c) by (destruct Hc as [->|[-> _]]; auto with parts). split.
  - intros n' c' Hn' Hc' Hne1 Hne2. rewrite view_part_delete, decide_False; auto.
    destruct Hc as [->|[-> _]]; congruence.
  - rewrite view_part_delete by auto with parts. case_decide as Heq; [|done].
    rewrite lookup_delete_ne; [congruence|]. destruct Hc as [->|[_ ?]]; [by inversion Heq|congruence].
Qed.

Context `{!SMT S, !SMTLaws S}.

Lemma tree_frame name (s : S) bm bd r k x :
  opened s bm bd -> good_name name ->
  (exists bm', opened (smt_Update (nodes false name) (values false name) s r k x).1 bm' bd
     /\ unaffected name bm bm')
  /\ (exists bm', opened (smt_Delete (nodes false name) (values false name) s r k).1 bm' bd
     /\ unaffected name bm bm').
Proof.
  intros Ho Hn.
  set (P := fun s : S => exists bm', opened s bm' bd /\ unaffected name bm bm').
  assert (Hset : forall c s k x s', is_part c ->
    (c = merkleNodePrefix \/ (c = merkleValuePrefix /\ k <> rootKey)) ->
    P s -> sub_Set name c s k x = Ok s' -> P s').
  { intros c s0 k0 x0 s' Hc Hcc (bm' & Ho' & Hu) Hs.
    destruct (decide (k0 = [])) as [->|Hk]; [done|].
    destruct x0 as [x0|].
    - destruct (sub_Set_eq name c s0 bm' bd k0 x0 Ho' Hn Hc Hk) as (s1 & Hs1 & Ho1).
      rewrite Hs1 in Hs. injection Hs as <-. eexists. split; [exact Ho1|]. eapply unaffected_trans; [done|].
      by apply unaffected_insert.
    - by rewrite (proj2 (sub_Set_err name c s0 bm' bd k0 Ho' Hn Hc) Hk) in Hs. }
  assert (Hdel : forall c s k s', is_part c ->
    (c = merkleNodePrefix \/ (c = merkleValuePrefix /\ k <> rootKey)) ->
    P s -> sub_Delete name c s k = Ok s' -> P s').
  { intros c s0 k0 s' Hc Hcc (bm' & Ho' & Hu) Hs.
    destruct (decide (k0 = [])) as [->|Hk]; [done|].
    destruct (sub_Delete_eq name c s0 bm' bd k0 Ho' Hn Hc Hk) as (s1 & Hs1 & Ho1).
    rewrite Hs1 in Hs. injection Hs as <-. eexists. split; [exact Ho1|]. eapply unaffected_trans; [done|].
    by apply unaffected_delete. }
  assert (Hpath : forall k, length k = smt_pathSize -> k <> rootKey) by (by intros k0 Hl ->).
  assert (HP : P s) by (exists bm; split; [done|by split]).
  apply (smt_frame (nodes false name) (values false name) P); [..|exact HP]; simpl.
  - intros s0 k0 x0 s'. apply Hset; auto with parts.
  - intros s0 k0 s'. apply Hdel; auto with parts.
  - intros s0 k0 x0 s' Hl. apply Hset; auto with parts.
  - intros s0 k0 s' Hl. apply Hdel; auto with parts.
Qed.

(** * One named store *)

Definition data_of (name : bytes) (bm : kvmap) : kvmap := view (part name stateDataPrefix) bm.

(** What a tree holds for given data: the values that are not empty. *)
Definition tree_data (d : kvmap) : kvmap := filter (fun kv => kv.2 <> []) d.

Lemma tree_data_insert d k v : tree_upd (tree_data d) k (Some v) = tree_data (<[k:=v]> d).
Proof.
  unfold tree_data. rewrite map_filter_insert. case_decide as Hv; destruct v as [|b v]; try done.
  by rewrite map_filter_delete.
Qed.

Lemma tree_data_delete d k : delete k (tree_data d) = tree_data (delete k d).
Proof. unfold tree_data. by rewrite map_filter_delete. Qed.

(** The invariant of an open store: the stores hold a tree whose root is the
    store's, with the non-empty values of the data. *)
Record comp_inv (store : StateStoreComposition) (s : S) (bm bd : kvmap) : Prop := {
  ci_open : opened s bm bd;
  ci_name : good_name (c_name store);
  ci_rw : c_readonly store = false;
  ci_rep : smt_rep (nodes false (c_name store)) (values false (c_name store)) s (c_root store)
             (tree_data (data_of (c_name store) bm));
  ci_root : c_root store = smt_root (tree_data (data_of (c_name store) bm));
}.

(** Other stores, whatever their name and part, are as before. *)
Definition others_same (name : bytes) (bm bm' : kvmap) : Prop :=
  forall n' c', good_name n' -> is_part c' -> n' <> name ->
    view (part n' c') bm' = view (part n' c') bm.

(** The root that opening the store again would import. *)
Definition stored_root (name : bytes) (bm : kvmap) : option bytes :=
  view (part name merkleValuePrefix) bm !! rootKey.

(** A tree survives a write to the data of its store. *)
Lemma rep_data_write name (s s1 : S) bm bm1 bd r c :
  good_name name -> opened s bm bd -> opened s1 bm1 bd ->
  (forall c, is_part c -> c <> stateDataPrefix -> view (part name c) bm1 = view (part name c) bm) ->
  smt_rep (nodes false name) (values false name) s r c ->
  smt_rep (nodes false name) (values false name) s1 r c.
Proof.
  intros Hn Ho Ho1 Hsame. apply smt_rep_frame; simpl; intros k; try intros _.
  - rewrite (sub_Get_eq name _ s bm bd), (sub_Get_eq name _ s1 bm1 bd) by auto with parts.
    by rewrite Hsame by auto with parts.
  - rewrite (sub_Get_eq name _ s bm bd), (sub_Get_eq name _ s1 bm1 bd) by auto with parts.
    by rewrite Hsame by auto with parts.
Qed.

Lemma comp_Put_spec store (s : S) bm bd key v :
  comp_inv store s bm bd -> key <> [] ->
  exists s' store' bm', comp_Put store s key (Some v) = Ok (s', store', None)
    /\ comp_inv store' s' bm' bd /\ c_name store' = c_name store
    /\ data_of (c_name store) bm' = <[key:=v]> (data_of (c_name store) bm)
    /\ others_same (c_name store) bm bm' /\ stored_root (c_name store) bm' = stored_root (c_name store) bm.
Proof.
  intros [Ho Hn Hrw Hrep Hroot] Hk. destruct store as [name ro root]. simpl in *. subst ro.
  destruct (sub_Set_eq name stateDataPrefix s bm bd key v Ho Hn part_data Hk) as (s1 & Hs1 & Ho1).
  set (bm1 := <[part name stateDataPrefix ++ key:=v]> bm) in *.
  assert (Hd1 : data_of name bm1 = <[key:=v]> (data_of name bm)).
  { unfold data_of, bm1. rewrite view_part_insert by auto with parts. by rewrite decide_True. }
  assert (Hother : forall n' c', good_name n' -> is_part c' -> (n', c') <> (name, stateDataPrefix) ->
    view (part n' c') bm1 = view (part n' c') bm).
  { intros n' c' Hn' Hc' Hne. unfold bm1. rewrite view_part_insert by auto with parts.
    by rewrite decide_False by congruence. }
  assert (Hrep1 : smt_rep (nodes false name) (values false name) s1 root (tree_data (data_of name bm))).
  { eapply (rep_data_write name s s1 bm bm1 bd); eauto. intros c Hc Hne. apply Hother; auto. congruence. }
  destruct (smt_update_law _ _ _ _ _ s1 root _ key (Some v) (tree_stores name bd Hn)
    (ex_intro _ bm1 Ho1) Hrep1) as (s2 & Hup & Hrep2).
  destruct (tree_frame name s1 bm1 bd root key (Some v) Ho1 Hn) as [(bm2 & Ho2 & Hu & Hr) _].
  rewrite Hup in Ho2. simpl in Ho2. rewrite tree_data_insert, <- Hd1 in Hup, Hrep2.
  assert (Hd2 : data_of name bm2 = data_of name bm1).
  { unfold data_of. apply Hu; auto with parts; by intros [=]. }
  exists s2, (mkComposition name false (smt_root (tree_data (data_of name bm1)))), bm2. split_and!.
  - unfold comp_Put, data_Set, tree_update. cbn [c_readonly c_name c_root]. rewrite Hs1. cbn [with_err mbind outcome_bind]. by rewrite Hup.
  - split; simpl; rewrite ?Hd2; done.
  - done.
  - by rewrite Hd2.
  - intros n' c' Hn' Hc' Hne. rewrite Hu by (auto; congruence). apply Hother; auto. congruence.
  - unfold stored_root. rewrite Hr, Hother; auto with parts; by intros [=].
Qed.

Lemma comp_Delete_spec store (s : S) bm bd key :
  comp_inv store s bm bd -> key <> [] ->
  exists s' store' bm', comp_Delete store s key = Ok (s', store', None)
    /\ comp_inv store' s' bm' bd /\ c_name store' = c_name store
    /\ data_of (c_name store) bm' = delete key (data_of (c_name store) bm)
    /\ others_same (c_name store) bm bm' /\ stored_root (c_name store) bm' = stored_root (c_name store) bm.
Proof.
  intros [Ho Hn Hrw Hrep Hroot] Hk. destruct store as [name ro root]. simpl in *. subst ro.
  destruct (sub_Delete_eq name stateDataPrefix s bm bd key Ho Hn part_data Hk) as (s1 & Hs1 & Ho1).
  set (bm1 := delete (part name stateDataPrefix ++ key) bm) in *.
  assert (Hd1 : data_of name bm1 = delete key (data_of name bm)).
  { unfold data_of, bm1. rewrite view_part_delete by auto with parts. by rewrite decide_True. }
  assert (Hother : forall n' c', good_name n' -> is_part c' -> (n', c') <> (name, stateDataPrefix) ->
    view (part n' c') bm1 = view (part n' c') bm).
  { intros n' c' Hn' Hc' Hne. unfold bm1. rewrite view_part_delete by auto with parts.
    by rewrite decide_False by congruence. }
  assert (Hrep1 : smt_rep (nodes false name) (values false name) s1 root (tree_data (data_of name bm))).
  { eapply (rep_data_write name s s1 bm bm1 bd); eauto. intros c Hc Hne. apply Hother; auto. congruence. }
  destruct (smt_delete_law _ _ _ _ _ s1 root _ key (tree_stores name bd Hn)
    (ex_intro _ bm1 Ho1) Hrep1) as (s2 & Hup & Hrep2).
  destruct (tree_frame name s1 bm1 bd root key None Ho1 Hn) as [_ (bm2 & Ho2 & Hu & Hr)].
  rewrite Hup in Ho2. simpl in Ho2. rewrite tree_data_delete, <- Hd1 in Hup, Hrep2.
  assert (Hd2 : data_of name bm2 = data_of name bm1).
  { unfold data_of. apply Hu; auto with parts; by intros [=]. }
  exists s2, (mkComposition name false (smt_root (tree_data (data_of name bm1)))), bm2. split_and!.
  - unfold comp_Delete, data_Delete, tree_delete. cbn [c_readonly c_name c_root]. rewrite Hs1. cbn [with_err mbind outcome_bind]. by rewrite Hup.
  - split; simpl; rewrite ?Hd2; done.
  - done.
  - by rewrite Hd2.
  - intros n' c' Hn' Hc' Hne. rewrite Hu by (auto; congruence). apply Hother; auto. congruence.
  - unfold stored_root. rewrite Hr, Hother; auto with parts; by intros [=].
Qed.

(** Opening a store whose parts are empty. *)
Lemma range_items_empty : range_items None None ∅ = [].
Proof. by vm_compute. Qed.

Lemma open_empty name (s : S) bm bd cacheSize :
  opened s bm bd -> good_name name -> (0 < cacheSize)%Z ->
  data_of name bm = ∅ -> view (part name merkleValuePrefix) bm = ∅ ->
  exists s' bm', newStateStoreComposition s name cacheSize
      = Ok (s', mkComposition name false smt_placeholder)
    /\ comp_inv (mkComposition name false smt_placeholder) s' bm' bd
    /\ data_of name bm' = ∅
    /\ view (part name merkleValuePrefix) bm' = {[ rootKey := smt_placeholder ]}
    /\ others_same name bm bm'.
Proof.
  intros Ho Hn Hcs Hd Hv.
  destruct (sub_Set_eq name merkleValuePrefix s bm bd rootKey smt_placeholder Ho Hn part_values
    ltac:(done)) as (s' & Hs & Ho').
  set (bm' := <[part name merkleValuePrefix ++ rootKey:=smt_placeholder]> bm) in *.
  assert (Hpart : forall n' c', good_name n' -> is_part c' -> (n', c') <> (name, merkleValuePrefix) ->
    view (part n' c') bm' = view (part n' c') bm).
  { intros n' c' Hn' Hc' Hne. unfold bm'. rewrite view_part_insert by auto with parts.
    by rewrite decide_False by congruence. }
  assert (Hd' : data_of name bm' = ∅).
  { unfold data_of. rewrite Hpart; auto with parts; by intros [=]. }
  assert (Hload : load_root false name s = Ok (s, smt_placeholder)).
  { unfold load_root. rewrite (sub_Get_eq name _ s bm bd) by auto with parts.
    rewrite decide_False, Hv, lookup_empty by done.
    destruct (sub_Iterator_eq name merkleValuePrefix s bm bd None None Ho Hn part_values eq_refl eq_refl)
      as (it & -> & ->). rewrite Hv, range_items_empty. done. }
  exists s', bm'. split_and!.
  - unfold newStateStoreComposition, newStateData. rewrite (proj2 (Z.ltb_lt 0 cacheSize)) by done.
    simpl. unfold newStateProof. rewrite Hload. simpl. by rewrite Hs.
  - split; simpl; try done; unfold tree_data; rewrite Hd', map_filter_empty.
    + apply smt_rep_empty.
    + symmetry. apply smt_root_empty.
  - done.
  - unfold bm'. rewrite view_part_insert by auto with parts. rewrite decide_True by done.
    by rewrite Hv.
  - intros n' c' Hn' Hc' Hne. apply Hpart; auto. congruence.
Qed.

(** Opening a store that has a stored root imports that root, whatever the
    data. *)
Lemma open_stored name (s : S) bm bd cacheSize r :
  opened s bm bd -> good_name name -> (0 < cacheSize)%Z -> stored_root name bm = Some r ->
  exists s', newStateStoreComposition s name cacheSize = Ok (s', mkComposition name false r).
Proof.
  intros Ho Hn Hcs Hr. destruct (sub_Set_eq name merkleValuePrefix s bm bd rootKey r Ho Hn part_values
    ltac:(done)) as (s' & Hs & _). exists s'.
  unfold newStateStoreComposition, newStateData. rewrite (proj2 (Z.ltb_lt 0 cacheSize)) by done.
  cbn [mbind outcome_bind]. unfold newStateProof, load_root.
  rewrite (sub_Get_eq name _ s bm bd) by auto with parts. rewrite decide_False by done.
  unfold stored_root in Hr. rewrite Hr. cbn [mbind outcome_bind]. by rewrite Hs.
Qed.

(** A store is not disturbed by a write to a store of another name. *)
Lemma comp_inv_others store name (s s' : S) bm bm' bd :
  comp_inv store s bm bd -> opened s' bm' bd -> others_same name bm bm' -> c_name store <> name ->
  comp_inv store s' bm' bd.
Proof.
  intros [Ho Hn Hrw Hrep Hroot] Ho' Hsame Hne.
  assert (Hd : data_of (c_name store) bm' = data_of (c_name store) bm).
  { apply Hsame; auto with parts. }
  split; rewrite ?Hd; try done.
  eapply (rep_data_write (c_name store) s s' bm bm' bd); eauto;
    intros c Hc _; by apply Hsame.
Qed.

Lemma comp_GetStateData_eq store (s : S) bm bd key :
  comp_inv store s bm bd -> key <> [] ->
  comp_GetStateData store s key = Ok (data_of (c_name store) bm !! key).
Proof.
  intros [Ho Hn _ _ _] Hk. unfold comp_GetStateData, data_Get.
  rewrite (sub_Get_eq _ _ s bm bd) by auto with parts. by rewrite decide_False.
Qed.

Lemma data_items_eq store (s : S) bm bd :
  comp_inv store s bm bd -> data_items store s = Ok (sorted_items (data_of (c_name store) bm)).
Proof.
  intros [Ho Hn _ _ _]. unfold data_items, data_Iterator.
  destruct (sub_Iterator_eq (c_name store) stateDataPrefix s bm bd None None Ho Hn part_data
    eq_refl eq_refl) as (it & -> & Hit).
  cbn [mbind outcome_bind]. rewrite Hit. f_equal. unfold range_items, data_of.
  generalize (sorted_items (view (part (c_name store) stateDataPrefix) bm)). intros l.
  induction l as [|x l IH]; [done|]. by rewrite filter_cons_True, IH.
Qed.

(** * The state store: all named stores together *)

Context `{!DBBackend S}.

Record store_inv (m : stateStore S) (bm bd : kvmap) : Prop := {
  si_open : opened (ss_state m) bm bd;
  si_rw : ss_readonly m = false;
  si_comp : forall n c, storeMap m !! n = Some c -> c_name c = n /\ comp_inv c (ss_state m) bm bd;
}.

Lemma store_inv_write (m : stateStore S) bm bd bm' s' name c c' :
  store_inv m bm bd -> storeMap m !! name = Some c -> comp_inv c' s' bm' bd -> c_name c' = name ->
  others_same name bm bm' -> store_inv (set_store m s' name c') bm' bd.
Proof.
  intros [Ho Hrw Hc] Hname Hc' Hn' Hsame. split; simpl; [apply Hc'|done|].
  intros n x [[<- <-]|[Hne Hx]]%lookup_insert_Some; [done|].
  destruct (Hc n x Hx) as [<- Hx']. split; [done|].
  eapply comp_inv_others; [done|apply Hc'|done|done].
Qed.

Lemma Put_spec (m : stateStore S) bm bd name c key v :
  store_inv m bm bd -> storeMap m !! name = Some c -> key <> [] ->
  exists m' bm', Put m name key (Some v) = Ok (m', None) /\ store_inv m' bm' bd
    /\ dom (storeMap m') = dom (storeMap m)
    /\ data_of name bm' = <[key:=v]> (data_of name bm)
    /\ others_same name bm bm' /\ stored_root name bm' = stored_root name bm.
Proof.
  intros Hi Hname Hk. destruct (si_comp m bm bd Hi name c Hname) as [<- Hc].
  destruct (comp_Put_spec c (ss_state m) bm bd key v Hc Hk)
    as (s' & c' & bm' & Hput & Hc' & Hn' & Hd & Hsame & Hr).
  exists (set_store m s' (c_name c) c'), bm'. split_and!; try done.
  - unfold Put, write_store. rewrite (si_rw m bm bd Hi), Hname, Hput. done.
  - by eapply store_inv_write.
  - simpl. rewrite dom_insert_L. apply elem_of_dom_2 in Hname. set_solver.
Qed.

Lemma Delete_spec (m : stateStore S) bm bd name c key :
  store_inv m bm bd -> storeMap m !! name = Some c -> key <> [] ->
  exists m' bm', Delete m name key = Ok (m', None) /\ store_inv m' bm' bd
    /\ dom (storeMap m') = dom (storeMap m)
    /\ data_of name bm' = delete key (data_of name bm)
    /\ others_same name bm bm' /\ stored_root name bm' = stored_root name bm.
Proof.
  intros Hi Hname Hk. destruct (si_comp m bm bd Hi name c Hname) as [<- Hc].
  destruct (comp_Delete_spec c (ss_state m) bm bd key Hc Hk)
    as (s' & c' & bm' & Hdel & Hc' & Hn' & Hd & Hsame & Hr).
  exists (set_store m s' (c_name c) c'), bm'. split_and!; try done.
  - unfold Delete, write_store. rewrite (si_rw m bm bd Hi), Hname, Hdel. done.
  - by eapply store_inv_write.
  - simpl. rewrite dom_insert_L. apply elem_of_dom_2 in Hname. set_solver.
Qed.

(** * Properties *)

(** Writes to named stores, and what they mean on one map per name. *)
Inductive write := WPut (name key value : bytes) | WDelete (name key : bytes).

Definition write_name (w : write) : bytes := match w with WPut n _ _ | WDelete n _ => n end.

Definition write_key (w : write) : bytes := match w with WPut _ k _ | WDelete _ k => k end.

Definition run_write (m : stateStore S) (w : write) : go (stateStore S * option store_error) :=
  match w with
  | WPut n k v => Put m n k (Some v)
  | WDelete n k => Delete m n k
  end.

(** Running writes one after the other; the first error or panic ends it. *)
Fixpoint run_writes (m : stateStore S) (ws : list write) : option (stateStore S) :=
  match ws with
  | [] => Some m
  | w :: ws' =>
      match run_write m w with
      | Ok (m', None) => run_writes m' ws'
      | _ => None
      end
  end.

Definition spec_write (d : bytes -> kvmap) (w : write) : bytes -> kvmap :=
  match w with
  | WPut n k v => fun x => if decide (x = n) then <[k:=v]> (d x) else d x
  | WDelete n k => fun x => if decide (x = n) then delete k (d x) else d x
  end.

(** The writes name open stores and have keys. *)
Definition write_ok (m : stateStore S) (w : write) : Prop :=
  is_Some (storeMap m !! write_name w) /\ write_key w <> [].

Lemma run_write_spec (m : stateStore S) bm bd w :
  store_inv m bm bd -> write_ok m w ->
  exists m' bm', run_write m w = Ok (m', None) /\ store_inv m' bm' bd
    /\ dom (storeMap m') = dom (storeMap m)
    /\ (forall n, n ∈ dom (storeMap m) ->
         data_of n bm' = spec_write (fun n => data_of n bm) w n)
    /\ (forall n, n ∈ dom (storeMap m) -> stored_root n bm' = stored_root n bm).
Proof.
  intros Hi [[c Hc] Hk].
  assert (Hgood : forall n, n ∈ dom (storeMap m) -> good_name n).
  { intros n [x Hx]%elem_of_dom. by destruct (si_comp m bm bd Hi n x Hx) as [<- []]. }
  destruct w as [n k v|n k]; simpl in *;
    [destruct (Put_spec m bm bd n c k v Hi Hc Hk) as (m' & bm' & Hw & Hi' & Hdom & Hd & Hs & Hr)
    |destruct (Delete_spec m bm bd n c k Hi Hc Hk) as (m' & bm' & Hw & Hi' & Hdom & Hd & Hs & Hr)];
    exists m', bm'; split_and!; try done; intros x Hx; specialize (Hgood x Hx).
  all: try (case_decide as Hxn; [by subst|apply Hs; auto with parts]).
  all: destruct (decide (x = n)) as [->|Hxn]; [done|].
  all: unfold stored_root; by rewrite Hs by auto with parts.
Qed.

Lemma run_writes_spec (ws : list write) (m : stateStore S) bm bd :
  store_inv m bm bd -> Forall (write_ok m) ws ->
  exists m' bm', run_writes m ws = Some m' /\ store_inv m' bm' bd
    /\ dom (storeMap m') = dom (storeMap m)
    /\ (forall n, n ∈ dom (storeMap m) ->
         data_of n bm' = fold_left spec_write ws (fun n => data_of n bm) n)
    /\ (forall n, n ∈ dom (storeMap m) -> stored_root n bm' = stored_root n bm).
Proof.
  revert m bm. induction ws as [|w ws IH]; intros m bm Hi Hok; [by exists m, bm|].
  inversion Hok as [|? ? Hw Hws]; subst.
  destruct (run_write_spec m bm bd w Hi Hw) as (m1 & bm1 & Hr1 & Hi1 & Hdom1 & Hd1 & Hs1).
  destruct (IH m1 bm1 Hi1) as (m2 & bm2 & Hr2 & Hi2 & Hdom2 & Hd2 & Hs2).
  { eapply Forall_impl; [done|]. intros w' [Hn Hk]. split; [|done].
    by rewrite <- elem_of_dom, Hdom1, elem_of_dom. }
  exists m2, bm2. simpl. rewrite Hr1. split_and!; [done|done|congruence| |].
  - intros n Hn. rewrite Hd2 by (by rewrite Hdom1).
    assert (Hext : forall ws d d', (forall x, x ∈ dom (storeMap m) -> d x = d' x) ->
      fold_left spec_write ws d n = fold_left spec_write ws d' n).
    { clear -Hn. induction ws as [|w ws IH]; intros d d' Hdd; simpl; [by apply Hdd|].
      apply IH. intros x Hx. destruct w; simpl; rewrite (Hdd x Hx); done. }
    apply Hext. intros x Hx. by apply Hd1.
  - intros n Hn. rewrite Hs2 by (by rewrite Hdom1). by apply Hs1.
Qed.

(** Opening one more named store. *)
Lemma AddNamed_spec (m : stateStore S) bm bd name cacheSize :
  store_inv m bm bd -> good_name name -> storeMap m !! name = None -> (0 < cacheSize)%Z ->
  data_of name bm = ∅ -> view (part name merkleValuePrefix) bm = ∅ ->
  exists m' bm', AddNamedStateStore m name cacheSize = Ok m' /\ store_inv m' bm' bd
    /\ dom (storeMap m') = {[name]} ∪ dom (storeMap m)
    /\ data_of name bm' = ∅ /\ stored_root name bm' = Some smt_placeholder
    /\ others_same name bm bm'.
Proof.
  intros Hi Hn Hnone Hcs Hd Hv.
  destruct (open_empty name (ss_state m) bm bd cacheSize (si_open m bm bd Hi) Hn Hcs Hd Hv)
    as (s' & bm' & Hnew & Hc & Hd' & Hv' & Hsame).
  exists (set_store m s' name (mkComposition name false smt_placeholder)), bm'. split_and!.
  - unfold AddNamedStateStore. by rewrite Hnone, (si_rw m bm bd Hi), Hnew.
  - destruct Hi as [Ho Hrw Hcs']. split; simpl; [apply Hc|done|].
    intros n x [[<- <-]|[Hne Hx]]%lookup_insert_Some; [done|].
    destruct (Hcs' n x Hx) as [<- Hx']. split; [done|].
    eapply comp_inv_others; [done|apply Hc|done|done].
  - simpl. by rewrite dom_insert_L.
  - done.
  - unfold stored_root. rewrite Hv'. apply lookup_singleton_eq.
  - done.
Qed.


(** The stored root is not maintained: opening a named store again, after
    any writes whatever, imports the root that was stored when it was first
    opened (the empty tree's root for a store that started empty), and not
    the root that commits to its data. *)
Theorem reopened_root_is_stale (m : stateStore S) (bm bd : kvmap) (ws : list write)
    (n r : bytes) (cacheSize : Z) :
  store_inv m bm bd -> Forall (write_ok m) ws -> n ∈ dom (storeMap m) -> (0 < cacheSize)%Z ->
  stored_root n bm = Some r ->
  exists m' s', run_writes m ws = Some m'
    /\ newStateStoreComposition (ss_state m') n cacheSize = Ok (s', mkComposition n false r).
Proof.
  intros Hi Hok Hn Hcs Hroot.
  destruct (run_writes_spec ws m bm bd Hi Hok) as (m' & bm' & Hr & Hi' & Hdom & _ & Hs).
  assert (Hgood : good_name n).
  { apply elem_of_dom in Hn as [x Hx]. by destruct (si_comp m bm bd Hi n x Hx) as [<- []]. }
  destruct (open_stored n (ss_state m') bm' bd cacheSize r (si_open m' bm' bd Hi') Hgood Hcs) as [s' Hs'].
  { by rewrite Hs. }
  by exists m', s'.
Qed.

Lemma all_state_loop_values store (s : S) bm bd l ks vs ps :
  comp_inv store s bm bd ->
  (forall k v, (k, v) ∈ l -> k <> [] /\ data_of (c_name store) bm !! k = Some v) ->
  all_state_loop store s l ks vs ps = Ok (ks ++ l.*1, vs ++ l.*2, ps ++ (Some <$> l.*2)).
Proof.
  intros Hi. revert ks vs ps. induction l as [|[k v] l IH]; intros ks vs ps Hl.
  - cbn. by rewrite !app_nil_r.
  - destruct (Hl k v ltac:(by left)) as [Hk Hv].
    pose proof (comp_GetStateData_eq store s bm bd k Hi Hk) as Hget.
    destruct Hi as [Ho Hn Hrw Hrep Hroot].
    destruct (smt_prove_law _ _ _ _ _ s (c_root store) _ k (tree_stores (c_name store) bd Hn)
      (ex_intro _ bm Ho) Hrep) as [p Hp].
    cbn [all_state_loop]. unfold comp_GetState. rewrite Hrw, Hp.
    unfold comp_GetStateData in Hget. rewrite Hget, Hv. cbn.
    rewrite IH by (try (by split); intros k' v' Hin; apply Hl; by right).
    by rewrite <- !app_assoc.
Qed.

(** [GetAllState] returns the values a second time in the place of the
    proofs: it binds the first result of [GetState], which is the value, as
    the proof. *)
Theorem GetAllState_proofs_are_values (store : StateStoreComposition) (s : S) (bm bd : kvmap) :
  comp_inv store s bm bd ->
  let d := sorted_items (data_of (c_name store) bm) in
  comp_GetAllState store s = Ok (d.*1, d.*2, Some <$> d.*2).
Proof.
  intros Hi d. unfold comp_GetAllState. rewrite (data_items_eq store s bm bd Hi).
  cbn [lift_db mbind outcome_bind].
  rewrite (all_state_loop_values store s bm bd); [done|done|].
  intros k v Hin. apply (sorted_items_lists (data_of (c_name store) bm)) in Hin.
  split; [|done]. intros ->. unfold data_of in Hin. by rewrite lookup_view in Hin.
Qed.
End Trees.

(** * A concrete tree, for evaluation

    Its root spells out the contents, so it needs no stores. *)
Module RootTree.

Fixpoint pos_bytes (p : positive) : bytes :=
  match p with
  | xH => []
  | xO p => x00 :: pos_bytes p
  | xI p => x01 :: pos_bytes p
  end.

Fixpoint bytes_pos (l : bytes) : positive :=
  match l with
  | [] => xH
  | x00 :: l => xO (bytes_pos l)
  | _ :: l => xI (bytes_pos l)
  end.

Lemma bytes_pos_bytes p : bytes_pos (pos_bytes p) = p.
Proof. induction p; simpl; congruence. Qed.

Definition root_of (c : kvmap) : bytes := pos_bytes (encode c).

Definition contents_of (r : bytes) : kvmap := default ∅ (decode (bytes_pos r)).

Lemma contents_root c : contents_of (root_of c) = c.
Proof. unfold contents_of, root_of. by rewrite bytes_pos_bytes, decode_encode. Qed.

Section Tree.
Context {S : Type}.

#[export] Instance root_smt : SMT S := {
  smt_placeholder := root_of ∅;
  smt_Update _ _ s r k x := (s, inl (root_of (tree_upd (contents_of r) k x)));
  smt_Delete _ _ s r k := (s, inl (root_of (delete k (contents_of r))));
  smt_Get _ _ _ r k := inl (contents_of r !! k);
  smt_Has _ _ _ r k := inl (bool_decide (is_Some (contents_of r !! k)));
  smt_Prove _ _ _ r k := inl r;
}.

#[export] Instance root_smt_laws : SMTLaws S.
Proof.
  refine {| smt_root := root_of; smt_rep := fun _ _ _ r c => r = root_of c |}; try done.
  - intros n v Inv mn mv s r c k x _ _ ->. exists s. unfold smt_Update. simpl.
    by rewrite contents_root.
  - intros n v Inv mn mv s r c k _ _ ->. exists s. unfold smt_Delete. simpl.
    by rewrite contents_root.
  - intros n v Inv mn mv s r c k _ _ _. by eexists.
Defined.
End Tree.
End RootTree.

(** * Commit and rollback over the in-memory backend *)

#[local] Existing Instance MemDB.memdb_iterator.
#[local] Existing Instance MemDB.memdb_reader.
#[local] Existing Instance MemDB.memdb_writer.
#[local] Existing Instance MemDB.memdb_backend.
#[local] Existing Instance MemDB.memdb_view.

Section OverMemDB.
Context {T : Type} `{BTreeLaws T}.
Implicit Types (ss : stateStore (MemDB.rw (T := T))).

(** A state store that holds an open writer. *)
Definition holds_writer ss (bm : kvmap) : Prop :=
  ss_readonly ss = false /\ MemDB.inv (ss_state ss).1
  /\ (exists tx, MemDB.txns (ss_state ss).1 !! (ss_state ss).2 = Some tx /\ MemDB.tx_writer tx = true)
  /\ v_txn (ss_state ss) = Some bm.

Lemma holds_writer_open ss bm :
  holds_writer ss bm ->
  exists tx, MemDB.txns (ss_state ss).1 !! (ss_state ss).2 = Some tx /\ MemDB.is_open_writer tx.
Proof.
  intros (_ & Hi & (tx & Htx & Hw) & Ht). destruct ss as [ro [m h] sm]. simpl in *.
  destruct (MemDB.rw_map_tree m h bm Ht) as (l & t & Hl & _).
  destruct (MemDB.tree_of_writer m h l t Hi Hl) as (tx' & Htx' & _ & _ & Hopen); [congruence|].
  exists tx'. done.
Qed.

(** [Rollback] of a state store that still holds its writer is refused by
    the in-memory backend and changes nothing: the store's own transaction is
    an open transaction. *)
Theorem rollback_refused ss (bm : kvmap) :
  holds_writer ss bm -> Rollback ss = (ss, Some (EDb ErrOpenTransactions)).
Proof.
  intros Hw. destruct (holds_writer_open ss bm Hw) as (tx & Htx & Hopen).
  destruct Hw as (Hro & Hi & _ & _). destruct ss as [ro [m h] sm]. simpl in *. subst ro.
  unfold Rollback, b_Revert. simpl. unfold MemDB.Revert. rewrite (MemDB.inv_count m Hi).
  rewrite (MemDB.open_writers_lookup _ h tx Htx), decide_True by done.
  rewrite (proj2 (Z.gtb_gt _ _)) by lia. done.
Qed.

Lemma commit_step ss (bm : kvmap) :
  holds_writer ss bm ->
  exists m1, MemDB.Commit (ss_state ss).1 (ss_state ss).2 = Ok m1 /\ MemDB.inv m1
    /\ MemDB.s_cur (MemDB.abs m1) = bm /\ MemDB.vmgr m1 = MemDB.vmgr (ss_state ss).1
    /\ MemDB.openWriters m1 = (MemDB.openWriters (ss_state ss).1 - 1)%Z.
Proof.
  intros Hw. destruct (holds_writer_open ss bm Hw) as (tx & Htx & Hopen).
  destruct Hw as (Hro & Hi & _ & Ht). destruct ss as [ro [m h] sm]. simpl in *. subst ro.
  destruct (MemDB.rw_map_tree m h bm Ht) as (l & t & Hl & Hbm).
  exists (MemDB.Discard (MemDB.set_btree m l) h).
  pose proof (proj1 (MemDB.tree_of_Some m h l t) Hl) as (tx' & Htx' & -> & Hheap).
  assert (tx' = tx) as -> by congruence. split_and!.
  - unfold MemDB.Commit. by rewrite Hl.
  - by apply MemDB.inv_Commit.
  - etransitivity; [exact (f_equal MemDB.s_cur (MemDB.abs_Discard (MemDB.set_btree m
      (MemDB.tx_btree tx)) h (MemDB.heap_nil m Hi)))|].
    simpl. unfold MemDB.content. simpl. by rewrite Hheap.
  - unfold MemDB.Discard. simpl. rewrite Htx. by destruct (_ && _).
  - pose proof (MemDB.inv_count m Hi) as Hc. pose proof (MemDB.inv_count32 m Hi) as Hc32.
    rewrite (MemDB.open_writers_lookup _ h tx Htx), decide_True in Hc by done.
    unfold MemDB.Discard. simpl. rewrite Htx. destruct Hopen as [-> Hn].
    apply Nat.eqb_neq in Hn. rewrite Hn. simpl. rewrite i32_small by lia. done.
Qed.

(** [Commit] of a state store over the in-memory backend always reports
    success.  When its writer is the only one open, the committed contents
    are saved as the next version; when another writer is open, the contents
    are committed but no version is saved, and the error is dropped. *)
Theorem commit_saves_version ss (bm : kvmap) :
  holds_writer ss bm -> (VersionManager.last (b_Versions (ss_state ss)) + 1 < 2 ^ 64)%Z ->
  exists ss', Commit ss = Ok (ss', None)
    /\ MemDB.s_cur (MemDB.abs (ss_state ss').1) = bm
    /\ (b_PendingTxCount (ss_state ss) = 1%Z ->
         StateLatestVersion ss' = (StateLatestVersion ss + 1)%Z
         /\ MemDB.s_saved (MemDB.abs (ss_state ss').1) !! StateLatestVersion ss' = Some bm)
    /\ (b_PendingTxCount (ss_state ss) <> 1%Z ->
         VersionManager.versions (b_Versions (ss_state ss'))
         = VersionManager.versions (b_Versions (ss_state ss))).
Proof.
  intros Hw Hmax. destruct (commit_step ss bm Hw) as (m1 & Hcom & Hi1 & Hcur & Hvm & Hcnt).
  destruct Hw as (Hro & Hi & _ & Ht). destruct ss as [ro [m h] sm]. simpl in *. subst ro.
  unfold b_Versions in Hmax. simpl in Hmax. unfold MemDB.Versions in Hmax.
  pose proof (VersionManager.wf_last_u64 _ (MemDB.inv_vm m Hi)) as Hlast. unfold is_u64 in Hlast.
  set (v := (VersionManager.last (MemDB.vmgr m) + 1)%Z) in *.
  assert (Hu : u64 (VersionManager.Last (MemDB.vmgr m1) + 1) = v).
  { rewrite Hvm. apply u64_small. unfold is_u64. lia. }
  assert (Hv : is_u64 v) by (unfold is_u64; lia).
  unfold Commit. simpl. unfold w_Commit. simpl. rewrite Hcom. simpl.
  unfold b_SaveVersion, b_Versions. simpl. unfold MemDB.Versions. rewrite Hu.
  unfold MemDB.SaveVersion. destruct (Z.eqb_spec v 0); [lia|].
  pose proof (MemDB.sim_save_gen m1 v Hi1 Hv) as Hs. rewrite Hvm in Hs. specialize (Hs Hmax).
  unfold MemDB.s_save in Hs. rewrite <- (MemDB.writers_guard m1 Hi1) in Hs.
  unfold StateLatestVersion, b_Versions, b_PendingTxCount. simpl.
  unfold MemDB.PendingTxCount, MemDB.Versions, VersionManager.Last.
  destruct (MemDB.openWriters m1 >? 0)%Z eqn:Hpos.
  - assert (Hsave : MemDB.save m1 v = Err ErrOpenTransactions).
    { unfold MemDB.save. by rewrite Hpos. }
    rewrite Hsave. simpl. eexists. split; [done|]. simpl. split; [done|]. split; [lia|].
    intros _. by rewrite Hvm.
  - pose proof (MemDB.inv_count m1 Hi1) as Hc1.
    assert (H1 : MemDB.openWriters m = 1%Z).
    { rewrite Z.gtb_ltb in Hpos. apply Z.ltb_ge in Hpos. lia. }
    unfold MemDB.save in Hs |- *. rewrite Hpos, VersionManager.Copy_eq, Hvm in Hs |- *.
    rewrite (VersionManager.Save_spec (MemDB.vmgr m) v (MemDB.inv_vm m Hi) Hv Hmax) in Hs |- *.
    rewrite !decide_False in Hs |- * by lia. simpl in *.
    eexists. split; [done|]. simpl. split; [done|]. split; [|done]. intros _. split; [done|].
    rewrite lookup_fmap, lookup_insert_eq. simpl. f_equal. exact Hcur.
Qed.
End OverMemDB.

(** * Witnesses *)

Import RefBackend RootTree.

Definition acc : bytes := str "acc".

Lemma acc_good : good_name acc.
Proof. split; [done|]. repeat constructor. Qed.

(** One empty store named "acc" over an empty backend. *)
Definition fresh : stateStore RefBackend.txn := mkStateStore false (RefBackend.mkTxn (Some ∅) ∅) ∅.

Definition empty_root : bytes := smt_placeholder (S := RefBackend.txn).

Lemma fresh_acc : exists (m : stateStore RefBackend.txn) bm,
  AddNamedStateStore fresh acc 1 = Ok m
  /\ store_inv m bm ∅ /\ dom (storeMap m) = {[acc]} /\ data_of acc bm = ∅
  /\ stored_root acc bm = Some empty_root.
Proof.
  assert (Hi : store_inv fresh ∅ ∅).
  { split; [|done|]; simpl; [by split|]. intros n c Hc. by rewrite lookup_empty in Hc. }
  assert (He : forall p, view p ∅ = ∅).
  { intros p. apply map_eq. intros k. rewrite lookup_view, !lookup_empty. by case_decide. }
  destruct (AddNamed_spec fresh ∅ ∅ acc 1 Hi acc_good) as (m & bm & Hm & Hi' & Hdom & Hd & Hr & _);
    [done|lia|apply He|apply He|].
  exists m, bm. split_and!; try done; rewrite Hdom; simpl; set_solver.
Qed.


Lemma reopened_root_is_stale_witness :
  exists m m' s' : stateStore RefBackend.txn, exists s'' : RefBackend.txn,
    run_writes m [WPut acc (str "k") (str "1")] = Some m' /\ s' = m'
    /\ newStateStoreComposition (ss_state m') acc 1 = Ok (s'', mkComposition acc false empty_root).
Proof.
  destruct fresh_acc as (m & bm & _ & Hi & Hdom & Hd & Hroot). exists m.
  assert (Hin : acc ∈ dom (storeMap m)) by (rewrite Hdom; set_solver).
  destruct (reopened_root_is_stale m bm ∅ [WPut acc (str "k") (str "1")] acc empty_root 1 Hi)
    as (m' & s'' & Hr & Hs); [|exact Hin|lia|exact Hroot|].
  { repeat constructor; simpl; try discriminate; by apply elem_of_dom. }
  exists m', m', s''. auto.
Defined.

Lemma GetAllState_proofs_are_values_witness :
  exists (store : StateStoreComposition) (s : RefBackend.txn), comp_GetAllState store s = Ok ([], [], []).
Proof.
  destruct fresh_acc as (m & bm & _ & Hi & Hdom & Hd & _).
  assert (Hin : acc ∈ dom (storeMap m)) by (rewrite Hdom; set_solver).
  apply elem_of_dom in Hin as [c Hc]. destruct (si_comp m bm ∅ Hi acc c Hc) as [Hn Hci].
  exists c, (ss_state m). rewrite (GetAllState_proofs_are_values c (ss_state m) bm ∅ Hci).
  rewrite Hn, Hd. vm_compute. reflexivity.
Defined.

Import MemDB.MapTree.

(** The store over the in-memory backend, with one pair written. *)
Definition mem_store : stateStore (MemDB.rw (T := kvmap)) :=
  mkStateStore false
    ((MemDB.memdb_run (T := kvmap) MemDB.NewMemDBBackend
        [MemDB.CReadWriter; MemDB.CSet 0 (str "k") (Some (str "1"))]).1, 0%nat) ∅.

Lemma mem_store_writer : holds_writer mem_store {[ str "k" := str "1" ]}.
Proof.
  split; [done|]. split.
  - apply MemDB.sim_run; [apply MemDB.inv_init|]. split; [by vm_compute|].
    split; [|done]. intros tx Htx. vm_compute in Htx. by injection Htx as <-.
  - split; [eexists; split; vm_compute; reflexivity|].
    unfold v_txn. simpl. vm_compute. reflexivity.
Qed.

Lemma rollback_refused_witness : Rollback mem_store = (mem_store, Some (EDb ErrOpenTransactions)).
Proof. exact (rollback_refused mem_store _ mem_store_writer). Defined.

Lemma commit_saves_version_witness :
  exists ss', Commit mem_store = Ok (ss', None) /\ StateLatestVersion ss' = 1%Z.
Proof.
  destruct (commit_saves_version mem_store _ mem_store_writer) as (ss' & Hc & _ & Hone & _).
  { vm_compute. reflexivity. }
  exists ss'. split; [exact Hc|]. destruct Hone as [Hone _]; [vm_compute; reflexivity|].
  rewrite Hone. vm_compute. reflexivity.
Defined.

End StateStoreSpec.
