(* ===== verification/MetaStore.v ===== *)
(** The ledger's meta store ([src/ledger/meta]): named key-value stores over
    one backend transaction, each under its own name as key prefix. *)
From Stdlib Require Import ZArith Lia Strings.Byte.
From stdpp Require Import base gmap list strings sorting.
From S2P Require Import Prelude VersionManager Backend Prefixed.
Import Prefixed.

Module MetaStore.

Inductive meta_error :=
| MDb (e : db_error)
| MNoStore (name : bytes).

Section Store.
Context {S I : Type} `{DBIterator I, !DBReader S I, !DBWriter S, !DBBackend S}.

(** The specification of a name is the prefixed view of the shared backend,
    so the map holds the names only. *)
Record metaStore := mkMetaStore {
  ms_state : S;
  ms_names : gset bytes;
}.

Definition newMetaStoreSpecification (s : S) (name : bytes) : BackendRWPrefixed S :=
  NewBackendRWPrefixed (Some name) s.

Definition NewMetaStore (db : S) : outcome db_error metaStore :=
  s ← b_ReadWriter db; mret (mkMetaStore s ∅).

Definition AddNamedStateStore (m : metaStore) (name : bytes) : metaStore :=
  if decide (name ∈ ms_names m) then m else mkMetaStore (ms_state m) ({[name]} ∪ ms_names m).

Definition Root : go bytes := Panic.

Definition with_spec {A} (m : metaStore) (name : bytes) (f : BackendRWPrefixed S -> A) : A + meta_error :=
  if decide (name ∈ ms_names m) then inl (f (newMetaStoreSpecification (ms_state m) name))
  else inr (MNoStore name).

Definition lift_write (m : metaStore) (r : outcome db_error (BackendRWPrefixed S)) :
    outcome meta_error metaStore :=
  match r with
  | Ok v => Ok (mkMetaStore (backendRW v) (ms_names m))
  | Err e => Err (MDb e)
  | Panic => Panic
  end.

Definition Put (m : metaStore) (name key : bytes) (value : option bytes) : outcome meta_error metaStore :=
  match with_spec m name (fun ss => Set' ss key value) with
  | inl r => lift_write m r
  | inr e => Err e
  end.

Definition Delete (m : metaStore) (name key : bytes) : outcome meta_error metaStore :=
  match with_spec m name (fun ss => Prefixed.Delete ss key) with
  | inl r => lift_write m r
  | inr e => Err e
  end.

Definition Update (m : metaStore) (name key : bytes) (value : option bytes) : outcome meta_error metaStore :=
  match with_spec m name (fun ss => Set' ss key value) with
  | inl r => lift_write m r
  | inr e => Err e
  end.

Definition Exists (m : metaStore) (name key : bytes) : outcome db_error bool + meta_error :=
  with_spec m name (fun ss => Has (I := I) ss key).

Definition GetData (m : metaStore) (name key : bytes) : outcome db_error (option bytes) + meta_error :=
  with_spec m name (fun ss => Get (I := I) ss key).

(** The specification's loop over all its pairs. *)
Definition IterateAllStateDataCB {A} (cb : A -> bytes -> bytes -> A) (a : A) (store : BackendRWPrefixed S) :
    outcome db_error A :=
  dataIt ← Iterator (I := I) store None None;
  l ← drain (Datatypes.S (length (it_rest dataIt))) dataIt;
  mret (fold_left (fun a kv => cb a kv.1 kv.2) l a).

Definition IterateAllMetaDataCB {A} (cb : A -> bytes -> bytes -> A) (a : A) (m : metaStore) (name : bytes) :
    outcome db_error A + meta_error :=
  with_spec m name (IterateAllStateDataCB cb a).

(** Copying every pair of the backend; the errors of the writes are dropped. *)
Fixpoint clone_loop (l : list item) (other : S) : go S :=
  match l with
  | [] => Ok other
  | (k, v) :: l' =>
      match w_Set other k (Some v) with
      | Ok other' => clone_loop l' other'
      | Err _ => clone_loop l' other
      | Panic => Panic
      end
  end.

Definition Clone (m other : metaStore) : outcome db_error metaStore :=
  dataIt ← r_Iterator (I := I) (ms_state m) None None;
  l ← drain (Datatypes.S (length (it_rest dataIt))) dataIt;
  match clone_loop l (ms_state other) with
  | Ok s => mret (mkMetaStore s (ms_names other))
  | _ => Panic
  end.

Definition LatestVersion (m : metaStore) : Z := VersionManager.Last (b_Versions (ms_state m)).

(** The errors of the commit and of the save are dropped. *)
Definition Commit (m : metaStore) : go metaStore :=
  match w_Commit (ms_state m) with
  | Panic => Panic
  | r =>
      let s1 := match r with Ok s1 => s1 | _ => ms_state m end in
      match b_SaveVersion s1 (u64 (VersionManager.Last (b_Versions s1) + 1)) with
      | Ok s2 => Ok (mkMetaStore s2 (ms_names m))
      | Err _ => Ok (mkMetaStore s1 (ms_names m))
      | Panic => Panic
      end
  end.

Definition Rollback (m : metaStore) : metaStore * option meta_error :=
  let '(s, e) := b_Revert (ms_state m) in (mkMetaStore s (ms_names m), MDb <$> e).

Definition Stop (m : metaStore) : metaStore := mkMetaStore (w_Discard (ms_state m)) (ms_names m).
End Store.
Arguments metaStore S : clear implicits.

Section Properties.
Context {S I : Type} `{DBReadWriterLaws S I, !DBBackend S}.

(** A named meta store is a finite map: a [Put] under a usable name
    succeeds and is read back by [GetData], other keys of the name keep their
    values, and so does every store whose name neither extends nor is
    extended by it. *)
Theorem meta_store_put (m : metaStore S) (bm bd : kvmap) (name key v : bytes) :
  opened (ms_state m) bm bd -> name ∈ ms_names m -> good_prefix (Some name) -> key <> [] ->
  exists m' bm', Put m name key (Some v) = Ok m' /\ opened (ms_state m') bm' bd
    /\ ms_names m' = ms_names m
    /\ (forall k, k <> [] -> GetData (I := I) m' name k = inl (Ok (<[key:=v]> (view name bm) !! k)))
    /\ (forall n k, n ∈ ms_names m -> good_prefix (Some n) -> k <> [] ->
          has_prefix n name = false -> has_prefix name n = false ->
          GetData (I := I) m' n k = GetData (I := I) m n k).
Proof.
  intros Ho Hname [Hp Hff] Hk.
  assert (Hget : forall (m : metaStore S) bm n k, opened (ms_state m) bm bd -> n ∈ ms_names m ->
    good_prefix (Some n) -> k <> [] -> GetData (I := I) m n k = inl (Ok (view n bm !! k))).
  { intros m0 bm0 n k Ho0 Hn [Hn1 Hn2] Hk0. unfold GetData, with_spec. rewrite decide_True by done.
    f_equal. assert (Hov : opened (newMetaStoreSpecification (ms_state m0) n) (view n bm0) (view n bd)).
    { apply opened_view. by exists n, bm0, bd. }
    pose proof (l_get (I := prefixDBIterator I) _ _ _ k Hov) as Hg.
    rewrite decide_False in Hg by done. exact Hg. }
  destruct (l_set (ms_state m) bm bd (name ++ key) v Ho) as (s' & Hs & Ho').
  { by destruct name. }
  exists (mkMetaStore s' (ms_names m)), (<[name ++ key:=v]> bm). split_and!; try done.
  - unfold Put, with_spec. rewrite decide_True by done. unfold Set'.
    rewrite length_eqb_nil, bool_decide_eq_false_2, (pkey_app _ name) by done.
    unfold newMetaStoreSpecification, NewBackendRWPrefixed. simpl. by rewrite Hs.
  - intros k Hk'. erewrite Hget by done. by rewrite view_insert.
  - intros n k Hn Hg Hk' H1 H2. rewrite (Hget _ (<[name ++ key:=v]> bm)), (Hget m bm) by done.
    rewrite view_insert_other; [done|]. apply not_true_iff_false. intros [x Hx]%has_prefix_app.
    apply not_true_iff_false in H1, H2. rewrite has_prefix_app in H1, H2.
    apply app_eq_inv in Hx as [(l & -> & _)|(l & -> & _)]; eauto.
Qed.
End Properties.

Import RefBackend.

(** Two names, one of which extends the other. *)
Definition overlapping : metaStore RefBackend.txn :=
  mkMetaStore (RefBackend.mkTxn (Some ∅) ∅) {[ str "a"; str "ab"; str "c" ]}.

Lemma meta_store_put_witness :
  exists m', Put overlapping (str "a") (str "k") (Some (str "1")) = Ok m'
    /\ GetData (I := RefBackend.list_iter) m' (str "c") (str "k") = inl (Ok None).
Proof.
  destruct (meta_store_put (I := RefBackend.list_iter) overlapping ∅ ∅ (str "a") (str "k") (str "1"))
    as (m' & bm' & Hput & _ & _ & _ & Hother).
  - split; [reflexivity|]. split; reflexivity.
  - simpl. set_solver.
  - split; vm_compute; congruence.
  - discriminate.
  - exists m'. split; [exact Hput|]. rewrite (Hother (str "c") (str "k")).
    + vm_compute. reflexivity.
    + simpl. set_solver.
    + split; vm_compute; congruence.
    + discriminate.
    + vm_compute. reflexivity.
    + vm_compute. reflexivity.
Defined.

(** The condition on the names is needed: a value put under "ab" appears
    under "a" at another key. *)
Lemma overlapping_names_collide :
  (m ← Put overlapping (str "ab") (str "k") (Some (str "1"));
   match GetData (I := RefBackend.list_iter) m (str "a") (str "bk") with
   | inl (Ok r) => Ok r
   | _ => Panic
   end) = Ok (Some (str "1")).
Proof. vm_compute. reflexivity. Qed.

End MetaStore.
