(* ===== verification/Wire.v ===== *)
(** The protobuf wire format as the generated marshalling code of the
    repository implements it.

    Every [*.pb.go] file under [src/] repeats the same generated code for each
    message: [Size], a [MarshalToSizedBuffer] that fills a buffer of that size
    from the end, and an [Unmarshal] loop that switches on the field number and
    keeps unknown fields.  The blocks the generator emits for one field are the
    combinators [bytes_field], [varint_field], [msg_field] and [rep_field]
    here, and a message is the list of its fields in the order of the code.
    The laws of the combinators give, for every message built from them, that
    [Size] is exact, that [Marshal] never overruns its buffer, that [Unmarshal]
    inverts it, and that [Unmarshal] is total on arbitrary input. *)
From Stdlib Require Import ZArith Lia Strings.Byte.
From stdpp Require Import base gmap list strings sorting.
From S2P Require Import Prelude.
#[local] Open Scope Z_scope.

Inductive proto_error :=
| ErrIntOverflow
| ErrUnexpectedEOF
| ErrInvalidLength
| ErrUnexpectedEndOfGroup
| ErrWrongWireType (wireType : Z)
| ErrEndGroup
| ErrIllegalTag (fieldNum wire : Z)
| ErrIllegalWireType (wireType : Z)
| ErrFuel.

#[export] Instance proto_error_eq_dec : EqDecision proto_error.
Proof. solve_decision. Defined.

Abbreviation decoded := (outcome proto_error).

Definition len {A} (l : list A) : Z := Z.of_nat (length l).

Definition u32 (z : Z) : Z := z mod 2 ^ 32.

Module Wire.

(** * Varints *)

(** [math/bits.Len64] and the size of a varint. *)
Definition Len64 (x : Z) : Z := if x =? 0 then 0 else Z.log2 x + 1.

Definition sov (x : Z) : Z := (Len64 (Z.lor x 1) + 6) / 7.

(** A slice index or an indexed assignment; out of range it panics. *)
Definition set_byte (dAtA : bytes) (i : Z) (b : byte) : go bytes :=
  if (0 <=? i) && (i <? len dAtA) then Ok (<[Z.to_nat i:=b]> dAtA) else Panic.

Definition byte_at {E} (dAtA : bytes) (i : Z) : outcome E byte :=
  if i <? 0 then Panic
  else match dAtA !! Z.to_nat i with Some b => Ok b | None => Panic end.

Definition slice {E} (dAtA : bytes) (a b : Z) : outcome E bytes :=
  if (0 <=? a) && (a <=? b) && (b <=? len dAtA)
  then Ok (take (Z.to_nat (b - a)) (drop (Z.to_nat a) dAtA)) else Panic.

(** The loop of [encodeVarint]: a [uint64] takes at most ten bytes. *)
Fixpoint put_varint (fuel : nat) (dAtA : bytes) (offset v : Z) : go bytes :=
  match fuel with
  | O => Panic
  | S fuel =>
      if v >=? Z.shiftl 1 7 then
        dAtA ← set_byte dAtA offset (z2b (Z.lor (Z.land v 0x7f) 0x80));
        put_varint fuel dAtA (offset + 1) (Z.shiftr v 7)
      else set_byte dAtA offset (z2b v)
  end.

(** The buffer and the offset [i] below which it is still free. *)
Abbreviation buf := (bytes * Z)%type.

Definition encodeVarint (b : buf) (v : Z) : go buf :=
  let offset := b.2 - sov v in
  dAtA ← put_varint 10 b.1 offset v;
  Ok (dAtA, offset).

(** [i -= len(bs); copy(dAtA[i:], bs)]. *)
Definition put_bytes (bs : bytes) (b : buf) : go buf :=
  let i := b.2 - len bs in
  if (0 <=? i) && (i <=? len b.1) then
    let n := Z.to_nat i in
    Ok (take n b.1 ++ take (length b.1 - n) bs ++ drop (n + length bs) b.1, i)
  else Panic.

(** [i--; dAtA[i] = z]. *)
Definition put_byte (z : Z) (b : buf) : go buf :=
  dAtA ← set_byte b.1 (b.2 - 1) (z2b z);
  Ok (dAtA, b.2 - 1).

(** The tag of a field: two bytes from field 16 on. *)
Definition put_tag (tag : Z) (b : buf) : go buf :=
  if tag <? 128 then put_byte tag b
  else
    b ← put_byte (Z.shiftr tag 7) b;
    put_byte (Z.lor (Z.land tag 0x7f) 0x80) b.

Definition tag_size (num : Z) : Z := if num <? 16 then 1 else 2.

(** The varint loop of [Unmarshal], accumulating in a variable whose type has
    the conversion [conv].  The shifts 0, 7, ..., 63 are the ten it can take,
    so [fuel = 10] is never exhausted before the test on [shift]. *)
Fixpoint varint_loop (fuel : nat) (conv : Z -> Z) (dAtA : bytes) (iNdEx shift acc : Z) :
    decoded (Z * Z) :=
  if shift >=? 64 then Err ErrIntOverflow
  else if iNdEx >=? len dAtA then Err ErrUnexpectedEOF
  else match fuel with
  | O => Err ErrFuel
  | S fuel =>
      b ← byte_at dAtA iNdEx;
      let acc := Z.lor acc (conv (Z.shiftl (Z.land (b2z b) 0x7F) shift)) in
      if b2z b <? 0x80 then Ok (acc, iNdEx + 1)
      else varint_loop fuel conv dAtA (iNdEx + 1) (shift + 7) acc
  end.

Definition read_varint (conv : Z -> Z) (dAtA : bytes) (iNdEx : Z) : decoded (Z * Z) :=
  varint_loop 10 conv dAtA iNdEx 0 0.

(** [skip*]: the length of the field at the start of [dAtA], groups included.
    Every iteration reads at least one byte. *)
Fixpoint skip_loop (fuel : nat) (dAtA : bytes) (iNdEx depth : Z) : decoded Z :=
  if iNdEx >=? len dAtA then Err ErrUnexpectedEOF
  else match fuel with
  | O => Err ErrFuel
  | S fuel =>
      '(wire, iNdEx) ← read_varint u64 dAtA iNdEx;
      let wireType := Z.land wire 0x7 in
      '(iNdEx, depth) ←
        (if wireType =? 0 then
           '(_, iNdEx) ← read_varint u64 dAtA iNdEx; Ok (iNdEx, depth)
         else if wireType =? 1 then Ok (i64 (iNdEx + 8), depth)
         else if wireType =? 2 then
           '(length, iNdEx) ← read_varint i64 dAtA iNdEx;
           if length <? 0 then Err ErrInvalidLength else Ok (i64 (iNdEx + length), depth)
         else if wireType =? 3 then Ok (iNdEx, depth + 1)
         else if wireType =? 4 then
           if depth =? 0 then Err ErrUnexpectedEndOfGroup else Ok (iNdEx, depth - 1)
         else if wireType =? 5 then Ok (i64 (iNdEx + 4), depth)
         else Err (ErrIllegalWireType wireType));
      if iNdEx <? 0 then Err ErrInvalidLength
      else if depth =? 0 then Ok iNdEx
      else skip_loop fuel dAtA iNdEx depth
  end.

Definition skip (dAtA : bytes) : decoded Z := skip_loop (length dAtA) dAtA 0 0.

(** * Fields *)

(** What the generated code does for one field: its summand in [Size], its
    block in [MarshalToSizedBuffer] and its case in [Unmarshal]. *)
Record field (M : Type) := mkField {
  f_num : Z;
  f_size : M -> Z;
  f_write : M -> buf -> go buf;
  f_read : bytes -> Z -> Z -> M -> decoded (M * Z);
}.
Arguments mkField {_}.
Arguments f_num {_}.
Arguments f_size {_}.
Arguments f_write {_}.
Arguments f_read {_}.

(** A message as its generated code handles it. *)
Record codec (N : Type) := mkCodec {
  c_zero : N;
  c_size : N -> Z;
  c_marshal : N -> bytes -> go (bytes * Z);
  c_unmarshal : bytes -> N -> decoded N;
}.
Arguments mkCodec {_}.
Arguments c_zero {_}.
Arguments c_size {_}.
Arguments c_marshal {_}.
Arguments c_unmarshal {_}.

(** The length prefix of a field of wire type 2 and the slice it delimits. *)
Definition read_delimited (dAtA : bytes) (wireType iNdEx : Z) : decoded (bytes * Z) :=
  if negb (wireType =? 2) then Err (ErrWrongWireType wireType)
  else
    '(byteLen, iNdEx) ← read_varint i64 dAtA iNdEx;
    if byteLen <? 0 then Err ErrInvalidLength
    else
      let postIndex := i64 (iNdEx + byteLen) in
      if postIndex <? 0 then Err ErrInvalidLength
      else if postIndex >? len dAtA then Err ErrUnexpectedEOF
      else s ← slice dAtA iNdEx postIndex; Ok (s, postIndex).

(** A [bytes] field: nil and empty are written alike, as no field at all. *)
Definition bytes_field {M} (num : Z) (get : M -> bytes) (set : bytes -> M -> M) : field M :=
  mkField num
    (fun m => let l := len (get m) in if l >? 0 then tag_size num + l + sov (u64 l) else 0)
    (fun m b =>
       if len (get m) >? 0 then
         b ← put_bytes (get m) b;
         b ← encodeVarint b (u64 (len (get m)));
         put_tag (8 * num + 2) b
       else Ok b)
    (fun dAtA wireType iNdEx m =>
       '(s, postIndex) ← read_delimited dAtA wireType iNdEx;
       Ok (set s m, postIndex)).

(** An integer or enum field of the type with conversion [conv]. *)
Definition varint_field {M} (num : Z) (conv : Z -> Z) (get : M -> Z) (set : Z -> M -> M) : field M :=
  mkField num
    (fun m => if negb (get m =? 0) then tag_size num + sov (u64 (get m)) else 0)
    (fun m b =>
       if negb (get m =? 0) then
         b ← encodeVarint b (u64 (get m));
         put_tag (8 * num + 0) b
       else Ok b)
    (fun dAtA wireType iNdEx m =>
       if negb (wireType =? 0) then Err (ErrWrongWireType wireType)
       else '(v, iNdEx) ← read_varint conv dAtA iNdEx; Ok (set v m, iNdEx)).

(** One nested message written in front of what the buffer holds. *)
Definition put_msg {N} (c : codec N) (num : Z) (n : N) (b : buf) : go buf :=
  sub ← slice b.1 0 b.2;
  '(sub, size) ← c_marshal c n sub;
  let b := (sub ++ drop (Z.to_nat b.2) b.1, b.2 - size) in
  b ← encodeVarint b (u64 size);
  put_tag (8 * num + 2) b.

(** A pointer to a nested message; decoding merges into the one present. *)
Definition msg_field {M N} (c : codec N) (num : Z) (get : M -> option N) (set : option N -> M -> M) :
    field M :=
  mkField num
    (fun m => match get m with
              | Some n => let l := c_size c n in tag_size num + l + sov (u64 l)
              | None => 0
              end)
    (fun m b => match get m with Some n => put_msg c num n b | None => Ok b end)
    (fun dAtA wireType iNdEx m =>
       '(s, postIndex) ← read_delimited dAtA wireType iNdEx;
       n ← c_unmarshal c s (default (c_zero c) (get m));
       Ok (set (Some n) m, postIndex)).

(** The elements of a repeated [bytes] field: the bytes themselves. *)
Definition raw_codec : codec bytes :=
  mkCodec [] len
    (fun p dAtA => b ← put_bytes p (dAtA, len dAtA); Ok (b.1, len p))
    (fun s _ => Ok s).

(** A repeated nested message, written from the last to the first. *)
Definition rep_field {M N} (c : codec N) (num : Z) (get : M -> list N) (set : list N -> M -> M) :
    field M :=
  mkField num
    (fun m => foldr (fun n acc => let l := c_size c n in tag_size num + l + sov (u64 l) + acc) 0 (get m))
    (fun m b => foldr (fun n c' => b ← c'; put_msg c num n b) (Ok b) (get m))
    (fun dAtA wireType iNdEx m =>
       '(s, postIndex) ← read_delimited dAtA wireType iNdEx;
       n ← c_unmarshal c s (c_zero c);
       Ok (set (get m ++ [n]) m, postIndex)).

(** * Messages *)

Record schema (M : Type) := mkSchema {
  s_zero : M;
  s_fields : list (field M);
  s_unrecognized : M -> bytes;
  s_set_unrecognized : bytes -> M -> M;
}.
Arguments mkSchema {_}.
Arguments s_zero {_}.
Arguments s_fields {_}.
Arguments s_unrecognized {_}.
Arguments s_set_unrecognized {_}.

Section Message.
Context {M : Type} (s : schema M).

Definition Size (m : M) : Z :=
  i64 (foldl (fun n f => i64 (n + f_size f m)) 0 (s_fields s) + len (s_unrecognized s m)).

(** The fields are written from the last to the first. *)
Definition MarshalToSizedBuffer (m : M) (dAtA : bytes) : go (bytes * Z) :=
  b ← put_bytes (s_unrecognized s m) (dAtA, len dAtA);
  b ← foldr (fun f c => b ← c; f_write f m b) (Ok b) (s_fields s);
  Ok (b.1, len dAtA - b.2).

Definition Marshal (m : M) : go bytes :=
  let size := Size m in
  if size <? 0 then Panic
  else
    '(dAtA, n) ← MarshalToSizedBuffer m (replicate (Z.to_nat size) x00);
    slice dAtA 0 n.

Fixpoint find_field (fs : list (field M)) (fieldNum : Z) : option (field M) :=
  match fs with
  | [] => None
  | f :: fs => if f_num f =? fieldNum then Some f else find_field fs fieldNum
  end.

(** One iteration of the loop of [Unmarshal] at [iNdEx < l]. *)
Definition unmarshal_step (dAtA : bytes) (iNdEx : Z) (m : M) : decoded (M * Z) :=
  let preIndex := iNdEx in
  '(wire, iNdEx) ← read_varint u64 dAtA iNdEx;
  let fieldNum := i32 (Z.shiftr wire 3) in
  let wireType := Z.land wire 0x7 in
  if wireType =? 4 then Err ErrEndGroup
  else if fieldNum <=? 0 then Err (ErrIllegalTag fieldNum wire)
  else match find_field (s_fields s) fieldNum with
  | Some f => f_read f dAtA wireType iNdEx m
  | None =>
      let iNdEx := preIndex in
      rest ← slice dAtA iNdEx (len dAtA);
      skippy ← skip rest;
      if (skippy <? 0) || (i64 (iNdEx + skippy) <? 0) then Err ErrInvalidLength
      else if i64 (iNdEx + skippy) >? len dAtA then Err ErrUnexpectedEOF
      else
        u ← slice dAtA iNdEx (iNdEx + skippy);
        Ok (s_set_unrecognized s (s_unrecognized s m ++ u) m, iNdEx + skippy)
  end.

Fixpoint unmarshal_loop (fuel : nat) (dAtA : bytes) (iNdEx : Z) (m : M) : decoded M :=
  if iNdEx <? len dAtA then
    match fuel with
    | O => Err ErrFuel
    | S fuel =>
        '(m, iNdEx) ← unmarshal_step dAtA iNdEx m;
        unmarshal_loop fuel dAtA iNdEx m
    end
  else if iNdEx >? len dAtA then Err ErrUnexpectedEOF else Ok m.

Definition Unmarshal (dAtA : bytes) (m : M) : decoded M :=
  unmarshal_loop (length dAtA) dAtA 0 m.

Definition codec_of : codec M := mkCodec (s_zero s) Size MarshalToSizedBuffer Unmarshal.
End Message.

(** * Laws of the varint code *)

(** The bytes of a varint, the reference for [encodeVarint]. *)
Fixpoint varint (fuel : nat) (v : Z) : bytes :=
  match fuel with
  | O => []
  | S fuel =>
      if v >=? 128 then z2b (Z.lor (Z.land v 0x7f) 0x80) :: varint fuel (Z.shiftr v 7)
      else [z2b v]
  end.

Definition venc (v : Z) : bytes := varint 10 v.

Lemma len_app {A} (l k : list A) : len (l ++ k) = len l + len k.
Proof. unfold len. rewrite length_app. lia. Qed.

Lemma len_cons {A} (x : A) l : len (x :: l) = 1 + len l.
Proof. unfold len. simpl length. lia. Qed.

Lemma len_nonneg {A} (l : list A) : 0 <= len l.
Proof. unfold len. lia. Qed.

Lemma len_nat {A} (l : list A) : Z.to_nat (len l) = length l.
Proof. unfold len. lia. Qed.

Lemma shiftr7_lt v n : 0 <= v < 2 ^ (7 + n) -> 0 <= n -> 0 <= Z.shiftr v 7 < 2 ^ n.
Proof.
  intros Hv Hn. rewrite Z.shiftr_div_pow2 by lia. rewrite Z.pow_add_r in Hv by lia.
  split; [apply Z.div_pos; lia|]. apply Z.div_lt_upper_bound; lia.
Qed.

Lemma sov_small v : 0 <= v < 128 -> sov v = 1.
Proof.
  intros Hv. unfold sov, Len64.
  assert (Hpos : 0 < Z.lor v 1).
  { assert (Z.lor v 1 <> 0); [|pose proof (Z.lor_nonneg v 1); lia].
    intros E. apply Z.lor_eq_0_iff in E. lia. }
  destruct (Z.eqb_spec (Z.lor v 1) 0); [lia|].
  assert (Z.log2 (Z.lor v 1) <= 6).
  { rewrite Z.log2_lor by lia. change (Z.log2 1) with 0.
    destruct (decide (v = 0)) as [->|]; [done|].
    assert (Z.log2 v < 7) by (apply Z.log2_lt_pow2; lia). lia. }
  pose proof (Z.log2_nonneg (Z.lor v 1)).
  symmetry. apply Z.div_unique with (r := Z.log2 (Z.lor v 1)); lia.
Qed.

Lemma sov_step v : 128 <= v -> sov v = 1 + sov (Z.shiftr v 7).
Proof.
  intros Hv. unfold sov, Len64.
  assert (Hs : 1 <= Z.shiftr v 7).
  { rewrite Z.shiftr_div_pow2 by lia. apply Z.div_le_lower_bound; lia. }
  assert (Hl : forall x, 1 <= x -> Z.log2 (Z.lor x 1) = Z.log2 x /\ Z.lor x 1 <> 0).
  { intros x Hx. rewrite Z.log2_lor by lia. change (Z.log2 1) with 0.
    pose proof (Z.log2_nonneg x). split; [lia|].
    intros E. apply Z.lor_eq_0_iff in E. lia. }
  destruct (Hl v ltac:(lia)) as [-> Hv0]. destruct (Hl _ Hs) as [-> Hs0].
  destruct (Z.eqb_spec (Z.lor v 1) 0); [lia|].
  destruct (Z.eqb_spec (Z.lor (Z.shiftr v 7) 1) 0); [lia|].
  assert (7 <= Z.log2 v) by (apply Z.log2_le_pow2; lia).
  rewrite Z.log2_shiftr by lia. rewrite Z.max_r by lia.
  replace (Z.log2 v + 1 + 6) with (Z.log2 v - 7 + 1 + 6 + 1 * 7) by lia.
  rewrite Z.div_add by lia. lia.
Qed.

Lemma varint_len fuel v : 0 <= v < 2 ^ (7 * Z.of_nat fuel) -> (0 < fuel)%nat ->
  len (varint fuel v) = sov v.
Proof.
  revert v. induction fuel as [|fuel IH]; intros v Hv Hf; [lia|]. cbn [varint].
  rewrite Z.geb_leb. destruct (Z.leb_spec 128 v) as [Hge|Hlt].
  - rewrite len_cons, sov_step by done. f_equal. apply IH.
    + apply shiftr7_lt; [|lia]. replace (7 + 7 * Z.of_nat fuel) with (7 * Z.of_nat (S fuel)) by lia. done.
    + destruct fuel; [|lia]. change (7 * Z.of_nat 1) with 7 in Hv. lia.
  - rewrite sov_small by lia. done.
Qed.

Lemma set_byte_app pre x post b :
  set_byte (pre ++ x :: post) (len pre) b = Ok (pre ++ b :: post).
Proof.
  unfold set_byte. rewrite len_app, len_cons.
  pose proof (len_nonneg pre). pose proof (len_nonneg post).
  destruct (Z.leb_spec 0 (len pre)); [|lia].
  destruct (Z.ltb_spec (len pre) (len pre + (1 + len post))); [|lia]. cbn [andb].
  rewrite len_nat, insert_app_r_alt by lia. by rewrite Nat.sub_diag.
Qed.

Lemma put_varint_spec fuel v pre mid post :
  0 <= v < 2 ^ (7 * Z.of_nat fuel) -> (0 < fuel)%nat ->
  length mid = length (varint fuel v) ->
  put_varint fuel (pre ++ mid ++ post) (len pre) v = Ok (pre ++ varint fuel v ++ post).
Proof.
  revert v pre mid. induction fuel as [|fuel IH]; intros v pre mid Hv Hf Hm; [lia|].
  cbn [put_varint varint] in *. change (Z.shiftl 1 7) with 128.
  rewrite Z.geb_leb in *. destruct (Z.leb_spec 128 v) as [Hge|Hlt].
  - destruct mid as [|x mid]; [done|]. injection Hm as Hm. cbn [app].
    rewrite set_byte_app. cbn [mbind outcome_bind].
    rewrite (cons_middle _ pre), app_assoc.
    replace (len pre + 1) with (len (pre ++ [z2b (Z.lor (Z.land v 127) 128)]))
      by (rewrite len_app, len_cons; unfold len; simpl; lia).
    rewrite IH; [by rewrite <-app_assoc| | |done].
    + apply shiftr7_lt; [|lia]. replace (7 + 7 * Z.of_nat fuel) with (7 * Z.of_nat (S fuel)) by lia. done.
    + destruct fuel; [|lia]. change (7 * Z.of_nat 1) with 7 in Hv. lia.
  - destruct mid as [|x [|y mid]]; [done| |done]. cbn [app]. apply set_byte_app.
Qed.

Lemma venc_len v : is_u64 v -> len (venc v) = sov v.
Proof. intros Hv. apply varint_len; [|lia]. unfold is_u64 in Hv. simpl Z.of_nat. lia. Qed.

Lemma venc_cons v : exists b bs, venc v = b :: bs.
Proof. unfold venc. cbn [varint]. destruct (v >=? 128); eauto. Qed.

(** ** Writers *)

(** [w] puts [bs] in front of what the buffer holds. *)
Definition appends (w : buf -> go buf) (bs : bytes) : Prop :=
  forall free out, (length bs <= length free)%nat ->
  w (free ++ out, len free)
  = Ok (take (length free - length bs) free ++ bs ++ out, len free - len bs).

Lemma appends_nil : appends Ok [].
Proof.
  intros free out _. simpl length. rewrite Nat.sub_0_r, take_ge by lia.
  unfold len at 3. simpl. by rewrite Z.sub_0_r.
Qed.

Lemma appends_seq w1 w2 b1 b2 :
  appends w1 b1 -> appends w2 b2 -> appends (fun b => b ← w1 b; w2 b) (b2 ++ b1).
Proof.
  intros H1 H2 free out Hl. rewrite length_app in Hl. rewrite H1 by lia.
  cbn [mbind outcome_bind].
  set (free' := take (length free - length b1) free).
  assert (Hlen : length free' = (length free - length b1)%nat) by (unfold free'; rewrite length_take; lia).
  replace (len free - len b1) with (len free') by (unfold len; lia).
  rewrite H2 by lia. do 2 f_equal.
  - rewrite Hlen. unfold free'. rewrite take_take, length_app, <-app_assoc. f_equal. f_equal. lia.
  - rewrite len_app. unfold len. lia.
Qed.

Lemma put_bytes_appends bs : appends (put_bytes bs) bs.
Proof.
  intros free out Hl. unfold put_bytes. cbn [fst snd].
  rewrite len_app. pose proof (len_nonneg out).
  destruct (Z.leb_spec 0 (len free - len bs)); [|unfold len in *; lia].
  destruct (Z.leb_spec (len free - len bs) (len free + len out)); [|unfold len in *; lia].
  cbn [andb]. replace (Z.to_nat (len free - len bs)) with (length free - length bs)%nat by (unfold len; lia).
  do 2 f_equal. rewrite take_app_le by lia. f_equal.
  rewrite length_app, take_ge by lia. f_equal.
  rewrite drop_app_ge by lia. replace (_ - _)%nat with 0%nat by lia. done.
Qed.

Lemma encodeVarint_appends v : is_u64 v -> appends (fun b => encodeVarint b v) (venc v).
Proof.
  intros Hv free out Hl. unfold encodeVarint. cbn [fst snd]. rewrite <-venc_len by done.
  set (pre := take (length free - length (venc v)) free).
  set (mid := drop (length free - length (venc v)) free).
  assert (Hp : len free - len (venc v) = len pre) by (unfold len, pre; rewrite length_take; lia).
  rewrite Hp. replace (free ++ out) with (pre ++ mid ++ out)
    by (unfold pre, mid; by rewrite app_assoc, take_drop).
  rewrite put_varint_spec; [done| | |].
  - unfold is_u64 in Hv. simpl Z.of_nat. lia.
  - lia.
  - unfold mid. rewrite length_drop. fold (venc v). lia.
Qed.

Lemma put_byte_appends z : appends (put_byte z) [z2b z].
Proof.
  intros free out Hl. cbn [length] in Hl. unfold put_byte. cbn [fst snd].
  destruct free as [|x free _] using rev_ind; [simpl in Hl; lia|].
  rewrite length_app. simpl length. replace (length free + 1 - 1)%nat with (length free) by lia.
  rewrite take_app_length, <-app_assoc. cbn [app].
  replace (len (free ++ [x]) - 1) with (len free) by (rewrite len_app; unfold len; simpl; lia).
  rewrite set_byte_app. cbn [mbind outcome_bind]. do 2 f_equal.
  rewrite len_app. unfold len. simpl. lia.
Qed.

Lemma tag_cases t : 0 <= t < 2 ^ 14 ->
  (t < 128 /\ venc t = [z2b t])
  \/ (128 <= t /\ venc t = [z2b (Z.lor (Z.land t 0x7f) 0x80); z2b (Z.shiftr t 7)]).
Proof.
  intros Ht. unfold venc. cbn [varint]. rewrite !Z.geb_leb. destruct (Z.leb_spec 128 t); [right|by left].
  split; [done|]. destruct (Z.leb_spec 128 (Z.shiftr t 7)); [|done].
  pose proof (shiftr7_lt t 7 Ht). lia.
Qed.

Lemma put_tag_appends t : 0 <= t < 2 ^ 14 -> appends (put_tag t) (venc t).
Proof.
  intros Ht. unfold put_tag. destruct (tag_cases t Ht) as [[H ->]|[H ->]];
    destruct (Z.ltb_spec t 128); try lia; [apply put_byte_appends|].
  apply (appends_seq (put_byte _) (put_byte _) [_] [_]); apply put_byte_appends.
Qed.

Lemma tag_size_len num w : 0 < num < 2 ^ 11 -> 0 <= w < 8 -> len (venc (8 * num + w)) = tag_size num.
Proof.
  intros Hn Hw. unfold tag_size. destruct (tag_cases (8 * num + w)) as [[H ->]|[H ->]]; [lia| |];
    destruct (Z.ltb_spec num 16); try lia; done.
Qed.

(** ** Readers *)

(** A conversion to a machine type commutes with bitwise or. *)
Class Conv (conv : Z -> Z) := conv_lor : forall a b, conv (Z.lor a b) = Z.lor (conv a) (conv b).

Lemma lor_disjoint a b : Z.land a b = 0 -> Z.lor a b = a + b.
Proof. intros H. pose proof (Z.add_lor_land a b). lia. Qed.

Lemma mod_pow2_lor n a b : 0 <= n ->
  Z.lor a b mod 2 ^ n = Z.lor (a mod 2 ^ n) (b mod 2 ^ n).
Proof. intros Hn. rewrite <-!Z.land_ones by done. apply Z.land_lor_distr_l. Qed.

#[export] Instance u64_conv : Conv u64.
Proof. intros a b. by apply mod_pow2_lor. Qed.

#[export] Instance u32_conv : Conv u32.
Proof. intros a b. by apply mod_pow2_lor. Qed.

Definition high_bits (n z : Z) : Z := if Z.testbit z n then - 2 ^ (n + 1) else 0.

(** Truncation to a signed type keeps the low bits and extends the sign. *)
Lemma signed_as_bits n z : 0 <= n ->
  (z + 2 ^ n) mod 2 ^ (n + 1) - 2 ^ n = Z.lor (z mod 2 ^ (n + 1)) (high_bits n z).
Proof.
  intros Hn. set (P := 2 ^ n). assert (0 < P) by (apply Z.pow_pos_nonneg; lia).
  assert (HP2 : 2 ^ (n + 1) = 2 * P) by (rewrite Z.pow_add_r by lia; unfold P; lia).
  set (r := z mod (2 * P)). assert (Hr : 0 <= r < 2 * P) by (apply Z.mod_pos_bound; lia).
  assert (Hbit : Z.testbit z n = Z.testbit r n).
  { unfold r. rewrite <-HP2, Z.mod_pow2_bits_low by lia. done. }
  assert (Hdiv : (z + P) mod (2 * P) = (r + P) mod (2 * P)) by (unfold r; by rewrite Z.add_mod_idemp_l by lia).
  rewrite HP2, Hdiv. fold r. unfold high_bits. rewrite Hbit, Z.testbit_eqb by lia. fold P.
  destruct (decide (r < P)) as [Hlt|Hge].
  - rewrite Z.div_small by lia. cbn. rewrite Z.lor_0_r, Z.mod_small; lia.
  - assert (r / P = 1) as -> by (symmetry; apply Z.div_unique with (r := r - P); lia).
    change (1 mod 2 =? 1) with true. cbv iota. rewrite HP2.
    assert (Z.lor r (- (2 * P)) = r + - (2 * P)) as ->.
    { apply lor_disjoint. apply Z.bits_inj'. intros k Hk.
      rewrite Z.land_spec, Z.bits_0. destruct (decide (k < n + 1)).
      - replace (- (2 * P)) with (Z.shiftl (-1) (n + 1)) by (rewrite Z.shiftl_mul_pow2, HP2; lia).
        rewrite Z.shiftl_spec_low by lia. apply andb_false_r.
      - replace r with (r mod 2 ^ (n + 1)) by (rewrite HP2, Z.mod_small; lia).
        rewrite Z.mod_pow2_bits_high by lia. done. }
    replace (r + P) with (r - P + 1 * (2 * P)) by lia. rewrite Z.mod_add, Z.mod_small; lia.
Qed.

Lemma signed_lor n a b : 0 <= n ->
  (Z.lor a b + 2 ^ n) mod 2 ^ (n + 1) - 2 ^ n
  = Z.lor ((a + 2 ^ n) mod 2 ^ (n + 1) - 2 ^ n) ((b + 2 ^ n) mod 2 ^ (n + 1) - 2 ^ n).
Proof.
  intros Hn. rewrite !signed_as_bits, mod_pow2_lor by lia.
  assert (high_bits n (Z.lor a b) = Z.lor (high_bits n a) (high_bits n b)) as ->.
  { unfold high_bits. rewrite Z.lor_spec.
    destruct (Z.testbit a n), (Z.testbit b n); cbn [orb];
      by rewrite ?Z.lor_diag, ?Z.lor_0_r, ?Z.lor_0_l. }
  rewrite <-!Z.lor_assoc. f_equal. rewrite !Z.lor_assoc. f_equal. apply Z.lor_comm.
Qed.

#[export] Instance i64_conv : Conv i64.
Proof. intros a b. apply (signed_lor 63). lia. Qed.

#[export] Instance i32_conv : Conv i32.
Proof. intros a b. apply (signed_lor 31). lia. Qed.

Lemma byte_at_app {E} pre b post : byte_at (E:=E) (pre ++ b :: post) (len pre) = Ok b.
Proof.
  unfold byte_at. destruct (Z.ltb_spec (len pre) 0); [pose proof (len_nonneg pre); lia|].
  by rewrite len_nat, list_lookup_middle.
Qed.

Lemma low7_bits v : Z.lor (Z.land v 127) (Z.shiftl (Z.shiftr v 7) 7) = v.
Proof.
  apply Z.bits_inj'. intros k Hk. rewrite Z.lor_spec, Z.land_spec.
  change 127 with (Z.ones 7). destruct (decide (k < 7)).
  - rewrite Z.ones_spec_low, Z.shiftl_spec_low, orb_false_r, andb_true_r by lia. done.
  - rewrite Z.ones_spec_high, Z.shiftl_spec, Z.shiftr_spec, andb_false_r by lia.
    cbn [orb]. f_equal. lia.
Qed.

Lemma continuation_byte v : 0 <= v ->
  128 <= b2z (z2b (Z.lor (Z.land v 127) 128))
  /\ Z.land (b2z (z2b (Z.lor (Z.land v 127) 128))) 127 = Z.land v 127.
Proof.
  intros Hv. rewrite b2z_z2b.
  assert (Hlow : 0 <= Z.land v 127 < 128).
  { change 127 with (Z.ones 7). rewrite Z.land_ones by lia. apply Z.mod_pos_bound. lia. }
  assert (Z.lor (Z.land v 127) 128 = Z.land v 127 + 128) as ->.
  { apply lor_disjoint. rewrite <-Z.land_assoc. change (Z.land 127 128) with 0.
    apply Z.land_0_r. }
  rewrite Z.mod_small by lia. split; [lia|].
  change 127 with (Z.ones 7) at 2. rewrite Z.land_ones by lia. change (2 ^ 7) with 128.
  replace (Z.land v 127 + 128) with (Z.land v 127 + 1 * 128) by lia.
  rewrite Z.mod_add, Z.mod_small; lia.
Qed.

Lemma varint_loop_spec conv `{!Conv conv} rfuel fuel v pre post s acc :
  0 <= v < 2 ^ (64 - s) -> 0 <= v < 2 ^ (7 * Z.of_nat fuel) -> (0 < fuel)%nat ->
  0 <= s < 64 -> 64 - s <= 7 * Z.of_nat rfuel ->
  varint_loop rfuel conv (pre ++ varint fuel v ++ post) (len pre) s acc
  = Ok (Z.lor acc (conv (Z.shiftl v s)), len pre + len (varint fuel v)).
Proof.
  revert rfuel v pre s acc. induction fuel as [|fuel IH]; intros rfuel v pre s acc Hv Hv' Hf Hs Hr; [lia|].
  destruct rfuel as [|rfuel]; [lia|].
  assert (Hbytes : exists b bs, varint (S fuel) v = b :: bs)
    by (cbn [varint]; destruct (v >=? 128); eauto).
  assert (Hguard : (len pre >=? len (pre ++ varint (S fuel) v ++ post)) = false).
  { destruct Hbytes as (b & bs & ->). rewrite Z.geb_leb. apply Z.leb_gt.
    rewrite !len_app, len_cons. pose proof (len_nonneg bs). pose proof (len_nonneg post). lia. }
  cbn [varint_loop]. rewrite Hguard. destruct (Z.geb_spec s 64); [lia|].
  cbn [varint]. clear Hbytes Hguard. rewrite Z.geb_leb. destruct (Z.leb_spec 128 v) as [Hge|Hlt].
  - cbn [app]. rewrite byte_at_app. cbn [mbind outcome_bind].
    destruct (continuation_byte v) as [Hb1 Hb2]; [lia|].
    destruct (Z.ltb_spec (b2z (z2b (Z.lor (Z.land v 127) 128))) 128); [lia|]. rewrite Hb2.
    assert (Hs7 : s + 7 < 64).
    { assert (2 ^ 7 < 2 ^ (64 - s)) by lia. apply Z.pow_lt_mono_r_iff in H1; lia. }
    rewrite (cons_middle _ pre), app_assoc.
    replace (len pre + 1) with (len (pre ++ [z2b (Z.lor (Z.land v 127) 128)]))
      by (rewrite len_app; unfold len; simpl; lia).
    rewrite IH; try lia.
    + do 2 f_equal; [|rewrite len_app, len_cons; unfold len; simpl; lia].
      rewrite <-Z.lor_assoc, <-conv_lor. do 2 f_equal.
      rewrite <-(low7_bits v) at 3. rewrite Z.shiftl_lor, Z.shiftl_shiftl by lia.
      do 2 f_equal. lia.
    + apply shiftr7_lt; [|lia]. by replace (7 + (64 - (s + 7))) with (64 - s) by lia.
    + apply shiftr7_lt; [|lia]. by replace (7 + 7 * Z.of_nat fuel) with (7 * Z.of_nat (S fuel)) by lia.
    + destruct fuel; [|lia]. change (7 * Z.of_nat 1) with 7 in Hv'. lia.
  - cbn [app]. rewrite byte_at_app. cbn [mbind outcome_bind].
    rewrite b2z_z2b, Z.mod_small by lia. destruct (Z.ltb_spec v 128); [|lia].
    do 3 f_equal. change 127 with (Z.ones 7). rewrite Z.land_ones, Z.mod_small by lia. done.
Qed.

Lemma read_varint_spec conv `{!Conv conv} v pre post :
  is_u64 v -> read_varint conv (pre ++ venc v ++ post) (len pre) = Ok (conv v, len pre + len (venc v)).
Proof.
  intros Hv. unfold read_varint, venc. rewrite varint_loop_spec; try (unfold is_u64 in Hv; simpl Z.of_nat; lia).
  - by rewrite Z.shiftl_0_r, Z.lor_0_l.
  - done.
Qed.

(** ** Totality of the readers *)

(** The lengths Go slices can have. *)
Definition small (bs : bytes) : Prop := len bs < 2 ^ 63.

(** A decoding step that neither panics nor runs out of fuel. *)
Definition safe {A} (P : A -> Prop) (c : decoded A) : Prop :=
  match c with
  | Ok a => P a
  | Err e => e <> ErrFuel
  | Panic => False
  end.

Lemma safe_bind {A B} (P : A -> Prop) (Q : B -> Prop) (c : decoded A) (f : A -> decoded B) :
  safe P c -> (forall a, P a -> safe Q (f a)) -> safe Q (c ≫= f).
Proof. destruct c; simpl; auto. Qed.

Lemma safe_weaken {A} (P Q : A -> Prop) (c : decoded A) :
  safe P c -> (forall a, P a -> Q a) -> safe Q c.
Proof. destruct c; simpl; auto. Qed.

Lemma varint_loop_safe conv `{!Conv conv} fuel dAtA i s acc :
  (forall z, conv (conv z) = conv z) -> conv acc = acc ->
  0 <= i -> 64 - s <= 7 * Z.of_nat fuel ->
  safe (fun r => conv r.1 = r.1 /\ i < r.2 <= len dAtA) (varint_loop fuel conv dAtA i s acc).
Proof.
  intros Hidem. revert i s acc. induction fuel as [|fuel IH]; intros i s acc Hacc Hi Hf;
    cbn [varint_loop]; destruct (Z.geb_spec s 64); try done; rewrite Z.geb_leb;
    destruct (Z.leb_spec (len dAtA) i); try done; [lia|].
  unfold byte_at. destruct (Z.ltb_spec i 0); [lia|].
  destruct (lookup_lt_is_Some_2 dAtA (Z.to_nat i)) as [b ->]; [unfold len in *; lia|].
  cbn [mbind outcome_bind].
  assert (Hacc' : forall z, conv (Z.lor acc (conv z)) = Z.lor acc (conv z))
    by (intros z; by rewrite conv_lor, Hidem, Hacc).
  destruct (b2z b <? 128).
  - simpl. split; [done|lia].
  - eapply safe_weaken; [apply IH; [done|lia|lia]|]. intros [v j]; simpl. lia.
Qed.

Lemma read_varint_safe conv `{!Conv conv} dAtA i :
  (forall z, conv (conv z) = conv z) -> conv 0 = 0 -> 0 <= i ->
  safe (fun r => conv r.1 = r.1 /\ i < r.2 <= len dAtA) (read_varint conv dAtA i).
Proof. intros. apply varint_loop_safe; auto. simpl. lia. Qed.

Lemma i64_idem z : i64 (i64 z) = i64 z.
Proof. apply i64_small, i64_range. Qed.

Lemma u64_idem z : u64 (u64 z) = u64 z.
Proof. apply u64_small, u64_range. Qed.

Lemma i64_fixed_range z : i64 z = z -> is_i64 z.
Proof. intros <-. apply i64_range. Qed.

(** An [int] sum of a slice offset and a non-negative length is exact or
    negative. *)
Lemma i64_add_cases a b : 0 <= a < 2 ^ 63 -> 0 <= b < 2 ^ 63 -> (i64 (a + b) = a + b /\ a + b < 2 ^ 63) \/ i64 (a + b) < 0.
Proof.
  intros Ha Hb. destruct (decide (a + b < 2 ^ 63)).
  - left. split; [|done]. apply i64_small. unfold is_i64. lia.
  - right. unfold i64. rewrite <-(Z.mod_unique (a + b + 2 ^ 63) (2 ^ 64) 1 (a + b + 2 ^ 63 - 2 ^ 64)); lia.
Qed.

Lemma slice_safe dAtA a b : 0 <= a <= b -> b <= len dAtA ->
  exists s, slice (E:=proto_error) dAtA a b = Ok s /\ len s = b - a.
Proof.
  intros Ha Hb. unfold slice. destruct (Z.leb_spec 0 a), (Z.leb_spec a b), (Z.leb_spec b (len dAtA)); try lia.
  eexists. split; [done|]. unfold len in *. rewrite length_take, length_drop. lia.
Qed.

Lemma read_delimited_safe dAtA wt i :
  small dAtA -> 0 <= i <= len dAtA ->
  safe (fun r => small r.1 /\ i <= r.2 <= len dAtA) (read_delimited dAtA wt i).
Proof.
  intros Hs Hi. unfold read_delimited. destruct (negb _); [done|].
  eapply safe_bind; [apply read_varint_safe; [apply _|apply i64_idem|done|lia]|].
  intros [l j] [Hl Hj]. cbn [fst snd] in *. apply i64_fixed_range in Hl. unfold is_i64, small in *.
  destruct (Z.ltb_spec l 0); [done|].
  destruct (Z.ltb_spec (i64 (j + l)) 0); [done|].
  destruct (Z.gtb_spec (i64 (j + l)) (len dAtA)); [done|].
  destruct (i64_add_cases j l) as [[E _]|]; [lia|lia| |lia]. rewrite E in *.
  destruct (slice_safe dAtA j (j + l)) as (s & -> & Hlen); [lia|lia|].
  simpl. unfold small. lia.
Qed.

Lemma skip_loop_safe fuel dAtA i d :
  small dAtA -> 0 <= i < 2 ^ 63 -> len dAtA - i <= Z.of_nat fuel ->
  safe (fun r => i < r < 2 ^ 63) (skip_loop fuel dAtA i d).
Proof.
  intros Hs. unfold small in Hs. revert i d. induction fuel as [|fuel IH]; intros i d Hi Hf;
    cbn [skip_loop]; rewrite Z.geb_leb; destruct (Z.leb_spec (len dAtA) i); try done; [lia|].
  eapply safe_bind; [apply read_varint_safe; [apply _|apply u64_idem|done|lia]|].
  intros [wire j] [_ Hj]. cbn [fst snd] in Hj.
  eapply (safe_bind (fun r : Z * Z => i < r.1 < 2 ^ 63 \/ r.1 < 0)).
  - repeat case_match; try done; try (simpl; lia).
    + eapply safe_bind; [apply read_varint_safe; [apply _|apply u64_idem|done|lia]|].
      intros [v k] [_ Hk]. simpl in *. lia.
    + simpl. destruct (i64_add_cases j 8); lia.
    + eapply safe_bind; [apply read_varint_safe; [apply _|apply i64_idem|done|lia]|].
      intros [v k] [Hv Hk]. cbn [fst snd] in *. apply i64_fixed_range in Hv. unfold is_i64 in Hv.
      destruct (Z.ltb_spec v 0); [done|]. simpl. destruct (i64_add_cases k v); lia.
    + simpl. destruct (i64_add_cases j 4); lia.
  - intros [k d'] Hk. cbn [fst] in Hk. destruct (Z.ltb_spec k 0); [done|]. destruct Hk as [Hk|]; [|lia].
    destruct (d' =? 0); [simpl; lia|].
    eapply safe_weaken; [apply IH; lia|]. simpl. lia.
Qed.

Lemma skip_safe dAtA : small dAtA -> safe (fun r => 0 < r < 2 ^ 63) (skip dAtA).
Proof. intros Hs. apply skip_loop_safe; [done|lia|unfold len; lia]. Qed.

(** * Laws of fields *)

Class Lens {M V} (get : M -> V) (set : V -> M -> M) : Prop := {
  lens_get_set : forall v m, get (set v m) = v;
  lens_set_get : forall m, set (get m) m = m;
  lens_set_set : forall u v m, set v (set u m) = set v m;
}.

(** One iteration of [Unmarshal] over the bytes [bs] of a field. *)
Definition chunk {M} (f : field M) (bs : bytes) (m m' : M) : Prop :=
  bs <> [] /\ forall pre post, small (pre ++ bs ++ post) ->
  exists wire i, read_varint u64 (pre ++ bs ++ post) (len pre) = Ok (wire, i)
    /\ i32 (Z.shiftr wire 3) = f_num f /\ Z.land wire 7 <> 4
    /\ f_read f (pre ++ bs ++ post) (Z.land wire 7) i m = Ok (m', len pre + len bs).

Inductive chunks {M} (f : field M) : bytes -> M -> M -> Prop :=
| chunks_nil m : chunks f [] m m
| chunks_cons bs bs' m m' m'' :
    chunk f bs m m' -> chunks f bs' m' m'' -> chunks f (bs ++ bs') m m''.

Lemma chunks_one {M} (f : field M) bs m m' : chunk f bs m m' -> chunks f bs m m'.
Proof. intros H. rewrite <-(app_nil_r bs). eapply chunks_cons; [done|constructor]. Qed.

(** What a message relies on from each of its fields: the bytes it encodes to,
    and that the three blocks of generated code agree with them. *)
Record lfield (M : Type) := mkLField {
  lf_field : field M;
  lf_valid : M -> Prop;
  lf_known : M -> Prop;
  lf_enc : M -> bytes;
  lf_unset : M -> Prop;
  lf_copy : M -> M -> M;
  lf_num : 0 < f_num lf_field < 2 ^ 11;
  lf_size : forall m, lf_valid m -> small (lf_enc m) -> f_size lf_field m = len (lf_enc m);
  lf_write : forall m, lf_valid m -> small (lf_enc m) -> appends (f_write lf_field m) (lf_enc m);
  lf_read : forall src dst, lf_valid src -> lf_known src -> lf_unset dst -> small (lf_enc src) ->
    chunks lf_field (lf_enc src) dst (lf_copy src dst);
  lf_safe : forall dAtA wt i m, small dAtA -> 0 <= i <= len dAtA ->
    safe (fun r => i <= r.2 <= len dAtA) (f_read lf_field dAtA wt i m);
}.
Arguments mkLField {_}.
Arguments lf_field {_}.
Arguments lf_valid {_}.
Arguments lf_known {_}.
Arguments lf_enc {_}.
Arguments lf_unset {_}.
Arguments lf_copy {_}.
Arguments lf_num {_}.
Arguments lf_size {_}.
Arguments lf_write {_}.
Arguments lf_read {_}.
Arguments lf_safe {_}.

(** The laws a nested message promises to the field that holds it. *)
Record codec_laws {N} (c : codec N) (valid known : N -> Prop) (enc : N -> bytes) : Prop := {
  cl_size : forall n, valid n -> small (enc n) -> c_size c n = len (enc n);
  cl_marshal : forall n dAtA, valid n -> small (enc n) -> (length (enc n) <= length dAtA)%nat ->
    c_marshal c n dAtA
    = Ok (take (length dAtA - length (enc n)) dAtA ++ enc n, len (enc n));
  cl_unmarshal : forall n, valid n -> known n -> small (enc n) ->
    c_unmarshal c (enc n) (c_zero c) = Ok n;
  cl_safe : forall dAtA m, small dAtA -> safe (fun _ => True) (c_unmarshal c dAtA m);
}.

(** The encoding of a length-delimited field. *)
Definition delim (num : Z) (p : bytes) : bytes := venc (8 * num + 2) ++ venc (len p) ++ p.

Lemma len_u64 {A} (l : list A) : len l < 2 ^ 64 -> is_u64 (len l) /\ u64 (len l) = len l.
Proof.
  intros H. assert (is_u64 (len l)) by (pose proof (len_nonneg l); unfold is_u64; lia).
  split; [done|by apply u64_small].
Qed.

Lemma delim_len num p : 0 < num < 2 ^ 11 -> len p < 2 ^ 64 ->
  len (delim num p) = tag_size num + len p + sov (u64 (len p)).
Proof.
  intros Hn Hp. destruct (len_u64 p Hp) as [H ->]. unfold delim.
  rewrite !len_app, tag_size_len, venc_len by (done || lia). lia.
Qed.

Lemma delim_nonempty num p : delim num p <> [].
Proof. unfold delim. destruct (venc_cons (8 * num + 2)) as (b & bs & ->). done. Qed.

Lemma read_delimited_spec pre p post :
  small (pre ++ (venc (len p) ++ p) ++ post) ->
  read_delimited (pre ++ (venc (len p) ++ p) ++ post) 2 (len pre)
  = Ok (p, len pre + len (venc (len p)) + len p).
Proof.
  intros Hs. assert (Hl : len pre + len (venc (len p)) + len p + len post < 2 ^ 63)
    by (unfold small in Hs; rewrite !len_app in Hs; lia).
  pose proof (len_nonneg pre). pose proof (len_nonneg post). pose proof (len_nonneg (venc (len p))).
  pose proof (len_nonneg p). destruct (len_u64 p) as [Hu _]; [lia|].
  unfold read_delimited. cbn [Z.eqb negb Pos.eqb]. rewrite <-(app_assoc (venc _)).
  rewrite read_varint_spec by (done || apply _). cbn [mbind outcome_bind].
  rewrite (i64_small (len p)) by (unfold is_i64; lia).
  rewrite (i64_small (_ + _)) by (unfold is_i64; lia).
  destruct (Z.ltb_spec (len p) 0); [lia|].
  destruct (Z.ltb_spec (len pre + len (venc (len p)) + len p) 0); [lia|].
  destruct (Z.gtb_spec (len pre + len (venc (len p)) + len p) (len (pre ++ venc (len p) ++ p ++ post)));
    [rewrite !len_app in *; lia|].
  unfold slice. rewrite !len_app.
  destruct (Z.leb_spec 0 (len pre + len (venc (len p)))); [|lia].
  destruct (Z.leb_spec (len pre + len (venc (len p))) (len pre + len (venc (len p)) + len p)); [|lia].
  destruct (Z.leb_spec (len pre + len (venc (len p)) + len p)
              (len pre + (len (venc (len p)) + (len p + len post)))); [|lia].
  cbn [andb mbind outcome_bind]. do 2 f_equal.
  replace (Z.to_nat _) with (length p) by (unfold len; lia).
  rewrite app_assoc. replace (Z.to_nat _) with (length (pre ++ venc (len p))) by (rewrite length_app; unfold len; lia).
  by rewrite drop_app_length, take_app_length.
Qed.

(** Decoding the tag of field [num]. *)
Lemma read_tag num w pre post : 0 < num < 2 ^ 11 -> 0 <= w < 8 ->
  read_varint u64 (pre ++ venc (8 * num + w) ++ post) (len pre)
  = Ok (8 * num + w, len pre + len (venc (8 * num + w)))
  /\ i32 (Z.shiftr (8 * num + w) 3) = num /\ Z.land (8 * num + w) 7 = w.
Proof.
  intros Hn Hw. split_and!.
  - assert (is_u64 (8 * num + w)) by (unfold is_u64; lia).
    rewrite read_varint_spec by (done || apply _). by rewrite u64_small by done.
  - rewrite Z.shiftr_div_pow2 by lia. change (2 ^ 3) with 8.
    rewrite <-(Z.div_unique (8 * num + w) 8 num w) by lia. apply i32_small. lia.
  - change 7 with (Z.ones 3). rewrite Z.land_ones by lia. change (2 ^ 3) with 8.
    by rewrite <-(Z.mod_unique (8 * num + w) 8 num w) by lia.
Qed.

Lemma delim_chunk {M} (f : field M) p m m' :
  0 < f_num f < 2 ^ 11 ->
  (forall dAtA i j, read_delimited dAtA 2 i = Ok (p, j) -> f_read f dAtA 2 i m = Ok (m', j)) ->
  chunk f (delim (f_num f) p) m m'.
Proof.
  intros Hn Hr. split; [apply delim_nonempty|]. intros pre post Hs. unfold delim in *.
  rewrite <-(app_assoc (venc (8 * f_num f + 2))) in *.
  destruct (read_tag (f_num f) 2 pre ((venc (len p) ++ p) ++ post) Hn) as (H1 & H2 & H3); [lia|].
  do 2 eexists. split; [exact H1|]. split; [done|]. rewrite H3. split; [done|].
  apply Hr. rewrite (app_assoc pre) in Hs |- *. rewrite <-len_app.
  rewrite read_delimited_spec by done. do 2 f_equal. rewrite !len_app. lia.
Qed.

(** ** Byte fields *)

Section BytesField.
Context {M : Type} (num : Z) (get : M -> bytes) (set : bytes -> M -> M) `{!Lens get set}.
Context (Hnum : 0 < num < 2 ^ 11).

Definition bytes_enc (m : M) : bytes := if decide (get m = []) then [] else delim num (get m).

Lemma bytes_enc_cases m :
  (get m = [] /\ bytes_enc m = [] /\ (len (get m) >? 0) = false)
  \/ (bytes_enc m = delim num (get m) /\ (len (get m) >? 0) = true).
Proof.
  unfold bytes_enc. destruct (get m) as [|b bs] eqn:E; [left|right]; split_and!; done.
Qed.

Lemma delim_small p : small (delim num p) -> small p.
Proof.
  unfold small, delim. rewrite !len_app. pose proof (len_nonneg (venc (len p))).
  pose proof (len_nonneg (venc (8 * num + 2))). lia.
Qed.

(** The writer of the length and the tag. *)
Lemma prefix_appends v : is_u64 v ->
  appends (fun b => b ← encodeVarint b v; put_tag (8 * num + 2) b) (venc (8 * num + 2) ++ venc v).
Proof.
  intros Hv. apply (appends_seq (fun b => encodeVarint b v) (put_tag _));
    [by apply encodeVarint_appends|apply put_tag_appends; lia].
Qed.

Lemma bytes_size m : True -> small (bytes_enc m) -> f_size (bytes_field num get set) m = len (bytes_enc m).
Proof.
  intros _ Hs. simpl. destruct (bytes_enc_cases m) as [(-> & -> & _)|(E & ->)]; [done|].
  rewrite E in *. apply delim_small in Hs. unfold small in Hs. by rewrite delim_len by lia.
Qed.

Lemma bytes_write m : True -> small (bytes_enc m) ->
  appends (f_write (bytes_field num get set) m) (bytes_enc m).
Proof.
  intros _ Hs. unfold bytes_field. cbn [f_write].
  destruct (bytes_enc_cases m) as [(_ & -> & ->)|(E & ->)]; [apply appends_nil|].
  rewrite E in *. apply delim_small in Hs. destruct (len_u64 (get m)) as [Hu ->]; [unfold small in Hs; lia|].
  unfold delim. rewrite app_assoc.
  apply (appends_seq (put_bytes (get m))); [apply put_bytes_appends|by apply prefix_appends].
Qed.

Lemma bytes_read src dst : True -> True -> get dst = [] -> small (bytes_enc src) ->
  chunks (bytes_field num get set) (bytes_enc src) dst (set (get src) dst).
Proof.
  intros _ _ Hd _. destruct (bytes_enc_cases src) as [(E & -> & _)|(-> & _)].
  - replace (set (get src) dst) with dst by (by rewrite E, <-Hd, lens_set_get). constructor.
  - apply chunks_one, (delim_chunk (bytes_field num get set)); [done|].
    intros dAtA i j H. simpl. by rewrite H.
Qed.

Lemma bytes_safe dAtA wt i m : small dAtA -> 0 <= i <= len dAtA ->
  safe (fun r => i <= r.2 <= len dAtA) (f_read (bytes_field num get set) dAtA wt i m).
Proof.
  intros Hs Hi. eapply safe_bind; [by apply read_delimited_safe|]. intros [s j] [_ Hj]. done.
Qed.

Definition bytes_lfield : lfield M :=
  mkLField (bytes_field num get set) (fun _ => True) (fun _ => True) bytes_enc
    (fun m => get m = []) (fun src dst => set (get src) dst) Hnum
    bytes_size bytes_write bytes_read bytes_safe.
End BytesField.

(** ** Integer fields *)

Section VarintField.
Context {M : Type} (num : Z) (conv : Z -> Z) (get : M -> Z) (set : Z -> M -> M) `{!Lens get set}.
Context `{!Conv conv} (Hconv : forall z, conv (u64 z) = conv z) (Hidem : forall z, conv (conv z) = conv z)
  (Hzero : conv 0 = 0).
Context (Hnum : 0 < num < 2 ^ 11).

Definition varint_enc (m : M) : bytes :=
  if get m =? 0 then [] else venc (8 * num + 0) ++ venc (u64 (get m)).

Lemma varint_size m : conv (get m) = get m -> small (varint_enc m) ->
  f_size (varint_field num conv get set) m = len (varint_enc m).
Proof.
  intros _ _. simpl. unfold varint_enc. destruct (get m =? 0); [done|]. cbn [negb].
  rewrite len_app, tag_size_len, venc_len by (apply u64_range || lia). done.
Qed.

Lemma varint_write m : conv (get m) = get m -> small (varint_enc m) ->
  appends (f_write (varint_field num conv get set) m) (varint_enc m).
Proof.
  intros _ _. unfold varint_field, varint_enc. cbn [f_write].
  destruct (get m =? 0); [apply appends_nil|]. cbn [negb].
  apply (appends_seq (fun b => encodeVarint b _) (put_tag _));
    [apply encodeVarint_appends, u64_range|apply put_tag_appends; lia].
Qed.

Lemma varint_read src dst : conv (get src) = get src -> True -> get dst = 0 -> small (varint_enc src) ->
  chunks (varint_field num conv get set) (varint_enc src) dst (set (get src) dst).
Proof.
  intros Hv _ Hd _. unfold varint_enc. destruct (Z.eqb_spec (get src) 0) as [->|].
  - rewrite <-Hd, lens_set_get. constructor.
  - apply chunks_one. split; [destruct (venc_cons (8 * num + 0)) as (? & ? & ->); done|].
    intros pre post _. rewrite <-app_assoc.
    destruct (read_tag num 0 pre (venc (u64 (get src)) ++ post) Hnum) as (H1 & H2 & H3); [lia|].
    do 2 eexists. split; [exact H1|]. rewrite H3. split; [done|]. split; [done|].
    simpl f_read. cbv beta. rewrite (app_assoc pre), <-len_app. change (negb (0 =? 0)) with false. cbv iota.
    rewrite read_varint_spec by (apply u64_range || apply _). cbn [mbind outcome_bind].
    rewrite Hconv, Hv. do 2 f_equal. rewrite !len_app. lia.
Qed.

Lemma varint_safe dAtA wt i m : small dAtA -> 0 <= i <= len dAtA ->
  safe (fun r => i <= r.2 <= len dAtA) (f_read (varint_field num conv get set) dAtA wt i m).
Proof.
  intros Hs Hi. simpl. destruct (negb _); [done|].
  eapply safe_bind; [apply read_varint_safe; [apply _|done|done|lia]|].
  intros [v j] [_ Hj]. simpl in *. lia.
Qed.

Definition varint_lfield : lfield M :=
  mkLField (varint_field num conv get set) (fun m => conv (get m) = get m) (fun _ => True) varint_enc
    (fun m => get m = 0) (fun src dst => set (get src) dst) Hnum
    varint_size varint_write varint_read varint_safe.
End VarintField.

(** ** Nested messages *)

Section MsgField.
Context {M N : Type} (c : codec N) (valid known : N -> Prop) (enc : N -> bytes).
Context (Hc : codec_laws c valid known enc) (num : Z) (Hnum : 0 < num < 2 ^ 11).

Lemma put_msg_appends n : valid n -> small (delim num (enc n)) ->
  appends (put_msg c num n) (delim num (enc n)).
Proof.
  intros Hv Hs. pose proof (delim_small num _ Hs) as Hs'.
  destruct (len_u64 (enc n)) as [Hu Hu']; [unfold small in Hs'; lia|].
  intros free out Hl. unfold put_msg. cbn [fst snd]. unfold slice. rewrite len_app.
  pose proof (len_nonneg free). pose proof (len_nonneg out).
  destruct (Z.leb_spec 0 (len free)), (Z.leb_spec (len free) (len free + len out)); try lia.
  change (Z.leb 0 0) with true. cbn [andb].
  rewrite Z.sub_0_r, drop_0, len_nat, take_app_length, drop_app_length.
  assert (Hl' : (length (venc (8 * num + 2) ++ venc (len (enc n))) + length (enc n) <= length free)%nat)
    by (unfold delim in Hl; rewrite !length_app in *; lia).
  cbn [mbind outcome_bind]. rewrite (cl_marshal _ _ _ _ Hc) by (done || lia).
  cbn [mbind outcome_bind]. rewrite Hu', <-app_assoc.
  pose proof (prefix_appends num Hnum _ Hu (take (length free - length (enc n)) free) (enc n ++ out)) as Hseq.
  rewrite length_take in Hseq. specialize (Hseq ltac:(lia)).
  replace (len free - len (enc n)) with (len (take (length free - length (enc n)) free))
    by (unfold len; rewrite length_take; lia).
  rewrite Hseq. unfold delim. do 2 f_equal.
  - rewrite take_take, <-!app_assoc. rewrite !length_app in *. f_equal. f_equal. lia.
  - rewrite !len_app. unfold len. rewrite length_take. lia.
Qed.

Lemma msg_size n : valid n -> small (delim num (enc n)) ->
  tag_size num + c_size c n + sov (u64 (c_size c n)) = len (delim num (enc n)).
Proof.
  intros Hv Hs. apply delim_small in Hs. rewrite (cl_size _ _ _ _ Hc) by done.
  unfold small in Hs. by rewrite delim_len by lia.
Qed.

Section One.
Context (get : M -> option N) (set : option N -> M -> M) `{!Lens get set}.

Definition msg_enc (m : M) : bytes := match get m with Some n => delim num (enc n) | None => [] end.
Definition msg_all (P : N -> Prop) (m : M) : Prop := match get m with Some n => P n | None => True end.

Lemma msg_size_ok m : msg_all valid m -> small (msg_enc m) -> f_size (msg_field c num get set) m = len (msg_enc m).
Proof. unfold msg_all, msg_enc, msg_field. cbn [f_size]. destruct (get m); [apply msg_size|done]. Qed.

Lemma msg_write m : msg_all valid m -> small (msg_enc m) ->
  appends (f_write (msg_field c num get set) m) (msg_enc m).
Proof.
  unfold msg_all, msg_enc, msg_field. cbn [f_write].
  destruct (get m); [apply put_msg_appends|intros _ _; apply appends_nil].
Qed.

Lemma msg_read src dst : msg_all valid src -> msg_all known src -> get dst = None -> small (msg_enc src) ->
  chunks (msg_field c num get set) (msg_enc src) dst (set (get src) dst).
Proof.
  unfold msg_all, msg_enc. intros Hv Hk Hd Hs. destruct (get src) as [n|].
  - apply chunks_one, (delim_chunk (msg_field c num get set)); [done|].
    intros dAtA i j H. simpl. rewrite H. cbn [mbind outcome_bind]. rewrite Hd. cbn [default from_option].
    rewrite (cl_unmarshal _ _ _ _ Hc) by (done || by eapply delim_small). done.
  - rewrite <-Hd, lens_set_get. constructor.
Qed.

Lemma msg_safe dAtA wt i m : small dAtA -> 0 <= i <= len dAtA ->
  safe (fun r => i <= r.2 <= len dAtA) (f_read (msg_field c num get set) dAtA wt i m).
Proof.
  intros Hs Hi. eapply safe_bind; [by apply read_delimited_safe|]. intros [s j] [Hs' Hj].
  eapply safe_bind; [by apply (cl_safe _ _ _ _ Hc)|]. done.
Qed.

Definition msg_lfield : lfield M :=
  mkLField (msg_field c num get set) (msg_all valid) (msg_all known) msg_enc
    (fun m => get m = None) (fun src dst => set (get src) dst) Hnum
    msg_size_ok msg_write msg_read msg_safe.
End One.

Section Repeated.
Context (get : M -> list N) (set : list N -> M -> M) `{!Lens get set}.

Definition rep_enc (m : M) : bytes := concat ((fun n => delim num (enc n)) <$> get m).
Definition rep_all (P : N -> Prop) (m : M) : Prop := Forall P (get m).

Lemma small_app l k : small (l ++ k) -> small l /\ small k.
Proof. unfold small. rewrite len_app. pose proof (len_nonneg l). pose proof (len_nonneg k). lia. Qed.

Lemma rep_size m : rep_all valid m -> small (rep_enc m) -> f_size (rep_field c num get set) m = len (rep_enc m).
Proof.
  unfold rep_all, rep_enc, rep_field. cbn [f_size]. induction 1 as [|n l Hn _ IH]; [done|].
  cbn [fmap list_fmap concat foldr]. intros Hs. apply small_app in Hs as [Hs1 Hs2].
  rewrite len_app, IH by done. by rewrite <-msg_size by done.
Qed.

Lemma rep_write m : rep_all valid m -> small (rep_enc m) ->
  appends (f_write (rep_field c num get set) m) (rep_enc m).
Proof.
  unfold rep_all, rep_enc, rep_field. cbn [f_write]. induction 1 as [|n l Hn _ IH]; [intros; apply appends_nil|].
  cbn [fmap list_fmap concat foldr]. intros Hs. apply small_app in Hs as [Hs1 Hs2].
  apply (appends_seq _ (put_msg c num n)); [by apply IH|by apply put_msg_appends].
Qed.

Lemma rep_read_from l dst : Forall valid l -> Forall known l ->
  small (concat ((fun n => delim num (enc n)) <$> l)) ->
  chunks (rep_field c num get set) (concat ((fun n => delim num (enc n)) <$> l)) dst (set (get dst ++ l) dst).
Proof.
  intros Hv Hk. revert dst. induction Hv as [|n l Hn _ IH]; intros dst Hs.
  - rewrite app_nil_r, lens_set_get. constructor.
  - cbn [fmap list_fmap concat] in *. apply small_app in Hs as [Hs1 Hs2]. apply Forall_cons in Hk as [Hk1 Hk2].
    eapply (chunks_cons _ _ _ _ (set (get dst ++ [n]) dst)).
    + apply (delim_chunk (rep_field c num get set)); [done|].
      intros dAtA i j H. simpl. rewrite H. cbn [mbind outcome_bind].
      rewrite (cl_unmarshal _ _ _ _ Hc) by (done || by eapply delim_small). done.
    + specialize (IH Hk2 (set (get dst ++ [n]) dst) Hs2).
      by rewrite lens_get_set, lens_set_set, <-app_assoc in IH.
Qed.

Lemma rep_read src dst : rep_all valid src -> rep_all known src -> get dst = [] -> small (rep_enc src) ->
  chunks (rep_field c num get set) (rep_enc src) dst (set (get src) dst).
Proof.
  intros Hv Hk Hd Hs. pose proof (rep_read_from (get src) dst Hv Hk Hs) as H. by rewrite Hd in H.
Qed.

Lemma rep_safe dAtA wt i m : small dAtA -> 0 <= i <= len dAtA ->
  safe (fun r => i <= r.2 <= len dAtA) (f_read (rep_field c num get set) dAtA wt i m).
Proof.
  intros Hs Hi. eapply safe_bind; [by apply read_delimited_safe|]. intros [s j] [Hs' Hj].
  eapply safe_bind; [by apply (cl_safe _ _ _ _ Hc)|]. done.
Qed.

Definition rep_lfield : lfield M :=
  mkLField (rep_field c num get set) (rep_all valid) (rep_all known) rep_enc
    (fun m => get m = []) (fun src dst => set (get src) dst) Hnum
    rep_size rep_write rep_read rep_safe.
End Repeated.
End MsgField.

(** * Laws of messages *)

(** The fields of a schema with their laws, in the order of the code; each
    field survives the decoding of the others, and all of them together make
    up the message. *)
Record mlaws {M} (s : schema M) := mkMLaws {
  ml_fields : list (lfield M);
  ml_eq : s_fields s = lf_field <$> ml_fields;
  ml_nodup : NoDup (f_num <$> s_fields s);
  ml_zero : Forall (fun f => lf_unset f (s_zero s)) ml_fields;
  ml_indep : ForallOrdPairs (fun f g => forall src dst,
    lf_unset g dst -> lf_unset g (lf_copy f src dst)) ml_fields;
  ml_fold : forall m, s_unrecognized s m = [] ->
    foldl (fun dst f => lf_copy f m dst) (s_zero s) ml_fields = m;
}.
Arguments mkMLaws {_ _}.
Arguments ml_fields {_ _}.

Section MessageLaws.
Context {M : Type} (s : schema M) (L : mlaws s).

Definition valid (m : M) : Prop := Forall (fun f => lf_valid f m) (ml_fields L).

(** No unknown fields, here and in the nested messages. *)
Definition known (m : M) : Prop :=
  s_unrecognized s m = [] /\ Forall (fun f => lf_known f m) (ml_fields L).

Definition fields_enc (fs : list (lfield M)) (m : M) : bytes := concat ((fun f => lf_enc f m) <$> fs).

Definition enc (m : M) : bytes := fields_enc (ml_fields L) m ++ s_unrecognized s m.

Lemma i64_i64_add a b : i64 (i64 a + b) = i64 (a + b).
Proof.
  unfold i64. f_equal. replace ((a + 2 ^ 63) mod 2 ^ 64 - 2 ^ 63 + b + 2 ^ 63) with ((a + 2 ^ 63) mod 2 ^ 64 + b) by lia.
  rewrite Z.add_mod_idemp_l by lia. f_equal. lia.
Qed.

Lemma foldl_size (fs : list (lfield M)) m n :
  Forall (fun f => lf_valid f m) fs -> small (fields_enc fs m) ->
  i64 (foldl (fun n f => i64 (n + f_size f m)) n (lf_field <$> fs)) = i64 (n + len (fields_enc fs m)).
Proof.
  intros Hv. revert n. induction Hv as [|f fs Hf _ IH]; intros n Hs.
  - unfold fields_enc. simpl. f_equal. unfold len. simpl. lia.
  - unfold fields_enc in *. cbn [fmap list_fmap foldl concat] in *. apply small_app in Hs as [Hs1 Hs2].
    rewrite (IH _ Hs2). rewrite (lf_size f) by done. rewrite i64_i64_add, len_app. f_equal. lia.
Qed.

Lemma Size_enc m : valid m -> small (enc m) -> Size s m = len (enc m).
Proof.
  intros Hv Hs. pose proof (small_app _ _ Hs) as [Hs1 _]. unfold Size. rewrite (ml_eq s L).
  rewrite <-i64_i64_add, foldl_size by done. rewrite i64_i64_add, Z.add_0_l. unfold enc in *. rewrite len_app.
  apply i64_small. unfold small in Hs. rewrite len_app in Hs.
  pose proof (len_nonneg (fields_enc (ml_fields L) m)). pose proof (len_nonneg (s_unrecognized s m)).
  unfold is_i64. lia.
Qed.

Lemma foldr_write fs m bs :
  Forall (fun f => lf_valid f m) fs -> small (fields_enc fs m) ->
  appends (fun b => foldr (fun f c => b ← c; f_write f m b) (put_bytes bs b) (lf_field <$> fs))
    (fields_enc fs m ++ bs).
Proof.
  induction 1 as [|f fs Hf _ IH]; intros Hs; [apply put_bytes_appends|].
  unfold fields_enc in *. cbn [fmap list_fmap foldr concat] in *. apply small_app in Hs as [Hs1 Hs2].
  rewrite <-app_assoc. apply (appends_seq _ (f_write (lf_field f) m)); [by apply IH|by apply (lf_write f)].
Qed.

Lemma foldr_bind (fs : list (field M)) m (c : go buf) :
  foldr (fun f c => b ← c; f_write f m b) c fs
  = (b ← c; foldr (fun f c => b ← c; f_write f m b) (Ok b) fs).
Proof. induction fs as [|f fs IH]; simpl; [by destruct c|]. rewrite IH. by destruct c. Qed.

Lemma MarshalToSizedBuffer_enc m dAtA : valid m -> small (enc m) -> (length (enc m) <= length dAtA)%nat ->
  MarshalToSizedBuffer s m dAtA = Ok (take (length dAtA - length (enc m)) dAtA ++ enc m, len (enc m)).
Proof.
  intros Hv Hs Hl. pose proof (small_app _ _ Hs) as [Hs1 _].
  pose proof (foldr_write _ m (s_unrecognized s m) Hv Hs1 dAtA [] Hl) as H. rewrite app_nil_r in H.
  unfold MarshalToSizedBuffer. rewrite (ml_eq s L).
  rewrite foldr_bind in H. fold (enc m) in H. rewrite app_nil_r in H.
  destruct (put_bytes _ _) as [b| |]; cbn [mbind outcome_bind] in *; [|done|done].
  rewrite H. cbn [mbind outcome_bind fst snd]. do 2 f_equal. lia.
Qed.

(** [Marshal] allocates exactly the bytes it writes. *)
Lemma Marshal_enc m : valid m -> small (enc m) -> Marshal s m = Ok (enc m).
Proof.
  intros Hv Hs. unfold Marshal. rewrite Size_enc by done.
  pose proof (len_nonneg (enc m)). destruct (Z.ltb_spec (len (enc m)) 0); [lia|].
  rewrite MarshalToSizedBuffer_enc by (try done; rewrite length_replicate, len_nat; lia).
  cbn [mbind outcome_bind]. rewrite length_replicate, len_nat, Nat.sub_diag, take_0. cbn [app].
  unfold slice. destruct (Z.leb_spec 0 (len (enc m))), (Z.leb_spec (len (enc m)) (len (enc m))); try lia.
  change (Z.leb 0 0) with true. cbn [andb]. by rewrite Z.sub_0_r, len_nat, drop_0, take_ge by lia.
Qed.

(** ** Decoding *)

Lemma find_field_num fs f : NoDup (f_num <$> fs) -> f ∈ fs -> find_field (M:=M) fs (f_num f) = Some f.
Proof.
  induction fs as [|g fs IH]; intros Hnd Hin; [by apply elem_of_nil in Hin|].
  cbn [fmap list_fmap] in Hnd. apply NoDup_cons in Hnd as [Hg Hnd]. cbn [find_field].
  apply elem_of_cons in Hin as [-> | Hin]; [by rewrite Z.eqb_refl|].
  destruct (Z.eqb_spec (f_num g) (f_num f)) as [E|]; [|by apply IH].
  destruct Hg. rewrite E. by apply list_elem_of_fmap_2.
Qed.

Lemma find_field_elem fs n f : find_field (M:=M) fs n = Some f -> f ∈ fs.
Proof.
  induction fs as [|g fs IH]; simpl; [done|]. destruct (_ =? _); intros; simplify_eq; set_solver.
Qed.

Inductive mchunks : bytes -> M -> M -> Prop :=
| mchunks_nil m : mchunks [] m m
| mchunks_cons f bs bs' m m' m'' : f ∈ ml_fields L ->
    chunk (lf_field f) bs m m' -> mchunks bs' m' m'' -> mchunks (bs ++ bs') m m''.

Lemma mchunks_app bs bs' m m' m'' : mchunks bs m m' -> mchunks bs' m' m'' -> mchunks (bs ++ bs') m m''.
Proof.
  induction 1; intros; [done|]. rewrite <-app_assoc. eapply mchunks_cons; eauto.
Qed.

Lemma chunks_mchunks f bs m m' : f ∈ ml_fields L -> chunks (lf_field f) bs m m' -> mchunks bs m m'.
Proof. induction 2; econstructor; eauto. Qed.

Lemma unmarshal_mchunks bs m m' : mchunks bs m m' -> forall pre fuel,
  small (pre ++ bs) -> (length bs <= fuel)%nat ->
  unmarshal_loop s fuel (pre ++ bs) (len pre) m = Ok m'.
Proof.
  induction 1 as [m|f bs bs' m m' m'' Hf Hch _ IH]; intros pre fuel Hs Hfuel.
  - rewrite app_nil_r. destruct fuel; simpl; destruct (Z.ltb_spec (len pre) (len pre)); try lia;
      destruct (Z.gtb_spec (len pre) (len pre)); by try lia.
  - destruct Hch as [Hne Hch]. destruct (Hch pre bs') as (wire & i & H1 & H2 & H3 & H4); [done|].
    assert (0 < length bs)%nat by (destruct bs; [done|simpl; lia]). rewrite length_app in Hfuel.
    destruct fuel as [|fuel]; [lia|]. cbn [unmarshal_loop].
    destruct (Z.ltb_spec (len pre) (len (pre ++ bs ++ bs'))) as [_|Hge];
      [|rewrite !len_app in Hge; unfold len in Hge; lia].
    unfold unmarshal_step. rewrite H1. cbn [mbind outcome_bind]. rewrite H2.
    destruct (Z.eqb_spec (Z.land wire 7) 4); [done|].
    pose proof (lf_num f). destruct (Z.leb_spec (f_num (lf_field f)) 0); [lia|].
    rewrite find_field_num; [| exact (ml_nodup s L) | rewrite (ml_eq s L); by apply list_elem_of_fmap_2].
    rewrite H4. cbn [mbind outcome_bind]. rewrite app_assoc in Hs |- *. rewrite <-len_app. apply IH; [done|lia].
Qed.

Lemma fields_chunks fs src dst :
  fs ⊆ ml_fields L -> ForallOrdPairs (fun f g => forall src dst,
    lf_unset g dst -> lf_unset g (lf_copy f src dst)) fs ->
  Forall (fun f => lf_valid f src) fs -> Forall (fun f => lf_known f src) fs ->
  Forall (fun f => lf_unset f dst) fs -> small (fields_enc fs src) ->
  mchunks (fields_enc fs src) dst (foldl (fun dst f => lf_copy f src dst) dst fs).
Proof.
  intros Hsub Hind. revert dst. induction Hind as [|f fs Hf _ IH]; intros dst Hv Hk Hu Hs; [constructor|].
  apply Forall_cons in Hv as [Hv1 Hv2]. apply Forall_cons in Hk as [Hk1 Hk2].
  apply Forall_cons in Hu as [Hu1 Hu2].
  unfold fields_enc in *. cbn [fmap list_fmap foldl concat] in *. apply small_app in Hs as [Hs1 Hs2].
  eapply mchunks_app; [apply (chunks_mchunks f); [set_solver|by apply (lf_read f)]|].
  apply IH; [set_solver|done|done| |done].
  apply Forall_forall. intros g Hg. rewrite List.Forall_forall in Hf.
  apply (Hf g); [by apply list_elem_of_In|]. rewrite Forall_forall in Hu2. by apply Hu2.
Qed.

(** [Unmarshal] into an empty message inverts the encoding. *)
Lemma Unmarshal_enc m : valid m -> known m -> small (enc m) -> Unmarshal s (enc m) (s_zero s) = Ok m.
Proof.
  intros Hv [Hu Hk] Hs. unfold Unmarshal, enc in *. rewrite Hu, app_nil_r in *.
  pose proof (fields_chunks (ml_fields L) m (s_zero s) ltac:(done) (ml_indep s L) Hv Hk (ml_zero s L) Hs) as H.
  rewrite (ml_fold s L m Hu) in H. by apply (unmarshal_mchunks _ _ _ H []).
Qed.

(** ** Totality of [Unmarshal] *)

Lemma unmarshal_step_safe dAtA i m : small dAtA -> 0 <= i < len dAtA ->
  safe (fun r => i < r.2 <= len dAtA) (unmarshal_step s dAtA i m).
Proof.
  intros Hs Hi. unfold unmarshal_step.
  eapply safe_bind; [apply read_varint_safe; [apply _|apply u64_idem|done|lia]|].
  intros [wire j] [_ Hj]. cbn [fst snd] in *. destruct (_ =? 4); [done|]. destruct (_ <=? 0); [done|].
  destruct (find_field _ _) as [f|] eqn:Ef.
  - apply find_field_elem in Ef. rewrite (ml_eq s L) in Ef. apply list_elem_of_fmap in Ef as (lf & -> & _).
    eapply safe_weaken; [apply (lf_safe lf); [done|lia]|]. simpl. lia.
  - destruct (slice_safe dAtA i (len dAtA)) as (rest & -> & Hrest); [lia|lia|]. cbn [mbind outcome_bind].
    unfold small in *. eapply safe_bind; [apply skip_safe; unfold small; lia|]. intros k Hk. cbv beta in Hk.
    destruct (Z.ltb_spec k 0); [lia|]. cbn [orb]. destruct (Z.ltb_spec (i64 (i + k)) 0); [done|].
    destruct (i64_add_cases i k) as [[-> Hb]|]; [lia|lia| |lia].
    destruct (Z.gtb_spec (i + k) (len dAtA)); [done|].
    destruct (slice_safe dAtA i (i + k)) as (u & -> & _); [lia|lia|]. simpl. lia.
Qed.

Lemma unmarshal_loop_safe fuel dAtA i m : small dAtA -> 0 <= i -> len dAtA - i <= Z.of_nat fuel ->
  safe (fun _ => True) (unmarshal_loop s fuel dAtA i m).
Proof.
  intros Hs. revert i m. induction fuel as [|fuel IH]; intros i m Hi Hf; cbn [unmarshal_loop];
    destruct (Z.ltb_spec i (len dAtA)); try lia; try (by destruct (i >? _)).
  eapply safe_bind; [by apply unmarshal_step_safe|]. intros [m' j] Hj. simpl in Hj. apply IH; lia.
Qed.

Lemma Unmarshal_safe dAtA m : small dAtA -> safe (fun _ => True) (Unmarshal s dAtA m).
Proof. intros Hs. apply unmarshal_loop_safe; [done|lia|unfold len; lia]. Qed.

Lemma codec_of_laws : codec_laws (codec_of s) valid known enc.
Proof.
  split; simpl.
  - apply Size_enc.
  - intros. by apply MarshalToSizedBuffer_enc.
  - apply Unmarshal_enc.
  - apply Unmarshal_safe.
Qed.
End MessageLaws.

(** * Instances

    The laws are found from the shape of a schema. *)

Class LawfulCodec {N} (c : codec N) := {
  lc_valid : N -> Prop;
  lc_known : N -> Prop;
  lc_enc : N -> bytes;
  lc_laws : codec_laws c lc_valid lc_known lc_enc;
}.

Existing Class mlaws.

#[export] Instance codec_of_lawful {M} (s : schema M) `{L : !mlaws s} : LawfulCodec (codec_of s) :=
  {| lc_laws := codec_of_laws s L |}.

Lemma raw_codec_laws : codec_laws raw_codec (fun _ => True) (fun _ => True) id.
Proof.
  split; try done. intros p dAtA _ _ Hl. simpl.
  pose proof (put_bytes_appends p dAtA [] Hl) as H. rewrite app_nil_r in H.
  rewrite H. simpl. by rewrite app_nil_r.
Qed.

#[export] Instance raw_codec_lawful : LawfulCodec raw_codec := {| lc_laws := raw_codec_laws |}.

Class LawfulField {M} (f : field M) := { the_lfield : lfield M }.

(** Conversions to the integer types of fields. *)
Class FieldConv (conv : Z -> Z) : Prop := {
  fc_conv :: Conv conv;
  fc_u64 : forall z, conv (u64 z) = conv z;
  fc_idem : forall z, conv (conv z) = conv z;
  fc_zero : conv 0 = 0;
}.

Lemma i32_u64 z : i32 (u64 z) = i32 z.
Proof.
  unfold i32, u64. f_equal. change (2 ^ 64) with (2 ^ 32 * 2 ^ 32).
  rewrite Z.rem_mul_r by lia. rewrite Z.mul_comm, <-Z.add_assoc, (Z.add_comm (_ * 2 ^ 32)), Z.add_assoc.
  rewrite Z.mod_add by lia. apply Z.add_mod_idemp_l. lia.
Qed.

#[export] Instance u64_field_conv : FieldConv u64.
Proof. split; [apply _|apply u64_idem|apply u64_idem|done]. Qed.

#[export] Instance u32_field_conv : FieldConv u32.
Proof.
  split; [apply _| | |done]; intros z; unfold u32, u64; [|apply Z.mod_mod; lia].
  change (2 ^ 64) with (2 ^ 32 * 2 ^ 32). rewrite Z.rem_mul_r by lia.
  rewrite Z.mul_comm, Z.mod_add by lia. apply Z.mod_mod. lia.
Qed.

#[export] Instance i32_field_conv : FieldConv i32.
Proof.
  split; [apply _|apply i32_u64| |done]. intros z. apply i32_small. unfold i32.
  pose proof (Z.mod_pos_bound (z + 2 ^ 31) (2 ^ 32) ltac:(lia)). lia.
Qed.

Class FieldNum (num : Z) : Prop := field_num : 0 < num < 2 ^ 11.

#[export] Hint Extern 1 (FieldNum _) => (unfold FieldNum; lia) : typeclass_instances.

#[export] Hint Extern 1 (Lens _ _) =>
  (split; [intros ? []|intros []|intros ? ? []]; reflexivity) : typeclass_instances.

#[export] Instance bytes_field_lawful {M} num (get : M -> bytes) set `{!FieldNum num, !Lens get set} :
  LawfulField (bytes_field num get set) :=
  {| the_lfield := bytes_lfield num get set field_num |}.

#[export] Instance varint_field_lawful {M} num conv (get : M -> Z) set
    `{!FieldNum num, !FieldConv conv, !Lens get set} : LawfulField (varint_field num conv get set) :=
  {| the_lfield := varint_lfield num conv get set fc_u64 fc_idem fc_zero field_num |}.

#[export] Instance msg_field_lawful {M N} (c : codec N) num (get : M -> option N) set
    `{!LawfulCodec c, !FieldNum num, !Lens get set} : LawfulField (msg_field c num get set) :=
  {| the_lfield := msg_lfield c _ _ _ lc_laws num field_num get set |}.

#[export] Instance rep_field_lawful {M N} (c : codec N) num (get : M -> list N) set
    `{!LawfulCodec c, !FieldNum num, !Lens get set} : LawfulField (rep_field c num get set) :=
  {| the_lfield := rep_lfield c _ _ _ lc_laws num field_num get set |}.

Class LawfulFields {M} (fs : list (field M)) := { the_lfields : list (lfield M) }.

#[export] Instance lawful_nil {M} : LawfulFields (M:=M) [] := {| the_lfields := [] |}.

#[export] Instance lawful_cons {M} (f : field M) fs `{Lf : !LawfulField f, Lfs : !LawfulFields fs} :
  LawfulFields (f :: fs) :=
  {| the_lfields := the_lfield :: the_lfields |}.

(** Build the laws of a schema: the fields' laws by instance search, checked to
    be those of the schema's fields, and the rest by computation. *)
Ltac solve_mlaws s :=
  let fs := eval hnf in (s_fields s) in
  let L := constr:(_ : LawfulFields fs) in
  let lfs := eval cbv [the_lfields lawful_cons lawful_nil the_lfield bytes_field_lawful
    varint_field_lawful msg_field_lawful rep_field_lawful] in (@the_lfields _ _ L) in
  refine (@mkMLaws _ s lfs eq_refl _ _ _ _);
  [ apply (bool_decide_unpack _); vm_compute; exact I
  | repeat (apply Forall_cons; split; [reflexivity|]); apply Forall_nil; exact I
  | repeat (apply FOP_cons;
      [repeat (apply List.Forall_cons; [intros [] []; simpl; auto|]); apply List.Forall_nil|]);
    apply FOP_nil
  | intros []; simpl; intros; subst; reflexivity ].

End Wire.
