(* ===== verification/TxMessages.v ===== *)
(** The protobuf messages of transactions, as schemas of the wire code of
    [Wire]: [src/transaction/basic/transaction.pb.go],
    [src/transaction/universal/universal.pb.go] and
    [src/transaction_pool/message_txpool.pb.go].  Each module has the message's
    struct as the record [t] and its generated methods; the laws of the schema
    give the round trip and totality for the message. *)
From Stdlib Require Import ZArith Lia Strings.Byte.
From stdpp Require Import base gmap list strings sorting.
From S2P Require Import Prelude Wire.
Import Wire.
#[local] Open Scope Z_scope.

(** * Transactions and their results *)

Module TransactionHead.
Record t := mk {
  Category : bytes;
  ChainID : bytes;
  Version : Z;
  TimeStamp : Z;
  Index : Z;
  FromAddr : bytes;
  Nonce : Z;
  Signature : bytes;
  XXX_unrecognized : bytes;
}.

Definition desc : schema t :=
  mkSchema (mk [] [] 0 0 0 [] 0 [] [])
    [ bytes_field 1 Category
        (fun v '(mk _ b c d e f g h u) => mk v b c d e f g h u);
      bytes_field 2 ChainID
        (fun v '(mk a _ c d e f g h u) => mk a v c d e f g h u);
      varint_field 3 u32 Version
        (fun v '(mk a b _ d e f g h u) => mk a b v d e f g h u);
      varint_field 4 u64 TimeStamp
        (fun v '(mk a b c _ e f g h u) => mk a b c v e f g h u);
      varint_field 5 u64 Index
        (fun v '(mk a b c d _ f g h u) => mk a b c d v f g h u);
      bytes_field 6 FromAddr
        (fun v '(mk a b c d e _ g h u) => mk a b c d e v g h u);
      varint_field 7 u64 Nonce
        (fun v '(mk a b c d e f _ h u) => mk a b c d e f v h u);
      bytes_field 8 Signature
        (fun v '(mk a b c d e f g _ u) => mk a b c d e f g v u) ]
    XXX_unrecognized
    (fun v '(mk a b c d e f g h _) => mk a b c d e f g h v).

#[global] Instance laws : mlaws desc.
Proof. solve_mlaws desc. Defined.

Definition Size : t -> Z := Wire.Size desc.
Definition MarshalToSizedBuffer : t -> bytes -> go (bytes * Z) := Wire.MarshalToSizedBuffer desc.
Definition Marshal : t -> go bytes := Wire.Marshal desc.
Definition Unmarshal : bytes -> t -> decoded t := Wire.Unmarshal desc.
End TransactionHead.

Module TransactionData.
Record t := mk {
  Specification : bytes;
  XXX_unrecognized : bytes;
}.

Definition desc : schema t :=
  mkSchema (mk [] [])
    [ bytes_field 1 Specification
        (fun v '(mk _ u) => mk v u) ]
    XXX_unrecognized
    (fun v '(mk a _) => mk a v).

#[global] Instance laws : mlaws desc.
Proof. solve_mlaws desc. Defined.

Definition Size : t -> Z := Wire.Size desc.
Definition MarshalToSizedBuffer : t -> bytes -> go (bytes * Z) := Wire.MarshalToSizedBuffer desc.
Definition Marshal : t -> go bytes := Wire.Marshal desc.
Definition Unmarshal : bytes -> t -> decoded t := Wire.Unmarshal desc.
End TransactionData.

Module Transaction.
Record t := mk {
  Head : option TransactionHead.t;
  Data : option TransactionData.t;
  XXX_unrecognized : bytes;
}.

Definition desc : schema t :=
  mkSchema (mk None None [])
    [ msg_field (codec_of TransactionHead.desc) 1 Head
        (fun v '(mk _ b u) => mk v b u);
      msg_field (codec_of TransactionData.desc) 2 Data
        (fun v '(mk a _ u) => mk a v u) ]
    XXX_unrecognized
    (fun v '(mk a b _) => mk a b v).

#[global] Instance laws : mlaws desc.
Proof. solve_mlaws desc. Defined.

Definition Size : t -> Z := Wire.Size desc.
Definition MarshalToSizedBuffer : t -> bytes -> go (bytes * Z) := Wire.MarshalToSizedBuffer desc.
Definition Marshal : t -> go bytes := Wire.Marshal desc.
Definition Unmarshal : bytes -> t -> decoded t := Wire.Unmarshal desc.
End Transaction.

Module TransactionResultHead.
Record t := mk {
  Category : bytes;
  ChainID : bytes;
  Version : Z;
  XXX_unrecognized : bytes;
}.

Definition desc : schema t :=
  mkSchema (mk [] [] 0 [])
    [ bytes_field 1 Category
        (fun v '(mk _ b c u) => mk v b c u);
      bytes_field 2 ChainID
        (fun v '(mk a _ c u) => mk a v c u);
      varint_field 3 u32 Version
        (fun v '(mk a b _ u) => mk a b v u) ]
    XXX_unrecognized
    (fun v '(mk a b c _) => mk a b c v).

#[global] Instance laws : mlaws desc.
Proof. solve_mlaws desc. Defined.

Definition Size : t -> Z := Wire.Size desc.
Definition MarshalToSizedBuffer : t -> bytes -> go (bytes * Z) := Wire.MarshalToSizedBuffer desc.
Definition Marshal : t -> go bytes := Wire.Marshal desc.
Definition Unmarshal : bytes -> t -> decoded t := Wire.Unmarshal desc.
End TransactionResultHead.

Module TransactionResultData.
Record t := mk {
  Specification : bytes;
  XXX_unrecognized : bytes;
}.

Definition desc : schema t :=
  mkSchema (mk [] [])
    [ bytes_field 1 Specification
        (fun v '(mk _ u) => mk v u) ]
    XXX_unrecognized
    (fun v '(mk a _) => mk a v).

#[global] Instance laws : mlaws desc.
Proof. solve_mlaws desc. Defined.

Definition Size : t -> Z := Wire.Size desc.
Definition MarshalToSizedBuffer : t -> bytes -> go (bytes * Z) := Wire.MarshalToSizedBuffer desc.
Definition Marshal : t -> go bytes := Wire.Marshal desc.
Definition Unmarshal : bytes -> t -> decoded t := Wire.Unmarshal desc.
End TransactionResultData.

Module TransactionResult.
Record t := mk {
  Head : option TransactionResultHead.t;
  Data : option TransactionResultData.t;
  XXX_unrecognized : bytes;
}.

Definition desc : schema t :=
  mkSchema (mk None None [])
    [ msg_field (codec_of TransactionResultHead.desc) 1 Head
        (fun v '(mk _ b u) => mk v b u);
      msg_field (codec_of TransactionResultData.desc) 2 Data
        (fun v '(mk a _ u) => mk a v u) ]
    XXX_unrecognized
    (fun v '(mk a b _) => mk a b v).

#[global] Instance laws : mlaws desc.
Proof. solve_mlaws desc. Defined.

Definition Size : t -> Z := Wire.Size desc.
Definition MarshalToSizedBuffer : t -> bytes -> go (bytes * Z) := Wire.MarshalToSizedBuffer desc.
Definition Marshal : t -> go bytes := Wire.Marshal desc.
Definition Unmarshal : bytes -> t -> decoded t := Wire.Unmarshal desc.
End TransactionResult.

Module PubSubMessageTxs.
Record t := mk {
  Txs : list Transaction.t;
  XXX_unrecognized : bytes;
}.

Definition desc : schema t :=
  mkSchema (mk [] [])
    [ rep_field (codec_of Transaction.desc) 1 Txs
        (fun v '(mk _ u) => mk v u) ]
    XXX_unrecognized
    (fun v '(mk a _) => mk a v).

#[global] Instance laws : mlaws desc.
Proof. solve_mlaws desc. Defined.

Definition Size : t -> Z := Wire.Size desc.
Definition MarshalToSizedBuffer : t -> bytes -> go (bytes * Z) := Wire.MarshalToSizedBuffer desc.
Definition Marshal : t -> go bytes := Wire.Marshal desc.
Definition Unmarshal : bytes -> t -> decoded t := Wire.Unmarshal desc.
End PubSubMessageTxs.

(** * Universal transactions *)

Module TransactionUniversalHead.
Record t := mk {
  Version : Z;
  FeePayer : bytes;
  GasPrice : Z;
  GasLimit : Z;
  Type_ : Z;
  FeePayerSignature : bytes;
  Options : Z;
  XXX_unrecognized : bytes;
}.

Definition desc : schema t :=
  mkSchema (mk 0 [] 0 0 0 [] 0 [])
    [ varint_field 1 u32 Version
        (fun v '(mk _ b c d e f g u) => mk v b c d e f g u);
      bytes_field 2 FeePayer
        (fun v '(mk a _ c d e f g u) => mk a v c d e f g u);
      varint_field 3 u64 GasPrice
        (fun v '(mk a b _ d e f g u) => mk a b v d e f g u);
      varint_field 4 u64 GasLimit
        (fun v '(mk a b c _ e f g u) => mk a b c v e f g u);
      varint_field 5 u32 Type_
        (fun v '(mk a b c d _ f g u) => mk a b c d v f g u);
      bytes_field 6 FeePayerSignature
        (fun v '(mk a b c d e _ g u) => mk a b c d e v g u);
      varint_field 7 u32 Options
        (fun v '(mk a b c d e f _ u) => mk a b c d e f v u) ]
    XXX_unrecognized
    (fun v '(mk a b c d e f g _) => mk a b c d e f g v).

#[global] Instance laws : mlaws desc.
Proof. solve_mlaws desc. Defined.

Definition Size : t -> Z := Wire.Size desc.
Definition MarshalToSizedBuffer : t -> bytes -> go (bytes * Z) := Wire.MarshalToSizedBuffer desc.
Definition Marshal : t -> go bytes := Wire.Marshal desc.
Definition Unmarshal : bytes -> t -> decoded t := Wire.Unmarshal desc.
End TransactionUniversalHead.

Module TransactionUniversalData.
Record t := mk {
  Specification : bytes;
  XXX_unrecognized : bytes;
}.

Definition desc : schema t :=
  mkSchema (mk [] [])
    [ bytes_field 1 Specification
        (fun v '(mk _ u) => mk v u) ]
    XXX_unrecognized
    (fun v '(mk a _) => mk a v).

#[global] Instance laws : mlaws desc.
Proof. solve_mlaws desc. Defined.

Definition Size : t -> Z := Wire.Size desc.
Definition MarshalToSizedBuffer : t -> bytes -> go (bytes * Z) := Wire.MarshalToSizedBuffer desc.
Definition Marshal : t -> go bytes := Wire.Marshal desc.
Definition Unmarshal : bytes -> t -> decoded t := Wire.Unmarshal desc.
End TransactionUniversalData.

Module TransactionUniversal.
Record t := mk {
  Head : option TransactionUniversalHead.t;
  Data : option TransactionUniversalData.t;
  XXX_unrecognized : bytes;
}.

Definition desc : schema t :=
  mkSchema (mk None None [])
    [ msg_field (codec_of TransactionUniversalHead.desc) 1 Head
        (fun v '(mk _ b u) => mk v b u);
      msg_field (codec_of TransactionUniversalData.desc) 2 Data
        (fun v '(mk a _ u) => mk a v u) ]
    XXX_unrecognized
    (fun v '(mk a b _) => mk a b v).

#[global] Instance laws : mlaws desc.
Proof. solve_mlaws desc. Defined.

Definition Size : t -> Z := Wire.Size desc.
Definition MarshalToSizedBuffer : t -> bytes -> go (bytes * Z) := Wire.MarshalToSizedBuffer desc.
Definition Marshal : t -> go bytes := Wire.Marshal desc.
Definition Unmarshal : bytes -> t -> decoded t := Wire.Unmarshal desc.
End TransactionUniversal.

Module TransactionResultUniversal.
Record t := mk {
  Version : Z;
  TxHash : bytes;
  GasUsed : Z;
  ErrString : bytes;
  Status : Z;
  Data : bytes;
  XXX_unrecognized : bytes;
}.

Definition desc : schema t :=
  mkSchema (mk 0 [] 0 [] 0 [] [])
    [ varint_field 1 u32 Version
        (fun v '(mk _ b c d e f u) => mk v b c d e f u);
      bytes_field 2 TxHash
        (fun v '(mk a _ c d e f u) => mk a v c d e f u);
      varint_field 3 u64 GasUsed
        (fun v '(mk a b _ d e f u) => mk a b v d e f u);
      bytes_field 4 ErrString
        (fun v '(mk a b c _ e f u) => mk a b c v e f u);
      varint_field 5 i32 Status
        (fun v '(mk a b c d _ f u) => mk a b c d v f u);
      bytes_field 6 Data
        (fun v '(mk a b c d e _ u) => mk a b c d e v u) ]
    XXX_unrecognized
    (fun v '(mk a b c d e f _) => mk a b c d e f v).

#[global] Instance laws : mlaws desc.
Proof. solve_mlaws desc. Defined.

Definition Size : t -> Z := Wire.Size desc.
Definition MarshalToSizedBuffer : t -> bytes -> go (bytes * Z) := Wire.MarshalToSizedBuffer desc.
Definition Marshal : t -> go bytes := Wire.Marshal desc.
Definition Unmarshal : bytes -> t -> decoded t := Wire.Unmarshal desc.
End TransactionResultUniversal.

(** * Messages of the transaction pool *)

Module TxPoolMessage.
Record t := mk {
  MsgType : Z;
  FromDomain : bytes;
  FromNode : bytes;
  Data : bytes;
  XXX_unrecognized : bytes;
}.

Definition desc : schema t :=
  mkSchema (mk 0 [] [] [] [])
    [ varint_field 1 i32 MsgType
        (fun v '(mk _ b c d u) => mk v b c d u);
      bytes_field 2 FromDomain
        (fun v '(mk a _ c d u) => mk a v c d u);
      bytes_field 3 FromNode
        (fun v '(mk a b _ d u) => mk a b v d u);
      bytes_field 4 Data
        (fun v '(mk a b c _ u) => mk a b c v u) ]
    XXX_unrecognized
    (fun v '(mk a b c d _) => mk a b c d v).

#[global] Instance laws : mlaws desc.
Proof. solve_mlaws desc. Defined.

Definition Size : t -> Z := Wire.Size desc.
Definition MarshalToSizedBuffer : t -> bytes -> go (bytes * Z) := Wire.MarshalToSizedBuffer desc.
Definition Marshal : t -> go bytes := Wire.Marshal desc.
Definition Unmarshal : bytes -> t -> decoded t := Wire.Unmarshal desc.
End TxPoolMessage.

Module TxMessage.
Record t := mk {
  Data : bytes;
  XXX_unrecognized : bytes;
}.

Definition desc : schema t :=
  mkSchema (mk [] [])
    [ bytes_field 1 Data
        (fun v '(mk _ u) => mk v u) ]
    XXX_unrecognized
    (fun v '(mk a _) => mk a v).

#[global] Instance laws : mlaws desc.
Proof. solve_mlaws desc. Defined.

Definition Size : t -> Z := Wire.Size desc.
Definition MarshalToSizedBuffer : t -> bytes -> go (bytes * Z) := Wire.MarshalToSizedBuffer desc.
Definition Marshal : t -> go bytes := Wire.Marshal desc.
Definition Unmarshal : bytes -> t -> decoded t := Wire.Unmarshal desc.
End TxMessage.

