(* ===== verification/ChainMessages.v ===== *)
(** The protobuf messages of blocks and block results
    ([src/chain/types/block.pb.go]), as schemas of the wire code of [Wire]. *)
From Stdlib Require Import ZArith Lia Strings.Byte.
From stdpp Require Import base gmap list strings sorting.
From S2P Require Import Prelude Wire.
Import Wire.
#[local] Open Scope Z_scope.

(** * Blocks *)

Module ConsensusProof.
Record t := mk {
  ParentBlockHash : bytes;
  Height : Z;
  AggSign : bytes;
  XXX_unrecognized : bytes;
}.

Definition desc : schema t :=
  mkSchema (mk [] 0 [] [])
    [ bytes_field 1 ParentBlockHash
        (fun v '(mk _ b c u) => mk v b c u);
      varint_field 2 u64 Height
        (fun v '(mk a _ c u) => mk a v c u);
      bytes_field 3 AggSign
        (fun v '(mk a b _ u) => mk a b v u) ]
    XXX_unrecognized
    (fun v '(mk a b c _) => mk a b c v).

#[global] Instance laws : mlaws desc.
Proof. solve_mlaws desc. Defined.

Definition Size : t -> Z := Wire.Size desc.
Definition MarshalToSizedBuffer : t -> bytes -> go (bytes * Z) := Wire.MarshalToSizedBuffer desc.
Definition Marshal : t -> go bytes := Wire.Marshal desc.
Definition Unmarshal : bytes -> t -> decoded t := Wire.Unmarshal desc.
End ConsensusProof.

Module BlockHeadChunk.
Record t := mk {
  Version : Z;
  DomainID : bytes;
  Launcher : bytes;
  TxCount : Z;
  TxRoot : bytes;
  TxResultRoot : bytes;
  XXX_unrecognized : bytes;
}.

Definition desc : schema t :=
  mkSchema (mk 0 [] [] 0 [] [] [])
    [ varint_field 1 u32 Version
        (fun v '(mk _ b c d e f u) => mk v b c d e f u);
      bytes_field 2 DomainID
        (fun v '(mk a _ c d e f u) => mk a v c d e f u);
      bytes_field 3 Launcher
        (fun v '(mk a b _ d e f u) => mk a b v d e f u);
      varint_field 4 u32 TxCount
        (fun v '(mk a b c _ e f u) => mk a b c v e f u);
      bytes_field 5 TxRoot
        (fun v '(mk a b c d _ f u) => mk a b c d v f u);
      bytes_field 6 TxResultRoot
        (fun v '(mk a b c d e _ u) => mk a b c d e v u) ]
    XXX_unrecognized
    (fun v '(mk a b c d e f _) => mk a b c d e f v).

#[global] Instance laws : mlaws desc.
Proof. solve_mlaws desc. Defined.

Definition Size : t -> Z := Wire.Size desc.
Definition MarshalToSizedBuffer : t -> bytes -> go (bytes * Z) := Wire.MarshalToSizedBuffer desc.
Definition Marshal : t -> go bytes := Wire.Marshal desc.
Definition Unmarshal : bytes -> t -> decoded t := Wire.Unmarshal desc.
End BlockHeadChunk.

Module BlockDataChunk.
Record t := mk {
  Version : Z;
  RefIndex : Z;
  Txs : list bytes;
  XXX_unrecognized : bytes;
}.

Definition desc : schema t :=
  mkSchema (mk 0 0 [] [])
    [ varint_field 1 u32 Version
        (fun v '(mk _ b c u) => mk v b c u);
      varint_field 2 u32 RefIndex
        (fun v '(mk a _ c u) => mk a v c u);
      rep_field raw_codec 3 Txs
        (fun v '(mk a b _ u) => mk a b v u) ]
    XXX_unrecognized
    (fun v '(mk a b c _) => mk a b c v).

#[global] Instance laws : mlaws desc.
Proof. solve_mlaws desc. Defined.

Definition Size : t -> Z := Wire.Size desc.
Definition MarshalToSizedBuffer : t -> bytes -> go (bytes * Z) := Wire.MarshalToSizedBuffer desc.
Definition Marshal : t -> go bytes := Wire.Marshal desc.
Definition Unmarshal : bytes -> t -> decoded t := Wire.Unmarshal desc.
End BlockDataChunk.

Module BlockHead.
Record t := mk {
  ChainID : bytes;
  Version : Z;
  Height : Z;
  Epoch : Z;
  Round : Z;
  ParentBlockHash : bytes;
  Proposer : bytes;
  Proof : bytes;
  VRFProof : bytes;
  VRFProofHeight : Z;
  MaxPri : bytes;
  VoteAggSignature : bytes;
  ChunkCount : Z;
  HeadChunks : list bytes;
  StateRoot : bytes;
  GasFees : bytes;
  TimeStamp : Z;
  ElapsedSpan : Z;
  Hash : bytes;
  Reserved : bytes;
  XXX_unrecognized : bytes;
}.

Definition desc : schema t :=
  mkSchema (mk [] 0 0 0 0 [] [] [] [] 0 [] [] 0 [] [] [] 0 0 [] [] [])
    [ bytes_field 1 ChainID
        (fun v '(mk _ b c d e f g h i j k l m n o p q r s t u) => mk v b c d e f g h i j k l m n o p q r s t u);
      varint_field 2 u32 Version
        (fun v '(mk a _ c d e f g h i j k l m n o p q r s t u) => mk a v c d e f g h i j k l m n o p q r s t u);
      varint_field 3 u64 Height
        (fun v '(mk a b _ d e f g h i j k l m n o p q r s t u) => mk a b v d e f g h i j k l m n o p q r s t u);
      varint_field 4 u64 Epoch
        (fun v '(mk a b c _ e f g h i j k l m n o p q r s t u) => mk a b c v e f g h i j k l m n o p q r s t u);
      varint_field 5 u64 Round
        (fun v '(mk a b c d _ f g h i j k l m n o p q r s t u) => mk a b c d v f g h i j k l m n o p q r s t u);
      bytes_field 6 ParentBlockHash
        (fun v '(mk a b c d e _ g h i j k l m n o p q r s t u) => mk a b c d e v g h i j k l m n o p q r s t u);
      bytes_field 7 Proposer
        (fun v '(mk a b c d e f _ h i j k l m n o p q r s t u) => mk a b c d e f v h i j k l m n o p q r s t u);
      bytes_field 8 Proof
        (fun v '(mk a b c d e f g _ i j k l m n o p q r s t u) => mk a b c d e f g v i j k l m n o p q r s t u);
      bytes_field 9 VRFProof
        (fun v '(mk a b c d e f g h _ j k l m n o p q r s t u) => mk a b c d e f g h v j k l m n o p q r s t u);
      varint_field 10 u64 VRFProofHeight
        (fun v '(mk a b c d e f g h i _ k l m n o p q r s t u) => mk a b c d e f g h i v k l m n o p q r s t u);
      bytes_field 11 MaxPri
        (fun v '(mk a b c d e f g h i j _ l m n o p q r s t u) => mk a b c d e f g h i j v l m n o p q r s t u);
      bytes_field 12 VoteAggSignature
        (fun v '(mk a b c d e f g h i j k _ m n o p q r s t u) => mk a b c d e f g h i j k v m n o p q r s t u);
      varint_field 13 u32 ChunkCount
        (fun v '(mk a b c d e f g h i j k l _ n o p q r s t u) => mk a b c d e f g h i j k l v n o p q r s t u);
      rep_field raw_codec 14 HeadChunks
        (fun v '(mk a b c d e f g h i j k l m _ o p q r s t u) => mk a b c d e f g h i j k l m v o p q r s t u);
      bytes_field 15 StateRoot
        (fun v '(mk a b c d e f g h i j k l m n _ p q r s t u) => mk a b c d e f g h i j k l m n v p q r s t u);
      bytes_field 16 GasFees
        (fun v '(mk a b c d e f g h i j k l m n o _ q r s t u) => mk a b c d e f g h i j k l m n o v q r s t u);
      varint_field 17 u64 TimeStamp
        (fun v '(mk a b c d e f g h i j k l m n o p _ r s t u) => mk a b c d e f g h i j k l m n o p v r s t u);
      varint_field 18 u64 ElapsedSpan
        (fun v '(mk a b c d e f g h i j k l m n o p q _ s t u) => mk a b c d e f g h i j k l m n o p q v s t u);
      bytes_field 19 Hash
        (fun v '(mk a b c d e f g h i j k l m n o p q r _ t u) => mk a b c d e f g h i j k l m n o p q r v t u);
      bytes_field 20 Reserved
        (fun v '(mk a b c d e f g h i j k l m n o p q r s _ u) => mk a b c d e f g h i j k l m n o p q r s v u) ]
    XXX_unrecognized
    (fun v '(mk a b c d e f g h i j k l m n o p q r s t _) => mk a b c d e f g h i j k l m n o p q r s t v).

#[global] Instance laws : mlaws desc.
Proof. solve_mlaws desc. Defined.

Definition Size : t -> Z := Wire.Size desc.
Definition MarshalToSizedBuffer : t -> bytes -> go (bytes * Z) := Wire.MarshalToSizedBuffer desc.
Definition Marshal : t -> go bytes := Wire.Marshal desc.
Definition Unmarshal : bytes -> t -> decoded t := Wire.Unmarshal desc.
End BlockHead.

Module BlockData.
Record t := mk {
  Version : Z;
  DataChunks : list bytes;
  XXX_unrecognized : bytes;
}.

Definition desc : schema t :=
  mkSchema (mk 0 [] [])
    [ varint_field 1 u32 Version
        (fun v '(mk _ b u) => mk v b u);
      rep_field raw_codec 2 DataChunks
        (fun v '(mk a _ u) => mk a v u) ]
    XXX_unrecognized
    (fun v '(mk a b _) => mk a b v).

#[global] Instance laws : mlaws desc.
Proof. solve_mlaws desc. Defined.

Definition Size : t -> Z := Wire.Size desc.
Definition MarshalToSizedBuffer : t -> bytes -> go (bytes * Z) := Wire.MarshalToSizedBuffer desc.
Definition Marshal : t -> go bytes := Wire.Marshal desc.
Definition Unmarshal : bytes -> t -> decoded t := Wire.Unmarshal desc.
End BlockData.

Module Block.
Record t := mk {
  Head : option BlockHead.t;
  Data : option BlockData.t;
  XXX_unrecognized : bytes;
}.

Definition desc : schema t :=
  mkSchema (mk None None [])
    [ msg_field (codec_of BlockHead.desc) 1 Head
        (fun v '(mk _ b u) => mk v b u);
      msg_field (codec_of BlockData.desc) 2 Data
        (fun v '(mk a _ u) => mk a v u) ]
    XXX_unrecognized
    (fun v '(mk a b _) => mk a b v).

#[global] Instance laws : mlaws desc.
Proof. solve_mlaws desc. Defined.

Definition Size : t -> Z := Wire.Size desc.
Definition MarshalToSizedBuffer : t -> bytes -> go (bytes * Z) := Wire.MarshalToSizedBuffer desc.
Definition Marshal : t -> go bytes := Wire.Marshal desc.
Definition Unmarshal : bytes -> t -> decoded t := Wire.Unmarshal desc.
End Block.

Module BlockResultHeadChunk.
Record t := mk {
  Version : Z;
  RefIndex : Z;
  TxResultHashRoot : bytes;
  XXX_unrecognized : bytes;
}.

Definition desc : schema t :=
  mkSchema (mk 0 0 [] [])
    [ varint_field 1 u32 Version
        (fun v '(mk _ b c u) => mk v b c u);
      varint_field 2 u32 RefIndex
        (fun v '(mk a _ c u) => mk a v c u);
      bytes_field 3 TxResultHashRoot
        (fun v '(mk a b _ u) => mk a b v u) ]
    XXX_unrecognized
    (fun v '(mk a b c _) => mk a b c v).

#[global] Instance laws : mlaws desc.
Proof. solve_mlaws desc. Defined.

Definition Size : t -> Z := Wire.Size desc.
Definition MarshalToSizedBuffer : t -> bytes -> go (bytes * Z) := Wire.MarshalToSizedBuffer desc.
Definition Marshal : t -> go bytes := Wire.Marshal desc.
Definition Unmarshal : bytes -> t -> decoded t := Wire.Unmarshal desc.
End BlockResultHeadChunk.

Module BlockResultDataChunk.
Record t := mk {
  Version : Z;
  TxResults : list bytes;
  XXX_unrecognized : bytes;
}.

Definition desc : schema t :=
  mkSchema (mk 0 [] [])
    [ varint_field 1 u32 Version
        (fun v '(mk _ b u) => mk v b u);
      rep_field raw_codec 2 TxResults
        (fun v '(mk a _ u) => mk a v u) ]
    XXX_unrecognized
    (fun v '(mk a b _) => mk a b v).

#[global] Instance laws : mlaws desc.
Proof. solve_mlaws desc. Defined.

Definition Size : t -> Z := Wire.Size desc.
Definition MarshalToSizedBuffer : t -> bytes -> go (bytes * Z) := Wire.MarshalToSizedBuffer desc.
Definition Marshal : t -> go bytes := Wire.Marshal desc.
Definition Unmarshal : bytes -> t -> decoded t := Wire.Unmarshal desc.
End BlockResultDataChunk.

Module BlockResultHead.
Record t := mk {
  Version : Z;
  PrevBlockResult : bytes;
  BlockHash : bytes;
  ResultHeadChunks : list bytes;
  Status : Z;
  ErrMsg : bytes;
  Reserved : bytes;
  XXX_unrecognized : bytes;
}.

Definition desc : schema t :=
  mkSchema (mk 0 [] [] [] 0 [] [] [])
    [ varint_field 1 u32 Version
        (fun v '(mk _ b c d e f g u) => mk v b c d e f g u);
      bytes_field 2 PrevBlockResult
        (fun v '(mk a _ c d e f g u) => mk a v c d e f g u);
      bytes_field 3 BlockHash
        (fun v '(mk a b _ d e f g u) => mk a b v d e f g u);
      rep_field raw_codec 4 ResultHeadChunks
        (fun v '(mk a b c _ e f g u) => mk a b c v e f g u);
      varint_field 5 i32 Status
        (fun v '(mk a b c d _ f g u) => mk a b c d v f g u);
      bytes_field 6 ErrMsg
        (fun v '(mk a b c d e _ g u) => mk a b c d e v g u);
      bytes_field 7 Reserved
        (fun v '(mk a b c d e f _ u) => mk a b c d e f v u) ]
    XXX_unrecognized
    (fun v '(mk a b c d e f g _) => mk a b c d e f g v).

#[global] Instance laws : mlaws desc.
Proof. solve_mlaws desc. Defined.

Definition Size : t -> Z := Wire.Size desc.
Definition MarshalToSizedBuffer : t -> bytes -> go (bytes * Z) := Wire.MarshalToSizedBuffer desc.
Definition Marshal : t -> go bytes := Wire.Marshal desc.
Definition Unmarshal : bytes -> t -> decoded t := Wire.Unmarshal desc.
End BlockResultHead.

Module BlockResultData.
Record t := mk {
  Version : Z;
  ResultDataChunks : list bytes;
  XXX_unrecognized : bytes;
}.

Definition desc : schema t :=
  mkSchema (mk 0 [] [])
    [ varint_field 1 u32 Version
        (fun v '(mk _ b u) => mk v b u);
      rep_field raw_codec 2 ResultDataChunks
        (fun v '(mk a _ u) => mk a v u) ]
    XXX_unrecognized
    (fun v '(mk a b _) => mk a b v).

#[global] Instance laws : mlaws desc.
Proof. solve_mlaws desc. Defined.

Definition Size : t -> Z := Wire.Size desc.
Definition MarshalToSizedBuffer : t -> bytes -> go (bytes * Z) := Wire.MarshalToSizedBuffer desc.
Definition Marshal : t -> go bytes := Wire.Marshal desc.
Definition Unmarshal : bytes -> t -> decoded t := Wire.Unmarshal desc.
End BlockResultData.

Module BlockResult.
Record t := mk {
  Head : option BlockResultHead.t;
  Data : option BlockResultData.t;
  XXX_unrecognized : bytes;
}.

Definition desc : schema t :=
  mkSchema (mk None None [])
    [ msg_field (codec_of BlockResultHead.desc) 1 Head
        (fun v '(mk _ b u) => mk v b u);
      msg_field (codec_of BlockResultData.desc) 2 Data
        (fun v '(mk a _ u) => mk a v u) ]
    XXX_unrecognized
    (fun v '(mk a b _) => mk a b v).

#[global] Instance laws : mlaws desc.
Proof. solve_mlaws desc. Defined.

Definition Size : t -> Z := Wire.Size desc.
Definition MarshalToSizedBuffer : t -> bytes -> go (bytes * Z) := Wire.MarshalToSizedBuffer desc.
Definition Marshal : t -> go bytes := Wire.Marshal desc.
Definition Unmarshal : bytes -> t -> decoded t := Wire.Unmarshal desc.
End BlockResult.

Module PubSubMessageBlockInfo.
Record t := mk {
  Block : bytes;
  BlockResult : bytes;
  XXX_unrecognized : bytes;
}.

Definition desc : schema t :=
  mkSchema (mk [] [] [])
    [ bytes_field 1 Block
        (fun v '(mk _ b u) => mk v b u);
      bytes_field 2 BlockResult
        (fun v '(mk a _ u) => mk a v u) ]
    XXX_unrecognized
    (fun v '(mk a b _) => mk a b v).

#[global] Instance laws : mlaws desc.
Proof. solve_mlaws desc. Defined.

Definition Size : t -> Z := Wire.Size desc.
Definition MarshalToSizedBuffer : t -> bytes -> go (bytes * Z) := Wire.MarshalToSizedBuffer desc.
Definition Marshal : t -> go bytes := Wire.Marshal desc.
Definition Unmarshal : bytes -> t -> decoded t := Wire.Unmarshal desc.
End PubSubMessageBlockInfo.

Module ChainMessage.
Record t := mk {
  MsgType : Z;
  Data : bytes;
  XXX_unrecognized : bytes;
}.

Definition desc : schema t :=
  mkSchema (mk 0 [] [])
    [ varint_field 1 i32 MsgType
        (fun v '(mk _ b u) => mk v b u);
      bytes_field 2 Data
        (fun v '(mk a _ u) => mk a v u) ]
    XXX_unrecognized
    (fun v '(mk a b _) => mk a b v).

#[global] Instance laws : mlaws desc.
Proof. solve_mlaws desc. Defined.

Definition Size : t -> Z := Wire.Size desc.
Definition MarshalToSizedBuffer : t -> bytes -> go (bytes * Z) := Wire.MarshalToSizedBuffer desc.
Definition Marshal : t -> go bytes := Wire.Marshal desc.
Definition Unmarshal : bytes -> t -> decoded t := Wire.Unmarshal desc.
End ChainMessage.

