(* ===== verification/ConsMessages.v ===== *)
(** The protobuf messages of the consensus protocol
    ([src/consensus/message_cons.pb.go]), as schemas of the wire code of
    [Wire]. *)
From Stdlib Require Import ZArith Lia Strings.Byte.
From stdpp Require Import base gmap list strings sorting.
From S2P Require Import Prelude Wire.
Import Wire.
#[local] Open Scope Z_scope.

(** * Messages of the consensus *)

Module ConsensusMessage.
Record t := mk {
  MsgType : Z;
  Data : bytes;
  XXX_unrecognized : bytes;
}.

Definition desc : schema t :=
  mkSchema (mk 0 [] [])
    [ varint_field 1 i32 MsgType
        (fun v '(mk _ b u) => mk v b u);
      bytes_field 2 Data
        (fun v '(mk a _ u) => mk a v u) ]
    XXX_unrecognized
    (fun v '(mk a b _) => mk a b v).

#[global] Instance laws : mlaws desc.
Proof. solve_mlaws desc. Defined.

Definition Size : t -> Z := Wire.Size desc.
Definition MarshalToSizedBuffer : t -> bytes -> go (bytes * Z) := Wire.MarshalToSizedBuffer desc.
Definition Marshal : t -> go bytes := Wire.Marshal desc.
Definition Unmarshal : bytes -> t -> decoded t := Wire.Unmarshal desc.
End ConsensusMessage.

Module PreparePackedMessageExe.
Record t := mk {
  ChainID : bytes;
  Version : Z;
  Epoch : Z;
  Round : Z;
  Signature : bytes;
  PubKey : bytes;
  ParentBlockHash : bytes;
  VRFProof : bytes;
  VRFProofPubKey : bytes;
  DomainID : bytes;
  Launcher : bytes;
  StateVersion : Z;
  TxRoot : bytes;
  Txs : list bytes;
  XXX_unrecognized : bytes;
}.

Definition desc : schema t :=
  mkSchema (mk [] 0 0 0 [] [] [] [] [] [] [] 0 [] [] [])
    [ bytes_field 1 ChainID
        (fun v '(mk _ b c d e f g h i j k l m n u) => mk v b c d e f g h i j k l m n u);
      varint_field 2 u32 Version
        (fun v '(mk a _ c d e f g h i j k l m n u) => mk a v c d e f g h i j k l m n u);
      varint_field 3 u64 Epoch
        (fun v '(mk a b _ d e f g h i j k l m n u) => mk a b v d e f g h i j k l m n u);
      varint_field 4 u64 Round
        (fun v '(mk a b c _ e f g h i j k l m n u) => mk a b c v e f g h i j k l m n u);
      bytes_field 5 Signature
        (fun v '(mk a b c d _ f g h i j k l m n u) => mk a b c d v f g h i j k l m n u);
      bytes_field 6 PubKey
        (fun v '(mk a b c d e _ g h i j k l m n u) => mk a b c d e v g h i j k l m n u);
      bytes_field 7 ParentBlockHash
        (fun v '(mk a b c d e f _ h i j k l m n u) => mk a b c d e f v h i j k l m n u);
      bytes_field 8 VRFProof
        (fun v '(mk a b c d e f g _ i j k l m n u) => mk a b c d e f g v i j k l m n u);
      bytes_field 9 VRFProofPubKey
        (fun v '(mk a b c d e f g h _ j k l m n u) => mk a b c d e f g h v j k l m n u);
      bytes_field 10 DomainID
        (fun v '(mk a b c d e f g h i _ k l m n u) => mk a b c d e f g h i v k l m n u);
      bytes_field 11 Launcher
        (fun v '(mk a b c d e f g h i j _ l m n u) => mk a b c d e f g h i j v l m n u);
      varint_field 12 u64 StateVersion
        (fun v '(mk a b c d e f g h i j k _ m n u) => mk a b c d e f g h i j k v m n u);
      bytes_field 13 TxRoot
        (fun v '(mk a b c d e f g h i j k l _ n u) => mk a b c d e f g h i j k l v n u);
      rep_field raw_codec 14 Txs
        (fun v '(mk a b c d e f g h i j k l m _ u) => mk a b c d e f g h i j k l m v u) ]
    XXX_unrecognized
    (fun v '(mk a b c d e f g h i j k l m n _) => mk a b c d e f g h i j k l m n v).

#[global] Instance laws : mlaws desc.
Proof. solve_mlaws desc. Defined.

Definition Size : t -> Z := Wire.Size desc.
Definition MarshalToSizedBuffer : t -> bytes -> go (bytes * Z) := Wire.MarshalToSizedBuffer desc.
Definition Marshal : t -> go bytes := Wire.Marshal desc.
Definition Unmarshal : bytes -> t -> decoded t := Wire.Unmarshal desc.
End PreparePackedMessageExe.

Module PreparePackedMessageExeIndication.
Record t := mk {
  ChainID : bytes;
  Version : Z;
  Epoch : Z;
  Round : Z;
  Signature : bytes;
  PubKey : bytes;
  DomainID : bytes;
  StateVersion : Z;
  XXX_unrecognized : bytes;
}.

Definition desc : schema t :=
  mkSchema (mk [] 0 0 0 [] [] [] 0 [])
    [ bytes_field 1 ChainID
        (fun v '(mk _ b c d e f g h u) => mk v b c d e f g h u);
      varint_field 2 u32 Version
        (fun v '(mk a _ c d e f g h u) => mk a v c d e f g h u);
      varint_field 3 u64 Epoch
        (fun v '(mk a b _ d e f g h u) => mk a b v d e f g h u);
      varint_field 4 u64 Round
        (fun v '(mk a b c _ e f g h u) => mk a b c v e f g h u);
      bytes_field 5 Signature
        (fun v '(mk a b c d _ f g h u) => mk a b c d v f g h u);
      bytes_field 6 PubKey
        (fun v '(mk a b c d e _ g h u) => mk a b c d e v g h u);
      bytes_field 7 DomainID
        (fun v '(mk a b c d e f _ h u) => mk a b c d e f v h u);
      varint_field 8 u64 StateVersion
        (fun v '(mk a b c d e f g _ u) => mk a b c d e f g v u) ]
    XXX_unrecognized
    (fun v '(mk a b c d e f g h _) => mk a b c d e f g h v).

#[global] Instance laws : mlaws desc.
Proof. solve_mlaws desc. Defined.

Definition Size : t -> Z := Wire.Size desc.
Definition MarshalToSizedBuffer : t -> bytes -> go (bytes * Z) := Wire.MarshalToSizedBuffer desc.
Definition Marshal : t -> go bytes := Wire.Marshal desc.
Definition Unmarshal : bytes -> t -> decoded t := Wire.Unmarshal desc.
End PreparePackedMessageExeIndication.

Module PreparePackedMessageProp.
Record t := mk {
  ChainID : bytes;
  Version : Z;
  Epoch : Z;
  Round : Z;
  Signature : bytes;
  PubKey : bytes;
  ParentBlockHash : bytes;
  VRFProof : bytes;
  VRFProofPubKey : bytes;
  DomainID : bytes;
  Launcher : bytes;
  StateVersion : Z;
  TxRoot : bytes;
  TxResultRoot : bytes;
  TxHashs : list bytes;
  TxResultHashs : list bytes;
  XXX_unrecognized : bytes;
}.

Definition desc : schema t :=
  mkSchema (mk [] 0 0 0 [] [] [] [] [] [] [] 0 [] [] [] [] [])
    [ bytes_field 1 ChainID
        (fun v '(mk _ b c d e f g h i j k l m n o p u) => mk v b c d e f g h i j k l m n o p u);
      varint_field 2 u32 Version
        (fun v '(mk a _ c d e f g h i j k l m n o p u) => mk a v c d e f g h i j k l m n o p u);
      varint_field 3 u64 Epoch
        (fun v '(mk a b _ d e f g h i j k l m n o p u) => mk a b v d e f g h i j k l m n o p u);
      varint_field 4 u64 Round
        (fun v '(mk a b c _ e f g h i j k l m n o p u) => mk a b c v e f g h i j k l m n o p u);
      bytes_field 5 Signature
        (fun v '(mk a b c d _ f g h i j k l m n o p u) => mk a b c d v f g h i j k l m n o p u);
      bytes_field 6 PubKey
        (fun v '(mk a b c d e _ g h i j k l m n o p u) => mk a b c d e v g h i j k l m n o p u);
      bytes_field 7 ParentBlockHash
        (fun v '(mk a b c d e f _ h i j k l m n o p u) => mk a b c d e f v h i j k l m n o p u);
      bytes_field 8 VRFProof
        (fun v '(mk a b c d e f g _ i j k l m n o p u) => mk a b c d e f g v i j k l m n o p u);
      bytes_field 9 VRFProofPubKey
        (fun v '(mk a b c d e f g h _ j k l m n o p u) => mk a b c d e f g h v j k l m n o p u);
      bytes_field 10 DomainID
        (fun v '(mk a b c d e f g h i _ k l m n o p u) => mk a b c d e f g h i v k l m n o p u);
      bytes_field 11 Launcher
        (fun v '(mk a b c d e f g h i j _ l m n o p u) => mk a b c d e f g h i j v l m n o p u);
      varint_field 12 u64 StateVersion
        (fun v '(mk a b c d e f g h i j k _ m n o p u) => mk a b c d e f g h i j k v m n o p u);
      bytes_field 13 TxRoot
        (fun v '(mk a b c d e f g h i j k l _ n o p u) => mk a b c d e f g h i j k l v n o p u);
      bytes_field 14 TxResultRoot
        (fun v '(mk a b c d e f g h i j k l m _ o p u) => mk a b c d e f g h i j k l m v o p u);
      rep_field raw_codec 15 TxHashs
        (fun v '(mk a b c d e f g h i j k l m n _ p u) => mk a b c d e f g h i j k l m n v p u);
      rep_field raw_codec 16 TxResultHashs
        (fun v '(mk a b c d e f g h i j k l m n o _ u) => mk a b c d e f g h i j k l m n o v u) ]
    XXX_unrecognized
    (fun v '(mk a b c d e f g h i j k l m n o p _) => mk a b c d e f g h i j k l m n o p v).

#[global] Instance laws : mlaws desc.
Proof. solve_mlaws desc. Defined.

Definition Size : t -> Z := Wire.Size desc.
Definition MarshalToSizedBuffer : t -> bytes -> go (bytes * Z) := Wire.MarshalToSizedBuffer desc.
Definition Marshal : t -> go bytes := Wire.Marshal desc.
Definition Unmarshal : bytes -> t -> decoded t := Wire.Unmarshal desc.
End PreparePackedMessageProp.

Module PropData.
Record t := mk {
  Version : Z;
  DomainID : bytes;
  TxHashs : list bytes;
  TxResultHashs : list bytes;
  XXX_unrecognized : bytes;
}.

Definition desc : schema t :=
  mkSchema (mk 0 [] [] [] [])
    [ varint_field 1 u32 Version
        (fun v '(mk _ b c d u) => mk v b c d u);
      bytes_field 2 DomainID
        (fun v '(mk a _ c d u) => mk a v c d u);
      rep_field raw_codec 3 TxHashs
        (fun v '(mk a b _ d u) => mk a b v d u);
      rep_field raw_codec 4 TxResultHashs
        (fun v '(mk a b c _ u) => mk a b c v u) ]
    XXX_unrecognized
    (fun v '(mk a b c d _) => mk a b c d v).

#[global] Instance laws : mlaws desc.
Proof. solve_mlaws desc. Defined.

Definition Size : t -> Z := Wire.Size desc.
Definition MarshalToSizedBuffer : t -> bytes -> go (bytes * Z) := Wire.MarshalToSizedBuffer desc.
Definition Marshal : t -> go bytes := Wire.Marshal desc.
Definition Unmarshal : bytes -> t -> decoded t := Wire.Unmarshal desc.
End PropData.

Module ProposeMessage.
Record t := mk {
  ChainID : bytes;
  Version : Z;
  Epoch : Z;
  Round : Z;
  Signature : bytes;
  PubKey : bytes;
  StateVersion : Z;
  MaxPri : bytes;
  Proposer : bytes;
  PropDatas : list bytes;
  BlockHead : bytes;
  XXX_unrecognized : bytes;
}.

Definition desc : schema t :=
  mkSchema (mk [] 0 0 0 [] [] 0 [] [] [] [] [])
    [ bytes_field 1 ChainID
        (fun v '(mk _ b c d e f g h i j k u) => mk v b c d e f g h i j k u);
      varint_field 2 u32 Version
        (fun v '(mk a _ c d e f g h i j k u) => mk a v c d e f g h i j k u);
      varint_field 3 u64 Epoch
        (fun v '(mk a b _ d e f g h i j k u) => mk a b v d e f g h i j k u);
      varint_field 4 u64 Round
        (fun v '(mk a b c _ e f g h i j k u) => mk a b c v e f g h i j k u);
      bytes_field 5 Signature
        (fun v '(mk a b c d _ f g h i j k u) => mk a b c d v f g h i j k u);
      bytes_field 6 PubKey
        (fun v '(mk a b c d e _ g h i j k u) => mk a b c d e v g h i j k u);
      varint_field 7 u64 StateVersion
        (fun v '(mk a b c d e f _ h i j k u) => mk a b c d e f v h i j k u);
      bytes_field 8 MaxPri
        (fun v '(mk a b c d e f g _ i j k u) => mk a b c d e f g v i j k u);
      bytes_field 9 Proposer
        (fun v '(mk a b c d e f g h _ j k u) => mk a b c d e f g h v j k u);
      rep_field raw_codec 10 PropDatas
        (fun v '(mk a b c d e f g h i _ k u) => mk a b c d e f g h i v k u);
      bytes_field 11 BlockHead
        (fun v '(mk a b c d e f g h i j _ u) => mk a b c d e f g h i j v u) ]
    XXX_unrecognized
    (fun v '(mk a b c d e f g h i j k _) => mk a b c d e f g h i j k v).

#[global] Instance laws : mlaws desc.
Proof. solve_mlaws desc. Defined.

Definition Size : t -> Z := Wire.Size desc.
Definition MarshalToSizedBuffer : t -> bytes -> go (bytes * Z) := Wire.MarshalToSizedBuffer desc.
Definition Marshal : t -> go bytes := Wire.Marshal desc.
Definition Unmarshal : bytes -> t -> decoded t := Wire.Unmarshal desc.
End ProposeMessage.

Module ExeResultValidateReqMessage.
Record t := mk {
  ChainID : bytes;
  Version : Z;
  Epoch : Z;
  Round : Z;
  Validator : bytes;
  Signature : bytes;
  PubKey : bytes;
  StateVersion : Z;
  TxHashs : list bytes;
  TxResultHashs : list bytes;
  XXX_unrecognized : bytes;
}.

Definition desc : schema t :=
  mkSchema (mk [] 0 0 0 [] [] [] 0 [] [] [])
    [ bytes_field 1 ChainID
        (fun v '(mk _ b c d e f g h i j u) => mk v b c d e f g h i j u);
      varint_field 2 u32 Version
        (fun v '(mk a _ c d e f g h i j u) => mk a v c d e f g h i j u);
      varint_field 3 u64 Epoch
        (fun v '(mk a b _ d e f g h i j u) => mk a b v d e f g h i j u);
      varint_field 4 u64 Round
        (fun v '(mk a b c _ e f g h i j u) => mk a b c v e f g h i j u);
      bytes_field 5 Validator
        (fun v '(mk a b c d _ f g h i j u) => mk a b c d v f g h i j u);
      bytes_field 6 Signature
        (fun v '(mk a b c d e _ g h i j u) => mk a b c d e v g h i j u);
      bytes_field 7 PubKey
        (fun v '(mk a b c d e f _ h i j u) => mk a b c d e f v h i j u);
      varint_field 8 u64 StateVersion
        (fun v '(mk a b c d e f g _ i j u) => mk a b c d e f g v i j u);
      rep_field raw_codec 9 TxHashs
        (fun v '(mk a b c d e f g h _ j u) => mk a b c d e f g h v j u);
      rep_field raw_codec 10 TxResultHashs
        (fun v '(mk a b c d e f g h i _ u) => mk a b c d e f g h i v u) ]
    XXX_unrecognized
    (fun v '(mk a b c d e f g h i j _) => mk a b c d e f g h i j v).

#[global] Instance laws : mlaws desc.
Proof. solve_mlaws desc. Defined.

Definition Size : t -> Z := Wire.Size desc.
Definition MarshalToSizedBuffer : t -> bytes -> go (bytes * Z) := Wire.MarshalToSizedBuffer desc.
Definition Marshal : t -> go bytes := Wire.Marshal desc.
Definition Unmarshal : bytes -> t -> decoded t := Wire.Unmarshal desc.
End ExeResultValidateReqMessage.

Module BestProposeMessage.
Record t := mk {
  ChainID : bytes;
  Version : Z;
  Epoch : Z;
  Round : Z;
  Signature : bytes;
  PubKey : bytes;
  StateVersion : Z;
  MaxPri : bytes;
  Proposer : bytes;
  PropMsgData : bytes;
  XXX_unrecognized : bytes;
}.

Definition desc : schema t :=
  mkSchema (mk [] 0 0 0 [] [] 0 [] [] [] [])
    [ bytes_field 1 ChainID
        (fun v '(mk _ b c d e f g h i j u) => mk v b c d e f g h i j u);
      varint_field 2 u32 Version
        (fun v '(mk a _ c d e f g h i j u) => mk a v c d e f g h i j u);
      varint_field 3 u64 Epoch
        (fun v '(mk a b _ d e f g h i j u) => mk a b v d e f g h i j u);
      varint_field 4 u64 Round
        (fun v '(mk a b c _ e f g h i j u) => mk a b c v e f g h i j u);
      bytes_field 5 Signature
        (fun v '(mk a b c d _ f g h i j u) => mk a b c d v f g h i j u);
      bytes_field 6 PubKey
        (fun v '(mk a b c d e _ g h i j u) => mk a b c d e v g h i j u);
      varint_field 7 u64 StateVersion
        (fun v '(mk a b c d e f _ h i j u) => mk a b c d e f v h i j u);
      bytes_field 8 MaxPri
        (fun v '(mk a b c d e f g _ i j u) => mk a b c d e f g v i j u);
      bytes_field 9 Proposer
        (fun v '(mk a b c d e f g h _ j u) => mk a b c d e f g h v j u);
      bytes_field 10 PropMsgData
        (fun v '(mk a b c d e f g h i _ u) => mk a b c d e f g h i v u) ]
    XXX_unrecognized
    (fun v '(mk a b c d e f g h i j _) => mk a b c d e f g h i j v).

#[global] Instance laws : mlaws desc.
Proof. solve_mlaws desc. Defined.

Definition Size : t -> Z := Wire.Size desc.
Definition MarshalToSizedBuffer : t -> bytes -> go (bytes * Z) := Wire.MarshalToSizedBuffer desc.
Definition Marshal : t -> go bytes := Wire.Marshal desc.
Definition Unmarshal : bytes -> t -> decoded t := Wire.Unmarshal desc.
End BestProposeMessage.

Module ExeResultValidateRespMessage.
Record t := mk {
  ChainID : bytes;
  Version : Z;
  Epoch : Z;
  Round : Z;
  Executor : bytes;
  Signature : bytes;
  PubKey : bytes;
  StateVersion : Z;
  TxProofs : list bytes;
  TxResultProofs : list bytes;
  XXX_unrecognized : bytes;
}.

Definition desc : schema t :=
  mkSchema (mk [] 0 0 0 [] [] [] 0 [] [] [])
    [ bytes_field 1 ChainID
        (fun v '(mk _ b c d e f g h i j u) => mk v b c d e f g h i j u);
      varint_field 2 u32 Version
        (fun v '(mk a _ c d e f g h i j u) => mk a v c d e f g h i j u);
      varint_field 3 u64 Epoch
        (fun v '(mk a b _ d e f g h i j u) => mk a b v d e f g h i j u);
      varint_field 4 u64 Round
        (fun v '(mk a b c _ e f g h i j u) => mk a b c v e f g h i j u);
      bytes_field 5 Executor
        (fun v '(mk a b c d _ f g h i j u) => mk a b c d v f g h i j u);
      bytes_field 6 Signature
        (fun v '(mk a b c d e _ g h i j u) => mk a b c d e v g h i j u);
      bytes_field 7 PubKey
        (fun v '(mk a b c d e f _ h i j u) => mk a b c d e f v h i j u);
      varint_field 8 u64 StateVersion
        (fun v '(mk a b c d e f g _ i j u) => mk a b c d e f g v i j u);
      rep_field raw_codec 9 TxProofs
        (fun v '(mk a b c d e f g h _ j u) => mk a b c d e f g h v j u);
      rep_field raw_codec 10 TxResultProofs
        (fun v '(mk a b c d e f g h i _ u) => mk a b c d e f g h i v u) ]
    XXX_unrecognized
    (fun v '(mk a b c d e f g h i j _) => mk a b c d e f g h i j v).

#[global] Instance laws : mlaws desc.
Proof. solve_mlaws desc. Defined.

Definition Size : t -> Z := Wire.Size desc.
Definition MarshalToSizedBuffer : t -> bytes -> go (bytes * Z) := Wire.MarshalToSizedBuffer desc.
Definition Marshal : t -> go bytes := Wire.Marshal desc.
Definition Unmarshal : bytes -> t -> decoded t := Wire.Unmarshal desc.
End ExeResultValidateRespMessage.

Module VoteMessage.
Record t := mk {
  ChainID : bytes;
  Version : Z;
  Epoch : Z;
  Round : Z;
  Signature : bytes;
  Voter : bytes;
  PubKey : bytes;
  StateVersion : Z;
  BlockHead : bytes;
  XXX_unrecognized : bytes;
}.

Definition desc : schema t :=
  mkSchema (mk [] 0 0 0 [] [] [] 0 [] [])
    [ bytes_field 1 ChainID
        (fun v '(mk _ b c d e f g h i u) => mk v b c d e f g h i u);
      varint_field 2 u32 Version
        (fun v '(mk a _ c d e f g h i u) => mk a v c d e f g h i u);
      varint_field 3 u64 Epoch
        (fun v '(mk a b _ d e f g h i u) => mk a b v d e f g h i u);
      varint_field 4 u64 Round
        (fun v '(mk a b c _ e f g h i u) => mk a b c v e f g h i u);
      bytes_field 5 Signature
        (fun v '(mk a b c d _ f g h i u) => mk a b c d v f g h i u);
      bytes_field 6 Voter
        (fun v '(mk a b c d e _ g h i u) => mk a b c d e v g h i u);
      bytes_field 7 PubKey
        (fun v '(mk a b c d e f _ h i u) => mk a b c d e f v h i u);
      varint_field 8 u64 StateVersion
        (fun v '(mk a b c d e f g _ i u) => mk a b c d e f g v i u);
      bytes_field 9 BlockHead
        (fun v '(mk a b c d e f g h _ u) => mk a b c d e f g h v u) ]
    XXX_unrecognized
    (fun v '(mk a b c d e f g h i _) => mk a b c d e f g h i v).

#[global] Instance laws : mlaws desc.
Proof. solve_mlaws desc. Defined.

Definition Size : t -> Z := Wire.Size desc.
Definition MarshalToSizedBuffer : t -> bytes -> go (bytes * Z) := Wire.MarshalToSizedBuffer desc.
Definition Marshal : t -> go bytes := Wire.Marshal desc.
Definition Unmarshal : bytes -> t -> decoded t := Wire.Unmarshal desc.
End VoteMessage.

Module CommitMessage.
Record t := mk {
  ChainID : bytes;
  Version : Z;
  Epoch : Z;
  Round : Z;
  RefIndex : Z;
  Signature : bytes;
  PubKey : bytes;
  StateVersion : Z;
  BlockHead : bytes;
  XXX_unrecognized : bytes;
}.

Definition desc : schema t :=
  mkSchema (mk [] 0 0 0 0 [] [] 0 [] [])
    [ bytes_field 1 ChainID
        (fun v '(mk _ b c d e f g h i u) => mk v b c d e f g h i u);
      varint_field 2 u32 Version
        (fun v '(mk a _ c d e f g h i u) => mk a v c d e f g h i u);
      varint_field 3 u64 Epoch
        (fun v '(mk a b _ d e f g h i u) => mk a b v d e f g h i u);
      varint_field 4 u64 Round
        (fun v '(mk a b c _ e f g h i u) => mk a b c v e f g h i u);
      varint_field 5 u32 RefIndex
        (fun v '(mk a b c d _ f g h i u) => mk a b c d v f g h i u);
      bytes_field 6 Signature
        (fun v '(mk a b c d e _ g h i u) => mk a b c d e v g h i u);
      bytes_field 7 PubKey
        (fun v '(mk a b c d e f _ h i u) => mk a b c d e f v h i u);
      varint_field 8 u64 StateVersion
        (fun v '(mk a b c d e f g _ i u) => mk a b c d e f g v i u);
      bytes_field 9 BlockHead
        (fun v '(mk a b c d e f g h _ u) => mk a b c d e f g h v u) ]
    XXX_unrecognized
    (fun v '(mk a b c d e f g h i _) => mk a b c d e f g h i v).

#[global] Instance laws : mlaws desc.
Proof. solve_mlaws desc. Defined.

Definition Size : t -> Z := Wire.Size desc.
Definition MarshalToSizedBuffer : t -> bytes -> go (bytes * Z) := Wire.MarshalToSizedBuffer desc.
Definition Marshal : t -> go bytes := Wire.Marshal desc.
Definition Unmarshal : bytes -> t -> decoded t := Wire.Unmarshal desc.
End CommitMessage.

Module DKGPartPubKeyMessage.
Record t := mk {
  ChainID : bytes;
  Version : Z;
  TriggerNumber : Z;
  Signature : bytes;
  PubKey : bytes;
  PartPubKey : bytes;
  XXX_unrecognized : bytes;
}.

Definition desc : schema t :=
  mkSchema (mk [] 0 0 [] [] [] [])
    [ bytes_field 1 ChainID
        (fun v '(mk _ b c d e f u) => mk v b c d e f u);
      varint_field 2 u32 Version
        (fun v '(mk a _ c d e f u) => mk a v c d e f u);
      varint_field 3 u64 TriggerNumber
        (fun v '(mk a b _ d e f u) => mk a b v d e f u);
      bytes_field 4 Signature
        (fun v '(mk a b c _ e f u) => mk a b c v e f u);
      bytes_field 5 PubKey
        (fun v '(mk a b c d _ f u) => mk a b c d v f u);
      bytes_field 6 PartPubKey
        (fun v '(mk a b c d e _ u) => mk a b c d e v u) ]
    XXX_unrecognized
    (fun v '(mk a b c d e f _) => mk a b c d e f v).

#[global] Instance laws : mlaws desc.
Proof. solve_mlaws desc. Defined.

Definition Size : t -> Z := Wire.Size desc.
Definition MarshalToSizedBuffer : t -> bytes -> go (bytes * Z) := Wire.MarshalToSizedBuffer desc.
Definition Marshal : t -> go bytes := Wire.Marshal desc.
Definition Unmarshal : bytes -> t -> decoded t := Wire.Unmarshal desc.
End DKGPartPubKeyMessage.

Module DKGDealMessage.
Record t := mk {
  ChainID : bytes;
  Version : Z;
  TriggerNumber : Z;
  Signature : bytes;
  PubKey : bytes;
  DealData : bytes;
  XXX_unrecognized : bytes;
}.

Definition desc : schema t :=
  mkSchema (mk [] 0 0 [] [] [] [])
    [ bytes_field 1 ChainID
        (fun v '(mk _ b c d e f u) => mk v b c d e f u);
      varint_field 2 u32 Version
        (fun v '(mk a _ c d e f u) => mk a v c d e f u);
      varint_field 3 u64 TriggerNumber
        (fun v '(mk a b _ d e f u) => mk a b v d e f u);
      bytes_field 4 Signature
        (fun v '(mk a b c _ e f u) => mk a b c v e f u);
      bytes_field 5 PubKey
        (fun v '(mk a b c d _ f u) => mk a b c d v f u);
      bytes_field 6 DealData
        (fun v '(mk a b c d e _ u) => mk a b c d e v u) ]
    XXX_unrecognized
    (fun v '(mk a b c d e f _) => mk a b c d e f v).

#[global] Instance laws : mlaws desc.
Proof. solve_mlaws desc. Defined.

Definition Size : t -> Z := Wire.Size desc.
Definition MarshalToSizedBuffer : t -> bytes -> go (bytes * Z) := Wire.MarshalToSizedBuffer desc.
Definition Marshal : t -> go bytes := Wire.Marshal desc.
Definition Unmarshal : bytes -> t -> decoded t := Wire.Unmarshal desc.
End DKGDealMessage.

Module DKGDealRespMessage.
Record t := mk {
  ChainID : bytes;
  Version : Z;
  TriggerNumber : Z;
  Signature : bytes;
  PubKey : bytes;
  RespData : bytes;
  XXX_unrecognized : bytes;
}.

Definition desc : schema t :=
  mkSchema (mk [] 0 0 [] [] [] [])
    [ bytes_field 1 ChainID
        (fun v '(mk _ b c d e f u) => mk v b c d e f u);
      varint_field 2 u32 Version
        (fun v '(mk a _ c d e f u) => mk a v c d e f u);
      varint_field 3 u64 TriggerNumber
        (fun v '(mk a b _ d e f u) => mk a b v d e f u);
      bytes_field 4 Signature
        (fun v '(mk a b c _ e f u) => mk a b c v e f u);
      bytes_field 5 PubKey
        (fun v '(mk a b c d _ f u) => mk a b c d v f u);
      bytes_field 6 RespData
        (fun v '(mk a b c d e _ u) => mk a b c d e v u) ]
    XXX_unrecognized
    (fun v '(mk a b c d e f _) => mk a b c d e f v).

#[global] Instance laws : mlaws desc.
Proof. solve_mlaws desc. Defined.

Definition Size : t -> Z := Wire.Size desc.
Definition MarshalToSizedBuffer : t -> bytes -> go (bytes * Z) := Wire.MarshalToSizedBuffer desc.
Definition Marshal : t -> go bytes := Wire.Marshal desc.
Definition Unmarshal : bytes -> t -> decoded t := Wire.Unmarshal desc.
End DKGDealRespMessage.

Module DKGFinishedMessage.
Record t := mk {
  ChainID : bytes;
  Version : Z;
  TriggerNumber : Z;
  Signature : bytes;
  PubKey : bytes;
  NodeID : bytes;
  PubPolyCommit : bytes;
  XXX_unrecognized : bytes;
}.

Definition desc : schema t :=
  mkSchema (mk [] 0 0 [] [] [] [] [])
    [ bytes_field 1 ChainID
        (fun v '(mk _ b c d e f g u) => mk v b c d e f g u);
      varint_field 2 u32 Version
        (fun v '(mk a _ c d e f g u) => mk a v c d e f g u);
      varint_field 3 u64 TriggerNumber
        (fun v '(mk a b _ d e f g u) => mk a b v d e f g u);
      bytes_field 4 Signature
        (fun v '(mk a b c _ e f g u) => mk a b c v e f g u);
      bytes_field 5 PubKey
        (fun v '(mk a b c d _ f g u) => mk a b c d v f g u);
      bytes_field 6 NodeID
        (fun v '(mk a b c d e _ g u) => mk a b c d e v g u);
      bytes_field 7 PubPolyCommit
        (fun v '(mk a b c d e f _ u) => mk a b c d e f v u) ]
    XXX_unrecognized
    (fun v '(mk a b c d e f g _) => mk a b c d e f g v).

#[global] Instance laws : mlaws desc.
Proof. solve_mlaws desc. Defined.

Definition Size : t -> Z := Wire.Size desc.
Definition MarshalToSizedBuffer : t -> bytes -> go (bytes * Z) := Wire.MarshalToSizedBuffer desc.
Definition Marshal : t -> go bytes := Wire.Marshal desc.
Definition Unmarshal : bytes -> t -> decoded t := Wire.Unmarshal desc.
End DKGFinishedMessage.

Module ConsensusDomainSelectedMessage.
Record t := mk {
  ChainID : bytes;
  Version : Z;
  Signature : bytes;
  PubKey : bytes;
  DomainID : bytes;
  MemberNumber : Z;
  NodeIDOfMember : bytes;
  NodeRoleOfMember : Z;
  NodeWeightOfMember : Z;
  XXX_unrecognized : bytes;
}.

Definition desc : schema t :=
  mkSchema (mk [] 0 [] [] [] 0 [] 0 0 [])
    [ bytes_field 1 ChainID
        (fun v '(mk _ b c d e f g h i u) => mk v b c d e f g h i u);
      varint_field 2 u32 Version
        (fun v '(mk a _ c d e f g h i u) => mk a v c d e f g h i u);
      bytes_field 3 Signature
        (fun v '(mk a b _ d e f g h i u) => mk a b v d e f g h i u);
      bytes_field 4 PubKey
        (fun v '(mk a b c _ e f g h i u) => mk a b c v e f g h i u);
      bytes_field 5 DomainID
        (fun v '(mk a b c d _ f g h i u) => mk a b c d v f g h i u);
      varint_field 6 u32 MemberNumber
        (fun v '(mk a b c d e _ g h i u) => mk a b c d e v g h i u);
      bytes_field 7 NodeIDOfMember
        (fun v '(mk a b c d e f _ h i u) => mk a b c d e f v h i u);
      varint_field 8 u64 NodeRoleOfMember
        (fun v '(mk a b c d e f g _ i u) => mk a b c d e f g v i u);
      varint_field 9 u64 NodeWeightOfMember
        (fun v '(mk a b c d e f g h _ u) => mk a b c d e f g h v u) ]
    XXX_unrecognized
    (fun v '(mk a b c d e f g h i _) => mk a b c d e f g h i v).

#[global] Instance laws : mlaws desc.
Proof. solve_mlaws desc. Defined.

Definition Size : t -> Z := Wire.Size desc.
Definition MarshalToSizedBuffer : t -> bytes -> go (bytes * Z) := Wire.MarshalToSizedBuffer desc.
Definition Marshal : t -> go bytes := Wire.Marshal desc.
Definition Unmarshal : bytes -> t -> decoded t := Wire.Unmarshal desc.
End ConsensusDomainSelectedMessage.

