(* ===== verification/TxBasic.v ===== *)
(** Transactions: their encoding, identity and roots
    ([src/transaction/basic/transaction.go], [transaction_result.go]), the
    verifier chain ([verifier_basic.go]), and the codec in front of the
    generated code ([src/codec/proto/codec.go]). *)
From Stdlib Require Import ZArith Lia Strings.Byte.
From stdpp Require Import base gmap list strings sorting.
From S2P Require Import Prelude Wire TxMessages ChainMessages.
Import Wire.
#[local] Open Scope Z_scope.

Module Codec.

(** [MarshalProto] on a message with schema [s]: the generated methods.  A
    marshal error is [None]; the generated [Marshal] returns none. *)
Definition Marshal {M} (s : schema M) (obj : M) : go (option bytes) :=
  b ← Wire.Marshal s obj; Ok (Some b).

(** [Unmarshal] resets the object first, so its old content is dropped. *)
Definition Unmarshal {M} (s : schema M) (buff : bytes) (obj : M) : decoded M :=
  Wire.Unmarshal s buff (s_zero s).

End Codec.

Module Tx.
Abbreviation tx := Transaction.t.

(** [hex.EncodeToString]. *)
Definition hex_digit (n : Z) : byte := z2b (if n <? 10 then 48 + n else 87 + n).

Definition hex_byte (b : byte) : bytes := [hex_digit (Z.shiftr (b2z b) 4); hex_digit (Z.land (b2z b) 15)].

Definition hex_EncodeToString (bs : bytes) : bytes := concat (hex_byte <$> bs).

Section Hashes.
(** The 256-bit blake2b digest of [golang.org/x/crypto]. *)
Context (blake2b : bytes -> bytes).

Definition Bytes (m : tx) : go (option bytes) := Codec.Marshal Transaction.desc m.

Definition HashBytes (m : tx) : go (option bytes) :=
  txBytes ← Bytes m;
  Ok (option_map blake2b txBytes).

Definition TxID (m : tx) : go (option bytes) :=
  hashBytes ← HashBytes m;
  Ok (option_map hex_EncodeToString hashBytes).

(** [%x] of a string is its hex encoding once more. *)
Definition HashHex (m : tx) : go (option bytes) :=
  hashBytes ← HashBytes m;
  Ok (option_map (fun h => hex_EncodeToString (hex_EncodeToString h)) hashBytes).

(** The two loops of [TxDifference], with their tests [err != nil]. *)
Fixpoint difference_remove (b : list tx) (remove : gset bytes) : go (gset bytes) :=
  match b with
  | [] => Ok remove
  | t :: b =>
      txId ← HashHex t;
      difference_remove b (match txId with None => {[ [] ]} ∪ remove | Some _ => remove end)
  end.

Fixpoint difference_keep (a : list tx) (remove : gset bytes) (keep : list tx) : go (list tx) :=
  match a with
  | [] => Ok keep
  | t :: a =>
      txId ← HashHex t;
      difference_keep a remove
        (match txId with
         | None => if decide ([] ∈ remove) then keep else keep ++ [t]
         | Some _ => keep
         end)
  end.

Definition TxDifference (a b : list tx) : go (list tx) :=
  remove ← difference_remove b ∅;
  difference_keep a remove [].

Section Roots.
(** The sparse Merkle tree of [lazyledger/smt]; the code ignores the result of
    an update, so [Update] is the tree the call leaves. *)
Context {T : Type} (empty : T) (Update : T -> bytes -> bytes -> T) (Root : T -> bytes).

Fixpoint TxRoot_loop (txs : list tx) (tree : T) : go T :=
  match txs with
  | [] => Ok tree
  | t :: txs =>
      txBytes ← HashBytes t;
      let h := default [] txBytes in
      TxRoot_loop txs (Update tree h h)
  end.

Definition TxRoot (txs : list tx) : go bytes :=
  tree ← TxRoot_loop txs empty; Ok (Root tree).

Definition TxRootByBytes (txsBytes : list bytes) : bytes :=
  Root (foldl (fun tree txBytes => let h := blake2b txBytes in Update tree h h) empty txsBytes).

Fixpoint TxRootWithRtn_loop (txs : list tx) (tree : T) (acc : list bytes) : go (T * list bytes) :=
  match txs with
  | [] => Ok (tree, acc)
  | t :: txs =>
      txBytes ← HashBytes t;
      let h := default [] txBytes in
      TxRootWithRtn_loop txs (Update tree h h) (acc ++ [h])
  end.

Definition TxRootWithRtn (txs : list tx) : go (bytes * list bytes) :=
  '(tree, txsBytes) ← TxRootWithRtn_loop txs empty []; Ok (Root tree, txsBytes).

Definition TxResult_HashBytes (m : TransactionResult.t) : go (option bytes) :=
  b ← Codec.Marshal TransactionResult.desc m; Ok (option_map blake2b b).

Fixpoint TxResultRoot_loop (rs : list TransactionResult.t) (tree : T) : go T :=
  match rs with
  | [] => Ok tree
  | r :: rs =>
      b ← TxResult_HashBytes r;
      let h := default [] b in
      TxResultRoot_loop rs (Update tree h h)
  end.

Definition TxResultRoot (txResults : list TransactionResult.t) (txs : list tx) : go bytes :=
  tree ← TxResultRoot_loop txResults empty; Ok (Root tree).
End Roots.
End Hashes.

(** ** Verifiers *)

Inductive VerifyResult := ValidationResult_Unknown | VerifyResult_Accept | VerifyResult_Reject | VerifyResult_Ignore.

#[export] Instance VerifyResult_eq_dec : EqDecision VerifyResult.
Proof. solve_decision. Defined.

(** [TransactionChainIDVerifier] against the servant's chain id; a transaction
    without a head is a nil dereference. *)
Definition TransactionChainIDVerifier (chainID : bytes) (t : tx) : go VerifyResult :=
  match Transaction.Head t with
  | None => Panic
  | Some h =>
      Ok (if bool_decide (bytes_Compare (TransactionHead.ChainID h) chainID = Eq)
          then VerifyResult_Accept else VerifyResult_Reject)
  end.

Fixpoint apply_verifiers {T} (verifiers : list (T -> go VerifyResult)) (t : T) (vrResult : VerifyResult) :
    go VerifyResult :=
  match verifiers with
  | [] => Ok vrResult
  | verifier :: verifiers =>
      vR ← verifier t;
      match vR with
      | VerifyResult_Reject => Ok VerifyResult_Reject
      | VerifyResult_Ignore => apply_verifiers verifiers t vR
      | _ => apply_verifiers verifiers t vrResult
      end
  end.

Definition ApplyTransactionVerifiers {T} (t : T) (verifiers : list (T -> go VerifyResult)) : go VerifyResult :=
  apply_verifiers verifiers t VerifyResult_Accept.

(** * Correctness *)

(** A message whose fields fit their types, without unknown fields, of a
    size a Go slice can have. *)
Definition well_formed {M} (s : schema M) `{L : !mlaws s} (m : M) : Prop :=
  valid s L m /\ known s L m /\ small (enc s L m).

(** Encoding succeeds with exactly [Size] bytes and decoding gives back the
    message, whatever the target held before. *)
Lemma codec_roundtrip {M} (s : schema M) `{L : !mlaws s} (m : M) : well_formed s m ->
  Codec.Marshal s m = Ok (Some (enc s L m)) /\ Wire.Size s m = len (enc s L m)
  /\ forall old, Codec.Unmarshal s (enc s L m) old = Ok m.
Proof.
  intros (Hv & Hk & Hs). unfold Codec.Marshal, Codec.Unmarshal.
  rewrite (Marshal_enc s L), (Size_enc s L) by done. split_and!; [done|done|].
  intros _. by apply Unmarshal_enc.
Qed.

Lemma enc_inj {M} (s : schema M) `{L : !mlaws s} (m m' : M) :
  well_formed s m -> well_formed s m' -> enc s L m = enc s L m' -> m = m'.
Proof.
  intros (Hv & Hk & Hs) (Hv' & Hk' & Hs') E.
  pose proof (Unmarshal_enc s L m Hv Hk Hs) as H. rewrite E, Unmarshal_enc in H by done. congruence.
Qed.

(** C30. Transactions survive the wire: [Bytes] of a well-formed transaction
    succeeds with exactly [Size] bytes, and [Unmarshal] of them gives the
    transaction back, whatever the target object held before. *)
Theorem transaction_roundtrip (t : tx) : well_formed Transaction.desc t ->
  exists b, Bytes t = Ok (Some b) /\ Transaction.Size t = len b
  /\ forall old, Codec.Unmarshal Transaction.desc b old = Ok t.
Proof. intros Ht. exists (enc Transaction.desc _ t). exact (codec_roundtrip Transaction.desc t Ht). Qed.

(** A sample transaction of every kind of field. *)
Definition sample_tx : tx :=
  Transaction.mk
    (Some (TransactionHead.mk (str "topia_universal") (str "1") 1 300 0 (str "from") 70000 [] []))
    (Some (TransactionData.mk (str "data") [])) [].

Lemma sample_tx_well_formed : well_formed Transaction.desc sample_tx.
Proof. split_and!; [repeat constructor; vm_compute; repeat constructor..|by vm_compute]. Qed.

Lemma transaction_roundtrip_witness :
  exists b, Bytes sample_tx = Ok (Some b) /\ Transaction.Size sample_tx = len b
  /\ forall old, Codec.Unmarshal Transaction.desc b old = Ok sample_tx.
Proof. apply (transaction_roundtrip sample_tx). exact sample_tx_well_formed. Defined.

(** ** Identity *)

Definition hex_val (d : byte) : Z := if b2z d <? 58 then b2z d - 48 else b2z d - 87.

Definition unhex (d1 d2 : byte) : byte := z2b (16 * hex_val d1 + hex_val d2).

Lemma hex_byte_inv b : unhex (hex_digit (Z.shiftr (b2z b) 4)) (hex_digit (Z.land (b2z b) 15)) = b.
Proof. by destruct b. Qed.

Lemma hex_EncodeToString_inj a b : hex_EncodeToString a = hex_EncodeToString b -> a = b.
Proof.
  revert b. induction a as [|x a IH]; intros [|y b] E; try done.
  unfold hex_EncodeToString in *. cbn [fmap list_fmap concat hex_byte app] in E.
  injection E as E1 E2 E. f_equal; [|by apply IH].
  by rewrite <-(hex_byte_inv x), E1, E2, hex_byte_inv.
Qed.

Lemma TxID_eq blake2b t : well_formed Transaction.desc t ->
  TxID blake2b t = Ok (Some (hex_EncodeToString (blake2b (enc Transaction.desc _ t)))).
Proof.
  intros Ht. destruct (codec_roundtrip Transaction.desc t Ht) as (H & _).
  unfold TxID, HashBytes, Bytes. by rewrite H.
Qed.

(** A transaction id binds its transaction: two well-formed transactions
    with the same id are equal, or their encodings are a collision of the
    hash function. *)
Theorem TxID_binds (blake2b : bytes -> bytes) (t t' : tx) :
  well_formed Transaction.desc t -> well_formed Transaction.desc t' ->
  TxID blake2b t = TxID blake2b t' ->
  t = t' \/ exists b b', Bytes t = Ok (Some b) /\ Bytes t' = Ok (Some b') /\ b <> b' /\ blake2b b = blake2b b'.
Proof.
  intros Ht Ht' E. rewrite !TxID_eq in E by done. injection E as E. apply hex_EncodeToString_inj in E.
  destruct (decide (enc Transaction.desc _ t = enc Transaction.desc _ t')) as [Ee|Hne].
  - left. by apply (enc_inj Transaction.desc).
  - right. do 2 eexists. split_and!; [apply (codec_roundtrip Transaction.desc); done..|done|done].
Qed.

Lemma TxID_binds_witness :
  sample_tx = sample_tx \/ exists b b', Bytes sample_tx = Ok (Some b) /\ Bytes sample_tx = Ok (Some b')
    /\ b <> b' /\ rev b = rev b'.
Proof. apply (TxID_binds (@rev byte)); [exact sample_tx_well_formed..|reflexivity]. Defined.

(** ** Roots *)

Section RootsSpec.
Context (blake2b : bytes -> bytes) {T : Type} (empty : T) (Update : T -> bytes -> bytes -> T) (Root : T -> bytes).

Lemma TxRoot_loop_spec txs tree : Forall (well_formed Transaction.desc) txs ->
  TxRoot_loop blake2b Update txs tree
  = Ok (foldl (fun tree b => Update tree (blake2b b) (blake2b b)) tree (enc Transaction.desc _ <$> txs)).
Proof.
  intros H. revert tree. induction H as [|t txs Ht _ IH]; intros tree; [done|].
  destruct (codec_roundtrip Transaction.desc t Ht) as (E & _).
  cbn [TxRoot_loop]. unfold HashBytes, Bytes. rewrite E. cbn [mbind outcome_bind option_map default from_option].
  by rewrite IH.
Qed.

Lemma TxRootWithRtn_loop_spec txs tree acc : Forall (well_formed Transaction.desc) txs ->
  TxRootWithRtn_loop blake2b Update txs tree acc
  = Ok (foldl (fun tree b => Update tree (blake2b b) (blake2b b)) tree (enc Transaction.desc _ <$> txs),
        acc ++ (blake2b <$> (enc Transaction.desc _ <$> txs))).
Proof.
  intros H. revert tree acc. induction H as [|t txs Ht _ IH]; intros tree acc; [by rewrite app_nil_r|].
  destruct (codec_roundtrip Transaction.desc t Ht) as (E & _).
  cbn [TxRootWithRtn_loop]. unfold HashBytes, Bytes. rewrite E. cbn [mbind outcome_bind option_map default from_option].
  rewrite IH, <-app_assoc. done.
Qed.

(** The three ways of computing the transaction root agree: on the
    encodings, on the transactions, and on the transactions with their hashes
    returned. *)
Theorem tx_roots_agree (txs : list tx) : Forall (well_formed Transaction.desc) txs ->
  exists bs, Forall2 (fun t b => Bytes t = Ok (Some b)) txs bs
  /\ TxRoot blake2b empty Update Root txs = Ok (TxRootByBytes blake2b empty Update Root bs)
  /\ TxRootWithRtn blake2b empty Update Root txs
     = Ok (TxRootByBytes blake2b empty Update Root bs, blake2b <$> bs).
Proof.
  intros H. exists (enc Transaction.desc _ <$> txs). split_and!.
  - apply Forall2_fmap_r. induction H as [|t txs Ht _ IH]; constructor; [|done].
    by apply (codec_roundtrip Transaction.desc).
  - unfold TxRoot. by rewrite TxRoot_loop_spec.
  - unfold TxRootWithRtn. by rewrite TxRootWithRtn_loop_spec.
Qed.
End RootsSpec.

Lemma tx_roots_agree_witness :
  exists bs, Forall2 (fun t b => Bytes t = Ok (Some b)) [sample_tx; sample_tx] bs
  /\ TxRoot (@rev byte) [] (fun tree k v => tree ++ k) id [sample_tx; sample_tx]
     = Ok (TxRootByBytes (@rev byte) [] (fun tree k v => tree ++ k) id bs)
  /\ TxRootWithRtn (@rev byte) [] (fun tree k v => tree ++ k) id [sample_tx; sample_tx]
     = Ok (TxRootByBytes (@rev byte) [] (fun tree k v => tree ++ k) id bs, (@rev byte) <$> bs).
Proof. apply tx_roots_agree. repeat constructor; apply sample_tx_well_formed. Defined.

(** ** [TxDifference] *)

Lemma HashHex_ok blake2b t : well_formed Transaction.desc t -> exists h, HashHex blake2b t = Ok (Some h).
Proof.
  intros Ht. destruct (codec_roundtrip Transaction.desc t Ht) as (H & _).
  unfold HashHex, HashBytes, Bytes. rewrite H. simpl. eauto.
Qed.

Lemma difference_remove_nothing blake2b b r : Forall (well_formed Transaction.desc) b ->
  difference_remove blake2b b r = Ok r.
Proof.
  intros H. revert r. induction H as [|t b Ht _ IH]; intros r; [done|]. cbn [difference_remove].
  destruct (HashHex_ok blake2b t Ht) as [h ->]. apply IH.
Qed.

Lemma difference_keep_nothing blake2b a r k : Forall (well_formed Transaction.desc) a ->
  difference_keep blake2b a r k = Ok k.
Proof.
  intros H. revert k. induction H as [|t b Ht _ IH]; intros k; [done|]. cbn [difference_keep].
  destruct (HashHex_ok blake2b t Ht) as [h ->]. apply IH.
Qed.

(** [TxDifference] keeps a transaction only when hashing it fails: on
    well-formed transactions the difference of any two sets is empty, also
    when the second set is. *)
Theorem TxDifference_empty (blake2b : bytes -> bytes) (a b : list tx) :
  Forall (well_formed Transaction.desc) a -> Forall (well_formed Transaction.desc) b ->
  TxDifference blake2b a b = Ok [].
Proof.
  intros Ha Hb. unfold TxDifference. rewrite difference_remove_nothing by done.
  by apply difference_keep_nothing.
Qed.

(** ** Verifiers *)

(** The verifier chain: a rejection decides, and the verifiers after it do
    not run; if none rejects, the result is [Ignore] when some verifier
    ignores and [Accept] otherwise. *)
Theorem ApplyTransactionVerifiers_spec {T} (t : T) (vs : list (T -> VerifyResult)) :
  let run v := fun t : T => Ok (v t) : go VerifyResult in
  (forall pre v rest, v t = VerifyResult_Reject ->
     ApplyTransactionVerifiers t ((run <$> pre ++ [v]) ++ rest) = Ok VerifyResult_Reject)
  /\ (Forall (fun v => v t <> VerifyResult_Reject) vs ->
      ApplyTransactionVerifiers t (run <$> vs)
      = Ok (if decide (Exists (fun v => v t = VerifyResult_Ignore) vs)
            then VerifyResult_Ignore else VerifyResult_Accept)).
Proof.
  intros run. unfold ApplyTransactionVerifiers. split.
  - intros pre v rest Hv. generalize VerifyResult_Accept.
    induction pre as [|p pre IH]; intros r; cbn.
    + by rewrite Hv.
    + destruct (p t); try apply IH; done.
  - intros H. assert (Hgen : forall r, apply_verifiers (run <$> vs) t r
      = Ok (if decide (Exists (fun v => v t = VerifyResult_Ignore) vs) then VerifyResult_Ignore else r)).
    { induction H as [|v vs Hv _ IH]; intros r.
      - destruct (decide _) as [E|]; [by apply Exists_nil in E|done].
      - cbn [fmap list_fmap apply_verifiers]. change (run v t) with (Ok (v t) : go VerifyResult). cbn [mbind outcome_bind].
        destruct (v t) eqn:Ev; try done; rewrite IH; f_equal.
        1-2: apply decide_ext; rewrite Exists_cons, Ev; naive_solver.
        rewrite (decide_True (P:=Exists _ (v :: vs))) by (by constructor). by destruct (decide _). }
    apply Hgen.
Qed.

Lemma ApplyTransactionVerifiers_spec_witness :
  ApplyTransactionVerifiers tt [fun _ => Ok VerifyResult_Ignore; fun _ => Ok VerifyResult_Reject; fun _ => Panic]
  = Ok VerifyResult_Reject
  /\ ApplyTransactionVerifiers tt [fun _ => Ok VerifyResult_Ignore; fun _ => Ok VerifyResult_Accept]
     = Ok VerifyResult_Ignore.
Proof.
  split.
  - apply (proj1 (ApplyTransactionVerifiers_spec tt [])
             [fun _ => VerifyResult_Ignore] (fun _ => VerifyResult_Reject) [fun _ => Panic]). reflexivity.
  - apply (proj2 (ApplyTransactionVerifiers_spec tt [fun _ => VerifyResult_Ignore; fun _ => VerifyResult_Accept])).
    repeat constructor; discriminate.
Defined.

(** ** Decoding untrusted input *)



(** Blocks and block results survive the wire, with their size computed
    exactly, like transactions. *)
Theorem block_roundtrip :
  (forall m, well_formed Block.desc m -> exists b, Block.Marshal m = Ok b /\ Block.Size m = len b
     /\ Block.Unmarshal b (s_zero Block.desc) = Ok m)
  /\ (forall m, well_formed BlockDataChunk.desc m -> exists b, BlockDataChunk.Marshal m = Ok b
     /\ BlockDataChunk.Size m = len b /\ BlockDataChunk.Unmarshal b (s_zero BlockDataChunk.desc) = Ok m)
  /\ (forall m, well_formed BlockResult.desc m -> exists b, BlockResult.Marshal m = Ok b
     /\ BlockResult.Size m = len b /\ BlockResult.Unmarshal b (s_zero BlockResult.desc) = Ok m).
Proof.
  split_and!; intros m (Hv & Hk & Hs); eexists; (split_and!;
    [by apply Marshal_enc|by apply Size_enc|by apply Unmarshal_enc]).
Qed.

Definition sample_chunk : BlockDataChunk.t := BlockDataChunk.mk 1 0 [str "tx1"; str "tx2"] [].

Lemma block_roundtrip_witness :
  exists b, BlockDataChunk.Marshal sample_chunk = Ok b /\ BlockDataChunk.Size sample_chunk = len b
  /\ BlockDataChunk.Unmarshal b (s_zero BlockDataChunk.desc) = Ok sample_chunk.
Proof.
  apply (proj1 (proj2 block_roundtrip)).
  split_and!; [repeat constructor; vm_compute; repeat constructor..|by vm_compute].
Defined.

(** [ApplyTransactionValidator] of [src/transaction/validator.go]: the switch is
    on the result so far, not on the validator's answer. *)
Fixpoint apply_validators {T} (validators : list (T -> go VerifyResult)) (t : T) (valResult : VerifyResult) :
    go VerifyResult :=
  match validators with
  | [] => Ok valResult
  | validator :: validators =>
      valR ← validator t;
      match valResult with
      | VerifyResult_Reject => Ok VerifyResult_Reject
      | VerifyResult_Ignore => apply_validators validators t valR
      | _ => apply_validators validators t valResult
      end
  end.

Definition ApplyTransactionValidator {T} (t : T) (validators : list (T -> go VerifyResult)) : go VerifyResult :=
  apply_validators validators t VerifyResult_Accept.

(** It accepts whatever the validators say. *)
Lemma ApplyTransactionValidator_accepts {T} (t : T) (vs : list (T -> VerifyResult)) :
  ApplyTransactionValidator t ((fun v t => Ok (v t)) <$> vs) = Ok VerifyResult_Accept.
Proof. unfold ApplyTransactionValidator. by induction vs as [|v vs IH]. Qed.

End Tx.
