(* ===== verification/TxCore.v ===== *)
(** The core of the transaction pool ([src/transaction_pool/core]): wrapped
    transactions and their orders (tx_wrapper_uni.go), the sorted lists
    (tx_sort.go), the per-account queues by nonce and the pending lists
    (accounts_txs.go), and the collection that ties them together
    (tx_clollect.go). *)
From Stdlib Require Import ZArith Lia Strings.Byte.
From stdpp Require Import base gmap list strings sorting.
From S2P Require Import Prelude Common Wire TxMessages TxBasic.
#[local] Open Scope Z_scope.

(** The category of [src/transaction/basic/transaction.go]. *)
Definition TransactionCategory_Topia_Universal : bytes := str "topia_universal".

Inductive TxState :=
| TxState_Unknown | TxState_Added | TxState_Packed | TxState_Published
| TxState_Republished | TxState_DroppedForTxPoolFull | TxState_Removed.

#[export] Instance TxState_eq_dec : EqDecision TxState.
Proof. solve_decision. Defined.

Module TxWrapper.

(** The immutable part of a wrapper.  Wrappers are shared by pointer; [wid] is
    the object's identity, and its mutable fields live in a store. *)
Record TxWrapperUni := mkTxWrapperUni {
  wid : nat;
  txID : bytes;
  category : bytes;
  txSize : Z;
  timeStamp : Z;
  height : Z;
  fromAddr : bytes;
  nonce : Z;
  gasPrice : Z;
  originTx : Tx.tx;
}.

(** The mutable fields [txState] and [fromPeers] of every wrapper. *)
Record wobj := mkWobj {
  txState : TxState;
  fromPeers : gset bytes;
}.

Abbreviation wstore := (gmap nat wobj).

Definition wobj_of (st : wstore) (w : TxWrapperUni) : wobj :=
  default (mkWobj TxState_Unknown ∅) (st !! wid w).

Definition UpdateState (st : wstore) (w : TxWrapperUni) (s : TxState) : wstore :=
  <[wid w:=mkWobj s (fromPeers (wobj_of st w))]> st.

Definition TxState_of (st : wstore) (w : TxWrapperUni) : TxState := txState (wobj_of st w).

Definition AddFromPeer (st : wstore) (w : TxWrapperUni) (peerID : bytes) : wstore * bool :=
  let o := wobj_of st w in
  if decide (peerID ∈ fromPeers o) then (st, false)
  else (<[wid w:=mkWobj (txState o) ({[peerID]} ∪ fromPeers o)]> st, true).

Definition HasFromPeer (st : wstore) (w : TxWrapperUni) (peerID : bytes) : wstore * bool :=
  let o := wobj_of st w in
  if decide (peerID ∈ fromPeers o) then (st, false)
  else (<[wid w:=mkWobj (txState o) ({[peerID]} ∪ fromPeers o)]> st, true).

Inductive SortWay := SortWay_Unknown | SortWay_Misc | SortWay_Height | SortWay_Time.

#[export] Instance SortWay_eq_dec : EqDecision SortWay.
Proof. solve_decision. Defined.

Definition lessMisc (tw target : TxWrapperUni) : bool :=
  if gasPrice tw >? gasPrice target then true
  else if (gasPrice tw =? gasPrice target) && (height tw <? height target) then true
  else if (height tw =? height target) && (timeStamp tw <? timeStamp target) then true
  else false.

Definition lessHeight (tw target : TxWrapperUni) : bool := height tw <? height target.

Definition lessTime (tw target : TxWrapperUni) : bool := timeStamp tw <? timeStamp target.

(** [Less]; an unknown order panics. *)
Definition Less (sWay : SortWay) (tw target : TxWrapperUni) : go bool :=
  match sWay with
  | SortWay_Misc => Ok (lessMisc tw target)
  | SortWay_Height => Ok (lessHeight tw target)
  | SortWay_Time => Ok (lessTime tw target)
  | SortWay_Unknown => Panic
  end.

(** The order as a function, for the ways that do not panic. *)
Definition less (sWay : SortWay) : TxWrapperUni -> TxWrapperUni -> bool :=
  match sWay with
  | SortWay_Misc => lessMisc
  | SortWay_Height => lessHeight
  | SortWay_Time => lessTime
  | SortWay_Unknown => fun _ _ => false
  end.

Lemma Less_less sWay a b : sWay <> SortWay_Unknown -> Less sWay a b = Ok (less sWay a b).
Proof. by destruct sWay. Qed.

Definition CanReplace (st : wstore) (tw other : TxWrapperUni) : bool :=
  bool_decide (TxState_of st tw <> TxState_Packed)
  && bool_decide (fromAddr other = fromAddr tw)
  && (nonce other =? nonce tw) && (gasPrice other >? gasPrice tw).

Section Generate.
Context (blake2b : bytes -> bytes).

(** [now] is the time of the call, [id] the identity of the new object; a
    decoding error is [None].  A nil [Data], or a universal transaction without
    a head, is a nil dereference. *)
Definition GenerateTxWrapperUni (id : nat) (now : Z) (t : Tx.tx) (h : Z) : go (option TxWrapperUni) :=
  txID ← Tx.TxID blake2b t;
  match Transaction.Head t, Transaction.Data t with
  | Some head, Some data =>
      match TransactionUniversal.Unmarshal (TransactionData.Specification data)
              (Wire.s_zero TransactionUniversal.desc) with
      | Ok txUni =>
          match TransactionUniversal.Head txUni with
          | Some uniHead =>
              Ok (Some (mkTxWrapperUni id (default [] txID) (TransactionHead.Category head)
                          (Transaction.Size t) now h (TransactionHead.FromAddr head)
                          (TransactionHead.Nonce head) (TransactionUniversalHead.GasPrice uniHead) t))
          | None => Panic
          end
      | Err _ => Ok None
      | Panic => Panic
      end
  | _, _ => Panic
  end.

Definition GenerateTxWrapper (id : nat) (now : Z) (t : Tx.tx) (h : Z) : go (option TxWrapperUni) :=
  match Transaction.Head t with
  | None => Panic
  | Some head =>
      if decide (TransactionHead.Category head = TransactionCategory_Topia_Universal)
      then GenerateTxWrapperUni id now t h
      else Panic
  end.
End Generate.

(** The height and time orders are strict weak orders. *)
Lemma less_weak_order sWay a b c :
  sWay = SortWay_Height \/ sWay = SortWay_Time ->
  less sWay a a = false
  /\ (less sWay a b = true -> less sWay b c = true -> less sWay a c = true)
  /\ (less sWay a b = false -> less sWay b c = false -> less sWay a c = false).
Proof.
  intros [->| ->]; simpl; unfold lessHeight, lessTime;
    rewrite ?Z.ltb_lt, ?Z.ltb_ge; split_and!; lia.
Qed.

(** [HasFromPeer] is a copy of [AddFromPeer]: it answers whether the peer was
    new and records it. *)
Lemma HasFromPeer_is_AddFromPeer st w p : HasFromPeer st w p = AddFromPeer st w p.
Proof. done. Qed.

End TxWrapper.

Module SortedTxs.
Import TxWrapper.

Record sortedTxList := mkSortedTxList {
  sWay : SortWay;
  txList : list TxWrapperUni;
}.

Definition newSortedTxList (w : SortWay) : sortedTxList := mkSortedTxList w [].

(** Insertion at the index the bisection finds. *)
Definition insert_at (l : list TxWrapperUni) (index : nat) (w : TxWrapperUni) : list TxWrapperUni :=
  take index l ++ [w] ++ drop index l.

Definition addTx (st : sortedTxList) (wTx : TxWrapperUni) : sortedTxList :=
  let index := sort_Search (length (txList st))
    (fun i => match txList st !! i with
              | Some t => less (sWay st) t wTx
              | None => false
              end) in
  if (index =? length (txList st))%nat then mkSortedTxList (sWay st) (txList st ++ [wTx])
  else mkSortedTxList (sWay st) (insert_at (txList st) index wTx).

Fixpoint remove_first (l : list TxWrapperUni) (id : bytes) : list TxWrapperUni * option TxWrapperUni :=
  match l with
  | [] => ([], None)
  | w :: l' =>
      if decide (txID w = id) then (l', Some w)
      else let '(l'', r) := remove_first l' id in (w :: l'', r)
  end.

Definition removeTx (st : sortedTxList) (id : bytes) : sortedTxList * option TxWrapperUni :=
  let '(l, r) := remove_first (txList st) id in (mkSortedTxList (sWay st) l, r).

Definition reset (st : sortedTxList) : sortedTxList := mkSortedTxList (sWay st) [].

Definition size (st : sortedTxList) : nat := length (txList st).

Definition getTx (st : sortedTxList) (id : bytes) : option TxWrapperUni :=
  snd <$> list_find (fun w => txID w = id) (txList st).

(** The loop of [pickTxs]; [blockMaxGas] is not used. *)
Fixpoint pick_loop (l : list TxWrapperUni) (totalSize blockMaxBytes : Z) (rtn : list Tx.tx) :
    list Tx.tx :=
  match l with
  | [] => rtn
  | w :: l' =>
      let totalSize := i64 (totalSize + txSize w) in
      if totalSize >? blockMaxBytes then rtn
      else pick_loop l' totalSize blockMaxBytes (rtn ++ [originTx w])
  end.

Definition pickTxs (st : sortedTxList) (blockMaxBytes blockMaxGas : Z) : list Tx.tx :=
  if (length (txList st) =? 0)%nat then [] else pick_loop (txList st) 0 blockMaxBytes [].

(** ** Laws *)

(** Where [addTx] puts the new transaction. *)
Definition position (st : sortedTxList) (w : TxWrapperUni) : nat :=
  sort_Search (length (txList st))
    (fun i => match txList st !! i with Some t => less (sWay st) t w | None => false end).

Lemma addTx_insert st w : addTx st w = mkSortedTxList (sWay st) (insert_at (txList st) (position st w) w).
Proof.
  unfold addTx. fold (position st w). case_match eqn:E; [|done]. apply Nat.eqb_eq in E.
  unfold insert_at. rewrite E, take_ge, drop_ge by lia. done.
Qed.

Lemma insert_at_perm l i w : insert_at l i w ≡ₚ w :: l.
Proof. unfold insert_at. rewrite Permutation_app_comm. simpl. by rewrite Permutation_app_comm, take_drop. Qed.

Lemma addTx_perm st w : txList (addTx st w) ≡ₚ w :: txList st.
Proof. rewrite addTx_insert. apply insert_at_perm. Qed.

Lemma addTx_sWay st w : sWay (addTx st w) = sWay st.
Proof. by rewrite addTx_insert. Qed.

(** The key the height and time lists are ordered by. *)
Definition key (s : SortWay) (w : TxWrapperUni) : Z :=
  match s with SortWay_Height => height w | _ => timeStamp w end.

Definition keyed (s : SortWay) : Prop := s = SortWay_Height \/ s = SortWay_Time.

Lemma less_key s a b : keyed s -> less s a b = (key s a <? key s b).
Proof. by intros [-> | ->]. Qed.

(** Newest first. *)
Definition newest_first (st : sortedTxList) : Prop :=
  StronglySorted (fun a b => key (sWay st) b <= key (sWay st) a) (txList st).

Lemma position_splits st w : keyed (sWay st) -> newest_first st ->
  (forall t, t ∈ take (position st w) (txList st) -> key (sWay st) w <= key (sWay st) t)
  /\ (forall t, t ∈ drop (position st w) (txList st) -> key (sWay st) t < key (sWay st) w).
Proof.
  intros Hk Hs.
  destruct (sort_Search_monotone
    (fun i => match txList st !! i with Some t => less (sWay st) t w | None => false end)
    (length (txList st))) as [Hlo Hhi].
  { intros i j Hij. destruct (lookup_lt_is_Some_2 (txList st) i) as [a Ha]; [lia|].
    destruct (lookup_lt_is_Some_2 (txList st) j) as [b Hb]; [lia|]. rewrite Ha, Hb, !less_key by done.
    rewrite !Z.ltb_lt. destruct (decide (i = j)) as [->|]; [by simplify_eq|].
    pose proof (StronglySorted_lookup_lt _ _ i j a b Hs Ha Hb ltac:(lia)). simpl in *. lia. }
  fold (position st w) in Hlo, Hhi. split; intros t Ht; apply list_elem_of_lookup in Ht as [i Hi].
  - apply lookup_take_Some in Hi as [Hi Hlt]. specialize (Hlo i Hlt).
    rewrite Hi, less_key in Hlo by done. apply Z.ltb_ge in Hlo. lia.
  - rewrite lookup_drop in Hi. pose proof (lookup_lt_Some _ _ _ Hi).
    specialize (Hhi (position st w + i)%nat ltac:(lia)). rewrite Hi, less_key in Hhi by done.
    apply Z.ltb_lt in Hhi. lia.
Qed.

Lemma addTx_newest_first st w : keyed (sWay st) -> newest_first st -> newest_first (addTx st w).
Proof.
  intros Hk Hs. destruct (position_splits st w Hk Hs) as [Hlo Hhi]. rewrite addTx_insert.
  unfold newest_first in *. cbn [sWay txList]. unfold insert_at.
  rewrite <-(take_drop (position st w) (txList st)) in Hs. apply StronglySorted_app in Hs as (Hcross & H1 & H2).
  apply StronglySorted_app. split_and!; [|done|].
  - intros x y Hx Hy. apply elem_of_app in Hy as [Hy|Hy]; [|by apply Hcross].
    apply list_elem_of_singleton in Hy as ->. by apply Hlo.
  - simpl. constructor; [done|]. apply Forall_forall. intros y Hy. apply Z.lt_le_incl, Hhi, Hy.
Qed.

Lemma remove_first_spec l id :
  match remove_first l id with
  | (l', Some w) => txID w = id /\ l ≡ₚ w :: l' /\ exists l1 l2, l = l1 ++ w :: l2 /\ l' = l1 ++ l2
  | (l', None) => l' = l /\ Forall (fun w => txID w <> id) l
  end.
Proof.
  induction l as [|w l IH]; simpl; [split; [done|constructor]|].
  destruct (decide (txID w = id)) as [Hw|Hw].
  - split_and!; [done|done|]. by exists [], l.
  - destruct (remove_first l id) as [l' [w'|]].
    + destruct IH as (H1 & H2 & l1 & l2 & -> & ->). split_and!; [done| |by exists (w :: l1), l2].
      rewrite H2. apply Permutation_swap.
    + destruct IH as [-> HF]. split; [done|]. by constructor.
Qed.

Lemma removeTx_newest_first st id : newest_first st -> newest_first (removeTx st id).1.
Proof.
  unfold newest_first, removeTx. pose proof (remove_first_spec (txList st) id) as H.
  destruct (remove_first _ _) as [l' [w|]]; cbn [fst sWay txList].
  - destruct H as (_ & _ & l1 & l2 & -> & ->). rewrite !StronglySorted_app.
    intros (Hc & H1 & H2). apply StronglySorted_inv in H2 as [H2 _]. split_and!; [|done|done].
    intros x y Hx Hy. apply Hc; [done|by right].
  - by destruct H as [-> _].
Qed.

(** [pickTxs] takes the longest prefix whose total size fits. *)
Definition total_size (l : list TxWrapperUni) : Z := foldr (fun w n => txSize w + n) 0 l.

Lemma total_size_app l k : total_size (l ++ k) = total_size l + total_size k.
Proof. induction l as [|w l IH]; simpl; [done|]. unfold total_size in *. simpl. lia. Qed.

Lemma total_size_nonneg l : Forall (fun w => 0 <= txSize w) l -> 0 <= total_size l.
Proof. unfold total_size. induction 1; simpl; lia. Qed.

Lemma pick_loop_spec l tot max rtn :
  Forall (fun w => 0 <= txSize w) l -> 0 <= tot -> tot + total_size l < 2 ^ 63 ->
  exists n, (n <= length l)%nat /\ pick_loop l tot max rtn = rtn ++ (originTx <$> take n l)
    /\ ((0 < n)%nat -> tot + total_size (take n l) <= max)
    /\ (forall w, l !! n = Some w -> max < tot + total_size (take (S n) l)).
Proof.
  intros HF. revert tot rtn. induction HF as [|w l Hw HF IH]; intros tot rtn Ht Hb.
  - exists 0%nat. split_and!; [simpl; lia|by rewrite app_nil_r|lia|done].
  - unfold total_size in Hb. cbn [foldr] in Hb. fold (total_size l) in Hb. pose proof (total_size_nonneg l HF).
    cbn [pick_loop]. rewrite (i64_small (tot + txSize w)) by (unfold is_i64; lia).
    destruct (Z.gtb_spec (tot + txSize w) max) as [Hgt|Hle].
    + exists 0%nat. split_and!; [simpl; lia|by rewrite app_nil_r|lia|].
      intros w' Hw'. unfold total_size. simpl. lia.
    + destruct (IH (tot + txSize w) (rtn ++ [originTx w])) as (n & Hn & E & H1 & H2); [lia|lia|].
      exists (S n). split_and!; [simpl; lia|rewrite E; by rewrite <-app_assoc| |].
      * intros _. cbn [take]. change (total_size (w :: take n l)) with (txSize w + total_size (take n l)).
        destruct n as [|n]; [rewrite take_0; unfold total_size; simpl; lia|]. specialize (H1 ltac:(lia)). lia.
      * intros w' Hw'. specialize (H2 w' Hw'). rewrite firstn_cons.
        change (total_size (w :: take (S n) l)) with (txSize w + total_size (take (S n) l)). lia.
Qed.

End SortedTxs.

Module AccountTxs.
Import TxWrapper.

Record accountTxManager := mkAccountTxManager {
  pendingTxs : gmap Z TxWrapperUni;
  gapTxs : gmap Z TxWrapperUni;
  maxContNonce : Z;
}.

Definition newAccountTxManager : accountTxManager := mkAccountTxManager ∅ ∅ 0.

Definition GetMaxContNonce (a : accountTxManager) : Z := maxContNonce a.

Inductive add_error :=
| ErrExistedPending (nonce : Z) (id : bytes)
| ErrExistedGap (nonce : Z) (id : bytes)
| ErrInvalidNonce (nonce expected : Z) (id : bytes).

#[export] Instance add_error_eq_dec : EqDecision add_error.
Proof. solve_decision. Defined.

(** The loop that moves the gap transactions that became contiguous; the
    transactions sent on the channel are collected in [sent].  Every iteration
    deletes an entry of [gapTxs], so its size bounds the iterations. *)
Fixpoint promote (fuel : nat) (a : accountTxManager) (i : Z) (sent : list TxWrapperUni) :
    accountTxManager * list TxWrapperUni :=
  match fuel with
  | O => (a, sent)
  | S fuel =>
      match gapTxs a !! i with
      | None => (a, sent)
      | Some wTxNew =>
          promote fuel
            (mkAccountTxManager (<[i:=wTxNew]> (pendingTxs a)) (delete i (gapTxs a)) i)
            (u64 (i + 1)) (sent ++ [wTxNew])
      end
  end.

(** The new manager, the transactions sent on [pendingTxChan], and the error. *)
Definition AddTx (a : accountTxManager) (wTx : TxWrapperUni) :
    accountTxManager * list TxWrapperUni * option add_error :=
  let n := nonce wTx in
  match pendingTxs a !! n with
  | Some _ => (a, [], Some (ErrExistedPending n (txID wTx)))
  | None =>
      match gapTxs a !! n with
      | Some _ => (a, [], Some (ErrExistedGap n (txID wTx)))
      | None =>
          let expected := u64 (maxContNonce a + 1) in
          if n =? expected then
            let a := mkAccountTxManager (<[n:=wTx]> (pendingTxs a)) (gapTxs a) n in
            let '(a, sent) := promote (S (size (gapTxs a))) a (u64 (n + 1)) [wTx] in
            (a, sent, None)
          else if n >? expected then
            (mkAccountTxManager (pendingTxs a) (<[n:=wTx]> (gapTxs a)) (maxContNonce a), [], None)
          else (a, [], Some (ErrInvalidNonce n expected (txID wTx)))
      end
  end.

Definition removePendingTx (a : accountTxManager) (n : Z) : accountTxManager :=
  mkAccountTxManager (delete n (pendingTxs a)) (gapTxs a) (maxContNonce a).

(** The walks of [getPendingTxs] (upwards) and [getAllTxs] (downwards) from
    [maxContNonce]; they visit distinct entries of the map. *)
Fixpoint walk (fuel : nat) (m : gmap Z TxWrapperUni) (n step : Z) : list Tx.tx :=
  match fuel with
  | O => []
  | S fuel =>
      match m !! n with
      | None => []
      | Some w => originTx w :: walk fuel m (u64 (n + step)) step
      end
  end.

Definition getPendingTxs (a : accountTxManager) : list Tx.tx :=
  walk (S (size (pendingTxs a))) (pendingTxs a) (maxContNonce a) 1.

(** The range over [gapTxs] is in an order the language does not fix. *)
Definition getAllTxs (a : accountTxManager) : list Tx.tx :=
  walk (S (size (pendingTxs a))) (pendingTxs a) (maxContNonce a) (-1)
  ++ (originTx <$> (map_to_list (gapTxs a)).*2).

(** ** Invariant *)

(** Pending nonces are at most [maxContNonce]; gap nonces are beyond the next
    expected one. *)
Record wf (a : accountTxManager) : Prop := mkWf {
  wf_max : 0 <= maxContNonce a;
  wf_pending : forall n w, pendingTxs a !! n = Some w -> nonce w = n /\ 1 <= n <= maxContNonce a;
  wf_gap : forall n w, gapTxs a !! n = Some w -> nonce w = n /\ maxContNonce a + 1 < n;
}.

Lemma new_wf : wf newAccountTxManager.
Proof. split; [done| |]; intros n w H; simpl in H; by rewrite lookup_empty in H. Qed.

(** What is promoted: the contiguous run of gap transactions from [i]. *)
Lemma promote_spec fuel a i sent :
  (size (gapTxs a) < fuel)%nat -> 0 <= i -> i + Z.of_nat (size (gapTxs a)) < 2 ^ 64 ->
  maxContNonce a = i - 1 ->
  exists ws, let k := Z.of_nat (length ws) in
    (promote fuel a i sent).2 = sent ++ ws
    /\ (forall j w, ws !! j = Some w -> gapTxs a !! (i + Z.of_nat j) = Some w)
    /\ gapTxs a !! (i + k) = None
    /\ maxContNonce (promote fuel a i sent).1 = i + k - 1
    /\ (forall n, gapTxs (promote fuel a i sent).1 !! n
          = if decide (i <= n < i + k) then None else gapTxs a !! n)
    /\ (forall n, pendingTxs (promote fuel a i sent).1 !! n
          = if decide (i <= n < i + k) then gapTxs a !! n else pendingTxs a !! n)
    /\ Z.of_nat (size (gapTxs (promote fuel a i sent).1)) + k = Z.of_nat (size (gapTxs a)).
Proof.
  revert a i sent. induction fuel as [|fuel IH]; intros a i sent Hf Hi Hb Hm; [lia|]. cbn [promote].
  destruct (gapTxs a !! i) as [w|] eqn:Eg.
  - assert (Hsz : S (size (delete i (gapTxs a))) = size (gapTxs a))
      by (rewrite <-(insert_delete_id _ _ _ Eg) at 2; by rewrite map_size_insert_None by apply lookup_delete_eq).
    rewrite u64_small by (unfold is_u64; lia).
    set (a1 := mkAccountTxManager _ _ _). destruct (IH a1 (i + 1) (sent ++ [w])) as (ws & H); simpl; [lia..|].
    cbv zeta in H. destruct H as (H1 & H2 & H3 & H4 & H5 & H6 & H7). exists (w :: ws). cbn [length]. cbv zeta.
    split_and!.
    + by rewrite H1, <-app_assoc.
    + intros [|j] w' Hj; cbn [lookup list_lookup] in Hj.
      * simplify_eq. by rewrite Z.add_0_r.
      * specialize (H2 j w' Hj). cbn [a1 gapTxs] in H2.
        rewrite lookup_delete_ne in H2 by lia. rewrite <-H2. f_equal. lia.
    + cbn [a1 gapTxs] in H3. rewrite lookup_delete_ne in H3 by lia. rewrite <-H3. f_equal. lia.
    + rewrite H4. lia.
    + intros n. rewrite H5. cbn [a1 gapTxs]. repeat case_decide; try lia; try done.
      * assert (n = i) as -> by lia. apply lookup_delete_eq.
      * by rewrite lookup_delete_ne by lia.
    + intros n. rewrite H6. cbn [a1 gapTxs pendingTxs]. repeat case_decide; try lia.
      * by rewrite lookup_delete_ne by lia.
      * assert (n = i) as -> by lia. by rewrite lookup_insert_eq, Eg.
      * by rewrite lookup_insert_ne by lia.
    + cbn [a1 gapTxs] in H7. lia.
  - exists []. cbn [length]. cbv zeta. rewrite Z.add_0_r. split_and!; simpl.
    + by rewrite app_nil_r.
    + done.
    + done.
    + lia.
    + intros n. case_decide; [lia|done].
    + intros n. case_decide; [lia|done].
    + lia.
Qed.

(** The nonces below the wrap-around of [uint64]: how many additions an
    account can take before [maxContNonce] could overflow. *)
Definition room (a : accountTxManager) : Prop :=
  maxContNonce a + Z.of_nat (size (gapTxs a)) + 2 < 2 ^ 64.

(** What one accepted or refused [AddTx] does. *)
Definition added (a : accountTxManager) (w : TxWrapperUni)
    (r : accountTxManager * list TxWrapperUni * option add_error) : Prop :=
  let '(a', sent, err) := r in
  wf a' /\ maxContNonce a <= maxContNonce a'
  /\ maxContNonce a' + Z.of_nat (size (gapTxs a')) <= maxContNonce a + Z.of_nat (size (gapTxs a)) + 1
  /\ nonce <$> sent = seqZ (maxContNonce a + 1) (maxContNonce a' - maxContNonce a)
  /\ (forall n t, pendingTxs a' !! n = Some t <-> pendingTxs a !! n = Some t \/ (t ∈ sent /\ nonce t = n))
  /\ (forall n t, gapTxs a' !! n = Some t -> gapTxs a !! n = Some t \/ t = w)
  /\ (forall n t, gapTxs a !! n = Some t -> gapTxs a' !! n = Some t \/ n <= maxContNonce a')
  /\ match err with
     | Some _ => a' = a /\ sent = [] /\ (nonce w <= maxContNonce a \/ is_Some (gapTxs a !! nonce w))
     | None => maxContNonce a < nonce w /\ gapTxs a !! nonce w = None
               /\ (w ∈ sent \/ (gapTxs a' !! nonce w = Some w /\ sent = []))
               /\ (forall t, t ∈ sent -> t = w \/ gapTxs a !! nonce t = Some t)
     end.

Lemma AddTx_refused a w e : wf a ->
  nonce w <= maxContNonce a \/ is_Some (gapTxs a !! nonce w) -> added a w (a, [], Some e).
Proof.
  intros Hwf H. unfold added. split_and!; try done; try lia.
  - by rewrite Z.sub_diag.
  - intros n t. rewrite elem_of_nil. naive_solver.
  - intros n t. by left.
  - intros n t. by left.
Qed.

Lemma AddTx_gap a w : wf a -> maxContNonce a + 1 < nonce w -> gapTxs a !! nonce w = None ->
  added a w (mkAccountTxManager (pendingTxs a) (<[nonce w:=w]> (gapTxs a)) (maxContNonce a), [], None).
Proof.
  intros [H0 Hp Hg] Hn Hnone. unfold added. cbn [maxContNonce gapTxs pendingTxs]. split_and!; try done; try lia.
  - split; cbn; [done|done|]. intros n t [[<- <-]|[_ H]]%lookup_insert_Some; [done|by apply Hg].
  - rewrite map_size_insert_None by done. lia.
  - by rewrite Z.sub_diag.
  - intros n t. rewrite elem_of_nil. naive_solver.
  - intros n t [[_ <-]|[_ H]]%lookup_insert_Some; [by right|by left].
  - intros n t Ht. left. rewrite lookup_insert_ne; [done|]. intros <-. congruence.
  - right. by rewrite lookup_insert_eq.
  - intros t Ht. by apply elem_of_nil in Ht.
Qed.

Lemma AddTx_contiguous a w : wf a -> room a -> nonce w = maxContNonce a + 1 ->
  let a1 := mkAccountTxManager (<[nonce w:=w]> (pendingTxs a)) (gapTxs a) (nonce w) in
  added a w (promote (S (size (gapTxs a))) a1 (nonce w + 1) [w], None).
Proof.
  intros [H0 Hp Hg] Hroom Hn a1. unfold room in Hroom.
  destruct (promote_spec (S (size (gapTxs a))) a1 (nonce w + 1) [w]) as (ws & H); [simpl; lia..|].
  cbv zeta in H. destruct (promote _ _ _ _) as [a' sent]. cbn [fst snd a1 gapTxs pendingTxs] in H.
  destruct H as (H1 & H2 & H3 & H4 & H5 & H6 & H7).
  assert (Hws : forall j t, ws !! j = Some t -> nonce t = nonce w + 1 + Z.of_nat j)
    by (intros j t Hj; apply H2, Hg in Hj; lia).
  assert (Hin : forall t, t ∈ ws <-> gapTxs a !! nonce t = Some t /\ nonce w + 1 <= nonce t < nonce w + 1 + Z.of_nat (length ws)).
  { intros t. rewrite list_elem_of_lookup. split.
    - intros [j Hj]. rewrite (Hws j t Hj). split; [by apply H2|].
      apply lookup_lt_Some in Hj. lia.
    - intros [Ht Hr]. exists (Z.to_nat (nonce t - (nonce w + 1))).
      destruct (lookup_lt_is_Some_2 ws (Z.to_nat (nonce t - (nonce w + 1)))) as [t' Ht']; [lia|].
      rewrite Ht'. apply H2 in Ht'. f_equal. replace (_ + Z.of_nat _) with (nonce t) in Ht' by lia. congruence. }
  unfold added. rewrite H1. split_and!.
  - split; [lia| |].
    + intros n t. rewrite H6. case_decide as Hd.
      * intros Ht. destruct (Hg _ _ Ht). lia.
      * intros [[<- <-]|[_ Ht]]%lookup_insert_Some; [lia|]. apply Hp in Ht. lia.
    + intros n t. rewrite H5. case_decide as Hd; [done|]. intros Ht. destruct (Hg _ _ Ht) as [Ht1 Ht2].
      split; [done|]. rewrite H4. destruct (decide (n = nonce w + 1 + Z.of_nat (length ws))) as [->|]; [congruence|lia].
  - lia.
  - lia.
  - change ([w] ++ ws) with (w :: ws). rewrite fmap_cons. apply list_eq. intros [|j].
    + rewrite lookup_seqZ_lt by lia. cbn. f_equal. lia.
    + change ((nonce w :: (nonce <$> ws)) !! S j) with ((nonce <$> ws) !! j). rewrite list_lookup_fmap. destruct (ws !! j) as [t|] eqn:Ej; cbn.
      * pose proof (lookup_lt_Some _ _ _ Ej). rewrite lookup_seqZ_lt by lia. f_equal. rewrite (Hws j t Ej). lia.
      * apply lookup_ge_None in Ej. symmetry. apply lookup_seqZ_ge. lia.
  - intros n t. rewrite H6. change ([w] ++ ws) with (w :: ws). rewrite elem_of_cons, Hin. case_decide as Hd.
    + split; [intros Ht; destruct (Hg _ _ Ht); subst; right; split; [right; split; [done|lia]|done]|].
      intros [Ht|[[-> | [Ht _]] <-]]; [apply Hp in Ht; lia|lia|done].
    + rewrite lookup_insert_Some. split.
      * intros [[<- <-]|[_ Ht]]; [right; split; [by left|done]|by left].
      * intros [Ht|[[-> | [_ Hr]] <-]]; [right; split; [apply Hp in Ht; lia|done]|by left|lia].
  - intros n t. rewrite H5. case_decide; [done|by left].
  - intros n t Ht. rewrite H5, H4. case_decide; [right; lia|by left].
  - lia.
  - destruct (gapTxs a !! nonce w) as [t|] eqn:E; [|done]. apply Hg in E. lia.
  - left. by left.
  - intros t. change ([w] ++ ws) with (w :: ws). rewrite elem_of_cons, Hin. naive_solver.
Qed.

Lemma AddTx_spec a w : wf a -> room a -> is_u64 (nonce w) -> added a w (AddTx a w).
Proof.
  intros Hwf Hroom Hn. unfold AddTx, room, is_u64 in *. pose proof (wf_max a Hwf).
  destruct (pendingTxs a !! nonce w) as [t|] eqn:Ep.
  { apply AddTx_refused; [done|]. apply (wf_pending a Hwf) in Ep. lia. }
  destruct (gapTxs a !! nonce w) as [t|] eqn:Eg; [apply AddTx_refused; [done|by right; eexists]|].
  rewrite (u64_small (maxContNonce a + 1)) by (unfold is_u64; lia).
  destruct (Z.eqb_spec (nonce w) (maxContNonce a + 1)) as [E|Hne].
  - rewrite (u64_small (nonce w + 1)) by (unfold is_u64; lia).
    pose proof (AddTx_contiguous a w Hwf ltac:(unfold room; lia) E) as Hc. cbv zeta in Hc.
    by destruct (promote _ _ _ _).
  - destruct (Z.gtb_spec (nonce w) (maxContNonce a + 1)); [apply AddTx_gap; [done|lia|done]|].
    apply AddTx_refused; [done|lia].
Qed.

Lemma removePendingTx_wf a n : wf a -> wf (removePendingTx a n).
Proof.
  intros [H0 Hp Hg]. split; cbn; [done| |done].
  intros k w [_ H]%lookup_delete_Some. by apply Hp.
Qed.

(** ** Release order *)

Inductive op := OpAdd (w : TxWrapperUni) | OpRemove (n : Z).

(** A run of an account: the state and everything it has released. *)
Definition step (s : accountTxManager * list TxWrapperUni) (o : op) : accountTxManager * list TxWrapperUni :=
  match o with
  | OpAdd w => let '(a, sent, _) := AddTx s.1 w in (a, s.2 ++ sent)
  | OpRemove n => (removePendingTx s.1 n, s.2)
  end.

Definition op_ok (o : op) : Prop := match o with OpAdd w => is_u64 (nonce w) | OpRemove _ => True end.

Lemma step_run ops : Forall op_ok ops -> Z.of_nat (length ops) + 2 < 2 ^ 64 ->
  let s := foldl step (newAccountTxManager, []) ops in
  wf s.1 /\ maxContNonce s.1 + Z.of_nat (size (gapTxs s.1)) <= Z.of_nat (length ops)
  /\ nonce <$> s.2 = seqZ 1 (maxContNonce s.1).
Proof.
  induction ops as [|o ops IH] using rev_ind; intros Hok Hlen.
  - cbn. split_and!; [apply new_wf|done|done].
  - rewrite length_app in *. simpl in Hlen. apply Forall_app in Hok as [Hok Ho].
    rewrite Forall_singleton in Ho. destruct (IH Hok ltac:(lia)) as (Hwf & Hb & Hs).
    rewrite foldl_app. cbn [foldl]. set (s := foldl step _ ops) in *. cbv zeta. destruct s as [a l]. cbn [fst snd] in *.
    destruct o as [w|n]; cbn [step fst snd].
    + pose proof (AddTx_spec a w Hwf ltac:(unfold room; lia) Ho) as H.
      destruct (AddTx a w) as [[a' sent] err]. destruct H as (Hwf' & Hle & Hb' & Hsent & _).
      cbn [fst snd length]. pose proof (wf_max a Hwf). split_and!; [done|lia|].
      rewrite fmap_app, Hs, Hsent. replace (maxContNonce a + 1) with (1 + maxContNonce a) by lia.
      rewrite <-seqZ_app by lia. f_equal. lia.
    + cbn [fst snd length]. split_and!; [by apply removePendingTx_wf| |done].
      cbn [removePendingTx maxContNonce gapTxs]. lia.
Qed.

End AccountTxs.

Module CollectTxs.
Import TxWrapper SortedTxs.

Record pendingTxList := mkPendingTxList {
  sortedTxs : sortedTxList;
  heightTxs : sortedTxList;
  timeTxs : sortedTxList;
}.

(** [pendingTxChan] is the queue between the accounts and the pending lists: the
    values in the channel's buffer of 100, followed by those of senders that
    wait for room in it. *)
Record CollectTxs := mkCollectTxs {
  fullTxs : ShrinkMap.ShrinkableMap bytes TxWrapperUni;
  accountTxs : gmap bytes AccountTxs.accountTxManager;
  pendingTxChan : list TxWrapperUni;
  pendingTxs : pendingTxList;
}.

Definition chanSize : nat := 100.

Definition newPendingTxList : pendingTxList :=
  mkPendingTxList (newSortedTxList SortWay_Misc) (newSortedTxList SortWay_Height) (newSortedTxList SortWay_Time).

Definition NewCollectTxs : CollectTxs := mkCollectTxs ShrinkMap.NewShrinkMap ∅ [] newPendingTxList.

Definition list_addTx (pl : pendingTxList) (wTx : TxWrapperUni) : pendingTxList :=
  mkPendingTxList (addTx (sortedTxs pl) wTx) (addTx (heightTxs pl) wTx) (addTx (timeTxs pl) wTx).

Definition list_removeTx (pl : pendingTxList) (id : bytes) : pendingTxList * option TxWrapperUni :=
  let '(s, wTx) := removeTx (sortedTxs pl) id in
  (mkPendingTxList s (removeTx (heightTxs pl) id).1 (removeTx (timeTxs pl) id).1, wTx).

(** One iteration of the goroutine of [startReceivePendingTx]. *)
Definition receivePendingTx (c : CollectTxs) : CollectTxs :=
  match pendingTxChan c with
  | [] => c
  | wTx :: ch => mkCollectTxs (fullTxs c) (accountTxs c) ch (list_addTx (pendingTxs c) wTx)
  end.

Inductive collect_error := ErrExistedTx (id : bytes) | ErrAccount (e : AccountTxs.add_error).

#[local] Existing Instance AccountTxs.add_error_eq_dec.

#[export] Instance collect_error_eq_dec : EqDecision collect_error.
Proof. solve_decision. Defined.

Definition AddTx (c : CollectTxs) (wTx : TxWrapperUni) : CollectTxs * option collect_error :=
  match ShrinkMap.Get (fullTxs c) (txID wTx) with
  | Some _ => (c, Some (ErrExistedTx (txID wTx)))
  | None =>
      let fullTxs := ShrinkMap.Set' (fullTxs c) (txID wTx) wTx in
      let acc := default AccountTxs.newAccountTxManager (accountTxs c !! fromAddr wTx) in
      let '(acc, sent, err) := AccountTxs.AddTx acc wTx in
      (mkCollectTxs fullTxs (<[fromAddr wTx:=acc]> (accountTxs c)) (pendingTxChan c ++ sent) (pendingTxs c),
       ErrAccount <$> err)
  end.

Definition RemoveTx (c : CollectTxs) (id : bytes) : CollectTxs * option TxWrapperUni :=
  let full := ShrinkMap.Del (fullTxs c) id in
  let '(pl, r) := list_removeTx (pendingTxs c) id in
  match r with
  | Some wTx =>
      let accs :=
        match accountTxs c !! fromAddr wTx with
        | Some a => <[fromAddr wTx:=AccountTxs.removePendingTx a (nonce wTx)]> (accountTxs c)
        | None => accountTxs c
        end in
      (mkCollectTxs full accs (pendingTxChan c) pl, Some wTx)
  | None => (mkCollectTxs full (accountTxs c) (pendingTxChan c) pl, None)
  end.

Definition PickTxs (c : CollectTxs) (blockMaxBytes blockMaxGas : Z) : list Tx.tx :=
  pickTxs (sortedTxs (pendingTxs c)) blockMaxBytes blockMaxGas.

Definition PendingOfAddress (c : CollectTxs) (addr : bytes) : option (list Tx.tx) :=
  AccountTxs.getPendingTxs <$> accountTxs c !! addr.

Definition AllOfAddress (c : CollectTxs) (addr : bytes) : option (list Tx.tx) :=
  AccountTxs.getAllTxs <$> accountTxs c !! addr.

(** The range over [accountTxs] is in an order the language does not fix. *)
Definition AllOfAddressFunc (c : CollectTxs) (addrFunc : bytes -> bool) : list Tx.tx :=
  concat ((fun p => AccountTxs.getAllTxs p.2) <$> filter (fun p => addrFunc p.1 = true) (map_to_list (accountTxs c))).

Definition GetTx (c : CollectTxs) (id : bytes) : option TxWrapperUni := ShrinkMap.Get (fullTxs c) id.

(** ** Maintenance under the list's mutex *)

(** The mutex is not reentrant: locking it again in the call that holds it
    never returns. *)
Inductive blocking (A : Type) := Done (a : A) | Blocked.
Arguments Done {_} _.
Arguments Blocked {_}.

Definition removeTx_under (held : bool) (pl : pendingTxList) (id : bytes) : blocking pendingTxList :=
  if held then Blocked else Done (list_removeTx pl id).1.

Fixpoint purge_loop (expired : TxWrapperUni -> bool) (l : list TxWrapperUni) (pl : pendingTxList) :
    blocking pendingTxList :=
  match l with
  | [] => Done pl
  | wTx :: l =>
      if expired wTx then
        match removeTx_under true pl (txID wTx) with
        | Done pl => purge_loop expired l pl
        | Blocked => Blocked
        end
      else purge_loop expired l pl
  end.

(** [purgeExpiredTxs] holds the lock over both loops; [now] is read after
    taking it.  [now.Sub] saturates at the range of [Duration]. *)
Definition duration (z : Z) : Z := Z.max (- 2 ^ 63) (Z.min (2 ^ 63 - 1) z).

Definition purgeExpiredTxs (pl : pendingTxList) (now h timeOfTxLifecycle heightOfTxLifecycle : Z) :
    blocking pendingTxList :=
  match purge_loop (fun w => h =? u64 (height w + heightOfTxLifecycle)) (txList (heightTxs pl)) pl with
  | Done pl => purge_loop (fun w => duration (now - timeStamp w) >? timeOfTxLifecycle) (txList (timeTxs pl)) pl
  | Blocked => Blocked
  end.

Definition PurgeExpiredTxs (c : CollectTxs) (now h timeOfTxLifecycle heightOfTxLifecycle : Z) : blocking CollectTxs :=
  match purgeExpiredTxs (pendingTxs c) now h timeOfTxLifecycle heightOfTxLifecycle with
  | Done pl => Done (mkCollectTxs (fullTxs c) (accountTxs c) (pendingTxChan c) pl)
  | Blocked => Blocked
  end.

(** [republishTxs]: [publish] acts on a state from which the transactions'
    states are read. *)
Fixpoint republish_loop {S} (txStateOf : S -> TxWrapperUni -> TxState) (publish : S -> TxWrapperUni -> S)
    (rePubLimit rePubCnt : Z) (l : list TxWrapperUni) (s : S) : S :=
  match l with
  | [] => s
  | wTx :: l =>
      if (rePubCnt <? rePubLimit) && bool_decide (txStateOf s wTx <> TxState_Republished)
      then republish_loop txStateOf publish rePubLimit (rePubCnt + 1) l (publish s wTx)
      else republish_loop txStateOf publish rePubLimit rePubCnt l s
  end.

Definition RepublishTxs {S} (txStateOf : S -> TxWrapperUni -> TxState) (publish : S -> TxWrapperUni -> S)
    (c : CollectTxs) (rePubLimit : Z) (s : S) : S :=
  republish_loop txStateOf publish rePubLimit 0 (txList (heightTxs (pendingTxs c))) s.

End CollectTxs.
