(* ===== verification/TxCoreSpec.v ===== *)
(** Correctness of the core of the transaction pool: the nonces an account
    releases, the invariant that ties the accounts, the channel and the sorted
    lists together, and what [PickTxs] picks. *)
From Stdlib Require Import ZArith Lia Strings.Byte.
From stdpp Require Import base gmap list strings sorting.
From S2P Require Import Prelude Common Wire TxMessages TxBasic TxCore.
#[local] Open Scope Z_scope.

Module TxCoreSpec.
Import TxWrapper SortedTxs CollectTxs.

(** * The collection *)

Definition listed (c : CollectTxs) : list TxWrapperUni := txList (sortedTxs (pendingTxs c)).

(** Transactions on their way to a block: in the lists or in the channel. *)
Definition queued (c : CollectTxs) : list TxWrapperUni := listed c ++ pendingTxChan c.

Definition slot (w : TxWrapperUni) : bytes * Z := (fromAddr w, nonce w).

(** [w] is a pending transaction of its sender's account. *)
Definition is_pending (c : CollectTxs) (w : TxWrapperUni) : Prop :=
  exists a, accountTxs c !! fromAddr w = Some a /\ AccountTxs.pendingTxs a !! nonce w = Some w.

Lemma is_pending_unique c w w' : is_pending c w -> is_pending c w' -> slot w = slot w' -> w = w'.
Proof. intros (a & Ha & Hw) (a' & Ha' & Hw') [= E1 E2]. rewrite E1 in Ha. rewrite E2 in Hw. congruence. Qed.

(** The three lists hold the same transactions, two of them in order. *)
Record lists_inv (pl : pendingTxList) : Prop := mkListsInv {
  li_misc : sWay (sortedTxs pl) = SortWay_Misc;
  li_hway : sWay (heightTxs pl) = SortWay_Height;
  li_tway : sWay (timeTxs pl) = SortWay_Time;
  li_height : txList (heightTxs pl) ≡ₚ txList (sortedTxs pl);
  li_time : txList (timeTxs pl) ≡ₚ txList (sortedTxs pl);
  li_hsorted : newest_first (heightTxs pl);
  li_tsorted : newest_first (timeTxs pl);
}.

Lemma lists_new : lists_inv newPendingTxList.
Proof. by split; try constructor. Qed.

Lemma lists_add pl w : lists_inv pl -> lists_inv (list_addTx pl w).
Proof.
  intros [H1 H2 H3 H4 H5 H6 H7]. split; cbn [list_addTx sortedTxs heightTxs timeTxs]; rewrite ?addTx_sWay; try done.
  - by rewrite !addTx_perm, H4.
  - by rewrite !addTx_perm, H5.
  - apply addTx_newest_first; [|done]. rewrite H2. by left.
  - apply addTx_newest_first; [|done]. rewrite H3. by right.
Qed.

(** Removing by id takes the same transaction out of each list, provided ids
    are unique in them. *)
Lemma remove_same (l k : list TxWrapperUni) id w l' :
  k ≡ₚ l -> remove_first l id = (l', Some w) ->
  (forall t, t ∈ l -> txID t = id -> t = w) -> (remove_first k id).1 ≡ₚ l'.
Proof.
  intros Hp El Huniq. pose proof (remove_first_spec l id) as Hl. rewrite El in Hl.
  destruct Hl as (Hw & Hl & _). pose proof (remove_first_spec k id) as Hk.
  destruct (remove_first k id) as [k' [w'|]].
  - destruct Hk as (Hw' & Hk & _). assert (w' = w) as ->.
    { apply Huniq; [|done]. rewrite <-Hp, Hk. by left. }
    apply (Permutation_cons_inv (a:=w)). by rewrite <-Hk, <-Hl.
  - destruct Hk as [_ HF]. exfalso. rewrite Forall_forall in HF. apply (HF w); [|done].
    rewrite Hp, Hl. by left.
Qed.

Lemma remove_none (l k : list TxWrapperUni) id l' :
  k ≡ₚ l -> remove_first l id = (l', None) -> l' = l /\ (remove_first k id).1 = k.
Proof.
  intros Hp El. pose proof (remove_first_spec l id) as Hl. rewrite El in Hl. destruct Hl as [-> HF].
  split; [done|]. pose proof (remove_first_spec k id) as Hk. destruct (remove_first k id) as [k' [w|]].
  - destruct Hk as (Hw & Hk & _). exfalso. rewrite Forall_forall in HF. apply (HF w); [|done].
    rewrite <-Hp, Hk. by left.
  - by destruct Hk as [-> _].
Qed.

Lemma removeTx_list st id : txList (removeTx st id).1 = (remove_first (txList st) id).1.
Proof. unfold removeTx. by destruct (remove_first _ _). Qed.

Lemma removeTx_sWay st id : sWay (removeTx st id).1 = sWay st.
Proof. unfold removeTx. by destruct (remove_first _ _). Qed.

Lemma lists_remove pl id :
  lists_inv pl -> (forall t t', t ∈ txList (sortedTxs pl) -> t' ∈ txList (sortedTxs pl) ->
    txID t = id -> txID t' = id -> t = t') ->
  lists_inv (list_removeTx pl id).1
  /\ match (list_removeTx pl id).2 with
     | Some w => txID w = id /\ txList (sortedTxs pl) ≡ₚ w :: txList (sortedTxs (list_removeTx pl id).1)
     | None => (list_removeTx pl id).1 = pl /\ Forall (fun t => txID t <> id) (txList (sortedTxs pl))
     end.
Proof.
  intros [H1 H2 H3 H4 H5 H6 H7] Huniq. unfold list_removeTx.
  assert (Erm : removeTx (sortedTxs pl) id = (mkSortedTxList (sWay (sortedTxs pl)) (remove_first (txList (sortedTxs pl)) id).1,
    (remove_first (txList (sortedTxs pl)) id).2)) by (unfold removeTx; by destruct (remove_first _ _)).
  rewrite Erm. clear Erm. pose proof (remove_first_spec (txList (sortedTxs pl)) id) as Hr.
  destruct (remove_first (txList (sortedTxs pl)) id) as [l' [w|]] eqn:El; cbn [fst snd].
  - destruct Hr as (Hw & Hp & _).
    assert (Hu : forall t, t ∈ txList (sortedTxs pl) -> txID t = id -> t = w).
    { intros t Ht Hid. apply Huniq; [done| |done|done]. rewrite Hp. by left. }
    split; [|done]. split; cbn [sortedTxs heightTxs timeTxs sWay txList]; rewrite ?removeTx_sWay, ?removeTx_list; try done.
    + by eapply remove_same.
    + by eapply remove_same.
    + by apply removeTx_newest_first.
    + by apply removeTx_newest_first.
  - destruct Hr as [-> HF].
    assert (Hsame : forall st, txList st ≡ₚ txList (sortedTxs pl) -> (removeTx st id).1 = st).
    { intros st Hst. destruct (remove_none _ _ id _ Hst El) as [_ E]. destruct st as [sw l].
      unfold removeTx. cbn in *. by destruct (remove_first l id); cbn in *; subst. }
    rewrite (Hsame (heightTxs pl)), (Hsame (timeTxs pl)) by done.
    assert (Epl : mkPendingTxList (mkSortedTxList (sWay (sortedTxs pl)) (txList (sortedTxs pl))) (heightTxs pl) (timeTxs pl) = pl)
      by (by destruct pl as [[? ?] ? ?]).
    rewrite Epl. by split.
Qed.

Section Invariant.
(** The wrappers the pool is given: transaction ids determine the sender and
    the nonce, which they do short of a hash collision. *)
Context (good : TxWrapperUni -> Prop).
Context (good_id : forall w w', good w -> good w' -> txID w = txID w' -> slot w = slot w').

Record acc_inv (k : Z) (addr : bytes) (a : AccountTxs.accountTxManager) : Prop := mkAccInv {
  ai_wf : AccountTxs.wf a;
  ai_bound : AccountTxs.maxContNonce a + Z.of_nat (base.size (AccountTxs.gapTxs a)) <= k;
  ai_own : forall n w, AccountTxs.pendingTxs a !! n = Some w \/ AccountTxs.gapTxs a !! n = Some w ->
    fromAddr w = addr /\ good w;
}.

Record inv (k : Z) (c : CollectTxs) : Prop := mkInv {
  inv_accs : map_Forall (acc_inv k) (accountTxs c);
  inv_lists : lists_inv (pendingTxs c);
  inv_nodup : NoDup (slot <$> queued c);
  inv_pending : forall w, w ∈ queued c <-> is_pending c w;
}.

Lemma acc_inv_mono k k' addr a : k <= k' -> acc_inv k addr a -> acc_inv k' addr a.
Proof. intros Hk [H1 H2 H3]. split; [done|lia|done]. Qed.

Lemma inv_mono k k' c : k <= k' -> inv k c -> inv k' c.
Proof.
  intros Hk [H1 H2 H3 H4]. split; [|done..]. intros addr a Ha. by eapply acc_inv_mono, H1.
Qed.

Lemma inv_new : inv 0 NewCollectTxs.
Proof.
  split; [apply map_Forall_empty|apply lists_new|constructor|].
  intros w. split; [by intros ?%elem_of_nil|]. intros (a & Ha & _). cbn in Ha; by rewrite lookup_empty in Ha.
Qed.

Lemma queued_good k c w : inv k c -> w ∈ queued c -> good w.
Proof.
  intros Hi Hw. apply (inv_pending _ _ Hi) in Hw as (a & Ha & Hp).
  apply (ai_own _ _ _ (inv_accs _ _ Hi _ _ Ha) (nonce w)). by left.
Qed.

Lemma queued_id_unique k c w w' : inv k c -> w ∈ queued c -> w' ∈ queued c -> txID w = txID w' -> w = w'.
Proof.
  intros Hi Hw Hw' Hid. eapply is_pending_unique; [by apply (inv_pending _ _ Hi)..|].
  apply good_id; [by eapply queued_good..|done].
Qed.

(** The sender's account before an addition. *)
Definition account (c : CollectTxs) (addr : bytes) : AccountTxs.accountTxManager :=
  default AccountTxs.newAccountTxManager (accountTxs c !! addr).

Lemma account_inv k c addr : inv k c -> 0 <= k -> acc_inv k addr (account c addr).
Proof.
  intros Hi Hk. unfold account. destruct (accountTxs c !! addr) as [a|] eqn:Ea; [by apply (inv_accs _ _ Hi)|].
  split; [apply AccountTxs.new_wf|simpl; rewrite map_size_empty; lia|].
  intros n w [H|H]; simpl in H; by rewrite lookup_empty in H.
Qed.

Lemma is_pending_account c w : is_pending c w <-> AccountTxs.pendingTxs (account c (fromAddr w)) !! nonce w = Some w.
Proof.
  unfold is_pending, account. destruct (accountTxs c !! fromAddr w) as [a|]; simpl.
  - naive_solver.
  - split; [by intros (? & ? & _)|by rewrite lookup_empty].
Qed.

Lemma inv_add k c w : inv k c -> 0 <= k -> k + 2 < 2 ^ 64 -> good w -> is_u64 (nonce w) ->
  inv (k + 1) (AddTx c w).1.
Proof.
  intros Hi Hk Hb Hg Hn. unfold AddTx.
  destruct (ShrinkMap.Get _ _); [cbn; eapply inv_mono; [|done]; lia|].
  fold (account c (fromAddr w)). pose proof (account_inv k c (fromAddr w) Hi Hk) as [Hwf Hbound Hown].
  pose proof (AccountTxs.AddTx_spec (account c (fromAddr w)) w Hwf ltac:(unfold AccountTxs.room; lia) Hn) as Hs.
  destruct (AccountTxs.AddTx (account c (fromAddr w)) w) as [[a' sent] err]. cbn [fst].
  destruct Hs as (Hwf' & Hle & Hb' & Hsent & Hpend & Hgap & _ & Herr).
  assert (Hfrom : forall t, t ∈ sent -> (fromAddr t = fromAddr w /\ good t) /\ AccountTxs.maxContNonce (account c (fromAddr w)) < nonce t).
  { intros t Ht. split.
    - destruct err; [destruct Herr as (_ & -> & _); by apply elem_of_nil in Ht|].
      destruct Herr as (_ & _ & _ & Ht'). destruct (Ht' t Ht) as [-> | Hgt]; [done|]. eapply Hown. by right.
    - assert (nonce t ∈ nonce <$> sent) as Hin by (by apply list_elem_of_fmap_2).
      rewrite Hsent in Hin. apply elem_of_seqZ in Hin. lia. }
  split; cbn [accountTxs pendingTxs].
  - intros addr a [[<- <-]|[Hne Ha]]%lookup_insert_Some; [|eapply acc_inv_mono; [|by apply (inv_accs _ _ Hi)]; lia].
    split; [done|lia|]. intros n t [[Ht|[Ht _]]%Hpend|[Ht| ->]%Hgap];
      [eapply Hown; by left|by apply Hfrom|eapply Hown; by right|done].
  - exact (inv_lists _ _ Hi).
  - unfold queued, listed in *. cbn [pendingTxs pendingTxChan]. rewrite app_assoc, fmap_app.
    apply NoDup_app. split_and!.
    + exact (inv_nodup _ _ Hi).
    + intros s Hs1 Hs2. apply list_elem_of_fmap in Hs1 as (t & -> & Ht).
      apply list_elem_of_fmap in Hs2 as (t' & [= E1 E2] & Ht').
      destruct (Hfrom t' Ht') as [[Ef _] Hlt]. apply (inv_pending _ _ Hi), is_pending_account in Ht.
      rewrite E1, Ef in Ht. apply (AccountTxs.wf_pending _ Hwf) in Ht. lia.
    + apply (NoDup_fmap_1 snd). rewrite <-list_fmap_compose. change (snd ∘ slot) with nonce.
      rewrite Hsent. apply NoDup_seqZ.
  - intros t. unfold queued, listed in *. cbn [pendingTxs pendingTxChan]. rewrite app_assoc, elem_of_app.
    fold (listed c) (queued c). rewrite (inv_pending _ _ Hi), !is_pending_account.
    unfold account at 2. cbn [accountTxs]. destruct (decide (fromAddr t = fromAddr w)) as [E|Hne].
    + rewrite E, lookup_insert_eq. cbn [default from_option id]. rewrite Hpend. naive_solver.
    + rewrite lookup_insert_ne by done. split; [intros [H|Ht]; [done|]|by left].
      by destruct (Hfrom t Ht) as [[? _] _].
Qed.

Lemma inv_receive k c : inv k c -> inv k (receivePendingTx c).
Proof.
  intros Hi. unfold receivePendingTx. destruct (pendingTxChan c) as [|w ch] eqn:Ec; [done|].
  assert (Hq : queued (mkCollectTxs (fullTxs c) (accountTxs c) ch (list_addTx (pendingTxs c) w)) ≡ₚ queued c).
  { unfold queued, listed. cbn [pendingTxs pendingTxChan list_addTx sortedTxs]. rewrite Ec, addTx_perm.
    cbn [app]. apply Permutation_middle. }
  split; cbn [accountTxs pendingTxs].
  - exact (inv_accs _ _ Hi).
  - apply lists_add, (inv_lists _ _ Hi).
  - rewrite Hq. exact (inv_nodup _ _ Hi).
  - intros t. rewrite Hq. exact (inv_pending _ _ Hi t).
Qed.

Lemma inv_remove k c id : inv k c -> inv k (RemoveTx c id).1.
Proof.
  intros Hi. unfold RemoveTx.
  assert (Hsub : forall t, t ∈ txList (sortedTxs (pendingTxs c)) -> t ∈ queued c)
    by (intros t Ht; apply elem_of_app; by left).
  destruct (lists_remove (pendingTxs c) id (inv_lists _ _ Hi)) as [Hl Hr].
  { intros t t' Ht Ht' E E'. eapply queued_id_unique; eauto. congruence. }
  destruct (list_removeTx (pendingTxs c) id) as [pl [w|]]; cbn [fst snd] in *.
  - destruct Hr as [Hid Hp]. set (c' := mkCollectTxs _ _ _ _).
    assert (Hq : queued c ≡ₚ w :: queued c') by (unfold queued, listed; cbn [c' pendingTxs pendingTxChan]; by rewrite Hp).
    assert (Hw : is_pending c w) by (apply (inv_pending _ _ Hi), Hsub; rewrite Hp; by left).
    destruct Hw as (a & Ha & Hpa). unfold c'. rewrite Ha.
    pose proof (inv_nodup _ _ Hi) as Hnd. rewrite Hq in Hnd. apply NoDup_cons in Hnd as [Hnin Hnd].
    split; cbn [accountTxs pendingTxs].
    + intros addr a' [[<- <-]|[_ Ha']]%lookup_insert_Some; [|by apply (inv_accs _ _ Hi)].
      destruct (inv_accs _ _ Hi _ _ Ha) as [H1 H2 H3].
      split; [by apply AccountTxs.removePendingTx_wf|done|]. intros n t [H|H]; cbn in H; apply (H3 n).
      * left. apply lookup_delete_Some in H. tauto.
      * by right.
    + done.
    + exact Hnd.
    + intros t. change (queued _) with (queued c'). transitivity (t ∈ queued c /\ slot t <> slot w).
      { rewrite Hq, elem_of_cons. split.
        - intros Ht. split; [by right|]. intros E. apply Hnin. rewrite <-E. by apply list_elem_of_fmap_2.
        - by intros [[-> | Ht] Hne]. }
      rewrite (inv_pending _ _ Hi), !is_pending_account. unfold account. cbn [accountTxs].
      destruct (decide (fromAddr t = fromAddr w)) as [E|Hne].
      * rewrite E, Ha, lookup_insert_eq. cbn. rewrite lookup_delete_Some. unfold slot. split.
        -- intros [H Hne]. split; [|done]. congruence.
        -- intros [H1 H2]. split; [done|congruence].
      * rewrite lookup_insert_ne by done. unfold slot. split; [by intros [? _]|]. intros H. split; [done|congruence].
  - destruct Hr as [-> _]. destruct Hi as [H1 H2 H3 H4]. by split.
Qed.

Inductive op := OpAdd (w : TxWrapperUni) | OpReceive | OpRemove (id : bytes).

Definition step (c : CollectTxs) (o : op) : CollectTxs :=
  match o with
  | OpAdd w => (AddTx c w).1
  | OpReceive => receivePendingTx c
  | OpRemove id => (RemoveTx c id).1
  end.

Definition op_ok (o : op) : Prop :=
  match o with OpAdd w => good w /\ is_u64 (nonce w) | _ => True end.

Lemma run_inv ops : Forall op_ok ops -> Z.of_nat (length ops) + 2 < 2 ^ 64 ->
  inv (Z.of_nat (length ops)) (foldl step NewCollectTxs ops).
Proof.
  induction ops as [|o ops IH] using rev_ind; intros Hok Hlen; [apply inv_new|].
  rewrite length_app in *. simpl in Hlen. apply Forall_app in Hok as [Hok Ho]. rewrite Forall_singleton in Ho.
  rewrite foldl_app. cbn [foldl length]. specialize (IH Hok ltac:(lia)).
  rewrite Nat2Z.inj_add. change (Z.of_nat 1) with 1.
  destruct o as [w| |id]; cbn [step].
  - destruct Ho. apply inv_add; try done; lia.
  - eapply inv_mono; [|by apply inv_receive]. lia.
  - eapply inv_mono; [|by apply inv_remove]. lia.
Qed.
End Invariant.

(** * Properties *)

(** A wrapper for examples. *)
Definition sample (id addr : bytes) (n gas h t : Z) : TxWrapperUni :=
  mkTxWrapperUni 0 id TransactionCategory_Topia_Universal 10 t h addr n gas Tx.sample_tx.

(** The transaction collection stays consistent: after any sequence of
    additions, deliveries from the channel and removals, the three pending
    lists hold the same transactions, the height and time lists are ordered
    newest first, no (sender, nonce) is queued twice, and the transactions in
    the lists or in the channel are exactly the pending ones of the accounts. *)
Theorem collect_invariant (good : TxWrapperUni -> Prop)
    (good_id : forall w w', good w -> good w' -> txID w = txID w' -> slot w = slot w')
    (ops : list op) :
  Forall (op_ok good) ops -> Z.of_nat (length ops) + 2 < 2 ^ 64 ->
  let c := foldl step NewCollectTxs ops in
  let pl := pendingTxs c in
  txList (heightTxs pl) ≡ₚ txList (sortedTxs pl) /\ txList (timeTxs pl) ≡ₚ txList (sortedTxs pl)
  /\ newest_first (heightTxs pl) /\ newest_first (timeTxs pl)
  /\ NoDup (slot <$> queued c) /\ (forall w, w ∈ queued c <-> is_pending c w).
Proof.
  intros Hok Hlen. destruct (run_inv good good_id ops Hok Hlen) as [_ [_ _ _ H1 H2 H3 H4] H5 H6].
  cbv zeta. split_and!; auto; apply H6.
Qed.

Definition sample_ops : list op :=
  let a1 := sample (str "A1") (str "A") 1 5 7 100 in
  let a2 := sample (str "A2") (str "A") 2 9 7 101 in
  let b1 := sample (str "B1") (str "B") 1 1 8 102 in
  [OpAdd a2; OpAdd b1; OpReceive; OpAdd a1; OpReceive; OpReceive; OpRemove (str "B1")].

Lemma collect_invariant_witness :
  let c := foldl step NewCollectTxs sample_ops in
  let pl := pendingTxs c in
  txID <$> txList (sortedTxs pl) = [str "A2"; str "A1"]
  /\ (txList (heightTxs pl) ≡ₚ txList (sortedTxs pl) /\ txList (timeTxs pl) ≡ₚ txList (sortedTxs pl)
  /\ newest_first (heightTxs pl) /\ newest_first (timeTxs pl)
  /\ NoDup (slot <$> queued c) /\ (forall w, w ∈ queued c <-> is_pending c w)).
Proof.
  split; [vm_compute; reflexivity|].
  apply (collect_invariant (fun w => slot w = (take 1 (txID w), if decide (drop 1 (txID w) = str "1") then 1 else 2))).
  - intros w w' -> -> ->. reflexivity.
  - unfold sample_ops. repeat first [apply List.Forall_nil|apply List.Forall_cons];
      try exact I; (split; [vm_compute; reflexivity|split; vm_compute; congruence]).
  - vm_compute. reflexivity.
Defined.

(** C33. An account releases its transactions in nonce order without holes:
    after any sequence of additions and removals the released nonces are
    1, 2, ..., [maxContNonce], each once; a transaction is pending only if it
    was released, and none that could be released is kept back. *)
Theorem nonces_released_in_order (ops : list AccountTxs.op) :
  Forall AccountTxs.op_ok ops -> Z.of_nat (length ops) + 2 < 2 ^ 64 ->
  let '(a, released) := foldl AccountTxs.step (AccountTxs.newAccountTxManager, []) ops in
  nonce <$> released = seqZ 1 (AccountTxs.maxContNonce a)
  /\ (forall n w, AccountTxs.pendingTxs a !! n = Some w -> nonce w = n /\ 1 <= n <= AccountTxs.maxContNonce a)
  /\ (forall n, n <= AccountTxs.maxContNonce a + 1 -> AccountTxs.gapTxs a !! n = None).
Proof.
  intros Hok Hlen. destruct (AccountTxs.step_run ops Hok Hlen) as (Hwf & _ & Hr).
  destruct (foldl _ _ ops) as [a released]. cbn [fst snd] in *. split_and!; [done|apply (AccountTxs.wf_pending a Hwf)|].
  intros n Hn. destruct (AccountTxs.gapTxs a !! n) as [w|] eqn:E; [|done].
  apply (AccountTxs.wf_gap a Hwf) in E. lia.
Qed.

Lemma nonces_released_in_order_witness :
  let add n := AccountTxs.OpAdd (sample (str "a") (str "A") n 5 7 100) in
  let ops := [add 3; add 1; add 5; AccountTxs.OpRemove 1; add 2; add 1] in
  let '(a, released) := foldl AccountTxs.step (AccountTxs.newAccountTxManager, []) ops in
  nonce <$> released = seqZ 1 (AccountTxs.maxContNonce a)
  /\ (forall n w, AccountTxs.pendingTxs a !! n = Some w -> nonce w = n /\ 1 <= n <= AccountTxs.maxContNonce a)
  /\ (forall n, n <= AccountTxs.maxContNonce a + 1 -> AccountTxs.gapTxs a !! n = None).
Proof. apply nonces_released_in_order; [repeat constructor|]; vm_compute; congruence. Defined.


(** ** Picking transactions *)

(** [PickTxs] takes from the front of the gas-price list the longest run of
    transactions whose total size fits in the block; the gas limit plays no
    part. *)
Theorem PickTxs_fits (c : CollectTxs) (blockMaxBytes blockMaxGas : Z) :
  let l := txList (sortedTxs (pendingTxs c)) in
  Forall (fun w => 0 <= txSize w) l -> total_size l < 2 ^ 63 ->
  exists n, (n <= length l)%nat /\ PickTxs c blockMaxBytes blockMaxGas = originTx <$> take n l
  /\ (n <> 0%nat -> total_size (take n l) <= blockMaxBytes)
  /\ (forall w, l !! n = Some w -> blockMaxBytes < total_size (take (S n) l)).
Proof.
  intros l HF Hb. unfold PickTxs, pickTxs. fold l.
  destruct (pick_loop_spec l 0 blockMaxBytes [] HF) as (n & Hn & E & H1 & H2); [lia|lia|].
  exists n. split_and!; [done| |intros; apply H1; lia|done].
  destruct (Nat.eqb_spec (length l) 0) as [El|]; [|done].
  apply length_zero_iff_nil in El. rewrite El. by destruct n.
Qed.

Definition sample_collect : CollectTxs :=
  let l := [sample (str "a") (str "A") 1 5 7 100; sample (str "b") (str "B") 1 9 7 101] in
  mkCollectTxs ShrinkMap.NewShrinkMap ∅ []
    (mkPendingTxList (mkSortedTxList SortWay_Misc l) (mkSortedTxList SortWay_Height l) (mkSortedTxList SortWay_Time l)).

Lemma PickTxs_fits_witness :
  let l := txList (sortedTxs (pendingTxs sample_collect)) in
  exists n, (n <= length l)%nat /\ PickTxs sample_collect 15 (-1) = originTx <$> take n l
  /\ (n <> 0%nat -> total_size (take n l) <= 15)
  /\ (forall w, l !! n = Some w -> 15 < total_size (take (S n) l)).
Proof.
  exact (PickTxs_fits sample_collect 15 (-1)
    ltac:(cbn; repeat constructor; vm_compute; congruence) ltac:(vm_compute; reflexivity)).
Defined.

Lemma misc_add_front st w :
  sWay st = SortWay_Misc ->
  Forall (fun t => height t = height w /\ timeStamp t < timeStamp w) (txList st) ->
  txList (addTx st w) = w :: txList st.
Proof.
  intros Hway HF. rewrite addTx_insert. cbn [txList]. assert (position st w = 0%nat) as ->; [|done].
  unfold position. rewrite Hway.
  destruct (sort_Search_spec (fun i => match txList st !! i with Some t => less SortWay_Misc t w | None => false end)
    (length (txList st))) as (Hle & [H0|Hf] & _); [done|].
  destruct (sort_Search _ _) as [|r]; [done|].
  replace (S r - 1)%nat with r in Hf by lia.
  destruct (lookup_lt_is_Some_2 (txList st) r) as [t Ht]; [lia|]. rewrite Ht in Hf.
  rewrite Forall_lookup in HF. destruct (HF r t Ht) as [Hh Htime].
  cbn in Hf. unfold lessMisc in Hf. rewrite Hh, Z.eqb_refl in Hf.
  apply Z.ltb_lt in Htime. rewrite Htime in Hf. by repeat case_match.
Qed.

(** Among transactions of the same block height the "gas price" list is
    last-in, first-out: whatever their gas prices, [PickTxs] sees them in the
    reverse of their arrival order. *)
Theorem misc_list_is_lifo (ws : list TxWrapperUni) (h : Z) :
  Forall (fun w => height w = h) ws -> StronglySorted (fun a b => timeStamp a < timeStamp b) ws ->
  txList (foldl addTx (newSortedTxList SortWay_Misc) ws) = reverse ws.
Proof.
  induction ws as [|w ws IH] using rev_ind; intros Hh Hs; [done|].
  apply Forall_app in Hh as [Hh Hw]. rewrite Forall_singleton in Hw. apply StronglySorted_app in Hs as (Hlt & Hs & _).
  specialize (IH Hh Hs). rewrite foldl_app, reverse_app. cbn [foldl]. rewrite misc_add_front, IH; [done| |].
  - clear. induction ws as [|w ws IH] using rev_ind; [done|]. by rewrite foldl_app; cbn [foldl]; rewrite addTx_sWay.
  - rewrite IH. apply Forall_forall. intros t Ht. rewrite elem_of_reverse in Ht.
    rewrite Forall_forall in Hh. specialize (Hh t Ht). split; [congruence|]. apply Hlt; [done|by apply list_elem_of_singleton].
Qed.

Lemma misc_list_is_lifo_witness :
  let cheap := sample (str "cheap") (str "A") 1 1 7 101 in
  let dear := sample (str "dear") (str "B") 1 100 7 100 in
  txList (foldl addTx (newSortedTxList SortWay_Misc) [dear; cheap]) = reverse [dear; cheap].
Proof. apply (misc_list_is_lifo _ 7); repeat constructor. Defined.

(** The gas-price order contradicts itself: each of two transactions of the
    same height can come before the other. *)
Lemma lessMisc_not_asymmetric :
  let a := sample (str "a") (str "A") 1 9 7 101 in
  let b := sample (str "b") (str "B") 1 5 7 100 in
  lessMisc a b = true /\ lessMisc b a = true.
Proof. done. Qed.

(** ** Removal and expiry *)

(** Removing a transaction that is not in the lists (it waits in a nonce
    gap or in the channel) only forgets its id: its account and the channel
    keep it, so it is still released and delivered later. *)
Theorem RemoveTx_unlisted (c : CollectTxs) (id : bytes) :
  lists_inv (pendingTxs c) -> Forall (fun t => txID t <> id) (txList (sortedTxs (pendingTxs c))) ->
  RemoveTx c id
  = (mkCollectTxs (ShrinkMap.Del (fullTxs c) id) (accountTxs c) (pendingTxChan c) (pendingTxs c), None).
Proof.
  intros Hl HF. unfold RemoveTx. destruct (lists_remove (pendingTxs c) id Hl) as [_ Hr].
  { intros t t' Ht _ E. rewrite Forall_forall in HF. by destruct (HF t Ht). }
  destruct (list_removeTx _ _) as [pl [w|]]; cbn [fst snd] in Hr.
  - destruct Hr as [Hid Hp]. exfalso. rewrite Forall_forall in HF. apply (HF w); [|done]. rewrite Hp. by left.
  - by destruct Hr as [-> _].
Qed.

Definition gap_then_removed : CollectTxs :=
  foldl step NewCollectTxs [OpAdd (sample (str "A2") (str "A") 2 9 7 101); OpRemove (str "A2")].

Lemma RemoveTx_unlisted_witness :
  let c := foldl step NewCollectTxs [OpAdd (sample (str "A2") (str "A") 2 9 7 101)] in
  RemoveTx c (str "A2")
  = (mkCollectTxs (ShrinkMap.Del (fullTxs c) (str "A2")) (accountTxs c) (pendingTxChan c) (pendingTxs c), None).
Proof. cbv zeta. apply RemoveTx_unlisted; [split; try done; constructor|constructor]. Defined.

(** The transaction removed from its gap is picked for a block all the same. *)
Lemma removed_gap_tx_is_picked :
  let c := foldl step gap_then_removed
    [OpAdd (sample (str "A1") (str "A") 1 5 7 102); OpReceive; OpReceive] in
  GetTx gap_then_removed (str "A2") = None /\ txID <$> listed c = [str "A1"; str "A2"].
Proof. split; vm_compute; reflexivity. Qed.

(** A transaction refused by its account keeps its place in [fullTxs]: it is
    found by id, and offering it again is refused as existing. *)
Lemma refused_tx_is_remembered c w e : ShrinkMap.wf (fullTxs c) ->
  (AddTx c w).2 = Some (ErrAccount e) ->
  GetTx (AddTx c w).1 (txID w) = Some w
  /\ (AddTx (AddTx c w).1 w).2 = Some (ErrExistedTx (txID w)).
Proof.
  intros Hwf He. unfold AddTx in He at 1. unfold GetTx.
  assert (E : ShrinkMap.Get (fullTxs (AddTx c w).1) (txID w) = Some w).
  { unfold AddTx. destruct (ShrinkMap.Get (fullTxs c) (txID w)); [done|].
    destruct (AccountTxs.AddTx _ _) as [[a s] err]. cbn [fst fullTxs].
    destruct (ShrinkMap.Set'_refines (fullTxs c) (txID w) w Hwf) as [_ Hc].
    by rewrite <-ShrinkMap.contents_lookup, Hc, lookup_insert_eq. }
  split; [done|]. unfold AddTx at 1. by rewrite E.
Qed.

Lemma purge_loop_spec expired l pl :
  purge_loop expired l pl = if existsb expired l then Blocked else Done pl.
Proof. induction l as [|w l IH]; simpl; [done|]. by destruct (expired w). Qed.

(** Purging expired transactions never purges: it returns, with the lists
    unchanged, exactly when nothing is expired; as soon as a transaction has
    expired by height or by time, the call locks a mutex it holds and never
    returns. *)
Theorem purge_blocks_on_expiry (pl : pendingTxList) (now h lifeTime lifeHeight : Z) :
  let expired_height w := h =? u64 (height w + lifeHeight) in
  let expired_time w := duration (now - timeStamp w) >? lifeTime in
  purgeExpiredTxs pl now h lifeTime lifeHeight
  = if existsb expired_height (txList (heightTxs pl)) || existsb expired_time (txList (timeTxs pl))
    then Blocked else Done pl.
Proof.
  intros eh et. unfold purgeExpiredTxs. rewrite purge_loop_spec. fold eh et.
  destruct (existsb eh _); [done|]. by rewrite purge_loop_spec.
Qed.

(** [getPendingTxs] walks up from the highest nonce, so it finds one
    transaction at most, however many the account has pending. *)
Lemma getPendingTxs_last_only a : AccountTxs.wf a -> AccountTxs.room a ->
  AccountTxs.getPendingTxs a
  = match AccountTxs.pendingTxs a !! AccountTxs.maxContNonce a with Some w => [originTx w] | None => [] end.
Proof.
  intros Hwf Hroom. unfold AccountTxs.getPendingTxs. cbn [AccountTxs.walk].
  destruct (AccountTxs.pendingTxs a !! _) as [w|] eqn:E; [|done]. f_equal.
  pose proof (AccountTxs.wf_max a Hwf). unfold AccountTxs.room in Hroom.
  rewrite u64_small by (unfold is_u64; lia).
  generalize (base.size (AccountTxs.pendingTxs a)) as n. intros [|n]; [done|]. cbn [AccountTxs.walk].
  destruct (AccountTxs.pendingTxs a !! (_ + 1)) as [t|] eqn:E'; [|done].
  apply (AccountTxs.wf_pending a Hwf) in E'. lia.
Qed.

End TxCoreSpec.
