(* ===== verification/TxPool.v ===== *)
(** The transaction pool ([src/transaction_pool]: tx_pool.go, servant.go,
    handler.go, txpoolconfig.go) with its configuration
    ([src/configuration/txpool.go]) and the factory in front of the verifiers
    ([src/transaction/factory.go]). *)
From Stdlib Require Import ZArith Lia Strings.Byte.
From stdpp Require Import base gmap list strings sorting.
From S2P Require Import Prelude Common Wire TxMessages ChainMessages TxBasic TxCore.
#[local] Open Scope Z_scope.

(** * Configuration *)

Module TxPoolConfig.

(** Durations are in nanoseconds. *)
Record TransactionPoolConfig := mkTransactionPoolConfig {
  PathTxsStorage : bytes;
  PathConf : bytes;
  ReStoredDur : Z;
  IsLoadTxs : bool;
  IsLoadCfg : bool;
  GasPriceLimit : Z;
  MaxSizeOfEachTx : Z;
  TxPoolMaxSize : Z;
  TxPoolMaxCnt : Z;
  PendingMaxSize : Z;
  PendingMaxCnt : Z;
  MaxCntOfEachAccount : Z;
  BlockMaxBytes : Z;
  BlockMaxGas : Z;
  TimeOfTxLifecycle : Z;
  HeightOfTxLifecycle : Z;
  TimeOfTxRepublishTTL : Z;
  HeightOfTxRepublishTTL : Z;
}.

Definition DefaultTransactionPoolConfig : TransactionPoolConfig :=
  {| PathTxsStorage := str "StorageInfo/StorageTxs";
     PathConf := str "StorageInfo/StorageConfig.json";
     ReStoredDur := 2000003 * 1000;
     IsLoadTxs := true;
     IsLoadCfg := false;
     GasPriceLimit := 1000;
     MaxSizeOfEachTx := 2 * 1024;
     TxPoolMaxSize := 20 * 1024 * 1024;
     TxPoolMaxCnt := 40 * 1024;
     PendingMaxSize := 10 * 1024 * 1024;
     PendingMaxCnt := 20 * 1024;
     MaxCntOfEachAccount := 32;
     BlockMaxBytes := 22020096;
     BlockMaxGas := -1;
     TimeOfTxLifecycle := 15 * 10 ^ 9;
     HeightOfTxLifecycle := 30 * 60;
     TimeOfTxRepublishTTL := 5 * 10 ^ 9;
     HeightOfTxRepublishTTL := 5 |}.

(** [if v < d { v = d }]. *)
Definition at_least (d v : Z) : Z := if v <? d then d else v.

Definition Check (conf : TransactionPoolConfig) : TransactionPoolConfig :=
  let d := DefaultTransactionPoolConfig in
  {| PathTxsStorage := if decide (PathTxsStorage conf = []) then PathTxsStorage d else PathTxsStorage conf;
     PathConf := PathConf conf;
     ReStoredDur := ReStoredDur conf;
     IsLoadTxs := IsLoadTxs conf;
     IsLoadCfg := IsLoadCfg conf;
     GasPriceLimit := at_least (GasPriceLimit d) (GasPriceLimit conf);
     MaxSizeOfEachTx := MaxSizeOfEachTx conf;
     TxPoolMaxSize := at_least (TxPoolMaxSize d) (TxPoolMaxSize conf);
     TxPoolMaxCnt := at_least (TxPoolMaxCnt d) (TxPoolMaxCnt conf);
     PendingMaxSize := at_least (PendingMaxSize d) (PendingMaxSize conf);
     PendingMaxCnt := at_least (PendingMaxCnt d) (PendingMaxCnt conf);
     MaxCntOfEachAccount := at_least (MaxCntOfEachAccount d) (MaxCntOfEachAccount conf);
     BlockMaxBytes := BlockMaxBytes conf;
     BlockMaxGas := BlockMaxGas conf;
     TimeOfTxLifecycle := at_least (TimeOfTxLifecycle d) (TimeOfTxLifecycle conf);
     HeightOfTxLifecycle := HeightOfTxLifecycle conf;
     TimeOfTxRepublishTTL := at_least (TimeOfTxRepublishTTL d) (TimeOfTxRepublishTTL conf);
     HeightOfTxRepublishTTL := at_least (HeightOfTxRepublishTTL d) (HeightOfTxRepublishTTL conf) |}.

End TxPoolConfig.

(** * The pool's collaborators *)

(** What the pool uses of its [TransactionPoolServant]: the height of the
    latest block (or an error) and the store of local transactions. *)
Class PoolServant (S : Type) := {
  CurrentHeight : S -> go (option Z);
  saveTxIntoStore : S -> bytes -> Z -> Tx.tx -> S;
  removeTxFromStore : S -> bytes -> S;
}.

(** The LRU cache of [hashicorp/golang-lru] that remembers transaction
    states. *)
Class StateCache (C : Type) := {
  cache_Add : C -> bytes -> TxState -> C;
  cache_Remove : C -> bytes -> C;
  cache_Peek : C -> bytes -> option TxState;
}.

Module TxPool.
Import TxWrapper CollectTxs TxPoolConfig.

Inductive pool_error :=
| ErrTxID
| ErrTxPoolFull
| ErrCurrentHeight
| ErrWrapTx
| ErrTxNotExist
| ErrCollect (e : collect_error)
| ErrDecode (e : proto_error).

Inductive ValidationResult := ValidationAccept | ValidationReject | ValidationIgnore.

#[export] Instance ValidationResult_eq_dec : EqDecision ValidationResult.
Proof. solve_decision. Defined.

Definition MaxUint64 : Z := 2 ^ 64 - 1.

Section Pool.
Context (blake2b : bytes -> bytes) {S C : Type} `{!PoolServant S, !StateCache C}.

(** [nextID] and [wstates] are the heap of wrapper objects. *)
Record transactionPool := mkTransactionPool {
  config : TransactionPoolConfig;
  txServant : S;
  txSizeBytes : Z;
  txCount : Z;
  txCache : C;
  txsCollect : CollectTxs;
  localAddrs : gset bytes;
  nextID : nat;
  wstates : wstore;
}.

Definition set_cache (pool : transactionPool) (c : C) : transactionPool :=
  mkTransactionPool (config pool) (txServant pool) (txSizeBytes pool) (txCount pool) c
    (txsCollect pool) (localAddrs pool) (nextID pool) (wstates pool).

Definition set_servant (pool : transactionPool) (s : S) : transactionPool :=
  mkTransactionPool (config pool) s (txSizeBytes pool) (txCount pool) (txCache pool)
    (txsCollect pool) (localAddrs pool) (nextID pool) (wstates pool).

Definition set_collect (pool : transactionPool) (c : CollectTxs) : transactionPool :=
  mkTransactionPool (config pool) (txServant pool) (txSizeBytes pool) (txCount pool) (txCache pool)
    c (localAddrs pool) (nextID pool) (wstates pool).

Definition SetTxPoolConfig (pool : transactionPool) (conf : TransactionPoolConfig) : transactionPool :=
  mkTransactionPool (Check conf) (txServant pool) (txSizeBytes pool) (txCount pool) (txCache pool)
    (txsCollect pool) (localAddrs pool) (nextID pool) (wstates pool).

Definition Size (pool : transactionPool) : Z := txSizeBytes pool.

Definition Count (pool : transactionPool) : Z := txCount pool.

(** [GenerateTxWrapper] allocates the wrapper. *)
Definition newWrapper (pool : transactionPool) (now : Z) (t : Tx.tx) (h : Z) :
    go (transactionPool * option TxWrapperUni) :=
  w ← GenerateTxWrapper blake2b (nextID pool) now t h;
  Ok (mkTransactionPool (config pool) (txServant pool) (txSizeBytes pool) (txCount pool) (txCache pool)
        (txsCollect pool) (localAddrs pool) (Datatypes.S (nextID pool)) (wstates pool), w).

(** The tail of [addTx] once the transaction is wrapped. *)
Definition collect (pool : transactionPool) (txId : bytes) (wTx : TxWrapperUni) :
    transactionPool * (TxWrapperUni + pool_error) :=
  let '(c, err) := CollectTxs.AddTx (txsCollect pool) wTx in
  match err with
  | None =>
      (mkTransactionPool (config pool) (txServant pool) (i64 (txSizeBytes pool + txSize wTx))
         (i64 (txCount pool + 1)) (cache_Add (txCache pool) txId TxState_Added) c
         (localAddrs pool) (nextID pool) (wstates pool), inl wTx)
  | Some e => (set_collect pool c, inr (ErrCollect e))
  end.

Definition addTx (pool : transactionPool) (now : Z) (t : Tx.tx) (height : Z) :
    go (transactionPool * (TxWrapperUni + pool_error)) :=
  txId ← Tx.TxID blake2b t;
  match txId with
  | None => Ok (pool, inr ErrTxID)
  | Some txId =>
      let full := (set_cache pool (cache_Add (txCache pool) txId TxState_DroppedForTxPoolFull), inr ErrTxPoolFull) in
      if i64 (Count pool + 1) >? TxPoolMaxCnt (config pool) then Ok full
      else if i64 (Size pool + Transaction.Size t) >? TxPoolMaxSize (config pool) then Ok full
      else
        curHeight ← (if height =? 0 then CurrentHeight (txServant pool) else Ok (Some height));
        match curHeight with
        | None => Ok (pool, inr ErrCurrentHeight)
        | Some curHeight =>
            '(pool, wTx) ← newWrapper pool now t curHeight;
            match wTx with
            | None => Ok (pool, inr ErrWrapTx)
            | Some wTx => Ok (collect pool txId wTx)
            end
        end
  end.

Definition addLocal (pool : transactionPool) (now : Z) (t : Tx.tx) : go (transactionPool * option pool_error) :=
  match Transaction.Head t with
  | None => Panic
  | Some head =>
      let pool := mkTransactionPool (config pool) (txServant pool) (txSizeBytes pool) (txCount pool) (txCache pool)
        (txsCollect pool) ({[TransactionHead.FromAddr head]} ∪ localAddrs pool) (nextID pool) (wstates pool) in
      '(pool, r) ← addTx pool now t 0;
      match r with
      | inl wTx => Ok (set_servant pool (saveTxIntoStore (txServant pool) (txID wTx) (height wTx) t), None)
      | inr e => Ok (pool, Some e)
      end
  end.

Definition addRemote (pool : transactionPool) (now : Z) (t : Tx.tx) : go (transactionPool * option pool_error) :=
  '(pool, r) ← addTx pool now t 0;
  Ok (pool, match r with inl _ => None | inr e => Some e end).

Definition AddTx (pool : transactionPool) (now : Z) (t : Tx.tx) (isLocal : bool) :
    go (transactionPool * option pool_error) :=
  if isLocal then addLocal pool now t else addRemote pool now t.

Definition UpdateTx (pool : transactionPool) (now : Z) (t : Tx.tx) (oldTxID : bytes) :
    go (transactionPool * option pool_error) :=
  match GetTx (txsCollect pool) oldTxID with
  | None => Ok (pool, Some ErrTxNotExist)
  | Some wTxOld =>
      curHeight ← CurrentHeight (txServant pool);
      match curHeight with
      | None => Ok (pool, Some ErrCurrentHeight)
      | Some curHeight =>
          '(pool, wTx) ← newWrapper pool now t curHeight;
          match wTx with
          | None => Ok (pool, Some ErrWrapTx)
          | Some wTx =>
              if CanReplace (wstates pool) wTxOld wTx then
                '(pool, r) ← addTx pool now t 0;
                match r with
                | inr e => Ok (pool, Some e)
                | inl _ =>
                    let pool := set_servant pool (removeTxFromStore (txServant pool) oldTxID) in
                    let pool := set_servant pool (saveTxIntoStore (txServant pool) (txID wTx) (height wTx) t) in
                    Ok (mkTransactionPool (config pool) (txServant pool) (txSizeBytes pool) (txCount pool)
                          (txCache pool) (txsCollect pool) (localAddrs pool) (nextID pool)
                          (UpdateState (wstates pool) wTx TxState_Added), None)
                end
              else Ok (pool, None)
          end
      end
  end.

Definition RemoveTxByKey (pool : transactionPool) (id : bytes) : transactionPool :=
  let '(c, r) := CollectTxs.RemoveTx (txsCollect pool) id in
  match r with
  | None => set_collect pool c
  | Some wTx =>
      mkTransactionPool (config pool) (removeTxFromStore (txServant pool) id)
        (i64 (txSizeBytes pool - txSize wTx)) (i64 (txCount pool - 1)) (cache_Remove (txCache pool) id)
        c (localAddrs pool) (nextID pool) (wstates pool)
  end.

(** [Get] dereferences the wrapper it looks up. *)
Definition Get (pool : transactionPool) (id : bytes) : go Tx.tx :=
  match GetTx (txsCollect pool) id with Some w => Ok (originTx w) | None => Panic end.

Definition PendingOfAddress (pool : transactionPool) (addr : bytes) : option (list Tx.tx) :=
  CollectTxs.PendingOfAddress (txsCollect pool) addr.

Definition PendingAccountTxCnt (pool : transactionPool) (addr : bytes) : Z :=
  len (default [] (PendingOfAddress pool addr)).

Definition PickTxs (pool : transactionPool) : list Tx.tx :=
  CollectTxs.PickTxs (txsCollect pool) (BlockMaxBytes (config pool)) (BlockMaxGas (config pool)).

Definition GetLocalTxs (pool : transactionPool) : list Tx.tx :=
  AllOfAddressFunc (txsCollect pool) (fun addr => bool_decide (addr ∈ localAddrs pool)).

Definition GetRemoteTxs (pool : transactionPool) : list Tx.tx :=
  AllOfAddressFunc (txsCollect pool) (fun addr => bool_decide (addr ∉ localAddrs pool)).

Definition PeekTxState (pool : transactionPool) (id : bytes) : TxState :=
  default TxState_Unknown (cache_Peek (txCache pool) id).

(** One delivery by the goroutine that [Start] launches. *)
Definition receive (pool : transactionPool) : transactionPool :=
  set_collect pool (receivePendingTx (txsCollect pool)).

(** ** Messages *)

(** The bytes [PublishTx] hands to the network. *)
Definition PublishTx (domainID nodeID : bytes) (t : Tx.tx) : go (option bytes) :=
  data ← Codec.Marshal Transaction.desc t;
  match data with
  | None => Ok None
  | Some data =>
      msgTxBytes ← TxMessage.Marshal (TxMessage.mk data []);
      msgBytes ← TxPoolMessage.Marshal (TxPoolMessage.mk 1 domainID nodeID msgTxBytes []);
      Ok (Some msgBytes)
  end.

(** [Process]: decode the transaction and add it as a remote one, ignoring the
    pool's answer. *)
Definition Process (pool : transactionPool) (now : Z) (msg : TxMessage.t) :
    go (transactionPool * option pool_error) :=
  match Codec.Unmarshal Transaction.desc (TxMessage.Data msg) (Wire.s_zero Transaction.desc) with
  | Ok t => '(pool, _) ← AddTx pool now t false; Ok (pool, None)
  | Err e => Ok (pool, Some (ErrDecode e))
  | Panic => Panic
  end.

Definition Dispatch (pool : transactionPool) (now : Z) (data : bytes) : go transactionPool :=
  match Codec.Unmarshal TxPoolMessage.desc data (Wire.s_zero TxPoolMessage.desc) with
  | Ok txPoolMsg =>
      if TxPoolMessage.MsgType txPoolMsg =? 1 then
        match Codec.Unmarshal TxMessage.desc (TxPoolMessage.Data txPoolMsg) (Wire.s_zero TxMessage.desc) with
        | Ok msg => '(pool, _) ← Process pool now msg; Ok pool
        | Err _ => Ok pool
        | Panic => Panic
        end
      else Ok pool
  | Err _ => Ok pool
  | Panic => Panic
  end.

Section Validation.
(** [Verify] of the action of a universal transaction. *)
Context (verify_action : TransactionUniversal.t -> TransactionHead.t -> go Tx.VerifyResult).

(** [CreatTransactionAction] followed by [Verify]: a transaction without head
    or data, of another category or with undecodable data panics. *)
Definition CreatTransactionAction_Verify (t : Tx.tx) : go Tx.VerifyResult :=
  match Transaction.Head t, Transaction.Data t with
  | Some head, Some data =>
      if decide (TransactionHead.Category head = TransactionCategory_Topia_Universal) then
        match Codec.Unmarshal TransactionUniversal.desc (TransactionData.Specification data)
                (Wire.s_zero TransactionUniversal.desc) with
        | Ok txUni => verify_action txUni head
        | _ => Panic
        end
      else Panic
  | _, _ => Panic
  end.

Definition Validate (pool : transactionPool) (exeDomainID : bytes) (isLocal : bool) (data : bytes) :
    go ValidationResult :=
  if Size pool >? TxPoolMaxSize (config pool) then Ok ValidationReject
  else match TxPoolMessage.Unmarshal data (Wire.s_zero TxPoolMessage.desc) with
  | Panic => Panic
  | Err _ => Ok ValidationReject
  | Ok msg =>
      if decide (TxPoolMessage.FromDomain msg <> exeDomainID) then Ok ValidationReject
      else match TxMessage.Unmarshal (TxPoolMessage.Data msg) (Wire.s_zero TxMessage.desc) with
      | Panic => Panic
      | Err _ => Ok ValidationReject
      | Ok txMsg =>
          match Codec.Unmarshal Transaction.desc (TxMessage.Data txMsg) (Wire.s_zero Transaction.desc) with
          | Panic => Panic
          | Err _ => Ok ValidationReject
          | Ok t =>
              if Transaction.Size t >? MaxSizeOfEachTx DefaultTransactionPoolConfig then Ok ValidationReject
              else match Transaction.Head t with
              | None => Panic
              | Some head =>
                  if TransactionHead.Nonce head >? MaxUint64 then Ok ValidationReject
                  else if PendingAccountTxCnt pool (TransactionHead.FromAddr head) >? MaxCntOfEachAccount (config pool)
                  then Ok ValidationReject
                  else if isLocal then Ok ValidationAccept
                  else
                    verifyResult ← CreatTransactionAction_Verify t;
                    Ok (match verifyResult with
                        | Tx.VerifyResult_Ignore => ValidationIgnore
                        | Tx.VerifyResult_Reject => ValidationReject
                        | _ => ValidationAccept
                        end)
              end
          end
      end
  end.
End Validation.

(** ** Block events *)

Section BlockEvents.
(** What a failed decode leaves in the struct, whose error the handler
    ignores. *)
Context (partial_chunk : bytes -> BlockDataChunk.t) (partial_tx : bytes -> Tx.tx).

Definition remove_block_tx (pool : transactionPool) (txBytes : bytes) : go transactionPool :=
  t ← (match Codec.Unmarshal Transaction.desc txBytes (Wire.s_zero Transaction.desc) with
       | Ok t => Ok t
       | Err _ => Ok (partial_tx txBytes)
       | Panic => Panic
       end);
  id ← Tx.TxID blake2b t;
  Ok (RemoveTxByKey pool (default [] id)).

Fixpoint remove_block_txs (pool : transactionPool) (txs : list bytes) : go transactionPool :=
  match txs with
  | [] => Ok pool
  | b :: txs => pool ← remove_block_tx pool b; remove_block_txs pool txs
  end.

Fixpoint remove_chunks (pool : transactionPool) (chunks : list bytes) : go transactionPool :=
  match chunks with
  | [] => Ok pool
  | b :: chunks =>
      chunk ← (match BlockDataChunk.Unmarshal b (Wire.s_zero BlockDataChunk.desc) with
               | Ok ch => Ok ch
               | Err _ => Ok (partial_chunk b)
               | Panic => Panic
               end);
      pool ← remove_block_txs pool (BlockDataChunk.Txs chunk);
      remove_chunks pool chunks
  end.

Definition processBlockAddedEvent (pool : transactionPool) (block : Block.t) : go transactionPool :=
  match Block.Data block with
  | None => Panic
  | Some d => remove_chunks pool (BlockData.DataChunks d)
  end.
End BlockEvents.

Definition validateTxsForRevert (t : Tx.tx) : go ValidationResult :=
  if Transaction.Size t >? MaxSizeOfEachTx DefaultTransactionPoolConfig then Ok ValidationReject
  else match Transaction.Head t with
  | None => Panic
  | Some head => Ok (if TransactionHead.Nonce head >? MaxUint64 then ValidationReject else ValidationAccept)
  end.
End Pool.
Arguments transactionPool : clear implicits.

End TxPool.
