(* ===== verification/TxPoolSpec.v ===== *)
(** Correctness of the transaction pool: its accounting, its limits, what
    [UpdateTx] does, and the path of a transaction through the network
    messages. *)
From Stdlib Require Import ZArith Lia Strings.Byte.
From stdpp Require Import base gmap list strings sorting.
From S2P Require Import Prelude Common Wire TxMessages ChainMessages TxBasic TxCore TxCoreSpec TxPool.
#[local] Open Scope Z_scope.

Module TxPoolSpec.
Import TxWrapper CollectTxs TxPoolConfig TxPool TxCoreSpec.

(** * Accounting of the accounts *)

Section Weight.
Context (f : TxWrapperUni -> Z).

(** The weight of an account and of all accounts. *)
Definition weight (a : AccountTxs.accountTxManager) : Z :=
  msum f (AccountTxs.pendingTxs a) + msum f (AccountTxs.gapTxs a).

Definition total (c : CollectTxs) : Z := msum weight (accountTxs c).

Lemma promote_weight fuel a i sent :
  (forall n, i <= n -> AccountTxs.pendingTxs a !! n = None) ->
  0 <= i -> i + Z.of_nat (base.size (AccountTxs.gapTxs a)) < 2 ^ 64 ->
  weight (AccountTxs.promote fuel a i sent).1 = weight a.
Proof.
  revert a i sent. induction fuel as [|fuel IH]; intros a i sent Hp Hi Hb; [done|]. cbn [AccountTxs.promote].
  destruct (AccountTxs.gapTxs a !! i) as [w|] eqn:Eg; [|done].
  assert (Hsz : Datatypes.S (base.size (delete i (AccountTxs.gapTxs a))) = base.size (AccountTxs.gapTxs a))
    by (rewrite <-(insert_delete_id _ _ _ Eg) at 2; by rewrite map_size_insert_None by apply lookup_delete_eq).
  rewrite u64_small by (unfold is_u64; lia). rewrite IH; cbn [AccountTxs.pendingTxs AccountTxs.gapTxs].
  - unfold weight. cbn [AccountTxs.pendingTxs AccountTxs.gapTxs].
    rewrite msum_insert by (apply Hp; lia). rewrite (msum_delete f (AccountTxs.gapTxs a) i w Eg). lia.
  - intros n Hn. rewrite lookup_insert_ne by lia. apply Hp. lia.
  - lia.
  - lia.
Qed.

Lemma AddTx_weight a w : AccountTxs.wf a -> AccountTxs.room a -> is_u64 (nonce w) ->
  let '(a', _, err) := AccountTxs.AddTx a w in
  weight a' = weight a + match err with None => f w | Some _ => 0 end.
Proof.
  intros Hwf Hroom Hn. unfold AccountTxs.AddTx, AccountTxs.room, is_u64 in *.
  pose proof (AccountTxs.wf_max a Hwf).
  destruct (AccountTxs.pendingTxs a !! nonce w) as [t|] eqn:Ep; [lia|].
  destruct (AccountTxs.gapTxs a !! nonce w) as [t|] eqn:Eg; [lia|].
  rewrite (u64_small (AccountTxs.maxContNonce a + 1)) by (unfold is_u64; lia).
  destruct (Z.eqb_spec (nonce w) (AccountTxs.maxContNonce a + 1)) as [E|Hne].
  - rewrite (u64_small (nonce w + 1)) by (unfold is_u64; lia).
    set (a1 := AccountTxs.mkAccountTxManager _ _ _).
    pose proof (promote_weight (Datatypes.S (base.size (AccountTxs.gapTxs a1))) a1 (nonce w + 1) [w]) as Hw.
    destruct (AccountTxs.promote _ a1 _ _) as [a' sent]. cbn [fst] in Hw. rewrite Hw; [| |lia|cbn; lia].
    + unfold weight. cbn [a1 AccountTxs.pendingTxs AccountTxs.gapTxs]. rewrite msum_insert by done. lia.
    + intros n Hge. cbn [a1 AccountTxs.pendingTxs]. rewrite lookup_insert_ne by lia.
      destruct (AccountTxs.pendingTxs a !! n) as [t|] eqn:E'; [|done]. apply (AccountTxs.wf_pending a Hwf) in E'. lia.
  - destruct (Z.gtb_spec (nonce w) (AccountTxs.maxContNonce a + 1)); [|lia].
    unfold weight. cbn [AccountTxs.pendingTxs AccountTxs.gapTxs]. rewrite msum_insert by done. lia.
Qed.

Lemma new_weight : weight AccountTxs.newAccountTxManager = 0.
Proof. unfold weight. cbn. by rewrite !msum_empty. Qed.

(** Replacing an account, present or not, by [a]. *)
Lemma total_update c addr a :
  msum weight (<[addr:=a]> (accountTxs c)) = total c + weight a - weight (account c addr).
Proof.
  rewrite msum_update. unfold total, account. destruct (accountTxs c !! addr) as [b|] eqn:E; cbn [default from_option id].
  - rewrite (msum_delete weight _ addr b E). lia.
  - rewrite delete_id, new_weight by done. lia.
Qed.

Context (good : TxWrapperUni -> Prop).
Context (good_id : forall w w', good w -> good w' -> txID w = txID w' -> slot w = slot w').

Lemma AddTx_total k c w : inv good k c -> 0 <= k -> k + 2 < 2 ^ 64 -> is_u64 (nonce w) ->
  total (CollectTxs.AddTx c w).1
  = total c + match (CollectTxs.AddTx c w).2 with None => f w | Some _ => 0 end.
Proof.
  intros Hi Hk Hb Hn. unfold CollectTxs.AddTx. destruct (ShrinkMap.Get _ _); [cbn; lia|].
  fold (account c (fromAddr w)). destruct (account_inv good k c (fromAddr w) Hi Hk) as [Hwf Hbound _].
  pose proof (AddTx_weight (account c (fromAddr w)) w Hwf ltac:(unfold AccountTxs.room; lia) Hn) as Hw.
  destruct (AccountTxs.AddTx _ _) as [[a' sent] err]. cbn [fst snd]. unfold total at 1. cbn [accountTxs].
  rewrite total_update, Hw. destruct err; cbn; lia.
Qed.

Lemma RemoveTx_total k c id : inv good k c ->
  total (CollectTxs.RemoveTx c id).1
  = total c - match (CollectTxs.RemoveTx c id).2 with Some w => f w | None => 0 end.
Proof.
  intros Hi. unfold CollectTxs.RemoveTx.
  destruct (lists_remove (pendingTxs c) id (inv_lists _ _ _ Hi)) as [_ Hr].
  { intros t t' Ht Ht' E E'. eapply (queued_id_unique good good_id); eauto; [apply elem_of_app; by left..|congruence]. }
  destruct (list_removeTx (pendingTxs c) id) as [pl [w|]]; cbn [fst snd] in *; [|unfold total; cbn [accountTxs]; lia].
  destruct Hr as [_ Hp]. assert (Hw : is_pending c w).
  { apply (inv_pending _ _ _ Hi), elem_of_app. left. unfold listed. rewrite Hp. by left. }
  destruct Hw as (a & Ha & Hpa). rewrite Ha. unfold total at 1. cbn [accountTxs]. rewrite total_update.
  unfold account. rewrite Ha. cbn [default from_option Datatypes.id]. unfold weight. cbn [AccountTxs.removePendingTx AccountTxs.pendingTxs AccountTxs.gapTxs].
  rewrite (msum_delete f (AccountTxs.pendingTxs a) (nonce w) w Hpa). lia.
Qed.

Lemma total_nonneg k c : inv good k c -> (forall w, good w -> 0 <= f w) -> 0 <= total c.
Proof.
  intros Hi Hf. apply msum_nonneg. intros addr a Ha.
  destruct (inv_accs _ _ _ Hi addr a Ha) as [_ _ Hown]. unfold weight.
  assert (0 <= msum f (AccountTxs.pendingTxs a)) by (apply msum_nonneg; intros n w Hw; apply Hf, (Hown n); by left).
  assert (0 <= msum f (AccountTxs.gapTxs a)) by (apply msum_nonneg; intros n w Hw; apply Hf, (Hown n); by right).
  lia.
Qed.
End Weight.

(** * Occupied nonces *)

(** The (sender, nonce) of [w] can take no further transaction: the nonce is
    behind the account's, or its gap entry is taken. *)
Definition occupied (c : CollectTxs) (w : TxWrapperUni) : Prop :=
  nonce w <= AccountTxs.maxContNonce (account c (fromAddr w))
  \/ is_Some (AccountTxs.gapTxs (account c (fromAddr w)) !! nonce w).

(** Every transaction the collection knows by id occupies its nonce. *)
Definition known_occupied (c : CollectTxs) : Prop :=
  ShrinkMap.wf (fullTxs c) /\ forall id w, ShrinkMap.Get (fullTxs c) id = Some w -> occupied c w.

Section Occupied.
Context (good : TxWrapperUni -> Prop).

Lemma known_new : known_occupied NewCollectTxs.
Proof.
  destruct (ShrinkMap.NewShrinkMap_wf (K:=bytes) (V:=TxWrapperUni)) as [Hwf Hc].
  split; [done|]. intros id w H. change (fullTxs NewCollectTxs) with (ShrinkMap.NewShrinkMap (K:=bytes) (V:=TxWrapperUni)) in H.
  by rewrite <-ShrinkMap.contents_lookup, Hc, lookup_empty in H.
Qed.

Lemma account_insert full c addr a ch pl b :
  account (mkCollectTxs full (<[addr:=a]> (accountTxs c)) ch pl) b = if decide (b = addr) then a else account c b.
Proof.
  unfold account. cbn [accountTxs]. case_decide as E; [subst; by rewrite lookup_insert_eq|by rewrite lookup_insert_ne].
Qed.

Lemma known_add k c w : inv good k c -> 0 <= k -> k + 2 < 2 ^ 64 -> is_u64 (nonce w) ->
  known_occupied c -> known_occupied (CollectTxs.AddTx c w).1.
Proof.
  intros Hi Hk Hb Hn [Hwf Hocc]. unfold CollectTxs.AddTx.
  destruct (ShrinkMap.Get (fullTxs c) (txID w)) eqn:Eg; [done|].
  fold (account c (fromAddr w)). destruct (account_inv good k c (fromAddr w) Hi Hk) as [Hwfa Hbound _].
  pose proof (AccountTxs.AddTx_spec (account c (fromAddr w)) w Hwfa ltac:(unfold AccountTxs.room; lia) Hn) as Hs.
  destruct (AccountTxs.AddTx (account c (fromAddr w)) w) as [[a' sent] err]. cbn [fst].
  destruct Hs as (_ & Hle & _ & Hsent & _ & _ & Hkeep & Herr).
  destruct (ShrinkMap.Set'_refines (fullTxs c) (txID w) w Hwf) as [Hwf' Hc].
  split; [done|]. cbn [fullTxs]. intros id w'. rewrite <-ShrinkMap.contents_lookup, Hc.
  unfold occupied. rewrite account_insert. intros [[_ <-]|[_ Hw']]%lookup_insert_Some.
  - rewrite decide_True by done. destruct err.
    + by destruct Herr as (-> & _ & H).
    + destruct Herr as (_ & _ & [Hin|[Hg _]] & _); [left|right; by eexists].
      assert (nonce w ∈ nonce <$> sent) as Hin' by (by apply list_elem_of_fmap_2).
      rewrite Hsent in Hin'. apply elem_of_seqZ in Hin'. lia.
  - rewrite ShrinkMap.contents_lookup in Hw'. specialize (Hocc id w' Hw'). unfold occupied in Hocc.
    case_decide as E; [|done]. rewrite E in Hocc. destruct Hocc as [H|[t Ht]]; [left; lia|].
    destruct (Hkeep _ _ Ht) as [H|H]; [right; by eexists|by left].
Qed.

Lemma known_receive c : known_occupied c -> known_occupied (receivePendingTx c).
Proof. unfold receivePendingTx. by destruct (pendingTxChan c). Qed.

Lemma known_remove c id : known_occupied c -> known_occupied (CollectTxs.RemoveTx c id).1.
Proof.
  intros [Hwf Hocc]. destruct (ShrinkMap.Del_refines (fullTxs c) id Hwf) as [Hwf' Hc].
  assert (Hsame : forall w, ShrinkMap.Get (ShrinkMap.Del (fullTxs c) id) w = ShrinkMap.contents (ShrinkMap.Del (fullTxs c) id) !! w)
    by (intros; by rewrite ShrinkMap.contents_lookup).
  assert (Hold : forall i w, ShrinkMap.Get (ShrinkMap.Del (fullTxs c) id) i = Some w -> occupied c w).
  { intros i w. rewrite Hsame, Hc. intros [_ H]%lookup_delete_Some.
    rewrite ShrinkMap.contents_lookup in H. by eapply Hocc. }
  unfold CollectTxs.RemoveTx. destruct (list_removeTx _ _) as [pl [w|]]; cbn [fst]; (split; [done|]); cbn [fullTxs].
  - intros i w' Hw'. specialize (Hold i w' Hw').
    destruct (accountTxs c !! fromAddr w) as [a|] eqn:Ea; [|done].
    unfold occupied in *. rewrite account_insert. case_decide as E; [|done].
    unfold account in Hold. rewrite E, Ea in Hold. done.
  - exact Hold.
Qed.

(** Adding a transaction for an occupied nonce fails and changes no account. *)
Lemma AddTx_occupied k c w : inv good k c -> 0 <= k -> k + 2 < 2 ^ 64 -> is_u64 (nonce w) -> occupied c w ->
  is_Some (CollectTxs.AddTx c w).2
  /\ pendingTxs (CollectTxs.AddTx c w).1 = pendingTxs c
  /\ pendingTxChan (CollectTxs.AddTx c w).1 = pendingTxChan c
  /\ forall addr, account (CollectTxs.AddTx c w).1 addr = account c addr.
Proof.
  intros Hi Hk Hb Hn Hocc. unfold CollectTxs.AddTx.
  destruct (ShrinkMap.Get (fullTxs c) (txID w)) eqn:Eg; [by cbn|].
  fold (account c (fromAddr w)). destruct (account_inv good k c (fromAddr w) Hi Hk) as [Hwfa Hbound _].
  pose proof (AccountTxs.AddTx_spec (account c (fromAddr w)) w Hwfa ltac:(unfold AccountTxs.room; lia) Hn) as Hs.
  destruct (AccountTxs.AddTx (account c (fromAddr w)) w) as [[a' sent] err]. cbn [fst snd].
  destruct Hs as (_ & _ & _ & _ & _ & _ & _ & Herr). destruct err as [e|].
  - destruct Herr as (-> & -> & _). cbn [pendingTxs pendingTxChan]. split_and!; [by eexists|done|by rewrite app_nil_r|].
    intros addr. rewrite account_insert. by case_decide; subst.
  - exfalso. destruct Herr as (Hlt & Hg & _). destruct Hocc as [H|[t H]]; [lia|congruence].
Qed.
End Occupied.

(** * The pool *)

(** What a well-formed transaction says of its head. *)
Lemma head_nonce_u64 t h : Tx.well_formed Transaction.desc t -> Transaction.Head t = Some h ->
  is_u64 (TransactionHead.Nonce h).
Proof.
  intros (Hv & _ & _) Hh. unfold Wire.valid in Hv. apply Forall_cons in Hv as [Hv _].
  cbn in Hv. unfold Wire.msg_all in Hv. rewrite Hh in Hv. cbn in Hv. unfold Wire.valid in Hv.
  do 6 (apply Forall_cons in Hv as [_ Hv]). apply Forall_cons in Hv as [Hv _].
  cbn in Hv. rewrite <-Hv. apply u64_range.
Qed.

Section PoolInv.
Context (blake2b : bytes -> bytes) {S C : Type} `{!PoolServant S, !StateCache C}.

(** The transactions a pool is offered, among which the hash has no
    collision. *)
Context (offered : Tx.tx -> Prop).
Context (no_collision : forall t t', offered t -> offered t' ->
  blake2b (Wire.enc Transaction.desc _ t) = blake2b (Wire.enc Transaction.desc _ t') ->
  Wire.enc Transaction.desc _ t = Wire.enc Transaction.desc _ t').

(** A transaction the pool can wrap: well formed, universal, with decodable
    data that has a head. *)
Record acceptable (t : Tx.tx) : Prop := mkAcceptable {
  ac_wf : Tx.well_formed Transaction.desc t;
  ac_offered : offered t;
  ac_size : Transaction.Size t < 2 ^ 62;
  ac_shape : exists head data uni uniHead,
    Transaction.Head t = Some head /\ Transaction.Data t = Some data
    /\ TransactionHead.Category head = TransactionCategory_Topia_Universal
    /\ TransactionUniversal.Unmarshal (TransactionData.Specification data) (Wire.s_zero TransactionUniversal.desc) = Ok uni
    /\ TransactionUniversal.Head uni = Some uniHead;
}.

(** The wrapper of an acceptable transaction. *)
Definition wraps (t : Tx.tx) (w : TxWrapperUni) : Prop :=
  txID w = Tx.hex_EncodeToString (blake2b (Wire.enc Transaction.desc _ t))
  /\ txSize w = Transaction.Size t
  /\ exists head, Transaction.Head t = Some head
     /\ fromAddr w = TransactionHead.FromAddr head /\ nonce w = TransactionHead.Nonce head.

Definition good (w : TxWrapperUni) : Prop := exists t, acceptable t /\ wraps t w.

Lemma good_id w w' : good w -> good w' -> txID w = txID w' -> slot w = slot w'.
Proof.
  intros (t & Ht & H1 & _ & h & Hh & Ha & Hn) (t' & Ht' & H1' & _ & h' & Hh' & Ha' & Hn') E.
  rewrite H1, H1' in E. apply Tx.hex_EncodeToString_inj in E.
  apply no_collision in E; [|by apply ac_offered..].
  assert (t = t') as <- by (apply (Tx.enc_inj Transaction.desc); [by apply ac_wf..|done]).
  unfold slot. rewrite Ha, Hn, Ha', Hn'. rewrite Hh in Hh'. by injection Hh' as ->.
Qed.

Lemma good_props w : good w -> 0 <= txSize w < 2 ^ 62 /\ is_u64 (nonce w).
Proof.
  intros (t & [(Hv & Hk & Hs) _ Hsz _] & _ & -> & h & Hh & _ & ->). split.
  - split; [|done]. unfold Transaction.Size. rewrite (Wire.Size_enc Transaction.desc Transaction.laws) by done. apply Wire.len_nonneg.
  - by eapply head_nonce_u64.
Qed.

Lemma generate_good id now t h : acceptable t ->
  exists w, GenerateTxWrapper blake2b id now t h = Ok (Some w) /\ wraps t w.
Proof.
  intros [Hwf _ _ (head & data & uni & uniHead & Hh & Hd & Hc & Hu & Huh)].
  unfold GenerateTxWrapper, GenerateTxWrapperUni. rewrite Hh, decide_True by done.
  rewrite Tx.TxID_eq by done. cbn [mbind outcome_bind]. rewrite Hd, Hu, Huh.
  eexists. split; [done|]. split_and!; [done|done|]. by exists head.
Qed.

(** The invariant of the pool after [k] operations. *)
Record pinv (k : Z) (pool : transactionPool S C) : Prop := mkPInv {
  pi_inv : inv good k (txsCollect pool);
  pi_known : known_occupied (txsCollect pool);
  pi_count : txCount pool = total (fun _ => 1) (txsCollect pool);
  pi_size : txSizeBytes pool = total txSize (txsCollect pool);
  pi_maxcnt : txCount pool <= TxPoolMaxCnt (config pool) < 2 ^ 62;
  pi_maxsize : txSizeBytes pool <= TxPoolMaxSize (config pool) < 2 ^ 62;
}.

Lemma pinv_nonneg k pool : pinv k pool -> 0 <= txCount pool /\ 0 <= txSizeBytes pool.
Proof.
  intros [Hi _ -> -> _ _]. split; (eapply total_nonneg; [done|]); intros w Hw; [lia|apply good_props, Hw].
Qed.

(** The parts of the pool the invariant reads. *)
Definition same_txs (p q : transactionPool S C) : Prop :=
  config p = config q /\ txsCollect p = txsCollect q /\ txCount p = txCount q /\ txSizeBytes p = txSizeBytes q.

Lemma pinv_same k k' p q : same_txs p q -> k <= k' -> pinv k p -> pinv k' q.
Proof.
  intros (E1 & E2 & E3 & E4) Hk [H1 H2 H3 H4 H5 H6].
  rewrite E1 in *. rewrite E2, E3, E4 in *. split; try done. by eapply inv_mono.
Qed.

Lemma collect_pinv k pool id w : pinv k pool -> 0 <= k -> k + 2 < 2 ^ 64 -> good w ->
  txCount pool + 1 <= TxPoolMaxCnt (config pool) -> txSizeBytes pool + txSize w <= TxPoolMaxSize (config pool) ->
  pinv (k + 1) (collect pool id w).1 /\ config (collect pool id w).1 = config pool.
Proof.
  intros Hp Hk Hb Hg Hcnt Hsz. destruct (pinv_nonneg k pool Hp). destruct (good_props w Hg) as [Hw Hn].
  destruct Hp as [H1 H2 H3 H4 H5 H6]. unfold collect.
  pose proof (inv_add good k (txsCollect pool) w H1 Hk Hb Hg Hn) as Hi'.
  pose proof (known_add good k (txsCollect pool) w H1 Hk Hb Hn H2) as Hk'.
  pose proof (AddTx_total (fun _ => 1) good k (txsCollect pool) w H1 Hk Hb Hn) as Ht1.
  pose proof (AddTx_total txSize good k (txsCollect pool) w H1 Hk Hb Hn) as Ht2.
  destruct (CollectTxs.AddTx (txsCollect pool) w) as [c [e|]]; cbn [fst snd] in *.
  - split; [|done]. split; cbn; try done; lia.
  - split; [|done]. rewrite !i64_small by (unfold is_i64; lia). split; cbn; try done; lia.
Qed.

Lemma newWrapper_spec pool now t h : acceptable t ->
  exists p w, newWrapper blake2b pool now t h = Ok (p, Some w) /\ wraps t w /\ same_txs pool p
  /\ wstates p = wstates pool /\ GenerateTxWrapper blake2b (nextID pool) now t h = Ok (Some w).
Proof.
  intros Ht. unfold newWrapper. destruct (generate_good (nextID pool) now t h Ht) as (w & E & Hw).
  rewrite E. cbn [mbind outcome_bind]. do 2 eexists. split_and!; [done|done| |done|done]. by split_and!.
Qed.

Context (heights : forall s : S, CurrentHeight s <> Panic).

(** [addTx] returns and keeps the invariant. *)
Lemma addTx_pinv k pool now t h : pinv k pool -> 0 <= k -> k + 2 < 2 ^ 64 -> acceptable t ->
  exists pool' r, addTx blake2b pool now t h = Ok (pool', r) /\ pinv (k + 1) pool' /\ config pool' = config pool.
Proof.
  intros Hp Hk Hb Ht. destruct (pinv_nonneg k pool Hp). unfold addTx. rewrite Tx.TxID_eq by apply Ht.
  cbn [mbind outcome_bind]. set (id := Tx.hex_EncodeToString _). destruct (generate_good 0 0 t 0 Ht) as (w0 & _ & Hw0).
  destruct (good_props w0 ltac:(by exists t)) as [Hsz _]. destruct Hw0 as (_ & Hw0 & _). rewrite Hw0 in Hsz.
  pose proof (pi_maxcnt _ _ Hp). pose proof (pi_maxsize _ _ Hp). unfold Count, Size.
  rewrite !i64_small by (unfold is_i64; lia).
  assert (Hsame : forall p, same_txs pool p -> pinv (k + 1) p) by (intros p Hs; eapply pinv_same; [done| |done]; lia).
  destruct (Z.gtb_spec (txCount pool + 1) (TxPoolMaxCnt (config pool))).
  { do 2 eexists. split_and!; [done|apply Hsame; by split_and!|done]. }
  destruct (Z.gtb_spec (txSizeBytes pool + Transaction.Size t) (TxPoolMaxSize (config pool))).
  { do 2 eexists. split_and!; [done|apply Hsame; by split_and!|done]. }
  assert (Hh : exists ch, (if h =? 0 then CurrentHeight (txServant pool) else Ok (Some h)) = Ok ch).
  { destruct (h =? 0); [|eauto]. pose proof (heights (txServant pool)) as Hnp.
    destruct (CurrentHeight (txServant pool)) as [ch|[]|]; [eauto|done]. }
  destruct Hh as [[ch|] ->]; cbn [mbind outcome_bind]; [|do 2 eexists; split_and!; [done|apply Hsame; by split_and!|done]].
  destruct (newWrapper_spec pool now t ch Ht) as (p & w & -> & Hw & Hs & _). cbn [mbind outcome_bind].
  destruct (collect p id w) as [p' r] eqn:Ec. do 2 eexists. split; [done|].
  destruct Hs as (E1 & E2 & E3 & E4). replace p' with (collect p id w).1 by (by rewrite Ec).
  rewrite E1. apply collect_pinv; try done; [apply (pinv_same k k pool p); [by split_and!|lia|done]|by exists t| |].
  - rewrite <-E1, <-E3. done.
  - rewrite <-E1, <-E4. destruct Hw as (_ & -> & _). lia.
Qed.

(** The transactions of the pool and its counters are the same. *)
Definition unchanged (p q : transactionPool S C) : Prop :=
  Count q = Count p /\ Size q = Size p
  /\ pendingTxs (txsCollect q) = pendingTxs (txsCollect p)
  /\ pendingTxChan (txsCollect q) = pendingTxChan (txsCollect p)
  /\ forall addr, account (txsCollect q) addr = account (txsCollect p) addr.

Lemma same_unchanged p q : same_txs p q -> unchanged p q.
Proof. intros (_ & E2 & E3 & E4). unfold unchanged, Count, Size. by rewrite E2, E3, E4. Qed.

Lemma unchanged_trans p q r : unchanged p q -> unchanged q r -> unchanged p r.
Proof.
  intros (H1 & H2 & H3 & H4 & H5) (H1' & H2' & H3' & H4' & H5').
  split_and!; congruence.
Qed.

(** Adding a transaction whose nonce is occupied fails. *)
Lemma addTx_occupied k pool now t h : pinv k pool -> 0 <= k -> k + 2 < 2 ^ 64 -> acceptable t ->
  (forall w, wraps t w -> occupied (txsCollect pool) w) ->
  exists pool' e, addTx blake2b pool now t h = Ok (pool', inr e) /\ unchanged pool pool'.
Proof.
  intros Hp Hk Hb Ht Hocc. unfold addTx. rewrite Tx.TxID_eq by apply Ht.
  cbn [mbind outcome_bind]. set (id := Tx.hex_EncodeToString _).
  case_match; [do 2 eexists; split; [done|by apply same_unchanged; split_and!]|].
  case_match; [do 2 eexists; split; [done|by apply same_unchanged; split_and!]|].
  assert (Hh : exists ch, (if h =? 0 then CurrentHeight (txServant pool) else Ok (Some h)) = Ok ch).
  { destruct (h =? 0); [|eauto]. pose proof (heights (txServant pool)) as Hnp.
    destruct (CurrentHeight (txServant pool)) as [ch|[]|]; [eauto|done]. }
  destruct Hh as [[ch|] ->]; cbn [mbind outcome_bind];
    [|do 2 eexists; split; [done|by apply same_unchanged; split_and!]].
  destruct (newWrapper_spec pool now t ch Ht) as (p & w & -> & Hw & Hs & _). cbn [mbind outcome_bind].
  destruct (good_props w ltac:(by exists t)) as [_ Hn]. pose proof (same_unchanged _ _ Hs) as Hu.
  destruct Hs as (_ & E2 & E3 & E4).
  destruct (AddTx_occupied good k (txsCollect pool) w (pi_inv _ _ Hp) Hk Hb Hn (Hocc w Hw)) as ([e He] & H1 & H2 & H3).
  unfold collect. rewrite <-E2. destruct (CollectTxs.AddTx (txsCollect pool) w) as [c err]. cbn [fst snd] in *. subst err.
  do 2 eexists. split; [done|]. unfold unchanged. cbn. by rewrite <-E3, <-E4.
Qed.

Lemma UpdateTx_unchanged k pool now t old : pinv k pool -> 0 <= k -> k + 2 < 2 ^ 64 -> acceptable t ->
  exists pool' err, UpdateTx blake2b pool now t old = Ok (pool', err) /\ unchanged pool pool'
  /\ pinv (k + 1) pool' /\ config pool' = config pool
  /\ (forall wOld ch w, GetTx (txsCollect pool) old = Some wOld -> CurrentHeight (txServant pool) = Ok (Some ch) ->
      GenerateTxWrapper blake2b (nextID pool) now t ch = Ok (Some w) ->
      CanReplace (wstates pool) wOld w = true -> is_Some err).
Proof.
  intros Hp Hk Hb Ht. unfold UpdateTx.
  assert (Hsame : forall p, same_txs pool p -> unchanged pool p /\ pinv (k + 1) p /\ config p = config pool).
  { intros p Hs. split_and!; [by apply same_unchanged|eapply pinv_same; [done| |done]; lia|by destruct Hs as (-> & _)]. }
  assert (Hrefl : same_txs pool pool) by (by split_and!).
  destruct (GetTx (txsCollect pool) old) as [wOld|] eqn:Eo.
  2:{ do 2 eexists. split; [done|]. destruct (Hsame pool Hrefl) as (? & ? & ?). by split_and!. }
  pose proof (heights (txServant pool)) as Hnp.
  destruct (CurrentHeight (txServant pool)) as [[ch|]|[]|] eqn:Eh; cbn [mbind outcome_bind]; [| |done].
  2:{ do 2 eexists. split; [done|]. destruct (Hsame pool Hrefl) as (? & ? & ?). split_and!; eauto. }
  destruct (newWrapper_spec pool now t ch Ht) as (p & w & -> & Hw & Hs & Hws & Eg). cbn [mbind outcome_bind].
  rewrite Hws. destruct (Hsame p Hs) as (Hu & Hpp & Hc).
  destruct (CanReplace (wstates pool) wOld w) eqn:Ec.
  - assert (fromAddr w = fromAddr wOld /\ nonce w = nonce wOld) as [Ha Hn].
    { unfold CanReplace in Ec. apply andb_true_iff in Ec as [[[_ Ha]%andb_true_iff Hn]%andb_true_iff _].
      by apply bool_decide_eq_true in Ha; apply Z.eqb_eq in Hn. }
    assert (Hocc : forall w', wraps t w' -> occupied (txsCollect p) w').
    { intros w' Hw'. destruct Hs as (_ & <- & _). destruct (pi_known _ _ Hp) as [_ Hk']. specialize (Hk' old wOld Eo).
      destruct Hw as (_ & _ & hd & Hh1 & Ha1 & Hn1), Hw' as (_ & _ & hd' & Hh2 & Ha2 & Hn2).
      rewrite Hh1 in Hh2. injection Hh2 as <-. unfold occupied in *. by rewrite Ha2, Hn2, <-Ha1, <-Hn1, Ha, Hn. }
    assert (Hp0 : pinv k p) by (eapply pinv_same; [done| |done]; lia).
    destruct (addTx_occupied k p now t 0 Hp0 Hk Hb Ht Hocc) as (p' & e & E & Hu').
    destruct (addTx_pinv k p now t 0 Hp0 Hk Hb Ht) as (p'' & r & E' & Hpi & Hc').
    rewrite E in E'. injection E' as <- <-. rewrite E. cbn [mbind outcome_bind].
    do 2 eexists. split; [done|]. split_and!; [by eapply unchanged_trans|done|congruence|eauto].
  - do 2 eexists. split; [done|]. split_and!; try done.
    intros wOld' ch' w' [= <-] [= <-] Eg' Hcr. rewrite Eg in Eg'. injection Eg' as <-. congruence.
Qed.

Lemma RemoveTxByKey_pinv k pool id : pinv k pool ->
  pinv k (RemoveTxByKey pool id) /\ config (RemoveTxByKey pool id) = config pool.
Proof.
  intros Hp. destruct (pinv_nonneg k pool Hp). destruct Hp as [H1 H2 H3 H4 H5 H6]. unfold RemoveTxByKey.
  pose proof (inv_remove good good_id k (txsCollect pool) id H1) as Hi'.
  pose proof (known_remove (txsCollect pool) id H2) as Hk'.
  pose proof (RemoveTx_total (fun _ => 1) good good_id k (txsCollect pool) id H1) as Ht1.
  pose proof (RemoveTx_total txSize good good_id k (txsCollect pool) id H1) as Ht2.
  pose proof (total_nonneg txSize good k _ Hi' (fun w Hw => proj1 (proj1 (good_props w Hw)))) as Hnn.
  pose proof (total_nonneg (fun _ => 1) good k _ Hi' (fun w _ => Z.le_0_1)) as Hnn1.
  assert (Hsz : forall w, (CollectTxs.RemoveTx (txsCollect pool) id).2 = Some w -> 0 <= txSize w).
  { intros w Hw. assert (w ∈ queued (txsCollect pool)) as Hq; [|pose proof (good_props w (queued_good good k _ w H1 Hq)); lia].
    unfold CollectTxs.RemoveTx in Hw. destruct (lists_remove (pendingTxs (txsCollect pool)) id (inv_lists _ _ _ H1)) as [_ Hr].
    { intros t t' Ht Ht' E E'. apply (queued_id_unique good good_id k (txsCollect pool));
        [done|apply elem_of_app; by left..|congruence]. }
    destruct (list_removeTx _ id) as [pl [w0|]]; cbn [snd fst] in *; [|done]. injection Hw as ->.
    apply elem_of_app. left. unfold listed. destruct Hr as [_ ->]. by left. }
  destruct (CollectTxs.RemoveTx (txsCollect pool) id) as [c [w|]]; cbn [fst snd] in *; (split; [|done]).
  - specialize (Hsz w eq_refl). rewrite !i64_small by (unfold is_i64; lia). split; cbn; try done; lia.
  - split; cbn; try done; lia.
Qed.

Lemma receive_pinv k pool : pinv k pool -> pinv k (receive pool) /\ config (receive pool) = config pool.
Proof.
  intros [H1 H2 H3 H4 H5 H6]. split; [|done].
  assert (E : forall f, total f (receivePendingTx (txsCollect pool)) = total f (txsCollect pool))
    by (intros f; unfold receivePendingTx; by destruct (pendingTxChan _)).
  split; cbn; rewrite ?E; try done; [by apply inv_receive|by apply known_receive].
Qed.

Lemma AddTx_pinv k pool now t b : pinv k pool -> 0 <= k -> k + 2 < 2 ^ 64 -> acceptable t ->
  exists pool' err, AddTx blake2b pool now t b = Ok (pool', err) /\ pinv (k + 1) pool' /\ config pool' = config pool.
Proof.
  intros Hp Hk Hb Ht. unfold AddTx. destruct b.
  - unfold addLocal. destruct (ac_shape t Ht) as (head & _ & _ & _ & -> & _).
    set (p := mkTransactionPool _ _ _ _ _ _ _ _ _).
    assert (Hpp : pinv k p) by (apply (pinv_same k k pool p); [by split_and!|lia|done]).
    destruct (addTx_pinv k p now t 0 Hpp Hk Hb Ht) as (p' & [w|e] & -> & Hp' & Hc); cbn [mbind outcome_bind].
    + do 2 eexists. split; [done|]. split; [|done]. apply (pinv_same (k + 1) (k + 1) p'); [by split_and!|lia|done].
    + do 2 eexists. split; [done|]. by split.
  - unfold addRemote. destruct (addTx_pinv k pool now t 0 Hp Hk Hb Ht) as (p' & r & -> & Hp' & Hc).
    cbn [mbind outcome_bind]. do 2 eexists. split; [done|]. by split.
Qed.

(** Runs of the pool. *)
Inductive pool_op :=
| PoolAdd (now : Z) (t : Tx.tx) (isLocal : bool)
| PoolUpdate (now : Z) (t : Tx.tx) (oldTxID : bytes)
| PoolRemove (id : bytes)
| PoolReceive.

Definition pool_step (pool : transactionPool S C) (o : pool_op) : go (transactionPool S C) :=
  match o with
  | PoolAdd now t b => '(pool, _) ← AddTx blake2b pool now t b; Ok pool
  | PoolUpdate now t old => '(pool, _) ← UpdateTx blake2b pool now t old; Ok pool
  | PoolRemove id => Ok (RemoveTxByKey pool id)
  | PoolReceive => Ok (receive pool)
  end.

Fixpoint pool_run (pool : transactionPool S C) (ops : list pool_op) : go (transactionPool S C) :=
  match ops with
  | [] => Ok pool
  | o :: ops => pool ← pool_step pool o; pool_run pool ops
  end.

Definition pool_op_ok (o : pool_op) : Prop :=
  match o with PoolAdd _ t _ | PoolUpdate _ t _ => acceptable t | _ => True end.

(** The pool [NewTransactionPool] makes, before any stored transaction is
    loaded. *)
Definition newPool (conf : TransactionPoolConfig) (s : S) (c : C) : transactionPool S C :=
  mkTransactionPool (Check conf) s 0 0 c NewCollectTxs ∅ 0 ∅.

Lemma pool_step_pinv k pool o : pinv k pool -> 0 <= k -> k + 2 < 2 ^ 64 -> pool_op_ok o ->
  exists pool', pool_step pool o = Ok pool' /\ pinv (k + 1) pool' /\ config pool' = config pool.
Proof.
  intros Hp Hk Hb Ho. destruct o as [now t b|now t old|id|]; cbn [pool_step pool_op_ok] in *.
  - destruct (AddTx_pinv k pool now t b Hp Hk Hb Ho) as (p & e & -> & H1 & H2). eauto.
  - destruct (UpdateTx_unchanged k pool now t old Hp Hk Hb Ho) as (p & e & -> & _ & H1 & H2 & _). eauto.
  - destruct (RemoveTxByKey_pinv k pool id Hp) as [H1 H2]. eexists. split_and!; [done| |done].
    apply (pinv_same k (k + 1) (RemoveTxByKey pool id)); [by split_and!|lia|done].
  - destruct (receive_pinv k pool Hp) as [H1 H2]. eexists. split_and!; [done| |done].
    apply (pinv_same k (k + 1) (receive pool)); [by split_and!|lia|done].
Qed.

Lemma pool_run_pinv k pool ops : pinv k pool -> 0 <= k -> k + Z.of_nat (length ops) + 2 < 2 ^ 64 ->
  Forall pool_op_ok ops ->
  exists pool', pool_run pool ops = Ok pool' /\ pinv (k + Z.of_nat (length ops)) pool' /\ config pool' = config pool.
Proof.
  intros Hp Hk Hb Hok. revert k pool Hp Hk Hb. induction Hok as [|o ops Ho _ IH]; intros k pool Hp Hk Hb.
  - exists pool. cbn. rewrite Z.add_0_r. by split_and!.
  - cbn [length] in Hb. cbn [pool_run].
    destruct (pool_step_pinv k pool o Hp Hk ltac:(lia) Ho) as (p & -> & Hp' & Hc). cbn [mbind outcome_bind].
    destruct (IH (k + 1) p Hp' ltac:(lia) ltac:(lia)) as (p' & -> & Hp'' & Hc'). exists p'.
    split_and!; [done| |congruence]. cbn [length].
    replace (k + Z.of_nat (Datatypes.S (length ops))) with (k + 1 + Z.of_nat (length ops)) by lia. done.
Qed.

Lemma newPool_pinv conf s c : TxPoolMaxCnt (Check conf) < 2 ^ 62 -> TxPoolMaxSize (Check conf) < 2 ^ 62 ->
  pinv 0 (newPool conf s c).
Proof.
  intros H1 H2.
  assert (Hpos : forall d v, 0 <= d -> 0 <= at_least d v)
    by (intros d v Hd; unfold at_least; destruct (Z.ltb_spec v d); lia).
  split; [apply inv_new|apply known_new|done|done|split; [by apply Hpos|done]..].
Qed.
End PoolInv.

(** * Properties *)


(** [UpdateTx] never replaces a transaction: in any state the pool can
    reach, it leaves the pending lists, the channel, the accounts and the
    counters as they are, and when the replacement is allowed it reports an
    error, because the old transaction still occupies the nonce. *)
Theorem UpdateTx_never_replaces (blake2b : bytes -> bytes) {S C : Type} `{!PoolServant S, !StateCache C}
    (offered : Tx.tx -> Prop) (conf : TransactionPoolConfig) (s : S) (c : C) (ops : list pool_op)
    (pool : transactionPool S C) (now : Z) (t : Tx.tx) (old : bytes) :
  (forall t t', offered t -> offered t' ->
     blake2b (Wire.enc Transaction.desc _ t) = blake2b (Wire.enc Transaction.desc _ t') ->
     Wire.enc Transaction.desc _ t = Wire.enc Transaction.desc _ t') ->
  (forall s : S, CurrentHeight s <> Panic) ->
  TxPoolMaxCnt (Check conf) < 2 ^ 62 -> TxPoolMaxSize (Check conf) < 2 ^ 62 ->
  Forall (pool_op_ok offered) ops -> Z.of_nat (length ops) + 2 < 2 ^ 64 ->
  pool_run blake2b (newPool conf s c) ops = Ok pool -> acceptable offered t ->
  exists pool' err, UpdateTx blake2b pool now t old = Ok (pool', err) /\ unchanged pool pool'
  /\ (forall wOld ch w, GetTx (txsCollect pool) old = Some wOld -> CurrentHeight (txServant pool) = Ok (Some ch) ->
      GenerateTxWrapper blake2b (nextID pool) now t ch = Ok (Some w) ->
      CanReplace (wstates pool) wOld w = true -> is_Some err).
Proof.
  intros Hnc Hh H1 H2 Hok Hlen Hrun Ht.
  destruct (pool_run_pinv blake2b offered Hnc Hh 0 (newPool conf s c) ops) as (pool' & E & Hp & _);
    [by apply newPool_pinv|lia|lia|done|].
  rewrite Hrun in E. injection E as <-.
  destruct (UpdateTx_unchanged blake2b offered Hh _ pool now t old Hp) as (p & e & E & Hu & _ & _ & He);
    [lia|lia|done|]. eauto.
Qed.

(** ** Sample pool *)

Module Sample.

#[local] Instance servant : PoolServant Z := {|
  CurrentHeight h := Ok (Some h);
  saveTxIntoStore h _ _ _ := h;
  removeTxFromStore h _ := h;
|}.

#[local] Instance cache : StateCache unit := {|
  cache_Add c _ _ := c;
  cache_Remove c _ := c;
  cache_Peek _ _ := None;
|}.

(** A universal transaction from [addr] with nonce [n] and gas price [g]. *)
Definition uni_tx (addr : bytes) (n g : Z) : Tx.tx :=
  let uni := TransactionUniversal.mk (Some (TransactionUniversalHead.mk 1 [] g 0 1 [] 0 [])) None [] in
  let spec := match TransactionUniversal.Marshal uni with Ok b => b | _ => [] end in
  Transaction.mk
    (Some (TransactionHead.mk TransactionCategory_Topia_Universal (str "1") 1 0 0 addr n [] []))
    (Some (TransactionData.mk spec [])) [].

Lemma uni_tx_acceptable (t : Tx.tx) : t ∈ [uni_tx (str "A") 1 5; uni_tx (str "A") 2 5; uni_tx (str "A") 1 9] ->
  acceptable (fun _ => True) t.
Proof.
  intros Ht. repeat (apply elem_of_cons in Ht as [-> | Ht]; [|]); [..|by apply elem_of_nil in Ht];
    (split; [split_and!; [repeat constructor; vm_compute; repeat constructor..|by vm_compute]|done|by vm_compute|];
     do 4 eexists; split_and!; [reflexivity|reflexivity|reflexivity|vm_compute; reflexivity|reflexivity]).
Qed.

Definition ops : list pool_op :=
  [PoolAdd 100 (uni_tx (str "A") 2 5) true; PoolAdd 101 (uni_tx (str "A") 1 5) false; PoolReceive; PoolReceive].

Lemma ops_ok : Forall (pool_op_ok (fun _ => True)) ops.
Proof.
  repeat constructor; apply uni_tx_acceptable; rewrite !elem_of_cons; [right; left; reflexivity|left; reflexivity].
Qed.

End Sample.

#[local] Existing Instance Sample.servant.
#[local] Existing Instance Sample.cache.



Lemma UpdateTx_never_replaces_witness :
  exists pool, pool_run id (newPool DefaultTransactionPoolConfig 7 tt) Sample.ops = Ok pool
  /\ exists pool' err, UpdateTx id pool 105 (Sample.uni_tx (str "A") 1 9)
       (Tx.hex_EncodeToString (Wire.enc Transaction.desc _ (Sample.uni_tx (str "A") 1 5))) = Ok (pool', err)
  /\ unchanged pool pool'.
Proof.
  assert (Hh : forall s : Z, CurrentHeight s <> Panic) by (intros s; discriminate).
  destruct (pool_run_pinv id (fun _ => True) (fun t t' _ _ E => E) Hh 0
    (newPool DefaultTransactionPoolConfig 7 tt) Sample.ops) as (pool & E & _);
    [by apply newPool_pinv|lia|reflexivity|exact Sample.ops_ok|].
  exists pool. split; [exact E|].
  destruct (UpdateTx_never_replaces id (fun _ => True) DefaultTransactionPoolConfig 7 tt Sample.ops pool 105
    (Sample.uni_tx (str "A") 1 9) (Tx.hex_EncodeToString (Wire.enc Transaction.desc _ (Sample.uni_tx (str "A") 1 5))))
    as (pool' & err & H1 & H2 & _).
  - intros t t' _ _ E'. exact E'.
  - exact Hh.
  - reflexivity.
  - reflexivity.
  - exact Sample.ops_ok.
  - reflexivity.
  - exact E.
  - apply Sample.uni_tx_acceptable. rewrite !elem_of_cons. right. right. left. reflexivity.
  - exists pool', err. split; [exact H1|exact H2].
Defined.

(** ** Messages *)

(** The two envelopes of a transaction. *)
Abbreviation tx_message t := (TxMessage.mk (Wire.enc Transaction.desc Transaction.laws t) []).

Abbreviation pool_message dom node t :=
  (TxPoolMessage.mk 1 dom node (Wire.enc TxMessage.desc TxMessage.laws (tx_message t)) []).

Definition publishable (dom node : bytes) (t : Tx.tx) : Prop :=
  Tx.well_formed Transaction.desc t /\ Tx.well_formed TxMessage.desc (tx_message t)
  /\ Tx.well_formed TxPoolMessage.desc (pool_message dom node t).

Lemma TxMessage_Marshal m : Tx.well_formed TxMessage.desc m ->
  TxMessage.Marshal m = Ok (Wire.enc TxMessage.desc TxMessage.laws m).
Proof. intros (Hv & _ & Hs). exact (Wire.Marshal_enc TxMessage.desc TxMessage.laws m Hv Hs). Qed.

Lemma TxPoolMessage_Marshal m : Tx.well_formed TxPoolMessage.desc m ->
  TxPoolMessage.Marshal m = Ok (Wire.enc TxPoolMessage.desc TxPoolMessage.laws m).
Proof. intros (Hv & _ & Hs). exact (Wire.Marshal_enc TxPoolMessage.desc TxPoolMessage.laws m Hv Hs). Qed.

Lemma PublishTx_eq dom node t : publishable dom node t ->
  PublishTx dom node t = Ok (Some (Wire.enc TxPoolMessage.desc _ (pool_message dom node t))).
Proof.
  intros (H1 & H2 & H3). unfold PublishTx.
  rewrite (proj1 (Tx.codec_roundtrip Transaction.desc t H1)), Ok_bind. cbv iota beta.
  rewrite (TxMessage_Marshal _ H2), Ok_bind. by rewrite (TxPoolMessage_Marshal _ H3), Ok_bind.
Qed.

(** Decoding what was published gives back the envelopes and the transaction. *)
Lemma published_decodes dom node t : publishable dom node t ->
  let b := Wire.enc TxPoolMessage.desc _ (pool_message dom node t) in
  TxPoolMessage.Unmarshal b (Wire.s_zero TxPoolMessage.desc) = Ok (pool_message dom node t)
  /\ TxMessage.Unmarshal (TxPoolMessage.Data (pool_message dom node t)) (Wire.s_zero TxMessage.desc) = Ok (tx_message t)
  /\ (forall old, Codec.Unmarshal Transaction.desc (TxMessage.Data (tx_message t)) old = Ok t).
Proof.
  intros (H1 & H2 & H3). cbv zeta. split_and!.
  - exact (proj2 (proj2 (Tx.codec_roundtrip TxPoolMessage.desc _ H3)) (Wire.s_zero TxPoolMessage.desc)).
  - exact (proj2 (proj2 (Tx.codec_roundtrip TxMessage.desc _ H2)) (Wire.s_zero TxMessage.desc)).
  - exact (proj2 (proj2 (Tx.codec_roundtrip Transaction.desc t H1))).
Qed.

(** C34. A published transaction arrives: the bytes [PublishTx] sends are
    accepted by the validators of the domain exactly as the verifier of the
    transaction says, within the size and account limits; another domain
    rejects them; and dispatching them adds the transaction as a remote one. *)
Theorem published_tx_arrives (blake2b : bytes -> bytes) {S C : Type} `{!PoolServant S, !StateCache C}
    (verify : TransactionUniversal.t -> TransactionHead.t -> go Tx.VerifyResult)
    (pool : transactionPool S C) (dom node : bytes) (t : Tx.tx) (head : TransactionHead.t) :
  publishable dom node t -> Transaction.Head t = Some head ->
  Size pool <= TxPoolMaxSize (config pool) ->
  PendingAccountTxCnt pool (TransactionHead.FromAddr head) <= MaxCntOfEachAccount (config pool) ->
  exists b, PublishTx dom node t = Ok (Some b)
  /\ (Transaction.Size t <= MaxSizeOfEachTx DefaultTransactionPoolConfig ->
      Validate verify pool dom true b = Ok ValidationAccept
      /\ Validate verify pool dom false b
         = (v ← CreatTransactionAction_Verify verify t;
            Ok (match v with
                | Tx.VerifyResult_Ignore => ValidationIgnore
                | Tx.VerifyResult_Reject => ValidationReject
                | _ => ValidationAccept
                end)))
  /\ (MaxSizeOfEachTx DefaultTransactionPoolConfig < Transaction.Size t ->
      forall isLocal, Validate verify pool dom isLocal b = Ok ValidationReject)
  /\ (forall other isLocal, other <> dom -> Validate verify pool other isLocal b = Ok ValidationReject)
  /\ (forall now, Dispatch blake2b pool now b = ('(pool', _) ← AddTx blake2b pool now t false; Ok pool')).
Proof.
  intros Hpub Hh Hsz Hcnt. pose proof (PublishTx_eq _ _ _ Hpub) as Epub.
  destruct (published_decodes _ _ _ Hpub) as (E1 & E2 & E3). set (b := Wire.enc _ _ _) in *.
  exists b. split; [done|].
  assert (Hsz' : (Size pool >? TxPoolMaxSize (config pool)) = false) by (rewrite Z.gtb_ltb; apply Z.ltb_ge; lia).
  assert (Hcnt' : (PendingAccountTxCnt pool (TransactionHead.FromAddr head) >? MaxCntOfEachAccount (config pool)) = false)
    by (rewrite Z.gtb_ltb; apply Z.ltb_ge; lia).
  assert (Hn : (TransactionHead.Nonce head >? MaxUint64) = false).
  { destruct Hpub as (Hwf & _). pose proof (head_nonce_u64 t head Hwf Hh) as Hn. unfold is_u64, MaxUint64 in *.
    rewrite Z.gtb_ltb. apply Z.ltb_ge. lia. }
  assert (Hdom : TxPoolMessage.FromDomain (pool_message dom node t) = dom) by done.
  split_and!.
  - intros Hmax. assert (Hmax' : (Transaction.Size t >? MaxSizeOfEachTx DefaultTransactionPoolConfig) = false)
      by (rewrite Z.gtb_ltb; apply Z.ltb_ge; lia).
    split; unfold Validate; rewrite Hsz', E1, Hdom, decide_False by tauto; by rewrite E2, E3, Hmax', Hh, Hn, Hcnt'.
  - intros Hmax isLocal. assert (Hmax' : (Transaction.Size t >? MaxSizeOfEachTx DefaultTransactionPoolConfig) = true)
      by (rewrite Z.gtb_ltb; apply Z.ltb_lt; lia).
    unfold Validate. rewrite Hsz', E1, Hdom, decide_False by tauto. by rewrite E2, E3, Hmax'.
  - intros other isLocal Hne. unfold Validate. by rewrite Hsz', E1, Hdom, decide_True by congruence.
  - intros now. unfold Dispatch, Codec.Unmarshal. unfold TxPoolMessage.Unmarshal in E1. rewrite E1.
    change (TxPoolMessage.MsgType (pool_message dom node t) =? 1) with true. cbv iota.
    unfold TxMessage.Unmarshal in E2. rewrite E2. unfold Process. rewrite E3.
    destruct (AddTx blake2b pool now t false) as [[p e]| |]; done.
Qed.

Lemma published_tx_arrives_witness :
  exists b, PublishTx (str "domain") (str "node") (Sample.uni_tx (str "A") 1 5) = Ok (Some b)
  /\ Validate (fun _ _ => Ok Tx.VerifyResult_Ignore) (newPool DefaultTransactionPoolConfig 7 tt) (str "domain") false b
     = Ok ValidationIgnore.
Proof.
  destruct (published_tx_arrives id (fun _ _ => Ok Tx.VerifyResult_Ignore) (newPool DefaultTransactionPoolConfig 7 tt)
    (str "domain") (str "node") (Sample.uni_tx (str "A") 1 5)
    (TransactionHead.mk TransactionCategory_Topia_Universal (str "1") 1 0 0 (str "A") 1 [] [])) as (b & Hb & H & _).
  - split_and!; (split_and!; [repeat constructor; vm_compute; repeat constructor..|by vm_compute]).
  - reflexivity.
  - vm_compute. discriminate.
  - vm_compute. discriminate.
  - exists b. split; [exact Hb|]. destruct H as [_ H]; [vm_compute; discriminate|]. rewrite H. vm_compute. reflexivity.
Defined.

(** An empty transaction crashes the validator: a message of the right
    domain whose payload is empty decodes to a transaction without a head,
    which the nonce check dereferences. *)
Theorem Validate_panics_on_empty_payload {S C : Type} `{!PoolServant S, !StateCache C}
    (verify : TransactionUniversal.t -> TransactionHead.t -> go Tx.VerifyResult)
    (pool : transactionPool S C) (dom : bytes) (isLocal : bool) :
  Size pool <= TxPoolMaxSize (config pool) -> Tx.well_formed TxPoolMessage.desc (TxPoolMessage.mk 1 dom [] [] []) ->
  exists b, TxPoolMessage.Marshal (TxPoolMessage.mk 1 dom [] [] []) = Ok b
  /\ Validate verify pool dom isLocal b = Panic.
Proof.
  intros Hsz (Hv & Hk & Hs). exists (Wire.enc TxPoolMessage.desc _ (TxPoolMessage.mk 1 dom [] [] [])).
  split; [by apply Wire.Marshal_enc|]. unfold Validate.
  destruct (Z.gtb_spec (Size pool) (TxPoolMaxSize (config pool))); [lia|].
  unfold TxPoolMessage.Unmarshal. rewrite Wire.Unmarshal_enc by done.
  rewrite decide_False by (cbn; tauto). done.
Qed.

Lemma Validate_panics_on_empty_payload_witness :
  exists b, TxPoolMessage.Marshal (TxPoolMessage.mk 1 (str "domain") [] [] []) = Ok b
  /\ Validate (fun _ _ => Ok Tx.VerifyResult_Accept) (newPool DefaultTransactionPoolConfig 7 tt) (str "domain") false b = Panic.
Proof.
  apply Validate_panics_on_empty_payload; [vm_compute; discriminate|].
  split_and!; [repeat constructor; vm_compute; repeat constructor..|by vm_compute].
Defined.

(** ** Configuration *)

(** [Check] raises every limit it knows to its default and changes nothing
    else: the result meets the defaults, checking again changes nothing, and a
    configuration that meets the defaults is returned as it is. *)
Theorem Check_spec (conf : TransactionPoolConfig) :
  let d := DefaultTransactionPoolConfig in
  let meets c := GasPriceLimit d <= GasPriceLimit c /\ MaxCntOfEachAccount d <= MaxCntOfEachAccount c
    /\ TxPoolMaxSize d <= TxPoolMaxSize c /\ TxPoolMaxCnt d <= TxPoolMaxCnt c
    /\ PendingMaxSize d <= PendingMaxSize c /\ PendingMaxCnt d <= PendingMaxCnt c
    /\ TimeOfTxLifecycle d <= TimeOfTxLifecycle c /\ TimeOfTxRepublishTTL d <= TimeOfTxRepublishTTL c
    /\ HeightOfTxRepublishTTL d <= HeightOfTxRepublishTTL c /\ PathTxsStorage c <> [] in
  meets (Check conf) /\ Check (Check conf) = Check conf /\ (meets conf -> Check conf = conf)
  /\ (BlockMaxBytes (Check conf), MaxSizeOfEachTx (Check conf), HeightOfTxLifecycle (Check conf))
     = (BlockMaxBytes conf, MaxSizeOfEachTx conf, HeightOfTxLifecycle conf).
Proof.
  intros d meets.
  assert (Hal : forall d v, d <= at_least d v) by (intros x v; unfold at_least; destruct (Z.ltb_spec v x); lia).
  assert (Hid : forall d v, d <= v -> at_least d v = v) by (intros x v H; unfold at_least; destruct (Z.ltb_spec v x); lia).
  assert (Hmeets : meets (Check conf)).
  { unfold meets, Check, d. cbn [GasPriceLimit MaxCntOfEachAccount TxPoolMaxSize TxPoolMaxCnt PendingMaxSize PendingMaxCnt
      TimeOfTxLifecycle TimeOfTxRepublishTTL HeightOfTxRepublishTTL PathTxsStorage].
    split_and!; try apply Hal. by case_decide. }
  assert (Hfix : forall c, meets c -> Check c = c).
  { intros [] (H1 & H2 & H3 & H4 & H5 & H6 & H7 & H8 & H9 & H10). unfold Check. cbn [GasPriceLimit MaxCntOfEachAccount
      TxPoolMaxSize TxPoolMaxCnt PendingMaxSize PendingMaxCnt TimeOfTxLifecycle TimeOfTxRepublishTTL
      HeightOfTxRepublishTTL PathTxsStorage PathConf ReStoredDur IsLoadTxs IsLoadCfg MaxSizeOfEachTx BlockMaxBytes
      BlockMaxGas HeightOfTxLifecycle] in *.
    rewrite !Hid, decide_False by done. done. }
  split_and!; [done|by apply Hfix|apply Hfix|done].
Qed.

(** The only bound [Validate] puts on the number of an account's transactions
    counts at most one. *)
Lemma PendingAccountTxCnt_at_most_one {S C} (pool : transactionPool S C) good k addr :
  inv good k (txsCollect pool) -> 0 <= k -> k + 2 < 2 ^ 64 -> PendingAccountTxCnt pool addr <= 1.
Proof.
  intros Hi Hk Hb. unfold PendingAccountTxCnt, PendingOfAddress, CollectTxs.PendingOfAddress.
  destruct (accountTxs (txsCollect pool) !! addr) as [a|] eqn:Ea; [|done].
  change (len (AccountTxs.getPendingTxs a) <= 1).
  destruct (inv_accs _ _ _ Hi _ _ Ea) as [Hwf Hbd _].
  rewrite getPendingTxs_last_only by (done || (unfold AccountTxs.room; lia)). by case_match.
Qed.

End TxPoolSpec.
