(* ===== verification/Text.v ===== *)
(** Text primitives of Go's library that the program's encodings use: UTF-8
    runes, decimal numbers, base64. *)
From Stdlib Require Import ZArith Lia Strings.Byte.
From stdpp Require Import base gmap list strings sorting.
From S2P Require Import Prelude.
#[local] Open Scope Z_scope.

(** * Text *)
Module Text.

Definition in_range (lo hi : Z) (b : byte) : bool := (lo <=? b2z b) && (b2z b <=? hi).

Definition cont (b : byte) : bool := in_range 0x80 0xBF b.

Definition RuneError : Z := 0xFFFD.

Definition bits6 (b : byte) : Z := Z.land (b2z b) 0x3F.

(** The second byte a three- or four-byte sequence may have after its first. *)
Definition lead3 (b0 b1 : byte) : bool :=
  (in_range 0xE0 0xE0 b0 && in_range 0xA0 0xBF b1)
  || (in_range 0xE1 0xEC b0 && cont b1)
  || (in_range 0xED 0xED b0 && in_range 0x80 0x9F b1)
  || (in_range 0xEE 0xEF b0 && cont b1).

Definition lead4 (b0 b1 : byte) : bool :=
  (in_range 0xF0 0xF0 b0 && in_range 0x90 0xBF b1)
  || (in_range 0xF1 0xF3 b0 && cont b1)
  || (in_range 0xF4 0xF4 b0 && in_range 0x80 0x8F b1).

(** [utf8.DecodeRune]: the rune and its width; an invalid sequence is
    [RuneError] of width 1, the empty string of width 0. *)
Definition DecodeRune (s : bytes) : Z * nat :=
  match s with
  | [] => (RuneError, 0%nat)
  | b0 :: s1 =>
      if b2z b0 <? 0x80 then (b2z b0, 1%nat)
      else
        match s1 with
        | [] => (RuneError, 1%nat)
        | b1 :: s2 =>
            if in_range 0xC2 0xDF b0 && cont b1
            then (Z.lor (Z.shiftl (Z.land (b2z b0) 0x1F) 6) (bits6 b1), 2%nat)
            else
              match s2 with
              | [] => (RuneError, 1%nat)
              | b2 :: s3 =>
                  if lead3 b0 b1 && cont b2
                  then (Z.lor (Z.shiftl (Z.land (b2z b0) 0x0F) 12)
                          (Z.lor (Z.shiftl (bits6 b1) 6) (bits6 b2)), 3%nat)
                  else
                    match s3 with
                    | [] => (RuneError, 1%nat)
                    | b3 :: _ =>
                        if lead4 b0 b1 && cont b2 && cont b3
                        then (Z.lor (Z.shiftl (Z.land (b2z b0) 0x07) 18)
                                (Z.lor (Z.shiftl (bits6 b1) 12)
                                   (Z.lor (Z.shiftl (bits6 b2) 6) (bits6 b3))), 4%nat)
                        else (RuneError, 1%nat)
                    end
              end
        end
  end.

(** [utf8.EncodeRune]: surrogates and values past the last rune are written
    as [RuneError]. *)
Definition EncodeRune (r : Z) : bytes :=
  let low k := z2b (Z.lor 0x80 (Z.land (Z.shiftr r k) 0x3F)) in
  let err := [xef; xbf; xbd] in
  if r <? 0 then err
  else if r <=? 0x7F then [z2b r]
  else if r <=? 0x7FF then [z2b (Z.lor 0xC0 (Z.shiftr r 6)); low 0]
  else if (0xD800 <=? r) && (r <=? 0xDFFF) then err
  else if r <=? 0xFFFF then [z2b (Z.lor 0xE0 (Z.shiftr r 12)); low 6; low 0]
  else if r <=? 0x10FFFF then [z2b (Z.lor 0xF0 (Z.shiftr r 18)); low 12; low 6; low 0]
  else err.

(** A valid multi-byte or one-byte rune starts the string. *)
Definition valid_rune (s : bytes) : bool :=
  match DecodeRune s with
  | (_, O) => false
  | (_, 1%nat) => match s with b :: _ => b2z b <? 0x80 | [] => false end
  | _ => true
  end.

(** [utf8.Valid]. *)
Fixpoint valid_loop (fuel : nat) (s : bytes) : bool :=
  match fuel with
  | O => true
  | S fuel =>
      match s with
      | [] => true
      | _ => valid_rune s && valid_loop fuel (drop (DecodeRune s).2 s)
      end
  end.

Definition Valid (s : bytes) : bool := valid_loop (length s) s.

Lemma DecodeRune_width s : s <> [] -> (1 <= (DecodeRune s).2)%nat.
Proof. unfold DecodeRune. intros Hs. split_matches; simpl; lia. Qed.

Lemma DecodeRune_le s : ((DecodeRune s).2 <= length s)%nat.
Proof. unfold DecodeRune. split_matches; simpl; lia. Qed.

(** What follows a valid rune does not change how it decodes. *)
Lemma DecodeRune_app s t : valid_rune s = true ->
  DecodeRune (take (DecodeRune s).2 s ++ t) = DecodeRune s.
Proof.
  unfold valid_rune, DecodeRune. intros H.
  repeat (match goal with
    | H : context [match ?c with _ => _ end] |- _ =>
        lazymatch c with context [match _ with _ => _ end] => fail | _ => destruct c eqn:? end
    end; simplify_eq/=); repeat (match goal with H : _ = _ |- _ => rewrite H end); done.
Qed.

Lemma lor_shiftl a k y : 0 <= k -> 0 <= y < 2 ^ k -> Z.lor (Z.shiftl a k) y = a * 2 ^ k + y.
Proof.
  intros Hk Hy. rewrite <- Z.shiftl_mul_pow2 by done.
  assert (Hl : Z.land (Z.shiftl a k) y = 0).
  { apply Z.bits_inj'. intros i Hi. rewrite Z.land_spec, Z.bits_0.
    destruct (Z.ltb_spec i k); [by rewrite Z.shiftl_spec_low by lia|].
    destruct (decide (y = 0)) as [->|]; [by rewrite Z.bits_0, andb_false_r|].
    rewrite (Z.bits_above_log2 y), andb_false_r; [done|lia|].
    apply Z.log2_lt_pow2; [lia|]. apply Z.lt_le_trans with (2 ^ k); [lia|]. apply Z.pow_le_mono_r; lia. }
  rewrite <- Z.lxor_lor by done. symmetry. by apply Z.add_nocarry_lxor.
Qed.

Lemma bits6_eq b : 0 <= bits6 b < 64.
Proof. unfold bits6. change 0x3F with (Z.ones 6). rewrite Z.land_ones by lia. apply Z.mod_pos_bound. lia. Qed.

Lemma cont_eq b : cont b = true -> b2z b = 0x80 + bits6 b.
Proof. destruct b; vm_compute; done. Qed.

(** What the lead bytes contribute. *)
Lemma lead_eq b :
  (in_range 0xC2 0xDF b = true -> Z.land (b2z b) 0x1F = b2z b - 0xC0 /\ 2 <= b2z b - 0xC0 < 32)
  /\ (in_range 0xE0 0xEF b = true -> Z.land (b2z b) 0x0F = b2z b - 0xE0 /\ 0 <= b2z b - 0xE0 < 16)
  /\ (in_range 0xF0 0xF4 b = true -> Z.land (b2z b) 0x07 = b2z b - 0xF0 /\ 0 <= b2z b - 0xF0 < 5).
Proof. destruct b; vm_compute; intuition discriminate. Qed.

Lemma lead3_eq b0 b1 : lead3 b0 b1 = true -> in_range 0xE0 0xEF b0 = true /\ cont b1 = true.
Proof. unfold lead3, cont, in_range. intros H. rewrite !andb_true_iff, !Z.leb_le. lia. Qed.

Lemma lead4_eq b0 b1 : lead4 b0 b1 = true ->
  in_range 0xF0 0xF4 b0 = true /\ cont b1 = true /\ (b2z b0 = 0xF0 -> 0x90 <= b2z b1).
Proof. unfold lead4, cont, in_range. intros H. rewrite !andb_true_iff, !Z.leb_le. lia. Qed.

(** The bytes of a valid multi-byte rune are the ones [EncodeRune] writes, for
    the two line separators JSON escapes. *)
Lemma separator_bytes b s c size : DecodeRune (b :: s) = (c, size) -> (2 <= size)%nat ->
  c = 0x2028 \/ c = 0x2029 -> take size (b :: s) = EncodeRune c.
Proof.
  intros HD Hs Hc. destruct (lead_eq b) as (L2 & L3 & L4).
  assert (T2 : forall b1, in_range 0xC2 0xDF b && cont b1 = true ->
    c = Z.lor (Z.shiftl (Z.land (b2z b) 0x1F) 6) (bits6 b1) -> False).
  { intros b1 [H1 H2]%andb_true_iff E. specialize (L2 H1). pose proof (bits6_eq b1).
    rewrite lor_shiftl in E by (cbn; lia). lia. }
  assert (T3 : forall b1 b2, lead3 b b1 && cont b2 = true ->
    c = Z.lor (Z.shiftl (Z.land (b2z b) 0x0F) 12) (Z.lor (Z.shiftl (bits6 b1) 6) (bits6 b2)) ->
    [b; b1; b2] = EncodeRune c).
  { intros b1 b2 [[H1 H2]%lead3_eq H3]%andb_true_iff E. specialize (L3 H1).
    pose proof (bits6_eq b1). pose proof (bits6_eq b2). apply cont_eq in H2, H3.
    rewrite (lor_shiftl (bits6 b1)) in E by (cbn; lia). rewrite lor_shiftl in E by (cbn; lia).
    rewrite <- (z2b_b2z b), <- (z2b_b2z b1), <- (z2b_b2z b2).
    destruct Hc as [Hc|Hc]; rewrite Hc.
    - replace (b2z b) with 226 by lia. replace (b2z b1) with 128 by lia. by replace (b2z b2) with 168 by lia.
    - replace (b2z b) with 226 by lia. replace (b2z b1) with 128 by lia. by replace (b2z b2) with 169 by lia. }
  assert (T4 : forall b1 b2 b3, lead4 b b1 && cont b2 && cont b3 = true ->
    c = Z.lor (Z.shiftl (Z.land (b2z b) 0x07) 18)
          (Z.lor (Z.shiftl (bits6 b1) 12) (Z.lor (Z.shiftl (bits6 b2) 6) (bits6 b3))) -> False).
  { intros b1 b2 b3 [[H1 H2]%andb_true_iff H3]%andb_true_iff E. apply lead4_eq in H1 as (H1 & H4 & H5).
    specialize (L4 H1). pose proof (bits6_eq b1). pose proof (bits6_eq b2). pose proof (bits6_eq b3).
    apply cont_eq in H4. rewrite (lor_shiftl (bits6 b2)) in E by (cbn; lia).
    rewrite (lor_shiftl (bits6 b1)) in E by (cbn; lia). rewrite lor_shiftl in E by (cbn; lia). lia. }
  clear Hc L2 L3 L4. unfold DecodeRune in HD.
  destruct (b2z b <? 0x80); [simplify_eq; lia|].
  destruct s as [|b1 s]; [simplify_eq; lia|].
  destruct (in_range 0xC2 0xDF b && cont b1) eqn:E2; [destruct (T2 b1 E2); congruence|].
  destruct s as [|b2 s]; [simplify_eq; lia|].
  destruct (lead3 b b1 && cont b2) eqn:E3.
  { simplify_eq. cbn [take]. by apply T3. }
  destruct s as [|b3 s]; [simplify_eq; lia|].
  destruct (lead4 b b1 && cont b2 && cont b3) eqn:E4; [destruct (T4 b1 b2 b3 E4); congruence|simplify_eq; lia].
Qed.

(** A plain ASCII string is valid. *)
Definition ascii (s : bytes) : bool := forallb (fun b => b2z b <? 0x80) s.

Lemma ascii_Valid s : ascii s = true -> Valid s = true.
Proof.
  unfold Valid. induction s as [|b s IH]; [done|]. cbn [ascii forallb length valid_loop].
  intros [Hb Hs]%andb_true_iff. unfold valid_rune.
  assert (HD : DecodeRune (b :: s) = (b2z b, 1%nat)) by (cbn [DecodeRune]; by rewrite Hb).
  rewrite HD. cbn [snd drop]. rewrite Hb, drop_0. by apply IH.
Qed.

(** * Decimal numbers *)

Definition digit (d : Z) : byte := z2b (48 + d).

Definition is_digit (b : byte) : bool := in_range 48 57 b.

Fixpoint digits (fuel : nat) (n : Z) (acc : bytes) : bytes :=
  match fuel with
  | O => acc
  | S fuel =>
      let acc := digit (n mod 10) :: acc in
      if n <? 10 then acc else digits fuel (n / 10) acc
  end.

(** [strconv.FormatUint] and [big.Int.String] in base 10. *)
Definition FormatUint (n : Z) : bytes := digits (S (Z.to_nat (Z.log2 n))) n [].

Definition FormatInt (n : Z) : bytes := if n <? 0 then x2d :: FormatUint (- n) else FormatUint n.

Definition dec_value (s : bytes) : Z := fold_left (fun v b => 10 * v + (b2z b - 48)) s 0.

(** [strconv.ParseUint] in base 10, for a given width. *)
Definition ParseUint (width : Z) (s : bytes) : option Z :=
  if bool_decide (s <> []) && forallb is_digit s && (dec_value s <? 2 ^ width)
  then Some (dec_value s) else None.

Definition split_sign (s : bytes) : bool * bytes :=
  match s with b :: s' => if Byte.eqb b x2d then (true, s') else (false, s) | [] => (false, s) end.

(** [strconv.ParseInt] of a JSON number (which has no plus sign). *)
Definition ParseInt (width : Z) (s : bytes) : option Z :=
  let '(neg, ds) := split_sign s in
  if bool_decide (ds <> []) && forallb is_digit ds
     && (dec_value ds <? (if neg then 2 ^ (width - 1) + 1 else 2 ^ (width - 1)))
  then Some (if neg then - dec_value ds else dec_value ds) else None.

(** [big.Int.UnmarshalText] of a JSON number. *)
Definition ParseBig (s : bytes) : option Z :=
  let '(neg, ds) := split_sign s in
  if bool_decide (ds <> []) && forallb is_digit ds
  then Some (if neg then - dec_value ds else dec_value ds) else None.

Lemma digit_ok d : 0 <= d < 10 -> is_digit (digit d) = true /\ b2z (digit d) - 48 = d.
Proof.
  intros Hd. unfold is_digit, in_range, digit. rewrite b2z_z2b, Z.mod_small by lia.
  split; [|lia]. apply andb_true_iff. split; apply Z.leb_le; lia.
Qed.

Lemma digits_spec fuel n acc : 0 <= n -> n < 2 ^ Z.of_nat fuel ->
  forallb is_digit acc = true ->
  exists ds, digits fuel n acc = ds ++ acc /\ forallb is_digit ds = true
    /\ (forall v, fold_left (fun v b => 10 * v + (b2z b - 48)) ds v = v * 10 ^ Z.of_nat (length ds) + n)
    /\ (ds <> [] \/ fuel = O)
    /\ (forall b t, ds = b :: t -> b <> x30 \/ (n = 0 /\ t = [])).
Proof.
  revert n acc. induction fuel as [|fuel IH]; intros n acc Hn Hb Hacc.
  - assert (n = 0) as -> by (change (2 ^ Z.of_nat 0) with 1 in Hb; lia).
    exists []. cbn. split_and!; try done; [intros; lia|by right].
  - cbn [digits]. pose proof (Z.mod_pos_bound n 10 ltac:(lia)) as Hm.
    destruct (digit_ok (n mod 10) Hm) as [Hd1 Hd2].
    destruct (Z.ltb_spec n 10) as [Hlt|Hge].
    + rewrite Z.mod_small in * by lia. exists [digit n]. cbn [app forallb fold_left length].
      rewrite Hd1, Hd2. split_and!; try done; [intros; change (10 ^ Z.of_nat 1) with 10; lia|by left|].
      intros b t [= <- <-]. destruct (decide (n = 0)) as [->|Hn0]; [by right|left].
      intros E. apply (f_equal b2z) in E. change (b2z x30) with 48 in E. lia.
    + destruct (IH (n / 10) (digit (n mod 10) :: acc)) as (ds & E & Hall & Hv & Hne & Hhd).
      { apply Z.div_pos; lia. }
      { apply Z.div_lt_upper_bound; [lia|].
        replace (Z.of_nat (S fuel)) with (1 + Z.of_nat fuel) in Hb by lia.
        rewrite Z.pow_add_r in Hb by lia. lia. }
      { cbn [forallb]. by rewrite Hd1, Hacc. }
      exists (ds ++ [digit (n mod 10)]). split_and!.
      * rewrite E, <- app_assoc. done.
      * rewrite forallb_app, Hall. cbn [forallb]. by rewrite Hd1.
      * intros v. rewrite fold_left_app, Hv, length_app. cbn [fold_left length]. rewrite Hd2.
        rewrite Nat2Z.inj_add, Z.pow_add_r by lia. change (10 ^ Z.of_nat 1) with 10.
        pose proof (Z.div_mod n 10 ltac:(lia)). lia.
      * left. by destruct ds.
      * assert (Hq : 1 <= n / 10) by (apply Z.div_le_lower_bound; lia).
        intros b t Ebt. destruct ds as [|b' t']; cbn [app] in Ebt; simplify_eq.
        -- specialize (Hv 0). cbn in Hv. lia.
        -- left. destruct (Hhd _ _ eq_refl) as [Hb0|[Hz _]]; [done|lia].
Qed.

(** A number prints as digits without superfluous zeros and with its value. *)
Lemma FormatUint_spec n : 0 <= n ->
  FormatUint n <> [] /\ forallb is_digit (FormatUint n) = true /\ dec_value (FormatUint n) = n
  /\ (forall b t, FormatUint n = b :: t -> b <> x30 \/ t = []).
Proof.
  intros Hn. unfold FormatUint, dec_value.
  destruct (digits_spec (S (Z.to_nat (Z.log2 n))) n []) as (ds & E & Hall & Hv & Hne & Hhd); [done| |done|].
  { pose proof (Z.log2_nonneg n). replace (Z.of_nat (S (Z.to_nat (Z.log2 n)))) with (Z.succ (Z.log2 n)) by lia.
    destruct (decide (n = 0)) as [->|]; [done|]. apply Z.log2_spec. lia. }
  rewrite E, app_nil_r. split_and!; [by destruct Hne|done|rewrite Hv; lia|].
  intros b t Ebt. destruct (Hhd b t Ebt) as [?|[_ ?]]; auto.
Qed.

Lemma FormatUint_inj n m : 0 <= n -> 0 <= m -> FormatUint n = FormatUint m -> n = m.
Proof.
  intros Hn Hm E. destruct (FormatUint_spec n Hn) as (_ & _ & <- & _). destruct (FormatUint_spec m Hm) as (_ & _ & <- & _).
  by rewrite E.
Qed.

Lemma ParseUint_Format w n : 0 <= n < 2 ^ w -> ParseUint w (FormatUint n) = Some n.
Proof.
  intros Hn. destruct (FormatUint_spec n) as (Hne & Hd & Hv & _); [lia|].
  unfold ParseUint. rewrite Hd, Hv, bool_decide_true by done. cbn [andb].
  by rewrite (proj2 (Z.ltb_lt _ _)) by lia.
Qed.

Lemma digit_not_minus b s : forallb is_digit (b :: s) = true -> Byte.eqb b x2d = false.
Proof. cbn [forallb]. intros [Hb _]%andb_true_iff. by destruct b. Qed.

Lemma split_sign_Format n :
  split_sign (FormatInt n) = (n <? 0, FormatUint (Z.abs n)).
Proof.
  unfold FormatInt. destruct (Z.ltb_spec n 0) as [H|H].
  - cbn [split_sign]. by rewrite Z.abs_neq by lia.
  - destruct (FormatUint_spec n H) as (Hne & Hd & _). rewrite Z.abs_eq by lia.
    destruct (FormatUint n) as [|b s]; [done|]. unfold split_sign. by rewrite (digit_not_minus _ _ Hd).
Qed.

Lemma ParseBig_Format n : ParseBig (FormatInt n) = Some n.
Proof.
  unfold ParseBig. rewrite split_sign_Format.
  destruct (FormatUint_spec (Z.abs n)) as (Hne & Hd & Hv & _); [lia|].
  rewrite Hd, Hv, bool_decide_true by done. cbn [andb]. f_equal. destruct (Z.ltb_spec n 0); lia.
Qed.

Lemma ParseInt_Format w n : - 2 ^ (w - 1) <= n < 2 ^ (w - 1) -> ParseInt w (FormatInt n) = Some n.
Proof.
  intros Hr. unfold ParseInt. rewrite split_sign_Format.
  destruct (FormatUint_spec (Z.abs n)) as (Hne & Hd & Hv & _); [lia|].
  rewrite Hd, Hv, bool_decide_true by done. cbn [andb].
  destruct (Z.ltb_spec n 0); cbv iota; (rewrite (proj2 (Z.ltb_lt _ _)) by lia); f_equal; lia.
Qed.

(** * Base64, the standard alphabet with padding *)

Definition b64_char (v : Z) : byte :=
  if v <? 26 then z2b (65 + v)
  else if v <? 52 then z2b (97 + (v - 26))
  else if v <? 62 then z2b (48 + (v - 52))
  else if v =? 62 then x2b else x2f.

Definition b64_value (b : byte) : option Z :=
  let z := b2z b in
  if in_range 65 90 b then Some (z - 65)
  else if in_range 97 122 b then Some (z - 97 + 26)
  else if in_range 48 57 b then Some (z - 48 + 52)
  else if Byte.eqb b x2b then Some 62
  else if Byte.eqb b x2f then Some 63
  else None.

Definition pad : byte := x3d.

Fixpoint base64_Encode (s : bytes) : bytes :=
  match s with
  | [] => []
  | [a] => let v := b2z a * 2 ^ 16 in [b64_char (v / 2 ^ 18); b64_char (v / 2 ^ 12 mod 64); pad; pad]
  | [a; b] =>
      let v := b2z a * 2 ^ 16 + b2z b * 2 ^ 8 in
      [b64_char (v / 2 ^ 18); b64_char (v / 2 ^ 12 mod 64); b64_char (v / 2 ^ 6 mod 64); pad]
  | a :: b :: c :: s' =>
      let v := b2z a * 2 ^ 16 + b2z b * 2 ^ 8 + b2z c in
      b64_char (v / 2 ^ 18) :: b64_char (v / 2 ^ 12 mod 64)
        :: b64_char (v / 2 ^ 6 mod 64) :: b64_char (v mod 64) :: base64_Encode s'
  end.

(** The quanta of four characters; padding only in the last one. *)
Fixpoint quanta (s : bytes) : option bytes :=
  match s with
  | [] => Some []
  | a :: b :: c :: d :: s' =>
      match b64_value a, b64_value b with
      | Some va, Some vb =>
          let hi := va * 2 ^ 18 + vb * 2 ^ 12 in
          match b64_value c, b64_value d with
          | Some vc, Some vd =>
              let v := hi + vc * 2 ^ 6 + vd in
              t ← quanta s'; Some (z2b (v / 2 ^ 16) :: z2b (v / 2 ^ 8) :: z2b v :: t)
          | Some vc, None =>
              let v := hi + vc * 2 ^ 6 in
              if bool_decide (d = pad /\ s' = []) then Some [z2b (v / 2 ^ 16); z2b (v / 2 ^ 8)] else None
          | None, _ =>
              if bool_decide (c = pad /\ d = pad /\ s' = []) then Some [z2b (hi / 2 ^ 16)] else None
          end
      | _, _ => None
      end
  | _ => None
  end.

(** The decoder skips line breaks wherever they are. *)
Definition base64_Decode (s : bytes) : option bytes :=
  quanta (filter (fun b => b <> x0a /\ b <> x0d) s).

Lemma b64_char_ok v : 0 <= v < 64 ->
  b64_value (b64_char v) = Some v /\ b64_char v <> x0a /\ b64_char v <> x0d /\ b2z (b64_char v) < 0x80.
Proof.
  intros Hv. assert (Hin : v ∈ seqZ 0 64) by (apply elem_of_seqZ; lia).
  assert (Hall : forallb (fun v => bool_decide (b64_value (b64_char v) = Some v /\ b64_char v <> x0a
    /\ b64_char v <> x0d /\ b2z (b64_char v) < 0x80)) (seqZ 0 64) = true) by (vm_compute; reflexivity).
  rewrite forallb_forall in Hall. apply (bool_decide_eq_true_1 _). apply Hall. by apply list_elem_of_In.
Qed.

(** Three steps at a time. *)
Lemma bytes_ind3 (P : bytes -> Prop) :
  P [] -> (forall a, P [a]) -> (forall a b, P [a; b]) ->
  (forall a b c s, P s -> P (a :: b :: c :: s)) -> forall s, P s.
Proof.
  intros H0 H1 H2 H3. fix IH 1. intros [|a [|b [|c s]]]; [done..|]. apply H3, IH.
Qed.

Lemma z2b_eq b v : v mod 256 = b2z b -> z2b v = b.
Proof. intros H. apply (inj b2z). by rewrite b2z_z2b. Qed.

Lemma base64_Encode_chars s : Forall (fun b => b <> x0a /\ b <> x0d) (base64_Encode s)
  /\ ascii (base64_Encode s) = true.
Proof.
  induction s as [| a | a b | a b c s IH] using bytes_ind3; cbn [base64_Encode]; [done|..];
    pose proof (b2z_range a); try pose proof (b2z_range b); try pose proof (b2z_range c).
  all: repeat match goal with |- context [b64_char ?v] =>
      let H := fresh in let x := fresh "x" in
      assert (H : 0 <= v < 64) by (Z.div_mod_to_equations; lia);
      pose proof (b64_char_ok v H) as (_ & ? & ? & ?%Z.ltb_lt); generalize dependent (b64_char v); intros x ? ? ?;
      clear H end.
  all: unfold ascii in *; cbn [forallb]; split; [repeat constructor; try done; apply IH|].
  all: repeat match goal with H : (_ <? _) = true |- _ => rewrite H; clear H end; try done.
  apply IH.
Qed.

Lemma quanta_Encode s : quanta (base64_Encode s) = Some s.
Proof.
  induction s as [| a | a b | a b c s IH] using bytes_ind3; cbn [base64_Encode quanta]; [done|..];
    pose proof (b2z_range a); try pose proof (b2z_range b); try pose proof (b2z_range c).
  all: repeat match goal with |- context [b64_value (b64_char ?v)] =>
      rewrite (proj1 (b64_char_ok v ltac:(Z.div_mod_to_equations; lia))) end.
  - cbn -[z2b Z.div Z.modulo Z.mul Z.add]. do 2 f_equal. apply z2b_eq. Z.div_mod_to_equations; lia.
  - change (b64_value pad) with (@None Z). cbn -[z2b Z.div Z.modulo Z.mul Z.add Z.pow].
    f_equal. f_equal; [|f_equal]; apply z2b_eq; Z.div_mod_to_equations; lia.
  - rewrite IH. cbn -[z2b Z.div Z.modulo Z.mul Z.add Z.pow].
    f_equal. f_equal; [|f_equal; [|f_equal]]; apply z2b_eq; Z.div_mod_to_equations; lia.
Qed.

(** Base64 decodes what it encodes. *)
Lemma base64_roundtrip s : base64_Decode (base64_Encode s) = Some s.
Proof.
  unfold base64_Decode. rewrite <- (quanta_Encode s). f_equal.
  destruct (base64_Encode_chars s) as [H _]. induction H as [|b t Hb Ht IH]; [done|].
  rewrite filter_cons_True by done. by f_equal.
Qed.
End Text.
