(* ===== verification/Json.v ===== *)
(** Go's [encoding/json], as far as the program uses it: the text of JSON
    values with its parser, and the codecs of the Go types that are stored or
    sent as JSON.  The main fact is the round trip: parsing what was printed
    gives the value back, and each codec decodes what it encodes. *)
From Stdlib Require Import ZArith Lia Strings.Byte.
From stdpp Require Import base gmap list strings sorting.
From S2P Require Import Prelude Text.
#[local] Open Scope Z_scope.
#[local] Set Warnings "-register-all".

(** * JSON values and their text *)
Module Json.
Import Text.

(** A parsed value; numbers keep their literal, as the decoder reads it only
    when it knows the target type. *)
Inductive json :=
| JNull
| JBool (b : bool)
| JNum (lit : bytes)
| JStr (s : bytes)
| JArr (l : list json)
| JObj (l : list (bytes * json)).

Definition hex_digit (v : Z) : byte := if v <? 10 then z2b (48 + v) else z2b (97 + (v - 10)).

(** [htmlSafeSet]: printable and none of the quote, the backslash and the
    three characters that are special in HTML. *)
Definition html_safe (b : byte) : bool :=
  in_range 0x20 0x7F b
  && negb (Byte.eqb b x22 || Byte.eqb b x5c || Byte.eqb b x3c || Byte.eqb b x3e || Byte.eqb b x26).

Definition escape_ascii (b : byte) : bytes :=
  if html_safe b then [b]
  else if Byte.eqb b x22 || Byte.eqb b x5c then [x5c; b]
  else if Byte.eqb b x0a then [x5c; x6e]
  else if Byte.eqb b x0d then [x5c; x72]
  else if Byte.eqb b x09 then [x5c; x74]
  else str "\u00" ++ [hex_digit (b2z b / 16); hex_digit (b2z b mod 16)].

Fixpoint escape (fuel : nat) (s : bytes) : bytes :=
  match fuel with
  | O => []
  | S fuel =>
      match s with
      | [] => []
      | b :: s' =>
          if b2z b <? 0x80 then escape_ascii b ++ escape fuel s'
          else
            let '(c, size) := DecodeRune s in
            (if (c =? RuneError) && (size =? 1)%nat then str "\ufffd"
             else if (c =? 0x2028) || (c =? 0x2029) then str "\u202" ++ [hex_digit (Z.land c 0xF)]
             else take size s) ++ escape fuel (drop size s)
      end
  end.

Definition quote (s : bytes) : bytes := x22 :: escape (length s) s ++ [x22].

(** The compact text [json.Marshal] writes. *)
Fixpoint print (j : json) : bytes :=
  match j with
  | JNull => str "null"
  | JBool b => if b then str "true" else str "false"
  | JNum lit => lit
  | JStr s => quote s
  | JArr l =>
      let fix go l :=
        match l with
        | [] => []
        | x :: l' => print x ++ match l' with [] => [] | _ => x2c :: go l' end
        end in
      x5b :: go l ++ [x5d]
  | JObj l =>
      let fix go l :=
        match l with
        | [] => []
        | (k, x) :: l' => quote k ++ x3a :: print x ++ match l' with [] => [] | _ => x2c :: go l' end
        end in
      x7b :: go l ++ [x7d]
  end.

(** ** The scanner and parser *)

Definition is_ws (b : byte) : bool :=
  Byte.eqb b x20 || Byte.eqb b x09 || Byte.eqb b x0a || Byte.eqb b x0d.

Fixpoint skip_ws (s : bytes) : bytes :=
  match s with b :: s' => if is_ws b then skip_ws s' else s | [] => [] end.

Definition simple_escape (b : byte) : option byte :=
  if Byte.eqb b x22 || Byte.eqb b x5c || Byte.eqb b x2f then Some b
  else if Byte.eqb b x62 then Some x08
  else if Byte.eqb b x66 then Some x0c
  else if Byte.eqb b x6e then Some x0a
  else if Byte.eqb b x72 then Some x0d
  else if Byte.eqb b x74 then Some x09
  else None.

Definition hex_value (b : byte) : option Z :=
  if in_range 48 57 b then Some (b2z b - 48)
  else if in_range 97 102 b then Some (b2z b - 97 + 10)
  else if in_range 65 70 b then Some (b2z b - 65 + 10)
  else None.

Definition getu4 (s : bytes) : option (Z * bytes) :=
  match s with
  | a :: b :: c :: d :: s' =>
      va ← hex_value a; vb ← hex_value b; vc ← hex_value c; vd ← hex_value d;
      Some (((va * 16 + vb) * 16 + vc) * 16 + vd, s')
  | _ => None
  end.

(** [utf16.DecodeRune] on a surrogate pair. *)
Definition surrogates (r1 r2 : Z) : option Z :=
  if (0xD800 <=? r1) && (r1 <? 0xDC00) && (0xDC00 <=? r2) && (r2 <? 0xE000)
  then Some (Z.lor (Z.shiftl (r1 - 0xD800) 10) (r2 - 0xDC00) + 0x10000) else None.

Definition second_u4 (s : bytes) : option (Z * bytes) :=
  match s with
  | a :: b :: s' => if Byte.eqb a x5c && Byte.eqb b x75 then getu4 s' else None
  | _ => None
  end.

Definition push (p : bytes) (r : option (bytes * bytes)) : option (bytes * bytes) :=
  '(t, rest) ← r; Some (p ++ t, rest).

(** The contents of a string after its opening quote, and what follows it. *)
Fixpoint unquote (fuel : nat) (s : bytes) : option (bytes * bytes) :=
  match fuel with
  | O => None
  | S fuel =>
      match s with
      | [] => None
      | b :: s' =>
          if Byte.eqb b x22 then Some ([], s')
          else if Byte.eqb b x5c then
            match s' with
            | [] => None
            | e :: s2 =>
                match simple_escape e with
                | Some c => push [c] (unquote fuel s2)
                | None =>
                    if negb (Byte.eqb e x75) then None
                    else
                      '(rr, s3) ← getu4 s2;
                      if (0xD800 <=? rr) && (rr <? 0xE000) then
                        match second_u4 s3 with
                        | Some (rr1, s4) =>
                            match surrogates rr rr1 with
                            | Some r => push (EncodeRune r) (unquote fuel s4)
                            | None => push (EncodeRune RuneError) (unquote fuel s3)
                            end
                        | None => push (EncodeRune RuneError) (unquote fuel s3)
                        end
                      else push (EncodeRune rr) (unquote fuel s3)
                end
            end
          else if b2z b <? 0x20 then None
          else if b2z b <? 0x80 then push [b] (unquote fuel s')
          else
            let '(c, size) := DecodeRune s in
            push (if (c =? RuneError) && (size =? 1)%nat then EncodeRune RuneError else take size s)
              (unquote fuel (drop size s))
      end
  end.

Fixpoint span_digits (s : bytes) : bytes * bytes :=
  match s with
  | b :: s' => if is_digit b then let '(d, r) := span_digits s' in (b :: d, r) else ([], s)
  | [] => ([], [])
  end.

(** The integer part: a zero is not followed by digits. *)
Definition int_part (s : bytes) : option (bytes * bytes) :=
  match s with
  | b :: s' =>
      if Byte.eqb b x30 then Some ([x30], s')
      else match span_digits s with ([], _) => None | (d, r) => Some (d, r) end
  | [] => None
  end.

Definition frac_part (s : bytes) : option (bytes * bytes) :=
  match s with
  | b :: s' =>
      if Byte.eqb b x2e
      then match span_digits s' with ([], _) => None | (d, r) => Some (b :: d, r) end
      else Some ([], s)
  | [] => Some ([], s)
  end.

Definition exp_part (s : bytes) : option (bytes * bytes) :=
  match s with
  | b :: s' =>
      if Byte.eqb b x65 || Byte.eqb b x45 then
        let '(sign, s2) := match s' with
                           | c :: s2 => if Byte.eqb c x2b || Byte.eqb c x2d then ([c], s2) else ([], s')
                           | [] => ([], s')
                           end in
        match span_digits s2 with ([], _) => None | (d, r) => Some (b :: sign ++ d, r) end
      else Some ([], s)
  | [] => Some ([], s)
  end.

Definition parse_num (s : bytes) : option (bytes * bytes) :=
  let '(neg, s1) := split_sign s in
  '(i, s2) ← int_part s1; '(f, s3) ← frac_part s2; '(e, s4) ← exp_part s3;
  Some ((if neg then [x2d] else []) ++ i ++ f ++ e, s4).

(** A literal, and what follows it. *)
Definition expect (lit : bytes) (j : json) (s : bytes) : option (json * bytes) :=
  if bool_decide (take (length lit) s = lit) then Some (j, drop (length lit) s) else None.

Definition maxNestingDepth : Z := 10000.

Fixpoint parse_value (fuel : nat) (depth : Z) (s : bytes) : option (json * bytes) :=
  match fuel with
  | O => None
  | S fuel =>
      match skip_ws s with
      | [] => None
      | b :: s' =>
          if Byte.eqb b x7b then
            if depth + 1 >? maxNestingDepth then None
            else
              match skip_ws s' with
              | c :: r =>
                  if Byte.eqb c x7d then Some (JObj [], r)
                  else '(l, r) ← parse_members fuel (depth + 1) s'; Some (JObj l, r)
              | [] => None
              end
          else if Byte.eqb b x5b then
            if depth + 1 >? maxNestingDepth then None
            else
              match skip_ws s' with
              | c :: r =>
                  if Byte.eqb c x5d then Some (JArr [], r)
                  else '(l, r) ← parse_elems fuel (depth + 1) s'; Some (JArr l, r)
              | [] => None
              end
          else if Byte.eqb b x22 then '(t, r) ← unquote fuel s'; Some (JStr t, r)
          else if Byte.eqb b x6e then expect (str "null") JNull (b :: s')
          else if Byte.eqb b x74 then expect (str "true") (JBool true) (b :: s')
          else if Byte.eqb b x66 then expect (str "false") (JBool false) (b :: s')
          else '(lit, r) ← parse_num (b :: s'); Some (JNum lit, r)
      end
  end
with parse_elems (fuel : nat) (depth : Z) (s : bytes) : option (list json * bytes) :=
  match fuel with
  | O => None
  | S fuel =>
      '(x, r) ← parse_value fuel depth s;
      match skip_ws r with
      | c :: r' =>
          if Byte.eqb c x2c then '(l, r2) ← parse_elems fuel depth r'; Some (x :: l, r2)
          else if Byte.eqb c x5d then Some ([x], r') else None
      | [] => None
      end
  end
with parse_members (fuel : nat) (depth : Z) (s : bytes) : option (list (bytes * json) * bytes) :=
  match fuel with
  | O => None
  | S fuel =>
      match skip_ws s with
      | q :: s' =>
          if negb (Byte.eqb q x22) then None
          else
            '(k, r) ← unquote fuel s';
            match skip_ws r with
            | c :: r1 =>
                if negb (Byte.eqb c x3a) then None
                else
                  '(x, r2) ← parse_value fuel depth r1;
                  match skip_ws r2 with
                  | c :: r3 =>
                      if Byte.eqb c x2c then '(l, r4) ← parse_members fuel depth r3; Some ((k, x) :: l, r4)
                      else if Byte.eqb c x7d then Some ([(k, x)], r3) else None
                  | [] => None
                  end
            | [] => None
            end
      | [] => None
      end
  end.

(** The value a whole text denotes; only white space may follow it. *)
Definition parse (s : bytes) : option json :=
  '(j, r) ← parse_value (S (length s)) 0 s;
  match skip_ws r with [] => Some j | _ => None end.

(** ** The round trip *)

Section json_induction.
Context (P : json -> Prop) (Hnull : P JNull) (Hbool : forall b, P (JBool b)) (Hnum : forall l, P (JNum l))
  (Hstr : forall s, P (JStr s)) (Harr : forall l, Forall P l -> P (JArr l))
  (Hobj : forall l, Forall (fun kx => P kx.2) l -> P (JObj l)).

Fixpoint json_ind' (j : json) : P j :=
  match j with
  | JNull => Hnull
  | JBool b => Hbool b
  | JNum l => Hnum l
  | JStr s => Hstr s
  | JArr l =>
      Harr l ((fix go (l : list json) : Forall P l :=
                 match l with
                 | [] => List.Forall_nil P
                 | x :: l' => @List.Forall_cons _ P x l' (json_ind' x) (go l')
                 end) l)
  | JObj l =>
      Hobj l ((fix go (l : list (bytes * json)) : Forall (fun kx => P kx.2) l :=
                 match l with
                 | [] => List.Forall_nil _
                 | (k, x) :: l' => @List.Forall_cons _ (fun kx => P kx.2) (k, x) l' (json_ind' x) (go l')
                 end) l)
  end.
End json_induction.

(** The values [json.Marshal] produces: numbers in canonical form, strings of
    valid UTF-8. *)
Definition num_ok (lit : bytes) : Prop :=
  let '(_, ds) := split_sign lit in
  ds <> [] /\ forallb is_digit ds = true /\ forall b t, ds = b :: t -> b <> x30 \/ t = [].

Fixpoint well (j : json) : Prop :=
  match j with
  | JNull | JBool _ => True
  | JNum lit => num_ok lit
  | JStr s => Valid s = true
  | JArr l => (fix go l := match l with [] => True | x :: l' => well x /\ go l' end) l
  | JObj l => (fix go l := match l with [] => True | (k, x) :: l' => Valid k = true /\ well x /\ go l' end) l
  end.

Fixpoint height (j : json) : Z :=
  match j with
  | JArr l => 1 + (fix go l := match l with [] => 0 | x :: l' => Z.max (height x) (go l') end) l
  | JObj l => 1 + (fix go l := match l with [] => 0 | (_, x) :: l' => Z.max (height x) (go l') end) l
  | _ => 0
  end.

Lemma unquote_ascii fuel b t : b2z b < 0x80 ->
  unquote (S fuel) (escape_ascii b ++ t) = push [b] (unquote fuel t).
Proof. intros H. destruct b; try reflexivity; vm_compute in H; discriminate H. Qed.

Lemma escape_ascii_len b : (1 <= length (escape_ascii b))%nat.
Proof. unfold escape_ascii. repeat case_match; simpl; lia. Qed.

(** A valid multi-byte rune at the head of a string, as one step of the
    encoder and of the decoder. *)
Lemma rune_step b s : valid_rune (b :: s) = true -> (b2z b <? 0x80) = false ->
  exists c size, DecodeRune (b :: s) = (c, size) /\ (2 <= size)%nat
    /\ (forall t, DecodeRune (take size (b :: s) ++ t) = (c, size)).
Proof.
  intros Hv Hb. pose proof (DecodeRune_app (b :: s)) as Happ. unfold valid_rune in Hv.
  destruct (DecodeRune (b :: s)) as [c size] eqn:E. exists c, size. split; [done|]. split.
  - destruct size as [|[|size]]; [done|congruence|lia].
  - intros t. apply Happ. unfold valid_rune. by rewrite E.
Qed.

Lemma EncodeRune_error : EncodeRune RuneError = [xef; xbf; xbd].
Proof. reflexivity. Qed.

Lemma unquote_separator fuel c t : c = 0x2028 \/ c = 0x2029 ->
  unquote (S fuel) ((str "\u202" ++ [hex_digit (Z.land c 0xF)]) ++ t) = push (EncodeRune c) (unquote fuel t).
Proof. intros [-> | ->]; reflexivity. Qed.

Lemma high_not_ascii b : 0x80 <= b2z b -> Byte.eqb b x22 = false /\ Byte.eqb b x5c = false.
Proof. destruct b; vm_compute; intuition. Qed.

(** The decoder on the text of one rune. *)
Lemma unquote_rune fuel b s c size t : (b2z b <? 0x80) = false ->
  DecodeRune (b :: s) = (c, size) -> (2 <= size)%nat ->
  (forall t, DecodeRune (take size (b :: s) ++ t) = (c, size)) ->
  unquote (S fuel) ((if (c =? 0x2028) || (c =? 0x2029) then str "\u202" ++ [hex_digit (Z.land c 0xF)]
                     else take size (b :: s)) ++ t)
  = push (take size (b :: s)) (unquote fuel t).
Proof.
  intros Hb HD Hs Happ. destruct ((c =? 0x2028) || (c =? 0x2029)) eqn:Ec.
  - assert (Hc : c = 0x2028 \/ c = 0x2029) by lia.
    rewrite unquote_separator by done. by rewrite (separator_bytes b s c size HD Hs Hc).
  - specialize (Happ t). pose proof (DecodeRune_le (b :: s)) as Hle. rewrite HD in Hle. cbn [snd] in Hle.
    destruct size as [|size]; [lia|]. cbn [take app] in *. cbn [unquote].
    assert (Hge : 0x80 <= b2z b) by lia. change (b :: take size s) with (take (S size) (b :: s)) in *.
    rewrite !(proj2 (Z.ltb_ge _ _)) by lia.
    destruct (high_not_ascii b Hge) as (-> & ->).
    rewrite Happ. replace (S size =? 1)%nat with false by (symmetry; apply Nat.eqb_neq; lia).
    rewrite andb_false_r. cbn [take drop]. simpl in Hle.
    f_equal; [f_equal; rewrite take_app_le by (rewrite length_take; lia); rewrite take_take; f_equal; lia|].
    f_equal. rewrite drop_app_ge by (rewrite length_take; lia). rewrite length_take.
    by replace (size - size `min` length s)%nat with 0%nat by lia.
Qed.

Lemma push_Some p t rest : push p (Some (t, rest)) = Some (p ++ t, rest).
Proof. reflexivity. Qed.

(** A quoted string is read back, and reading stops at its closing quote. *)
Lemma unquote_escape n fuel s rest : valid_loop n s = true -> (length s <= n)%nat ->
  (length (escape n s) < fuel)%nat -> unquote fuel (escape n s ++ x22 :: rest) = Some (s, rest).
Proof.
  revert fuel s. induction n as [|n IH]; intros fuel s Hv Hn Hf.
  { destruct s; [|simpl in Hn; lia]. destruct fuel; [simpl in Hf; lia|]. done. }
  destruct fuel as [|fuel]; [lia|]. destruct s as [|b s]; [done|].
  cbn [valid_loop] in Hv. apply andb_true_iff in Hv as [Hr Hv].
  cbn [escape] in *. destruct (b2z b <? 0x80) eqn:Eb.
  - assert (HD : DecodeRune (b :: s) = (b2z b, 1%nat)) by (cbn [DecodeRune]; by rewrite Eb).
    rewrite HD in Hv. cbn [snd drop] in Hv. rewrite drop_0 in Hv. rewrite length_app in Hf.
    pose proof (escape_ascii_len b). simpl in Hn.
    rewrite <- app_assoc, unquote_ascii by lia. by rewrite IH by (done || lia).
  - destruct (rune_step b s Hr Eb) as (c & size & HD & Hs & Happ). rewrite HD in *. cbn [snd] in Hv.
    pose proof (DecodeRune_le (b :: s)) as Hle. rewrite HD in Hle. cbn [snd] in Hle. simpl in Hn.
    replace (size =? 1)%nat with false in * by (symmetry; apply Nat.eqb_neq; lia). rewrite andb_false_r in *.
    rewrite length_app in Hf. rewrite <- app_assoc, unquote_rune by done.
    rewrite IH; [by rewrite push_Some, take_drop|done|rewrite length_drop; simpl; lia|].
    destruct size as [|size]; [lia|]. cbn [drop] in *. destruct ((c =? 0x2028) || (c =? 0x2029)); simpl in Hf; lia.
Qed.

(** What can follow a value inside a text. *)
Definition closed (rest : bytes) : Prop :=
  match rest with [] => True | b :: _ => b = x2c \/ b = x5d \/ b = x7d end.

Lemma span_digits_app ds rest : forallb is_digit ds = true -> closed rest -> span_digits (ds ++ rest) = (ds, rest).
Proof.
  induction ds as [|d ds IH]; cbn [forallb app span_digits].
  - intros _ Hc. destruct rest as [|b rest]; [done|]. by destruct Hc as [-> | [-> | ->]].
  - intros [-> Hds]%andb_true_iff Hc. by rewrite IH.
Qed.

Lemma parse_num_app lit rest : num_ok lit -> closed rest -> parse_num (lit ++ rest) = Some (lit, rest).
Proof.
  unfold num_ok. intros Hn Hc.
  assert (Hi : forall ds, ds <> [] -> forallb is_digit ds = true ->
    (forall b t, ds = b :: t -> b <> x30 \/ t = []) -> int_part (ds ++ rest) = Some (ds, rest)).
  { intros [|d ds] Hne Hd Hz; [done|]. cbn [app int_part]. destruct (Byte.eqb d x30) eqn:E.
    - apply Byte.byte_dec_bl in E as ->. by destruct (Hz x30 ds eq_refl) as [?| ->].
    - change (d :: ds ++ rest) with ((d :: ds) ++ rest). by rewrite span_digits_app. }
  assert (Htail : frac_part rest = Some ([], rest) /\ exp_part rest = Some ([], rest)).
  { destruct rest as [|b rest]; [done|]. by destruct Hc as [-> | [-> | ->]]. }
  assert (Hs : split_sign (lit ++ rest) = ((split_sign lit).1, (split_sign lit).2 ++ rest)
    /\ lit = (if (split_sign lit).1 then [x2d] else []) ++ (split_sign lit).2).
  { destruct lit as [|b lit]; cbn [split_sign app] in *; [naive_solver|].
    destruct (Byte.eqb b x2d) eqn:E; [|done]. apply Byte.byte_dec_bl in E as ->. done. }
  destruct Hs as [Hs1 Hs2]. destruct (split_sign lit) as [neg ds]. cbn [fst snd] in *.
  destruct Hn as (Hne & Hd & Hz). unfold parse_num. rewrite Hs1, (Hi ds Hne Hd Hz). cbn [mbind option_bind].
  rewrite (proj1 Htail). cbn [mbind option_bind]. rewrite (proj2 Htail). cbn [mbind option_bind].
  rewrite !app_nil_r. by rewrite <- Hs2.
Qed.

Definition print_elems : list json -> bytes :=
  fix go l :=
    match l with
    | [] => []
    | x :: l' => print x ++ match l' with [] => [] | _ => x2c :: go l' end
    end.

Definition print_members : list (bytes * json) -> bytes :=
  fix go l :=
    match l with
    | [] => []
    | (k, x) :: l' => quote k ++ x3a :: print x ++ match l' with [] => [] | _ => x2c :: go l' end
    end.

Lemma print_JArr l : print (JArr l) = x5b :: print_elems l ++ [x5d].
Proof. reflexivity. Qed.

Lemma print_JObj l : print (JObj l) = x7b :: print_members l ++ [x7d].
Proof. reflexivity. Qed.

(** The first character of a value is no white space and closes nothing. *)
Lemma print_head j : well j -> exists b t, print j = b :: t /\ is_ws b = false
  /\ Byte.eqb b x5d = false.
Proof.
  destruct j as [|b|lit|s|l|l]; cbn [well print]; intros Hw; try (do 2 eexists; split_and!; reflexivity).
  - destruct b; do 2 eexists; split_and!; reflexivity.
  - unfold num_ok in Hw. destruct lit as [|b lit]; cbn [split_sign] in Hw; [naive_solver|].
    destruct (Byte.eqb b x2d) eqn:E.
    + apply Byte.byte_dec_bl in E as ->. do 2 eexists; split_and!; reflexivity.
    + destruct Hw as (_ & Hd & _). cbn [forallb] in Hd. apply andb_true_iff in Hd as [Hd _].
      exists b, lit. split; [done|]. by destruct b.
Qed.

Lemma skip_ws_id b t : is_ws b = false -> skip_ws (b :: t) = b :: t.
Proof. intros H. cbn [skip_ws]. by rewrite H. Qed.

(** Reading back one printed value, the statement the induction is on. *)
Definition reads (j : json) : Prop := forall fuel d rest,
  well j -> d + height j <= maxNestingDepth -> closed rest -> (length (print j) < fuel)%nat ->
  parse_value fuel d (print j ++ rest) = Some (j, rest).

Lemma reads_elems l : Forall reads l -> l <> [] -> forall fuel d rest,
  well (JArr l) -> d - 1 + height (JArr l) <= maxNestingDepth -> (length (print_elems l) + 1 < fuel)%nat ->
  parse_elems fuel d (print_elems l ++ x5d :: rest) = Some (l, rest).
Proof.
  induction 1 as [|x l Hx Hl IH]; intros Hne fuel d rest Hw Hh Hf; [done|].
  destruct fuel as [|fuel]; [lia|]. cbn [parse_elems]. cbn [well height] in Hw, Hh. destruct Hw as [Hwx Hwl].
  destruct (print_head x Hwx) as (b & t & Eb & _).
  assert (Hlen : (1 <= length (print x))%nat) by (rewrite Eb; simpl; lia).
  destruct l as [|y l].
  - change (print_elems [x]) with (print x ++ []) in *. rewrite app_nil_r in *.
    by rewrite (Hx fuel d (x5d :: rest)) by (first [done | lia | simpl; auto]).
  - change (print_elems (x :: y :: l)) with (print x ++ x2c :: print_elems (y :: l)) in *.
    rewrite length_app in Hf. cbn [length] in Hf. rewrite <- app_assoc. cbn [app].
    rewrite (Hx fuel d (x2c :: print_elems (y :: l) ++ x5d :: rest)) by (first [done | lia | simpl; auto]).
    cbn [mbind option_bind]. rewrite skip_ws_id by done. change (Byte.eqb x2c x2c) with true. cbv iota.
    rewrite IH; [done|done|done|cbn [height]; lia|lia].
Qed.

Lemma reads_members l : Forall (fun kx => reads kx.2) l -> l <> [] -> forall fuel d rest,
  well (JObj l) -> d - 1 + height (JObj l) <= maxNestingDepth -> (length (print_members l) + 1 < fuel)%nat ->
  parse_members fuel d (print_members l ++ x7d :: rest) = Some (l, rest).
Proof.
  induction 1 as [|[k x] l Hx Hl IH]; intros Hne fuel d rest Hw Hh Hf; [done|]. cbn [snd] in Hx.
  destruct fuel as [|fuel]; [lia|]. cbn [well height] in Hw, Hh. destruct Hw as (Hwk & Hwx & Hwl).
  set (more := match l with [] => [] | _ => x2c :: print_members l end).
  change (print_members ((k, x) :: l)) with (quote k ++ x3a :: print x ++ more) in *.
  unfold quote in *. cbn [app length] in *. rewrite !length_app in Hf. cbn [length] in Hf.
  rewrite length_app in Hf. cbn [parse_members]. rewrite skip_ws_id by done.
  change (negb (Byte.eqb x22 x22)) with false. cbv iota. rewrite <- !app_assoc. cbn [app].
  rewrite unquote_escape by (done || lia). cbn [mbind option_bind]. rewrite skip_ws_id by done.
  change (negb (Byte.eqb x3a x3a)) with false. cbv iota. rewrite <- app_assoc.
  destruct l as [|[k' y] l]; subst more.
  - cbn [app]. by rewrite (Hx fuel d (x7d :: rest)) by (first [done | lia | simpl; auto]).
  - cbn [app length] in *.
    rewrite (Hx fuel d (x2c :: print_members ((k', y) :: l) ++ x7d :: rest)) by (first [done | lia | simpl; auto]).
    cbn [mbind option_bind]. rewrite skip_ws_id by done. change (Byte.eqb x2c x2c) with true. cbv iota.
    rewrite IH; [done|done|done|cbn [height]; lia|lia].
Qed.

Lemma print_members_head l rest : l <> [] ->
  exists t, print_members l ++ rest = x22 :: t.
Proof. destruct l as [|[k x] l]; [done|]. intros _. cbn [print_members quote app]. eauto. Qed.

Lemma height_JArr l : 1 <= height (JArr l).
Proof. induction l as [|x l IH]; cbn [height] in *; lia. Qed.

Lemma height_JObj l : 1 <= height (JObj l).
Proof. induction l as [|[k x] l IH]; cbn [height] in *; lia. Qed.

Lemma reads_all j : reads j.
Proof.
  induction j as [| b | lit | s | l IH | l IH] using json_ind'; intros fuel d rest Hw Hh Hc Hf;
    (destruct fuel as [|fuel]; [lia|]).
  - reflexivity.
  - by destruct b.
  - cbn [print] in *. destruct (print_head (JNum lit) Hw) as (b & t & E & Hws & Hb). cbn [print] in E.
    pose proof (parse_num_app lit rest Hw Hc) as Hp. rewrite E in *. cbn [app] in *.
    cbn [parse_value]. rewrite skip_ws_id by done. cbn [well] in Hw. unfold num_ok in Hw. cbn [split_sign] in Hw.
    assert (Hnum : Byte.eqb b x2d = true \/ is_digit b = true).
    { destruct (Byte.eqb b x2d); [by left|right]. destruct Hw as (_ & Hd & _). cbn [forallb] in Hd.
      by apply andb_true_iff in Hd as [-> _]. }
    rewrite Hp. destruct Hnum as [Hn|Hn]; destruct b; try discriminate Hn; reflexivity.
  - cbn [print] in *. unfold quote in *. cbn [app parse_value]. rewrite skip_ws_id by done.
    cbn -[unquote app]. rewrite <- app_assoc. cbn [app]. simpl in Hf. rewrite length_app in Hf.
    rewrite (unquote_escape (length s) fuel s rest) by (done || simpl in *; lia). done.
  - rewrite print_JArr in *. cbn [app parse_value]. rewrite skip_ws_id by done.
    assert (Hd : (d + 1 >? maxNestingDepth) = false) by (pose proof (height_JArr l); lia).
    change (Byte.eqb x5b x7b) with false. change (Byte.eqb x5b x5b) with true. cbv iota. rewrite Hd.
    rewrite <- app_assoc. cbn [app]. destruct l as [|x l]; [done|].
    destruct (print_head x) as (b & t & Eb & Hws & Hb); [apply Hw|].
    pose proof (reads_elems (x :: l) IH ltac:(done) fuel (d + 1) rest Hw) as Hel.
    destruct (print_elems (x :: l) ++ x5d :: rest) as [|b' t'] eqn:E.
    { by cbn [print_elems] in E; rewrite Eb in E. }
    assert (b' = b) as -> by (cbn [print_elems] in E; rewrite Eb in E; by simplify_eq/=).
    rewrite skip_ws_id, Hb by done. simpl in Hf. rewrite length_app in Hf. simpl in Hf.
    rewrite Hel by (first [lia | simpl; lia]). done.
  - rewrite print_JObj in *. cbn [app parse_value]. rewrite skip_ws_id by done.
    assert (Hd : (d + 1 >? maxNestingDepth) = false) by (pose proof (height_JObj l); lia).
    change (Byte.eqb x7b x7b) with true. cbv iota. rewrite Hd.
    rewrite <- app_assoc. cbn [app]. destruct l as [|[k x] l]; [done|].
    pose proof (reads_members ((k, x) :: l) IH ltac:(done) fuel (d + 1) rest Hw) as Hel.
    destruct (print_members_head ((k, x) :: l) (x7d :: rest) ltac:(done)) as [t Et]. rewrite Et in *.
    rewrite skip_ws_id by done. change (Byte.eqb x22 x7d) with false. cbv iota.
    simpl length in Hf. rewrite length_app in Hf. simpl length in Hf.
    rewrite Hel by (first [lia | simpl length; lia]). done.
Qed.

(** Parsing what was printed gives the value back. *)
Theorem parse_print j : well j -> height j <= maxNestingDepth -> parse (print j) = Some j.
Proof.
  intros Hw Hh. unfold parse. rewrite <- (app_nil_r (print j)) at 2.
  rewrite (reads_all j (S (length (print j))) 0 [] Hw) by (simpl; auto; lia). done.
Qed.
End Json.
