(* ===== verification/JsonCodec.v ===== *)
(** Encoding and decoding Go values as JSON: strings, numbers, byte slices,
    slices, pointers, maps and structs, in the way [encoding/json] drives them
    by reflection.  A codec is lawful when it decodes what it encodes. *)
From Stdlib Require Import ZArith Lia Strings.Byte.
From stdpp Require Import base gmap list strings sorting.
From S2P Require Import Prelude Text Json.
#[local] Open Scope Z_scope.

Module JsonCodec.
Import Text Json.

(** A text that is no JSON; a value of the wrong type, which the decoder
    remembers and reports at the end; an error of a type's own
    [UnmarshalJSON], which ends the decoding. *)
Inductive json_error := ErrSyntax | ErrType | ErrUnmarshaler.

#[export] Instance json_error_eq_dec : EqDecision json_error.
Proof. solve_decision. Defined.

(** The decoder updates a target in place; the flag says that a type error
    has been remembered. *)
Abbreviation result A := (outcome json_error (A * bool)).

Record codec (A : Type) := mkCodec {
  zero : A;
  enc : A -> json;
  dec : json -> A -> result A;
}.
Arguments mkCodec {A} _ _ _.
Arguments zero {A} _.
Arguments enc {A} _ _.
Arguments dec {A} _ _ _.

Definition Marshal {A} (c : codec A) (a : A) : bytes := print (enc c a).

Definition Unmarshal {A} (c : codec A) (data : bytes) (old : A) : outcome json_error A :=
  match parse data with
  | None => Err ErrSyntax
  | Some j => '(a, bad) ← dec c j old; if bad : bool then Err ErrType else Ok a
  end.

(** A codec that decodes the values satisfying [ok] from their encoding; [h]
    bounds the nesting of the text. *)
Record lawful {A} (c : codec A) (ok : A -> Prop) (h : Z) : Prop := {
  law_well a : ok a -> well (enc c a);
  law_height a : ok a -> height (enc c a) <= h;
  law_dec a : ok a -> dec c (enc c a) (zero c) = Ok (a, false);
}.

(** The round trip every stored or sent value relies on. *)
Lemma Unmarshal_Marshal {A} (c : codec A) ok h a : lawful c ok h -> h <= maxNestingDepth -> ok a ->
  Unmarshal c (Marshal c a) (zero c) = Ok a.
Proof.
  intros [Hw Hh Hd] Hm Ha. unfold Unmarshal, Marshal.
  rewrite parse_print by (first [by apply Hw | by etrans; [apply Hh|]]). by rewrite Hd.
Qed.

(** ** Basic types *)

Definition j_string : codec bytes :=
  mkCodec [] JStr
    (fun j old => match j with JNull => Ok (old, false) | JStr s => Ok (s, false) | _ => Ok (old, true) end).

Definition j_uint (w : Z) : codec Z :=
  mkCodec 0 (fun n => JNum (FormatUint n))
    (fun j old => match j with
                  | JNull => Ok (old, false)
                  | JNum lit => match ParseUint w lit with Some n => Ok (n, false) | None => Ok (old, true) end
                  | _ => Ok (old, true)
                  end).

Definition j_int (w : Z) : codec Z :=
  mkCodec 0 (fun n => JNum (FormatInt n))
    (fun j old => match j with
                  | JNull => Ok (old, false)
                  | JNum lit => match ParseInt w lit with Some n => Ok (n, false) | None => Ok (old, true) end
                  | _ => Ok (old, true)
                  end).

Definition j_bool : codec bool :=
  mkCodec false JBool
    (fun j old => match j with JNull => Ok (old, false) | JBool b => Ok (b, false) | _ => Ok (old, true) end).

(** A [*big.Int], nil as [None]; it has its own [UnmarshalJSON]. *)
Definition j_big : codec (option Z) :=
  mkCodec None (fun z => match z with None => JNull | Some z => JNum (FormatInt z) end)
    (fun j _ => match j with
                | JNull => Ok (None, false)
                | JNum lit => match ParseBig lit with Some n => Ok (Some n, false) | None => Err ErrUnmarshaler end
                | _ => Err ErrUnmarshaler
                end).

(** ** Slices, byte slices, pointers and maps; nil is [None] *)

(** Decoding an array into a slice: elements that exist are updated. *)
Fixpoint dec_elems {A} (c : codec A) (l : list json) (old : list A) : outcome json_error (list A * bool) :=
  match l with
  | [] => Ok ([], false)
  | j :: l' =>
      '(a, bad) ← dec c j (default (zero c) (head old));
      '(t, bad') ← dec_elems c l' (tail old);
      Ok (a :: t, bad || bad')
  end.

Definition j_slice {A} (c : codec A) : codec (option (list A)) :=
  mkCodec None
    (fun s => match s with None => JNull | Some l => JArr (enc c <$> l) end)
    (fun j old => match j with
                  | JNull => Ok (None, false)
                  | JArr l => '(t, bad) ← dec_elems c l (default [] old); Ok (Some t, bad)
                  | _ => Ok (old, true)
                  end).

Definition b_uint8 : codec byte :=
  mkCodec x00 (fun b => JNum (FormatUint (b2z b)))
    (fun j old => '(z, bad) ← dec (j_uint 8) j (b2z old); Ok (z2b z, bad)).

(** A [[]byte] is written in base64; an array of numbers is read too. *)
Definition j_bytes : codec (option bytes) :=
  mkCodec None
    (fun s => match s with None => JNull | Some b => JStr (base64_Encode b) end)
    (fun j old => match j with
                  | JNull => Ok (None, false)
                  | JStr s => match base64_Decode s with Some b => Ok (Some b, false) | None => Ok (old, true) end
                  | JArr l => '(t, bad) ← dec_elems b_uint8 l (default [] old); Ok (Some t, bad)
                  | _ => Ok (old, true)
                  end).

Definition j_ptr {A} (c : codec A) : codec (option A) :=
  mkCodec None
    (fun p => match p with None => JNull | Some a => enc c a end)
    (fun j old => match j with
                  | JNull => Ok (None, false)
                  | _ => '(a, bad) ← dec c j (default (zero c) old); Ok (Some a, bad)
                  end).

(** A map with string keys: written in the order of the keys, read by adding
    to what is there. *)
Definition sorted_keys {A} (m : gmap bytes A) : list (bytes * A) :=
  merge_sort (fun a b => bytes_le a.1 b.1) (map_to_list m).

Fixpoint dec_entries {A} (c : codec A) (l : list (bytes * json)) (m : gmap bytes A) :
    outcome json_error (gmap bytes A * bool) :=
  match l with
  | [] => Ok (m, false)
  | (k, j) :: l' =>
      '(a, bad) ← dec c j (zero c);
      '(m, bad') ← dec_entries c l' (<[k:=a]> m);
      Ok (m, bad || bad')
  end.

Definition j_map {A} (c : codec A) : codec (option (gmap bytes A)) :=
  mkCodec None
    (fun m => match m with
              | None => JNull
              | Some m => JObj ((fun kv => (kv.1, enc c kv.2)) <$> sorted_keys m)
              end)
    (fun j old => match j with
                  | JNull => Ok (None, false)
                  | JObj l => '(m, bad) ← dec_entries c l (default ∅ old); Ok (Some m, bad)
                  | _ => Ok (old, true)
                  end).

(** ** Structs *)

Record jfield (M : Type) := mkJfield {
  jname : bytes;
  jget : M -> json;
  jput : json -> M -> result M;
}.
Arguments mkJfield {M} _ _ _.
Arguments jname {M} _.
Arguments jget {M} _ _.
Arguments jput {M} _ _ _.

Definition fld {M A} (name : string) (c : codec A) (get : M -> A) (set : A -> M -> M) : jfield M :=
  mkJfield (str name) (fun m => enc c (get m)) (fun j m => '(a, bad) ← dec c j (get m); Ok (set a m, bad)).

(** Field names match without regard to case, the Kelvin sign and the long s
    included. *)
Definition upper (b : byte) : byte := if in_range 97 122 b then z2b (b2z b - 32) else b.

Fixpoint fold_name (s : bytes) : bytes :=
  match s with
  | xc5 :: xbf :: s' => x53 :: fold_name s'
  | xe2 :: x84 :: xaa :: s' => x4b :: fold_name s'
  | b :: s' => upper b :: fold_name s'
  | [] => []
  end.

Definition find_field {M} (fs : list (jfield M)) (k : bytes) : option (jfield M) :=
  match List.find (fun f => bool_decide (jname f = k)) fs with
  | Some f => Some f
  | None => List.find (fun f => bool_decide (fold_name (jname f) = fold_name k)) fs
  end.

Fixpoint dec_fields {M} (fs : list (jfield M)) (l : list (bytes * json)) (m : M) : result M :=
  match l with
  | [] => Ok (m, false)
  | (k, j) :: l' =>
      '(m, bad) ← match find_field fs k with Some f => jput f j m | None => Ok (m, false) end;
      '(m, bad') ← dec_fields fs l' m;
      Ok (m, bad || bad')
  end.

Definition j_struct {M} (z : M) (fs : list (jfield M)) : codec M :=
  mkCodec z (fun m => JObj ((fun f => (jname f, jget f m)) <$> fs))
    (fun j m => match j with
                | JNull => Ok (m, false)
                | JObj l => dec_fields fs l m
                | _ => Ok (m, true)
                end).

(** ** The laws *)

Lemma num_ok_uint n : 0 <= n -> num_ok (FormatUint n).
Proof.
  intros Hn. destruct (FormatUint_spec n Hn) as (Hne & Hd & _ & Hz). unfold num_ok.
  destruct (FormatUint n) as [|b s]; [done|]. unfold split_sign. by rewrite (digit_not_minus b s Hd).
Qed.

Lemma num_ok_int n : num_ok (FormatInt n).
Proof.
  unfold num_ok. rewrite split_sign_Format. destruct (FormatUint_spec (Z.abs n)) as (Hne & Hd & _ & Hz); [lia|]. done.
Qed.

Definition utf8 (s : bytes) : Prop := Valid s = true.

Lemma string_lawful : lawful j_string utf8 0.
Proof. split; done. Qed.

Lemma uint_lawful w : lawful (j_uint w) (fun n => 0 <= n < 2 ^ w) 0.
Proof.
  split; [intros a Ha; cbn [j_uint enc well]; apply num_ok_uint; lia|done|].
  intros a Ha. cbn [j_uint dec enc]. by rewrite ParseUint_Format.
Qed.

Lemma int_lawful w : lawful (j_int w) (fun n => - 2 ^ (w - 1) <= n < 2 ^ (w - 1)) 0.
Proof.
  split; [intros a Ha; cbn [j_int enc well]; apply num_ok_int|done|].
  intros a Ha. cbn [j_int dec enc]. by rewrite ParseInt_Format.
Qed.

Lemma bool_lawful : lawful j_bool (fun _ => True) 0.
Proof. by split. Qed.

Lemma big_lawful : lawful j_big (fun _ => True) 0.
Proof.
  split; [intros [a|] _; cbn [j_big enc well]; [apply num_ok_int|done]|by intros []|].
  intros [a|] _; cbn [j_big dec enc]; [by rewrite ParseBig_Format|done].
Qed.

Lemma bytes_lawful : lawful j_bytes (fun _ => True) 0.
Proof.
  split; [|by intros []|].
  - intros [a|] _; cbn [j_bytes enc well]; [|done]. apply ascii_Valid, base64_Encode_chars.
  - intros [a|] _; cbn [j_bytes dec enc]; [by rewrite base64_roundtrip|done].
Qed.

Lemma well_JArr l : well (JArr l) <-> Forall well l.
Proof.
  induction l as [|x l IH]; [done|]. rewrite Forall_cons, <- IH. done.
Qed.

Lemma height_JArr_le l h : Forall (fun j => height j <= h) l -> height (JArr l) <= 1 + Z.max 0 h.
Proof. induction 1 as [|x l Hx Hl IH]; cbn [height] in *; lia. Qed.

Lemma well_JObj l : well (JObj l) <-> Forall (fun kx => utf8 kx.1 /\ well kx.2) l.
Proof.
  induction l as [|[k x] l IH]; [done|]. rewrite Forall_cons, <- IH. cbn [well fst snd]. unfold utf8. tauto.
Qed.

Lemma height_JObj_le l h : Forall (fun kx : bytes * json => height kx.2 <= h) l -> height (JObj l) <= 1 + Z.max 0 h.
Proof. induction 1 as [|[k x] l Hx Hl IH]; cbn [height snd] in *; lia. Qed.

Lemma dec_elems_enc {A} (c : codec A) ok h l : lawful c ok h -> Forall ok l ->
  dec_elems c (enc c <$> l) [] = Ok (l, false).
Proof.
  intros HL. induction 1 as [|a l Ha Hl IH]; [done|]. cbn [fmap list_fmap dec_elems head tail from_option].
  rewrite (law_dec c ok h HL a Ha). cbn. by rewrite IH.
Qed.

Definition all_of {A} (ok : A -> Prop) (s : option (list A)) : Prop := Forall ok (default [] s).

Lemma slice_lawful {A} (c : codec A) ok h : lawful c ok h -> lawful (j_slice c) (all_of ok) (1 + Z.max 0 h).
Proof.
  intros HL. split; intros [l|] Ha; cbn [j_slice enc dec zero]; try done; try (cbn [height]; lia).
  - apply well_JArr, Forall_fmap. eapply Forall_impl; [exact Ha|]. apply HL.
  - apply height_JArr_le, Forall_fmap. eapply Forall_impl; [exact Ha|]. apply HL.
  - cbn [from_option]. by rewrite (dec_elems_enc c ok h l HL Ha).
Qed.

Definition opt_ok {A} (ok : A -> Prop) (p : option A) : Prop := match p with Some a => ok a | None => True end.

Lemma ptr_lawful {A} (c : codec A) ok h : lawful c ok h -> 0 <= h -> (forall a, enc c a <> JNull) ->
  lawful (j_ptr c) (opt_ok ok) h.
Proof.
  intros HL Hh Hn. split; intros [a|] Ha; cbn [j_ptr enc dec zero]; try done.
  - by apply HL.
  - by apply HL.
  - specialize (Hn a). pose proof (law_dec c ok h HL a Ha) as Hd.
    destruct (enc c a); try done; cbn [from_option]; rewrite Hd; done.
Qed.

Lemma sorted_keys_perm {A} (m : gmap bytes A) : sorted_keys m ≡ₚ map_to_list m.
Proof. apply merge_sort_Permutation. Qed.

Lemma dec_entries_enc {A} (c : codec A) ok h (l : list (bytes * A)) m : lawful c ok h ->
  Forall (fun kv => ok kv.2) l ->
  dec_entries c ((fun kv => (kv.1, enc c kv.2)) <$> l) m = Ok (foldl (fun m kv => <[kv.1:=kv.2]> m) m l, false).
Proof.
  intros HL Hl. revert m. induction Hl as [|[k a] l Ha Hl IH]; intros m; [done|].
  cbn [fmap list_fmap dec_entries fst snd foldl]. rewrite (law_dec c ok h HL a Ha). cbn. by rewrite IH.
Qed.

Lemma foldl_insert_list {A} (l : list (bytes * A)) (m : gmap bytes A) : NoDup l.*1 ->
  foldl (fun m kv => <[kv.1:=kv.2]> m) m l = list_to_map l ∪ m.
Proof.
  revert m. induction l as [|[k a] l IH]; intros m Hnd; cbn [foldl fst snd fmap list_fmap] in *.
  - by rewrite list_to_map_nil, (left_id_L ∅ (∪)).
  - inversion Hnd as [|? ? Hk Hl]; subst. rewrite IH, list_to_map_cons by done.
    rewrite <- insert_union_l. rewrite insert_union_r; [done|]. by apply not_elem_of_list_to_map_1.
Qed.

Definition map_ok {A} (ok : A -> Prop) (m : option (gmap bytes A)) : Prop :=
  forall k a, default ∅ m !! k = Some a -> utf8 k /\ ok a.

Lemma map_lawful {A} (c : codec A) ok h : lawful c ok h -> lawful (j_map c) (map_ok ok) (1 + Z.max 0 h).
Proof.
  intros HL. assert (Hall : forall m, map_ok ok (Some m) -> Forall (fun kv => utf8 kv.1 /\ ok kv.2) (sorted_keys m)).
  { intros m Hm. rewrite sorted_keys_perm. apply Forall_forall. intros [k a] Hin.
    apply elem_of_map_to_list in Hin. by apply Hm. }
  split; intros [m|] Ha; cbn [j_map enc dec zero]; try done; try (cbn [height]; lia).
  - apply well_JObj, Forall_fmap. eapply Forall_impl; [by apply Hall|]. intros [k a] [Hk Hok].
    split; [done|]. by apply HL.
  - apply height_JObj_le, Forall_fmap. eapply Forall_impl; [by apply Hall|]. intros [k a] [Hk Hok]. by apply HL.
  - cbn [from_option]. rewrite (dec_entries_enc c ok h _ _ HL).
    2:{ eapply Forall_impl; [by apply Hall|]. naive_solver. }
    cbn. rewrite foldl_insert_list; [|rewrite sorted_keys_perm; apply NoDup_fst_map_to_list].
    rewrite map_union_empty, (list_to_map_proper (sorted_keys m) (map_to_list m));
      [by rewrite list_to_map_to_list| |apply sorted_keys_perm].
    rewrite sorted_keys_perm. apply NoDup_fst_map_to_list.
Qed.

(** Structs: decoding the members a struct was encoded to is putting its
    fields one by one. *)
Fixpoint put_all {M} (fs : list (jfield M)) (m old : M) : result M :=
  match fs with
  | [] => Ok (old, false)
  | f :: fs' =>
      '(m1, bad) ← jput f (jget f m) old;
      '(m2, bad') ← put_all fs' m m1;
      Ok (m2, bad || bad')
  end.

Lemma find_field_self {M} (fs : list (jfield M)) f : NoDup (jname <$> fs) -> f ∈ fs ->
  find_field fs (jname f) = Some f.
Proof.
  intros Hnd Hin. unfold find_field.
  assert (List.find (fun g => bool_decide (jname g = jname f)) fs = Some f) as ->; [|done].
  induction fs as [|g fs IH]; [by apply elem_of_nil in Hin|]. cbn [fmap list_fmap] in Hnd.
  inversion Hnd as [|? ? Hg Hfs]; subst. cbn [List.find].
  apply elem_of_cons in Hin as [-> | Hin]; [by rewrite bool_decide_true|].
  rewrite bool_decide_false; [by apply IH|]. intros E. apply Hg. rewrite E. by apply list_elem_of_fmap_2.
Qed.

Lemma dec_fields_enc {M} (fs fs' : list (jfield M)) m old : NoDup (jname <$> fs) -> fs' ⊆ fs ->
  dec_fields fs ((fun f => (jname f, jget f m)) <$> fs') old = put_all fs' m old.
Proof.
  intros Hnd. revert old. induction fs' as [|f fs' IH]; intros old Hsub; [done|].
  cbn [fmap list_fmap dec_fields put_all].
  rewrite find_field_self by (try done; apply Hsub; by left).
  destruct (jput f (jget f m) old) as [[m1 bad]| |]; try done. cbn.
  rewrite IH; [done|]. intros x Hx. apply Hsub. by right.
Qed.

Lemma struct_lawful {M} (z : M) fs ok h : NoDup (jname <$> fs) -> forallb (fun f => Valid (jname f)) fs = true ->
  (forall m, ok m -> Forall (fun f => well (jget f m) /\ height (jget f m) <= h) fs) ->
  (forall m, ok m -> put_all fs m z = Ok (m, false)) ->
  lawful (j_struct z fs) ok (1 + Z.max 0 h).
Proof.
  intros Hnd Hn Hf Hp. split; intros m Hm; cbn [j_struct enc dec zero].
  - apply well_JObj, Forall_fmap. specialize (Hf m Hm). rewrite Forall_forall in *. intros f Hin. cbn.
    rewrite forallb_forall in Hn. split; [by apply Hn, list_elem_of_In|by apply Hf].
  - apply height_JObj_le, Forall_fmap. specialize (Hf m Hm). rewrite Forall_forall in *. intros f Hin. by apply Hf.
  - rewrite dec_fields_enc by done. by apply Hp.
Qed.

Lemma fields_fld {M A} name (c : codec A) ok h h' (get : M -> A) (set : A -> M -> M) fs m :
  lawful c ok h' -> ok (get m) -> h' <= h ->
  Forall (fun f => well (jget f m) /\ height (jget f m) <= h) fs ->
  Forall (fun f => well (jget f m) /\ height (jget f m) <= h) (fld name c get set :: fs).
Proof.
  intros HL Hok Hh Hfs. constructor; [|done]. cbn. split; [by apply HL|].
  etrans; [by apply HL|done].
Qed.

Lemma put_all_fld {M A} name (c : codec A) ok h (get : M -> A) (set : A -> M -> M) fs m old m2 :
  lawful c ok h -> ok (get m) -> get old = zero c -> put_all fs m (set (get m) old) = Ok (m2, false) ->
  put_all (fld name c get set :: fs) m old = Ok (m2, false).
Proof.
  intros HL Hok Hz Hfs. cbn [put_all fld jput jget]. rewrite Hz, (law_dec c ok h HL _ Hok).
  cbn [mbind outcome_bind]. by rewrite Hfs.
Qed.

Create HintDb json discriminated.

#[export] Hint Constants Opaque : json.

#[export] Hint Resolve string_lawful uint_lawful int_lawful bool_lawful big_lawful bytes_lawful slice_lawful
  map_lawful : json.

(** The law of a struct codec; [ok] of each field is among the hypotheses. *)
Ltac solve_struct :=
  apply struct_lawful;
    [ apply (bool_decide_eq_true_1 _); vm_compute; reflexivity
    | vm_compute; reflexivity
    | let m := fresh "m" in let H := fresh "H" in intros m H; hnf in H; destruct_and? H;
      repeat (eapply fields_fld; [solve [eauto with json] | solve [cbv beta; first [eassumption | exact I | lia]] | lia |]);
      apply List.Forall_nil
    | let m := fresh "m" in let H := fresh "H" in intros m H; hnf in H; destruct_and? H;
      repeat (eapply put_all_fld; [solve [eauto with json] | solve [cbv beta; first [eassumption | exact I | lia]] | reflexivity |];
        match goal with |- put_all _ _ ?old = _ => let o := eval cbn in old in change old with o end);
      destruct m; reflexivity ].
End JsonCodec.
