(* ===== verification/StateBase.v ===== *)
(** What the state components (src/state) build on: the state store as an
    interface, with the laws its clients use (each named store is a finite map
    of its own), and the state and error monad their operations are written
    in.  The state store of ledger/state implements the interface. *)
From Stdlib Require Import ZArith Lia Strings.Byte.
From stdpp Require Import base gmap list strings sorting.
From S2P Require Import Prelude VersionManager Backend Prefixed StateStore StateStoreSpec Text Json JsonCodec.
#[local] Open Scope Z_scope.

(** The methods of [tplgss.StateStore] the state components call. *)
Class IStateStore (S : Type) := {
  ss_AddNamedStateStore : S -> bytes -> Z -> go (S * option StateStore.store_error);
  ss_Root : S -> bytes -> outcome StateStore.store_error bytes;
  ss_Put : S -> bytes -> bytes -> option bytes -> go (S * option StateStore.store_error);
  ss_Delete : S -> bytes -> bytes -> go (S * option StateStore.store_error);
  ss_Update : S -> bytes -> bytes -> option bytes -> go (S * option StateStore.store_error);
  ss_Exists : S -> bytes -> bytes -> outcome StateStore.store_error bool;
  ss_GetStateData : S -> bytes -> bytes -> outcome StateStore.store_error (option bytes);
  ss_GetState : S -> bytes -> bytes -> outcome StateStore.store_error (option bytes * option bytes);
  ss_GetAllStateData : S -> bytes -> outcome StateStore.store_error (list bytes * list bytes);
  ss_IterateAllStateDataCB : forall A, (A -> bytes -> bytes -> A) -> A -> S -> bytes -> outcome StateStore.store_error A;
}.
Arguments ss_IterateAllStateDataCB {S _ A} _ _ _ _.

(** The promise: an open store is a finite map for each of its names. *)
Class StateStoreLaws (S : Type) `{!IStateStore S} := {
  named : S -> gmap bytes kvmap -> Prop;
  root_value : kvmap -> bytes;
  law_Put s d n m k v : named s d -> d !! n = Some m -> k <> [] ->
    exists s', ss_Put s n k (Some v) = Ok (s', None) /\ named s' (<[n:=<[k:=v]> m]> d);
  law_Update s d n m k v : named s d -> d !! n = Some m -> k <> [] ->
    exists s', ss_Update s n k (Some v) = Ok (s', None) /\ named s' (<[n:=<[k:=v]> m]> d);
  law_Delete s d n m k : named s d -> d !! n = Some m -> k <> [] ->
    exists s', ss_Delete s n k = Ok (s', None) /\ named s' (<[n:=delete k m]> d);
  law_Exists s d n m k : named s d -> d !! n = Some m -> k <> [] ->
    ss_Exists s n k = Ok (bool_decide (is_Some (m !! k)));
  law_Get s d n m k : named s d -> d !! n = Some m -> k <> [] ->
    ss_GetStateData s n k = Ok (m !! k);
  law_GetState s d n m k : named s d -> d !! n = Some m -> k <> [] ->
    exists p, ss_GetState s n k = Ok (m !! k, p);
  law_GetAll s d n m : named s d -> d !! n = Some m ->
    ss_GetAllStateData s n = Ok ((sorted_items m).*1, (sorted_items m).*2);
  law_Iterate {A} (cb : A -> bytes -> bytes -> A) a s d n m : named s d -> d !! n = Some m ->
    ss_IterateAllStateDataCB cb a s n = Ok (fold_left (fun a kv => cb a kv.1 kv.2) (sorted_items m) a);
  law_Root s d n m : named s d -> d !! n = Some m -> ss_Root s n = Ok (root_value m);
}.

(** * The state store of ledger/state implements the interface *)
Section Implementation.
Import StateStore StateStoreSpec.
Context {S I : Type} `{DBReadWriterLaws S I, !SMT S, !SMTLaws S, !DBBackend S}.

Definition flat {A} (r : outcome db_error A + store_error) : outcome store_error A :=
  match r with inl o => lift_db o | inr e => Err e end.

#[export] Instance state_store_iface : IStateStore (stateStore S) := {
  ss_AddNamedStateStore m name cacheSize :=
    match AddNamedStateStore m name cacheSize with
    | Ok m' => Ok (m', None)
    | Err e => Ok (m, Some (EDb e))
    | Panic => Panic
    end;
  ss_Root m name := match Root m name with inl r => Ok r | inr e => Err e end;
  ss_Put := Put;
  ss_Delete := Delete;
  ss_Update := Update;
  ss_Exists m name key := flat (Exists m name key);
  ss_GetStateData m name key := flat (GetStateData m name key);
  ss_GetState m name key :=
    match GetState m name key with
    | inl (Ok (v, p, None)) => Ok (v, p)
    | inl (Ok (_, _, Some e)) => Err e
    | inl (Err e) => match e with end
    | inl Panic => Panic
    | inr e => Err e
    end;
  ss_GetAllStateData m name := flat (GetAllStateData m name);
  ss_IterateAllStateDataCB A cb a m name := flat (IterateAllStateDataCB cb a m name);
}.

(** The named stores of an open state store, as finite maps. *)
Definition store_named (m : stateStore S) (d : gmap bytes kvmap) : Prop :=
  exists bm bd, store_inv m bm bd /\ dom d = dom (storeMap m)
    /\ forall n x, d !! n = Some x -> data_of n bm = x.

Lemma store_named_write (m : stateStore S) (bm bd : kvmap) (d : gmap bytes kvmap) (n : bytes) (x y : kvmap) (m' : stateStore S) (bm' : kvmap) :
  store_inv m bm bd -> dom d = dom (storeMap m) -> (forall n x, d !! n = Some x -> data_of n bm = x) ->
  d !! n = Some x -> store_inv m' bm' bd -> dom (storeMap m') = dom (storeMap m) ->
  data_of n bm' = y -> others_same n bm bm' -> store_named m' (<[n:=y]> d).
Proof.
  intros Hi Hdom Hd Hn Hi' Hdom' Hy Hsame. exists bm', bd. split_and!; [done| |].
  - rewrite Hdom', <- Hdom, dom_insert_L. apply elem_of_dom_2 in Hn. set_solver.
  - intros k z [[<- <-]|[Hne Hz]]%lookup_insert_Some; [done|].
    rewrite <- (Hd k z Hz). apply Hsame; auto with parts.
    assert (Hk : k ∈ dom (storeMap m)) by (rewrite <- Hdom; by eapply elem_of_dom_2).
    apply elem_of_dom in Hk as [c Hc]. by destruct (si_comp m bm bd Hi k c Hc) as [<- []].
Qed.

Lemma named_lookup (m : stateStore S) (bm bd : kvmap) (d : gmap bytes kvmap) (n : bytes) (x : kvmap) : store_inv m bm bd -> dom d = dom (storeMap m) ->
  (forall n x, d !! n = Some x -> data_of n bm = x) -> d !! n = Some x ->
  exists c, storeMap m !! n = Some c /\ comp_inv c (ss_state m) bm bd /\ c_name c = n /\ data_of n bm = x.
Proof.
  intros Hi Hdom Hd Hn. assert (Hin : n ∈ dom (storeMap m)) by (rewrite <- Hdom; by eapply elem_of_dom_2).
  apply elem_of_dom in Hin as [c Hc]. exists c. destruct (si_comp m bm bd Hi n c Hc) as [Hcn Hci].
  split_and!; auto.
Qed.

#[export] Instance state_store_laws : StateStoreLaws (stateStore S).
Proof.
  refine {| named := store_named; root_value m := smt_root (tree_data m) |}.
  - intros s d n m k v (bm & bd & Hi & Hdom & Hd) Hn Hk.
    destruct (named_lookup s bm bd d n m Hi Hdom Hd Hn) as (c & Hc & _ & _ & <-).
    destruct (Put_spec s bm bd n c k v Hi Hc Hk) as (s' & bm' & Hp & Hi' & Hdom' & Hd' & Hs & _).
    exists s'. split; [done|]. exact (store_named_write s bm bd d n (data_of n bm) _ s' bm' Hi Hdom Hd Hn Hi' Hdom' Hd' Hs).
  - intros s d n m k v (bm & bd & Hi & Hdom & Hd) Hn Hk.
    destruct (named_lookup s bm bd d n m Hi Hdom Hd Hn) as (c & Hc & Hci & _ & <-).
    destruct (Put_spec s bm bd n c k v Hi Hc Hk) as (s' & bm' & Hp & Hi' & Hdom' & Hd' & Hs & _).
    exists s'. split; [|exact (store_named_write s bm bd d n (data_of n bm) _ s' bm' Hi Hdom Hd Hn Hi' Hdom' Hd' Hs)]. rewrite <- Hp. cbn [ss_Update state_store_iface].
    unfold Update, Put, write_store. destruct (ss_readonly s); [done|]. rewrite Hc. unfold comp_Update.
    by rewrite (ci_rw _ _ _ _ Hci).
  - intros s d n m k (bm & bd & Hi & Hdom & Hd) Hn Hk.
    destruct (named_lookup s bm bd d n m Hi Hdom Hd Hn) as (c & Hc & _ & _ & <-).
    destruct (Delete_spec s bm bd n c k Hi Hc Hk) as (s' & bm' & Hp & Hi' & Hdom' & Hd' & Hs & _).
    exists s'. split; [done|]. exact (store_named_write s bm bd d n (data_of n bm) _ s' bm' Hi Hdom Hd Hn Hi' Hdom' Hd' Hs).
  - intros s d n m k (bm & bd & Hi & Hdom & Hd) Hn Hk.
    destruct (named_lookup s bm bd d n m Hi Hdom Hd Hn) as (c & Hc & Hci & Hcn & <-).
    cbn [ss_Exists state_store_iface]. unfold Exists, with_store. rewrite Hc. destruct Hci as [Ho Hg _ _ _].
    unfold comp_Exists, data_Has. rewrite (sub_Has_eq _ _ _ bm bd) by auto with parts.
    rewrite decide_False by done. by rewrite Hcn.
  - intros s d n m k (bm & bd & Hi & Hdom & Hd) Hn Hk.
    destruct (named_lookup s bm bd d n m Hi Hdom Hd Hn) as (c & Hc & Hci & Hcn & <-).
    cbn [ss_GetStateData state_store_iface]. unfold GetStateData, with_store. rewrite Hc.
    cbn [flat]. by rewrite (comp_GetStateData_eq c _ bm bd k Hci Hk), Hcn.
  - intros s d n m k (bm & bd & Hi & Hdom & Hd) Hn Hk.
    destruct (named_lookup s bm bd d n m Hi Hdom Hd Hn) as (c & Hc & Hci & Hcn & <-).
    cbn [ss_GetState state_store_iface]. unfold GetState, with_store. rewrite Hc.
    pose proof (comp_GetStateData_eq c _ bm bd k Hci Hk) as Hg. unfold comp_GetStateData in Hg.
    unfold comp_GetState. rewrite Hg. cbn [with_err mbind outcome_bind]. rewrite (ci_rw _ _ _ _ Hci).
    destruct Hci as [Ho Hgn _ Hrep _].
    destruct (smt_prove_law _ _ _ _ _ (ss_state s) (c_root c) _ k (tree_stores (c_name c) bd Hgn)
      (ex_intro _ bm Ho) Hrep) as [p ->]. exists (Some p). by rewrite Hcn.
  - intros s d n m (bm & bd & Hi & Hdom & Hd) Hn.
    destruct (named_lookup s bm bd d n m Hi Hdom Hd Hn) as (c & Hc & Hci & Hcn & <-).
    cbn [ss_GetAllStateData state_store_iface]. unfold GetAllStateData, with_store. rewrite Hc.
    cbn [flat]. unfold comp_GetAllStateData. by rewrite (data_items_eq c _ bm bd Hci), Hcn.
  - intros A cb a s d n m (bm & bd & Hi & Hdom & Hd) Hn.
    destruct (named_lookup s bm bd d n m Hi Hdom Hd Hn) as (c & Hc & Hci & Hcn & <-).
    cbn [ss_IterateAllStateDataCB state_store_iface]. unfold IterateAllStateDataCB, with_store. rewrite Hc.
    cbn [flat]. unfold comp_IterateAllStateDataCB. by rewrite (data_items_eq c _ bm bd Hci), Hcn.
  - intros s d n m (bm & bd & Hi & Hdom & Hd) Hn.
    destruct (named_lookup s bm bd d n m Hi Hdom Hd Hn) as (c & Hc & Hci & Hcn & <-).
    cbn [ss_Root state_store_iface]. unfold Root, with_store. rewrite Hc. unfold comp_Root.
    by rewrite (ci_root _ _ _ _ Hci), Hcn.
Defined.
End Implementation.

(** * The monad of the state components

    A call takes the store and returns it with a result or an error; a write
    that was made before the error stays made. *)
Definition cmd (S E A : Type) : Type := S -> go (S * (E + A)).

#[export] Instance cmd_ret S E : MRet (cmd S E) := fun A a s => Ok (s, inr a).

#[export] Instance cmd_bind S E : MBind (cmd S E) := fun A B f c s =>
  match c s with
  | Ok (s', inr a) => f a s'
  | Ok (s', inl e) => Ok (s', inl e)
  | Err e => match e with end
  | Panic => Panic
  end.

Definition fail {S E A} (e : E) : cmd S E A := fun s => Ok (s, inl e).

Definition crash {S E A} : cmd S E A := fun _ => Panic.

(** Ignoring the error of a call: [x, _ := f()]. *)
Definition ignoring {S E A} (d : A) (c : cmd S E A) : cmd S E A := fun s =>
  match c s with
  | Ok (s', inl _) => Ok (s', inr d)
  | r => r
  end.

(** The errors of the state components. *)
Inductive state_error :=
| ErrStore (e : StateStore.store_error)
| ErrJson (e : JsonCodec.json_error)
| ErrNil
| ErrInvalidRole (id : bytes)
| ErrInvalidState (id : bytes)
| ErrInvalidDomainType (id : bytes)
| ErrLengths (keys vals : Z)
| ErrAlreadySet
| ErrExists (id : bytes)
| ErrNoSymbol (symbol addr : bytes)
| ErrProto
| ErrNoCache.

Section Commands.
Context {S : Type} `{!IStateStore S}.

Abbreviation cmd := (cmd S state_error).

Definition writing (r : S -> go (S * option StateStore.store_error)) : cmd unit := fun s =>
  match r s with
  | Ok (s', None) => Ok (s', inr tt)
  | Ok (s', Some e) => Ok (s', inl (ErrStore e))
  | Err e => match e with end
  | Panic => Panic
  end.

Definition reading {A} (r : S -> outcome StateStore.store_error A) : cmd A := fun s =>
  match r s with
  | Ok a => Ok (s, inr a)
  | Err e => Ok (s, inl (ErrStore e))
  | Panic => Panic
  end.

Definition st_Put (name key value : bytes) : cmd unit := writing (fun s => ss_Put s name key (Some value)).

Definition st_Update (name key value : bytes) : cmd unit := writing (fun s => ss_Update s name key (Some value)).

Definition st_Delete (name key : bytes) : cmd unit := writing (fun s => ss_Delete s name key).

Definition st_Exists (name key : bytes) : cmd bool := reading (fun s => ss_Exists s name key).

Definition st_Get (name key : bytes) : cmd (option bytes) := reading (fun s => ss_GetStateData s name key).

(** [GetState] gives the proof too, which its callers here drop. *)
Definition st_GetState (name key : bytes) : cmd (option bytes) :=
  '(v, _) ← reading (fun s => ss_GetState s name key); mret v.

Definition st_GetAll (name : bytes) : cmd (list bytes * list bytes) := reading (fun s => ss_GetAllStateData s name).

Definition st_Root (name : bytes) : cmd bytes := reading (fun s => ss_Root s name).

(** [json.Unmarshal] into a fresh variable; nil bytes are an empty text. *)
Definition unmarshal {A} (c : JsonCodec.codec A) (data : option bytes) : cmd A := fun s =>
  match JsonCodec.Unmarshal c (default [] data) (JsonCodec.zero c) with
  | Ok a => Ok (s, inr a)
  | Err e => Ok (s, inl (ErrJson e))
  | Panic => Panic
  end.

(** What a command does on an open store, by the laws. *)
Context `{!StateStoreLaws S}.

Lemma run_bind {A B} (c : cmd A) (f : A -> cmd B) s s' a : c s = Ok (s', inr a) -> (c ≫= f) s = f a s'.
Proof. intros H. unfold mbind, cmd_bind. by rewrite H. Qed.

Lemma run_Put s d n m k v : named s d -> d !! n = Some m -> k <> [] ->
  exists s', st_Put n k v s = Ok (s', inr tt) /\ named s' (<[n:=<[k:=v]> m]> d).
Proof. intros Hs Hn Hk. destruct (law_Put s d n m k v Hs Hn Hk) as (s' & E & Hs'). exists s'. unfold st_Put, writing. by rewrite E. Qed.

Lemma run_Update s d n m k v : named s d -> d !! n = Some m -> k <> [] ->
  exists s', st_Update n k v s = Ok (s', inr tt) /\ named s' (<[n:=<[k:=v]> m]> d).
Proof. intros Hs Hn Hk. destruct (law_Update s d n m k v Hs Hn Hk) as (s' & E & Hs'). exists s'. unfold st_Update, writing. by rewrite E. Qed.

Lemma run_Delete s d n m k : named s d -> d !! n = Some m -> k <> [] ->
  exists s', st_Delete n k s = Ok (s', inr tt) /\ named s' (<[n:=delete k m]> d).
Proof. intros Hs Hn Hk. destruct (law_Delete s d n m k Hs Hn Hk) as (s' & E & Hs'). exists s'. unfold st_Delete, writing. by rewrite E. Qed.

Lemma run_Exists s d n m k : named s d -> d !! n = Some m -> k <> [] ->
  st_Exists n k s = Ok (s, inr (bool_decide (is_Some (m !! k)))).
Proof. intros Hs Hn Hk. unfold st_Exists, reading. by rewrite (law_Exists s d n m k Hs Hn Hk). Qed.

Lemma run_Get s d n m k : named s d -> d !! n = Some m -> k <> [] -> st_Get n k s = Ok (s, inr (m !! k)).
Proof. intros Hs Hn Hk. unfold st_Get, reading. by rewrite (law_Get s d n m k Hs Hn Hk). Qed.

Lemma run_GetState s d n m k : named s d -> d !! n = Some m -> k <> [] -> st_GetState n k s = Ok (s, inr (m !! k)).
Proof.
  intros Hs Hn Hk. unfold st_GetState, reading. destruct (law_GetState s d n m k Hs Hn Hk) as [p E].
  unfold mbind, cmd_bind. by rewrite E.
Qed.

Lemma run_GetAll s d n m : named s d -> d !! n = Some m ->
  st_GetAll n s = Ok (s, inr ((sorted_items m).*1, (sorted_items m).*2)).
Proof. intros Hs Hn. unfold st_GetAll, reading. by rewrite (law_GetAll s d n m Hs Hn). Qed.

Lemma run_Root s d n m : named s d -> d !! n = Some m -> st_Root n s = Ok (s, inr (root_value m)).
Proof. intros Hs Hn. unfold st_Root, reading. by rewrite (law_Root s d n m Hs Hn). Qed.

Lemma run_unmarshal {A} (c : JsonCodec.codec A) ok h a s : JsonCodec.lawful c ok h -> h <= Json.maxNestingDepth ->
  ok a -> unmarshal c (Some (JsonCodec.Marshal c a)) s = Ok (s, inr a).
Proof. intros HL Hh Ha. unfold unmarshal. change (default [] (Some (JsonCodec.Marshal c a))) with (JsonCodec.Marshal c a).
  by rewrite (JsonCodec.Unmarshal_Marshal c ok h a HL Hh Ha). Qed.

(** The same on one named store at a time, as operations on it compose. *)
Lemma at_Put s d n m k v : named s (<[n:=m]> d) -> k <> [] ->
  exists s', st_Put n k v s = Ok (s', inr tt) /\ named s' (<[n:=<[k:=v]> m]> d).
Proof.
  intros Hs Hk. destruct (run_Put s _ n m k v Hs (lookup_insert_eq d n m) Hk) as (s' & E & Hs').
  rewrite insert_insert_eq in Hs'. eauto.
Qed.

Lemma at_Update s d n m k v : named s (<[n:=m]> d) -> k <> [] ->
  exists s', st_Update n k v s = Ok (s', inr tt) /\ named s' (<[n:=<[k:=v]> m]> d).
Proof.
  intros Hs Hk. destruct (run_Update s _ n m k v Hs (lookup_insert_eq d n m) Hk) as (s' & E & Hs').
  rewrite insert_insert_eq in Hs'. eauto.
Qed.

Lemma at_Delete s d n m k : named s (<[n:=m]> d) -> k <> [] ->
  exists s', st_Delete n k s = Ok (s', inr tt) /\ named s' (<[n:=delete k m]> d).
Proof.
  intros Hs Hk. destruct (run_Delete s _ n m k Hs (lookup_insert_eq d n m) Hk) as (s' & E & Hs').
  rewrite insert_insert_eq in Hs'. eauto.
Qed.

Lemma at_Exists s d n m k : named s (<[n:=m]> d) -> k <> [] ->
  ignoring false (st_Exists n k) s = Ok (s, inr (bool_decide (is_Some (m !! k)))).
Proof.
  intros Hs Hk. unfold ignoring. by rewrite (run_Exists s _ n m k Hs (lookup_insert_eq d n m) Hk).
Qed.

Lemma at_Get s d n m k : named s (<[n:=m]> d) -> k <> [] -> st_Get n k s = Ok (s, inr (m !! k)).
Proof. intros Hs Hk. exact (run_Get s _ n m k Hs (lookup_insert_eq d n m) Hk). Qed.

Lemma named_at s d n m : named s d -> d !! n = Some m -> named s (<[n:=m]> d).
Proof. intros Hs Hn. by rewrite insert_id. Qed.
End Commands.

(** Listing a map of encoded values. *)
Lemma sorted_items_fmap {A} (f : A -> bytes) (m : gmap bytes A) :
  sorted_items (f <$> m) = prod_map id f <$> JsonCodec.sorted_keys m.
Proof.
  symmetry. apply lists_sorted_items. pose proof (JsonCodec.sorted_keys_perm m) as Hperm. split.
  - assert (Hs : StronglySorted (fun x y => bytes_lt x.1 y.1) (JsonCodec.sorted_keys m)).
    { apply strictly_sorted; [apply merge_sort_keys|]. rewrite Hperm. apply NoDup_fst_map_to_list. }
    clear Hperm. induction Hs as [|x l Hl IH Hx]; constructor; [done|]. by apply Forall_fmap.
  - intros k v. rewrite Hperm. setoid_rewrite list_elem_of_fmap. rewrite lookup_fmap_Some. split.
    + intros ([k' a] & [= -> ->] & H%elem_of_map_to_list). by exists a.
    + intros (a & <- & H). exists (k, a). split; [done|]. by apply elem_of_map_to_list.
Qed.

(** * A reference state store: the finite maps themselves *)
Module RefStore.
Import StateStore.

Abbreviation t := (gmap bytes kvmap).

Definition write (s : t) (n : bytes) (f : kvmap -> kvmap) : go (t * option store_error) :=
  match s !! n with Some m => Ok (<[n:=f m]> s, None) | None => Ok (s, Some (ENoStore n)) end.

Definition read {A : Type} (s : t) (n : bytes) (f : kvmap -> A) : outcome store_error A :=
  match s !! n with Some m => Ok (f m) | None => Err (ENoStore n) end.

#[export] Instance ref_store : IStateStore t := {
  ss_AddNamedStateStore s n _ := Ok (match s !! n with Some _ => s | None => <[n:=∅]> s end, None);
  ss_Root s n := read s n (fun m => StateStoreSpec.RootTree.root_of m);
  ss_Put s n k v := write s n (fun m => <[k:=default [] v]> m);
  ss_Delete s n k := write s n (delete k);
  ss_Update s n k v := write s n (fun m => <[k:=default [] v]> m);
  ss_Exists s n k := read s n (fun m => bool_decide (is_Some (m !! k)));
  ss_GetStateData s n k := read s n (fun m => m !! k);
  ss_GetState s n k := read s n (fun m => (m !! k, None));
  ss_GetAllStateData s n := read s n (fun m => ((sorted_items m).*1, (sorted_items m).*2));
  ss_IterateAllStateDataCB A cb a s n :=
    read s n (fun m => fold_left (fun a kv => cb a kv.1 kv.2) (sorted_items m) a);
}.

#[export] Instance ref_store_laws : StateStoreLaws t.
Proof.
  refine {| named s d := s = d; root_value := StateStoreSpec.RootTree.root_of |}.
  all: intros; subst; cbn; unfold write, read; repeat match goal with H : _ !! _ = Some _ |- _ => rewrite H end;
    first [reflexivity | eexists; reflexivity | eexists; split; reflexivity].
Defined.
End RefStore.
