(* ===== verification/StateNode.v ===== *)
(** The node registry (src/state/node): the stores of active executors,
    proposers and validators and of inactive nodes, with their lists of ids
    and total weights, and the registry over them.  The registry is shown to
    be a finite map from node ids to nodes, as long as ids are not added
    twice. *)
From Stdlib Require Import ZArith Lia Strings.Byte.
From stdpp Require Import base gmap list strings sorting.
From S2P Require Import Prelude Common Backend Text Json JsonCodec StateBase.
Import Util Types JsonCodec.
#[local] Open Scope Z_scope.

Module Node.

(** * The stored data *)

Definition j_NodeInfo : codec NodeInfo :=
  j_struct (mkNodeInfo [] [] 0 [] None 0 0)
    [fld "NodeID" j_string NodeID
       (fun x n => mkNodeInfo x (Address n) (Weight n) (DKGPartPubKey n) (DKGPriShare n) (Role n) (State n));
     fld "Address" j_string Address
       (fun x n => mkNodeInfo (NodeID n) x (Weight n) (DKGPartPubKey n) (DKGPriShare n) (Role n) (State n));
     fld "Weight" (j_uint 64) Weight
       (fun x n => mkNodeInfo (NodeID n) (Address n) x (DKGPartPubKey n) (DKGPriShare n) (Role n) (State n));
     fld "DKGPartPubKey" j_string DKGPartPubKey
       (fun x n => mkNodeInfo (NodeID n) (Address n) (Weight n) x (DKGPriShare n) (Role n) (State n));
     fld "DKGPriShare" j_bytes DKGPriShare
       (fun x n => mkNodeInfo (NodeID n) (Address n) (Weight n) (DKGPartPubKey n) x (Role n) (State n));
     fld "Role" (j_uint 64) Role
       (fun x n => mkNodeInfo (NodeID n) (Address n) (Weight n) (DKGPartPubKey n) (DKGPriShare n) x (State n));
     fld "State" (j_uint 8) State
       (fun x n => mkNodeInfo (NodeID n) (Address n) (Weight n) (DKGPartPubKey n) (DKGPriShare n) (Role n) x)].

Record nodeStateMetaInfo := mkMeta { meta_Role : Z; meta_State : NodeState }.

Definition j_meta : codec nodeStateMetaInfo :=
  j_struct (mkMeta 0 0)
    [fld "Role" (j_uint 64) meta_Role (fun x m => mkMeta x (meta_State m));
     fld "State" (j_uint 8) meta_State (fun x m => mkMeta (meta_Role m) x)].

Definition j_ids : codec (option (list bytes)) := j_slice j_string.

(** A Go slice built by [append] on a nil slice is nil when it is empty. *)
Definition nonnil {A} (l : list A) : option (list A) := match l with [] => None | _ => Some l end.

(** * common.go *)
Section Ops.
Context {S : Type} `{!IStateStore S}.
Abbreviation cmd := (cmd S state_error).

Definition isNodeExist (name nodeID : bytes) : cmd bool := ignoring false (st_Exists name nodeID).

Definition getNode (name nodeID : bytes) : cmd (option NodeInfo) :=
  nodeInfoBytes ← st_Get name nodeID;
  match nodeInfoBytes with
  | None => mret None
  | Some _ => nodeInfo ← unmarshal j_NodeInfo nodeInfoBytes; mret (Some nodeInfo)
  end.

Definition updateTotalIDs (name totalIDsKey nodeID : bytes) (isRemove : bool) : cmd unit :=
  totalIdsBytes ← st_Get name totalIDsKey;
  nodeIDs ← unmarshal j_ids totalIdsBytes;
  let nodeIDs :=
    if isRemove then nonnil (RemoveIfExistString nodeID (default [] nodeIDs))
    else Some (default [] nodeIDs ++ [nodeID]) in
  st_Update name totalIDsKey (Marshal j_ids nodeIDs).

(** [binary.BigEndian.Uint64] of what is stored. *)
Definition big_endian (b : option bytes) : cmd Z := fun s =>
  match BytesToUint64 (default [] b) with Ok z => Ok (s, inr z) | _ => Panic end.

Definition updateTotalWeight (name totalWeightKey : bytes) (deltaWeight : Z) : cmd unit :=
  totalWeightBytes ← st_Get name totalWeightKey;
  curTotalWeight ← big_endian totalWeightBytes;
  let finalTotalWeight := i64 (i64 curTotalWeight + deltaWeight) in
  let finalTotalWeight := if finalTotalWeight <? 0 then 0 else finalTotalWeight in
  st_Update name totalWeightKey (Uint64ToBytes (u64 finalTotalWeight)).

Definition addNode (name totalNodeIDsKey totalWeightKey : bytes) (nodeInfo : option NodeInfo) : cmd unit :=
  match nodeInfo with
  | None => fail ErrNil
  | Some n =>
      _ ← st_Put name (NodeID n) (Marshal j_NodeInfo n);
      isTotalIDKey ← ignoring false (st_Exists name totalNodeIDsKey);
      _ ← (if isTotalIDKey : bool then updateTotalIDs name totalNodeIDsKey (NodeID n) false
           else st_Put name totalNodeIDsKey (Marshal j_ids (Some [NodeID n])));
      isExist ← ignoring false (st_Exists name totalWeightKey);
      if isExist : bool then updateTotalWeight name totalWeightKey (i64 (Weight n))
      else st_Put name totalWeightKey (Uint64ToBytes (Weight n))
  end.

(** The update functions dereference the node without asking whether there is
    one. *)
Definition updateWeight (name nodeID totalWeightKey : bytes) (weight : Z) : cmd unit :=
  nodeInfo ← getNode name nodeID;
  match nodeInfo with
  | None => crash
  | Some n =>
      let deltaWeight := i64 (i64 weight - i64 (Weight n)) in
      let n := mkNodeInfo (NodeID n) (Address n) weight (DKGPartPubKey n) (DKGPriShare n) (Role n) (State n) in
      _ ← st_Update name (NodeID n) (Marshal j_NodeInfo n);
      updateTotalWeight name totalWeightKey deltaWeight
  end.

Definition updateDKGPartPubKey (name nodeID pubKey : bytes) : cmd unit :=
  nodeInfo ← getNode name nodeID;
  match nodeInfo with
  | None => crash
  | Some n =>
      let n := mkNodeInfo (NodeID n) (Address n) (Weight n) pubKey (DKGPriShare n) (Role n) (State n) in
      st_Update name (NodeID n) (Marshal j_NodeInfo n)
  end.

Definition updateDKGPriShare (name nodeID : bytes) (priShare : option bytes) : cmd unit :=
  nodeInfo ← getNode name nodeID;
  match nodeInfo with
  | None => crash
  | Some n =>
      let n := mkNodeInfo (NodeID n) (Address n) (Weight n) (DKGPartPubKey n) priShare (Role n) (State n) in
      st_Update name (NodeID n) (Marshal j_NodeInfo n)
  end.

Definition removeNode (name totalNodeIDsKey totalWeightKey nodeID : bytes) (weight : Z) : cmd unit :=
  _ ← st_Delete name nodeID;
  isTotalIDKey ← ignoring false (st_Exists name totalNodeIDsKey);
  _ ← (if isTotalIDKey : bool then updateTotalIDs name totalNodeIDsKey nodeID true else mret tt);
  isExist ← ignoring false (st_Exists name totalWeightKey);
  if isExist : bool then updateTotalWeight name totalWeightKey (i64 (u64 (- weight))) else mret tt.

(** * node_executor.go, node_proposer.go, node_validator.go, node_inactive.go

    The four files are one file but for their names and keys, and for the
    proposers' ids, which are read together with a proof. *)

Record role := mkRole { r_name : bytes; r_ids : bytes; r_weight : bytes; r_proof : bool }.

Definition GetRoot (r : role) : cmd bytes := st_Root (r_name r).

Definition IsExist (r : role) (nodeID : bytes) : cmd bool := isNodeExist (r_name r) nodeID.

Definition GetIDs (r : role) : cmd (option (list bytes)) :=
  idsBytes ← (if r_proof r then st_GetState (r_name r) (r_ids r) else st_Get (r_name r) (r_ids r));
  match idsBytes with
  | None => mret None
  | Some _ => unmarshal j_ids idsBytes
  end.

Definition Get (r : role) (nodeID : bytes) : cmd (option NodeInfo) := getNode (r_name r) nodeID.

Definition GetTotal (r : role) : cmd Z :=
  weightBytes ← st_Get (r_name r) (r_weight r);
  match weightBytes with
  | None => mret 0
  | Some _ => big_endian weightBytes
  end.

Fixpoint nodes_loop (r : role) (l : list (bytes * bytes)) : cmd (list NodeInfo) :=
  match l with
  | [] => mret []
  | (k, v) :: l' =>
      if bool_decide (k = r_ids r) || bool_decide (k = r_weight r) then nodes_loop r l'
      else n ← unmarshal j_NodeInfo (Some v); ns ← nodes_loop r l'; mret (n :: ns)
  end.

Definition GetAll (r : role) : cmd (list NodeInfo) :=
  '(keys, vals) ← st_GetAll (r_name r);
  if negb (length keys =? length vals)%nat
  then fail (ErrLengths (Z.of_nat (length keys)) (Z.of_nat (length vals)))
  else nodes_loop r (zip keys vals).

Definition add (r : role) (nodeInfo : option NodeInfo) : cmd unit :=
  addNode (r_name r) (r_ids r) (r_weight r) nodeInfo.

Definition updWeight (r : role) (nodeID : bytes) (weight : Z) : cmd unit :=
  updateWeight (r_name r) nodeID (r_weight r) weight.

Definition updPartPubKey (r : role) (nodeID pubKey : bytes) : cmd unit := updateDKGPartPubKey (r_name r) nodeID pubKey.

Definition updPriShare (r : role) (nodeID : bytes) (priShare : option bytes) : cmd unit :=
  updateDKGPriShare (r_name r) nodeID priShare.

(** An error of the lookup is dropped. *)
Definition remove (r : role) (nodeID : bytes) : cmd unit := fun s =>
  match Get r nodeID s with
  | Ok (s', inr (Some n)) => removeNode (r_name r) (r_ids r) (r_weight r) nodeID (Weight n) s'
  | Ok (s', _) => Ok (s', inr tt)
  | Err e => match e with end
  | Panic => Panic
  end.
End Ops.

(** The interfaces of the four files, as a record of their methods. *)
Record RoleState (S : Type) := mkRoleState {
  rs_Root : cmd S state_error bytes;
  rs_IsExist : bytes -> cmd S state_error bool;
  rs_IDs : cmd S state_error (option (list bytes));
  rs_Get : bytes -> cmd S state_error (option NodeInfo);
  rs_TotalWeight : cmd S state_error Z;
  rs_All : cmd S state_error (list NodeInfo);
  rs_add : option NodeInfo -> cmd S state_error unit;
  rs_updateWeight : bytes -> Z -> cmd S state_error unit;
  rs_updateDKGPartPubKey : bytes -> bytes -> cmd S state_error unit;
  rs_updateDKGPriShare : bytes -> option bytes -> cmd S state_error unit;
  rs_remove : bytes -> cmd S state_error unit;
}.

Definition StateStore_Name_Node : bytes := str "node".

Section Registry.
Context {S : Type} `{!IStateStore S}.
Abbreviation cmd := (cmd S state_error).

Definition methods (r : role) : RoleState S :=
  mkRoleState S (GetRoot r) (IsExist r) (GetIDs r) (Get r) (GetTotal r) (GetAll r)
    (add r) (updWeight r) (updPartPubKey r) (updPriShare r) (remove r).

Definition executor : role := mkRole (str "executor") (str "totalaenodeids") (str "totalaeweight") false.

Definition proposer : role := mkRole (str "proposer") (str "totalapnodeids") (str "totalapweight") true.

Definition validator : role := mkRole (str "validator") (str "totalavnodeids") (str "totalavweight") false.

Definition inactive : role := mkRole (str "nodeinactive") (str "totalinnodeids") (str "totalinweight") false.

Definition NodeExecutorState : RoleState S := methods executor.

Definition NodeProposerState : RoleState S := methods proposer.

Definition NodeValidatorState : RoleState S := methods validator.

Definition NodeInactiveState : RoleState S := methods inactive.

(** * node.go *)

(** The constructors open their named store and drop the error. *)
Definition NewRoleState (r : role) (s : S) (cacheSize : Z) : go S :=
  '(s, _) ← ss_AddNamedStateStore s (r_name r) cacheSize; Ok s.

Definition NewNodeState (s : S) (cacheSize : Z) : go S :=
  '(s, _) ← ss_AddNamedStateStore s StateStore_Name_Node cacheSize; Ok s.

Definition GetNodeRoot : cmd bytes := st_Root StateStore_Name_Node.

Definition IsNodeExist (nodeID : bytes) : cmd bool := isNodeExist StateStore_Name_Node nodeID.

Definition GetAllConsensusNodeIDs : cmd (list bytes) :=
  executors ← rs_IDs S NodeExecutorState;
  proposers ← rs_IDs S NodeProposerState;
  validators ← rs_IDs S NodeValidatorState;
  inactives ← rs_IDs S NodeInactiveState;
  mret (default [] executors ++ default [] proposers ++ default [] validators ++ default [] inactives).

(** The switch on state and role that selects the store of a node. *)
Definition by_role {A} (nodeID : bytes) (Role : Z) (State : NodeState) (f : RoleState S -> cmd A) : cmd A :=
  if State =? NodeState_Active then
    if Role =? NodeRole_Executor then f NodeExecutorState
    else if Role =? NodeRole_Proposer then f NodeProposerState
    else if Role =? NodeRole_Validator then f NodeValidatorState
    else fail (ErrInvalidRole nodeID)
  else if (State =? NodeState_Standby) || (State =? NodeState_Frozen) then f NodeInactiveState
  else fail (ErrInvalidState nodeID).

(** Reading the meta information of a node; [missing] when there is none. *)
Definition by_meta {A} (nodeID : bytes) (missing : A) (f : RoleState S -> cmd A) : cmd A :=
  metaBytes ← st_Get StateStore_Name_Node nodeID;
  match metaBytes with
  | None => mret missing
  | Some _ => meta ← unmarshal j_meta metaBytes; by_role nodeID (meta_Role meta) (meta_State meta) f
  end.

Definition GetNode (nodeID : bytes) : cmd (option NodeInfo) := by_meta nodeID None (fun r => rs_Get S r nodeID).

Definition GetTotalWeight : cmd Z :=
  activeExecutorsWeight ← rs_TotalWeight S NodeExecutorState;
  activeProposerWeight ← rs_TotalWeight S NodeProposerState;
  activeValidatorWeight ← rs_TotalWeight S NodeValidatorState;
  mret (u64 (activeExecutorsWeight + activeProposerWeight + activeValidatorWeight)).

Definition GetNodeWeight (nodeID : bytes) : cmd Z :=
  nodeInfo ← GetNode nodeID;
  mret (match nodeInfo with None => 0 | Some n => Weight n end).

Definition AddNode (nodeInfo : option NodeInfo) : cmd unit :=
  match nodeInfo with
  | None => fail ErrNil
  | Some n =>
      _ ← by_role (NodeID n) (Role n) (State n) (fun r => rs_add S r nodeInfo);
      st_Put StateStore_Name_Node (NodeID n) (Marshal j_meta (mkMeta (Role n) (State n)))
  end.

Definition GetDKGPartPubKeysForVerify : cmd (gmap bytes bytes) :=
  propNodeInfos ← rs_All S NodeProposerState;
  valNodeInfos ← rs_All S NodeValidatorState;
  mret (fold_left (fun m n => <[NodeID n:=DKGPartPubKey n]> m) (propNodeInfos ++ valNodeInfos) ∅).

Definition UpdateWeight (nodeID : bytes) (weight : Z) : cmd unit :=
  by_meta nodeID tt (fun r => rs_updateWeight S r nodeID weight).

Definition UpdateDKGPartPubKey (nodeID pubKey : bytes) : cmd unit :=
  by_meta nodeID tt (fun r => rs_updateDKGPartPubKey S r nodeID pubKey).

Definition UpdateDKGPriShare (nodeID : bytes) (priShare : option bytes) : cmd unit :=
  by_meta nodeID tt (fun r => rs_updateDKGPriShare S r nodeID priShare).
End Registry.

(** * The codecs are lawful *)

Definition node_ok (n : NodeInfo) : Prop :=
  utf8 (NodeID n) /\ utf8 (Address n) /\ 0 <= Weight n < 2 ^ 64 /\ utf8 (DKGPartPubKey n)
  /\ 0 <= Role n < 2 ^ 64 /\ 0 <= State n < 2 ^ 8.

Lemma NodeInfo_lawful : lawful j_NodeInfo node_ok 1.
Proof. change 1 with (1 + Z.max 0 0). unfold j_NodeInfo. solve_struct. Qed.

Definition meta_ok (m : nodeStateMetaInfo) : Prop := 0 <= meta_Role m < 2 ^ 64 /\ 0 <= meta_State m < 2 ^ 8.

Lemma meta_lawful : lawful j_meta meta_ok 1.
Proof. change 1 with (1 + Z.max 0 0). unfold j_meta. solve_struct. Qed.

Lemma ids_lawful : lawful j_ids (all_of utf8) 1.
Proof. apply (slice_lawful j_string utf8 0 string_lawful). Qed.
End Node.
