(* ===== verification/StateNodeSpec.v ===== *)
(** Correctness of the node registry: each role's store keeps its nodes, its
    list of ids and its total weight consistent, and the registry as a whole
    is a finite map from ids to nodes.  Adding an id twice breaks it. *)
From Stdlib Require Import ZArith Lia Strings.Byte.
From stdpp Require Import base gmap list strings sorting.
From S2P Require Import Prelude Common Backend Text Json JsonCodec StateBase StateNode.
Import Util Types JsonCodec.
#[local] Open Scope Z_scope.

Module NodeSpec.
Import Node.

(** The store left by an operation is the one it should be. *)
Ltac same_store H :=
  revert H;
  match goal with |- named ?s (<[_:=?a]> _) -> named ?s (<[_:=?b]> _) => replace a with b; [done|] end.

Lemma depth1 : 1 <= Json.maxNestingDepth.
Proof. unfold Json.maxNestingDepth. lia. Qed.

(** * One role's store *)

Definition total (nodes : gmap bytes NodeInfo) : Z := msum Weight nodes.

(** The contents of a role's store: its nodes, and, from the first addition
    on, the list of ids and the total weight. *)
Definition stored (r : role) (started : bool) (nodes : gmap bytes NodeInfo) (ids : list bytes) : kvmap :=
  if started
  then <[r_ids r:=Marshal j_ids (nonnil ids)]> (<[r_weight r:=Uint64ToBytes (total nodes)]> (Marshal j_NodeInfo <$> nodes))
  else ∅.

Definition role_ok (r : role) : Prop :=
  r_name r <> [] /\ r_ids r <> [] /\ r_weight r <> [] /\ r_ids r <> r_weight r.

Definition id_ok (r : role) (id : bytes) : Prop := id <> [] /\ id <> r_ids r /\ id <> r_weight r.

Record role_rep (r : role) (m : kvmap) (nodes : gmap bytes NodeInfo) (ids : list bytes) : Prop := {
  rr_role : role_ok r;
  rr_node id n : nodes !! id = Some n -> NodeID n = id /\ node_ok n /\ id_ok r id;
  rr_nodup : NoDup ids;
  rr_ids id : id ∈ ids <-> is_Some (nodes !! id);
  rr_total : total nodes < 2 ^ 63;
  rr_map : exists started, m = stored r started nodes ids /\ (started = false -> nodes = ∅ /\ ids = []);
}.

Lemma rr_utf8 r m nodes ids : role_rep r m nodes ids -> Forall utf8 ids.
Proof.
  intros Hr. apply Forall_forall. intros id Hid. apply (rr_ids _ _ _ _ Hr) in Hid as [n Hn].
  destruct (rr_node _ _ _ _ Hr id n Hn) as (<- & (Hu & _) & _). done.
Qed.

Lemma role_total_nonneg r m nodes ids : role_rep r m nodes ids -> 0 <= total nodes.
Proof.
  intros Hr. apply msum_nonneg. intros id n Hn.
  destruct (rr_node _ _ _ _ Hr id n Hn) as (_ & (_ & _ & H & _) & _). lia.
Qed.

(** What the store answers for each key. *)
Lemma stored_ids r nodes ids : stored r true nodes ids !! r_ids r = Some (Marshal j_ids (nonnil ids)).
Proof. apply lookup_insert_eq. Qed.

Lemma stored_weight r nodes ids : role_ok r ->
  stored r true nodes ids !! r_weight r = Some (Uint64ToBytes (total nodes)).
Proof. intros (_ & _ & _ & Hne). cbn. rewrite lookup_insert_ne by done. apply lookup_insert_eq. Qed.

Lemma stored_node r nodes ids id : id_ok r id ->
  stored r true nodes ids !! id = Marshal j_NodeInfo <$> nodes !! id.
Proof. intros (_ & H1 & H2). cbn. rewrite !lookup_insert_ne by done. apply lookup_fmap. Qed.

Lemma rep_lookup r m nodes ids id : role_rep r m nodes ids -> id_ok r id ->
  m !! id = Marshal j_NodeInfo <$> nodes !! id.
Proof.
  intros Hr Hid. destruct (rr_map _ _ _ _ Hr) as ([] & -> & Hst); [by apply stored_node|].
  destruct (Hst eq_refl) as [-> _]. by rewrite lookup_empty.
Qed.

Section Role.
Context {S : Type} `{!IStateStore S, !StateStoreLaws S}.
Abbreviation cmd := (cmd S state_error).

Lemma run_ids (l : list bytes) (s : S) : Forall utf8 l ->
  unmarshal j_ids (Some (Marshal j_ids (nonnil l))) s = Ok (s, inr (nonnil l)).
Proof.
  intros Hl. apply (run_unmarshal j_ids _ _ _ s ids_lawful depth1). unfold all_of. by destruct l.
Qed.

Lemma default_nonnil {A} (l : list A) : default [] (nonnil l) = l.
Proof. by destruct l. Qed.

Lemma getNode_spec s d name m id n : named s (<[name:=m]> d) -> id <> [] ->
  m !! id = Marshal j_NodeInfo <$> n -> opt_ok node_ok n ->
  getNode name id s = Ok (s, inr n).
Proof.
  intros Hs Hid Hm Hn. unfold getNode. rewrite (run_bind _ _ _ _ _ (at_Get s d name m id Hs Hid)), Hm.
  destruct n as [n|]; [|done]. cbn [fmap option_fmap option_map].
  by rewrite (run_bind _ _ _ _ _ (run_unmarshal j_NodeInfo _ _ n s NodeInfo_lawful depth1 Hn)).
Qed.

Lemma updateTotalIDs_spec s d name m key id rm ids : named s (<[name:=m]> d) -> key <> [] ->
  m !! key = Some (Marshal j_ids (nonnil ids)) -> Forall utf8 ids ->
  exists s', updateTotalIDs name key id rm s = Ok (s', inr tt)
  /\ named s' (<[name:=<[key:=Marshal j_ids (nonnil (if rm then filter (fun x => x <> id) ids else ids ++ [id]))]> m]> d).
Proof.
  intros Hs Hk Hm Hu. unfold updateTotalIDs.
  rewrite (run_bind _ _ _ _ _ (at_Get s d name m key Hs Hk)), Hm.
  rewrite (run_bind _ _ _ _ _ (run_ids ids s Hu)), default_nonnil, RemoveIfExistString_filter.
  replace (if rm then nonnil (filter (fun s => s <> id) ids) else Some (ids ++ [id]))
    with (nonnil (if rm then filter (fun x => x <> id) ids else ids ++ [id])).
  - by apply at_Update.
  - destruct rm; [done|]. by destruct ids.
Qed.

Lemma big_endian_spec w (s : S) : is_u64 w -> big_endian (Some (Uint64ToBytes w)) s = Ok (s, inr w).
Proof.
  intros Hw. unfold big_endian. change (default [] (Some (Uint64ToBytes w))) with (Uint64ToBytes w).
  by rewrite BytesToUint64_of.
Qed.

Lemma updateTotalWeight_spec s d name m key w delta : named s (<[name:=m]> d) -> key <> [] ->
  m !! key = Some (Uint64ToBytes w) -> 0 <= w < 2 ^ 63 -> 0 <= w + delta < 2 ^ 63 ->
  exists s', updateTotalWeight name key delta s = Ok (s', inr tt)
  /\ named s' (<[name:=<[key:=Uint64ToBytes (w + delta)]> m]> d).
Proof.
  intros Hs Hk Hm Hw Hd. unfold updateTotalWeight.
  rewrite (run_bind _ _ _ _ _ (at_Get s d name m key Hs Hk)), Hm.
  rewrite (run_bind _ _ _ _ _ (big_endian_spec w s ltac:(unfold is_u64; lia))).
  rewrite (i64_small w), (i64_small (w + delta)) by (unfold is_i64; lia).
  rewrite (proj2 (Z.ltb_ge _ _)) by lia. rewrite u64_small by (unfold is_u64; lia). by apply at_Update.
Qed.

(** Adding a node whose id is new. *)
Lemma add_spec r s d m nodes ids n : named s (<[r_name r:=m]> d) -> role_rep r m nodes ids ->
  node_ok n -> id_ok r (NodeID n) -> nodes !! NodeID n = None -> total nodes + Weight n < 2 ^ 63 ->
  exists s' m', add r (Some n) s = Ok (s', inr tt) /\ named s' (<[r_name r:=m']> d)
  /\ role_rep r m' (<[NodeID n:=n]> nodes) (ids ++ [NodeID n]).
Proof.
  intros Hs Hr Hok Hid Hnew Ht. pose proof (role_total_nonneg _ _ _ _ Hr) as Ht0. pose proof (rr_utf8 _ _ _ _ Hr) as Hu.
  destruct (rr_role _ _ _ _ Hr) as (Hrn & Hri & Hrw & Hne). destruct Hid as (Hid0 & Hid1 & Hid2).
  assert (Hw : 0 <= Weight n) by (destruct Hok as (_ & _ & H & _); lia).
  assert (Hrep : role_rep r (stored r true (<[NodeID n:=n]> nodes) (ids ++ [NodeID n]))
    (<[NodeID n:=n]> nodes) (ids ++ [NodeID n])).
  { destruct Hr as [_ Hnode Hnd Hids _ _]. split; [done| | | | |].
    - intros id x [[<- <-]|[_ Hx]]%lookup_insert_Some; [done|by apply Hnode].
    - apply NoDup_app. split_and!; [done| |repeat constructor; set_solver].
      intros x Hx ->%list_elem_of_singleton. apply Hids in Hx as [y Hy]. congruence.
    - intros id. rewrite elem_of_app, list_elem_of_singleton, Hids, lookup_insert_is_Some'. naive_solver.
    - unfold total. rewrite msum_insert by done. unfold total in Ht. lia.
    - by exists true. }
  unfold add, addNode.
  destruct (at_Put s d (r_name r) m (NodeID n) (Marshal j_NodeInfo n) Hs Hid0) as (s1 & E1 & Hs1).
  rewrite (run_bind _ _ _ _ _ E1), (run_bind _ _ _ _ _ (at_Exists s1 d _ _ (r_ids r) Hs1 Hri)).
  rewrite lookup_insert_ne by done. destruct (rr_map _ _ _ _ Hr) as (started & -> & Hst). destruct started.
  - rewrite bool_decide_true by (rewrite stored_ids; eauto).
    destruct (updateTotalIDs_spec s1 d (r_name r) _ (r_ids r) (NodeID n) false ids Hs1 Hri) as (s2 & E2 & Hs2);
      [by rewrite lookup_insert_ne, stored_ids|done|].
    rewrite (run_bind _ _ _ _ _ E2), (run_bind _ _ _ _ _ (at_Exists s2 d _ _ (r_weight r) Hs2 Hrw)).
    rewrite !lookup_insert_ne by done. rewrite bool_decide_true by (rewrite stored_weight; eauto; by split_and!).
    rewrite (i64_small (Weight n)) by (unfold is_i64; lia).
    destruct (updateTotalWeight_spec s2 d (r_name r) _ (r_weight r) (total nodes) (Weight n) Hs2 Hrw)
      as (s3 & E3 & Hs3); [rewrite !lookup_insert_ne by done; by apply stored_weight|split;[lia|]..|]; [apply Hr|lia|].
    exists s3. eexists. split; [done|]. split; [|exact Hrep]. same_store Hs3. cbn [stored].
    rewrite fmap_insert. unfold total at 1. rewrite msum_insert by done. fold (total nodes).
    apply map_eq. intros k. rewrite !lookup_insert. repeat case_decide; subst; try done.
    by rewrite Z.add_comm.
  - destruct (Hst eq_refl) as [-> ->]. cbn [stored] in *. rewrite lookup_empty, bool_decide_false by (by intros []).
    destruct (at_Put s1 d (r_name r) _ (r_ids r) (Marshal j_ids (Some [NodeID n])) Hs1 Hri) as (s2 & E2 & Hs2).
    rewrite (run_bind _ _ _ _ _ E2), (run_bind _ _ _ _ _ (at_Exists s2 d _ _ (r_weight r) Hs2 Hrw)).
    rewrite !lookup_insert_ne, lookup_empty, bool_decide_false by (done || by intros []).
    destruct (at_Put s2 d (r_name r) _ (r_weight r) (Uint64ToBytes (Weight n)) Hs2 Hrw) as (s3 & E3 & Hs3).
    exists s3. eexists. split; [done|]. split; [|exact Hrep]. same_store Hs3. cbn [stored app nonnil].
    rewrite fmap_insert, fmap_empty. unfold total. rewrite msum_insert, msum_empty, Z.add_0_r by apply lookup_empty.
    apply map_eq. intros k. rewrite !lookup_insert. by repeat case_decide; subst.
Qed.

(** Replacing a node by one with the same id. *)
Lemma rep_replace r started nodes ids n n' : role_rep r (stored r started nodes ids) nodes ids ->
  nodes !! NodeID n = Some n -> NodeID n' = NodeID n -> node_ok n' -> total (<[NodeID n:=n']> nodes) < 2 ^ 63 ->
  started = true /\ role_rep r (stored r true (<[NodeID n:=n']> nodes) ids) (<[NodeID n:=n']> nodes) ids.
Proof.
  intros Hr Hn Hid Hok Ht. destruct Hr as [Hro Hnode Hnd Hids _ (st & Hst & Hst2)]. split.
  - destruct started; [done|]. assert (nodes = ∅) as ->; [|by rewrite lookup_empty in Hn].
    destruct st; [|naive_solver]. exfalso. cbn [stored] in Hst.
    assert (H := stored_ids r nodes ids). cbn [stored] in H. rewrite <- Hst in H. by rewrite lookup_empty in H.
  - split; [done| |done| |done|by exists true].
    + intros id x [[<- <-]|[_ Hx]]%lookup_insert_Some; [|by apply Hnode].
      destruct (Hnode _ _ Hn) as (_ & _ & Hido). by rewrite Hid.
    + intros id. rewrite Hids, lookup_insert_is_Some'. split; [by right|]. intros [<- | H]; [by eexists|done].
Qed.

Lemma updWeight_spec r s d m nodes ids n w : named s (<[r_name r:=m]> d) -> role_rep r m nodes ids ->
  nodes !! NodeID n = Some n -> 0 <= w -> total nodes - Weight n + w < 2 ^ 63 ->
  let n' := mkNodeInfo (NodeID n) (Address n) w (DKGPartPubKey n) (DKGPriShare n) (Role n) (State n) in
  exists s' m', updWeight r (NodeID n) w s = Ok (s', inr tt) /\ named s' (<[r_name r:=m']> d)
  /\ role_rep r m' (<[NodeID n:=n']> nodes) ids.
Proof.
  intros Hs Hr Hn Hw Ht n'. pose proof (rr_total _ _ _ _ Hr) as Ht1.
  destruct (rr_role _ _ _ _ Hr) as (Hrn & Hri & Hrw & Hne).
  destruct (rr_node _ _ _ _ Hr _ _ Hn) as (_ & Hok & Hid). pose proof Hid as (Hid0 & Hid1 & Hid2).
  assert (Hsplit : total nodes = Weight n + msum Weight (delete (NodeID n) nodes)) by (by apply msum_delete).
  assert (Hrest : 0 <= msum Weight (delete (NodeID n) nodes)).
  { apply msum_nonneg. intros i x [_ Hx]%lookup_delete_Some.
    destruct (rr_node _ _ _ _ Hr i x Hx) as (_ & (_ & _ & H & _) & _). lia. }
  assert (Htot : total (<[NodeID n:=n']> nodes) = total nodes - Weight n + w).
  { unfold total at 1. rewrite msum_update. cbn [Weight n']. lia. }
  assert (Hwn : 0 <= Weight n) by (destruct Hok as (_ & _ & H & _); lia).
  destruct (rr_map _ _ _ _ Hr) as (started & -> & Hst).
  assert (Hok' : node_ok n') by (destruct Hok as (? & ? & ? & ? & ? & ?); subst n'; unfold node_ok; cbn; split_and!; done || lia).
  destruct (rep_replace r started nodes ids n n' Hr Hn eq_refl Hok') as [-> Hrep]; [lia|].
  unfold updWeight, updateWeight.
  rewrite (run_bind _ _ _ _ _ (getNode_spec s d (r_name r) _ (NodeID n) (Some n) Hs Hid0
    ltac:(by rewrite stored_node, Hn) Hok)).
  rewrite !i64_small by (unfold is_i64; rewrite ?i64_small by (unfold is_i64; lia); lia).
  destruct (at_Update s d (r_name r) _ (NodeID n) (Marshal j_NodeInfo n') Hs Hid0) as (s1 & E1 & Hs1).
  cbn [NodeID]. fold n'. rewrite (run_bind _ _ _ _ _ E1).
  destruct (updateTotalWeight_spec s1 d (r_name r) _ (r_weight r) (total nodes) (w - Weight n) Hs1 Hrw)
    as (s2 & E2 & Hs2); [rewrite !lookup_insert_ne by done; by apply stored_weight|lia|lia|].
  exists s2. eexists. split; [done|]. split; [|exact Hrep]. same_store Hs2. cbn [stored].
  rewrite fmap_insert, Htot. apply map_eq. intros k. rewrite !lookup_insert.
  repeat case_decide; subst; try done. do 2 f_equal. lia.
Qed.

(** Replacing the parts of a node that the weight does not depend on. *)
Lemma update_node_spec r s d m nodes ids n n' : named s (<[r_name r:=m]> d) -> role_rep r m nodes ids ->
  nodes !! NodeID n = Some n -> NodeID n' = NodeID n -> Weight n' = Weight n -> node_ok n' ->
  exists s' m', st_Update (r_name r) (NodeID n') (Marshal j_NodeInfo n') s = Ok (s', inr tt)
  /\ named s' (<[r_name r:=m']> d) /\ role_rep r m' (<[NodeID n:=n']> nodes) ids.
Proof.
  intros Hs Hr Hn Hid Hw Hok. pose proof (rr_total _ _ _ _ Hr) as Ht.
  destruct (rr_node _ _ _ _ Hr _ _ Hn) as (_ & _ & Hid0 & Hid1 & Hid2).
  assert (Htot : total (<[NodeID n:=n']> nodes) = total nodes).
  { unfold total. rewrite msum_update, Hw. symmetry. by apply msum_delete. }
  destruct (rr_map _ _ _ _ Hr) as (started & -> & Hst).
  destruct (rep_replace r started nodes ids n n' Hr Hn Hid Hok) as [-> Hrep]; [lia|].
  destruct (at_Update s d (r_name r) _ (NodeID n') (Marshal j_NodeInfo n') Hs) as (s1 & E1 & Hs1); [by rewrite Hid|].
  exists s1. eexists. split; [done|]. split; [|exact Hrep]. same_store Hs1. cbn [stored].
  rewrite fmap_insert, Htot, Hid. apply map_eq. intros k. rewrite !lookup_insert. by repeat case_decide; subst.
Qed.

Lemma remove_spec r s d m nodes ids n : named s (<[r_name r:=m]> d) -> role_rep r m nodes ids ->
  nodes !! NodeID n = Some n ->
  exists s' m', remove r (NodeID n) s = Ok (s', inr tt) /\ named s' (<[r_name r:=m']> d)
  /\ role_rep r m' (delete (NodeID n) nodes) (filter (fun x => x <> NodeID n) ids).
Proof.
  intros Hs Hr Hn. pose proof (rr_total _ _ _ _ Hr) as Ht. pose proof (rr_utf8 _ _ _ _ Hr) as Hu.
  destruct (rr_role _ _ _ _ Hr) as (Hrn & Hri & Hrw & Hne).
  destruct (rr_node _ _ _ _ Hr _ _ Hn) as (_ & Hok & Hid). pose proof Hid as (Hid0 & Hid1 & Hid2).
  assert (Hsplit : total nodes = Weight n + total (delete (NodeID n) nodes)) by (by apply msum_delete).
  assert (Hrest : 0 <= total (delete (NodeID n) nodes)).
  { apply msum_nonneg. intros i x [_ Hx]%lookup_delete_Some.
    destruct (rr_node _ _ _ _ Hr i x Hx) as (_ & (_ & _ & H & _) & _). lia. }
  assert (Hwn : 0 <= Weight n) by (destruct Hok as (_ & _ & H & _); lia).
  assert (Hrep : role_rep r (stored r true (delete (NodeID n) nodes) (filter (fun x => x <> NodeID n) ids))
    (delete (NodeID n) nodes) (filter (fun x => x <> NodeID n) ids)).
  { destruct Hr as [_ Hnode Hnd Hids _ _]. split; [done| | | |lia|by exists true].
    - intros id x [_ Hx]%lookup_delete_Some. by apply Hnode.
    - by apply NoDup_filter.
    - intros id. rewrite list_elem_of_filter, Hids, lookup_delete_is_Some. naive_solver. }
  destruct (rr_map _ _ _ _ Hr) as (started & -> & Hst).
  assert (started = true) as ->.
  { destruct started; [done|]. destruct (Hst eq_refl) as [-> _]. by rewrite lookup_empty in Hn. }
  unfold remove, Get. rewrite (getNode_spec s d (r_name r) _ (NodeID n) (Some n) Hs Hid0
    ltac:(by rewrite stored_node, Hn) Hok).
  unfold removeNode. destruct (at_Delete s d (r_name r) _ (NodeID n) Hs Hid0) as (s1 & E1 & Hs1).
  rewrite (run_bind _ _ _ _ _ E1), (run_bind _ _ _ _ _ (at_Exists s1 d _ _ (r_ids r) Hs1 Hri)).
  rewrite lookup_delete_ne, stored_ids, bool_decide_true by (done || by eexists).
  destruct (updateTotalIDs_spec s1 d (r_name r) _ (r_ids r) (NodeID n) true ids Hs1 Hri) as (s2 & E2 & Hs2);
    [by rewrite lookup_delete_ne, stored_ids|done|].
  rewrite (run_bind _ _ _ _ _ E2), (run_bind _ _ _ _ _ (at_Exists s2 d _ _ (r_weight r) Hs2 Hrw)).
  rewrite lookup_insert_ne, lookup_delete_ne, stored_weight, bool_decide_true by (done || by eexists || by split_and!).
  assert (Hneg : i64 (u64 (- Weight n)) = - Weight n).
  { pose proof (u64_i64_add 0 (- Weight n)) as H. unfold i64, u64 in *.
    destruct (decide (Weight n = 0)) as [-> | Hnz]; [done|].
    replace (- Weight n) with (2 ^ 64 - Weight n + (-1) * 2 ^ 64) at 1 by lia.
    rewrite Z.mod_add, (Z.mod_small (2 ^ 64 - Weight n)) by lia.
    replace (2 ^ 64 - Weight n + 2 ^ 63) with (2 ^ 63 - Weight n + 1 * 2 ^ 64) by lia.
    rewrite Z.mod_add, Z.mod_small by lia. lia. }
  rewrite Hneg.
  destruct (updateTotalWeight_spec s2 d (r_name r) _ (r_weight r) (total nodes) (- Weight n) Hs2 Hrw)
    as (s3 & E3 & Hs3); [rewrite lookup_insert_ne, lookup_delete_ne by done; apply stored_weight; by split_and!|lia|lia|].
  exists s3. eexists. split; [done|]. split; [|exact Hrep]. same_store Hs3. cbn [stored].
  rewrite fmap_delete. apply map_eq. intros k. rewrite !lookup_insert, !lookup_delete, !lookup_insert.
  repeat case_decide; subst; try done. do 2 f_equal. lia.
Qed.

(** ** Reading *)

Lemma GetIDs_spec r s d m nodes ids : named s d -> d !! r_name r = Some m -> role_rep r m nodes ids ->
  GetIDs r s = Ok (s, inr (nonnil ids)).
Proof.
  intros Hs Hm Hr. destruct (rr_role _ _ _ _ Hr) as (Hrn & Hri & Hrw & Hne). unfold GetIDs.
  assert (Hget : (if r_proof r then st_GetState (r_name r) (r_ids r) else st_Get (r_name r) (r_ids r)) s
    = Ok (s, inr (m !! r_ids r))).
  { destruct (r_proof r); [by eapply run_GetState|by eapply run_Get]. }
  rewrite (run_bind _ _ _ _ _ Hget). pose proof (rr_utf8 _ _ _ _ Hr) as Hu.
  destruct (rr_map _ _ _ _ Hr) as ([] & -> & Hst).
  - rewrite stored_ids. by apply run_ids.
  - destruct (Hst eq_refl) as [_ ->]. cbn [stored]. by rewrite lookup_empty.
Qed.

Lemma GetTotal_spec r s d m nodes ids : named s d -> d !! r_name r = Some m -> role_rep r m nodes ids ->
  GetTotal r s = Ok (s, inr (total nodes)).
Proof.
  intros Hs Hm Hr. pose proof (rr_role _ _ _ _ Hr) as Hro. unfold GetTotal.
  rewrite (run_bind _ _ _ _ _ (run_Get s d (r_name r) m (r_weight r) Hs Hm ltac:(apply Hro))).
  pose proof (role_total_nonneg _ _ _ _ Hr) as H0. pose proof (rr_total _ _ _ _ Hr) as H1.
  destruct (rr_map _ _ _ _ Hr) as ([] & -> & Hst).
  - rewrite stored_weight by done. apply big_endian_spec. unfold is_u64. lia.
  - destruct (Hst eq_refl) as [-> _]. cbn [stored]. rewrite lookup_empty. unfold total. by rewrite msum_empty.
Qed.

Lemma Get_spec r s d m nodes ids id : named s d -> d !! r_name r = Some m -> role_rep r m nodes ids -> id_ok r id ->
  Get r id s = Ok (s, inr (nodes !! id)).
Proof.
  intros Hs Hm Hr Hid. unfold Get. apply (getNode_spec s d _ m); [by apply named_at|apply Hid| |].
  - by apply (rep_lookup r m nodes ids).
  - destruct (nodes !! id) as [n|] eqn:E; [|done]. by destruct (rr_node _ _ _ _ Hr id n E) as (_ & ? & _).
Qed.

(** The loop over the stored pairs keeps the nodes and drops the two
    bookkeeping entries. *)
Lemma nodes_loop_spec (r : role) (nodes : gmap bytes NodeInfo) (l : list (bytes * bytes)) (s : S) :
  (forall k v, (k, v) ∈ l -> k = r_ids r \/ k = r_weight r
     \/ exists n, nodes !! k = Some n /\ node_ok n /\ v = Marshal j_NodeInfo n) ->
  nodes_loop r l s
  = Ok (s, inr (omap (fun kv => if bool_decide (kv.1 = r_ids r) || bool_decide (kv.1 = r_weight r)
                                then None else nodes !! kv.1) l)).
Proof.
  induction l as [|[k v] l IH]; intros Hl; [done|]. cbn [nodes_loop omap list_omap fst].
  assert (IH' := IH ltac:(intros; apply Hl; by right)).
  destruct (bool_decide (k = r_ids r) || bool_decide (k = r_weight r)) eqn:E; [done|].
  apply orb_false_iff in E as [E1%bool_decide_eq_false_1 E2%bool_decide_eq_false_1].
  destruct (Hl k v ltac:(by left)) as [?|[?|(n & Hn & Hok & ->)]]; [done..|].
  rewrite (run_bind _ _ _ _ _ (run_unmarshal j_NodeInfo _ _ n s NodeInfo_lawful depth1 Hok)).
  rewrite (run_bind _ _ _ _ _ IH'), Hn. done.
Qed.

Lemma GetAll_spec r s d m nodes ids : named s d -> d !! r_name r = Some m -> role_rep r m nodes ids ->
  exists ns, GetAll r s = Ok (s, inr ns) /\ ns ≡ₚ (map_to_list nodes).*2.
Proof.
  intros Hs Hm Hr. unfold GetAll. rewrite (run_bind _ _ _ _ _ (run_GetAll s d (r_name r) m Hs Hm)).
  rewrite !length_fmap, Nat.eqb_refl. cbn [negb].
  assert (Hperm : sorted_items m ≡ₚ map_to_list m) by apply merge_sort_Permutation.
  rewrite zip_fst_snd, (nodes_loop_spec r nodes).
  - eexists. split; [done|]. rewrite Hperm. pose proof (rr_role _ _ _ _ Hr) as (_ & _ & _ & Hne).
    destruct (rr_map _ _ _ _ Hr) as ([] & -> & Hst).
    2:{ destruct (Hst eq_refl) as [-> _]. cbn [stored]. by rewrite !map_to_list_empty. }
    assert (Hfresh : forall k, k = r_ids r \/ k = r_weight r -> nodes !! k = None).
    { intros k Hk. destruct (nodes !! k) as [n|] eqn:E; [|done].
      destruct (rr_node _ _ _ _ Hr k n E) as (_ & _ & _ & ? & ?). naive_solver. }
    cbn [stored]. rewrite map_to_list_insert.
    2:{ rewrite lookup_insert_ne, lookup_fmap, (Hfresh (r_ids r)) by auto. done. }
    rewrite map_to_list_insert by (rewrite lookup_fmap, (Hfresh (r_weight r)) by auto; done).
    cbn [omap list_omap fst]. rewrite (bool_decide_true (r_ids r = r_ids r)) by done. cbn [orb].
    rewrite (bool_decide_true (r_weight r = r_weight r)), orb_true_r by done.
    rewrite map_to_list_fmap.
    assert (Hin : forall k n, (k, n) ∈ map_to_list nodes -> nodes !! k = Some n /\ k <> r_ids r /\ k <> r_weight r).
    { intros k n H%elem_of_map_to_list. destruct (rr_node _ _ _ _ Hr k n H) as (_ & _ & _ & ? & ?). done. }
    revert Hin. generalize (map_to_list nodes) as l. clear. induction l as [|[k n] l IH]; intros Hl; [done|].
    cbn [fmap list_fmap omap list_omap prod_map fst snd id]. destruct (Hl k n ltac:(by left)) as (-> & H1 & H2).
    rewrite !bool_decide_false by done. cbn. f_equiv. apply IH. intros. apply Hl. by right.
  - intros k v Hkv. rewrite Hperm in Hkv. apply elem_of_map_to_list in Hkv.
    destruct (rr_map _ _ _ _ Hr) as ([] & -> & Hst); cbn [stored] in Hkv; [|by rewrite lookup_empty in Hkv].
    cbn [stored] in Hkv. apply lookup_insert_Some in Hkv as [[-> _]|[_ Hkv]]; [by left|].
    apply lookup_insert_Some in Hkv as [[-> _]|[_ Hkv]]; [by right; left|]. right. right.
    apply lookup_fmap_Some in Hkv as (n & <- & Hn). exists n. split_and!; try done.
    by destruct (rr_node _ _ _ _ Hr k n Hn) as (_ & ? & _).
Qed.
End Role.

(** * The registry *)

Definition roles : list role := [executor; proposer; validator; inactive].

#[export] Instance role_eq_dec : EqDecision role.
Proof. solve_decision. Defined.

(** The store a node belongs to. *)
Definition role_of (n : NodeInfo) : option role :=
  if State n =? NodeState_Active then
    if Role n =? NodeRole_Executor then Some executor
    else if Role n =? NodeRole_Proposer then Some proposer
    else if Role n =? NodeRole_Validator then Some validator
    else None
  else if (State n =? NodeState_Standby) || (State n =? NodeState_Frozen) then Some inactive
  else None.

Definition members (r : role) (all : gmap bytes NodeInfo) : gmap bytes NodeInfo :=
  filter (fun kn => role_of kn.2 = Some r) all.

(** An id that is no bookkeeping key of any store. *)
Definition reg_id (id : bytes) : Prop := Forall (fun r => id_ok r id) roles.

Definition meta_bytes (n : NodeInfo) : bytes := Marshal j_meta (mkMeta (Role n) (State n)).

Record registry (d : gmap bytes kvmap) (all : gmap bytes NodeInfo) : Prop := {
  rg_meta : d !! StateStore_Name_Node = Some (meta_bytes <$> all);
  rg_role r : r ∈ roles -> exists m ids, d !! r_name r = Some m /\ role_rep r m (members r all) ids;
  rg_node id n : all !! id = Some n -> NodeID n = id /\ is_Some (role_of n) /\ reg_id id /\ node_ok n;
  rg_total : total all < 2 ^ 63;
}.

Lemma role_of_roles n r : role_of n = Some r -> r ∈ roles.
Proof. unfold role_of, roles. intros H. split_matches; rewrite !elem_of_cons; auto. Qed.

Lemma reg_id_ok r id : reg_id id -> r ∈ roles -> id_ok r id.
Proof. unfold reg_id. rewrite Forall_forall. auto. Qed.

Lemma reg_id_nonempty id : reg_id id -> id <> [].
Proof. intros H. by destruct (reg_id_ok executor id H ltac:(by left)). Qed.

Lemma names_distinct r r' : r ∈ roles -> r' ∈ roles ->
  r_name r <> StateStore_Name_Node /\ (r_name r = r_name r' -> r = r').
Proof.
  unfold roles. rewrite !elem_of_cons, !elem_of_nil.
  intros [-> |[-> |[-> |[-> |[]]]]] [-> |[-> |[-> |[-> |[]]]]]; split; done.
Qed.

Lemma total_filter (P : bytes * NodeInfo -> Prop) `{forall x, Decision (P x)} all :
  (forall id n, all !! id = Some n -> 0 <= Weight n) -> 0 <= total (filter P all) <= total all.
Proof.
  unfold total. induction all as [|id n all Hid IH] using map_ind; intros Hw.
  { by rewrite map_filter_empty, msum_empty. }
  assert (Hn : 0 <= Weight n) by (apply (Hw id); apply lookup_insert_eq).
  assert (IH' := IH ltac:(intros j x Hj; apply (Hw j); rewrite lookup_insert_ne; [done|intros ->; congruence])).
  rewrite msum_insert, map_filter_insert by done. case_decide.
  - rewrite msum_insert by (rewrite map_lookup_filter_None; by left). lia.
  - rewrite delete_id by done. lia.
Qed.

Lemma total_members r all : (forall id n, all !! id = Some n -> 0 <= Weight n) -> total (members r all) <= total all.
Proof. intros Hw. by apply total_filter. Qed.

Lemma meta_ok_of n : node_ok n -> meta_ok (mkMeta (Role n) (State n)).
Proof. intros (_ & _ & _ & _ & ? & ?). by split. Qed.

(** Putting a node into its store keeps the registry. *)
Lemma registry_put d all r n' m' ids' :
  registry d all -> role_of n' = Some r -> node_ok n' -> reg_id (NodeID n') ->
  (forall n, all !! NodeID n' = Some n -> role_of n = Some r) ->
  role_rep r m' (<[NodeID n':=n']> (members r all)) ids' -> total (<[NodeID n':=n']> all) < 2 ^ 63 ->
  registry (<[StateStore_Name_Node:=meta_bytes <$> <[NodeID n':=n']> all]> (<[r_name r:=m']> d)) (<[NodeID n':=n']> all).
Proof.
  intros [Hm Hr Hn _] Hr' Hok Hid Hold Hrep Htot. pose proof (role_of_roles _ _ Hr') as Hin. split.
  - apply lookup_insert_eq.
  - intros q Hq. destruct (names_distinct q r Hq Hin) as [Hqn Hqr]. rewrite lookup_insert_ne by done.
    unfold members. rewrite map_filter_insert. cbn [snd]. destruct (decide (q = r)) as [-> | Hne].
    + rewrite lookup_insert_eq, decide_True by done. eauto.
    + rewrite lookup_insert_ne by naive_solver. destruct (Hr q Hq) as (mq & iq & Hmq & Hrq).
      rewrite decide_False by congruence. exists mq, iq. split; [done|].
      rewrite map_filter_delete_not; [done|]. intros n Hn'. cbn. specialize (Hold n Hn'). congruence.
  - intros id n [[<- <-]|[_ Hx]]%lookup_insert_Some; [by rewrite Hr'; eauto|by apply Hn].
  - done.
Qed.

Section Registry.
Context {S : Type} `{!IStateStore S, !StateStoreLaws S}.
Abbreviation cmd := (cmd S state_error).

Lemma by_role_eq {A} id n r (f : RoleState S -> cmd A) : role_of n = Some r ->
  by_role id (Role n) (State n) f = f (methods r).
Proof. unfold role_of, by_role. intros H. split_matches; done. Qed.

Lemma by_meta_eq {A} s d all id (missing : A) (f : RoleState S -> cmd A) :
  named s d -> registry d all -> id <> [] ->
  by_meta id missing f s = match all !! id with
                           | None => Ok (s, inr missing)
                           | Some n => match role_of n with Some r => f (methods r) s | None => Panic end
                           end.
Proof.
  intros Hs Hreg Hid. unfold by_meta.
  rewrite (run_bind _ _ _ _ _ (run_Get s d _ _ id Hs (rg_meta _ _ Hreg) Hid)), lookup_fmap.
  destruct (all !! id) as [n|] eqn:E; [|done]. cbn [fmap option_fmap option_map].
  destruct (rg_node _ _ Hreg id n E) as (_ & [r Hr] & _ & Hok). rewrite Hr. unfold meta_bytes.
  rewrite (run_bind _ _ _ _ _ (run_unmarshal j_meta _ _ _ s meta_lawful depth1 (meta_ok_of n Hok))).
  cbn [meta_Role meta_State]. by rewrite (by_role_eq id n r f Hr).
Qed.

(** The operations of the registry, and what they mean on a map. *)
Inductive reg_op :=
| OpAdd (n : NodeInfo)
| OpWeight (id : bytes) (w : Z)
| OpPubKey (id key : bytes)
| OpPriShare (id : bytes) (share : option bytes).

Definition run_op (o : reg_op) : cmd unit :=
  match o with
  | OpAdd n => AddNode (Some n)
  | OpWeight id w => UpdateWeight id w
  | OpPubKey id key => UpdateDKGPartPubKey id key
  | OpPriShare id share => UpdateDKGPriShare id share
  end.

Definition set_weight (w : Z) (n : NodeInfo) : NodeInfo :=
  mkNodeInfo (NodeID n) (Address n) w (DKGPartPubKey n) (DKGPriShare n) (Role n) (State n).

Definition set_key (key : bytes) (n : NodeInfo) : NodeInfo :=
  mkNodeInfo (NodeID n) (Address n) (Weight n) key (DKGPriShare n) (Role n) (State n).

Definition set_share (share : option bytes) (n : NodeInfo) : NodeInfo :=
  mkNodeInfo (NodeID n) (Address n) (Weight n) (DKGPartPubKey n) share (Role n) (State n).

Definition spec_op (all : gmap bytes NodeInfo) (o : reg_op) : gmap bytes NodeInfo :=
  match o with
  | OpAdd n => <[NodeID n:=n]> all
  | OpWeight id w => alter (set_weight w) id all
  | OpPubKey id key => alter (set_key key) id all
  | OpPriShare id share => alter (set_share share) id all
  end.

(** Only new ids are added; texts are texts; the weights stay in range. *)
Definition op_ok (all : gmap bytes NodeInfo) (o : reg_op) : Prop :=
  total (spec_op all o) < 2 ^ 63
  /\ match o with
     | OpAdd n => all !! NodeID n = None /\ node_ok n /\ is_Some (role_of n) /\ reg_id (NodeID n)
     | OpWeight id w => id <> [] /\ is_u64 w
     | OpPubKey id key => id <> [] /\ utf8 key
     | OpPriShare id _ => id <> []
     end.

Lemma weights_nonneg d all id n : registry d all -> all !! id = Some n -> 0 <= Weight n.
Proof. intros Hreg Hn. destruct (rg_node _ _ Hreg id n Hn) as (_ & _ & _ & _ & _ & H & _). lia. Qed.

(** A change of one node that keeps its id, role and state, done by its role's
    store, is the change on the map. *)
Lemma update_step (s : S) d all id (g : NodeInfo -> NodeInfo) (f : RoleState S -> cmd unit) :
  named s d -> registry d all -> id <> [] -> total (alter g id all) < 2 ^ 63 ->
  (forall n, all !! id = Some n -> node_ok n -> NodeID (g n) = NodeID n /\ Role (g n) = Role n
     /\ State (g n) = State n /\ node_ok (g n)) ->
  (forall n r m ids, all !! id = Some n -> named s (<[r_name r:=m]> d) -> role_rep r m (members r all) ids ->
     r ∈ roles -> members r all !! NodeID n = Some n ->
     exists s' m' ids', f (methods r) s = Ok (s', inr tt) /\ named s' (<[r_name r:=m']> d)
       /\ role_rep r m' (<[NodeID n:=g n]> (members r all)) ids') ->
  exists s' d', by_meta id tt f s = Ok (s', inr tt) /\ named s' d' /\ registry d' (alter g id all).
Proof.
  intros Hs Hreg Hid Htot Hg Hf. rewrite (by_meta_eq s d all id tt f Hs Hreg Hid).
  destruct (all !! id) as [n|] eqn:En.
  2:{ exists s, d. split; [done|]. split; [done|]. rewrite alter_id by (intros; congruence). done. }
  destruct (rg_node _ _ Hreg id n En) as (Eid & [r Hr] & Hrid & Hok). rewrite Hr.
  pose proof (role_of_roles _ _ Hr) as Hin. destruct (rg_role _ _ Hreg r Hin) as (m & ids & Hm & Hrep).
  destruct (Hg n eq_refl Hok) as (Eg & ERg & ESg & Hokg).
  assert (Emem : members r all !! NodeID n = Some n).
  { unfold members. rewrite map_lookup_filter_Some. by rewrite Eid. }
  destruct (Hf n r m ids eq_refl (named_at s d _ m Hs Hm) Hrep Hin Emem) as (s' & m' & ids' & E & Hs' & Hrep').
  assert (Halter : alter g id all = <[NodeID (g n):=g n]> all).
  { apply map_eq. intros k. rewrite Eg, Eid. destruct (decide (k = id)) as [-> | Hne].
    - by rewrite lookup_alter_eq, En, lookup_insert_eq.
    - by rewrite lookup_alter_ne, lookup_insert_ne. }
  rewrite Halter in *. exists s'. eexists. split; [done|]. split; [exact Hs'|].
  assert (Hreg' : registry (<[StateStore_Name_Node:=meta_bytes <$> <[NodeID (g n):=g n]> all]> (<[r_name r:=m']> d))
    (<[NodeID (g n):=g n]> all)).
  { apply (registry_put d all r (g n) m' ids'); try done.
    - unfold role_of. by rewrite ERg, ESg.
    - rewrite Eg. congruence.
    - rewrite Eg, Eid, En. by intros ? [= <-].
    - by rewrite Eg. }
  revert Hreg'. rewrite insert_id; [done|].
  destruct (names_distinct r r Hin Hin) as [Hne _]. rewrite lookup_insert_ne by done.
  rewrite (rg_meta _ _ Hreg). f_equal. rewrite fmap_insert, insert_id; [done|].
  rewrite lookup_fmap, Eg, Eid, En. cbn. unfold meta_bytes. by rewrite ERg, ESg.
Qed.

Lemma op_step (s : S) d all o : named s d -> registry d all -> op_ok all o ->
  exists s' d', run_op o s = Ok (s', inr tt) /\ named s' d' /\ registry d' (spec_op all o).
Proof.
  intros Hs Hreg [Htot Ho]. destruct o as [n|id w|id key|id share]; cbn [run_op spec_op] in *.
  - destruct Ho as (Hnew & Hok & [r Hr] & Hid). unfold AddNode. rewrite (by_role_eq _ n r) by done.
    pose proof (role_of_roles _ _ Hr) as Hin. destruct (rg_role _ _ Hreg r Hin) as (m & ids & Hm & Hrep).
    destruct (add_spec r s d m (members r all) ids n (named_at s d _ m Hs Hm) Hrep Hok (reg_id_ok r _ Hid Hin))
      as (s1 & m1 & E1 & Hs1 & Hrep1).
    { unfold members. rewrite map_lookup_filter_None. by left. }
    { pose proof (total_members r all (fun i x => weights_nonneg d all i x Hreg)).
      unfold total in *. rewrite msum_insert in Htot by done. lia. }
    change (rs_add S (methods r) (Some n)) with (add r (Some n)). rewrite (run_bind _ _ _ _ _ E1).
    destruct (names_distinct r r Hin Hin) as [Hne _].
    destruct (run_Put s1 (<[r_name r:=m1]> d) StateStore_Name_Node (meta_bytes <$> all) (NodeID n)
      (Marshal j_meta (mkMeta (Role n) (State n))) Hs1) as (s2 & E2 & Hs2).
    { rewrite lookup_insert_ne by done. apply Hreg. }
    { by apply reg_id_nonempty. }
    exists s2. eexists. split; [done|]. split; [exact Hs2|].
    change (Marshal j_meta (mkMeta (Role n) (State n))) with (meta_bytes n). rewrite <- fmap_insert.
    apply (registry_put d all r n m1 (ids ++ [NodeID n])); try done. intros x Hx. congruence.
  - destruct Ho as [Hid Hw]. apply (update_step s d); try done.
    + intros n Hn (? & ? & ? & ? & ? & ?). cbn. unfold node_ok, is_u64 in *. cbn. split_and!; done || lia.
    + intros n r m ids Hn Hs1 Hrep Hin Hmem.
      assert (Eid : NodeID n = id) by (by destruct (rg_node _ _ Hreg id n Hn)).
      destruct (updWeight_spec r s d m (members r all) ids n w Hs1 Hrep Hmem) as (s' & m' & E & Hs' & Hrep').
      { unfold is_u64 in Hw. lia. }
      { pose proof (total_members r all (fun i x => weights_nonneg d all i x Hreg)) as Hle.
        assert (Hall : total (alter (set_weight w) id all) = total all - Weight n + w).
        { replace (alter (set_weight w) id all) with (<[id:=set_weight w n]> all).
          - unfold total. rewrite msum_update, (msum_delete Weight all id n Hn). cbn [set_weight Weight]. lia.
          - apply map_eq. intros k. destruct (decide (k = id)) as [-> |]; [by rewrite lookup_alter_eq, Hn, lookup_insert_eq|].
            by rewrite lookup_alter_ne, lookup_insert_ne. }
        lia. }
      exists s', m', ids. cbn [rs_updateWeight methods]. rewrite <- Eid. done.
  - destruct Ho as [Hid Hk]. apply (update_step s d); try done.
    + intros n Hn (? & ? & ? & ? & ? & ?). cbn. unfold node_ok. cbn. split_and!; done || lia.
    + intros n r m ids Hn Hs1 Hrep Hin Hmem.
      destruct (rg_node _ _ Hreg id n Hn) as (Eid & _ & Hrid & Hok).
      destruct (update_node_spec r s d m (members r all) ids n (set_key key n) Hs1 Hrep Hmem) as (s' & m' & E & Hs' & Hrep');
        [done|done|destruct Hok as (? & ? & ? & ? & ? & ?); unfold node_ok; cbn; split_and!; done || lia|].
      exists s', m', ids. cbn [rs_updateDKGPartPubKey methods]. unfold updPartPubKey, updateDKGPartPubKey.
      rewrite (run_bind _ _ _ _ _ (getNode_spec s d (r_name r) m id (Some n) Hs1 Hid
        ltac:(rewrite (rep_lookup r m _ _ id Hrep (reg_id_ok r id Hrid Hin)), <- Eid, Hmem; done) Hok)).
      done.
  - apply (update_step s d); try done.
    intros n r m ids Hn Hs1 Hrep Hin Hmem.
    destruct (rg_node _ _ Hreg id n Hn) as (Eid & _ & Hrid & Hok).
      destruct (update_node_spec r s d m (members r all) ids n (set_share share n) Hs1 Hrep Hmem) as (s' & m' & E & Hs' & Hrep');
        [done|done|destruct Hok as (? & ? & ? & ? & ? & ?); unfold node_ok; cbn; split_and!; done || lia|].
      exists s', m', ids. cbn [rs_updateDKGPriShare methods]. unfold updPriShare, updateDKGPriShare.
      rewrite (run_bind _ _ _ _ _ (getNode_spec s d (r_name r) m id (Some n) Hs1 Ho
        ltac:(rewrite (rep_lookup r m _ _ id Hrep (reg_id_ok r id Hrid Hin)), <- Eid, Hmem; done) Hok)).
      done.
Qed.

Fixpoint run_ops (os : list reg_op) : cmd unit :=
  match os with
  | [] => mret tt
  | o :: os' => _ ← run_op o; run_ops os'
  end.

Fixpoint ops_ok (all : gmap bytes NodeInfo) (os : list reg_op) : Prop :=
  match os with
  | [] => True
  | o :: os' => op_ok all o /\ ops_ok (spec_op all o) os'
  end.

Lemma ops_step os (s : S) d all : named s d -> registry d all -> ops_ok all os ->
  exists s' d', run_ops os s = Ok (s', inr tt) /\ named s' d' /\ registry d' (foldl spec_op all os).
Proof.
  revert s d all. induction os as [|o os IH]; intros s d all Hs Hreg Hok; [by exists s, d|].
  destruct Hok as [Ho Hos]. destruct (op_step s d all o Hs Hreg Ho) as (s1 & d1 & E1 & Hs1 & Hreg1).
  destruct (IH s1 d1 _ Hs1 Hreg1 Hos) as (s2 & d2 & E2 & Hs2 & Hreg2).
  exists s2, d2. cbn [run_ops foldl]. by rewrite (run_bind _ _ _ _ _ E1).
Qed.

(** ** Reading the registry *)

Definition is_active (n : NodeInfo) : bool := State n =? NodeState_Active.

Lemma active_split all : (forall id n, all !! id = Some n -> is_Some (role_of n)) ->
  total (filter (fun kn => is_active kn.2 = true) all)
  = total (members executor all) + total (members proposer all) + total (members validator all).
Proof.
  unfold total, members. induction all as [|id n all Hid IH] using map_ind; intros Hr.
  { rewrite !map_filter_empty. by rewrite msum_empty. }
  assert (IH' := IH ltac:(intros j x Hj; apply (Hr j); rewrite lookup_insert_ne; [done|intros ->; congruence])).
  destruct (Hr id n (lookup_insert_eq _ _ _)) as [r Er].
  rewrite !map_filter_insert, !delete_id by done. cbn [snd].
  assert (Hfresh : forall P `{forall x, Decision (P x)}, filter P all !! id = None).
  { intros P HP. rewrite map_lookup_filter_None. by left. }
  assert (Hc : (is_active n = true /\ (r = executor \/ r = proposer \/ r = validator))
    \/ (is_active n = false /\ r = inactive)).
  { revert Er. unfold is_active, role_of. intros Er. split_matches; auto. }
  rewrite Er. destruct Hc as [[-> [-> | [-> | ->]]]|[-> ->]];
    repeat match goal with |- context [decide (?a = ?b)] =>
      first [rewrite (decide_True (P := a = b)) by done | rewrite (decide_False (P := a = b)) by done] end;
    rewrite ?msum_insert by apply Hfresh; lia.
Qed.

Lemma role_keys r s d all : named s d -> registry d all -> r ∈ roles ->
  exists ids, GetIDs r s = Ok (s, inr (nonnil ids)) /\ ids ≡ₚ (map_to_list (members r all)).*1.
Proof.
  intros Hs Hreg Hin. destruct (rg_role _ _ Hreg r Hin) as (m & ids & Hm & Hrep). exists ids.
  split; [by apply (GetIDs_spec r s d m (members r all))|].
  apply NoDup_Permutation; [apply Hrep|apply NoDup_fst_map_to_list|].
  intros id. rewrite (rr_ids _ _ _ _ Hrep), list_elem_of_fmap. split.
  - intros [n Hn]. exists (id, n). by rewrite elem_of_map_to_list.
  - intros ([k n] & -> & Hn%elem_of_map_to_list). by exists n.
Qed.

(** The ids of the four stores together are the ids of the registry. *)
Lemma all_keys all (ids : role -> list bytes) : (forall id n, all !! id = Some n -> is_Some (role_of n)) ->
  (forall r, r ∈ roles -> ids r ≡ₚ (map_to_list (members r all)).*1) ->
  ids executor ++ ids proposer ++ ids validator ++ ids inactive ≡ₚ (map_to_list all).*1.
Proof.
  intros Hr Hids.
  assert (Hin : forall r id, r ∈ roles -> id ∈ ids r <-> exists n, all !! id = Some n /\ role_of n = Some r).
  { intros r id H. rewrite (Hids r H), list_elem_of_fmap. split.
    - intros ([k n] & -> & Hn). apply elem_of_map_to_list, map_lookup_filter_Some in Hn. naive_solver.
    - intros (n & Hn & Er). exists (id, n). split; [done|]. by apply elem_of_map_to_list, map_lookup_filter_Some. }
  assert (Hnd : forall r, r ∈ roles -> NoDup (ids r)).
  { intros r H. rewrite (Hids r H). apply NoDup_fst_map_to_list. }
  assert (Hdisj : forall r r' id, r ∈ roles -> r' ∈ roles -> id ∈ ids r -> id ∈ ids r' -> r = r').
  { intros r r' id H H' Hi Hi'. apply Hin in Hi as (n & Hn & E), Hi' as (n' & Hn' & E'); [|done..]. congruence. }
  assert (E1 : executor ∈ roles) by (unfold roles; rewrite !elem_of_cons; auto).
  assert (E2 : proposer ∈ roles) by (unfold roles; rewrite !elem_of_cons; auto).
  assert (E3 : validator ∈ roles) by (unfold roles; rewrite !elem_of_cons; auto).
  assert (E4 : inactive ∈ roles) by (unfold roles; rewrite !elem_of_cons; auto).
  apply NoDup_Permutation; [|apply NoDup_fst_map_to_list|].
  - rewrite !NoDup_app. split_and!; auto; intros id Hi; rewrite ?elem_of_app; intros Hj.
    all: repeat match goal with H : _ \/ _ |- _ => destruct H as [H|H] end.
    all: first [ discriminate (Hdisj _ _ id E1 E2 Hi Hj) | discriminate (Hdisj _ _ id E1 E3 Hi Hj)
               | discriminate (Hdisj _ _ id E1 E4 Hi Hj) | discriminate (Hdisj _ _ id E2 E3 Hi Hj)
               | discriminate (Hdisj _ _ id E2 E4 Hi Hj) | discriminate (Hdisj _ _ id E3 E4 Hi Hj) ].
  - intros id. rewrite !elem_of_app, !Hin, list_elem_of_fmap by done. split.
    + intros Hx. assert (Hn : exists n, all !! id = Some n) by naive_solver. destruct Hn as [n Hn].
      exists (id, n). by rewrite elem_of_map_to_list.
    + intros ([k n] & -> & Hn%elem_of_map_to_list). cbn [fst]. destruct (Hr k n Hn) as [r Er].
      pose proof (role_of_roles n r Er) as Hro. unfold roles in Hro. rewrite !elem_of_cons, elem_of_nil in Hro.
      naive_solver.
Qed.

(** C3. The node registry is a finite map: after any sequence of additions of
    new ids and updates of weights, keys and shares, every call succeeds,
    [GetNode] reads the map, the ids of each role and of all roles are those
    of the map without repetition, [GetAll] lists a role's nodes, and the
    total weights are the sums over the map. *)
Theorem node_registry_refines (s : S) (d : gmap bytes kvmap) (all : gmap bytes NodeInfo) (os : list reg_op) :
  named s d -> registry d all -> ops_ok all os ->
  exists s', run_ops os s = Ok (s', inr tt) /\
  let all' := foldl spec_op all os in
  (forall id, reg_id id -> GetNode id s' = Ok (s', inr (all' !! id)))
  /\ (exists ids, GetAllConsensusNodeIDs s' = Ok (s', inr ids) /\ ids ≡ₚ (map_to_list all').*1)
  /\ GetTotalWeight s' = Ok (s', inr (total (filter (fun kn => is_active kn.2 = true) all')))
  /\ forall r, r ∈ roles ->
     (exists ids, GetIDs r s' = Ok (s', inr (nonnil ids)) /\ ids ≡ₚ (map_to_list (members r all')).*1)
     /\ GetTotal r s' = Ok (s', inr (total (members r all')))
     /\ exists ns, GetAll r s' = Ok (s', inr ns) /\ ns ≡ₚ (map_to_list (members r all')).*2.
Proof.
  intros Hs Hreg Hok. destruct (ops_step os s d all Hs Hreg Hok) as (s' & d' & E & Hs' & Hreg').
  exists s'. split; [done|]. cbv zeta. generalize dependent (foldl spec_op all os). clear -Hs'. intros all Hreg.
  assert (Hrole : forall id n, all !! id = Some n -> is_Some (role_of n)).
  { intros id n Hn. by destruct (rg_node _ _ Hreg id n Hn) as (_ & ? & _). }
  assert (Hin : executor ∈ roles /\ proposer ∈ roles /\ validator ∈ roles /\ inactive ∈ roles).
  { unfold roles. rewrite !elem_of_cons. auto 10. }
  destruct Hin as (I1 & I2 & I3 & I4).
  assert (Htot : forall r, r ∈ roles -> GetTotal r s' = Ok (s', inr (total (members r all)))
    /\ 0 <= total (members r all) /\ total (members r all) <= total all).
  { intros r Hr. destruct (rg_role _ _ Hreg r Hr) as (m & ids & Hm & Hrep). split_and!.
    - by apply (GetTotal_spec r s' d' m _ ids).
    - by apply (role_total_nonneg r m _ ids).
    - apply total_members. intros i x. by apply (weights_nonneg d' all i x). }
  split_and!.
  - intros id Hid. unfold GetNode. rewrite (by_meta_eq s' d' all id) by (done || by apply reg_id_nonempty).
    destruct (all !! id) as [n|] eqn:En; [|done]. destruct (Hrole id n En) as [r Hr]. rewrite Hr.
    pose proof (role_of_roles n r Hr) as Hri. destruct (rg_role _ _ Hreg r Hri) as (m & ids & Hm & Hrep).
    change (rs_Get S (methods r) id s') with (Get r id s').
    rewrite (Get_spec r s' d' m (members r all) ids id) by (done || by apply reg_id_ok). do 2 f_equal. f_equal.
    unfold members. by apply map_lookup_filter_Some.
  - assert (Hk : exists ids, forall r, r ∈ roles -> GetIDs r s' = Ok (s', inr (nonnil (ids r)))
      /\ ids r ≡ₚ (map_to_list (members r all)).*1).
    { exists (fun r => match GetIDs r s' with Ok (_, inr o) => default [] o | _ => [] end).
      intros r Hr. destruct (role_keys r s' d' all Hs' Hreg Hr) as (l & E & Hl). rewrite E, default_nonnil. done. }
    destruct Hk as [ids Hids]. exists (ids executor ++ ids proposer ++ ids validator ++ ids inactive). split.
    + unfold GetAllConsensusNodeIDs. cbn [NodeExecutorState NodeProposerState NodeValidatorState NodeInactiveState methods rs_IDs].
      rewrite (run_bind _ _ _ _ _ (proj1 (Hids executor I1))), (run_bind _ _ _ _ _ (proj1 (Hids proposer I2))),
        (run_bind _ _ _ _ _ (proj1 (Hids validator I3))), (run_bind _ _ _ _ _ (proj1 (Hids inactive I4))).
      by rewrite !default_nonnil.
    + apply all_keys; [done|]. intros r Hr. by apply Hids.
  - unfold GetTotalWeight. cbn [NodeExecutorState NodeProposerState NodeValidatorState methods rs_TotalWeight].
    destruct (Htot executor I1) as (T1 & ? & ?), (Htot proposer I2) as (T2 & ? & ?), (Htot validator I3) as (T3 & ? & ?).
    rewrite (run_bind _ _ _ _ _ T1), (run_bind _ _ _ _ _ T2), (run_bind _ _ _ _ _ T3).
    rewrite <- active_split by done. unfold mret, cmd_ret. do 3 f_equal. apply u64_small.
    pose proof (rg_total _ _ Hreg).
    pose proof (total_filter (fun kn => is_active kn.2 = true) all (fun i x => weights_nonneg d' all i x Hreg)).
    unfold is_u64. lia.
  - intros r Hr. destruct (rg_role _ _ Hreg r Hr) as (m & ids & Hm & Hrep). split_and!.
    + by apply (role_keys r s' d').
    + by apply Htot.
    + by apply (GetAll_spec r s' d' m _ ids).
Qed.
End Registry.

(** * An empty registry, and runs of it *)

Lemma registry_empty : registry
  (<[StateStore_Name_Node:=∅]> (<[r_name executor:=∅]> (<[r_name proposer:=∅]>
     (<[r_name validator:=∅]> (<[r_name inactive:=∅]> ∅))))) ∅.
Proof.
  split.
  - by rewrite lookup_insert_eq, fmap_empty.
  - intros r Hr. exists ∅, []. split.
    + unfold roles in Hr. rewrite !elem_of_cons, elem_of_nil in Hr.
      destruct Hr as [-> |[-> |[-> |[-> |[]]]]];
        repeat first [rewrite lookup_insert_eq; reflexivity | rewrite lookup_insert_ne by done].
    + unfold members. rewrite map_filter_empty. split.
      * unfold roles in Hr. rewrite !elem_of_cons, elem_of_nil in Hr.
        destruct Hr as [-> |[-> |[-> |[-> |[]]]]]; vm_compute; split_and!; discriminate.
      * intros id n. by rewrite lookup_empty.
      * constructor.
      * intros id. rewrite lookup_empty, elem_of_nil. split; [done|]. by intros [].
      * unfold total. rewrite msum_empty. lia.
      * by exists false.
  - intros id n. by rewrite lookup_empty.
  - unfold total. rewrite msum_empty. lia.
Qed.

Definition alice : NodeInfo := mkNodeInfo (str "alice") (str "addr") 3 (str "k") None NodeRole_Validator NodeState_Active.

Definition empty_stores : gmap bytes kvmap :=
  <[StateStore_Name_Node:=∅]> (<[r_name executor:=∅]> (<[r_name proposer:=∅]>
     (<[r_name validator:=∅]> (<[r_name inactive:=∅]> ∅)))).

#[local] Existing Instance RefStore.ref_store.
#[local] Existing Instance RefStore.ref_store_laws.

Lemma node_registry_refines_witness :
  exists s', run_ops (S := RefStore.t) [OpAdd alice; OpWeight (str "alice") 7] empty_stores = Ok (s', inr tt)
  /\ GetNode (str "alice") s' = Ok (s', inr (Some (set_weight 7 alice))).
Proof.
  destruct (node_registry_refines (S := RefStore.t) empty_stores empty_stores ∅
    [OpAdd alice; OpWeight (str "alice") 7]) as (s' & E & Hget & _).
  - reflexivity.
  - exact registry_empty.
  - assert (Hid : reg_id (str "alice")).
    { repeat apply List.Forall_cons; try apply List.Forall_nil; (split; [|split]); discriminate. }
    split; [split; [vm_compute; reflexivity|]|split; [|exact I]].
    + split; [reflexivity|]. split; [|split; [by eexists|exact Hid]].
      split_and!; try reflexivity; vm_compute; intuition discriminate.
    + split; [vm_compute; reflexivity|]. split; [discriminate|]. unfold is_u64. lia.
  - exists s'. split; [exact E|]. rewrite Hget.
    + reflexivity.
    + repeat apply List.Forall_cons; try apply List.Forall_nil; (split; [|split]); discriminate.
Defined.

(** Adding the same node twice lists it twice and counts its weight twice;
    adding it again under another role leaves it in the store of the first. *)
Lemma AddNode_twice_counts_twice :
  match (_ ← AddNode (Some alice); _ ← AddNode (Some alice);
         ids ← GetIDs validator; w ← GetTotalWeight; mret (ids, w)) empty_stores with
  | Ok (_, inr (ids, w)) => ids = Some [str "alice"; str "alice"] /\ w = 6
  | _ => False
  end.
Proof. vm_compute. split; reflexivity. Qed.

Lemma AddNode_new_role_keeps_old :
  let frozen := mkNodeInfo (str "alice") (str "addr") 3 (str "k") None NodeRole_Validator NodeState_Frozen in
  match (_ ← AddNode (Some alice); _ ← AddNode (Some frozen);
         ids ← GetIDs validator; w ← GetTotalWeight; mret (ids, w)) empty_stores with
  | Ok (_, inr (ids, w)) => ids = Some [str "alice"] /\ w = 3
  | _ => False
  end.
Proof. vm_compute. split; reflexivity. Qed.
End NodeSpec.
