(* ===== verification/StateChain.v ===== *)
(** The chain, epoch and node domain states (src/state/chain, src/state/epoch,
    src/state/domain): the latest block and its result with their process-wide
    caches, the latest epoch, and the registry of execution and consensus
    domains. *)
From Stdlib Require Import ZArith Lia Strings.Byte.
From stdpp Require Import base gmap list strings sorting.
From S2P Require Import Prelude Common Backend Wire ChainMessages TxBasic Text Json JsonCodec StateBase.
Import Util Types JsonCodec.
#[local] Open Scope Z_scope.

(** The store of a ledger, the state of the ledger, and the package-level
    caches of the process, which are keyed by ledger ids. *)
Record world (S : Type) := mkWorld {
  w_store : S;
  w_ledger : LedgerState;
  latestBlockMap : gmap bytes Block.t;
  latestBlockRSMap : gmap bytes BlockResult.t;
  latestEpochMap : gmap bytes (option EpochInfo);
}.
Arguments mkWorld {S} _ _ _ _ _.
Arguments w_store {S} _.
Arguments w_ledger {S} _.
Arguments latestBlockMap {S} _.
Arguments latestBlockRSMap {S} _.
Arguments latestEpochMap {S} _.

Section World.
Context {S : Type}.

(** A call on the store, in a world. *)
Definition on_store {A} (c : cmd S state_error A) : cmd (world S) state_error A := fun w =>
  match c (w_store w) with
  | Ok (s, r) => Ok (mkWorld s (w_ledger w) (latestBlockMap w) (latestBlockRSMap w) (latestEpochMap w), r)
  | Err e => match e with end
  | Panic => Panic
  end.

Definition modify (f : world S -> world S) : cmd (world S) state_error unit := fun w => Ok (f w, inr tt).

(** The error of a call, kept for later: [err = f()]. *)
Definition trying {A} (c : cmd (world S) state_error A) : cmd (world S) state_error (state_error + A) := fun w =>
  match c w with
  | Ok (w', r) => Ok (w', inr r)
  | Err e => match e with end
  | Panic => Panic
  end.

Definition returning {A} (r : state_error + A) : cmd (world S) state_error A := fun w => Ok (w, r).

Definition marshal_proto {M} (sc : Wire.schema M) (m : M) : cmd (world S) state_error bytes := fun w =>
  match Codec.Marshal sc m with
  | Ok b => Ok (w, inr (default [] b))
  | Err e => match e with end
  | Panic => Panic
  end.

Definition unmarshal_proto {M} (sc : Wire.schema M) (b : option bytes) : cmd (world S) state_error M := fun w =>
  match Codec.Unmarshal sc (default [] b) (Wire.s_zero sc) with
  | Ok m => Ok (w, inr m)
  | Err _ => Ok (w, inl ErrProto)
  | Panic => Panic
  end.

Definition set_blocks (f : gmap bytes Block.t -> gmap bytes Block.t) (w : world S) : world S :=
  mkWorld (w_store w) (w_ledger w) (f (latestBlockMap w)) (latestBlockRSMap w) (latestEpochMap w).

Definition set_results (f : gmap bytes BlockResult.t -> gmap bytes BlockResult.t) (w : world S) : world S :=
  mkWorld (w_store w) (w_ledger w) (latestBlockMap w) (f (latestBlockRSMap w)) (latestEpochMap w).

Definition set_epochs (f : gmap bytes (option EpochInfo) -> gmap bytes (option EpochInfo)) (w : world S) : world S :=
  mkWorld (w_store w) (w_ledger w) (latestBlockMap w) (latestBlockRSMap w) (f (latestEpochMap w)).

Definition set_ledger (l : LedgerState) (w : world S) : world S :=
  mkWorld (w_store w) l (latestBlockMap w) (latestBlockRSMap w) (latestEpochMap w).
End World.

(** * state/chain *)
Module Chain.

Definition StateStore_Name_Chain : bytes := str "chain".

Definition ChainID_Key : bytes := str "chainid".

Definition NetworkType_Key : bytes := str "networktype".

Definition LatestBlock_Key : bytes := str "latestblock".

Definition LatestBlockResult_Key : bytes := str "latestblockresult".

(** ** chain_lb.go *)

Section Cache.
Context {S : Type}.

Definition updateLatestBlock (ledgerID : bytes) (b : Block.t) : world S -> world S := set_blocks (<[ledgerID:=b]>).

Definition updateLatestBlockRS (ledgerID : bytes) (brs : BlockResult.t) : world S -> world S :=
  set_results (<[ledgerID:=brs]>).

Definition cached_block (ledgerID : bytes) : cmd (world S) state_error Block.t := fun w =>
  match latestBlockMap w !! ledgerID with Some b => Ok (w, inr b) | None => Ok (w, inl ErrNoCache) end.

Definition cached_result (ledgerID : bytes) : cmd (world S) state_error BlockResult.t := fun w =>
  match latestBlockRSMap w !! ledgerID with Some b => Ok (w, inr b) | None => Ok (w, inl ErrNoCache) end.
End Cache.

(** ** chain.go *)

(** Its state store and its ledger are those of the world. *)
Record chainState := mkChainState { ledgerID : bytes }.

Section Ops.
Context {S : Type} `{!IStateStore S}.
Abbreviation wcmd := (cmd (world S) state_error).

Definition NewChainStore (ledgerID : bytes) (s : S) (cacheSize : Z) : go (S * chainState) :=
  '(s, _) ← ss_AddNamedStateStore s StateStore_Name_Chain cacheSize; Ok (s, mkChainState ledgerID).

Definition ChainID : wcmd bytes :=
  chainIDBytes ← trying (on_store (st_Get StateStore_Name_Chain ChainID_Key));
  mret (match chainIDBytes with inr (Some b) => b | _ => [] end).

Definition NetworkType : wcmd Types.NetworkType :=
  netTypeBytes ← trying (on_store (st_Get StateStore_Name_Chain NetworkType_Key));
  match netTypeBytes with
  | inr (Some (b :: _)) => mret (b2z b)
  | inr (Some []) => crash
  | _ => mret NetworkType_Unknown
  end.

Definition GetChainRoot : wcmd bytes := on_store (st_Root StateStore_Name_Chain).

(** The block that was read becomes the cached one when there is none. *)
Definition GetLatestBlock (cs : chainState) : wcmd Block.t :=
  blockBytes ← on_store (st_Get StateStore_Name_Chain LatestBlock_Key);
  block ← unmarshal_proto Block.desc blockBytes;
  _ ← modify (set_blocks (fun m => match m !! ledgerID cs with None => <[ledgerID cs:=block]> m | Some _ => m end));
  mret block.

Definition GetLatestBlockResult (cs : chainState) : wcmd BlockResult.t :=
  blockRSBytes ← on_store (st_Get StateStore_Name_Chain LatestBlockResult_Key);
  blockRS ← unmarshal_proto BlockResult.desc blockRSBytes;
  _ ← modify (set_results (fun m => match m !! ledgerID cs with None => <[ledgerID cs:=blockRS]> m | Some _ => m end));
  mret blockRS.

Definition SetChainID (chainID : bytes) : wcmd unit :=
  cID ← ChainID;
  if bool_decide (cID <> []) then fail ErrAlreadySet
  else on_store (st_Put StateStore_Name_Chain ChainID_Key chainID).

(** The network type is written under the key of the chain id. *)
Definition SetNetworkType (netType : Types.NetworkType) : wcmd unit :=
  nType ← NetworkType;
  if negb (nType =? NetworkType_Unknown) then fail ErrAlreadySet
  else on_store (st_Put StateStore_Name_Chain ChainID_Key [z2b netType]).

Definition SetLatestBlock (cs : chainState) (block : option Block.t) : wcmd unit :=
  match block with
  | None => fail ErrNil
  | Some block =>
      blkBytes ← marshal_proto Block.desc block;
      isExist ← on_store (ignoring false (st_Exists StateStore_Name_Chain LatestBlock_Key));
      err ← trying (on_store (if isExist : bool then st_Update StateStore_Name_Chain LatestBlock_Key blkBytes
                              else st_Put StateStore_Name_Chain LatestBlock_Key blkBytes));
      _ ← match err, Block.Head block with
          | inr _, None => crash
          | inr _, Some head =>
              if BlockHead.Height head >=? 2 then modify (set_ledger LedgerState_AutoInc) else mret tt
          | inl _, _ => mret tt
          end;
      _ ← modify (updateLatestBlock (ledgerID cs) block);
      returning err
  end.

(** Whether to update is decided by the key of the block, not of the result. *)
Definition SetLatestBlockResult (cs : chainState) (blockResult : option BlockResult.t) : wcmd unit :=
  match blockResult with
  | None => fail ErrNil
  | Some blockResult =>
      blkRSBytes ← marshal_proto BlockResult.desc blockResult;
      isExist ← on_store (ignoring false (st_Exists StateStore_Name_Chain LatestBlock_Key));
      err ← trying (on_store (if isExist : bool then st_Update StateStore_Name_Chain LatestBlockResult_Key blkRSBytes
                              else st_Put StateStore_Name_Chain LatestBlockResult_Key blkRSBytes));
      _ ← modify (updateLatestBlockRS (ledgerID cs) blockResult);
      returning err
  end.
End Ops.
End Chain.

(** * state/epoch *)
Module Epoch.

Definition StateStore_Name_Epoch : bytes := str "epoch".

Definition LatestEpoch_Key : bytes := str "latestepoch".

Definition j_EpochInfo : codec EpochInfo :=
  j_struct (mkEpochInfo 0 0 0)
    [fld "Epoch" (j_uint 64) Types.Epoch (fun x e => mkEpochInfo x (StartTimeStamp e) (StartHeight e));
     fld "StartTimeStamp" (j_uint 64) StartTimeStamp (fun x e => mkEpochInfo (Types.Epoch e) x (StartHeight e));
     fld "StartHeight" (j_uint 64) StartHeight (fun x e => mkEpochInfo (Types.Epoch e) (StartTimeStamp e) x)].

(** Its state store is the one of the world. *)
Record epochState := mkEpochState { ledgerID : bytes }.

Section Ops.
Context {S : Type} `{!IStateStore S}.
Abbreviation wcmd := (cmd (world S) state_error).

Definition updateLatestEpoch (ledgerID : bytes) (eInfo : option EpochInfo) : world S -> world S :=
  set_epochs (<[ledgerID:=eInfo]>).

Definition cached_epoch (ledgerID : bytes) : wcmd (option EpochInfo) := fun w =>
  match latestEpochMap w !! ledgerID with Some e => Ok (w, inr e) | None => Ok (w, inl ErrNoCache) end.

(** The constructor is given the ledger id and does not keep it. *)
Definition NewEpochState (ledgerID : bytes) (s : S) (cacheSize : Z) : go (S * epochState) :=
  '(s, _) ← ss_AddNamedStateStore s StateStore_Name_Epoch cacheSize; Ok (s, mkEpochState []).

Definition GetEpochRoot : wcmd bytes := on_store (st_Root StateStore_Name_Epoch).

Definition GetLatestEpoch : wcmd (option EpochInfo) :=
  latestEpochBytes ← on_store (st_Get StateStore_Name_Epoch LatestEpoch_Key);
  match latestEpochBytes with
  | None => mret None
  | Some _ => e ← on_store (unmarshal j_EpochInfo latestEpochBytes); mret (Some e)
  end.

Definition SetLatestEpoch (es : epochState) (epoch : option EpochInfo) : wcmd unit :=
  let epochBytes := Marshal (j_ptr j_EpochInfo) epoch in
  isExist ← on_store (ignoring false (st_Exists StateStore_Name_Epoch LatestEpoch_Key));
  err ← trying (on_store (if isExist : bool then st_Update StateStore_Name_Epoch LatestEpoch_Key epochBytes
                          else st_Put StateStore_Name_Epoch LatestEpoch_Key epochBytes));
  _ ← modify (updateLatestEpoch (ledgerID es) epoch);
  returning err.
End Ops.
End Epoch.

(** * state/domain *)
Module Domain.

Definition StateStore_Name_NodeDomain : bytes := str "nodedomain".

Definition StateStore_Name_NodeExecuteDomain : bytes := str "nodeexecutedomain".

Definition StateStore_Name_NodeConsensusDomain : bytes := str "nodeconsensusdomain".

Definition j_Member : codec NodeDomainMember :=
  j_struct (mkNodeDomainMember [] 0 0)
    [fld "NodeID" j_string ndm_NodeID (fun x m => mkNodeDomainMember x (ndm_NodeRole m) (ndm_Weight m));
     fld "NodeRole" (j_uint 64) ndm_NodeRole (fun x m => mkNodeDomainMember (ndm_NodeID m) x (ndm_Weight m));
     fld "Weight" (j_uint 64) ndm_Weight (fun x m => mkNodeDomainMember (ndm_NodeID m) (ndm_NodeRole m) x)].

Definition j_ConsensusDomain : codec NodeConsensusDomain :=
  j_struct (mkNodeConsensusDomain 0 0 None None None)
    [fld "Threshold" (j_int 64) ncd_Threshold
       (fun x d => mkNodeConsensusDomain x (ncd_NParticipant d) (ncd_PublicKey d) (ncd_PubShares d) (ncd_Members d));
     fld "NParticipant" (j_int 64) ncd_NParticipant
       (fun x d => mkNodeConsensusDomain (ncd_Threshold d) x (ncd_PublicKey d) (ncd_PubShares d) (ncd_Members d));
     fld "PublicKey" j_bytes ncd_PublicKey
       (fun x d => mkNodeConsensusDomain (ncd_Threshold d) (ncd_NParticipant d) x (ncd_PubShares d) (ncd_Members d));
     fld "PubShares" (j_slice j_bytes) ncd_PubShares
       (fun x d => mkNodeConsensusDomain (ncd_Threshold d) (ncd_NParticipant d) (ncd_PublicKey d) x (ncd_Members d));
     fld "Members" (j_slice (j_ptr j_Member)) ncd_Members
       (fun x d => mkNodeConsensusDomain (ncd_Threshold d) (ncd_NParticipant d) (ncd_PublicKey d) (ncd_PubShares d) x)].

Definition j_ExecuteDomain : codec NodeExecuteDomain :=
  j_struct (mkNodeExecuteDomain None) [fld "Members" (j_slice j_string) ned_Members (fun x _ => mkNodeExecuteDomain x)].

Definition j_DomainInfo : codec NodeDomainInfo :=
  j_struct (mkNodeDomainInfo [] 0 0 0 None None)
    [fld "ID" j_string nd_ID
       (fun x d => mkNodeDomainInfo x (nd_Type d) (nd_ValidHeightStart d) (nd_ValidHeightEnd d) (nd_CSDomainData d) (nd_ExeDomainData d));
     fld "Type" (j_uint 8) nd_Type
       (fun x d => mkNodeDomainInfo (nd_ID d) x (nd_ValidHeightStart d) (nd_ValidHeightEnd d) (nd_CSDomainData d) (nd_ExeDomainData d));
     fld "ValidHeightStart" (j_uint 64) nd_ValidHeightStart
       (fun x d => mkNodeDomainInfo (nd_ID d) (nd_Type d) x (nd_ValidHeightEnd d) (nd_CSDomainData d) (nd_ExeDomainData d));
     fld "ValidHeightEnd" (j_uint 64) nd_ValidHeightEnd
       (fun x d => mkNodeDomainInfo (nd_ID d) (nd_Type d) (nd_ValidHeightStart d) x (nd_CSDomainData d) (nd_ExeDomainData d));
     fld "CSDomainData" (j_ptr j_ConsensusDomain) nd_CSDomainData
       (fun x d => mkNodeDomainInfo (nd_ID d) (nd_Type d) (nd_ValidHeightStart d) (nd_ValidHeightEnd d) x (nd_ExeDomainData d));
     fld "ExeDomainData" (j_ptr j_ExecuteDomain) nd_ExeDomainData
       (fun x d => mkNodeDomainInfo (nd_ID d) (nd_Type d) (nd_ValidHeightStart d) (nd_ValidHeightEnd d) (nd_CSDomainData d) x)].

Record nodeDomainStateMetaInfo := mkDomainMeta { dm_DomainType : DomainType }.

Definition j_DomainMeta : codec nodeDomainStateMetaInfo :=
  j_struct (mkDomainMeta 0) [fld "DomainType" (j_uint 8) dm_DomainType (fun x _ => mkDomainMeta x)].

Section Ops.
Context {S : Type} `{!IStateStore S}.
Abbreviation cmd := (cmd S state_error).

(** ** common.go *)

Definition isNodeDomainExist (name id : bytes) : cmd bool := ignoring false (st_Exists name id).

Definition getNodeDomain (name id : bytes) : cmd (option NodeDomainInfo) :=
  domainInfoBytes ← st_Get name id;
  match domainInfoBytes with
  | None => mret None
  | Some _ => domainInfo ← unmarshal j_DomainInfo domainInfoBytes; mret (Some domainInfo)
  end.

Definition addNodeDomain (name : bytes) (domainInfo : option NodeDomainInfo) : cmd unit :=
  match domainInfo with
  | None => fail ErrNil
  | Some d => st_Put name (nd_ID d) (Marshal j_DomainInfo d)
  end.

(** ** domain_execute.go, domain_consensus.go *)

(** The third test subtracts on [uint64], so it never fails. *)
Definition is_active (height : Z) (d : NodeDomainInfo) : bool :=
  (height >=? nd_ValidHeightStart d) && (height <? nd_ValidHeightEnd d) && (u64 (nd_ValidHeightEnd d - EpochSpan) >=? 0).

(** The callback of the iteration: entries that do not parse are skipped. *)
Definition collect_active (height : Z) (domains : list NodeDomainInfo) (_ val : bytes) : list NodeDomainInfo :=
  match Unmarshal j_DomainInfo val (zero j_DomainInfo) with
  | Ok d => if is_active height d then domains ++ [d] else domains
  | _ => domains
  end.

Definition all_active (name : bytes) (height : Z) : cmd (list NodeDomainInfo) :=
  reading (fun s => ss_IterateAllStateDataCB (collect_active height) [] s name).

Definition NewNodeExecuteDomainState (s : S) (cacheSize : Z) : go S :=
  '(s, _) ← ss_AddNamedStateStore s StateStore_Name_NodeExecuteDomain cacheSize; Ok s.

Definition GetNodeExecuteDomainRoot : cmd bytes := st_Root StateStore_Name_NodeExecuteDomain.

Definition IsExistNodeExecuteDomain (id : bytes) : cmd bool := isNodeDomainExist StateStore_Name_NodeExecuteDomain id.

Definition getNodeExecuteDomain (id : bytes) : cmd (option NodeDomainInfo) :=
  getNodeDomain StateStore_Name_NodeExecuteDomain id.

Definition GetAllActiveNodeExecuteDomains (height : Z) : cmd (list NodeDomainInfo) :=
  all_active StateStore_Name_NodeExecuteDomain height.

Definition addNodeExecuteDomain (domainInfo : option NodeDomainInfo) : cmd unit :=
  addNodeDomain StateStore_Name_NodeExecuteDomain domainInfo.

Definition NewNodeConsensusDomainState (s : S) (cacheSize : Z) : go S :=
  '(s, _) ← ss_AddNamedStateStore s StateStore_Name_NodeConsensusDomain cacheSize; Ok s.

Definition GetNodeConsensusDomainRoot : cmd bytes := st_Root StateStore_Name_NodeConsensusDomain.

Definition IsExistNodeConsensusDomain (id : bytes) : cmd bool := isNodeDomainExist StateStore_Name_NodeConsensusDomain id.

Definition getNodeConsensusDomain (id : bytes) : cmd (option NodeDomainInfo) :=
  getNodeDomain StateStore_Name_NodeConsensusDomain id.

Definition GetAllActiveNodeConsensusDomains (height : Z) : cmd (list NodeDomainInfo) :=
  all_active StateStore_Name_NodeConsensusDomain height.

Definition addNodeConsensusDomain (domainInfo : option NodeDomainInfo) : cmd unit :=
  addNodeDomain StateStore_Name_NodeConsensusDomain domainInfo.

(** ** domain.go *)

Definition NewNodeDomainState (s : S) (cacheSize : Z) : go S :=
  '(s, _) ← ss_AddNamedStateStore s StateStore_Name_NodeDomain cacheSize; Ok s.

Definition GetNodeDomainRoot : cmd bytes := st_Root StateStore_Name_NodeDomain.

Definition IsNodeDomainExist (id : bytes) : cmd bool := isNodeDomainExist StateStore_Name_NodeDomain id.

Definition GetNodeDomain (id : bytes) : cmd (option NodeDomainInfo) :=
  domainMetaInfoBytes ← st_Get StateStore_Name_NodeDomain id;
  match domainMetaInfoBytes with
  | None => mret None
  | Some _ =>
      domainMetaInfo ← unmarshal j_DomainMeta domainMetaInfoBytes;
      if dm_DomainType domainMetaInfo =? DomainType_Execute then getNodeExecuteDomain id
      else if dm_DomainType domainMetaInfo =? DomainType_Consensus then getNodeConsensusDomain id
      else fail (ErrInvalidDomainType id)
  end.

Definition GetAllActiveNodeDomains (height : Z) : cmd (list NodeDomainInfo) :=
  exeActiveNodeDomains ← GetAllActiveNodeExecuteDomains height;
  csActiveNodeDomains ← GetAllActiveNodeConsensusDomains height;
  mret (exeActiveNodeDomains ++ csActiveNodeDomains).

Definition AddNodeDomain (domainInfo : option NodeDomainInfo) : cmd unit :=
  match domainInfo with
  | None => fail ErrNil
  | Some d =>
      _ ← (if nd_Type d =? DomainType_Execute then addNodeExecuteDomain domainInfo
           else if nd_Type d =? DomainType_Consensus then addNodeConsensusDomain domainInfo
           else fail (ErrInvalidDomainType (nd_ID d)));
      st_Put StateStore_Name_NodeDomain (nd_ID d) (Marshal j_DomainMeta (mkDomainMeta (nd_Type d)))
  end.
End Ops.
End Domain.
