(* ===== verification/StateChainSpec.v ===== *)
(** Correctness of the chain, epoch and node domain states: each refines a
    small abstract state, with its caches coherent with the store. *)
From Stdlib Require Import ZArith Lia Strings.Byte.
From stdpp Require Import base gmap list strings sorting.
From S2P Require Import Prelude Common Backend Wire ChainMessages TxBasic Text Json JsonCodec StateBase StateChain.
Import Util Types JsonCodec.
#[local] Open Scope Z_scope.

(** * Calls in a world *)
Section WorldLemmas.
Context {S : Type}.

Definition with_store (w : world S) (s : S) : world S :=
  mkWorld s (w_ledger w) (latestBlockMap w) (latestBlockRSMap w) (latestEpochMap w).

Lemma with_store_id (w : world S) : with_store w (w_store w) = w.
Proof. by destruct w. Qed.

Lemma on_store_ok {A} (c : cmd S state_error A) w s r : c (w_store w) = Ok (s, r) -> on_store c w = Ok (with_store w s, r).
Proof. intros E. unfold on_store. by rewrite E. Qed.

(** A call that leaves the store alone leaves the world alone. *)
Lemma on_store_read {A} (c : cmd S state_error A) w r : c (w_store w) = Ok (w_store w, r) -> on_store c w = Ok (w, r).
Proof. intros E. rewrite (on_store_ok c w _ r E). by rewrite with_store_id. Qed.

Lemma trying_ok {A} (c : cmd (world S) state_error A) w w' r : c w = Ok (w', r) -> trying c w = Ok (w', inr r).
Proof. intros E. unfold trying. by rewrite E. Qed.

Lemma marshal_proto_ok {M} (sc : Wire.schema M) `{L : !Wire.mlaws sc} (m : M) (w : world S) : Tx.well_formed sc m ->
  marshal_proto sc m w = Ok (w, inr (Wire.enc sc L m)).
Proof. intros Hm. unfold marshal_proto. by destruct (Tx.codec_roundtrip sc m Hm) as (-> & _). Qed.

Lemma unmarshal_proto_ok {M} (sc : Wire.schema M) `{L : !Wire.mlaws sc} (m : M) (w : world S) : Tx.well_formed sc m ->
  unmarshal_proto sc (Some (Wire.enc sc L m)) w = Ok (w, inr m).
Proof.
  intros Hm. unfold unmarshal_proto. change (default [] (Some (Wire.enc sc L m))) with (Wire.enc sc L m).
  destruct (Tx.codec_roundtrip sc m Hm) as (_ & _ & H). by rewrite H.
Qed.

(** Nothing stored reads as the zero message, without an error. *)
Lemma unmarshal_proto_nil {M} (sc : Wire.schema M) (w : world S) :
  unmarshal_proto sc None w = Ok (w, inr (Wire.s_zero sc)).
Proof. reflexivity. Qed.
End WorldLemmas.

Section StoreLemmas.
Context {S : Type} `{!IStateStore S, !StateStoreLaws S}.

Lemma world_Get (w : world S) d n m k : named (w_store w) (<[n:=m]> d) -> k <> [] ->
  on_store (st_Get n k) w = Ok (w, inr (m !! k)).
Proof. intros Hs Hk. apply on_store_read. by apply (at_Get _ d n m k). Qed.

Lemma world_Exists (w : world S) d n m k : named (w_store w) (<[n:=m]> d) -> k <> [] ->
  on_store (ignoring false (st_Exists n k)) w = Ok (w, inr (bool_decide (is_Some (m !! k)))).
Proof. intros Hs Hk. apply on_store_read. by apply (at_Exists _ d n m k). Qed.

(** Both ways to write set the key. *)
Lemma world_write (w : world S) d n m k v (isExist : bool) : named (w_store w) (<[n:=m]> d) -> k <> [] ->
  exists s, on_store (if isExist then st_Update n k v else st_Put n k v) w = Ok (with_store w s, inr tt)
  /\ named s (<[n:=<[k:=v]> m]> d).
Proof.
  intros Hs Hk. destruct isExist;
    [destruct (at_Update _ d n m k v Hs Hk) as (s & E & H)|destruct (at_Put _ d n m k v Hs Hk) as (s & E & H)];
    exists s; (split; [by apply on_store_ok|done]).
Qed.

Lemma world_Put (w : world S) d n m k v : named (w_store w) (<[n:=m]> d) -> k <> [] ->
  exists s, on_store (st_Put n k v) w = Ok (with_store w s, inr tt) /\ named s (<[n:=<[k:=v]> m]> d).
Proof. exact (world_write w d n m k v false). Qed.
End StoreLemmas.

(** * The chain state *)
Module ChainSpec.
Import Chain.

(** What a chain state holds: the chain id, the latest block and its result,
    what the process has cached of them, and the state of the ledger. *)
Record chain := mkChain {
  c_id : option bytes;
  c_block : option Block.t;
  c_result : option BlockResult.t;
  c_cached : option Block.t;
  c_cached_result : option BlockResult.t;
  c_ledger : LedgerState;
}.

Inductive op :=
| OChainID
| ONetworkType
| OGetLatestBlock
| OGetLatestBlockResult
| OCachedBlock
| OCachedResult
| OSetChainID (id : bytes)
| OSetNetworkType (t : Types.NetworkType)
| OSetLatestBlock (b : Block.t)
| OSetLatestBlockResult (r : BlockResult.t).

Inductive answer :=
| ADone
| AID (id : bytes)
| ANet (t : Types.NetworkType)
| ABlock (b : Block.t)
| AResult (r : BlockResult.t).

Definition no_block : Block.t := Wire.s_zero Block.desc.

Definition no_result : BlockResult.t := Wire.s_zero BlockResult.desc.

(** A later height than the first two moves the ledger to automatic increase. *)
Definition ledger_after (b : Block.t) (l : LedgerState) : LedgerState :=
  match Block.Head b with
  | Some h => if BlockHead.Height h >=? 2 then LedgerState_AutoInc else l
  | None => l
  end.

(** The abstract operations. *)
Definition step (o : op) (c : chain) : chain * (state_error + answer) :=
  match o with
  | OChainID => (c, inr (AID (default [] (c_id c))))
  | ONetworkType => (c, inr (ANet NetworkType_Unknown))
  | OGetLatestBlock =>
      let b := default no_block (c_block c) in
      (mkChain (c_id c) (c_block c) (c_result c) (Some (default b (c_cached c))) (c_cached_result c) (c_ledger c),
       inr (ABlock b))
  | OGetLatestBlockResult =>
      let r := default no_result (c_result c) in
      (mkChain (c_id c) (c_block c) (c_result c) (c_cached c) (Some (default r (c_cached_result c))) (c_ledger c),
       inr (AResult r))
  | OCachedBlock => (c, match c_cached c with Some b => inr (ABlock b) | None => inl ErrNoCache end)
  | OCachedResult => (c, match c_cached_result c with Some r => inr (AResult r) | None => inl ErrNoCache end)
  | OSetChainID id =>
      if bool_decide (default [] (c_id c) = [])
      then (mkChain (Some id) (c_block c) (c_result c) (c_cached c) (c_cached_result c) (c_ledger c), inr ADone)
      else (c, inl ErrAlreadySet)
  | OSetNetworkType t =>
      (mkChain (Some [z2b t]) (c_block c) (c_result c) (c_cached c) (c_cached_result c) (c_ledger c), inr ADone)
  | OSetLatestBlock b =>
      (mkChain (c_id c) (Some b) (c_result c) (Some b) (c_cached_result c) (ledger_after b (c_ledger c)), inr ADone)
  | OSetLatestBlockResult r =>
      (mkChain (c_id c) (c_block c) (Some r) (c_cached c) (Some r) (c_ledger c), inr ADone)
  end.

Definition op_ok (o : op) : Prop :=
  match o with
  | OSetLatestBlock b => Tx.well_formed Block.desc b /\ is_Some (Block.Head b)
  | OSetLatestBlockResult r => Tx.well_formed BlockResult.desc r
  | _ => True
  end.

Section Refinement.
Context {S : Type} `{!IStateStore S, !StateStoreLaws S} (cs : chainState).
Abbreviation wcmd := (cmd (world S) state_error).

(** The operations of the code. *)
Definition run (o : op) : wcmd answer :=
  match o with
  | OChainID => id ← ChainID; mret (AID id)
  | ONetworkType => t ← NetworkType; mret (ANet t)
  | OGetLatestBlock => b ← GetLatestBlock cs; mret (ABlock b)
  | OGetLatestBlockResult => r ← GetLatestBlockResult cs; mret (AResult r)
  | OCachedBlock => b ← cached_block (ledgerID cs); mret (ABlock b)
  | OCachedResult => r ← cached_result (ledgerID cs); mret (AResult r)
  | OSetChainID id => _ ← SetChainID id; mret ADone
  | OSetNetworkType t => _ ← SetNetworkType t; mret ADone
  | OSetLatestBlock b => _ ← SetLatestBlock cs (Some b); mret ADone
  | OSetLatestBlockResult r => _ ← SetLatestBlockResult cs (Some r); mret ADone
  end.

(** A world that holds a chain state, beside the other named stores [d]. *)
Record chain_rep (w : world S) (d : gmap bytes kvmap) (c : chain) : Prop := {
  cr_store : exists m, named (w_store w) (<[StateStore_Name_Chain:=m]> d)
    /\ m !! ChainID_Key = c_id c /\ m !! NetworkType_Key = None
    /\ m !! LatestBlock_Key = Wire.enc Block.desc _ <$> c_block c
    /\ m !! LatestBlockResult_Key = Wire.enc BlockResult.desc _ <$> c_result c;
  cr_block b : c_block c = Some b -> Tx.well_formed Block.desc b;
  cr_result r : c_result c = Some r -> Tx.well_formed BlockResult.desc r;
  cr_cached : latestBlockMap w !! ledgerID cs = c_cached c;
  cr_cached_result : latestBlockRSMap w !! ledgerID cs = c_cached_result c;
  cr_ledger : w_ledger w = c_ledger c;
}.

Lemma ChainID_run w d c : chain_rep w d c -> ChainID w = Ok (w, inr (default [] (c_id c))).
Proof.
  intros [(m & Hm & Hid & _) _ _ _ _ _]. unfold ChainID.
  rewrite (run_bind _ _ _ _ _ (trying_ok _ _ _ _ (world_Get w d _ m ChainID_Key Hm ltac:(done)))), Hid.
  by destruct (c_id c).
Qed.

Lemma NetworkType_run w d c : chain_rep w d c -> NetworkType w = Ok (w, inr NetworkType_Unknown).
Proof.
  intros [(m & Hm & _ & Hn & _) _ _ _ _ _]. unfold NetworkType.
  by rewrite (run_bind _ _ _ _ _ (trying_ok _ _ _ _ (world_Get w d _ m NetworkType_Key Hm ltac:(done)))), Hn.
Qed.

(** Writing a key of the chain store. *)
Ltac written := repeat first [rewrite lookup_insert_eq | rewrite lookup_insert_ne by done]; try done.

Lemma refines_read o w d c : chain_rep w d c ->
  match o with OSetChainID _ | OSetNetworkType _ | OSetLatestBlock _ | OSetLatestBlockResult _ => False | _ => True end ->
  exists w', run o w = Ok (w', (step o c).2) /\ chain_rep w' d (step o c).1.
Proof.
  intros Hr Ho. pose proof Hr as [(m & Hm & Hid & Hn & Hb & Hrs) Hwb Hwr Hcb Hcr Hl].
  destruct o; try done; cbn [run step fst snd].
  - exists w. by rewrite (run_bind _ _ _ _ _ (ChainID_run w d c Hr)).
  - exists w. by rewrite (run_bind _ _ _ _ _ (NetworkType_run w d c Hr)).
  - unfold GetLatestBlock.
    exists (set_blocks (fun m => match m !! ledgerID cs with None => <[ledgerID cs:=default no_block (c_block c)]> m | Some _ => m end) w). split.
    + unfold mbind at 1, cmd_bind at 1.
      rewrite (run_bind _ _ _ _ _ (world_Get w d _ m LatestBlock_Key Hm ltac:(done))), Hb.
      rewrite (run_bind _ _ w w (default no_block (c_block c))); [reflexivity|].
      destruct (c_block c) as [b|]; [|apply unmarshal_proto_nil]. by apply unmarshal_proto_ok, Hwb.
    + split; cbn; try done; [by exists m|]. rewrite Hcb. destruct (c_cached c) as [b|] eqn:E; cbn; [by rewrite Hcb|].
      apply lookup_insert_eq.
  - unfold GetLatestBlockResult.
    exists (set_results (fun m => match m !! ledgerID cs with None => <[ledgerID cs:=default no_result (c_result c)]> m | Some _ => m end) w). split.
    + unfold mbind at 1, cmd_bind at 1.
      rewrite (run_bind _ _ _ _ _ (world_Get w d _ m LatestBlockResult_Key Hm ltac:(done))), Hrs.
      rewrite (run_bind _ _ w w (default no_result (c_result c))); [reflexivity|].
      destruct (c_result c) as [b|]; [|apply unmarshal_proto_nil]. by apply unmarshal_proto_ok, Hwr.
    + split; cbn; try done; [by exists m|]. rewrite Hcr. destruct (c_cached_result c) as [b|] eqn:E; cbn; [by rewrite Hcr|].
      apply lookup_insert_eq.
  - exists w. split; [|done]. unfold mbind, cmd_bind, cached_block. rewrite Hcb. by destruct (c_cached c).
  - exists w. split; [|done]. unfold mbind, cmd_bind, cached_result. rewrite Hcr. by destruct (c_cached_result c).
Qed.

Lemma refines_set_id id w d c : chain_rep w d c ->
  exists w', run (OSetChainID id) w = Ok (w', (step (OSetChainID id) c).2)
  /\ chain_rep w' d (step (OSetChainID id) c).1.
Proof.
  intros Hr. pose proof Hr as [(m & Hm & Hid & Hn & Hb & Hrs) Hwb Hwr Hcb Hcr Hl]. cbn [run step].
  unfold SetChainID. case_bool_decide as E.
  - destruct (world_Put w d _ m ChainID_Key id Hm ltac:(done)) as (s & Es & Hs).
    exists (with_store w s). split.
    + unfold mbind at 1, cmd_bind. rewrite (run_bind _ _ _ _ _ (ChainID_run w d c Hr)).
      rewrite bool_decide_false by (intros H; by apply H). by rewrite Es.
    + split; cbn; try done. eexists. split; [exact Hs|]. split_and!; written.
  - exists w. split; [|done]. unfold mbind at 1, cmd_bind. rewrite (run_bind _ _ _ _ _ (ChainID_run w d c Hr)).
    by rewrite bool_decide_true.
Qed.

Lemma refines_set_net t w d c : chain_rep w d c ->
  exists w', run (OSetNetworkType t) w = Ok (w', (step (OSetNetworkType t) c).2)
  /\ chain_rep w' d (step (OSetNetworkType t) c).1.
Proof.
  intros Hr. pose proof Hr as [(m & Hm & Hid & Hn & Hb & Hrs) Hwb Hwr Hcb Hcr Hl]. cbn [run step].
  unfold SetNetworkType. destruct (world_Put w d _ m ChainID_Key [z2b t] Hm ltac:(done)) as (s & Es & Hs).
  exists (with_store w s). split.
  - unfold mbind at 1, cmd_bind. rewrite (run_bind _ _ _ _ _ (NetworkType_run w d c Hr)). cbn [negb Z.eqb].
    change (negb (NetworkType_Unknown =? NetworkType_Unknown)) with false. cbn iota. by rewrite Es.
  - split; cbn; try done. eexists. split; [exact Hs|]. split_and!; written.
Qed.

Lemma refines_set_block b w d c : chain_rep w d c -> op_ok (OSetLatestBlock b) ->
  exists w', run (OSetLatestBlock b) w = Ok (w', (step (OSetLatestBlock b) c).2)
  /\ chain_rep w' d (step (OSetLatestBlock b) c).1.
Proof.
  intros [(m & Hm & Hid & Hn & Hb & Hrs) Hwb Hwr Hcb Hcr Hl] [Hok [h Hh]]. cbn [run step fst snd].
  destruct (world_write w d _ m LatestBlock_Key (Wire.enc Block.desc _ b) (bool_decide (is_Some (m !! LatestBlock_Key)))
              Hm ltac:(done)) as (s & Es & Hs).
  exists (updateLatestBlock (ledgerID cs) b (set_ledger (ledger_after b (c_ledger c)) (with_store w s))). split.
  - unfold SetLatestBlock. unfold mbind at 1, cmd_bind at 1.
    rewrite (run_bind _ _ _ _ _ (marshal_proto_ok Block.desc b w Hok)).
    rewrite (run_bind _ _ _ _ _ (world_Exists w d _ m LatestBlock_Key Hm ltac:(done))).
    rewrite (run_bind _ _ _ _ _ (trying_ok _ _ _ _ Es)). rewrite Hh. unfold ledger_after. rewrite Hh, <- Hl.
    by destruct (BlockHead.Height h >=? 2).
  - split; cbn; try done.
    + eexists. split; [exact Hs|]. split_and!; written.
    + intros b' [= <-]. done.
    + apply lookup_insert_eq.
Qed.

Lemma refines_set_result r w d c : chain_rep w d c -> op_ok (OSetLatestBlockResult r) ->
  exists w', run (OSetLatestBlockResult r) w = Ok (w', (step (OSetLatestBlockResult r) c).2)
  /\ chain_rep w' d (step (OSetLatestBlockResult r) c).1.
Proof.
  intros [(m & Hm & Hid & Hn & Hb & Hrs) Hwb Hwr Hcb Hcr Hl] Hok. cbn [run step fst snd].
  destruct (world_write w d _ m LatestBlockResult_Key (Wire.enc BlockResult.desc _ r)
              (bool_decide (is_Some (m !! LatestBlock_Key))) Hm ltac:(done)) as (s & Es & Hs).
  exists (updateLatestBlockRS (ledgerID cs) r (with_store w s)). split.
  - unfold SetLatestBlockResult. unfold mbind at 1, cmd_bind at 1.
    rewrite (run_bind _ _ _ _ _ (marshal_proto_ok BlockResult.desc r w Hok)).
    rewrite (run_bind _ _ _ _ _ (world_Exists w d _ m LatestBlock_Key Hm ltac:(done))).
    by rewrite (run_bind _ _ _ _ _ (trying_ok _ _ _ _ Es)).
  - split; cbn; try done.
    + eexists. split; [exact Hs|]. split_and!; written.
    + intros b' [= <-]. done.
    + apply lookup_insert_eq.
Qed.

Lemma refines_step o w d c : chain_rep w d c -> op_ok o ->
  exists w', run o w = Ok (w', (step o c).2) /\ chain_rep w' d (step o c).1.
Proof.
  intros Hr Ho. destruct o; try (by apply refines_read).
  - by apply refines_set_id.
  - by apply refines_set_net.
  - by apply refines_set_block.
  - by apply refines_set_result.
Qed.

(** A run of operations, each one's answer or error recorded. *)
Fixpoint run_all (ops : list op) : wcmd (list (state_error + answer)) :=
  match ops with
  | [] => mret []
  | o :: ops => r ← trying (run o); rs ← run_all ops; mret (r :: rs)
  end.

Fixpoint steps (ops : list op) (c : chain) : chain * list (state_error + answer) :=
  match ops with
  | [] => (c, [])
  | o :: ops => let '(c, r) := step o c in let '(c, rs) := steps ops c in (c, r :: rs)
  end.

(** What is cached is what a read of the store would give. *)
Definition coherent (c : chain) : Prop :=
  (forall b, c_cached c = Some b -> b = default no_block (c_block c))
  /\ (forall r, c_cached_result c = Some r -> r = default no_result (c_result c)).

Lemma step_coherent o c : coherent c -> coherent (step o c).1.
Proof.
  intros [Hb Hr]. destruct o; cbn; try case_bool_decide; cbn; try done; split; cbn; try done.
  - intros b [= <-]. destruct (c_cached c) as [b|] eqn:E; [by apply Hb|done].
  - intros r [= <-]. destruct (c_cached_result c) as [r|] eqn:E; [by apply Hr|done].
  - by intros ? [= <-].
  - by intros ? [= <-].
Qed.

Lemma refines_steps ops w d c : chain_rep w d c -> Forall op_ok ops ->
  exists w', run_all ops w = Ok (w', inr (steps ops c).2) /\ chain_rep w' d (steps ops c).1.
Proof.
  intros Hr Hops. revert w c Hr. induction Hops as [|o ops Ho Hops IH]; intros w c Hr; [by exists w|].
  destruct (refines_step o w d c Hr Ho) as (w1 & E1 & H1).
  destruct (IH w1 (step o c).1 H1) as (w2 & E2 & H2). exists w2.
  cbn [run_all steps]. rewrite (run_bind _ _ _ _ _ (trying_ok _ _ _ _ E1)), (run_bind _ _ _ _ _ E2).
  destruct (step o c) as [c' r]. cbn [fst snd] in *. by destruct (steps ops c').
Qed.

Lemma steps_coherent ops c : coherent c -> coherent (steps ops c).1.
Proof.
  revert c. induction ops as [|o ops IH]; intros c Hc; [done|]. cbn [steps].
  pose proof (step_coherent o c Hc) as H. destruct (step o c) as [c' r]. specialize (IH c' H).
  by destruct (steps ops c').
Qed.

(** C4. The chain state refines an abstract chain: every run of its operations
    - reads and writes of the chain id, network type, latest block and latest
    result, and reads of the process-wide caches - returns what the abstract
    chain returns, keeps the store in the state the abstract chain says, and
    leaves the caches coherent with the store.  Blocks are well-formed and
    have a head. *)
Theorem chain_state_refines ops w d c : chain_rep w d c -> coherent c -> Forall op_ok ops ->
  exists w', run_all ops w = Ok (w', inr (steps ops c).2) /\ chain_rep w' d (steps ops c).1 /\ coherent (steps ops c).1.
Proof.
  intros Hr Hc Ho. destruct (refines_steps ops w d c Hr Ho) as (w' & E & H).
  exists w'. split_and!; [done|done|by apply steps_coherent].
Qed.

(** Setting the network type overwrites the chain id and leaves the network
    type unknown, and a chain id can no longer be set. *)
Lemma SetNetworkType_overwrites_chain_id t id w d c : chain_rep w d c ->
  exists w', run_all [OSetNetworkType t; ONetworkType; OChainID; OSetChainID id] w =
    Ok (w', inr [inr ADone; inr (ANet NetworkType_Unknown); inr (AID [z2b t]); inl ErrAlreadySet]).
Proof.
  intros Hr. destruct (refines_steps [OSetNetworkType t; ONetworkType; OChainID; OSetChainID id] w d c Hr) as (w' & E & _);
    [by repeat constructor|]. by exists w'.
Qed.

(** A block without a head is stored, and then the call panics. *)
Lemma SetLatestBlock_nil_head b w d c : chain_rep w d c -> Tx.well_formed Block.desc b -> Block.Head b = None ->
  SetLatestBlock cs (Some b) w = Panic.
Proof.
  intros [(m & Hm & _) _ _ _ _ _] Hok Hh.
  destruct (world_write w d _ m LatestBlock_Key (Wire.enc Block.desc _ b) (bool_decide (is_Some (m !! LatestBlock_Key)))
              Hm ltac:(done)) as (s & Es & Hs).
  unfold SetLatestBlock. rewrite (run_bind _ _ _ _ _ (marshal_proto_ok Block.desc b w Hok)).
  rewrite (run_bind _ _ _ _ _ (world_Exists w d _ m LatestBlock_Key Hm ltac:(done))).
  rewrite (run_bind _ _ _ _ _ (trying_ok _ _ _ _ Es)). by rewrite Hh.
Qed.
End Refinement.

Import RefStore.

(** A fresh ledger. *)
Definition fresh : world (gmap bytes kvmap) :=
  mkWorld (<[StateStore_Name_Chain:=∅]> ∅) LedgerState_Uninitialized ∅ ∅ ∅.

Definition empty_chain : chain := mkChain None None None None None LedgerState_Uninitialized.

Lemma fresh_rep cs : chain_rep cs fresh ∅ empty_chain.
Proof. split; cbn; try done. by exists ∅. Qed.

Definition block2 : Block.t :=
  Block.mk (Some (BlockHead.mk (str "1") 1 2 0 0 [] (str "p") [] [] 0 [] [] 0 [] [] [] 7 0 [] [] [])) None [].

Lemma block2_ok : op_ok (OSetLatestBlock block2).
Proof.
  split; [|by eexists]. split_and!; [repeat constructor; vm_compute; repeat constructor..|by vm_compute].
Qed.

Lemma chain_state_refines_witness :
  exists w', run_all (mkChainState (str "l"))
      [OCachedBlock; OGetLatestBlock; OSetLatestBlock block2; OCachedBlock; OGetLatestBlock; OSetChainID (str "c")] fresh =
    Ok (w', inr [inl ErrNoCache; inr (ABlock no_block); inr ADone; inr (ABlock block2); inr (ABlock block2); inr ADone])
  /\ w_ledger w' = LedgerState_AutoInc.
Proof.
  destruct (chain_state_refines (mkChainState (str "l"))
      [OCachedBlock; OGetLatestBlock; OSetLatestBlock block2; OCachedBlock; OGetLatestBlock; OSetChainID (str "c")]
      fresh ∅ empty_chain (fresh_rep _)) as (w' & E & Hr & _).
  - done.
  - repeat (constructor; [first [exact block2_ok | exact I]|]). constructor.
  - exists w'. split; [exact E|]. exact (cr_ledger _ _ _ _ Hr).
Defined.
End ChainSpec.

(** * The epoch state *)
Module EpochSpec.
Import Epoch.

Definition epoch_ok (e : EpochInfo) : Prop :=
  0 <= Types.Epoch e < 2 ^ 64 /\ 0 <= StartTimeStamp e < 2 ^ 64 /\ 0 <= StartHeight e < 2 ^ 64.

Lemma EpochInfo_lawful : lawful j_EpochInfo epoch_ok 1.
Proof. change 1 with (1 + Z.max 0 0). unfold j_EpochInfo. solve_struct. Qed.

Section Spec.
Context {S : Type} `{!IStateStore S, !StateStoreLaws S}.

(** An epoch that was set is read back from the store, field by field,
    and is in the process-wide cache - under the empty ledger id, as the epoch
    state does not keep the id it was made for. *)
Theorem latest_epoch_roundtrip ledger (s : S) cacheSize es e w d m :
  NewEpochState ledger s cacheSize = Ok (w_store w, es) ->
  named (w_store w) (<[StateStore_Name_Epoch:=m]> d) -> epoch_ok e ->
  exists w', SetLatestEpoch es (Some e) w = Ok (w', inr tt)
  /\ GetLatestEpoch w' = Ok (w', inr (Some e))
  /\ cached_epoch [] w' = Ok (w', inr (Some e))
  /\ forall l, l <> [] -> latestEpochMap w' !! l = latestEpochMap w !! l.
Proof.
  intros Hnew Hm He.
  assert (es = mkEpochState []) as ->.
  { unfold NewEpochState in Hnew. destruct (ss_AddNamedStateStore _ _ _) as [[s' b]| |]; [|done|done]. by inversion Hnew. }
  destruct (world_write w d _ m LatestEpoch_Key (Marshal (j_ptr j_EpochInfo) (Some e))
    (bool_decide (is_Some (m !! LatestEpoch_Key))) Hm ltac:(done)) as (s' & Es & Hs).
  exists (updateLatestEpoch [] (Some e) (with_store w s')). split_and!.
  - unfold SetLatestEpoch. rewrite (run_bind _ _ _ _ _ (world_Exists w d _ m LatestEpoch_Key Hm ltac:(done))).
    by rewrite (run_bind _ _ _ _ _ (trying_ok _ _ _ _ Es)).
  - set (w' := updateLatestEpoch _ _ _). unfold GetLatestEpoch.
    rewrite (run_bind _ _ _ _ _ (world_Get w' d _ _ LatestEpoch_Key Hs ltac:(done))), lookup_insert_eq.
    rewrite (run_bind _ _ w' w' e); [done|]. apply on_store_read.
    apply (run_unmarshal j_EpochInfo epoch_ok 1); [apply EpochInfo_lawful|unfold Json.maxNestingDepth; lia|done].
  - unfold cached_epoch. cbn. by rewrite lookup_insert_eq.
  - intros l Hl. cbn. by rewrite lookup_insert_ne.
Qed.
End Spec.

#[local] Existing Instance RefStore.ref_store.
#[local] Existing Instance RefStore.ref_store_laws.

Lemma latest_epoch_roundtrip_witness :
  let w := mkWorld (<[StateStore_Name_Epoch:=∅]> (∅ : gmap bytes kvmap)) LedgerState_Uninitialized ∅ ∅ ∅ in
  exists w', SetLatestEpoch (mkEpochState []) (Some (mkEpochInfo 3 1000 900)) w = Ok (w', inr tt)
  /\ GetLatestEpoch w' = Ok (w', inr (Some (mkEpochInfo 3 1000 900))).
Proof.
  intros w. destruct (latest_epoch_roundtrip (S := RefStore.t) (str "ledger") ∅ 10 (mkEpochState []) (mkEpochInfo 3 1000 900) w ∅ ∅)
    as (w' & H1 & H2 & _).
  - reflexivity.
  - reflexivity.
  - cbv; intuition congruence.
  - exists w'. split; [exact H1|exact H2].
Defined.
End EpochSpec.

(** * The node domain state *)
Module DomainSpec.
Import Domain.

Definition member_ok (m : NodeDomainMember) : Prop :=
  utf8 (ndm_NodeID m) /\ 0 <= ndm_NodeRole m < 2 ^ 64 /\ 0 <= ndm_Weight m < 2 ^ 64.

Lemma Member_lawful : lawful j_Member member_ok 1.
Proof. change 1 with (1 + Z.max 0 0). unfold j_Member. solve_struct. Qed.

Definition consensus_ok (d : NodeConsensusDomain) : Prop :=
  - 2 ^ 63 <= ncd_Threshold d < 2 ^ 63 /\ - 2 ^ 63 <= ncd_NParticipant d < 2 ^ 63
  /\ all_of (fun _ : option bytes => True) (ncd_PubShares d) /\ all_of (opt_ok member_ok) (ncd_Members d).

Lemma members_lawful : lawful (j_slice (j_ptr j_Member)) (all_of (opt_ok member_ok)) 2.
Proof. apply (slice_lawful _ _ 1). apply ptr_lawful; [apply Member_lawful|lia|done]. Qed.

Lemma shares_lawful : lawful (j_slice j_bytes) (all_of (fun _ => True)) 1.
Proof. apply (slice_lawful _ _ 0), bytes_lawful. Qed.

#[local] Hint Resolve members_lawful shares_lawful : json.

Lemma ConsensusDomain_lawful : lawful j_ConsensusDomain consensus_ok 3.
Proof. change 3 with (1 + Z.max 0 2). unfold j_ConsensusDomain. solve_struct. Qed.

Definition execute_ok (d : NodeExecuteDomain) : Prop := all_of utf8 (ned_Members d).

Lemma ExecuteDomain_lawful : lawful j_ExecuteDomain execute_ok 2.
Proof.
  change 2 with (1 + Z.max 0 1). unfold j_ExecuteDomain.
  pose proof (slice_lawful j_string utf8 0 string_lawful) as Hl. change (1 + Z.max 0 0) with 1 in Hl.
  apply struct_lawful; [apply (bool_decide_eq_true_1 _); vm_compute; reflexivity|reflexivity| |].
  - intros m H. eapply fields_fld; [exact Hl|done|lia|]. apply List.Forall_nil.
  - intros m H. eapply put_all_fld; [exact Hl|done|done|]. by destruct m.
Qed.

Definition domain_ok (d : NodeDomainInfo) : Prop :=
  utf8 (nd_ID d) /\ 0 <= nd_Type d < 2 ^ 8 /\ 0 <= nd_ValidHeightStart d < 2 ^ 64 /\ 0 <= nd_ValidHeightEnd d < 2 ^ 64
  /\ opt_ok consensus_ok (nd_CSDomainData d) /\ opt_ok execute_ok (nd_ExeDomainData d).

Lemma consensus_ptr_lawful : lawful (j_ptr j_ConsensusDomain) (opt_ok consensus_ok) 3.
Proof. apply ptr_lawful; [apply ConsensusDomain_lawful|lia|done]. Qed.

Lemma execute_ptr_lawful : lawful (j_ptr j_ExecuteDomain) (opt_ok execute_ok) 2.
Proof. apply ptr_lawful; [apply ExecuteDomain_lawful|lia|done]. Qed.

#[local] Hint Resolve consensus_ptr_lawful execute_ptr_lawful : json.

Lemma DomainInfo_lawful : lawful j_DomainInfo domain_ok 4.
Proof. change 4 with (1 + Z.max 0 3). unfold j_DomainInfo. solve_struct. Qed.

Lemma DomainMeta_lawful : lawful j_DomainMeta (fun m => 0 <= dm_DomainType m < 2 ^ 8) 1.
Proof. change 1 with (1 + Z.max 0 0). unfold j_DomainMeta. solve_struct. Qed.

(** The registry as finite maps: the domains of each type and the type last
    registered for an id. *)
Record domains := mkDomains {
  exe : gmap bytes NodeDomainInfo;
  cons : gmap bytes NodeDomainInfo;
  kind : gmap bytes DomainType;
}.

Definition add (a : domains) (d : NodeDomainInfo) : domains :=
  if nd_Type d =? DomainType_Execute
  then mkDomains (<[nd_ID d:=d]> (exe a)) (cons a) (<[nd_ID d:=nd_Type d]> (kind a))
  else mkDomains (exe a) (<[nd_ID d:=d]> (cons a)) (<[nd_ID d:=nd_Type d]> (kind a)).

Definition find (a : domains) (id : bytes) : option NodeDomainInfo :=
  match kind a !! id with
  | Some t => if t =? DomainType_Execute then exe a !! id else cons a !! id
  | None => None
  end.

(** The domains in force at a height, in the order of their ids. *)
Definition valid_at (h : Z) (d : NodeDomainInfo) : Prop := nd_ValidHeightStart d <= h < nd_ValidHeightEnd d.

#[export] Instance valid_at_dec h d : Decision (valid_at h d).
Proof. unfold valid_at. apply _. Defined.

Definition active (h : Z) (m : gmap bytes NodeDomainInfo) : list NodeDomainInfo :=
  filter (valid_at h) (sorted_keys m).*2.

Definition add_ok (d : NodeDomainInfo) : Prop :=
  domain_ok d /\ nd_ID d <> [] /\ (nd_Type d = DomainType_Execute \/ nd_Type d = DomainType_Consensus).

Definition is_kind (t : DomainType) : Prop := t = DomainType_Execute \/ t = DomainType_Consensus.

Record domain_rep (d : gmap bytes kvmap) (a : domains) : Prop := {
  dr_exe : d !! StateStore_Name_NodeExecuteDomain = Some (Marshal j_DomainInfo <$> exe a);
  dr_cons : d !! StateStore_Name_NodeConsensusDomain = Some (Marshal j_DomainInfo <$> cons a);
  dr_kind : d !! StateStore_Name_NodeDomain = Some ((fun t => Marshal j_DomainMeta (mkDomainMeta t)) <$> kind a);
  dr_exe_ok : map_Forall (fun _ => domain_ok) (exe a);
  dr_cons_ok : map_Forall (fun _ => domain_ok) (cons a);
  dr_kind_ok : map_Forall (fun _ => is_kind) (kind a);
}.

Lemma is_active_valid h d : domain_ok d -> is_active h d = bool_decide (valid_at h d).
Proof.
  intros (_ & _ & Hs & He & _). unfold is_active.
  pose proof (u64_range (nd_ValidHeightEnd d - EpochSpan)) as Hu.
  unfold is_u64 in Hu. apply eq_true_iff_eq. rewrite bool_decide_eq_true, !andb_true_iff, Z.ltb_lt, !Z.geb_le. unfold valid_at. lia.
Qed.

Section Spec.
Context {S : Type} `{!IStateStore S, !StateStoreLaws S}.
Abbreviation cmd := (cmd S state_error).

Lemma collect_spec h (l : list (bytes * NodeDomainInfo)) acc : Forall (fun kv => domain_ok kv.2) l ->
  fold_left (fun a kv => collect_active h a kv.1 kv.2) (prod_map id (Marshal j_DomainInfo) <$> l) acc
  = acc ++ filter (valid_at h) l.*2.
Proof.
  intros Hl. revert acc. induction Hl as [|[k d] l Hd Hl IH]; intros acc; [by rewrite app_nil_r|].
  cbn [fmap list_fmap fold_left prod_map fst snd]. rewrite IH. unfold collect_active.
  rewrite (Unmarshal_Marshal _ _ _ d DomainInfo_lawful ltac:(unfold Json.maxNestingDepth; lia) Hd).
  cbn [snd] in Hd. rewrite (is_active_valid h d Hd). rewrite filter_cons. case_bool_decide as E.
  - rewrite decide_True by done. by rewrite <- (assoc_L (++)).
  - by rewrite decide_False by done.
Qed.

Lemma all_active_spec h (s : S) d n m : named s d -> d !! n = Some (Marshal j_DomainInfo <$> m) ->
  map_Forall (fun _ => domain_ok) m -> all_active n h s = Ok (s, inr (active h m)).
Proof.
  intros Hs Hn Hm. unfold all_active, reading.
  rewrite (law_Iterate _ _ s d n _ Hs Hn), sorted_items_fmap, collect_spec; [done|].
  rewrite sorted_keys_perm. apply Forall_forall. intros [k x] Hx%elem_of_map_to_list. by apply (Hm k x).
Qed.

Lemma getNodeDomain_spec (s : S) d n m id : named s d -> d !! n = Some (Marshal j_DomainInfo <$> m) ->
  map_Forall (fun _ => domain_ok) m -> id <> [] -> getNodeDomain n id s = Ok (s, inr (m !! id)).
Proof.
  intros Hs Hn Hm Hid. unfold getNodeDomain.
  rewrite (run_bind _ _ _ _ _ (run_Get s d n _ id Hs Hn Hid)), lookup_fmap.
  destruct (m !! id) as [x|] eqn:E; [|done]. cbn [fmap option_fmap option_map].
  rewrite (run_bind _ _ s s x); [done|].
  apply (run_unmarshal _ domain_ok 4); [apply DomainInfo_lawful|unfold Json.maxNestingDepth; lia|by apply (Hm id x)].
Qed.

Lemma GetNodeDomain_spec (s : S) d a id : named s d -> domain_rep d a -> id <> [] ->
  GetNodeDomain id s = Ok (s, inr (find a id)).
Proof.
  intros Hs [He Hc Hk Heo Hco Hko] Hid. unfold GetNodeDomain, find.
  rewrite (run_bind _ _ _ _ _ (run_Get s d _ _ id Hs Hk Hid)), lookup_fmap.
  destruct (kind a !! id) as [t|] eqn:E; [|done]. cbn [fmap option_fmap option_map].
  pose proof (Hko id t E) as Ht. rewrite (run_bind _ _ s s (mkDomainMeta t)).
  - cbn [dm_DomainType]. destruct Ht as [-> | ->]; cbn [Z.eqb].
    + by apply (getNodeDomain_spec s d).
    + by apply (getNodeDomain_spec s d).
  - apply (run_unmarshal _ _ 1 _ _ DomainMeta_lawful); [unfold Json.maxNestingDepth; lia|].
    cbn. destruct Ht as [-> | ->]; by vm_compute.
Qed.

Lemma GetAllActive_spec h (s : S) d a : named s d -> domain_rep d a ->
  GetAllActiveNodeDomains h s = Ok (s, inr (active h (exe a) ++ active h (cons a))).
Proof.
  intros Hs [He Hc Hk Heo Hco Hko]. unfold GetAllActiveNodeDomains.
  rewrite (run_bind _ _ _ _ _ (all_active_spec h s d _ _ Hs He Heo)).
  by rewrite (run_bind _ _ _ _ _ (all_active_spec h s d _ _ Hs Hc Hco)).
Qed.

(** The two writes of an addition. *)
Lemma two_puts (s : S) d n1 n2 m1 m2 id v1 v2 : named s d -> d !! n1 = Some m1 -> d !! n2 = Some m2 -> n1 <> n2 -> id <> [] ->
  exists s', (st_Put n1 id v1 ≫= fun _ => st_Put n2 id v2) s = Ok (s', inr tt)
  /\ named s' (<[n2:=<[id:=v2]> m2]> (<[n1:=<[id:=v1]> m1]> d)).
Proof.
  intros Hs H1 H2 Hne Hid. destruct (run_Put s d n1 m1 id v1 Hs H1 Hid) as (s1 & E1 & Hs1).
  assert (H2' : <[n1:=<[id:=v1]> m1]> d !! n2 = Some m2) by by rewrite lookup_insert_ne.
  destruct (run_Put s1 _ n2 m2 id v2 Hs1 H2' Hid) as (s2 & E2 & Hs2).
  exists s2. by rewrite (run_bind _ _ _ _ _ E1).
Qed.

Lemma AddNodeDomain_spec (s : S) d a x : named s d -> domain_rep d a -> add_ok x ->
  exists s' d', AddNodeDomain (Some x) s = Ok (s', inr tt) /\ named s' d' /\ domain_rep d' (add a x).
Proof.
  intros Hs [He Hc Hk Heo Hco Hko] (Hok & Hid & Ht). unfold AddNodeDomain, add.
  assert (Hkind : map_Forall (fun _ => is_kind) (<[nd_ID x:=nd_Type x]> (kind a))) by by apply map_Forall_insert_2.
  set (v1 := Marshal j_DomainInfo x). set (v2 := Marshal j_DomainMeta (mkDomainMeta (nd_Type x))).
  destruct Ht as [Ht|Ht].
  - destruct (two_puts s d _ _ _ _ (nd_ID x) v1 v2 Hs He Hk ltac:(done) Hid) as (s' & E & Hs').
    eexists s', _. split_and!; [by rewrite Ht|exact Hs'|]. replace (nd_Type x =? DomainType_Execute) with true by by rewrite Ht.
    split; cbn [exe cons kind]; try done; unfold v1, v2.
    + by rewrite lookup_insert_ne, lookup_insert_eq, fmap_insert.
    + by rewrite !lookup_insert_ne.
    + by rewrite lookup_insert_eq, fmap_insert.
    + by apply map_Forall_insert_2.
  - destruct (two_puts s d _ _ _ _ (nd_ID x) v1 v2 Hs Hc Hk ltac:(done) Hid) as (s' & E & Hs').
    eexists s', _. split_and!; [by rewrite Ht|exact Hs'|]. replace (nd_Type x =? DomainType_Execute) with false by by rewrite Ht.
    split; cbn [exe cons kind]; try done; unfold v1, v2.
    + by rewrite !lookup_insert_ne.
    + by rewrite lookup_insert_ne, lookup_insert_eq, fmap_insert.
    + by rewrite lookup_insert_eq, fmap_insert.
    + by apply map_Forall_insert_2.
Qed.

Fixpoint AddAll (l : list NodeDomainInfo) : cmd unit :=
  match l with
  | [] => mret tt
  | x :: l => _ ← AddNodeDomain (Some x); AddAll l
  end.

Lemma AddAll_spec l (s : S) d a : named s d -> domain_rep d a -> Forall add_ok l ->
  exists s' d', AddAll l s = Ok (s', inr tt) /\ named s' d' /\ domain_rep d' (fold_left add l a).
Proof.
  intros Hs Hr Hl. revert s d a Hs Hr. induction Hl as [|x l Hx Hl IH]; intros s d a Hs Hr; [by exists s, d|].
  destruct (AddNodeDomain_spec s d a x Hs Hr Hx) as (s1 & d1 & E1 & Hs1 & Hr1).
  destruct (IH s1 d1 (add a x) Hs1 Hr1) as (s2 & d2 & E2 & Hs2 & Hr2). exists s2, d2.
  split_and!; [|done|done]. cbn [AddAll]. by rewrite (run_bind _ _ _ _ _ E1).
Qed.

(** The node domain state is a registry: after any run of additions of
    execution and consensus domains, [GetNodeDomain] gives for every id the
    domain last added under it, and [GetAllActiveNodeDomains] gives at every
    height exactly the domains [ValidHeightStart <= height < ValidHeightEnd] of
    each type, in the order of their ids. *)
Theorem domain_registry_refines l (s : S) d a : named s d -> domain_rep d a -> Forall add_ok l ->
  let a' := fold_left add l a in
  exists s', AddAll l s = Ok (s', inr tt)
  /\ (forall id, id <> [] -> GetNodeDomain id s' = Ok (s', inr (find a' id)))
  /\ (forall h, GetAllActiveNodeDomains h s' = Ok (s', inr (active h (exe a') ++ active h (cons a'))))
  /\ (forall x l', l = l' ++ [x] -> find a' (nd_ID x) = Some x).
Proof.
  intros Hs Hr Hl a'. destruct (AddAll_spec l s d a Hs Hr Hl) as (s' & d' & E & Hs' & Hr').
  exists s'. split_and!; [done| | |].
  - intros id Hid. by apply (GetNodeDomain_spec s' d').
  - intros h. by apply (GetAllActive_spec h s' d').
  - intros x l' ->. unfold a'. rewrite fold_left_app. cbn [fold_left]. unfold find, add.
    destruct (nd_Type x =? DomainType_Execute) eqn:Et; cbn [kind exe cons]; rewrite lookup_insert_eq, Et; apply lookup_insert_eq.
Qed.
End Spec.

#[local] Existing Instance RefStore.ref_store.
#[local] Existing Instance RefStore.ref_store_laws.

Definition no_domains : gmap bytes kvmap :=
  <[StateStore_Name_NodeExecuteDomain:=∅]> (<[StateStore_Name_NodeConsensusDomain:=∅]> (<[StateStore_Name_NodeDomain:=∅]> ∅)).

Lemma no_domains_rep : domain_rep no_domains (mkDomains ∅ ∅ ∅).
Proof. split; cbn [exe cons kind]; first [reflexivity | apply map_Forall_empty]. Qed.

Definition exec_domain : NodeDomainInfo :=
  mkNodeDomainInfo (str "d1") DomainType_Execute 10 20 None (Some (mkNodeExecuteDomain (Some [str "n1"; str "n2"]))).

Definition cons_domain : NodeDomainInfo :=
  mkNodeDomainInfo (str "d1") DomainType_Consensus 10 20
    (Some (mkNodeConsensusDomain 2 3 None None (Some [Some (mkNodeDomainMember (str "n1") 4 7)]))) None.

(** Checks of a concrete domain, one field at a time. *)
Ltac check_domain :=
  unfold add_ok, domain_ok, exec_domain, cons_domain;
  cbn [nd_ID nd_Type nd_ValidHeightStart nd_ValidHeightEnd nd_CSDomainData nd_ExeDomainData opt_ok];
  unfold consensus_ok, execute_ok, all_of, member_ok;
  cbn [ncd_Threshold ncd_NParticipant ncd_PubShares ncd_Members ned_Members from_option];
  split_and!; repeat (first [apply List.Forall_nil | apply List.Forall_cons]); cbn [opt_ok]; split_and?;
  first [exact I | done | reflexivity | lia | by left | by right].

Lemma exec_domain_ok : add_ok exec_domain.
Proof. check_domain. Qed.

Lemma cons_domain_ok : add_ok cons_domain.
Proof. check_domain. Qed.

(** Registering an id again with the other type leaves the earlier domain in
    force, though the registry answers with the later one. *)
Lemma AddNodeDomain_other_type_keeps_old :
  exists s', AddAll (S := RefStore.t) [exec_domain; cons_domain] no_domains = Ok (s', inr tt)
  /\ GetNodeDomain (str "d1") s' = Ok (s', inr (Some cons_domain))
  /\ GetAllActiveNodeDomains 15 s' = Ok (s', inr [exec_domain; cons_domain]).
Proof.
  destruct (AddAll_spec (S := RefStore.t) [exec_domain; cons_domain] no_domains no_domains (mkDomains ∅ ∅ ∅))
    as (s' & d' & E & Hs' & Hr'); [done|exact no_domains_rep|apply Forall_cons_2, Forall_singleton; [exact exec_domain_ok|exact cons_domain_ok]|].
  exists s'. split_and!; [done| |].
  - by rewrite (GetNodeDomain_spec s' d' _ (str "d1") Hs' Hr').
  - rewrite (GetAllActive_spec 15 s' d' _ Hs' Hr'). by vm_compute.
Qed.

Lemma domain_registry_refines_witness :
  exists s', AddAll (S := RefStore.t) [exec_domain] no_domains = Ok (s', inr tt)
  /\ GetNodeDomain (str "d1") s' = Ok (s', inr (Some exec_domain))
  /\ GetAllActiveNodeDomains 19 s' = Ok (s', inr [exec_domain])
  /\ GetAllActiveNodeDomains 20 s' = Ok (s', inr []).
Proof.
  destruct (domain_registry_refines (S := RefStore.t) [exec_domain] no_domains no_domains (mkDomains ∅ ∅ ∅))
    as (s' & E & Hg & Ha & _); [reflexivity|exact no_domains_rep|apply Forall_singleton; exact exec_domain_ok|].
  exists s'. split; [exact E|]. split; [rewrite Hg by done; reflexivity|]. split; rewrite Ha; vm_compute; reflexivity.
Defined.
End DomainSpec.
