(* ===== verification/Address.v ===== *)
(** Addresses (src/crypt/types): their text format with its base32 encoding
    and checksum, contract addresses, and the conversions from and to the
    addresses of Ethereum.  The hash function is a parameter. *)
From Stdlib Require Import ZArith Lia Strings.Byte.
From stdpp Require Import base gmap list strings.
From S2P Require Import Prelude Common Text Wire TxBasic.
Import Util Types Text Wire.
#[local] Open Scope Z_scope.

(** * encoding/base32, without padding *)
Module Base32.

(** const encodeStd *)
Definition encodeStd : bytes := str "topianewrkbcdfghjlmqsuvxyz123456".

Definition char (v : Z) : byte := nth (Z.to_nat v) encodeStd x00.

Definition value (b : byte) : option Z := Z.of_nat <$> (fst <$> list_find (b =.) encodeStd).

(** Five bytes are eight characters; a last group of one to four bytes is
    filled up with zero bits. *)
Fixpoint EncodeToString (s : bytes) : bytes :=
  match s with
  | [] => []
  | [a] => let v := b2z a * 2 ^ 32 in [char (v / 2 ^ 35 mod 32); char (v / 2 ^ 30 mod 32)]
  | [a; b] =>
      let v := b2z a * 2 ^ 32 + b2z b * 2 ^ 24 in
      [char (v / 2 ^ 35 mod 32); char (v / 2 ^ 30 mod 32); char (v / 2 ^ 25 mod 32); char (v / 2 ^ 20 mod 32)]
  | [a; b; c] =>
      let v := b2z a * 2 ^ 32 + b2z b * 2 ^ 24 + b2z c * 2 ^ 16 in
      [char (v / 2 ^ 35 mod 32); char (v / 2 ^ 30 mod 32); char (v / 2 ^ 25 mod 32); char (v / 2 ^ 20 mod 32);
       char (v / 2 ^ 15 mod 32)]
  | [a; b; c; d] =>
      let v := b2z a * 2 ^ 32 + b2z b * 2 ^ 24 + b2z c * 2 ^ 16 + b2z d * 2 ^ 8 in
      [char (v / 2 ^ 35 mod 32); char (v / 2 ^ 30 mod 32); char (v / 2 ^ 25 mod 32); char (v / 2 ^ 20 mod 32);
       char (v / 2 ^ 15 mod 32); char (v / 2 ^ 10 mod 32); char (v / 2 ^ 5 mod 32)]
  | a :: b :: c :: d :: e :: s' =>
      let v := b2z a * 2 ^ 32 + b2z b * 2 ^ 24 + b2z c * 2 ^ 16 + b2z d * 2 ^ 8 + b2z e in
      char (v / 2 ^ 35 mod 32) :: char (v / 2 ^ 30 mod 32) :: char (v / 2 ^ 25 mod 32) :: char (v / 2 ^ 20 mod 32)
        :: char (v / 2 ^ 15 mod 32) :: char (v / 2 ^ 10 mod 32) :: char (v / 2 ^ 5 mod 32) :: char (v mod 32)
        :: EncodeToString s'
  end.

(** The characters of one group: [k] more of them after the [acc] read.  The
    result has the values, whether the text has ended, and the rest.  The byte
    0xFF still ends the text, as it is the padding character -1. *)
Fixpoint read_group (k : nat) (src : bytes) (acc : list Z) : option (list Z * bool * bytes) :=
  match k with
  | O => Some (acc, false, src)
  | S k =>
      match src with
      | [] => Some (acc, true, [])
      | c :: src =>
          let j := length acc in
          if bool_decide (c = xff /\ (2 <= j)%nat /\ (length src < 8)%nat) then
            if bool_decide ((length src + j < 7)%nat \/ Exists (fun p => p <> xff) (take (7 - j) src) \/ j = 3%nat \/ j = 6%nat)
            then None else Some (acc, true, src)
          else match value c with
               | None => None
               | Some v => read_group k src (acc ++ [v])
               end
      end
  end.

(** The bytes of a group; groups of one, three and six characters give none. *)
Definition pack (g : list Z) : bytes :=
  let v := foldl (fun v x => v * 32 + x) 0 (take 8 (g ++ replicate 8 0)) in
  match length g with
  | 8%nat => [z2b (v / 2 ^ 32); z2b (v / 2 ^ 24); z2b (v / 2 ^ 16); z2b (v / 2 ^ 8); z2b v]
  | 7%nat => [z2b (v / 2 ^ 32); z2b (v / 2 ^ 24); z2b (v / 2 ^ 16); z2b (v / 2 ^ 8)]
  | 5%nat => [z2b (v / 2 ^ 32); z2b (v / 2 ^ 24); z2b (v / 2 ^ 16)]
  | 4%nat => [z2b (v / 2 ^ 32); z2b (v / 2 ^ 24)]
  | 2%nat => [z2b (v / 2 ^ 32)]
  | _ => []
  end.

(** [fuel] bounds the number of groups; the length of the text is enough. *)
Fixpoint decode_groups (fuel : nat) (src : bytes) : option bytes :=
  match fuel, src with
  | _, [] => Some []
  | O, _ => None
  | S fuel, _ =>
      '(g, ended, src) ← read_group 8 src [];
      if ended : bool then Some (pack g) else t ← decode_groups fuel src; Some (pack g ++ t)
  end.

(** Line breaks are skipped wherever they are. *)
Definition DecodeString (s : bytes) : option bytes :=
  let s := filter (fun b => b <> x0a /\ b <> x0d) s in decode_groups (length s) s.

(** ** The round trip *)

Lemma char_ok v : 0 <= v < 32 ->
  value (char v) = Some v /\ char v <> x0a /\ char v <> x0d /\ char v <> xff /\ b2z (char v) < 0x80.
Proof.
  intros Hv. assert (Hin : v ∈ seqZ 0 32) by (apply elem_of_seqZ; lia).
  assert (Hall : forallb (fun v => bool_decide (value (char v) = Some v /\ char v <> x0a
    /\ char v <> x0d /\ char v <> xff /\ b2z (char v) < 0x80)) (seqZ 0 32) = true) by (vm_compute; reflexivity).
  rewrite forallb_forall in Hall. apply (bool_decide_eq_true_1 _). apply Hall. by apply list_elem_of_In.
Qed.

Lemma read_group_chars (vs : list Z) k src acc : Forall (fun v => 0 <= v < 32) vs ->
  read_group (length vs + k) ((char <$> vs) ++ src) acc = read_group k src (acc ++ vs).
Proof.
  intros Hvs. revert acc. induction Hvs as [|v vs Hv Hvs IH]; intros acc; [by rewrite app_nil_r|].
  cbn [length Nat.add fmap list_fmap app read_group]. destruct (char_ok v Hv) as (-> & _ & _ & Hff & _).
  rewrite bool_decide_false by tauto. rewrite IH, <- (assoc_L (++)). done.
Qed.

(** Five steps at a time. *)
Lemma bytes_ind5 (P : bytes -> Prop) :
  P [] -> (forall a, P [a]) -> (forall a b, P [a; b]) -> (forall a b c, P [a; b; c]) -> (forall a b c d, P [a; b; c; d]) ->
  (forall a b c d e s, P s -> P (a :: b :: c :: d :: e :: s)) -> forall s, P s.
Proof.
  intros H0 H1 H2 H3 H4 H5. fix IH 1. intros [|a [|b [|c [|d [|e s]]]]]; [done..|]. apply H5, IH.
Qed.

Ltac small32 := repeat constructor; apply Z.mod_pos_bound; lia.

(** The eight digits of a 40-bit number. *)
Definition digits (v : Z) : list Z :=
  [v / 2 ^ 35 mod 32; v / 2 ^ 30 mod 32; v / 2 ^ 25 mod 32; v / 2 ^ 20 mod 32;
   v / 2 ^ 15 mod 32; v / 2 ^ 10 mod 32; v / 2 ^ 5 mod 32; v mod 32].

Lemma digits_fold v : 0 <= v < 2 ^ 40 -> foldl (fun v x => v * 32 + x) 0 (digits v) = v.
Proof.
  intros Hv. unfold digits. cbn [foldl].
  assert (Hd : forall k, 0 <= k -> v / 2 ^ k = 32 * (v / 2 ^ (k + 5)) + v / 2 ^ k mod 32).
  { intros k Hk. rewrite Z.pow_add_r, <- Z.div_div by lia. apply Z.div_mod. lia. }
  assert (H0 : v / 2 ^ 0 = 32 * (v / 2 ^ 5) + v / 2 ^ 0 mod 32) by exact (Hd 0 ltac:(lia)).
  assert (H5 : v / 2 ^ 5 = 32 * (v / 2 ^ 10) + v / 2 ^ 5 mod 32) by exact (Hd 5 ltac:(lia)).
  assert (H10 : v / 2 ^ 10 = 32 * (v / 2 ^ 15) + v / 2 ^ 10 mod 32) by exact (Hd 10 ltac:(lia)).
  assert (H15 : v / 2 ^ 15 = 32 * (v / 2 ^ 20) + v / 2 ^ 15 mod 32) by exact (Hd 15 ltac:(lia)).
  assert (H20 : v / 2 ^ 20 = 32 * (v / 2 ^ 25) + v / 2 ^ 20 mod 32) by exact (Hd 20 ltac:(lia)).
  assert (H25 : v / 2 ^ 25 = 32 * (v / 2 ^ 30) + v / 2 ^ 25 mod 32) by exact (Hd 25 ltac:(lia)).
  assert (H30 : v / 2 ^ 30 = 32 * (v / 2 ^ 35) + v / 2 ^ 30 mod 32) by exact (Hd 30 ltac:(lia)).
  assert (H35 : v / 2 ^ 35 = 32 * (v / 2 ^ 40) + v / 2 ^ 35 mod 32) by exact (Hd 35 ltac:(lia)).
  clear Hd. rewrite Z.pow_0_r, Z.div_1_r in H0.
  assert (H40 : v / 2 ^ 40 = 0) by (apply Z.div_small; lia). rewrite H40 in H35. clear H40.
  set (d0 := v mod 32) in *. set (d1 := v / 2 ^ 5 mod 32) in *. set (d2 := v / 2 ^ 10 mod 32) in *.
  set (d3 := v / 2 ^ 15 mod 32) in *. set (d4 := v / 2 ^ 20 mod 32) in *. set (d5 := v / 2 ^ 25 mod 32) in *.
  set (d6 := v / 2 ^ 30 mod 32) in *. set (d7 := v / 2 ^ 35 mod 32) in *. lia.
Qed.

(** Filling up the last group with zeros loses nothing. *)
Lemma digits_take n v : (n <= 8)%nat -> 0 <= v < 2 ^ 40 -> v mod 2 ^ (40 - 5 * Z.of_nat n) = 0 ->
  take 8 (take n (digits v) ++ replicate 8 0) = digits v.
Proof.
  intros Hn Hv Hm. assert (Hz : forall k, 0 <= k -> k + 5 <= 40 - 5 * Z.of_nat n -> v / 2 ^ k mod 32 = 0).
  { intros k Hk1 Hk2. apply Z.mod_divide in Hm as [w Hw]; [|lia].
    replace (40 - 5 * Z.of_nat n) with ((40 - 5 * Z.of_nat n - 5 - k) + 5 + k) in Hw by lia.
    rewrite !Z.pow_add_r, !Z.mul_assoc in Hw by lia. rewrite Hw, Z.div_mul by lia. apply Z.mod_mul. lia. }
  unfold digits. pose proof (Hz 0) as H0. rewrite Z.pow_0_r, Z.div_1_r in H0.
  do 9 (destruct n as [|n]; [cbn [take app replicate];
    try rewrite (Hz 35) by lia; try rewrite (Hz 30) by lia; try rewrite (Hz 25) by lia; try rewrite (Hz 20) by lia;
    try rewrite (Hz 15) by lia; try rewrite (Hz 10) by lia; try rewrite (Hz 5) by lia; try rewrite H0 by lia; reflexivity|]).
  lia.
Qed.

Lemma pack_value n v : (n <= 8)%nat -> 0 <= v < 2 ^ 40 -> v mod 2 ^ (40 - 5 * Z.of_nat n) = 0 ->
  foldl (fun v x => v * 32 + x) 0 (take 8 (take n (digits v) ++ replicate 8 0)) = v.
Proof. intros Hn Hv Hm. rewrite digits_take by done. by apply digits_fold. Qed.

Ltac packed n v :=
  unfold pack; rewrite (pack_value n v) by (first [lia | unfold v; cbn; Z.div_mod_to_equations; lia]);
  change (length (take n (digits v))) with n; cbv iota beta; cbn [app]; unfold v; repeat f_equal; apply z2b_eq; Z.div_mod_to_equations; lia.

Lemma group_end vs fuel : Forall (fun v => 0 <= v < 32) vs -> (0 < length vs < 8)%nat ->
  decode_groups (S fuel) (char <$> vs) = Some (pack vs).
Proof.
  intros Hvs Hl. assert (H : read_group 8 (char <$> vs) [] = Some (vs, true, [])).
  { pose proof (read_group_chars vs (8 - length vs) [] [] Hvs) as H.
    rewrite app_nil_r, app_nil_l in H. replace (length vs + (8 - length vs))%nat with 8%nat in H by lia.
    rewrite H. destruct (8 - length vs)%nat eqn:E; [lia|]. done. }
  destruct vs as [|v vs]; [cbn in Hl; lia|].
  change (decode_groups (S fuel) (char <$> v :: vs)) with
    ('(g, ended, src) ← read_group 8 (char <$> v :: vs) [];
     if ended : bool then Some (pack g) else t ← decode_groups fuel src; Some (pack g ++ t)).
  by rewrite H.
Qed.

Lemma group_full vs src fuel : Forall (fun v => 0 <= v < 32) vs -> length vs = 8%nat ->
  decode_groups (S fuel) ((char <$> vs) ++ src) = t ← decode_groups fuel src; Some (pack vs ++ t).
Proof.
  intros Hvs Hl. assert (H : read_group 8 ((char <$> vs) ++ src) [] = Some (vs, false, src)).
  { pose proof (read_group_chars vs 0 src [] Hvs) as H. rewrite Hl in H. exact H. }
  destruct vs as [|v vs]; [done|].
  change (decode_groups (S fuel) ((char <$> v :: vs) ++ src)) with
    ('(g, ended, src) ← read_group 8 ((char <$> v :: vs) ++ src) [];
     if ended : bool then Some (pack g) else t ← decode_groups fuel src; Some (pack g ++ t)).
  by rewrite H.
Qed.

Lemma decode_Encode s fuel : (length s <= fuel)%nat -> decode_groups fuel (EncodeToString s) = Some s.
Proof.
  revert fuel. induction s as [|a|a b|a b c|a b c d|a b c d e s IH] using bytes_ind5; intros fuel Hf.
  { by destruct fuel. }
  all: destruct fuel as [|fuel]; [cbn in Hf; lia|]; cbn [EncodeToString]; cbv zeta;
    pose proof (b2z_range a); try pose proof (b2z_range b); try pose proof (b2z_range c);
    try pose proof (b2z_range d); try pose proof (b2z_range e).
  - set (v := b2z a * 2 ^ 32). etransitivity; [apply (group_end [_; _]); [small32|cbn; lia]|].
    change [v / 2 ^ 35 mod 32; v / 2 ^ 30 mod 32] with (take 2 (digits v)). packed 2%nat v.
  - set (v := b2z a * 2 ^ 32 + _). etransitivity; [apply (group_end [_; _; _; _]); [small32|cbn; lia]|].
    match goal with |- Some (pack ?l) = _ => change l with (take 4 (digits v)) end. packed 4%nat v.
  - set (v := b2z a * 2 ^ 32 + _ + _). etransitivity; [apply (group_end [_; _; _; _; _]); [small32|cbn; lia]|].
    match goal with |- Some (pack ?l) = _ => change l with (take 5 (digits v)) end. packed 5%nat v.
  - set (v := b2z a * 2 ^ 32 + _ + _ + _).
    etransitivity; [apply (group_end [_; _; _; _; _; _; _]); [small32|cbn; lia]|].
    match goal with |- Some (pack ?l) = _ => change l with (take 7 (digits v)) end. packed 7%nat v.
  - set (v := b2z a * 2 ^ 32 + _ + _ + _ + _).
    etransitivity; [apply (group_full [_; _; _; _; _; _; _; _]); [small32|done]|].
    rewrite IH by (cbn in Hf; lia). cbn [mbind option_bind].
    match goal with |- Some (pack ?l ++ _) = _ => change l with (take 8 (digits v)) end. packed 8%nat v.
Qed.

Lemma Encode_chars s : Forall (fun b => (b <> x0a /\ b <> x0d) /\ b2z b < 0x80) (EncodeToString s).
Proof.
  assert (Hc : forall x, (char (x mod 32) <> x0a /\ char (x mod 32) <> x0d) /\ b2z (char (x mod 32)) < 0x80).
  { intros x. destruct (char_ok (x mod 32)) as (_ & ? & ? & _ & ?); [apply Z.mod_pos_bound; lia|done]. }
  induction s as [|a|a b|a b c|a b c d|a b c d e s IH] using bytes_ind5; cbn [EncodeToString]; cbv zeta;
    repeat (apply List.Forall_cons; [apply Hc|]); try apply List.Forall_nil. exact IH.
Qed.

Lemma Encode_length s : (length s <= length (EncodeToString s))%nat.
Proof. induction s using bytes_ind5; cbn [EncodeToString length]; cbv zeta; cbn [length]; lia. Qed.

Lemma roundtrip s : DecodeString (EncodeToString s) = Some s.
Proof.
  unfold DecodeString.
  assert (E : filter (fun b => b <> x0a /\ b <> x0d) (EncodeToString s) = EncodeToString s).
  { induction (Encode_chars s) as [|b t [Hb _] Ht IH]; [done|]. rewrite filter_cons_True by done. by f_equal. }
  rewrite E. apply decode_Encode, Encode_length.
Qed.
End Base32.

(** * crypt/types/types.go *)
Module CryptTypes.

Definition CryptType : Type := Z.

Definition CryptType_Unknown : CryptType := 0.

Definition CryptType_BLS12381 : CryptType := 1.

Definition CryptType_Secp256 : CryptType := 2.

Definition CryptType_Ed25519 : CryptType := 3.

Definition CryptType_String (c : CryptType) : bytes :=
  if c =? CryptType_BLS12381 then str "BLS12381"
  else if c =? CryptType_Secp256 then str "Secp256"
  else if c =? CryptType_Ed25519 then str "Ed25519"
  else str "Unknown".

Definition CryptType_Value (cryptType : bytes) : CryptType :=
  if decide (cryptType = str "BLS12381") then CryptType_BLS12381
  else if decide (cryptType = str "Secp256") then CryptType_Secp256
  else if decide (cryptType = str "Ed25519") then CryptType_Ed25519
  else CryptType_Unknown.
End CryptTypes.

(** * crypt/types/address.go, contract_address.go *)
Module Address.
Import CryptTypes.

Definition AddressLen_ETH : Z := 20.

Definition AddressLen_Secp256 : Z := 20.

Definition AddressLen_BLS12381 : Z := 48.

Definition AddressLen_ED25519 : Z := 32.

Definition MainnetPrefix : bytes := str "m".

Definition TestnetPrefix : bytes := str "t".

Definition checksumHashLength : Z := 4.

Definition UndefAddress : bytes := str "<empty>".

Inductive addr_error :=
| EPayload
| ENetwork
| ECrypt
| EBase32
| EChecksum
| ELength
| EEmpty
| EEth.

Section Hash.

(** [NewBlake2bHasher(size).Compute] *)
Variable blake2b : Z -> bytes -> bytes.

(** [tpcmm.CurrentNetworkType] *)
Variable CurrentNetworkType : NetworkType.

Definition checksum (data : bytes) : bytes := blake2b checksumHashLength data.

Definition validateChecksum (data expect : bytes) : bool := bool_decide (checksum data = expect).

Definition encode (network : NetworkType) (cryptType : CryptType) (payload : bytes) : addr_error + bytes :=
  if len payload =? 0 then inl EPayload
  else
    match (if network =? NetworkType_Mainnet then Some MainnetPrefix
           else if network =? NetworkType_Testnet then Some TestnetPrefix else None) with
    | None => inl ENetwork
    | Some ntwPrefix =>
        if (cryptType =? CryptType_BLS12381) || (cryptType =? CryptType_Secp256) || (cryptType =? CryptType_Ed25519) then
          let cksm := checksum (z2b cryptType :: payload) in
          inr (ntwPrefix ++ FormatUint cryptType ++ Base32.EncodeToString (payload ++ cksm))
        else inl ECrypt
    end.

(** The results of [decode]; the payload of the empty addresses is nil. *)
Definition decoded_address : Type := NetworkType * CryptType * option bytes.

(** Indexing [a[1]] panics on an address of one character. *)
Definition decode (a : bytes) : outcome addr_error decoded_address :=
  if bool_decide (a = []) then Ok (NetworkType_Unknown, CryptType_Unknown, None)
  else if bool_decide (a = UndefAddress) then Ok (NetworkType_Unknown, CryptType_Unknown, None)
  else
    match a with
    | [] => Panic
    | a0 :: a1_raw =>
        if bool_decide ([a0] <> MainnetPrefix /\ [a0] <> TestnetPrefix) then Err ENetwork
        else
          match a1_raw with
          | [] => Panic
          | a1 :: raw =>
              match (if Byte.eqb a1 "1" then Some CryptType_BLS12381
                     else if Byte.eqb a1 "2" then Some CryptType_Secp256
                     else if Byte.eqb a1 "3" then Some CryptType_Ed25519 else None) with
              | None => Err ECrypt
              | Some cryptType =>
                  match Base32.DecodeString raw with
                  | None => Err EBase32
                  | Some payloadcksm =>
                      if len payloadcksm - checksumHashLength <? 0 then Err EChecksum
                      else
                        let n := Z.to_nat (len payloadcksm - checksumHashLength) in
                        let payload := take n payloadcksm in
                        let cksm := drop n payloadcksm in
                        if (cryptType =? CryptType_Secp256) && negb (len payload =? AddressLen_Secp256) then Err ELength
                        else if (cryptType =? CryptType_BLS12381) && negb (len payload =? AddressLen_BLS12381) then Err ELength
                        else if (cryptType =? CryptType_Ed25519) && negb (len payload =? AddressLen_ED25519) then Err ELength
                        else if negb (validateChecksum (z2b cryptType :: payload) cksm) then Err EChecksum
                        else Ok (NetworkType_Value a0, cryptType, Some payload)
                  end
              end
          end
    end.

Definition NewAddress (cryptType : CryptType) (payload : bytes) : addr_error + bytes :=
  encode CurrentNetworkType cryptType payload.

Definition NewFromString (addr : bytes) : go bytes :=
  match decode addr with
  | Ok _ => Ok addr
  | Err _ => Ok UndefAddress
  | Panic => Panic
  end.

Definition NewFromBytes (addr : bytes) : bytes := addr.

(** The three accessors give the zero value with an error. *)
Definition accessor {A} (f : decoded_address -> A) (a : bytes) : outcome addr_error A :=
  if len a =? 0 then Err EEmpty else d ← decode a; Ok (f d).

Definition NetworkType (a : bytes) : outcome addr_error Types.NetworkType := accessor (fun d => d.1.1) a.

Definition CryptType (a : bytes) : outcome addr_error CryptTypes.CryptType := accessor (fun d => d.1.2) a.

Definition Payload (a : bytes) : outcome addr_error (option bytes) := accessor (fun d => d.2) a.

(** Ethereum and BLS sizes; [AddressLen_BLS12381] is not doubled. *)
Definition IsHexs (a : bytes) : bool :=
  let t := if Has0xPrefix a then drop 2 a else a in
  let hexSize := len t in
  ((hexSize =? 2 * AddressLen_ETH) || (hexSize =? 2 * AddressLen_Secp256) || (hexSize =? AddressLen_BLS12381)) && IsHex t.

(** The first two characters are printed as numbers. *)
Definition HexString (a : bytes) : go bytes :=
  if negb (IsHexs a) then
    match a with
    | a0 :: a1 :: raw => Ok (FormatUint (b2z a0) ++ FormatUint (b2z a1) ++ Tx.hex_EncodeToString raw)
    | _ => Panic
    end
  else Ok a.

Definition IsValid (a : bytes) (netType : Types.NetworkType) : go bool :=
  match decode a with
  | Ok (nType, _, _) => Ok (nType =? netType)
  | Err _ => Ok false
  | Panic => Panic
  end.

Definition IsEth (a : bytes) : bool :=
  let t := if Has0xPrefix a then drop 2 a else a in
  ((len t =? 2 * AddressLen_ETH) && IsHex t) || (len t =? AddressLen_ETH).

(** [hex.DecodeString] with its error dropped: the bytes before the first
    character that is not a digit. *)
Definition hex_digit_value (c : byte) : option Z :=
  let z := b2z c in
  if (48 <=? z) && (z <=? 57) then Some (z - 48)
  else if (97 <=? z) && (z <=? 102) then Some (z - 87)
  else if (65 <=? z) && (z <=? 70) then Some (z - 55)
  else None.

Fixpoint hex_DecodePrefix (s : bytes) : bytes :=
  match s with
  | c1 :: c2 :: s =>
      match hex_digit_value c1, hex_digit_value c2 with
      | Some v1, Some v2 => z2b (v1 * 16 + v2) :: hex_DecodePrefix s
      | _, _ => []
      end
  | _ => []
  end.

Definition TopiaAddressFromEth (a : bytes) : addr_error + bytes :=
  if len a <? AddressLen_ETH then inl EEth
  else
    let tBytes :=
      if Has0xPrefix a then
        let t := drop 2 a in
        hex_DecodePrefix (if len t mod 2 =? 1 then "0"%byte :: t else t)
      else a in
    NewAddress CryptType_Secp256 tBytes.

Definition EthAddressFromTopia (a : bytes) : outcome addr_error (option bytes) :=
  '(_, cType, pLoad) ← decode a;
  if negb (cType =? CryptType_Secp256) then Err ECrypt else Ok pLoad.

Definition CreateNativeContractAddress (id : Z) : bytes :=
  match (if CurrentNetworkType =? NetworkType_Mainnet then Some MainnetPrefix
         else if CurrentNetworkType =? NetworkType_Testnet then Some TestnetPrefix else None) with
  | None => UndefAddress
  | Some ntwPrefix => ntwPrefix ++ str "0" ++ Base32.EncodeToString (replicate 12 x00 ++ Uint64ToBytes id)
  end.

Definition NativeContractAddr_Account : bytes := CreateNativeContractAddress 1.

Definition IsPayable (a : bytes) : bool := bool_decide (a <> NativeContractAddr_Account).

Definition IsNativeContractAddress (contractAddr : bytes) : bool := bool_decide (contractAddr = NativeContractAddr_Account).

Definition CreateUserContractAddress (fromAddr : bytes) (nonce : Z) : go bytes :=
  if bool_decide (fromAddr = [] \/ fromAddr = UndefAddress) then Panic
  else
    match Payload fromAddr with
    | Panic => Panic
    | r =>
        let fromPayload := match r with Ok (Some p) => p | _ => [] end in
        match NewAddress CryptType_Ed25519 (blake2b AddressLen_ED25519 (fromPayload ++ Uint64ToBytes nonce)) with
        | inr newAddr => Ok newAddr
        | inl _ => Ok UndefAddress
        end
    end.

(** ** Correctness *)

(** The digest has the size asked for. *)
Hypothesis blake2b_len : forall n x, 1 <= n <= 64 -> len (blake2b n x) = n.

Definition addr_len (c : CryptTypes.CryptType) : Z :=
  if c =? CryptType_BLS12381 then AddressLen_BLS12381
  else if c =? CryptType_Secp256 then AddressLen_Secp256 else AddressLen_ED25519.

Definition is_network (n : Types.NetworkType) : Prop := n = NetworkType_Mainnet \/ n = NetworkType_Testnet.

Definition is_crypt (c : CryptTypes.CryptType) : Prop :=
  c = CryptType_BLS12381 \/ c = CryptType_Secp256 \/ c = CryptType_Ed25519.

(** The text of an address. *)
Definition prefix_of (n : Types.NetworkType) : byte := if n =? NetworkType_Mainnet then "m"%byte else "t"%byte.

Definition digit_of (c : CryptTypes.CryptType) : byte :=
  if c =? CryptType_BLS12381 then "1"%byte else if c =? CryptType_Secp256 then "2"%byte else "3"%byte.

Definition text (n : Types.NetworkType) (c : CryptTypes.CryptType) (p : bytes) : bytes :=
  prefix_of n :: digit_of c :: Base32.EncodeToString (p ++ checksum (z2b c :: p)).

Lemma encode_text n c p a : encode n c p = inr a <-> is_network n /\ is_crypt c /\ p <> [] /\ a = text n c p.
Proof.
  unfold encode, is_network, is_crypt, text. destruct p as [|b p].
  { cbn. split; [done|]. by intros (_ & _ & ? & _). }
  change (len (b :: p) =? 0) with false. cbv iota.
  assert (Hq : b :: p <> []) by done. revert Hq. generalize (b :: p) as q. intros q Hq. split.
  - destruct (Z.eqb_spec n NetworkType_Mainnet) as [->|H1];
      [|destruct (Z.eqb_spec n NetworkType_Testnet) as [->|H2]; [|done]].
    all: destruct (Z.eqb_spec c CryptType_BLS12381) as [->|H3];
      [|destruct (Z.eqb_spec c CryptType_Secp256) as [->|H4];
        [|destruct (Z.eqb_spec c CryptType_Ed25519) as [->|H5]; [|done]]].
    all: intros [= <-]; split_and!; try naive_solver.
  - intros ([-> | ->] & [-> |[-> | ->]] & _ & ->); reflexivity.
Qed.
Lemma decode_text n c p : is_network n -> is_crypt c -> len p = addr_len c ->
  decode (text n c p) = Ok (n, c, Some p).
Proof.
  intros Hn Hc Hp. unfold text.
  assert (Hraw : Base32.DecodeString (Base32.EncodeToString (p ++ checksum (z2b c :: p))) = Some (p ++ checksum (z2b c :: p)))
    by apply Base32.roundtrip.
  assert (Hk : len (checksum (z2b c :: p)) = 4) by (apply blake2b_len; lia).
  assert (Hl : len (p ++ checksum (z2b c :: p)) - checksumHashLength = len p) by (rewrite len_app, Hk; unfold checksumHashLength; lia).
  assert (Hd : forall r, (Base32.DecodeString r = Some (p ++ checksum (z2b c :: p))) ->
    decode (prefix_of n :: digit_of c :: r) = Ok (n, c, Some p)); [|by apply Hd].
  intros r Hr. unfold decode. rewrite bool_decide_false by done.
  rewrite (bool_decide_false (_ = UndefAddress)) by (destruct Hn as [-> | ->]; done).
  rewrite bool_decide_false by (destruct Hn as [-> | ->]; intros [? ?]; done).
  assert (Hdig : (if Byte.eqb (digit_of c) "1" then Some CryptType_BLS12381
     else if Byte.eqb (digit_of c) "2" then Some CryptType_Secp256
     else if Byte.eqb (digit_of c) "3" then Some CryptType_Ed25519 else None) = Some c)
    by by destruct Hc as [-> |[-> | ->]].
  rewrite Hdig, Hr, Hl. rewrite (proj2 (Z.ltb_ge (len p) 0)) by apply len_nonneg. cbv zeta.
  rewrite len_nat, take_app_length, drop_app_length. unfold validateChecksum. rewrite bool_decide_true by done.
  assert (Hv : NetworkType_Value (prefix_of n) = n) by by destruct Hn as [-> | ->].
  destruct Hc as [-> |[-> | ->]]; cbn [addr_len Z.eqb] in Hp; cbn -[Z.eqb len text]; rewrite Hp, Hv; reflexivity.
Qed.

(** C29. Addresses survive their text form: for both networks, every key type
    and every payload of that type's length, [encode] gives a text that
    [decode] takes back to the network, the type and the payload, that is
    valid on its network, and that no other network, type or payload has. *)
Theorem address_roundtrip n c p : is_network n -> is_crypt c -> len p = addr_len c ->
  exists a, encode n c p = inr a /\ decode a = Ok (n, c, Some p) /\ IsValid a n = Ok true
  /\ forall n' c' p', encode n' c' p' = inr a -> n' = n /\ c' = c /\ p' = p.
Proof.
  intros Hn Hc Hp. exists (text n c p). pose proof (decode_text n c p Hn Hc Hp) as Hd. split_and!.
  - apply encode_text. split_and!; [done|done| |done]. intros ->. by destruct Hc as [-> |[-> | ->]].
  - done.
  - unfold IsValid. rewrite Hd. by rewrite Z.eqb_refl.
  - intros n' c' p' (Hn' & Hc' & _ & E)%encode_text. unfold text in E. injection E as E1 E2 E3.
    assert (n' = n) as -> by (destruct Hn as [-> | ->], Hn' as [-> | ->]; done).
    assert (c' = c) as -> by (destruct Hc as [-> |[-> | ->]], Hc' as [-> |[-> | ->]]; done).
    apply (f_equal Base32.DecodeString) in E3. rewrite !Base32.roundtrip in E3. injection E3 as E3.
    apply app_inj_2 in E3 as [-> _]; [done|]. apply Nat2Z.inj.
    change (len (checksum (z2b c :: p)) = len (checksum (z2b c :: p'))). unfold checksum. by rewrite !blake2b_len by (unfold checksumHashLength; lia).
Qed.
(** [decode] panics on exactly two texts, ["m"] and ["t"], where it indexes
    past the end; on every other text it returns an address or an error. *)
Theorem decode_panics_iff a : decode a = Panic <-> a = MainnetPrefix \/ a = TestnetPrefix.
Proof.
  split.
  - unfold decode. do 2 (case_bool_decide; [done|]). destruct a as [|a0 [|a1 raw]]; [done| |].
    + case_bool_decide as E; [done|]. intros _. destruct (decide ([a0] = MainnetPrefix)); [by left|].
      destruct (decide ([a0] = TestnetPrefix)); [by right|]. by destruct E.
    + case_bool_decide; [done|]. repeat case_match; done.
  - by intros [-> | ->].
Qed.

(** Native contract addresses have no checksum and the type digit 0: they are
    not valid addresses, and reading one back from text gives [UndefAddress]. *)
Lemma native_contract_address_invalid id : is_network CurrentNetworkType ->
  decode (CreateNativeContractAddress id) = Err ECrypt
  /\ NewFromString (CreateNativeContractAddress id) = Ok UndefAddress
  /\ IsValid (CreateNativeContractAddress id) CurrentNetworkType = Ok false.
Proof.
  intros Hn. assert (E : decode (CreateNativeContractAddress id) = Err ECrypt).
  { unfold CreateNativeContractAddress. by destruct Hn as [-> | ->]. }
  unfold NewFromString, IsValid. by rewrite E.
Qed.

(** *** Ethereum addresses *)

Lemma hex_digit_value_digit v : 0 <= v < 16 -> hex_digit_value (Tx.hex_digit v) = Some v.
Proof.
  intros Hv. assert (Hin : v ∈ seqZ 0 16) by (apply elem_of_seqZ; lia).
  assert (Hall : forallb (fun v => bool_decide (hex_digit_value (Tx.hex_digit v) = Some v)) (seqZ 0 16) = true)
    by (vm_compute; reflexivity).
  rewrite forallb_forall in Hall. apply (bool_decide_eq_true_1 _). apply Hall. by apply list_elem_of_In.
Qed.

Lemma hex_roundtrip p : hex_DecodePrefix (Tx.hex_EncodeToString p) = p.
Proof.
  induction p as [|b p IH]; [done|]. unfold Tx.hex_EncodeToString in *. cbn [fmap list_fmap concat app Tx.hex_byte].
  cbn [hex_DecodePrefix]. pose proof (b2z_range b). rewrite Z.shiftr_div_pow2, (Z.land_ones _ 4) by lia.
  change (2 ^ 4) with 16. rewrite !hex_digit_value_digit by (Z.div_mod_to_equations; lia). f_equal; [|done].
  apply z2b_eq. Z.div_mod_to_equations; lia.
Qed.

Lemma hex_length p : len (Tx.hex_EncodeToString p) = 2 * len p.
Proof.
  induction p as [|b p IH]; [done|]. unfold Tx.hex_EncodeToString in *. cbn [fmap list_fmap concat app Tx.hex_byte].
  rewrite !len_cons, IH. lia.
Qed.

(** An Ethereum address in hexadecimal, with its 0x prefix, becomes an
    address of the current network whose key is the twenty bytes it denotes,
    and [EthAddressFromTopia] gives those bytes back. *)
Theorem eth_address_roundtrip p : is_network CurrentNetworkType -> len p = AddressLen_ETH ->
  IsEth (str "0x" ++ Tx.hex_EncodeToString p) = true
  /\ exists a, TopiaAddressFromEth (str "0x" ++ Tx.hex_EncodeToString p) = inr a
  /\ IsValid a CurrentNetworkType = Ok true /\ EthAddressFromTopia a = Ok (Some p).
Proof.
  intros Hn Hp. unfold AddressLen_ETH in Hp. pose proof (hex_length p) as Hl. split.
  - unfold IsEth. change (Has0xPrefix (str "0x" ++ Tx.hex_EncodeToString p)) with true. cbv iota.
    change (drop 2 (str "0x" ++ Tx.hex_EncodeToString p)) with (Tx.hex_EncodeToString p).
    rewrite Hl, Hp. cbn [Z.eqb AddressLen_ETH].
    assert (Hx : IsHex (Tx.hex_EncodeToString p) = true).
    { unfold IsHex. replace (Nat.even (length (Tx.hex_EncodeToString p))) with true.
      - cbn [negb]. clear. induction p as [|b p IH]; [done|]. unfold Tx.hex_EncodeToString in *.
        cbn [fmap list_fmap concat app Tx.hex_byte forallb]. rewrite IH, andb_true_r. by destruct b.
      - symmetry. apply Nat.even_spec. exists (length p). unfold len in Hl. lia. }
    by rewrite Hx.
  - exists (text CurrentNetworkType CryptType_Secp256 p).
    pose proof (decode_text CurrentNetworkType CryptType_Secp256 p Hn ltac:(by right; left) Hp) as Hd. split_and!.
    + unfold TopiaAddressFromEth. change (Has0xPrefix (str "0x" ++ Tx.hex_EncodeToString p)) with true. cbv iota.
      change (drop 2 (str "0x" ++ Tx.hex_EncodeToString p)) with (Tx.hex_EncodeToString p).
      rewrite len_app, Hl, Hp. cbn [Z.ltb]. change (len (str "0x") + 2 * 20 <? AddressLen_ETH) with false.
      change (2 * 20 mod 2 =? 1) with false. cbv iota zeta. rewrite hex_roundtrip. unfold NewAddress.
      apply encode_text. split_and!; [done|by right; left| |done]. intros ->. done.
    + unfold IsValid. rewrite Hd. by rewrite Z.eqb_refl.
    + unfold EthAddressFromTopia. by rewrite Hd.
Qed.
End Hash.

(** A digest to run the examples with. *)
Definition toy_hash (n : Z) (x : bytes) : bytes := replicate (Z.to_nat n) (z2b (len x)).

Lemma toy_hash_len n x : 1 <= n <= 64 -> len (toy_hash n x) = n.
Proof. intros Hn. unfold len, toy_hash. rewrite length_replicate. lia. Qed.

Definition key20 : bytes := z2b <$> seqZ 1 20.

Lemma address_roundtrip_witness :
  exists a, encode toy_hash NetworkType_Testnet CryptType_Secp256 key20 = inr a
  /\ decode toy_hash a = Ok (NetworkType_Testnet, CryptType_Secp256, Some key20).
Proof.
  destruct (address_roundtrip toy_hash toy_hash_len NetworkType_Testnet CryptType_Secp256 key20) as (a & H1 & H2 & _).
  - by right.
  - by right; left.
  - reflexivity.
  - exists a. split; [exact H1|exact H2].
Defined.

Lemma eth_address_roundtrip_witness :
  exists a, TopiaAddressFromEth toy_hash NetworkType_Testnet (str "0x" ++ Tx.hex_EncodeToString key20) = inr a
  /\ EthAddressFromTopia toy_hash a = Ok (Some key20).
Proof.
  destruct (eth_address_roundtrip toy_hash NetworkType_Testnet toy_hash_len key20) as (_ & a & H1 & _ & H2).
  - by right.
  - reflexivity.
  - exists a. split; [exact H1|exact H2].
Defined.

(** Without the prefix the forty digits themselves are taken as the key:
    [IsEth] accepts the text, and the address made of it does not decode. *)
Lemma eth_without_prefix_invalid :
  IsEth (Tx.hex_EncodeToString key20) = true
  /\ exists a, TopiaAddressFromEth toy_hash NetworkType_Testnet (Tx.hex_EncodeToString key20) = inr a
  /\ decode toy_hash a = Err ELength.
Proof. split; [by vm_compute|]. eexists. split; [vm_compute; reflexivity|]. by vm_compute. Qed.

(** The last character of a text has bits that no byte of the key uses, and
    line breaks are skipped: different texts decode to the same key. *)
Lemma address_malleable :
  exists a a1 a2, encode toy_hash NetworkType_Testnet CryptType_Secp256 key20 = inr a
  /\ a1 <> a /\ a2 <> a
  /\ decode toy_hash a1 = decode toy_hash a /\ decode toy_hash a2 = decode toy_hash a.
Proof.
  eexists. set (a := inr _). exists (match encode toy_hash NetworkType_Testnet CryptType_Secp256 key20 with
    inr a => removelast a ++ [Base32.char 9] | _ => [] end).
  exists (match encode toy_hash NetworkType_Testnet CryptType_Secp256 key20 with inr a => a ++ [x0a] | _ => [] end).
  split; [unfold a; vm_compute; reflexivity|]. by split_and!; vm_compute.
Qed.
End Address.
