(* ===== verification/Account.v ===== *)
(** Accounts (src/account) and their registry in the state (src/state/account):
    permissions, tokens, balances, their JSON forms, and the account store. *)
From Stdlib Require Import ZArith Lia Strings.Byte.
From stdpp Require Import base gmap list strings sorting.
From S2P Require Import Prelude Common Backend Wire Text Json JsonCodec TxBasic Address StateBase.
Import Util Types Json JsonCodec.
#[local] Open Scope Z_scope.

(** * account *)
Module Account.

Definition TokenSymbol_Native : bytes := str "TPA".

Definition PermissionModel : Type := Z.

Definition PermissionModel_Unknown : PermissionModel := 0.

Definition PermissionModel_ROOT : PermissionModel := 1.

Definition PermissionModel_ContractMethod : PermissionModel := 2.

Definition PermissionModel_String (model : PermissionModel) : bytes :=
  if model =? PermissionModel_ROOT then str "ROOT"
  else if model =? PermissionModel_ContractMethod then str "ContractMethod"
  else str "Unknown".

Definition PermissionModel_Value (ms : bytes) : PermissionModel :=
  if decide (ms = str "ROOT") then PermissionModel_ROOT
  else if decide (ms = str "ContractMethod") then PermissionModel_ContractMethod
  else PermissionModel_Unknown.

(** The two implementations of the interface; the map is from contract
    addresses to methods, and it and its slices may be nil. *)
Inductive Permission :=
| PermissionRoot
| PermissionContractMethod (GasLimit : Z) (MethodsMap : option (gmap bytes (option (list bytes)))).

#[export] Instance Permission_eq_dec : EqDecision Permission.
Proof. solve_decision. Defined.

Definition NewPermissionRoot : Permission := PermissionRoot.

Definition NewPermissionContractMethod (gasLimit : Z) : Permission := PermissionContractMethod gasLimit (Some ∅).

Definition IsRoot (p : Permission) : bool := match p with PermissionRoot => true | PermissionContractMethod _ _ => false end.

(** The slice of a contract's methods is sorted in place by the search. *)
Definition search_methods (addrStr method : bytes) (m : option (gmap bytes (option (list bytes)))) :
    option bool * option (gmap bytes (option (list bytes))) :=
  match m with
  | None => (None, m)
  | Some mm =>
      match mm !! addrStr with
      | None => (None, m)
      | Some None => (Some false, m)
      | Some (Some methods) =>
          let '(found, methods) := IsContainString method methods in (Some found, Some (<[addrStr:=Some methods]> mm))
      end
  end.

(** The method is appended to a local variable: the map does not get it. *)
Definition AddMethod (p : Permission) (contractAddr method : bytes) : go Permission :=
  match p with
  | PermissionRoot => Ok p
  | PermissionContractMethod g m =>
      if bool_decide (method = []) then Ok p
      else
        addrStr ← Address.HexString contractAddr;
        Ok (PermissionContractMethod g (search_methods addrStr method m).2)
  end.

(** The shortened slice is dropped. *)
Definition RemoveMethod (p : Permission) (contractAddr method : bytes) : go Permission :=
  match p with
  | PermissionRoot => Ok p
  | PermissionContractMethod g m => _ ← Address.HexString contractAddr; Ok p
  end.

Definition HasMethodPerm (p : Permission) (contractAddr method : bytes) : go (bool * Permission) :=
  match p with
  | PermissionRoot => Ok (true, p)
  | PermissionContractMethod g m =>
      addrStr ← Address.HexString contractAddr;
      let '(found, m) := search_methods addrStr method m in
      Ok (default false found, PermissionContractMethod g m)
  end.

(** The gas limit plays no part. *)
Definition SamePerm (p other : Permission) : bool :=
  match p, other with
  | PermissionRoot, _ => IsRoot other
  | PermissionContractMethod _ m, PermissionContractMethod _ m' => bool_decide (m = m')
  | PermissionContractMethod _ _, PermissionRoot => false
  end.

(** ** JSON of permissions *)

Definition j_root : codec unit := j_struct tt [].

Record pmObj := mkPmObj { pm_GasLimit : Z; pm_MethodsMap : option (gmap bytes (option (list bytes))) }.

Definition j_pmObj : codec pmObj :=
  j_struct (mkPmObj 0 None)
    [fld "GasLimit" (j_uint 64) pm_GasLimit (fun x p => mkPmObj x (pm_MethodsMap p));
     fld "MethodsMap" (j_map (j_slice j_string)) pm_MethodsMap (fun x p => mkPmObj (pm_GasLimit p) x)].

Definition Permission_MarshalJSON (p : Permission) : bytes :=
  match p with
  | PermissionRoot => Marshal j_root tt
  | PermissionContractMethod g m => Marshal j_pmObj (mkPmObj g m)
  end.

Definition PermissionRoot_UnmarshalJSON (data : bytes) : outcome json_error Permission :=
  _ ← Unmarshal j_root data (zero j_root); Ok PermissionRoot.

Definition PermissionContractMethod_UnmarshalJSON (data : bytes) : outcome json_error Permission :=
  o ← Unmarshal j_pmObj data (zero j_pmObj); Ok (PermissionContractMethod (pm_GasLimit o) (pm_MethodsMap o)).

(** ** Tokens *)

Record AccountToken := mkAccountToken {
  tk_Nonce : Z;
  permMode : PermissionModel;
  tk_Permission : option Permission;
}.

Definition NewAccountToken (perm : Permission) : AccountToken :=
  mkAccountToken 0 (if IsRoot perm then PermissionModel_ROOT else PermissionModel_ContractMethod) (Some perm).

Record TokenData := mkTokenData { td_Nonce : Z; td_PermMode : PermissionModel; td_PermissionData : option bytes }.

Definition j_TokenData : codec TokenData :=
  j_struct (mkTokenData 0 0 None)
    [fld "Nonce" (j_uint 64) td_Nonce (fun x t => mkTokenData x (td_PermMode t) (td_PermissionData t));
     fld "PermMode" (j_int 64) td_PermMode (fun x t => mkTokenData (td_Nonce t) x (td_PermissionData t));
     fld "PermissionData" j_bytes td_PermissionData (fun x t => mkTokenData (td_Nonce t) (td_PermMode t) x)].

(** [MarshalJSON]; it panics on a token without a permission ([marshals]). *)
Definition AccountToken_MarshalJSON (t : AccountToken) : json :=
  enc j_TokenData (mkTokenData (tk_Nonce t) (permMode t) (Permission_MarshalJSON <$> tk_Permission t)).

(** Reading a permission by the mode; an unknown mode panics. *)
Definition read_permission (mode : PermissionModel) (data : bytes) : outcome json_error Permission :=
  if mode =? PermissionModel_ROOT then PermissionRoot_UnmarshalJSON data
  else if mode =? PermissionModel_ContractMethod then PermissionContractMethod_UnmarshalJSON data
  else Panic.

Definition AccountToken_UnmarshalJSON (j : json) : outcome json_error AccountToken :=
  '(d, bad) ← dec j_TokenData j (zero j_TokenData);
  if bad : bool then Err ErrUnmarshaler
  else
    match read_permission (td_PermMode d) (default [] (td_PermissionData d)) with
    | Ok perm => Ok (mkAccountToken (td_Nonce d) (td_PermMode d) (Some perm))
    | Err _ => Err ErrUnmarshaler
    | Panic => Panic
    end.

(** A [*AccountToken], which has its own JSON methods. *)
Definition j_AccountToken : codec (option AccountToken) :=
  mkCodec None
    (fun t => match t with None => JNull | Some t => AccountToken_MarshalJSON t end)
    (fun j _ => match j with
                | JNull => Ok (None, false)
                | _ => t ← AccountToken_UnmarshalJSON j; Ok (Some t, false)
                end).

(** ** Accounts *)

Definition AccountVersion_V1 : Z := 1.

(** The balances are pointers to big integers; the map may be nil. *)
Record Account := mkAccount {
  Addr : bytes;
  Nonce : Z;
  Name : bytes;
  Token : option AccountToken;
  Balances : option (gmap bytes (option Z));
  CodeHash : bytes;
  Version : Z;
}.

Definition j_Account : codec Account :=
  j_struct (mkAccount [] 0 [] None None [] 0)
    [fld "Addr" j_string Addr
       (fun x a => mkAccount x (Nonce a) (Name a) (Token a) (Balances a) (CodeHash a) (Version a));
     fld "Nonce" (j_uint 64) Nonce
       (fun x a => mkAccount (Addr a) x (Name a) (Token a) (Balances a) (CodeHash a) (Version a));
     fld "Name" j_string Name
       (fun x a => mkAccount (Addr a) (Nonce a) x (Token a) (Balances a) (CodeHash a) (Version a));
     fld "Token" j_AccountToken Token
       (fun x a => mkAccount (Addr a) (Nonce a) (Name a) x (Balances a) (CodeHash a) (Version a));
     fld "Balances" (j_map j_big) Balances
       (fun x a => mkAccount (Addr a) (Nonce a) (Name a) (Token a) x (CodeHash a) (Version a));
     fld "CodeHash" j_string CodeHash
       (fun x a => mkAccount (Addr a) (Nonce a) (Name a) (Token a) (Balances a) x (Version a));
     fld "Version" (j_uint 64) Version
       (fun x a => mkAccount (Addr a) (Nonce a) (Name a) (Token a) (Balances a) (CodeHash a) x)].

(** [json.Marshal] of the account does not panic. *)
Definition marshals (a : Account) : bool :=
  match Token a with Some (mkAccountToken _ _ None) => false | _ => true end.

Definition AccountName_IsValid (_ : bytes) : bool := true.

(** The child's name ends in the parent's. *)
Definition IsChild (an other : bytes) : bool :=
  if negb (AccountName_IsValid other) then false else bool_decide (an `suffix_of` other).

Definition NewDefaultAccount (addr : bytes) : Account :=
  mkAccount addr 0 [] (Some (NewAccountToken NewPermissionRoot)) (Some ∅) [] AccountVersion_V1.

Definition NewContractControlAccount (addr name : bytes) (gasLimit : Z) : go Account :=
  if negb (AccountName_IsValid name) then Panic
  else Ok (mkAccount addr 0 name (Some (NewAccountToken (NewPermissionContractMethod gasLimit))) (Some ∅) [] AccountVersion_V1).

Definition NativeContractAccount_Account (network : NetworkType) : Account :=
  NewDefaultAccount (Address.NativeContractAddr_Account network).

Definition set_Balances (a : Account) (b : option (gmap bytes (option Z))) : Account :=
  mkAccount (Addr a) (Nonce a) (Name a) (Token a) b (CodeHash a) (Version a).

Definition set_Nonce (a : Account) (n : Z) : Account :=
  mkAccount (Addr a) n (Name a) (Token a) (Balances a) (CodeHash a) (Version a).

Definition BindName (a : Account) (name : bytes) : Account :=
  mkAccount (Addr a) (Nonce a) name (Token a) (Balances a) (CodeHash a) (Version a).

(** A nil balance, a nil value and a nil map panic. *)
Definition BalanceIncrease (a : Account) (symbol : bytes) (value : option Z) : go Account :=
  match Balances a, value with
  | Some m, Some v =>
      match m !! symbol with
      | Some None => Panic
      | Some (Some b) => Ok (set_Balances a (Some (<[symbol:=Some (b + v)]> m)))
      | None => Ok (set_Balances a (Some (<[symbol:=Some v]> m)))
      end
  | _, _ => Panic
  end.

Definition BalanceDecrease (a : Account) (symbol : bytes) (value : option Z) : go (Account + Account) :=
  match default ∅ (Balances a) !! symbol with
  | None => Ok (inl a)
  | Some b =>
      match b, value with
      | Some b, Some v =>
          if b <? v then Ok (inl a)
          else Ok (inr (set_Balances a (Some (<[symbol:=Some (b - v)]> (default ∅ (Balances a))))))
      | _, _ => Panic
      end
  end.

Definition NonceIncrease (a : Account) : Account := set_Nonce a (u64 (Nonce a + 1)).
End Account.

(** * state/account *)
Module AccountState.
Import Account.

Definition StateStore_Name_Account : bytes := str "account".

Section Ops.
Context {S : Type} `{!IStateStore S}.
Abbreviation cmd := (cmd S state_error).

Definition NewAccountState (s : S) (cacheSize : Z) : go S :=
  '(s, _) ← ss_AddNamedStateStore s StateStore_Name_Account cacheSize; Ok s.

Definition GetAccountRoot : cmd bytes := st_Root StateStore_Name_Account.

Definition GetAccountProof (addr : bytes) : cmd (option bytes) :=
  '(_, proof) ← reading (fun s => ss_GetState s StateStore_Name_Account addr); mret proof.

Definition IsAccountExist (addr : bytes) : cmd bool := ignoring false (st_Exists StateStore_Name_Account addr).

(** A missing account is an empty text, which is no JSON. *)
Definition GetAccount (addr : bytes) : cmd Account :=
  accBytes ← st_Get StateStore_Name_Account addr;
  unmarshal j_Account accBytes.

Definition GetNonce (addr : bytes) : cmd Z := acc ← GetAccount addr; mret (Nonce acc).

Definition GetBalance (addr symbol : bytes) : cmd (option Z) :=
  acc ← GetAccount addr;
  match default ∅ (Balances acc) !! symbol with
  | Some balVal => mret balVal
  | None => fail (ErrNoSymbol symbol addr)
  end.

Fixpoint accounts_loop (vals : list bytes) : cmd (list Account) :=
  match vals with
  | [] => mret []
  | val :: vals => acc ← unmarshal j_Account (Some val); accs ← accounts_loop vals; mret (acc :: accs)
  end.

Definition GetAllAccounts : cmd (list Account) :=
  '(keys, vals) ← st_GetAll StateStore_Name_Account;
  if negb (length keys =? length vals)%nat then fail (ErrLengths (Z.of_nat (length keys)) (Z.of_nat (length vals)))
  else accounts_loop vals.

(** [json.Marshal(acc)]; a nil account is [null]. *)
Definition marshal_account (acc : Account) : cmd bytes := if marshals acc then mret (Marshal j_Account acc) else crash.

Definition AddAccount (acc : option Account) : cmd unit :=
  match acc with
  | None => crash
  | Some acc =>
      isExist ← IsAccountExist (Addr acc);
      if isExist : bool then fail (ErrExists (Addr acc))
      else accBytes ← marshal_account acc; st_Put StateStore_Name_Account (Addr acc) accBytes
  end.

Definition UpdateAccount (account : option Account) : cmd unit :=
  match account with
  | None => crash
  | Some acc => accBytes ← marshal_account acc; st_Update StateStore_Name_Account (Addr acc) accBytes
  end.

Definition UpdateNonce (addr : bytes) (nonce : Z) : cmd unit :=
  acc ← GetAccount addr;
  UpdateAccount (Some (set_Nonce acc nonce)).

Definition UpdateBalance (addr symbol : bytes) (value : option Z) : cmd unit :=
  acc ← GetAccount addr;
  acc ← match default ∅ (Balances acc) !! symbol, Balances acc, value with
        | Some (Some _), Some m, Some v => mret (set_Balances acc (Some (<[symbol:=Some v]> m)))
        | Some _, _, _ => crash
        | None, Some m, _ => mret (set_Balances acc (Some (<[symbol:=value]> m)))
        | None, None, _ => crash
        end;
  UpdateAccount (Some acc).

Definition UpdateName (addr name : bytes) : cmd unit :=
  acc ← GetAccount addr;
  UpdateAccount (Some (BindName acc name)).
End Ops.
End AccountState.
