(* ===== verification/AccountSpec.v ===== *)
(** Correctness of accounts: their JSON forms are read back, adding and
    removing methods changes no permission, and the account state is a finite
    map from addresses to accounts. *)
From Stdlib Require Import ZArith Lia Strings.Byte.
From stdpp Require Import base gmap list strings sorting.
From S2P Require Import Prelude Common Backend Wire Text Json JsonCodec TxBasic Address StateBase Account.
Import Util Types Json JsonCodec.
#[local] Open Scope Z_scope.

Module AccountSpec.
Import Account AccountState.

(** * JSON round trips *)

Definition perm_ok (p : Permission) : Prop :=
  match p with
  | PermissionRoot => True
  | PermissionContractMethod g m => 0 <= g < 2 ^ 64 /\ map_ok (all_of utf8) m
  end.

Definition mode_of (p : Permission) : PermissionModel :=
  if IsRoot p then PermissionModel_ROOT else PermissionModel_ContractMethod.

Definition token_ok (t : AccountToken) : Prop :=
  0 <= tk_Nonce t < 2 ^ 64 /\ exists p, tk_Permission t = Some p /\ perm_ok p /\ permMode t = mode_of p.

Lemma root_lawful : lawful j_root (fun _ => True) 1.
Proof.
  change 1 with (1 + Z.max 0 0). apply struct_lawful; [constructor|done|by constructor|by intros []].
Qed.

Lemma methods_lawful : lawful (j_map (j_slice j_string)) (map_ok (all_of utf8)) 2.
Proof. apply (map_lawful _ _ 1), (slice_lawful _ _ 0), string_lawful. Qed.

#[local] Hint Resolve methods_lawful : json.

Lemma pmObj_lawful : lawful j_pmObj (fun o => 0 <= pm_GasLimit o < 2 ^ 64 /\ map_ok (all_of utf8) (pm_MethodsMap o)) 3.
Proof. change 3 with (1 + Z.max 0 2). unfold j_pmObj. solve_struct. Qed.

Lemma TokenData_lawful : lawful j_TokenData (fun t => 0 <= td_Nonce t < 2 ^ 64 /\ - 2 ^ 63 <= td_PermMode t < 2 ^ 63) 1.
Proof. change 1 with (1 + Z.max 0 0). unfold j_TokenData. solve_struct. Qed.

Lemma read_permission_Marshal p : perm_ok p -> read_permission (mode_of p) (Permission_MarshalJSON p) = Ok p.
Proof.
  intros Hp. destruct p as [|g m]; unfold read_permission, mode_of; cbn [IsRoot Permission_MarshalJSON].
  - change (PermissionModel_ROOT =? PermissionModel_ROOT) with true. cbv iota. unfold PermissionRoot_UnmarshalJSON.
    by rewrite (Unmarshal_Marshal j_root (fun _ => True) 1 tt root_lawful) by (unfold maxNestingDepth; first [lia | done]).
  - change (PermissionModel_ContractMethod =? PermissionModel_ROOT) with false.
    change (PermissionModel_ContractMethod =? PermissionModel_ContractMethod) with true. cbv iota.
    unfold PermissionContractMethod_UnmarshalJSON.
    by rewrite (Unmarshal_Marshal j_pmObj _ 3 (mkPmObj g m) pmObj_lawful) by (unfold maxNestingDepth; first [lia | done]).
Qed.

Lemma token_lawful : lawful j_AccountToken (opt_ok token_ok) 1.
Proof.
  assert (Hok : forall t, token_ok t -> let d := mkTokenData (tk_Nonce t) (permMode t) (Permission_MarshalJSON <$> tk_Permission t) in
    0 <= td_Nonce d < 2 ^ 64 /\ - 2 ^ 63 <= td_PermMode d < 2 ^ 63).
  { intros t (Hn & p & _ & _ & Hm). cbn. split; [done|]. rewrite Hm. unfold mode_of. destruct (IsRoot p); cbv; split; congruence. }
  split; intros [t|] Ht; cbn [j_AccountToken enc dec zero]; try done.
  - by apply (law_well _ _ _ TokenData_lawful), Hok.
  - by apply (law_height _ _ _ TokenData_lawful), Hok.
  - unfold AccountToken_MarshalJSON. unfold AccountToken_UnmarshalJSON.
    rewrite (law_dec _ _ _ TokenData_lawful _ (Hok t Ht)).
    destruct Ht as (Hn & p & Hp & Hpo & Hm). rewrite Hp. cbn [mbind outcome_bind fmap option_fmap option_map td_PermMode td_PermissionData td_Nonce].
    rewrite Hm. change (default [] (Some (Permission_MarshalJSON p))) with (Permission_MarshalJSON p).
    rewrite (read_permission_Marshal p Hpo). rewrite <- Hm. destruct t as [n m o]. cbn in *. by subst.
Qed.

(** An account as the code builds and keeps them: its balances are present. *)
Definition account_ok (a : Account) : Prop :=
  (utf8 (Addr a) /\ 0 <= Nonce a < 2 ^ 64 /\ utf8 (Name a) /\ opt_ok token_ok (Token a)
   /\ map_ok (fun _ => True) (Balances a) /\ utf8 (CodeHash a) /\ 0 <= Version a < 2 ^ 64)
  /\ exists m, Balances a = Some m /\ map_Forall (fun _ => is_Some) m.

Lemma balances_lawful : lawful (j_map j_big) (map_ok (fun _ => True)) 1.
Proof. apply (map_lawful _ _ 0), big_lawful. Qed.

#[local] Hint Resolve token_lawful balances_lawful : json.

Lemma Account_lawful : lawful j_Account account_ok 2.
Proof.
  assert (H : lawful j_Account (fun a => utf8 (Addr a) /\ 0 <= Nonce a < 2 ^ 64 /\ utf8 (Name a) /\ opt_ok token_ok (Token a)
   /\ map_ok (fun _ => True) (Balances a) /\ utf8 (CodeHash a) /\ 0 <= Version a < 2 ^ 64) 2).
  { change 2 with (1 + Z.max 0 1). unfold j_Account. solve_struct. }
  split; intros a [Ha _]; by apply H.
Qed.

Lemma NewDefaultAccount_ok addr : utf8 addr -> account_ok (NewDefaultAccount addr).
Proof.
  intros Ha. split; [split_and!; try done|].
  - cbn. split; [done|]. by exists PermissionRoot.
  - exists ∅. split; [done|]. apply map_Forall_empty.
Qed.

Lemma account_ok_marshals a : account_ok a -> marshals a = true.
Proof.
  intros [(_ & _ & _ & Ht & _) _]. unfold marshals. destruct (Token a) as [[n m [p|]]|]; try done.
  by destruct Ht as (_ & p & [=] & _).
Qed.
(** * Permissions *)

(** The searches agree before and after a search: sorting changes no answer. *)
Lemma search_methods_spec addr method m :
  (search_methods addr method m).1 =
    (match m with
     | Some mm => (fun l => bool_decide (method ∈ default [] l)) <$> mm !! addr
     | None => None
     end).
Proof.
  unfold search_methods. destruct m as [mm|]; [|done]. destruct (mm !! addr) as [[l|]|]; [| |done].
  - pose proof (IsContainString_spec method l) as H. destruct (IsContainString method l) as [b l']. cbn.
    destruct H as [H _]. f_equal. apply eq_true_iff_eq. by rewrite bool_decide_eq_true.
  - cbn. by rewrite bool_decide_false by apply not_elem_of_nil.
Qed.

Lemma search_methods_idem addr method m addr' method' :
  (search_methods addr' method' (search_methods addr method m).2).1 = (search_methods addr' method' m).1.
Proof.
  rewrite !search_methods_spec. unfold search_methods. destruct m as [mm|]; [|done].
  destruct (mm !! addr) as [[l|]|] eqn:E; [|done|done].
  pose proof (IsContainString_spec method l) as H. destruct (IsContainString method l) as [b l']. destruct H as (_ & H & _). cbn.
  destruct (decide (addr' = addr)) as [->|]; [|by rewrite lookup_insert_ne].
  rewrite lookup_insert_eq, E. cbn. f_equal. by apply bool_decide_ext; rewrite H.
Qed.

Definition allowed (p : Permission) (addr method : bytes) : go bool := x ← HasMethodPerm p addr method; Ok x.1.

(** Neither [AddMethod] nor [RemoveMethod] changes what a permission
    allows: whatever contract and method are asked for afterwards,
    [HasMethodPerm] answers as before. *)
Theorem methods_never_change p addr method p' :
  AddMethod p addr method = Ok p' \/ RemoveMethod p addr method = Ok p' ->
  forall addr' method', allowed p' addr' method' = allowed p addr' method'.
Proof.
  intros H addr' method'. unfold allowed. destruct p as [|g m]; cbn [AddMethod RemoveMethod HasMethodPerm] in *.
  { destruct H as [[= <-]|[= <-]]; done. }
  destruct H as [H|H].
  - case_bool_decide; [by injection H as <-|]. destruct (Address.HexString addr) as [a| |]; [|done|done].
    injection H as <-. cbn [HasMethodPerm]. destruct (Address.HexString addr') as [a'| |]; [|done|done].
    cbn [mbind outcome_bind]. pose proof (search_methods_idem a method m a' method') as E.
    destruct (search_methods a' method' (search_methods a method m).2), (search_methods a' method' m). cbn in *. by rewrite E.
  - destruct (Address.HexString addr) as [a| |]; [|done|done]. by injection H as <-.
Qed.

Lemma methods_never_change_witness :
  exists p', AddMethod (NewPermissionContractMethod 10) (str "t2abc") (str "transfer") = Ok p'
  /\ allowed p' (str "t2abc") (str "transfer") = Ok false.
Proof.
  exists (NewPermissionContractMethod 10). split; [vm_compute; reflexivity|].
  etransitivity;
    [apply (methods_never_change (NewPermissionContractMethod 10) (str "t2abc") (str "transfer") (NewPermissionContractMethod 10));
     left; vm_compute; reflexivity|vm_compute; reflexivity].
Defined.
(** * The account state *)

Inductive op :=
| OAdd (a : Account)
| OUpdate (a : Account)
| ONonce (addr : bytes) (nonce : Z)
| OBalance (addr symbol : bytes) (value : Z)
| OName (addr name : bytes).

(** A change of an account that is there; a missing one is a JSON error. *)
Definition change (addr : bytes) (f : Account -> Account) (m : gmap bytes Account) : gmap bytes Account * (state_error + unit) :=
  match m !! addr with
  | Some a => (<[addr:=f a]> m, inr tt)
  | None => (m, inl (ErrJson ErrSyntax))
  end.

Definition with_balance (symbol : bytes) (v : Z) (a : Account) : Account :=
  set_Balances a (Some (<[symbol:=Some v]> (default ∅ (Balances a)))).

Definition step (o : op) (m : gmap bytes Account) : gmap bytes Account * (state_error + unit) :=
  match o with
  | OAdd a => if bool_decide (is_Some (m !! Addr a)) then (m, inl (ErrExists (Addr a))) else (<[Addr a:=a]> m, inr tt)
  | OUpdate a => (<[Addr a:=a]> m, inr tt)
  | ONonce addr n => change addr (fun a => set_Nonce a n) m
  | OBalance addr symbol v => change addr (with_balance symbol v) m
  | OName addr name => change addr (fun a => BindName a name) m
  end.

Definition op_ok (o : op) : Prop :=
  match o with
  | OAdd a | OUpdate a => account_ok a /\ Addr a <> []
  | ONonce addr n => addr <> [] /\ 0 <= n < 2 ^ 64
  | OBalance addr symbol _ => addr <> [] /\ utf8 symbol
  | OName addr name => addr <> [] /\ utf8 name
  end.

Definition accounts_ok (m : gmap bytes Account) : Prop :=
  map_Forall (fun addr a => account_ok a /\ Addr a = addr /\ addr <> []) m.

Lemma change_ok f addr m : accounts_ok m -> addr <> [] ->
  (forall a, account_ok a -> account_ok (f a) /\ Addr (f a) = Addr a) -> accounts_ok (change addr f m).1.
Proof.
  intros Hm Hne Hf. unfold change. destruct (m !! addr) as [a|] eqn:E; [|done]. cbn.
  destruct (Hm addr a E) as (Ha & Haddr & _). destruct (Hf a Ha) as [Hfa Hfaddr].
  apply map_Forall_insert_2; [|done]. by rewrite Hfaddr.
Qed.

Lemma account_ok_edits a : account_ok a ->
  (forall n, 0 <= n < 2 ^ 64 -> account_ok (set_Nonce a n)) /\ (forall name, utf8 name -> account_ok (BindName a name))
  /\ (forall symbol v, utf8 symbol -> account_ok (with_balance symbol v a)).
Proof.
  intros [(H1 & H2 & H3 & H4 & H5 & H6 & H7) (m & Hm & Hs)]. split_and!.
  - intros n Hn. split; [done|]. by exists m.
  - intros name Hn. split; [done|]. by exists m.
  - intros symbol v Hv. split.
    + refine (conj H1 (conj H2 (conj H3 (conj H4 (conj _ (conj H6 H7)))))). unfold map_ok. cbn [with_balance set_Balances Balances from_option]. rewrite Hm. intros k x Hk.
      change (<[symbol:=Some v]> m !! k = Some x) in Hk. apply lookup_insert_Some in Hk as [[<- _]|[_ Hk]]; [done|]. apply (H5 k x). by rewrite Hm.
    + cbn. rewrite Hm. eexists. split; [done|]. by apply map_Forall_insert_2.
Qed.

Lemma step_ok o m : accounts_ok m -> op_ok o -> accounts_ok (step o m).1.
Proof.
  intros Hm Ho. destruct o as [a|a|addr n|addr symbol v|addr name]; cbn [step op_ok] in *.
  - destruct Ho. case_bool_decide; [done|]. by apply map_Forall_insert_2.
  - destruct Ho. by apply map_Forall_insert_2.
  - apply change_ok; [done|by apply Ho|]. intros a Ha. split; [by apply account_ok_edits, Ho|done].
  - apply change_ok; [done|by apply Ho|]. intros a Ha. split; [by apply account_ok_edits, Ho|done].
  - apply change_ok; [done|by apply Ho|]. intros a Ha. split; [by apply account_ok_edits, Ho|done].
Qed.

Section State.
Context {S : Type} `{!IStateStore S, !StateStoreLaws S}.
Abbreviation cmd := (cmd S state_error).

Definition run (o : op) : cmd unit :=
  match o with
  | OAdd a => AddAccount (Some a)
  | OUpdate a => UpdateAccount (Some a)
  | ONonce addr n => UpdateNonce addr n
  | OBalance addr symbol v => UpdateBalance addr symbol (Some v)
  | OName addr name => UpdateName addr name
  end.

(** The store holds the accounts [m], beside the other named stores [d]. *)
Definition account_rep (s : S) (d : gmap bytes kvmap) (m : gmap bytes Account) : Prop :=
  named s (<[StateStore_Name_Account:=Marshal j_Account <$> m]> d) /\ accounts_ok m.

Lemma GetAccount_spec s d m addr : account_rep s d m -> addr <> [] ->
  GetAccount addr s = Ok (s, match m !! addr with Some a => inr a | None => inl (ErrJson ErrSyntax) end).
Proof.
  intros [Hs Hm] Hne. unfold GetAccount. rewrite (run_bind _ _ _ _ _ (at_Get s d _ _ addr Hs Hne)), lookup_fmap.
  destruct (m !! addr) as [a|] eqn:E; [|reflexivity]. cbn [fmap option_fmap option_map].
  destruct (Hm addr a E) as (Ha & _). apply (run_unmarshal j_Account account_ok 2); [apply Account_lawful|unfold maxNestingDepth; lia|done].
Qed.

Lemma write_spec (isPut : bool) s d m a : account_rep s d m -> account_ok a -> Addr a <> [] ->
  exists s', (accBytes ← marshal_account a;
      if isPut then st_Put StateStore_Name_Account (Addr a) accBytes else st_Update StateStore_Name_Account (Addr a) accBytes) s
    = Ok (s', inr tt) /\ account_rep s' d (<[Addr a:=a]> m).
Proof.
  intros [Hs Hm] Ha Hne. unfold marshal_account. rewrite (account_ok_marshals a Ha).
  assert (H : exists s', (if isPut then st_Put StateStore_Name_Account (Addr a) (Marshal j_Account a)
      else st_Update StateStore_Name_Account (Addr a) (Marshal j_Account a)) s = Ok (s', inr tt)
    /\ named s' (<[StateStore_Name_Account:=<[Addr a:=Marshal j_Account a]> (Marshal j_Account <$> m)]> d)).
  { destruct isPut; [by apply at_Put|by apply at_Update]. }
  destruct H as (s' & E & H). exists s'. split; [by destruct isPut|]. split; [by rewrite fmap_insert|].
  by apply map_Forall_insert_2.
Qed.

Lemma change_spec addr f s d m : account_rep s d m -> addr <> [] ->
  (forall a, account_ok a -> account_ok (f a) /\ Addr (f a) = Addr a) ->
  exists s', (acc ← GetAccount addr; UpdateAccount (Some (f acc))) s = Ok (s', (change addr f m).2)
  /\ account_rep s' d (change addr f m).1.
Proof.
  intros Hr Hne Hf. unfold change. unfold mbind, cmd_bind. rewrite (GetAccount_spec s d m addr Hr Hne).
  destruct (m !! addr) as [a|] eqn:E; [|by exists s]. destruct (proj2 Hr addr a E) as (Ha & Haddr & _).
  destruct (Hf a Ha) as [Hfa Hfaddr].
  destruct (write_spec false s d m (f a) Hr Hfa) as (s' & E' & Hr'); [by rewrite Hfaddr, Haddr|].
  exists s'. split; [exact E'|]. cbn. by rewrite Hfaddr, Haddr in Hr'.
Qed.

Lemma UpdateBalance_change addr symbol v s d m : account_rep s d m -> addr <> [] ->
  UpdateBalance addr symbol (Some v) s = (acc ← GetAccount addr; UpdateAccount (Some (with_balance symbol v acc))) s.
Proof.
  intros Hr Hne. unfold UpdateBalance. unfold mbind at 1 3, cmd_bind at 1 3. rewrite (GetAccount_spec s d m addr Hr Hne).
  destruct (m !! addr) as [a|] eqn:E; [|done]. destruct (proj2 Hr addr a E) as ((_ & bm & Hb & Hbm) & _).
  unfold with_balance. rewrite Hb. change (default ∅ (Some bm)) with bm.
  destruct (bm !! symbol) as [b|] eqn:Eb; [|done]. by destruct (Hbm symbol b Eb) as [z ->].
Qed.

Lemma accounts_step o s d m : account_rep s d m -> op_ok o ->
  exists s', run o s = Ok (s', (step o m).2) /\ account_rep s' d (step o m).1.
Proof.
  intros Hr Ho. destruct o as [a|a|addr n|addr symbol v|addr name]; cbn [run step op_ok] in *; destruct Ho as [Ho1 Ho2].
  - unfold AddAccount, IsAccountExist.
    rewrite (run_bind _ _ _ _ _ (at_Exists s d _ _ (Addr a) (proj1 Hr) Ho2)), lookup_fmap.
    replace (bool_decide (is_Some (Marshal j_Account <$> m !! Addr a))) with (bool_decide (is_Some (m !! Addr a)))
      by (apply bool_decide_ext; by rewrite fmap_is_Some).
    case_bool_decide; [by exists s|]. by apply (write_spec true).
  - by apply (write_spec false).
  - apply (change_spec addr (fun a => set_Nonce a n)); [done|done|]. intros a Ha. split; [by apply account_ok_edits|done].
  - rewrite (UpdateBalance_change addr symbol v s d m Hr Ho1). apply change_spec; [done|done|].
    intros a Ha. split; [by apply account_ok_edits|done].
  - apply (change_spec addr (fun a => BindName a name)); [done|done|]. intros a Ha. split; [by apply account_ok_edits|done].
Qed.

(** A run of changes with the errors recorded. *)
Fixpoint run_all (ops : list op) : cmd (list (state_error + unit)) :=
  match ops with
  | [] => mret []
  | o :: ops => fun s =>
      match run o s with
      | Ok (s', r) => (rs ← run_all ops; mret (r :: rs)) s'
      | Err e => match e with end
      | Panic => Panic
      end
  end.

Fixpoint steps (ops : list op) (m : gmap bytes Account) : gmap bytes Account * list (state_error + unit) :=
  match ops with
  | [] => (m, [])
  | o :: ops => let '(m, r) := step o m in let '(m, rs) := steps ops m in (m, r :: rs)
  end.

Lemma accounts_loop_spec (l : list (bytes * Account)) (s : S) : Forall (fun kv => account_ok kv.2) l ->
  accounts_loop (prod_map id (Marshal j_Account) <$> l).*2 s = Ok (s, inr l.*2).
Proof.
  induction 1 as [|[k a] l Ha Hl IH]; [done|]. cbn [fmap list_fmap accounts_loop prod_map snd].
  rewrite (run_bind _ _ s s a); [|apply (run_unmarshal j_Account account_ok 2); [apply Account_lawful|unfold maxNestingDepth; lia|done]].
  by rewrite (run_bind _ _ _ _ _ IH).
Qed.

Lemma GetAllAccounts_spec s d m : account_rep s d m -> GetAllAccounts s = Ok (s, inr (sorted_keys m).*2).
Proof.
  intros [Hs Hm]. unfold GetAllAccounts.
  rewrite (run_bind _ _ _ _ _ (run_GetAll s _ _ _ Hs (lookup_insert_eq d _ _))).
  rewrite !length_fmap, Nat.eqb_refl. cbn [negb]. rewrite sorted_items_fmap. apply accounts_loop_spec.
  rewrite sorted_keys_perm. apply Forall_forall. intros [k a] Hin%elem_of_map_to_list. by apply (Hm k a).
Qed.

Lemma accounts_steps ops s d m : account_rep s d m -> Forall op_ok ops ->
  exists s', run_all ops s = Ok (s', inr (steps ops m).2) /\ account_rep s' d (steps ops m).1.
Proof.
  intros Hr Hops. revert s m Hr. induction Hops as [|o ops Ho Hops IH]; intros s m Hr; [by exists s|].
  destruct (accounts_step o s d m Hr Ho) as (s1 & E1 & H1). destruct (IH s1 (step o m).1 H1) as (s2 & E2 & H2).
  exists s2. cbn [run_all steps]. rewrite E1, (run_bind _ _ _ _ _ E2).
  destruct (step o m) as [m' r]. cbn [fst snd] in *. by destruct (steps ops m').
Qed.

(** C5. The account state is a finite map from addresses to accounts: after
    any run of additions and updates, each of which succeeds or fails as the
    map says, [GetAccount], [IsAccountExist], [GetNonce], [GetBalance] and
    [GetAllAccounts] answer from the map, and the other named stores are as
    they were. *)
Theorem account_state_refines ops s d m : account_rep s d m -> Forall op_ok ops ->
  let m' := (steps ops m).1 in
  exists s', run_all ops s = Ok (s', inr (steps ops m).2)
  /\ named s' (<[StateStore_Name_Account:=Marshal j_Account <$> m']> d)
  /\ GetAllAccounts s' = Ok (s', inr (sorted_keys m').*2)
  /\ forall addr, addr <> [] ->
     IsAccountExist addr s' = Ok (s', inr (bool_decide (is_Some (m' !! addr))))
     /\ GetAccount addr s' = Ok (s', match m' !! addr with Some a => inr a | None => inl (ErrJson ErrSyntax) end)
     /\ forall a, m' !! addr = Some a ->
          GetNonce addr s' = Ok (s', inr (Nonce a))
          /\ forall symbol, GetBalance addr symbol s' =
               Ok (s', match default ∅ (Balances a) !! symbol with Some b => inr b | None => inl (ErrNoSymbol symbol addr) end).
Proof.
  intros Hr Hops m'. destruct (accounts_steps ops s d m Hr Hops) as (s' & E & Hr'). fold m' in Hr'. exists s'.
  split_and!; [done|by apply Hr'|by apply (GetAllAccounts_spec s' d)|]. intros addr Hne.
  pose proof (GetAccount_spec s' d m' addr Hr' Hne) as Hg. split_and!; [|done|].
  - unfold IsAccountExist. rewrite (at_Exists s' d _ _ addr (proj1 Hr') Hne), lookup_fmap. do 3 f_equal.
    apply bool_decide_ext. by rewrite fmap_is_Some.
  - intros a Ha. rewrite Ha in Hg. split.
    + unfold GetNonce. by rewrite (run_bind _ _ _ _ _ Hg).
    + intros symbol. unfold GetBalance. rewrite (run_bind _ _ _ _ _ Hg). by destruct (default ∅ (Balances a) !! symbol).
Qed.
End State.

#[local] Existing Instance RefStore.ref_store.
#[local] Existing Instance RefStore.ref_store_laws.

Lemma account_state_refines_witness :
  exists s', run_all (S := RefStore.t)
      [OAdd (NewDefaultAccount (str "t2a")); OBalance (str "t2a") TokenSymbol_Native 500;
       OAdd (NewDefaultAccount (str "t2a")); ONonce (str "t2b") 1]
      (<[StateStore_Name_Account:=∅]> ∅)
    = Ok (s', inr [inr tt; inr tt; inl (ErrExists (str "t2a")); inl (ErrJson ErrSyntax)])
  /\ GetBalance (str "t2a") TokenSymbol_Native s' = Ok (s', inr (Some 500)).
Proof.
  destruct (account_state_refines (S := RefStore.t)
      [OAdd (NewDefaultAccount (str "t2a")); OBalance (str "t2a") TokenSymbol_Native 500;
       OAdd (NewDefaultAccount (str "t2a")); ONonce (str "t2b") 1] (<[StateStore_Name_Account:=∅]> ∅) ∅ ∅)
    as (s' & E & _ & _ & Hq).
  - split; [by rewrite fmap_empty|]. apply map_Forall_empty.
  - repeat (apply List.Forall_cons; [first [split; [apply NewDefaultAccount_ok; reflexivity|done] | split; [done|reflexivity] | split; [done|lia]]|]).
    apply List.Forall_nil.
  - exists s'. split; [exact E|]. destruct (Hq (str "t2a")) as (_ & _ & Ha); [done|].
    destruct (Ha (with_balance TokenSymbol_Native 500 (NewDefaultAccount (str "t2a")))) as [_ Hb]; [reflexivity|].
    rewrite Hb. reflexivity.
Defined.
End AccountSpec.
