(* ===== verification/Composition.v ===== *)
(** The composition state (src/state/composition.go): all named stores of a
    ledger over one state store, their common root, the reads that go through
    the process-wide caches, and the builders that hand out composition states
    by version (src/state/composition_builder.go). *)
From Stdlib Require Import ZArith Lia Strings.Byte.
From stdpp Require Import base gmap list strings sorting.
From S2P Require Import Prelude Common Backend Wire ChainMessages TxBasic Text Json JsonCodec StateBase StateNode StateChain Account.
Import Util Types.
#[local] Open Scope Z_scope.

(** What the state packages use of a ledger. *)
Class ILedger (L S : Type) := {
  l_ID : L -> bytes;
  l_CreateStateStore : L -> go (L * S);
  l_CreateStateStoreReadonly : L -> go (L * S);
}.

(** * state/composition.go *)
Module Composition.

Inductive CompSState := CompSState_Unknown | CompSState_Idle | CompSState_Executed | CompSState_Commited.

#[export] Instance CompSState_eq_dec : EqDecision CompSState.
Proof. solve_decision. Defined.

Section Stores.
Context {S : Type} `{!IStateStore S}.

(** The stores in the order in which they are added. *)
Definition store_names : list bytes :=
  [Domain.StateStore_Name_NodeExecuteDomain; Domain.StateStore_Name_NodeConsensusDomain; Domain.StateStore_Name_NodeDomain;
   Node.r_name Node.inactive; Node.r_name Node.executor; Node.r_name Node.proposer; Node.r_name Node.validator;
   Node.StateStore_Name_Node; AccountState.StateStore_Name_Account; Chain.StateStore_Name_Chain;
   Epoch.StateStore_Name_Epoch].

Record compositionState := mkComp {
  cs_store : S;
  cs_chain : Chain.chainState;
  cs_epoch : Epoch.epochState;
  stateVersion : Z;
  state : CompSState;
}.

Definition createCompositionStateWithStateStore (ledgerID : bytes) (stateVersion : Z) (stateStore : S) : go compositionState :=
  s ← Domain.NewNodeExecuteDomainState stateStore 1;
  s ← Domain.NewNodeConsensusDomainState s 1;
  s ← Domain.NewNodeDomainState s 1;
  s ← Node.NewRoleState Node.inactive s 1;
  s ← Node.NewRoleState Node.executor s 1;
  s ← Node.NewRoleState Node.proposer s 1;
  s ← Node.NewRoleState Node.validator s 1;
  s ← Node.NewNodeState s 1;
  s ← AccountState.NewAccountState s 1;
  '(s, cs) ← Chain.NewChainStore ledgerID s 1;
  '(s, es) ← Epoch.NewEpochState ledgerID s 1;
  Ok (mkComp s cs es stateVersion CompSState_Unknown).

Definition UpdateCompSState (cs : compositionState) (st : CompSState) : compositionState :=
  mkComp (cs_store cs) (cs_chain cs) (cs_epoch cs) (stateVersion cs) st.

(** The root of a fresh sparse Merkle tree after some updates. *)
Variable tree_Root : list (bytes * bytes) -> bytes.

(** Each root is filed under itself. *)
Definition StateRoot : cmd S state_error bytes :=
  accRoot ← AccountState.GetAccountRoot;
  chainRoot ← st_Root Chain.StateStore_Name_Chain;
  domainRoot ← Domain.GetNodeDomainRoot;
  exeDomainRoot ← Domain.GetNodeExecuteDomainRoot;
  csDomainRoot ← Domain.GetNodeConsensusDomainRoot;
  inactiveRoot ← Node.GetRoot Node.inactive;
  nodeRoot ← Node.GetNodeRoot;
  nodeExecutorRoot ← Node.GetRoot Node.executor;
  nodeProposerRoot ← Node.GetRoot Node.proposer;
  nodeValidatorRoot ← Node.GetRoot Node.validator;
  epochRoot ← st_Root Epoch.StateStore_Name_Epoch;
  mret (tree_Root ((fun r => (r, r)) <$>
    [accRoot; chainRoot; domainRoot; exeDomainRoot; csDomainRoot; inactiveRoot; nodeRoot; nodeExecutorRoot;
     nodeProposerRoot; nodeValidatorRoot; epochRoot])).
End Stores.
Arguments compositionState : clear implicits.

Section Ledger.
Context {L S : Type} `{!IStateStore S, !ILedger L S}.

(** A state store for writing, in the idle state. *)
Definition createCompositionState (l : L) (stateVersion : Z) : go (L * compositionState S) :=
  '(l, stateStore) ← l_CreateStateStore l;
  compS ← createCompositionStateWithStateStore (l_ID l) stateVersion stateStore;
  Ok (l, UpdateCompSState compS CompSState_Idle).

Definition CreateCompositionStateReadonly (l : L) : go (L * compositionState S) :=
  '(l, stateStore) ← l_CreateStateStoreReadonly l;
  compS ← createCompositionStateWithStateStore (l_ID l) 0 stateStore;
  Ok (l, compS).

(** The ids of a role, read from a read-only composition state; an error is
    logged and gives nil. *)
Definition active_ids (r : Node.role) (l : L) : go (L * option (list bytes)) :=
  '(l, csStateRN) ← CreateCompositionStateReadonly l;
  match Node.GetIDs r (cs_store csStateRN) with
  | Ok (_, inr ids) => Ok (l, ids)
  | Ok (_, inl _) => Ok (l, None)
  | Err e => match e with end
  | Panic => Panic
  end.

Definition GetActiveExecutorIDs : L -> go (L * option (list bytes)) := active_ids Node.executor.

Definition GetActiveProposerIDs : L -> go (L * option (list bytes)) := active_ids Node.proposer.

Definition GetActiveValidatorIDs : L -> go (L * option (list bytes)) := active_ids Node.validator.

(** The cached block, or the one of a new read-only store.  The caches are
    those of the process; the store of [w] is not used. *)
Definition from_cache_or {A} (cached : cmd (world S) state_error A)
    (fresh : S -> go (S * cmd (world S) state_error A)) (l : L) (w : world S) : go (L * world S * (state_error + A)) :=
  match cached w with
  | Ok (w, inr a) => Ok (l, w, inr a)
  | Ok (w, inl _) =>
      '(l, stateStore) ← l_CreateStateStoreReadonly l;
      '(s, get) ← fresh stateStore;
      '(w', r) ← get (mkWorld s (w_ledger w) (latestBlockMap w) (latestBlockRSMap w) (latestEpochMap w));
      Ok (l, mkWorld (w_store w) (w_ledger w') (latestBlockMap w') (latestBlockRSMap w') (latestEpochMap w'), r)
  | Err e => match e with end
  | Panic => Panic
  end.

Definition GetLatestBlock (l : L) : world S -> go (L * world S * (state_error + Block.t)) :=
  from_cache_or (Chain.cached_block (l_ID l))
    (fun s => '(s, cs) ← Chain.NewChainStore (l_ID l) s 1; Ok (s, Chain.GetLatestBlock cs)) l.

Definition GetLatestBlockResult (l : L) : world S -> go (L * world S * (state_error + BlockResult.t)) :=
  from_cache_or (Chain.cached_result (l_ID l))
    (fun s => '(s, cs) ← Chain.NewChainStore (l_ID l) s 1; Ok (s, Chain.GetLatestBlockResult cs)) l.

Definition GetLatestEpoch (l : L) : world S -> go (L * world S * (state_error + option EpochInfo)) :=
  from_cache_or (Epoch.cached_epoch (l_ID l))
    (fun s => '(s, _) ← Epoch.NewEpochState (l_ID l) s 1; Ok (s, Epoch.GetLatestEpoch)) l.
End Ledger.
End Composition.

(** * state/composition_builder.go *)
Module Builder.
Import Composition.

(** [Commited] states are dropped from the pool, which is refilled when it has
    this many states or fewer. *)
Definition refill_at : Z := 60.

Definition refill_by : Z := 40.

(** Composition states are shared by pointers: they live in a heap. *)
Abbreviation ref := nat.

Record compositionStateOfNodeFull := mkFull {
  lastCompositionState : option ref;
  createdRecord : gset Z;
}.

(** The states of a node by their versions in decimal. *)
Record compositionStateOfNodeSimple := mkSimple {
  maxStateVersion : Z;
  compStates : gmap bytes ref;
}.

Section Ops.
Context {L S : Type} `{!IStateStore S, !ILedger L S}.

(** The process: the ledger, the composition states made so far, and the two
    builders by node id. *)
Record process := mkProcess {
  p_ledger : L;
  heap : list (compositionState S);
  full : gmap bytes compositionStateOfNodeFull;
  simple : gmap bytes compositionStateOfNodeSimple;
}.

Definition new_state (p : process) (version : Z) : go (process * ref) :=
  '(l, compS) ← createCompositionState (p_ledger p) version;
  Ok (mkProcess l (heap p ++ [compS]) (full p) (simple p), length (heap p)).

Definition set_full (p : process) (nodeID : bytes) (n : compositionStateOfNodeFull) : process :=
  mkProcess (p_ledger p) (heap p) (<[nodeID:=n]> (full p)) (simple p).

Definition set_simple (p : process) (nodeID : bytes) (n : compositionStateOfNodeSimple) : process :=
  mkProcess (p_ledger p) (heap p) (full p) (<[nodeID:=n]> (simple p)).

(** What other parts of the program do to a composition state. *)
Definition update_state (p : process) (r : ref) (st : CompSState) : process :=
  mkProcess (p_ledger p) (alter (fun cs => UpdateCompSState cs st) r (heap p)) (full p) (simple p).

(** ** The full builder *)

Definition full_node (p : process) (nodeID : bytes) : process * compositionStateOfNodeFull :=
  match full p !! nodeID with
  | Some n => (p, n)
  | None => (set_full p nodeID (mkFull None ∅), mkFull None ∅)
  end.

Definition full_createCompositionStateOfNode (p : process) (nodeID : bytes) (n : compositionStateOfNodeFull)
    (version : Z) : go (process * option ref) :=
  if bool_decide (version ∉ createdRecord n) then
    '(p, r) ← new_state p version;
    Ok (set_full p nodeID (mkFull (Some r) ({[version]} ∪ createdRecord n)), Some r)
  else
    Ok (p, match lastCompositionState n with
           | Some r =>
               match heap p !! r with
               | Some cs => if bool_decide (stateVersion cs = version /\ state cs <> CompSState_Commited) then Some r else None
               | None => None
               end
           | None => None
           end).

Definition full_CreateCompositionState (p : process) (nodeID : bytes) (version : Z) : go (process * option ref) :=
  let '(p, n) := full_node p nodeID in full_createCompositionStateOfNode p nodeID n version.

Definition full_CompositionStateExist (p : process) (nodeID : bytes) (version : Z) : process * bool :=
  let '(p, n) := full_node p nodeID in (p, bool_decide (version ∈ createdRecord n)).

Definition full_CompositionStateAtVersion (p : process) (nodeID : bytes) (version : Z) : go (option ref) := Panic.

(** ** The simple builder *)

(** Whether the composition state is committed. *)
Definition commited (p : process) (r : ref) : bool :=
  match heap p !! r with Some cs => bool_decide (state cs = CompSState_Commited) | None => false end.

(** Making the states of [k] versions from [stateVer] on. *)
Fixpoint refill (k : nat) (p : process) (states : gmap bytes ref) (stateVer : Z) : go (process * gmap bytes ref) :=
  match k with
  | O => Ok (p, states)
  | Datatypes.S k =>
      '(p, r) ← new_state p stateVer;
      refill k p (<[Text.FormatUint stateVer:=r]> states) (u64 (stateVer + 1))
  end.

(** One tick of the timer of a node: committed states go, and a small pool is
    refilled above the highest version.  The number of rounds of the loop is
    that of [stateVer <= maxStateVer+40] on [uint64], for a highest version
    other than 2^64-41, with which the loop has no end.  A tick is one step
    here; requests come between ticks. *)
Definition maintain (p : process) (nodeID : bytes) : go process :=
  match simple p !! nodeID with
  | None => Ok p
  | Some n =>
      let states := filter (fun kr => commited p kr.2 = false) (compStates n) in
      if bool_decide (Z.of_nat (size states) <= refill_at) then
        let maxStateVer := maxStateVersion n in
        let rounds := if u64 (maxStateVer + 1) <=? u64 (maxStateVer + refill_by)
                      then Z.to_nat (u64 (maxStateVer + refill_by) - u64 (maxStateVer + 1) + 1) else 0%nat in
        '(p, states) ← refill rounds p states (u64 (maxStateVer + 1));
        Ok (set_simple p nodeID (mkSimple (u64 (maxStateVer + refill_by)) states))
      else Ok (set_simple p nodeID (mkSimple (maxStateVersion n) states))
  end.

(** The node of an id; without a ledger none is made. *)
Definition simple_node (p : process) (nodeID : bytes) (ledger : bool) : process * option compositionStateOfNodeSimple :=
  match simple p !! nodeID with
  | Some n => (p, Some n)
  | None => if ledger then (set_simple p nodeID (mkSimple 0 ∅), Some (mkSimple 0 ∅)) else (p, None)
  end.

Definition simple_createCompositionStateOfNode (p : process) (nodeID : bytes) (n : compositionStateOfNodeSimple)
    (version : Z) : go (process * option ref) :=
  let stateVerS := Text.FormatUint version in
  match compStates n !! stateVerS with
  | Some r =>
      if commited p r then Ok (set_simple p nodeID (mkSimple (maxStateVersion n) (delete stateVerS (compStates n))), None)
      else Ok (p, Some r)
  | None =>
      '(p, r) ← new_state p version;
      Ok (set_simple p nodeID (mkSimple version (<[stateVerS:=r]> (compStates n))), Some r)
  end.

Definition simple_CreateCompositionState (p : process) (nodeID : bytes) (version : Z) : go (process * option ref) :=
  match simple_node p nodeID true with
  | (p, Some n) => simple_createCompositionStateOfNode p nodeID n version
  | (p, None) => Panic
  end.

Definition simple_CompositionStateExist (p : process) (nodeID : bytes) (version : Z) : bool :=
  match simple_node p nodeID false with
  | (_, Some n) => bool_decide (is_Some (compStates n !! Text.FormatUint version))
  | (_, None) => false
  end.

Definition simple_CompositionStateAtVersion (p : process) (nodeID : bytes) (version : Z) : option ref :=
  match simple_node p nodeID false with
  | (_, Some n) => compStates n !! Text.FormatUint version
  | (_, None) => None
  end.
End Ops.
Arguments process : clear implicits.
End Builder.
