(* ===== verification/CompositionSpec.v ===== *)
(** Correctness of the composition state and its builders: what the common
    root depends on, that a version's state is built at most once, and that
    the pool of prepared states is refilled. *)
From Stdlib Require Import ZArith Lia Strings.Byte.
From stdpp Require Import base gmap list strings sorting.
From S2P Require Import Prelude Common Backend Wire ChainMessages TxBasic Text Json JsonCodec StateStoreSpec StateBase StateNode StateChain Account Composition.
Import Util Types.
#[local] Open Scope Z_scope.

Module CompositionSpec.
Import Composition.

(** * The common root *)

(** The map that a list of updates builds. *)
Definition updates (l : list (bytes * bytes)) : kvmap := foldl (fun m kv => <[kv.1:=kv.2]> m) ∅ l.

Lemma updates_self (l : list bytes) (m : kvmap) (k v : bytes) : (forall k v : bytes, m !! k = Some v -> k = v) ->
  foldl (fun m kv => <[kv.1:=kv.2]> m) m ((fun r => (r, r)) <$> l) !! k = Some v <-> m !! k = Some v \/ (k = v /\ k ∈ l).
Proof.
  revert m. induction l as [|r l IH]; intros m Hm; cbn [fmap list_fmap foldl fst snd].
  { rewrite elem_of_nil. tauto. }
  rewrite IH.
  - rewrite elem_of_cons, lookup_insert_Some. split; [intros [[[-> ->]|[H1 H2]]|[H1 H2]]; tauto|].
    intros [H|[-> [-> |H]]]; [|by left; left|by right]. destruct (decide (r = k)) as [->|]; [|tauto].
    left. left. split; [done|]. by apply Hm.
  - intros k' v' H. apply lookup_insert_Some in H as [[-> ->]|[_ H]]; [done|by apply Hm].
Qed.

Lemma updates_set (l l' : list bytes) : (forall r, r ∈ l <-> r ∈ l') ->
  updates ((fun r => (r, r)) <$> l) = updates ((fun r => (r, r)) <$> l').
Proof.
  intros Hp. apply map_eq. intros k. apply option_eq. intros v. unfold updates.
  rewrite !updates_self by (intros ? ?; by rewrite lookup_empty). by rewrite Hp.
Qed.

Section Root.
Context {S : Type} `{!IStateStore S, !StateStoreLaws S}.

(** The sparse Merkle tree of the library: its root is a function of the map
    that the updates built. *)
Variable tree_Root : list (bytes * bytes) -> bytes.
Hypothesis tree_Root_map : forall l l', updates l = updates l' -> tree_Root l = tree_Root l'.

(** The contents of the eleven stores. *)
Definition contents (d : gmap bytes kvmap) : list kvmap := omap (d !!.) store_names.

Definition open_stores (d : gmap bytes kvmap) : Prop := Forall (fun n => is_Some (d !! n)) store_names.

Lemma StateRoot_spec (s : S) d : named s d -> open_stores d ->
  exists roots, (forall r, r ∈ roots <-> r ∈ root_value <$> contents d)
  /\ StateRoot tree_Root s = Ok (s, inr (tree_Root ((fun r => (r, r)) <$> roots))).
Proof.
  intros Hs Ho. unfold open_stores, store_names in Ho. rewrite !Forall_cons in Ho.
  destruct Ho as ([m1 H1] & [m2 H2] & [m3 H3] & [m4 H4] & [m5 H5] & [m6 H6] & [m7 H7] & [m8 H8] & [m9 H9] & [m10 H10] & [m11 H11] & _).
  eexists. split; [|unfold StateRoot;
    rewrite (run_bind _ _ _ _ _ (run_Root s d _ _ Hs H9)), (run_bind _ _ _ _ _ (run_Root s d _ _ Hs H10)),
      (run_bind _ _ _ _ _ (run_Root s d _ _ Hs H3)), (run_bind _ _ _ _ _ (run_Root s d _ _ Hs H1)),
      (run_bind _ _ _ _ _ (run_Root s d _ _ Hs H2)), (run_bind _ _ _ _ _ (run_Root s d _ _ Hs H4)),
      (run_bind _ _ _ _ _ (run_Root s d _ _ Hs H8)), (run_bind _ _ _ _ _ (run_Root s d _ _ Hs H5)),
      (run_bind _ _ _ _ _ (run_Root s d _ _ Hs H6)), (run_bind _ _ _ _ _ (run_Root s d _ _ Hs H7)),
      (run_bind _ _ _ _ _ (run_Root s d _ _ Hs H11)); reflexivity].
  unfold contents, store_names. cbn [omap list_omap]. rewrite H1, H2, H3, H4, H5, H6, H7, H8, H9, H10, H11.
  cbn [fmap list_fmap]. intros r. rewrite !elem_of_cons. tauto.
Qed.

(** The common root does not depend on which store holds what: two states
    whose eleven stores have the same contents, under whatever names, have
    the same root. *)
Theorem state_root_ignores_names (s s' : S) d d' : named s d -> named s' d' -> open_stores d -> open_stores d' ->
  (forall m, m ∈ contents d <-> m ∈ contents d') ->
  exists r, StateRoot tree_Root s = Ok (s, inr r) /\ StateRoot tree_Root s' = Ok (s', inr r).
Proof.
  intros Hs Hs' Ho Ho' Hc. destruct (StateRoot_spec s d Hs Ho) as (l & Hl & E).
  destruct (StateRoot_spec s' d' Hs' Ho') as (l' & Hl' & E'). eexists. split; [exact E|]. rewrite E'. do 3 f_equal.
  apply tree_Root_map, updates_set. intros r. rewrite Hl, Hl', !list_elem_of_fmap. by setoid_rewrite Hc.
Qed.
End Root.

#[local] Existing Instance RefStore.ref_store.
#[local] Existing Instance RefStore.ref_store_laws.

(** A state whose only content is in the store [n]. *)
Definition only (n : bytes) (m : kvmap) : gmap bytes kvmap :=
  <[n:=m]> (list_to_map ((fun n => (n, ∅)) <$> store_names)).

Definition validators_only : gmap bytes kvmap := only (Node.r_name Node.validator) {[str "alice" := str "3"]}.

Definition executors_only : gmap bytes kvmap := only (Node.r_name Node.executor) {[str "alice" := str "3"]}.

Lemma state_root_ignores_names_witness :
  exists r, StateRoot (S := RefStore.t) (fun l => StateStoreSpec.RootTree.root_of (updates l)) validators_only
      = Ok (validators_only, inr r)
  /\ StateRoot (S := RefStore.t) (fun l => StateStoreSpec.RootTree.root_of (updates l)) executors_only
      = Ok (executors_only, inr r).
Proof.
  apply (state_root_ignores_names (S := RefStore.t) (fun l => StateStoreSpec.RootTree.root_of (updates l))) with
    (d := validators_only) (d' := executors_only).
  - intros l l' E. by rewrite E.
  - reflexivity.
  - reflexivity.
  - apply (bool_decide_eq_true_1 _). vm_compute. reflexivity.
  - apply (bool_decide_eq_true_1 _). vm_compute. reflexivity.
  - assert (E : contents validators_only ≡ₚ contents executors_only).
    { apply (bool_decide_eq_true_1 _). vm_compute. reflexivity. }
    intros m. by rewrite E.
Defined.
End CompositionSpec.

(** * The builders *)
Module BuilderSpec.
Import Composition Builder.

Section Spec.
Context {L S : Type} `{!IStateStore S, !ILedger L S}.

Abbreviation process := (process L S).

(** Requests to the builders, the ticks of the timers, and what the rest of
    the program does to composition states. *)
Inductive op :=
| FullCreate (nodeID : bytes) (version : Z)
| FullExist (nodeID : bytes) (version : Z)
| SimpleCreate (nodeID : bytes) (version : Z)
| Tick (nodeID : bytes)
| Mark (r : ref) (st : CompSState).

(** The state that a request returned, with its version and its state then. *)
Definition observe (p : process) (a : option ref) : option (ref * Z * CompSState) :=
  r ← a; cs ← heap p !! r; Some (r, stateVersion cs, state cs).

Definition run_op (p : process) (o : op) : go (process * option (ref * Z * CompSState)) :=
  match o with
  | FullCreate n v => '(p, a) ← full_CreateCompositionState p n v; Ok (p, observe p a)
  | FullExist n v => Ok ((full_CompositionStateExist p n v).1, None)
  | SimpleCreate n v => '(p, a) ← simple_CreateCompositionState p n v; Ok (p, observe p a)
  | Tick n => p ← maintain p n; Ok (p, None)
  | Mark r st => Ok (update_state p r st, None)
  end.

Fixpoint run (p : process) (ops : list op) : go (process * list (option (ref * Z * CompSState))) :=
  match ops with
  | [] => Ok (p, [])
  | o :: ops => '(p, a) ← run_op p o; '(p, l) ← run p ops; Ok (p, a :: l)
  end.

Definition start (l : L) : process := mkProcess l [] ∅ ∅.

Lemma createCompositionState_spec (l l' : L) (v : Z) (cs : compositionState S) : createCompositionState l v = Ok (l', cs) ->
  stateVersion cs = v /\ state cs = CompSState_Idle.
Proof.
  unfold createCompositionState. intros H. apply outcome_bind_Ok in H as ([l1 s] & _ & H). apply outcome_bind_Ok in H as (c & Hc & [= <- <-]).
  split; [|done]. unfold createCompositionStateWithStateStore in Hc.
  do 9 (apply outcome_bind_Ok in Hc as (? & _ & Hc)). apply outcome_bind_Ok in Hc as ([? ?] & _ & Hc).
  apply outcome_bind_Ok in Hc as ([? ?] & _ & Hc). by injection Hc as <-.
Qed.

Lemma new_state_spec p v p' r : new_state p v = Ok (p', r) ->
  exists cs, r = length (heap p) /\ heap p' = heap p ++ [cs] /\ stateVersion cs = v /\ state cs = CompSState_Idle
  /\ full p' = full p /\ simple p' = simple p.
Proof.
  unfold new_state. intros H. apply outcome_bind_Ok in H as ([l cs] & Hc & [= <- <-]).
  destruct (createCompositionState_spec _ _ _ _ Hc) as [H1 H2]. by exists cs.
Qed.

(** [made] is the composition state that the full builder made for a node
    and a version. *)
Record full_inv (p : process) (made : gmap (bytes * Z) ref) : Prop := {
  fi_heap k r : made !! k = Some r -> exists cs, heap p !! r = Some cs /\ stateVersion cs = k.2;
  fi_inj k1 k2 r : made !! k1 = Some r -> made !! k2 = Some r -> k1 = k2;
  fi_record n v : is_Some (made !! (n, v)) <-> exists nd, full p !! n = Some nd /\ v ∈ createdRecord nd;
  fi_last n nd r : full p !! n = Some nd -> lastCompositionState nd = Some r -> exists v, made !! (n, v) = Some r;
}.

(** More states, or other states of states, do not matter. *)
Lemma full_inv_heap p p' made : full_inv p made -> full p' = full p ->
  (forall r cs, heap p !! r = Some cs -> exists cs', heap p' !! r = Some cs' /\ stateVersion cs' = stateVersion cs) ->
  full_inv p' made.
Proof.
  intros [H1 H2 H3 H4] Hf Hh. split; [|done|by rewrite Hf|by rewrite Hf].
  intros k r Hk. destruct (H1 k r Hk) as (cs & Hr & Hv). destruct (Hh r cs Hr) as (cs' & Hr' & Hv').
  exists cs'. split; [done|congruence].
Qed.

Lemma full_inv_app p p' made l : full_inv p made -> full p' = full p -> heap p' = heap p ++ l -> full_inv p' made.
Proof.
  intros Hi Hf Hh. apply (full_inv_heap p); [done|done|]. intros r cs Hr. exists cs. split; [|done].
  rewrite Hh. by apply lookup_app_l_Some.
Qed.

Lemma full_inv_Mark p made r st : full_inv p made -> full_inv (update_state p r st) made.
Proof.
  intros Hi. apply (full_inv_heap p); [done|done|]. intros r' cs Hr. cbn [update_state heap].
  destruct (decide (r' = r)) as [->|Hne].
  - exists (UpdateCompSState cs st). split; [|done]. by rewrite list_lookup_alter_eq, Hr.
  - exists cs. split; [|done]. by rewrite list_lookup_alter_ne.
Qed.

(** A node asked for the first time has no record yet. *)
Lemma full_node_spec p made n : full_inv p made ->
  let '(p', nd) := full_node p n in
  full_inv p' made /\ full p' !! n = Some nd /\ heap p' = heap p /\ p_ledger p' = p_ledger p /\ simple p' = simple p.
Proof.
  intros Hi. unfold full_node. destruct (full p !! n) as [nd|] eqn:E; [done|]. split_and!; [|apply lookup_insert_eq|done..].
  destruct Hi as [H1 H2 H3 H4]. split; [done|done| |].
  - intros n' v. rewrite H3. cbn [set_full full]. destruct (decide (n' = n)) as [->|]; [|by rewrite lookup_insert_ne].
    rewrite lookup_insert_eq, E. split; [by intros (? & [=] & _)|]. intros (nd & [= <-] & Hv). by apply not_elem_of_empty in Hv.
  - intros n' nd r. cbn [set_full full]. destruct (decide (n' = n)) as [->|]; [|rewrite lookup_insert_ne by done; apply H4].
    rewrite lookup_insert_eq. by intros [= <-].
Qed.

Lemma full_inv_made p made n nd v p' r : full_inv p made -> full p !! n = Some nd -> v ∉ createdRecord nd ->
  new_state p v = Ok (p', r) ->
  full_inv (set_full p' n (mkFull (Some r) ({[v]} ∪ createdRecord nd))) (<[(n, v):=r]> made) /\ made !! (n, v) = None.
Proof.
  intros [H1 H2 H3 H4] Hnd Hv Hnew. destruct (new_state_spec p v p' r Hnew) as (cs & -> & Hh & Hcv & _ & Hf & _).
  assert (Hnone : made !! (n, v) = None).
  { apply eq_None_not_Some. intros (nd' & Hnd' & Hin)%H3. by simplify_eq. }
  assert (Hfresh : forall k, made !! k <> Some (length (heap p))).
  { intros k Hk. destruct (H1 k _ Hk) as (cs' & Hl & _). apply lookup_lt_Some in Hl. lia. }
  split; [|done]. split.
  - intros k r Hk. cbn [set_full heap]. rewrite Hh. apply lookup_insert_Some in Hk as [[<- <-]|[_ Hk]].
    + exists cs. split; [by apply list_lookup_middle|done].
    + destruct (H1 k r Hk) as (cs' & Hl & Hc). exists cs'. split; [by apply lookup_app_l_Some|done].
  - intros k1 k2 r Hk1 Hk2. apply lookup_insert_Some in Hk1 as [[<- <-]|[_ Hk1]], Hk2 as [[<- Hr]|[_ Hk2]]; try done.
    + by destruct (Hfresh k2).
    + subst. by destruct (Hfresh k1).
    + by apply (H2 k1 k2 r).
  - intros n' v'. cbn [set_full full]. rewrite Hf. destruct (decide (n' = n)) as [->|Hne].
    + rewrite lookup_insert_eq. destruct (decide (v' = v)) as [->|Hne'].
      * rewrite lookup_insert_eq. split; [|by eexists]. intros _. eexists. split; [done|]. set_solver.
      * rewrite lookup_insert_ne by congruence. rewrite H3. split.
        -- intros (nd' & Hnd' & Hin). simplify_eq. eexists. split; [done|]. set_solver.
        -- intros (nd' & [= <-] & Hin). exists nd. split; [done|]. cbn in Hin. set_solver.
    + rewrite !lookup_insert_ne by congruence. apply H3.
  - intros n' nd' r. cbn [set_full full]. rewrite Hf. destruct (decide (n' = n)) as [->|Hne].
    + rewrite lookup_insert_eq. intros [= <-] [= <-]. exists v. apply lookup_insert_eq.
    + rewrite lookup_insert_ne by done. intros Hn' Hl. destruct (H4 n' nd' r Hn' Hl) as [v' Hv']. exists v'.
      by rewrite lookup_insert_ne by congruence.
Qed.

(** The answer to a request of the full builder is the state it made for the
    node and the version, and that state is not committed. *)
Definition answer_ok (made : gmap (bytes * Z) ref) (o : op) (a : option (ref * Z * CompSState)) : Prop :=
  match o, a with
  | FullCreate n v, Some (r, v', st) => made !! (n, v) = Some r /\ v' = v /\ st <> CompSState_Commited
  | _, _ => True
  end.

Lemma answer_ok_mono made made' o a : made ⊆ made' -> answer_ok made o a -> answer_ok made' o a.
Proof.
  intros Hsub. destruct o as [n v| | | |], a as [[[r' v'] st']|]; try done. intros (H1 & H2). split; [|done]. by eapply lookup_weaken.
Qed.

(** The ledger opens state stores. *)
Hypothesis creates : forall l v, exists l' cs, createCompositionState (L := L) (S := S) l v = Ok (l', cs).

Lemma new_state_total p v : exists p' r, new_state p v = Ok (p', r).
Proof. unfold new_state. destruct (creates (p_ledger p) v) as (l & cs & ->). eexists _, _. reflexivity. Qed.

Lemma full_create_step p made n v : full_inv p made ->
  exists p' a made', full_CreateCompositionState p n v = Ok (p', a) /\ made ⊆ made' /\ full_inv p' made'
  /\ answer_ok made' (FullCreate n v) (observe p' a).
Proof.
  intros Hi. unfold full_CreateCompositionState. pose proof (full_node_spec p made n Hi) as Hn.
  destruct (full_node p n) as [p1 nd]. destruct Hn as (Hi1 & Hnd & _). unfold full_createCompositionStateOfNode.
  case_bool_decide as Hv.
  - destruct (new_state_total p1 v) as (p2 & r & Hnew). destruct (full_inv_made p1 made n nd v p2 r Hi1 Hnd Hv Hnew) as [Hi2 Hm].
    rewrite Hnew. cbn [mbind outcome_bind]. eexists _, _, (<[(n, v):=r]> made). split_and!; [done|by apply insert_subseteq|done|].
    destruct (new_state_spec p1 v p2 r Hnew) as (cs & -> & Hh & Hcv & Hst & _). cbn [observe mbind option_bind set_full heap].
    rewrite Hh, list_lookup_middle by done. cbn. rewrite lookup_insert_eq, Hst. done.
  - eexists p1, _, made. split_and!; [done|done|done|]. destruct (lastCompositionState nd) as [r|] eqn:El; [|done].
    destruct (heap p1 !! r) as [cs|] eqn:Er; [|done]. case_bool_decide as Hc; [|done]. destruct Hc as [Hc1 Hc2].
    cbn [observe mbind option_bind]. rewrite Er. cbn. split_and!; [|done|done].
    destruct (fi_last _ _ Hi1 n nd r Hnd El) as [v' Hm]. destruct (fi_heap _ _ Hi1 _ _ Hm) as (cs' & Hr' & Hv').
    cbn in Hv'. by simplify_eq.
Qed.

Lemma refill_step k p states v : exists p' states' l, refill k p states v = Ok (p', states')
  /\ full p' = full p /\ heap p' = heap p ++ l.
Proof.
  revert p states v. induction k as [|k IH]; intros p states v; cbn [refill].
  { exists p, states, []. by rewrite app_nil_r. }
  destruct (new_state_total p v) as (p1 & r & Hnew). rewrite Hnew. cbn [mbind outcome_bind].
  destruct (new_state_spec p v p1 r Hnew) as (cs & _ & Hh & _ & _ & Hf & _).
  destruct (IH p1 (<[Text.FormatUint v:=r]> states) (u64 (v + 1))) as (p2 & st & l & E & Hf2 & Hh2).
  exists p2, st, ([cs] ++ l). split_and!; [done|congruence|by rewrite Hh2, Hh, (assoc_L (++))].
Qed.

Lemma builder_op_step p made o : full_inv p made ->
  exists p' a made', run_op p o = Ok (p', a) /\ made ⊆ made' /\ full_inv p' made' /\ answer_ok made' o a.
Proof.
  intros Hi. destruct o as [n v|n v|n v|n|r st]; cbn [run_op].
  - destruct (full_create_step p made n v Hi) as (p' & a & made' & E & Hs & Hi' & Ha). rewrite E. by eexists p', _, made'.
  - pose proof (full_node_spec p made n Hi) as Hn. unfold full_CompositionStateExist. destruct (full_node p n) as [p1 nd].
    eexists _, _, made. split_and!; [done|done|by apply Hn|done].
  - unfold simple_CreateCompositionState. assert (Hn : exists p1 nd, simple_node p n true = (p1, Some nd) /\ full_inv p1 made).
    { unfold simple_node. destruct (simple p !! n) as [nd|]; [by exists p, nd|]. eexists _, _. split; [done|].
      by apply (full_inv_app p _ made []); [|done|rewrite app_nil_r]. }
    destruct Hn as (p1 & nd & -> & Hi1). unfold simple_createCompositionStateOfNode.
    destruct (compStates nd !! Text.FormatUint v) as [r|].
    + destruct (commited p1 r); eexists _, _, made; (split_and!; [done|done| |done]); [|done].
      by apply (full_inv_app p1 _ made []); [|done|rewrite app_nil_r].
    + destruct (new_state_total p1 v) as (p2 & r & Hnew). rewrite Hnew. eexists _, _, made. split_and!; [done|done| |done].
      destruct (new_state_spec p1 v p2 r Hnew) as (cs & _ & Hh & _ & _ & Hf & _).
      by apply (full_inv_app p1 _ made [cs]).
  - unfold maintain. destruct (simple p !! n) as [nd|]; [|by eexists _, _, made].
    case_bool_decide.
    + edestruct refill_step as (p1 & states & l & E & Hf & Hh). rewrite E. eexists _, _, made. split_and!; [done|done| |done].
      by apply (full_inv_app p _ made l).
    + eexists _, _, made. split_and!; [done|done| |done]. by apply (full_inv_app p _ made []); [|done|rewrite app_nil_r].
  - eexists _, _, made. split_and!; [done|done|by apply full_inv_Mark|done].
Qed.

Lemma builder_run_step ops p made : full_inv p made ->
  exists p' l made', run p ops = Ok (p', l) /\ made ⊆ made' /\ full_inv p' made' /\ Forall2 (answer_ok made') ops l.
Proof.
  revert p made. induction ops as [|o ops IH]; intros p made Hi; cbn [run]; [by eexists p, [], made|].
  destruct (builder_op_step p made o Hi) as (p1 & a & made1 & E1 & Hs1 & Hi1 & Ha1).
  destruct (IH p1 made1 Hi1) as (p2 & l & made2 & E2 & Hs2 & Hi2 & Ha2). rewrite E1. cbn [mbind outcome_bind]. rewrite E2.
  exists p2, (a :: l), made2. split_and!; [done|by etrans|done|]. constructor; [by eapply answer_ok_mono|done].
Qed.


(** ** The pool of the simple builder *)

(** A state made after [p] for the version [w]. *)
Definition fresh_for (p p' : process) (w : Z) (r : ref) : Prop :=
  (length (heap p) <= r)%nat /\ exists cs, heap p' !! r = Some cs /\ stateVersion cs = w /\ state cs = CompSState_Idle.

Lemma refill_spec k p states v : 0 <= v -> v + Z.of_nat k < 2 ^ 64 ->
  exists p' states', refill k p states v = Ok (p', states') /\ simple p' = simple p /\ heap p `prefix_of` heap p'
  /\ (forall w, v <= w < v + Z.of_nat k -> exists r, states' !! Text.FormatUint w = Some r /\ fresh_for p p' w r)
  /\ (forall key, (forall w, v <= w < v + Z.of_nat k -> key <> Text.FormatUint w) -> states' !! key = states !! key).
Proof.
  revert p states v. induction k as [|k IH]; intros p states v Hv Hk; cbn [refill].
  { exists p, states. split_and!; [done|done|done|lia|done]. }
  destruct (new_state_total p v) as (p1 & r & Hnew). rewrite Hnew. cbn [mbind outcome_bind].
  destruct (new_state_spec p v p1 r Hnew) as (cs & -> & Hh & Hcv & Hcs & _ & Hs). rewrite u64_small by (unfold is_u64; lia).
  destruct (IH p1 (<[Text.FormatUint v:=length (heap p)]> states) (v + 1)) as (p2 & st & E & Hs2 & Hp2 & Hw & Ho); [lia|lia|].
  exists p2, st. split_and!; [done|congruence| | |].
  - etrans; [|exact Hp2]. rewrite Hh. by apply prefix_app_r.
  - intros w Hrange. destruct (decide (w = v)) as [->|Hne].
    + exists (length (heap p)). split.
      * rewrite Ho; [apply lookup_insert_eq|]. intros w Hw' Heq. apply Text.FormatUint_inj in Heq; lia.
      * split; [lia|]. exists cs. split; [|done]. eapply prefix_lookup_Some; [|exact Hp2]. rewrite Hh. by apply list_lookup_middle.
    + destruct (Hw w) as (r & Hr & Hf1 & Hf2); [lia|]. exists r. split; [done|]. split; [|done].
      rewrite Hh, length_app in Hf1. lia.
  - intros key Hkey. rewrite Ho by (intros w Hw'; apply Hkey; lia). apply lookup_insert_ne. intros <-. apply (Hkey v); [lia|done].
Qed.

(** The states of a node that are not committed. *)
Definition live (p : process) (nd : compositionStateOfNodeSimple) : gmap bytes ref :=
  filter (fun kr => commited p kr.2 = false) (compStates nd).

Lemma maintain_spec p n nd : simple p !! n = Some nd -> Z.of_nat (size (live p nd)) <= 60 ->
  0 <= maxStateVersion nd -> maxStateVersion nd + 41 < 2 ^ 64 ->
  exists p' nd', maintain p n = Ok p' /\ simple p' !! n = Some nd' /\ maxStateVersion nd' = maxStateVersion nd + 40
  /\ (forall w, maxStateVersion nd < w <= maxStateVersion nd + 40 ->
        exists r, compStates nd' !! Text.FormatUint w = Some r /\ fresh_for p p' w r)
  /\ (forall w, 0 <= w -> ~ (maxStateVersion nd < w <= maxStateVersion nd + 40) ->
        compStates nd' !! Text.FormatUint w = live p nd !! Text.FormatUint w).
Proof.
  intros Hn Hsz Hm0 Hm. unfold maintain. rewrite Hn. fold (live p nd). rewrite bool_decide_true by done.
  unfold refill_by. rewrite !u64_small by (unfold is_u64; lia). rewrite (proj2 (Z.leb_le _ _)) by lia.
  replace (Z.to_nat (maxStateVersion nd + 40 - (maxStateVersion nd + 1) + 1)) with 40%nat by lia.
  destruct (refill_spec 40 p (live p nd) (maxStateVersion nd + 1)) as (p1 & st & E & Hs & _ & Hw & Ho); [lia|lia|].
  rewrite E. cbn [mbind outcome_bind]. eexists _, _. split_and!; [done|apply lookup_insert_eq|done| |].
  - intros w Hr. destruct (Hw w) as (r & Hr1 & Hr2); [lia|]. by exists r.
  - intros w Hw0 Hr. cbn [compStates]. apply Ho. intros w' Hw' Heq. apply Text.FormatUint_inj in Heq; lia.
Qed.

(** A tick of the simple builder's timer over a pool of at most sixty
    uncommitted states provides the next forty versions: after it, every one of
    them has a fresh idle state of its version, and the uncommitted states of
    other versions are still there. *)
Theorem pool_refilled p n nd : simple p !! n = Some nd -> Z.of_nat (size (live p nd)) <= 60 ->
  0 <= maxStateVersion nd -> maxStateVersion nd + 41 < 2 ^ 64 ->
  exists p', maintain p n = Ok p'
  /\ (forall w, maxStateVersion nd < w <= maxStateVersion nd + 40 ->
        simple_CompositionStateExist p' n w = true
        /\ exists r, simple_CompositionStateAtVersion p' n w = Some r /\ fresh_for p p' w r)
  /\ (forall w, 0 <= w -> ~ (maxStateVersion nd < w <= maxStateVersion nd + 40) ->
        simple_CompositionStateAtVersion p' n w = live p nd !! Text.FormatUint w).
Proof.
  intros Hn Hsz Hm0 Hm. destruct (maintain_spec p n nd Hn Hsz Hm0 Hm) as (p' & nd' & E & Hn' & _ & Hw & Ho).
  exists p'. unfold simple_CompositionStateExist, simple_CompositionStateAtVersion, simple_node. rewrite Hn'. split_and!; [done| |].
  - intros w Hr. destruct (Hw w Hr) as (r & Hr1 & Hr2). split; [|by exists r]. rewrite Hr1. by apply bool_decide_true.
  - intros w Hw0 Hr. by apply Ho.
Qed.

(** A request for an old version that is not in the pool lowers the highest
    version, and the next tick replaces the states of the versions above it,
    whether they are in use or not. *)
Lemma old_request_replaces_states p n nd v w r : simple p !! n = Some nd ->
  compStates nd !! Text.FormatUint v = None -> 0 <= v -> v < w <= v + 40 -> w + 40 < 2 ^ 64 ->
  compStates nd !! Text.FormatUint w = Some r -> (r < length (heap p))%nat ->
  Z.of_nat (size (compStates nd)) < 60 ->
  exists p1 r1 p2 r2, simple_CreateCompositionState p n v = Ok (p1, Some r1) /\ maintain p1 n = Ok p2
  /\ simple_CompositionStateAtVersion p2 n w = Some r2 /\ r2 <> r.
Proof.
  intros Hn Hv Hv0 Hw Hw64 Hr Hlt Hsz. unfold simple_CreateCompositionState, simple_node. rewrite Hn.
  unfold simple_createCompositionStateOfNode. rewrite Hv. destruct (new_state_total p v) as (p1 & r1 & Hnew). rewrite Hnew.
  cbn [mbind outcome_bind]. set (nd1 := mkSimple v (<[Text.FormatUint v:=r1]> (compStates nd))).
  set (p1' := set_simple p1 n nd1).
  destruct (maintain_spec p1' n nd1) as (p2 & nd2 & E2 & Hn2 & _ & Hfr & _).
  - apply lookup_insert_eq.
  - assert (size (live p1' nd1) <= size (compStates nd1))%nat by apply map_subseteq_size, map_filter_subseteq.
    cbn [nd1 compStates] in *. rewrite map_size_insert_None in H by done. lia.
  - done.
  - cbn. lia.
  - destruct (Hfr w) as (r2 & Hr2 & Hge & _); [done|]. exists p1', r1, p2, r2. split_and!; [done|done| |].
    + unfold simple_CompositionStateAtVersion, simple_node. by rewrite Hn2.
    + destruct (new_state_spec p v p1 r1 Hnew) as (cs & _ & Hh & _). cbn [p1' set_simple heap] in Hge.
      rewrite Hh, length_app in Hge. lia.
Qed.
End Spec.

(** A ledger over the reference store. *)
#[local] Existing Instance RefStore.ref_store.

#[local] Instance ref_ledger : ILedger RefStore.t RefStore.t := {
  l_ID _ := str "main";
  l_CreateStateStore l := Ok (l, l);
  l_CreateStateStoreReadonly l := Ok (l, l);
}.

Lemma ref_creates (l : RefStore.t) (v : Z) : exists l' cs, createCompositionState (S := RefStore.t) l v = Ok (l', cs).
Proof. eexists _, _. reflexivity. Qed.


Lemma pool_refilled_witness :
  let p := mkProcess (∅ : RefStore.t) [] ∅ {[str "n" := mkSimple 3 ∅]} in
  exists p', maintain (S := RefStore.t) p (str "n") = Ok p' /\ simple_CompositionStateExist p' (str "n") 43 = true.
Proof.
  intros p. destruct (pool_refilled (S := RefStore.t) ref_creates p (str "n") (mkSimple 3 ∅)) as (p' & E & Hw & _).
  - reflexivity.
  - vm_compute. discriminate.
  - cbn. lia.
  - cbn. lia.
  - exists p'. split; [exact E|]. apply Hw. cbn. lia.
Defined.
End BuilderSpec.
