(* ===== verification/Scheduler.v ===== *)
(** Blocks (src/chain/types/block.go) and the execution scheduler
    (src/execution): the list of executed packed transactions, the versions it
    accepts, the commit of a packed-transaction block and what it publishes. *)
From Stdlib Require Import ZArith Lia Strings.Byte.
From stdpp Require Import base gmap list strings.
From S2P Require Import Prelude Common Backend Wire TxMessages ChainMessages TxBasic StateStore StateBase StateChain Composition.
Import Util Types.
#[local] Open Scope Z_scope.

(** * chain/types/block.go *)
Module BlockOps.
Section Hash.

(** The 256-bit blake2b digest. *)
Variable blake2b : bytes -> bytes.

Definition HashBytes (m : Block.t) : go bytes := b ← Codec.Marshal Block.desc m; Ok (blake2b (default [] b)).

Definition BlockNum (m : Block.t) : go Z := match Block.Head m with Some h => Ok (BlockHead.Height h) | None => Panic end.

Definition BlockHash (m : Block.t) : go bytes := h ← HashBytes m; Ok (Tx.hex_EncodeToString h).

(** [%x] of a text that is hexadecimal already. *)
Definition HashHex (m : Block.t) : go bytes := h ← HashBytes m; Ok (Tx.hex_EncodeToString (Tx.hex_EncodeToString h)).

(** A copy through the wire format. *)
Definition DeepCopy (src : BlockHead.t) : outcome Wire.proto_error BlockHead.t :=
  match Codec.Marshal BlockHead.desc src with
  | Ok b => Codec.Unmarshal BlockHead.desc (default [] b) (Wire.s_zero BlockHead.desc)
  | Err e => match e with end
  | Panic => Panic
  end.

Definition Result_HashBytes (m : BlockResult.t) : go bytes :=
  b ← Codec.Marshal BlockResult.desc m; Ok (blake2b (default [] b)).
End Hash.
End BlockOps.

(** * execution *)
Module Execution.
Import Composition.

(** Composition states are shared by pointers. *)
Abbreviation ref := nat.

Definition MaxAvail_Count : Z := 5.

Inductive SchedulerState := SchedulerState_Unknown | SchedulerState_Idle | SchedulerState_Executing | SchedulerState_Commiting.

Definition SchedulerState_String (s : SchedulerState) : bytes :=
  match s with
  | SchedulerState_Idle => str "Idle"
  | SchedulerState_Executing => str "Executing"
  | SchedulerState_Commiting => str "Commiting"
  | SchedulerState_Unknown => str "Unknown"
  end.

Definition SchedulerState_Value (s : bytes) : SchedulerState :=
  if decide (s = str "Idle") then SchedulerState_Idle
  else if decide (s = str "Executing") then SchedulerState_Executing
  else if decide (s = str "Commiting") then SchedulerState_Commiting
  else SchedulerState_Unknown.

Inductive exec_error :=
| EExecute
| EVersion (expected actual : Z)
| EMaxAvail
| ENotFound (version : Z)
| ENoResult
| EEmpty (version : Z)
| EProof
| EWire (e : Wire.proto_error)
| EState (e : state_error)
| ECommit (e : StateStore.store_error).

(** What the scheduler tells the rest of the node. *)
Inductive event :=
| BlockAdded (b : Block.t)
| Published (data : bytes).

Section Scheduler.
Context {L S P T : Type} `{!IStateStore S, !ILedger L S}.

Variable blake2b : bytes -> bytes.

(** The sparse Merkle tree; [Prove] gives the proof in JSON, [None] an error. *)
Variables (empty : T) (Update : T -> bytes -> bytes -> T) (Root : T -> bytes) (Prove : T -> bytes -> option bytes).

(** The action of a transaction on a composition state; [None] is a nil result. *)
Variable ExecuteTx : Transaction.t -> world S -> go (world S * option TransactionResult.t).

(** The transaction pool. *)
Variable RemoveTxByKey : P -> bytes -> P.

(** The epoch updater; its error is dropped. *)
Variable UpdateEpoch : BlockHead.t -> world S -> go (world S).

(** [StateStore.Commit] *)
Variable Commit : S -> go (S * option StateStore.store_error).

Record PackedTxs := mkPackedTxs {
  pt_StateVersion : Z;
  pt_TxRoot : bytes;
  pt_TxList : list Transaction.t;
}.

(** The trees of a packed list and of its results are kept with the results. *)
Record PackedTxsResult := mkPackedTxsResult {
  pr_StateVersion : Z;
  pr_TxRSRoot : bytes;
  pr_TxsResult : list TransactionResult.t;
}.

Record executionPackedTxs := mkExecution {
  ep_compState : ref;
  packedTxs : PackedTxs;
  packedTxsRS : option PackedTxsResult;
  treeTx : T;
  treeTxRS : T;
}.

Definition StateVersion (e : executionPackedTxs) : Z := pt_StateVersion (packedTxs e).

Record executionScheduler := mkScheduler {
  schedulerState : SchedulerState;
  lastStateVersion : Z;
  exePackedCount : Z;
  exePackedTxsList : list executionPackedTxs;
}.

Definition NewExecutionScheduler : executionScheduler := mkScheduler SchedulerState_Idle 0 0 [].

(** The process around the scheduler. *)
Record env := mkEnv {
  e_ledger : L;
  e_ledgerState : LedgerState;
  e_heap : list (compositionState S);
  e_blocks : gmap bytes Block.t;
  e_results : gmap bytes BlockResult.t;
  e_epochs : gmap bytes (option EpochInfo);
  e_pool : P;
  e_events : list event;
}.

Definition emit (e : env) (ev : event) : env :=
  mkEnv (e_ledger e) (e_ledgerState e) (e_heap e) (e_blocks e) (e_results e) (e_epochs e) (e_pool e) (e_events e ++ [ev]).

Definition set_pool (e : env) (p : P) : env :=
  mkEnv (e_ledger e) (e_ledgerState e) (e_heap e) (e_blocks e) (e_results e) (e_epochs e) p (e_events e).

Definition mark (e : env) (r : ref) (st : CompSState) : env :=
  mkEnv (e_ledger e) (e_ledgerState e) (alter (fun cs => UpdateCompSState cs st) r (e_heap e)) (e_blocks e) (e_results e)
    (e_epochs e) (e_pool e) (e_events e).

(** The world of a composition state, and putting it back. *)
Definition world_of (e : env) (cs : compositionState S) : world S :=
  mkWorld (cs_store cs) (e_ledgerState e) (e_blocks e) (e_results e) (e_epochs e).

Definition put_world (e : env) (r : ref) (w : world S) : env :=
  mkEnv (e_ledger e) (w_ledger w)
    (alter (fun cs => mkComp (w_store w) (cs_chain cs) (cs_epoch cs) (stateVersion cs) (state cs)) r (e_heap e))
    (latestBlockMap w) (latestBlockRSMap w) (latestEpochMap w) (e_pool e) (e_events e).

(** ** execution_packedtx.go *)

Fixpoint execute_loop (txs : list Transaction.t) (w : world S) (acc : list TransactionResult.t) :
    go (world S * (exec_error + list TransactionResult.t)) :=
  match txs with
  | [] => Ok (w, inr acc)
  | t :: txs =>
      '(w, rs) ← ExecuteTx t w;
      match rs with
      | None => Ok (w, inl EExecute)
      | Some rs => execute_loop txs w (acc ++ [rs])
      end
  end.

Definition Execute (p : PackedTxs) (w : world S) : go (world S * (exec_error + PackedTxsResult)) :=
  if (length (pt_TxList p) =? 0)%nat then Ok (w, inr (mkPackedTxsResult (pt_StateVersion p) [] []))
  else
    '(w, rs) ← execute_loop (pt_TxList p) w [];
    match rs with
    | inl e => Ok (w, inl e)
    | inr rs => root ← Tx.TxResultRoot blake2b empty Update Root rs (pt_TxList p); Ok (w, inr (mkPackedTxsResult (pt_StateVersion p) root rs))
    end.

(** ** scheduler.go *)

(** The trees of the transactions and of their results. *)
Fixpoint updateTree (txs : list Transaction.t) (rs : list TransactionResult.t) (t1 t2 : T) : go (T * T) :=
  match txs with
  | [] => Ok (t1, t2)
  | t :: txs =>
      match rs with
      | [] => Panic
      | r :: rs =>
          h1 ← Tx.HashBytes blake2b t;
          h2 ← Tx.TxResult_HashBytes blake2b r;
          let h1 := default [] h1 in
          let h2 := default [] h2 in
          updateTree txs rs (Update t1 h1 h1) (Update t2 h2 h2)
      end
  end.

Fixpoint remove_txs (txs : list Transaction.t) (e : env) : go env :=
  match txs with
  | [] => Ok e
  | t :: txs => txID ← Tx.TxID blake2b t; remove_txs txs (set_pool e (RemoveTxByKey (e_pool e) (default [] txID)))
  end.

(** A fifth of the cache size goes, oldest first, when the cache is full;
    [int(float32(n)*0.2)] is [n/5] for the sizes in use. *)
Definition trim (maxCache : Z) (l : list executionPackedTxs) : list executionPackedTxs :=
  if Z.of_nat (length l) >=? maxCache then drop (Z.to_nat (maxCache / 5)) l else l.

(** Whether a version may be executed on top of the list; [inr (Some e)] is an
    entry that has been executed already, and walking past the end for one is
    a nil dereference. *)
Definition admissible (s : executionScheduler) (version : Z) : go (exec_error + option executionPackedTxs) :=
  match exePackedTxsList s, last (exePackedTxsList s) with
  | f :: _, Some l =>
      if (version >=? StateVersion f) && (version <=? StateVersion l)
      then match List.find (fun e => StateVersion e =? version) (exePackedTxsList s) with
           | Some x => Ok (inr (Some x))
           | None => Panic
           end
      else if negb (version =? u64 (StateVersion l + 1)) then Ok (inl (EVersion (u64 (StateVersion l + 1)) version))
      else Ok (inr None)
  | _, _ =>
      if negb (lastStateVersion s =? 0) && (version <=? lastStateVersion s) then Ok (inl (EVersion (lastStateVersion s) version))
      else Ok (inr None)
  end.

(** The locks are those of the caller's turn; the list is shared. *)
Definition ExecutePackedTx (maxCache : Z) (s : executionScheduler) (e : env) (txPacked : PackedTxs) (r : ref) :
    go (executionScheduler * env * (exec_error + option PackedTxsResult)) :=
  a ← admissible s (pt_StateVersion txPacked);
  match a with
  | inl err => Ok (s, e, inl err)
  | inr (Some found) => Ok (s, e, inr (packedTxsRS found))
  | inr None =>
      match e_heap e !! r with
      | None => Panic
      | Some cs =>
          '(w, rs) ← Execute txPacked (world_of e cs);
          let e := put_world e r w in
          match rs with
          | inl err => Ok (s, e, inl err)
          | inr rs =>
              let e := mark e r CompSState_Executed in
              '(t1, t2) ← updateTree (pt_TxList txPacked) (pr_TxsResult rs) empty empty;
              let l := exePackedTxsList s ++ [mkExecution r txPacked (Some rs) t1 t2] in
              e ← remove_txs (pt_TxList txPacked) e;
              Ok (mkScheduler SchedulerState_Idle (pt_StateVersion txPacked) (u32 (exePackedCount s + 1)) (trim maxCache l),
                  e, inr (Some rs))
          end
      end
  end.

Definition MaxStateVersion (s : executionScheduler) (latestBlock : Block.t) : go (exec_error + Z) :=
  if exePackedCount s >=? MaxAvail_Count then Ok (inl EMaxAvail)
  else
    match Block.Head latestBlock with
    | None => Panic
    | Some h => Ok (inr (if BlockHead.Height h >? lastStateVersion s then BlockHead.Height h else lastStateVersion s))
    end.

(** [fuel] bounds the rounds of the loop; on an entry of the version that is
    committed the item does not advance. *)
Fixpoint at_version_loop (fuel : nat) (e : env) (version : Z) (l : list executionPackedTxs) : option (option ref) :=
  match fuel with
  | O => None
  | Datatypes.S fuel =>
      match l with
      | [] => Some None
      | x :: l' =>
          if negb (StateVersion x =? version) then at_version_loop fuel e version l'
          else
            match e_heap e !! ep_compState x with
            | Some cs => if bool_decide (state cs <> CompSState_Commited) then Some (Some (ep_compState x))
                         else at_version_loop fuel e version l
            | None => None
            end
      end
  end.

(** [None] when the loop has not ended within [fuel] rounds. *)
Definition CompositionStateAtVersion (fuel : nat) (s : executionScheduler) (e : env) (version : Z) : option (option ref) :=
  if (length (exePackedTxsList s) =? 0)%nat then Some None else at_version_loop fuel e version (exePackedTxsList s).

(** The entry of a version, the first of them. *)
Definition find_version (s : executionScheduler) (version : Z) : option executionPackedTxs :=
  List.find (fun e => StateVersion e =? version) (exePackedTxsList s).

Definition CompositionStateOfExePackedTxs (s : executionScheduler) (version : Z) : exec_error + ref :=
  match find_version s version with
  | Some e => inr (ep_compState e)
  | None => inl (ENotFound version)
  end.

Fixpoint proofs_loop (x : executionPackedTxs) (txHashs txResultHashes : list bytes) : go (exec_error + list (bytes * bytes)) :=
  match txHashs with
  | [] => Ok (inr [])
  | h :: txHashs =>
      match Prove (treeTx x) h with
      | None => Ok (inl EProof)
      | Some p1 =>
          match txResultHashes with
          | [] => Panic
          | h' :: txResultHashes =>
              match Prove (treeTxRS x) h' with
              | None => Ok (inl EProof)
              | Some p2 =>
                  rest ← proofs_loop x txHashs txResultHashes;
                  Ok (match rest with inl e => inl e | inr l => inr ((p1, p2) :: l) end)
              end
          end
      end
  end.

(** Counts that differ are logged only. *)
Definition PackedTxProofForValidity (s : executionScheduler) (version : Z) (txHashs txResultHashes : list bytes) :
    go (exec_error + list (bytes * bytes)) :=
  if (length (exePackedTxsList s) =? 0)%nat then Ok (inl (EEmpty version))
  else
    match find_version s version with
    | None => Ok (inl (ENotFound version))
    | Some x => match packedTxsRS x with None => Ok (inl ENoResult) | Some _ => proofs_loop x txHashs txResultHashes end
    end.

Fixpoint tx_bytes (txs : list Transaction.t) : go (list bytes) :=
  match txs with
  | [] => Ok []
  | t :: txs => b ← Tx.Bytes t; bs ← tx_bytes txs; Ok (default [] b :: bs)
  end.

Fixpoint result_hashes (rs : list TransactionResult.t) : go (list bytes) :=
  match rs with
  | [] => Ok []
  | r :: rs => h ← Tx.TxResult_HashBytes blake2b r; hs ← result_hashes rs; Ok (default [] h :: hs)
  end.

Definition BlockResultHead_OK : Z := 0.

Definition constructBlockAndBlockResult (refIndex : Z) (blockHead : BlockHead.t) (latestBlockResult : BlockResult.t)
    (p : PackedTxs) (rs : PackedTxsResult) : go (exec_error + (Block.t * BlockResult.t)) :=
  match BlockOps.DeepCopy blockHead with
  | Panic => Panic
  | Err err => Ok (inl (EWire err))
  | Ok dstBH =>
      let version := BlockHead.Version blockHead in
      txs ← tx_bytes (pt_TxList p);
      bdChunkBytes ← Codec.Marshal BlockDataChunk.desc (BlockDataChunk.mk version refIndex txs []);
      let block := Block.mk (Some dstBH) (Some (BlockData.mk version [default [] bdChunkBytes] [])) [] in
      blockHash ← BlockOps.HashBytes blake2b block;
      blockRSHash ← BlockOps.Result_HashBytes blake2b latestBlockResult;
      bRSHeadChunkBytes ← Codec.Marshal BlockResultHeadChunk.desc (BlockResultHeadChunk.mk version 0 (pr_TxRSRoot rs) []);
      hashes ← result_hashes (pr_TxsResult rs);
      bRSDataChunkBytes ← Codec.Marshal BlockResultDataChunk.desc (BlockResultDataChunk.mk version hashes []);
      Ok (inr (block,
        BlockResult.mk
          (Some (BlockResultHead.mk version blockRSHash blockHash [default [] bRSHeadChunkBytes] BlockResultHead_OK [] [] []))
          (Some (BlockResultData.mk version [default [] bRSDataChunkBytes] [])) []))
  end.

(** The block and its result go into the state, the epoch is updated, the
    store is committed and the composition state marked; then the event. *)
Definition CommitBlock (e : env) (block : Block.t) (blockRS : BlockResult.t) (compState : option ref) :
    go (env * option exec_error) :=
  match Block.Head block, compState with
  | None, _ => Panic
  | Some _, None => Ok (emit e (BlockAdded block), None)
  | Some head, Some r =>
      match e_heap e !! r with
      | Some cs =>
          '(w, r1) ← Chain.SetLatestBlock (cs_chain cs) (Some block) (world_of e cs);
          match r1 with
          | inl err => Ok (put_world e r w, Some (EState err))
          | inr _ =>
              '(w, r2) ← Chain.SetLatestBlockResult (cs_chain cs) (Some blockRS) w;
              match r2 with
              | inl err => Ok (put_world e r w, Some (EState err))
              | inr _ =>
                  w ← UpdateEpoch head w;
                  '(s, r3) ← Commit (w_store w);
                  let e := put_world e r (mkWorld s (w_ledger w) (latestBlockMap w) (latestBlockRSMap w) (latestEpochMap w)) in
                  match r3 with
                  | Some err => Ok (e, Some (ECommit err))
                  | None => Ok (emit (mark e r CompSState_Commited) (BlockAdded block), None)
                  end
              end
          end
      | None => Panic
      end
  end.

Definition ChainMessage_BlockInfo : Z := 2.

(** The bytes of a block and its result, as they are published. *)
Definition block_info (block : Block.t) (blockRS : BlockResult.t) : go bytes :=
  blockBytes ← Codec.Marshal Block.desc block;
  blockRSBytes ← Codec.Marshal BlockResult.desc blockRS;
  info ← Codec.Marshal PubSubMessageBlockInfo.desc (PubSubMessageBlockInfo.mk (default [] blockBytes) (default [] blockRSBytes) []);
  msg ← Codec.Marshal ChainMessage.desc (ChainMessage.mk ChainMessage_BlockInfo (default [] info) []);
  Ok (default [] msg).

(** Reading the latest block and result of the ledger, through the caches; an
    error leaves a nil block, whose head is then asked for. *)
Definition latest (e : env) (cs : compositionState S) : go (env * Block.t * BlockResult.t) :=
  '(l, w, b) ← Composition.GetLatestBlock (e_ledger e) (world_of e cs);
  match b with
  | inl _ => Panic
  | inr b =>
      '(l, w, r) ← Composition.GetLatestBlockResult l w;
      match r with
      | inl _ => Panic
      | inr r =>
          Ok (mkEnv l (w_ledger w) (e_heap e) (latestBlockMap w) (latestBlockRSMap w) (latestEpochMap w) (e_pool e) (e_events e), b, r)
      end
  end.

(** The executed list of a version becomes a block on top of the latest one;
    a request for a height that is there already is ignored. *)
Definition CommitPackedTx (s : executionScheduler) (e : env) (version refIndex : Z) (blockHead : BlockHead.t) :
    go (executionScheduler * env * option exec_error) :=
  if (length (exePackedTxsList s) =? 0)%nat then Ok (s, e, Some (EEmpty version))
  else
    match find_version s version with
    | None => Ok (s, e, Some (ENotFound version))
    | Some x =>
        match e_heap e !! ep_compState x, packedTxsRS x with
        | Some cs, Some rs =>
            '(e, latestBlock, latestBlockResult) ← latest e cs;
            match Block.Head latestBlock with
            | None => Panic
            | Some h =>
                if BlockHead.Height h >=? BlockHead.Height blockHead then Ok (s, e, None)
                else
                  c ← constructBlockAndBlockResult refIndex blockHead latestBlockResult (packedTxs x) rs;
                  match c with
                  | inl err => Ok (s, e, Some err)
                  | inr (block, blockRS) =>
                      '(e, err) ← CommitBlock e block blockRS (Some (ep_compState x));
                      match err with
                      | Some err => Ok (s, e, Some err)
                      | None =>
                          msg ← block_info block blockRS;
                          Ok (mkScheduler (schedulerState s) (lastStateVersion s) (u32 (exePackedCount s - 1)) (exePackedTxsList s),
                              emit e (Published msg), None)
                      end
                  end
            end
        | _, _ => Panic
        end
    end.
End Scheduler.
End Execution.
