(* ===== verification/SchedulerSpec.v ===== *)
(** Correctness of the execution scheduler: versions are executed one after
    the other and once, the list of executed packed transactions stays within
    its bound, a block carries exactly the packed transactions, and when the
    search for a composition state ends. *)
From Stdlib Require Import ZArith Lia Strings.Byte.
From stdpp Require Import base gmap list strings.
From S2P Require Import Prelude Common Backend Wire TxMessages ChainMessages TxBasic StateStore StateBase StateChain StateChainSpec Composition Scheduler.
Import Util Types.
#[local] Open Scope Z_scope.

Module SchedulerSpec.
Import Composition Execution.

Section Spec.
Context {L S P T : Type} `{!IStateStore S, !ILedger L S}.
Variable blake2b : bytes -> bytes.
Variables (empty : T) (Update : T -> bytes -> bytes -> T) (Root : T -> bytes) (Prove : T -> bytes -> option bytes).
Variable ExecuteTx : Transaction.t -> world S -> go (world S * option TransactionResult.t).
Variable RemoveTxByKey : P -> bytes -> P.
Variable UpdateEpoch : BlockHead.t -> world S -> go (world S).
Variable Commit : S -> go (S * option StateStore.store_error).
Variable maxCache : Z.

Abbreviation scheduler := (executionScheduler (T := T)).
Abbreviation env := (env (L := L) (S := S) (P := P)).
Abbreviation entry := (executionPackedTxs (T := T)).
Abbreviation execute := (ExecutePackedTx (L := L) (S := S) (P := P) blake2b empty Update Root ExecuteTx RemoveTxByKey maxCache).
Abbreviation commit := (CommitPackedTx (L := L) (S := S) (P := P) (T := T) blake2b UpdateEpoch Commit).

(** * Versions *)

(** The request runs the transactions, rather than being refused or answered
    from the list. *)
Definition runs (s : scheduler) (version : Z) : bool :=
  match admissible s version with Ok (inr None) => true | _ => false end.

(** The states of the scheduler, with the versions executed so far: requests
    to execute and to commit come in any order, and the rest of the node may
    do anything to the environment in between. *)
Inductive reach : scheduler -> env -> list Z -> Prop :=
| reach_new e : reach NewExecutionScheduler e []
| reach_execute s e vs p r s' e' res : reach s e vs -> 0 < pt_StateVersion p < 2 ^ 64 - 1 ->
    execute s e p r = Ok (s', e', inr res) ->
    reach s' e' (if runs s (pt_StateVersion p) then vs ++ [pt_StateVersion p] else vs)
| reach_refused s e vs p r s' e' err : reach s e vs ->
    execute s e p r = Ok (s', e', inl err) -> reach s' e' vs
| reach_commit s e vs v i h s' e' err : reach s e vs -> commit s e v i h = Ok (s', e', err) -> reach s' e' vs
| reach_env s e vs e' : reach s e vs -> reach s e' vs.

(** The list holds the last of the executed versions, which are consecutive. *)
Record sched_inv (s : scheduler) (vs : list Z) : Prop := {
  si_consecutive : exists v0, vs = seqZ v0 (Z.of_nat (length vs));
  si_range v : v ∈ vs -> 0 < v < 2 ^ 64 - 1;
  si_list : exists old, vs = old ++ (StateVersion <$> exePackedTxsList s);
  si_nonempty : vs <> [] -> exePackedTxsList s <> [];
  si_last : lastStateVersion s = default 0 (last vs);
  si_result x : x ∈ exePackedTxsList s -> exists rs, packedTxsRS x = Some rs /\ pr_StateVersion rs = StateVersion x;
}.

Lemma seqZ_suffix (n : nat) v0 old k : seqZ v0 (Z.of_nat n) = old ++ k ->
  k = seqZ (v0 + Z.of_nat (length old)) (Z.of_nat (length k)).
Proof.
  revert n v0. induction old as [|x old IH]; intros n v0 E; cbn [app length] in *.
  - subst. rewrite length_seqZ, Z.add_0_r. f_equal. lia.
  - destruct n as [|n]; [done|]. rewrite seqZ_cons in E by lia. injection E as _ E.
    replace (Z.pred (Z.of_nat (Datatypes.S n))) with (Z.of_nat n) in E by lia. rewrite (IH n (Z.succ v0) E) at 1. f_equal; lia.
Qed.

Lemma last_fmap_list {A B} (f : A -> B) (l : list A) : last (f <$> l) = f <$> last l.
Proof. apply fmap_last. Qed.

Lemma last_app_ne {A} (l k : list A) : k <> [] -> last (l ++ k) = last k.
Proof. intros Hk. rewrite last_app. by destruct (last k) eqn:E; [|apply last_None in E]. Qed.

(** What a request finds. *)
Lemma admissible_spec s vs version : sched_inv s vs -> 0 < version < 2 ^ 64 - 1 ->
  match last vs with
  | None => admissible s version = Ok (inr None)
  | Some v =>
      (exists x, x ∈ exePackedTxsList s /\ StateVersion x = version /\ admissible s version = Ok (inr (Some x)))
      \/ (version = v + 1 /\ admissible s version = Ok (inr None))
      \/ (version <> v + 1 /\ admissible s version = Ok (inl (EVersion (v + 1) version)))
  end.
Proof.
  intros [[v0 Hc] Hrange [old Hold] Hne Hlast Hrs] Hv. destruct (last vs) as [v|] eqn:El.
  2:{ apply last_None in El as ->. symmetry in Hold. apply app_eq_nil in Hold as [_ Hl]. apply fmap_nil_inv in Hl.
      unfold admissible. rewrite Hl. cbn in Hlast. by rewrite Hlast. }
  assert (Hnn : exePackedTxsList s <> []) by (apply Hne; by intros ->).
  assert (Hll : last (exePackedTxsList s) <> None) by (by rewrite last_None).
  destruct (last (exePackedTxsList s)) as [x|] eqn:Ex; [|done]. clear Hll.
  assert (Hx : StateVersion x = v).
  { rewrite Hold, last_app_ne, last_fmap_list, Ex in El; [by injection El|].
    intros H. by apply fmap_nil_inv in H. }
  assert (Hvr : 0 < v < 2 ^ 64 - 1) by (apply Hrange, last_Some_elem_of, El).
  unfold admissible. rewrite Ex. destruct (exePackedTxsList s) as [|f l] eqn:Eq; [done|]. rewrite Hx.
  rewrite u64_small by (unfold is_u64; lia).
  destruct ((version >=? StateVersion f) && (version <=? v)) eqn:Eb.
  - left. apply andb_true_iff in Eb as [Eb1%Z.geb_le Eb2%Z.leb_le].
    assert (Hin : version ∈ StateVersion <$> f :: l).
    { rewrite Hold in Hc. symmetry in Hc. rewrite <- Hold in Hc.
      pose proof (seqZ_suffix _ v0 old _ (eq_trans Hc Hold)) as Hs.
      set (k := StateVersion <$> f :: l) in *. rewrite Hs. apply elem_of_seqZ.
      assert (Hf : StateVersion f = v0 + Z.of_nat (length old)).
      { assert (H0 : k !! 0%nat = Some (StateVersion f)) by done. rewrite Hs in H0. apply lookup_seqZ in H0. lia. }
      assert (Hl : v = v0 + Z.of_nat (length old) + Z.of_nat (length k) - 1).
      { assert (H1 : last k = Some v) by (unfold k; rewrite last_fmap_list, Ex; cbn; by rewrite Hx).
        rewrite last_lookup, Hs in H1. apply lookup_seqZ in H1 as [-> H1]. rewrite length_seqZ. lia. }
      lia. }
    apply list_elem_of_fmap in Hin as (y & Hy & Hin).
    destruct (List.find (fun e => StateVersion e =? version) (f :: l)) as [z|] eqn:Ef.
    + apply find_some in Ef as [Hz%list_elem_of_In Hzv%Z.eqb_eq]. by exists z.
    + exfalso. eapply List.find_none in Ef; [|by apply list_elem_of_In]. apply Z.eqb_neq in Ef. congruence.
  - right. destruct (Z.eqb_spec version (v + 1)) as [->|Hn]; cbn [negb]; [by left|by right].
Qed.

Lemma Execute_version p w w' rs : Execute blake2b empty Update Root ExecuteTx p w = Ok (w', inr rs) ->
  pr_StateVersion rs = pt_StateVersion p.
Proof.
  unfold Execute. destruct (length (pt_TxList p) =? 0)%nat; [by intros [= _ <-]|].
  intros H. apply outcome_bind_Ok in H as ([w1 [err|l]] & _ & H); [done|].
  apply outcome_bind_Ok in H as (root & _ & H). by injection H as _ <-.
Qed.

Lemma execute_inv s e p r s' e' res : execute s e p r = Ok (s', e', res) ->
  (s' = s /\ ((exists err, res = inl err) \/ exists x, admissible s (pt_StateVersion p) = Ok (inr (Some x)) /\ res = inr (packedTxsRS x)))
  \/ (admissible s (pt_StateVersion p) = Ok (inr None) /\ exists rs x, res = inr (Some rs)
      /\ pr_StateVersion rs = pt_StateVersion p /\ packedTxs x = p /\ packedTxsRS x = Some rs
      /\ lastStateVersion s' = pt_StateVersion p /\ exePackedTxsList s' = trim maxCache (exePackedTxsList s ++ [x])).
Proof.
  unfold ExecutePackedTx. intros H. apply outcome_bind_Ok in H as ([err|[x|]] & Ha & H).
  - left. injection H as <- _ <-. split; [done|]. left. by eexists.
  - left. injection H as <- _ <-. split; [done|]. right. by exists x.
  - destruct (e_heap e !! r) as [cs|]; [|done]. apply outcome_bind_Ok in H as ([w [err|rs]] & Hx & H).
    { left. injection H as <- _ <-. split; [done|]. left. by eexists. }
    right. split; [done|]. apply outcome_bind_Ok in H as ([t1 t2] & _ & H). apply outcome_bind_Ok in H as (e1 & _ & H).
    injection H as <- _ <-. eexists rs, _. split_and!; [done|by eapply Execute_version|..|reflexivity|reflexivity]; done.
Qed.

Lemma commit_inv s e v i h s' e' err : commit s e v i h = Ok (s', e', err) ->
  lastStateVersion s' = lastStateVersion s /\ exePackedTxsList s' = exePackedTxsList s.
Proof.
  unfold CommitPackedTx. destruct (length (exePackedTxsList s) =? 0)%nat; [by intros [= <- _ _]|].
  destruct (find_version s v) as [x|]; [|by intros [= <- _ _]].
  destruct (e_heap e !! ep_compState x) as [cs|]; [|done]. destruct (packedTxsRS x) as [rs|]; [|done].
  intros H. apply outcome_bind_Ok in H as ([[e1 b] br] & _ & H). destruct (Block.Head b) as [bh|]; [|done].
  destruct (BlockHead.Height bh >=? BlockHead.Height h); [by injection H as <- _ _|].
  apply outcome_bind_Ok in H as ([er|[block blockRS]] & _ & H); [by injection H as <- _ _|].
  apply outcome_bind_Ok in H as ([e2 [er|]] & _ & H); [by injection H as <- _ _|].
  apply outcome_bind_Ok in H as (msg & _ & H). by injection H as <- _ _.
Qed.

Lemma trim_spec (l : list entry) : exists dropped, l = dropped ++ trim maxCache l /\ (l <> [] -> trim maxCache l <> []).
Proof.
  unfold trim. destruct (Z.geb_spec (Z.of_nat (length l)) maxCache); [|by exists []].
  exists (take (Z.to_nat (maxCache / 5)) l). rewrite take_drop. split; [done|]. intros Hl Hd.
  apply (f_equal length) in Hd. rewrite length_drop in Hd. cbn in Hd. destruct l; [done|]. cbn [length] in *.
  assert (maxCache / 5 < Z.of_nat (Datatypes.S (length l))) by (apply Z.div_lt_upper_bound; lia). lia.
Qed.

Lemma inv_executed s vs s' x rs v : sched_inv s vs -> 0 < v < 2 ^ 64 - 1 -> admissible s v = Ok (inr None) ->
  pr_StateVersion rs = v -> StateVersion x = v -> packedTxsRS x = Some rs -> lastStateVersion s' = v ->
  exePackedTxsList s' = trim maxCache (exePackedTxsList s ++ [x]) -> sched_inv s' (vs ++ [v]).
Proof.
  intros Hi Hv Ha Hrs Hx Hxr Hl Hlist. pose proof (admissible_spec s vs v Hi Hv) as Hadm.
  destruct (trim_spec (exePackedTxsList s ++ [x])) as (dropped & Hd & Hne). rewrite <- Hlist in Hd, Hne.
  destruct Hi as [[v0 Hc] Hrange [old Hold] _ _ Hres]. split.
  - destruct (last vs) as [w|] eqn:El.
    + destruct Hadm as [(y & _ & _ & E)|[[-> _]|[_ E]]]; [by rewrite Ha in E| |by rewrite Ha in E].
      exists v0. rewrite length_app, Nat2Z.inj_add. cbn [length]. rewrite seqZ_app by lia. rewrite <- Hc. f_equal.
      assert (Hw : w = v0 + Z.of_nat (length vs) - 1).
      { rewrite last_lookup, Hc in El. apply lookup_seqZ in El as [-> El]. rewrite length_seqZ. lia. }
      change (Z.of_nat 1) with 1. rewrite seqZ_cons by lia. change (Z.pred 1) with 0. cbn. f_equal. lia.
    + apply last_None in El as ->. exists v. reflexivity.
  - intros w. rewrite elem_of_app, list_elem_of_singleton. intros [Hw| ->]; [by apply Hrange|done].
  - exists (old ++ (StateVersion <$> dropped)). rewrite <- (assoc_L (++)), <- fmap_app, <- Hd, fmap_app.
    cbn [fmap list_fmap]. by rewrite (assoc_L (++)), <- Hold, Hx.
  - intros _. apply Hne. by destruct (exePackedTxsList s).
  - by rewrite last_snoc.
  - intros y Hy. assert (Hin : y ∈ exePackedTxsList s ++ [x]) by (rewrite Hd; apply elem_of_app; by right).
    apply elem_of_app in Hin as [Hin| ->%list_elem_of_singleton]; [by apply Hres|]. exists rs. by rewrite Hrs, Hx.
Qed.

Lemma trim_bound (l : list entry) : 5 <= maxCache -> Z.of_nat (length l) <= maxCache -> Z.of_nat (length (trim maxCache l)) < maxCache.
Proof.
  intros H5 Hl. unfold trim. destruct (Z.geb_spec (Z.of_nat (length l)) maxCache); [|lia]. rewrite length_drop.
  assert (1 <= maxCache / 5) by (apply Z.div_le_lower_bound; lia). lia.
Qed.

Lemma inv_same s vs s' : sched_inv s vs -> lastStateVersion s' = lastStateVersion s ->
  exePackedTxsList s' = exePackedTxsList s -> sched_inv s' vs.
Proof. intros [] H1 H2. by split; rewrite ?H1, ?H2. Qed.

Lemma reach_inv s e vs : reach s e vs -> sched_inv s vs.
Proof.
  induction 1 as [e|s e vs p r s' e' res Hr IH Hv E|s e vs p r s' e' err Hr IH E|s e vs v i h s' e' err Hr IH E|]; [| | | |done].
  - split; [by exists 0|by intros v ?%elem_of_nil|by exists []|done|done|by intros v ?%elem_of_nil].
  - unfold runs. destruct (execute_inv _ _ _ _ _ _ _ E) as [[-> [[err [=]]|(x & -> & _)]]|(Ha & rs & x & _ & H1 & H2 & H3 & H4 & H5)]; [done|].
    rewrite Ha. eapply (inv_executed s vs s' x rs); [done..| |done|done|done]. unfold StateVersion. by rewrite H2.
  - destruct (execute_inv _ _ _ _ _ _ _ E) as [[-> _]|(_ & rs & x & [=] & _)]. done.
  - apply commit_inv in E as [E1 E2]. by eapply inv_same.
Qed.

Lemma reach_bound s e vs : reach s e vs -> 5 <= maxCache -> Z.of_nat (length (exePackedTxsList s)) < maxCache.
Proof.
  intros Hr H5. induction Hr as [e|s e vs p r s' e' res Hr IH Hv E|s e vs p r s' e' err Hr IH E|s e vs v i h s' e' err Hr IH E|]; [| | | |done].
  - cbn. lia.
  - destruct (execute_inv _ _ _ _ _ _ _ E) as [[-> _]|(_ & rs & x & _ & _ & _ & _ & _ & ->)]; [done|].
    apply trim_bound; [done|]. rewrite length_app. cbn [length]. lia.
  - by destruct (execute_inv _ _ _ _ _ _ _ E) as [[-> _]|(_ & rs & x & [=] & _)].
  - by apply commit_inv in E as [_ ->].
Qed.

(** C6. Whatever requests to execute and commit the scheduler has served, in
    any order: the versions it has executed are consecutive, so each is
    executed once; the list it keeps is the last of them, within its bound, and
    not empty once something was executed; a request for a version of the list
    is answered with the stored result and changes nothing, the next version is
    let through, and any other one is refused with the version expected. *)
Theorem scheduler_consecutive s e vs p r : reach s e vs -> 5 <= maxCache -> 0 < pt_StateVersion p < 2 ^ 64 - 1 ->
  (exists v0, vs = seqZ v0 (Z.of_nat (length vs)))
  /\ (exists old, vs = old ++ (StateVersion <$> exePackedTxsList s))
  /\ Z.of_nat (length (exePackedTxsList s)) < maxCache
  /\ lastStateVersion s = default 0 (last vs)
  /\ match last vs with
     | None => exePackedTxsList s = [] /\ runs s (pt_StateVersion p) = true
     | Some v =>
         exePackedTxsList s <> []
         /\ ((exists x rs, x ∈ exePackedTxsList s /\ StateVersion x = pt_StateVersion p /\ pr_StateVersion rs = pt_StateVersion p
               /\ packedTxsRS x = Some rs /\ execute s e p r = Ok (s, e, inr (Some rs)))
            \/ (pt_StateVersion p = v + 1 /\ runs s (pt_StateVersion p) = true)
            \/ (pt_StateVersion p <> v + 1 /\ execute s e p r = Ok (s, e, inl (EVersion (v + 1) (pt_StateVersion p)))))
     end.
Proof.
  intros Hr H5 Hv. pose proof (reach_inv _ _ _ Hr) as Hi. pose proof (admissible_spec _ _ _ Hi Hv) as Ha.
  pose proof (reach_bound _ _ _ Hr H5) as Hb. destruct Hi as [Hc _ Hold Hne Hlast Hres].
  split_and!; [done|done|done|done|]. unfold runs, ExecutePackedTx. destruct (last vs) as [v|] eqn:El.
  - split; [apply Hne; by intros ->|]. destruct Ha as [(x & Hx & Hxv & ->)|[[Hn ->]|[Hn ->]]]; [left|by right; left|by right; right].
    destruct (Hres x Hx) as (rs & Hrs & Hrv). exists x, rs. cbn. rewrite Hrs. by rewrite Hrv, Hxv.
  - rewrite Ha. split; [|done]. apply last_None in El as ->. destruct Hold as [old Hold].
    symmetry in Hold. apply app_eq_nil in Hold as [_ Hl]. by apply fmap_nil_inv in Hl.
Qed.

(** * The search for a composition state *)

Definition committed (e : env) (x : entry) : bool :=
  match e_heap e !! ep_compState x with Some cs => bool_decide (state cs = CompSState_Commited) | None => false end.

Lemma at_version_loop_spec (e : env) v (l : list entry) fuel :
  Forall (fun x => is_Some (e_heap e !! ep_compState x)) l -> (length l < fuel)%nat ->
  at_version_loop fuel e v l =
    match List.find (fun x => StateVersion x =? v) l with
    | Some x => if committed e x then None else Some (Some (ep_compState x))
    | None => Some None
    end.
Proof.
  revert l. induction fuel as [|fuel IH]; intros l Hl Hf; [lia|]. destruct l as [|x l]; [done|].
  apply Forall_cons_1 in Hl as [[cs Hcs] Hl]. cbn [at_version_loop List.find length] in *.
  destruct (StateVersion x =? v) eqn:Ev; cbn [negb]; [|apply IH; [done|lia]].
  unfold committed. rewrite Hcs. destruct (decide (state cs = CompSState_Commited)) as [Hc|Hc].
  - rewrite (bool_decide_eq_true_2 _ Hc), bool_decide_eq_false_2 by (by intros ?).
    clear IH Hf. induction fuel as [|fuel IH]; [done|]. cbn [at_version_loop]. rewrite Ev, Hcs. cbn [negb].
    by rewrite bool_decide_eq_false_2 by (by intros ?).
  - by rewrite (bool_decide_eq_false_2 _ Hc), (bool_decide_eq_true_2 _ Hc).
Qed.

Lemma at_version_fuel (e : env) v (l : list entry) fuel fuel' r : at_version_loop fuel e v l = Some r -> (fuel <= fuel')%nat ->
  at_version_loop fuel' e v l = Some r.
Proof.
  revert l fuel'. induction fuel as [|fuel IH]; intros l [|fuel'] H Hf; [done|done|lia|].
  destruct l as [|x l]; [done|]. cbn [at_version_loop] in *. destruct (negb (StateVersion x =? v)).
  { apply IH; [done|lia]. }
  destruct (e_heap e !! ep_compState x) as [cs|]; [|done]. destruct (bool_decide _); [done|]. apply IH; [done|lia].
Qed.

(** Looking up the composition state of a version ends, with the state of
    the first entry of the version or with nil when there is none, exactly when
    that entry is not committed; on a committed one the loop spins forever. *)
Theorem CompositionStateAtVersion_terminates (s : scheduler) (e : env) v :
  Forall (fun x => is_Some (e_heap e !! ep_compState x)) (exePackedTxsList s) ->
  match find_version s v with
  | Some x => if committed e x then forall fuel, CompositionStateAtVersion fuel s e v = None
              else forall fuel, (length (exePackedTxsList s) < fuel)%nat -> CompositionStateAtVersion fuel s e v = Some (Some (ep_compState x))
  | None => forall fuel, (length (exePackedTxsList s) < fuel)%nat -> CompositionStateAtVersion fuel s e v = Some None
  end.
Proof.
  intros Hl. unfold CompositionStateAtVersion, find_version. destruct (exePackedTxsList s) as [|y l] eqn:E; [done|].
  change ((length (y :: l) =? 0)%nat) with false. cbn iota. rewrite <- E in *. clear E.
  pose proof (fun fuel => at_version_loop_spec e v _ fuel Hl) as H.
  destruct (List.find _ _) as [x|]; [|done]. destruct (committed e x); [|done]. intros fuel.
  destruct (at_version_loop fuel e v (exePackedTxsList s)) as [r|] eqn:Er; [|done].
  apply (at_version_fuel _ _ _ _ (fuel + Datatypes.S (length (exePackedTxsList s)))) in Er; [|lia].
  rewrite H in Er by lia. done.
Qed.
End Spec.
End SchedulerSpec.

(** * Executing *)
Module ExecuteSpec.
Import Composition Execution.

Section Execute.
Context {L S P T : Type} `{!IStateStore S, !ILedger L S}.
Variable blake2b : bytes -> bytes.
Variables (empty : T) (Update : T -> bytes -> bytes -> T) (Root : T -> bytes).
Variable RemoveTxByKey : P -> bytes -> P.
Variable maxCache : Z.

(** Actions that return, whose results are within the wire format. *)
Variable exec : Transaction.t -> world S -> world S * option TransactionResult.t.
Variable ExecuteTx : Transaction.t -> world S -> go (world S * option TransactionResult.t).
Hypothesis ExecuteTx_exec : forall t w, ExecuteTx t w = Ok (exec t w).
Hypothesis exec_well_formed : forall t w rs, (exec t w).2 = Some rs -> Tx.well_formed TransactionResult.desc rs.

Abbreviation env := (env (L := L) (S := S) (P := P)).

(** The transactions one after the other, up to the first that fails. *)
Fixpoint apply_txs (txs : list Transaction.t) (w : world S) : world S * option (list TransactionResult.t) :=
  match txs with
  | [] => (w, Some [])
  | t :: txs =>
      match exec t w with
      | (w, None) => (w, None)
      | (w, Some rs) => let '(w, l) := apply_txs txs w in (w, cons rs <$> l)
      end
  end.

Lemma execute_loop_apply txs w acc : execute_loop ExecuteTx txs w acc =
  Ok (let '(w, l) := apply_txs txs w in (w, match l with Some l => inr (acc ++ l) | None => inl EExecute end)).
Proof.
  revert w acc. induction txs as [|t txs IH]; intros w acc; cbn [execute_loop apply_txs]; [by rewrite app_nil_r|].
  rewrite ExecuteTx_exec. cbn [mbind outcome_bind]. destruct (exec t w) as [w1 [rs|]]; [|done]. rewrite IH.
  destruct (apply_txs txs w1) as [w2 [l|]]; cbn; [|done]. by rewrite <- (assoc_L (++)).
Qed.

Lemma apply_txs_results txs w w' l : apply_txs txs w = (w', Some l) ->
  length l = length txs /\ Forall (Tx.well_formed TransactionResult.desc) l.
Proof.
  revert w w' l. induction txs as [|t txs IH]; intros w w' l; cbn [apply_txs]; [by intros [= _ <-]|].
  destruct (exec t w) as [w1 [rs|]] eqn:Ex; [|done]. destruct (apply_txs txs w1) as [w2 [l2|]] eqn:E; cbn; [|done].
  intros [= <- <-]. destruct (IH _ _ _ E) as [Hl Hw]. split; [cbn; by rewrite Hl|]. constructor; [|done].
  apply (exec_well_formed t w). by rewrite Ex.
Qed.

Definition tx_hash (t : Transaction.t) : bytes := blake2b (Wire.enc Transaction.desc _ t).

Definition result_hash (r : TransactionResult.t) : bytes := blake2b (Wire.enc TransactionResult.desc _ r).

Definition tree_of (hashes : list bytes) (t : T) : T := foldl (fun t h => Update t h h) t hashes.

Lemma tx_HashBytes t : Tx.well_formed Transaction.desc t -> Tx.HashBytes blake2b t = Ok (Some (tx_hash t)).
Proof. intros Ht. unfold Tx.HashBytes, Tx.Bytes. by destruct (Tx.codec_roundtrip _ _ Ht) as (-> & _). Qed.

Lemma result_HashBytes r : Tx.well_formed TransactionResult.desc r -> Tx.TxResult_HashBytes blake2b r = Ok (Some (result_hash r)).
Proof. intros Hr. unfold Tx.TxResult_HashBytes. by destruct (Tx.codec_roundtrip _ _ Hr) as (-> & _). Qed.

Lemma updateTree_spec txs rs t1 t2 : Forall (Tx.well_formed Transaction.desc) txs -> Forall (Tx.well_formed TransactionResult.desc) rs ->
  length rs = length txs -> updateTree blake2b Update txs rs t1 t2 = Ok (tree_of (tx_hash <$> txs) t1, tree_of (result_hash <$> rs) t2).
Proof.
  revert rs t1 t2. induction txs as [|t txs IH]; intros [|r rs] t1 t2 Ht Hr Hl; try done.
  apply Forall_cons_1 in Ht as [Ht Hts]. apply Forall_cons_1 in Hr as [Hr Hrs]. injection Hl as Hl.
  cbn [updateTree]. rewrite tx_HashBytes, result_HashBytes by done. cbn [mbind outcome_bind]. by rewrite IH.
Qed.

Lemma TxResultRoot_spec rs txs : Forall (Tx.well_formed TransactionResult.desc) rs ->
  Tx.TxResultRoot blake2b empty Update Root rs txs = Ok (Root (tree_of (result_hash <$> rs) empty)).
Proof.
  intros Hr. unfold Tx.TxResultRoot. generalize empty as t. induction Hr as [|r rs Hr Hrs IH]; intros t; [done|].
  cbn [Tx.TxResultRoot_loop]. rewrite result_HashBytes by done. cbn [mbind outcome_bind]. apply IH.
Qed.

Lemma remove_txs_spec txs (e : env) : Forall (Tx.well_formed Transaction.desc) txs ->
  remove_txs blake2b RemoveTxByKey txs e =
    Ok (set_pool e (foldl (fun p t => RemoveTxByKey p (Tx.hex_EncodeToString (tx_hash t))) (e_pool e) txs)).
Proof.
  intros Ht. revert e. induction Ht as [|t txs Ht Hts IH]; intros e; [by destruct e|].
  cbn [remove_txs]. unfold Tx.TxID. rewrite tx_HashBytes by done. cbn [mbind outcome_bind option_map]. by rewrite IH.
Qed.

End Execute.

End ExecuteSpec.

(** * The block of a packed list *)
Module BlockSpec.
Import Execution.

Section Spec.
Variable blake2b : bytes -> bytes.

Lemma tx_bytes_ok txs : Forall (Tx.well_formed Transaction.desc) txs ->
  tx_bytes txs = Ok (Wire.enc Transaction.desc _ <$> txs).
Proof.
  induction 1 as [|t txs Ht _ IH]; [done|]. cbn [tx_bytes]. unfold Tx.Bytes.
  destruct (Tx.codec_roundtrip Transaction.desc t Ht) as (-> & _). cbn [mbind outcome_bind]. by rewrite IH.
Qed.

Lemma result_hashes_ok rs : Forall (Tx.well_formed TransactionResult.desc) rs ->
  result_hashes blake2b rs = Ok (blake2b ∘ Wire.enc TransactionResult.desc _ <$> rs).
Proof.
  induction 1 as [|r rs Hr _ IH]; [done|]. cbn [result_hashes]. unfold Tx.TxResult_HashBytes.
  destruct (Tx.codec_roundtrip TransactionResult.desc r Hr) as (-> & _). cbn [mbind outcome_bind]. by rewrite IH.
Qed.

Lemma DeepCopy_ok h : Tx.well_formed BlockHead.desc h -> BlockOps.DeepCopy h = Ok h.
Proof.
  intros Hh. unfold BlockOps.DeepCopy. destruct (Tx.codec_roundtrip BlockHead.desc h Hh) as (-> & _ & H). apply H.
Qed.

Definition decodes {M} (sc : Wire.schema M) (b : bytes) (m : M) : Prop := Codec.Unmarshal sc b (Wire.s_zero sc) = Ok m.

(** The messages a commit writes. *)
Definition chunk_of (head : BlockHead.t) (idx : Z) (p : PackedTxs) : BlockDataChunk.t :=
  BlockDataChunk.mk (BlockHead.Version head) idx (Wire.enc Transaction.desc _ <$> pt_TxList p) [].

Definition block_of (head : BlockHead.t) (idx : Z) (p : PackedTxs) : Block.t :=
  Block.mk (Some head)
    (Some (BlockData.mk (BlockHead.Version head) [Wire.enc BlockDataChunk.desc _ (chunk_of head idx p)] [])) [].

Definition head_chunk_of (head : BlockHead.t) (rs : PackedTxsResult) : BlockResultHeadChunk.t :=
  BlockResultHeadChunk.mk (BlockHead.Version head) 0 (pr_TxRSRoot rs) [].

Definition data_chunk_of (head : BlockHead.t) (rs : PackedTxsResult) : BlockResultDataChunk.t :=
  BlockResultDataChunk.mk (BlockHead.Version head) (blake2b ∘ Wire.enc TransactionResult.desc _ <$> pr_TxsResult rs) [].

Definition result_of (head : BlockHead.t) (idx : Z) (prev : BlockResult.t) (p : PackedTxs) (rs : PackedTxsResult) : BlockResult.t :=
  BlockResult.mk
    (Some (BlockResultHead.mk (BlockHead.Version head) (blake2b (Wire.enc BlockResult.desc _ prev))
             (blake2b (Wire.enc Block.desc _ (block_of head idx p)))
             [Wire.enc BlockResultHeadChunk.desc _ (head_chunk_of head rs)] BlockResultHead_OK [] [] []))
    (Some (BlockResultData.mk (BlockHead.Version head) [Wire.enc BlockResultDataChunk.desc _ (data_chunk_of head rs)] [])) [].

Definition info_of (b : Block.t) (r : BlockResult.t) : PubSubMessageBlockInfo.t :=
  PubSubMessageBlockInfo.mk (Wire.enc Block.desc _ b) (Wire.enc BlockResult.desc _ r) [].

Definition message_of (b : Block.t) (r : BlockResult.t) : ChainMessage.t :=
  ChainMessage.mk ChainMessage_BlockInfo (Wire.enc PubSubMessageBlockInfo.desc _ (info_of b r)) [].

(** What is packed, and what is written for it, is within the wire format. *)
Record encodable (head : BlockHead.t) (idx : Z) (prev : BlockResult.t) (p : PackedTxs) (rs : PackedTxsResult) : Prop := {
  en_head : Tx.well_formed BlockHead.desc head;
  en_prev : Tx.well_formed BlockResult.desc prev;
  en_txs : Forall (Tx.well_formed Transaction.desc) (pt_TxList p);
  en_results : Forall (Tx.well_formed TransactionResult.desc) (pr_TxsResult rs);
  en_chunk : Tx.well_formed BlockDataChunk.desc (chunk_of head idx p);
  en_block : Tx.well_formed Block.desc (block_of head idx p);
  en_hchunk : Tx.well_formed BlockResultHeadChunk.desc (head_chunk_of head rs);
  en_dchunk : Tx.well_formed BlockResultDataChunk.desc (data_chunk_of head rs);
  en_result : Tx.well_formed BlockResult.desc (result_of head idx prev p rs);
  en_info : Tx.well_formed PubSubMessageBlockInfo.desc (info_of (block_of head idx p) (result_of head idx prev p rs));
  en_message : Tx.well_formed ChainMessage.desc (message_of (block_of head idx p) (result_of head idx prev p rs));
}.

Lemma construct_ok head idx prev p rs : encodable head idx prev p rs ->
  constructBlockAndBlockResult blake2b idx head prev p rs = Ok (inr (block_of head idx p, result_of head idx prev p rs)).
Proof.
  intros [Hh Hp Ht Hr Hc Hb Hhc Hdc _ _ _]. unfold constructBlockAndBlockResult.
  rewrite DeepCopy_ok, tx_bytes_ok by done. run_Ok.
  fold (chunk_of head idx p). destruct (Tx.codec_roundtrip _ _ Hc) as (-> & _). run_Ok.
  fold (block_of head idx p). unfold BlockOps.HashBytes, BlockOps.Result_HashBytes.
  destruct (Tx.codec_roundtrip _ _ Hb) as (-> & _), (Tx.codec_roundtrip _ _ Hp) as (-> & _). run_Ok.
  fold (head_chunk_of head rs). destruct (Tx.codec_roundtrip _ _ Hhc) as (-> & _). run_Ok.
  rewrite result_hashes_ok by done. run_Ok.
  fold (data_chunk_of head rs). destruct (Tx.codec_roundtrip _ _ Hdc) as (-> & _).
  run_Ok. reflexivity.
Qed.

(** The message that is published. *)
Lemma block_info_ok head idx prev p rs : encodable head idx prev p rs ->
  block_info (block_of head idx p) (result_of head idx prev p rs)
  = Ok (Wire.enc ChainMessage.desc _ (message_of (block_of head idx p) (result_of head idx prev p rs))).
Proof.
  intros [_ _ _ _ _ [Hbm _]%Tx.codec_roundtrip _ _ [Hrm _]%Tx.codec_roundtrip [Him _]%Tx.codec_roundtrip [Hmm _]%Tx.codec_roundtrip].
  unfold block_info. rewrite Hbm, Hrm. run_Ok. fold (info_of (block_of head idx p) (result_of head idx prev p rs)).
  rewrite Him. run_Ok. fold (message_of (block_of head idx p) (result_of head idx prev p rs)). by rewrite Hmm.
Qed.

(** C9. The block made of a packed list carries it: the message published on a
    commit decodes to the block and its result, the block's head is the one
    asked for, its one data chunk has the index and decodes to exactly the
    packed transactions in their order, the result names the hash of that very
    block and of the result before it, and its chunks hold the root of the
    results and the hash of each. *)
Theorem published_block_roundtrip head idx prev p rs : encodable head idx prev p rs ->
  exists block blockRS msg, constructBlockAndBlockResult blake2b idx head prev p rs = Ok (inr (block, blockRS))
    /\ block_info block blockRS = Ok msg
    /\ (exists m info, decodes ChainMessage.desc msg m /\ ChainMessage.MsgType m = ChainMessage_BlockInfo
        /\ decodes PubSubMessageBlockInfo.desc (ChainMessage.Data m) info
        /\ decodes Block.desc (PubSubMessageBlockInfo.Block info) block
        /\ decodes BlockResult.desc (PubSubMessageBlockInfo.BlockResult info) blockRS)
    /\ Block.Head block = Some head
    /\ (exists data c chunk, Block.Data block = Some data /\ BlockData.DataChunks data = [c]
        /\ decodes BlockDataChunk.desc c chunk /\ BlockDataChunk.RefIndex chunk = idx
        /\ Forall2 (fun b t => decodes Transaction.desc b t) (BlockDataChunk.Txs chunk) (pt_TxList p))
    /\ (exists rh c hc, BlockResult.Head blockRS = Some rh /\ BlockResultHead.ResultHeadChunks rh = [c]
        /\ decodes BlockResultHeadChunk.desc c hc /\ BlockResultHeadChunk.TxResultHashRoot hc = pr_TxRSRoot rs
        /\ BlockOps.HashBytes blake2b block = Ok (BlockResultHead.BlockHash rh)
        /\ BlockOps.Result_HashBytes blake2b prev = Ok (BlockResultHead.PrevBlockResult rh))
    /\ (exists rd c dc, BlockResult.Data blockRS = Some rd /\ BlockResultData.ResultDataChunks rd = [c]
        /\ decodes BlockResultDataChunk.desc c dc
        /\ result_hashes blake2b (pr_TxsResult rs) = Ok (BlockResultDataChunk.TxResults dc)).
Proof.
  intros He. pose proof (construct_ok _ _ _ _ _ He) as Hc. pose proof (block_info_ok _ _ _ _ _ He) as Hi.
  destruct He as [_ Hp Ht Hr [_ [_ Hck]]%Tx.codec_roundtrip [Hbm [_ Hbu]]%Tx.codec_roundtrip [_ [_ Hhc]]%Tx.codec_roundtrip
    [_ [_ Hdc]]%Tx.codec_roundtrip [Hrm [_ Hru]]%Tx.codec_roundtrip [Him [_ Hiu]]%Tx.codec_roundtrip [Hmm [_ Hmu]]%Tx.codec_roundtrip].
  eexists _, _, _. split; [exact Hc|]. split; [exact Hi|].
  split; [eexists _, _; split_and!; [apply Hmu|reflexivity|apply Hiu|apply Hbu|apply Hru]|].
  split; [reflexivity|]. split.
  { eexists _, _, _. split_and!; [reflexivity|reflexivity|apply Hck|reflexivity|]. cbn [BlockDataChunk.Txs chunk_of].
    apply Forall2_fmap_l, Forall_Forall2_diag. eapply Forall_impl; [exact Ht|]. intros t Hw. by apply Tx.codec_roundtrip. }
  split.
  { eexists _, _, _. split_and!; [reflexivity|reflexivity|apply Hhc|reflexivity|..]; unfold BlockOps.HashBytes, BlockOps.Result_HashBytes.
    - by rewrite Hbm.
    - by destruct (Tx.codec_roundtrip _ _ Hp) as (-> & _). }
  eexists _, _, _. split_and!; [reflexivity|reflexivity|apply Hdc|]. by apply result_hashes_ok.
Qed.
End Spec.
End BlockSpec.

(** * Committing *)
Module CommitSpec.
Import Composition Execution BlockSpec ChainSpec.

Section Spec.
Context {L S P T : Type} `{!IStateStore S, !StateStoreLaws S, !ILedger L S}.
Variable blake2b : bytes -> bytes.
Variable UpdateEpoch : BlockHead.t -> world S -> go (world S).
Variable Commit : S -> go (S * option StateStore.store_error).

Abbreviation scheduler := (executionScheduler (T := T)).
Abbreviation env := (env (L := L) (S := S) (P := P)).
Abbreviation entry := (executionPackedTxs (T := T)).
Abbreviation commit := (CommitPackedTx (L := L) (S := S) (P := P) (T := T) blake2b UpdateEpoch Commit).

(** The updater of epochs leaves the chain state alone. *)
Hypothesis UpdateEpoch_chain : forall head cs w d c, chain_rep (S := S) cs w d c ->
  exists w' d', UpdateEpoch head w = Ok w' /\ chain_rep cs w' d' c.

(** The chain state a committing entry sees, and the caches it is read through. *)
Record committing (s : scheduler) (e : env) (v : Z) (x : entry) (cs : compositionState S) (d : gmap bytes kvmap) (c : chain)
    (h : BlockHead.t) (latest : Block.t) (prev : BlockResult.t) (rs : PackedTxsResult) : Prop := {
  cm_entry : find_version s v = Some x;
  cm_state : e_heap e !! ep_compState x = Some cs;
  cm_result : packedTxsRS x = Some rs;
  cm_ledger : Chain.ledgerID (cs_chain cs) = l_ID (e_ledger e);
  cm_chain : chain_rep (cs_chain cs) (world_of e cs) d c;
  cm_latest : c_cached c = Some latest;
  cm_head : Block.Head latest = Some h;
  cm_prev : c_cached_result c = Some prev;
}.

Lemma latest_ok s e v x cs d c h latest prev rs : committing s e v x cs d c h latest prev rs ->
  Execution.latest e cs = Ok (e, latest, prev).
Proof.
  intros [_ _ _ Hl [_ _ _ Hc Hcr _] E1 _ E2]. unfold Execution.latest, Composition.GetLatestBlock, Composition.GetLatestBlockResult.
  unfold from_cache_or, Chain.cached_block, Chain.cached_result. rewrite <- Hl, Hc, E1. cbn [mbind outcome_bind].
  rewrite <- Hl, Hcr, E2. cbn. by destruct e.
Qed.

(** The chain once the block is in. *)
Definition chain_after (c : chain) (b : Block.t) (r : BlockResult.t) : chain :=
  mkChain (c_id c) (Some b) (Some r) (Some b) (Some r) (ledger_after b (c_ledger c)).

Lemma found_nonempty (s : scheduler) v x : find_version s v = Some x -> (length (exePackedTxsList s) =? 0)%nat = false.
Proof. unfold find_version. by destruct (exePackedTxsList s). Qed.

Lemma run_done {A B} (c : cmd (world S) state_error A) (b : B) w w' : (_ ← c; mret b) w = Ok (w', inr b) ->
  exists a, c w = Ok (w', inr a).
Proof.
  unfold mbind, cmd_bind. intros H. destruct (c w) as [[w1 [err|a]]| |] eqn:E; [done| |done|done].
  injection H as <-. by exists a.
Qed.

(** The kernel is not to run the setters when it compares their results. *)
#[local] Strategy opaque [Chain.SetLatestBlock Chain.SetLatestBlockResult].

(** Up to the commit of the store. *)
Lemma CommitBlock_prefix (e : env) r cs d c head idx prev p rs : e_heap e !! r = Some cs -> chain_rep (cs_chain cs) (world_of e cs) d c ->
  encodable blake2b head idx prev p rs ->
  exists w d', chain_rep (cs_chain cs) w d' (chain_after c (block_of head idx p) (result_of blake2b head idx prev p rs))
  /\ CommitBlock UpdateEpoch Commit e (block_of head idx p) (result_of blake2b head idx prev p rs) (Some r) =
     '(s, r3) ← Commit (w_store w);
     let e := put_world e r (mkWorld s (w_ledger w) (latestBlockMap w) (latestBlockRSMap w) (latestEpochMap w)) in
     match r3 with
     | Some err => Ok (e, Some (ECommit err))
     | None => Ok (emit (mark e r CompSState_Commited) (BlockAdded (block_of head idx p)), None)
     end.
Proof.
  intros Hcs Hc He. unfold CommitBlock. change (Block.Head (block_of head idx p)) with (Some head). cbn iota. rewrite Hcs.
  destruct (refines_set_block (cs_chain cs) (block_of head idx p) _ d c Hc) as (w1 & E1 & Hc1).
  { split; [apply He|]. by eexists. }
  apply run_done in E1 as [[] ->]. run_Ok.
  destruct (refines_set_result (cs_chain cs) (result_of blake2b head idx prev p rs) w1 d _ Hc1) as (w2 & E2 & Hc2); [apply He|].
  apply run_done in E2 as [[] ->]. run_Ok.
  destruct (UpdateEpoch_chain head _ _ _ _ Hc2) as (w3 & d' & -> & Hc3). run_Ok.
  exists w3, d'. by split.
Qed.

Lemma put_world_at (e : env) r cs w : e_heap e !! r = Some cs ->
  e_heap (put_world e r w) !! r = Some (mkComp (w_store w) (cs_chain cs) (cs_epoch cs) (stateVersion cs) (state cs)).
Proof. intros H. cbn. by rewrite list_lookup_alter_eq, H. Qed.

Lemma world_of_put (e : env) r w cs : cs_store cs = w_store w -> world_of (put_world e r w) cs = w.
Proof. intros H. unfold world_of. rewrite H. by destruct w. Qed.

(** When the store's commit succeeds, the block is the latest of the chain. *)
Lemma CommitBlock_installs (e : env) r cs d c head idx prev p rs : e_heap e !! r = Some cs -> chain_rep (cs_chain cs) (world_of e cs) d c ->
  encodable blake2b head idx prev p rs ->
  (forall st m, named st m -> exists st', Commit st = Ok (st', None) /\ named st' m) ->
  let block := block_of head idx p in
  let blockRS := result_of blake2b head idx prev p rs in
  exists e' cs' d', CommitBlock UpdateEpoch Commit e block blockRS (Some r) = Ok (e', None)
    /\ e_heap e' !! r = Some cs' /\ state cs' = CompSState_Commited /\ stateVersion cs' = stateVersion cs
    /\ chain_rep (cs_chain cs') (world_of e' cs') d' (chain_after c block blockRS)
    /\ e_events e' = e_events e ++ [BlockAdded block] /\ e_pool e' = e_pool e.
Proof.
  intros Hcs Hc He HC. cbv zeta. destruct (CommitBlock_prefix e r cs d c head idx prev p rs) as (w & d' & Hw & ->); [done..|].
  destruct Hw as [(m & Hnm & Hrest) Hwb Hwr Hcb Hcr Hl]. destruct (HC _ _ Hnm) as (st & -> & Hst). run_Ok.
  eexists _, _, d'. split; [reflexivity|].
  pose proof (put_world_at e _ cs (mkWorld st (w_ledger w) (latestBlockMap w) (latestBlockRSMap w) (latestEpochMap w)) Hcs) as Hp.
  split; [cbn [e_heap emit mark]; rewrite list_lookup_alter_eq, Hp; reflexivity|].
  split_and!; [done|done| |done|done].
  split; [by exists m|exact Hwb|exact Hwr|exact Hcb|exact Hcr|exact Hl].
Qed.

Lemma commit_unfold s e v x cs d c h latest prev rs head idx : committing s e v x cs d c h latest prev rs ->
  encodable blake2b head idx prev (packedTxs x) rs ->
  commit s e v idx head =
    if BlockHead.Height h >=? BlockHead.Height head then Ok (s, e, None)
    else
      '(e, err) ← CommitBlock UpdateEpoch Commit e (block_of head idx (packedTxs x)) (result_of blake2b head idx prev (packedTxs x) rs) (Some (ep_compState x));
      match err with
      | Some err => Ok (s, e, Some err)
      | None =>
          msg ← block_info (block_of head idx (packedTxs x)) (result_of blake2b head idx prev (packedTxs x) rs);
          Ok (mkScheduler (schedulerState s) (lastStateVersion s) (u32 (exePackedCount s - 1)) (exePackedTxsList s),
              emit e (Published msg), None)
      end.
Proof.
  intros Hm He. unfold CommitPackedTx. rewrite (found_nonempty s v x) by apply Hm.
  rewrite (cm_entry _ _ _ _ _ _ _ _ _ _ _ Hm), (cm_state _ _ _ _ _ _ _ _ _ _ _ Hm), (cm_result _ _ _ _ _ _ _ _ _ _ _ Hm).
  rewrite (latest_ok _ _ _ _ _ _ _ _ _ _ _ Hm). run_Ok. rewrite (cm_head _ _ _ _ _ _ _ _ _ _ _ Hm).
  destruct (BlockHead.Height h >=? BlockHead.Height head); [done|]. rewrite construct_ok by done. by run_Ok.
Qed.


(** When the store refuses the commit, the request fails, but the block that is
    not stored is the cached latest block of the node already, and a second
    request for its height is ignored as late. *)
Lemma failed_commit_is_cached s e v x cs d c h latest prev rs head idx err : committing s e v x cs d c h latest prev rs ->
  encodable blake2b head idx prev (packedTxs x) rs -> BlockHead.Height h < BlockHead.Height head ->
  (forall st m, named st m -> exists st', Commit st = Ok (st', Some err)) ->
  exists e', commit s e v idx head = Ok (s, e', Some (ECommit err))
  /\ e_blocks e' !! l_ID (e_ledger e) = Some (block_of head idx (packedTxs x)) /\ e_events e' = e_events e.
Proof.
  intros Hm He Hlt HC. rewrite (commit_unfold _ _ _ _ _ _ _ _ _ _ _ _ _ Hm He).
  destruct (Z.geb_spec (BlockHead.Height h) (BlockHead.Height head)); [lia|].
  destruct (CommitBlock_prefix e (ep_compState x) cs d c head idx prev (packedTxs x) rs) as (w & d' & Hw & ->); [apply Hm|apply Hm|done|].
  destruct Hw as [(m & Hnm & Hrest) Hwb Hwr Hcb Hcr Hl]. destruct (HC _ _ Hnm) as (st & ->). run_Ok.
  eexists. split; [reflexivity|]. split; [|done]. rewrite <- (cm_ledger _ _ _ _ _ _ _ _ _ _ _ Hm). exact Hcb.
Qed.
End Spec.
End CommitSpec.

(** * A concrete node *)
Module SchedulerExamples.
Import Composition Execution SchedulerSpec ExecuteSpec BlockSpec ChainSpec CommitSpec.
#[local] Existing Instance RefStore.ref_store.
#[local] Existing Instance RefStore.ref_store_laws.

Abbreviation store := (gmap bytes kvmap).
Abbreviation tree := (list bytes).

#[local] Instance the_ledger : ILedger store store := {
  l_ID _ := str "main";
  l_CreateStateStore l := Ok (l, l);
  l_CreateStateStoreReadonly l := Ok (l, l);
}.

Definition hash : bytes -> bytes := take 8.
Definition upd (t : tree) (k v : bytes) : tree := t ++ [k].
Definition root (t : tree) : bytes := mjoin t.
Definition remove (p : list bytes) (k : bytes) : list bytes := filter (fun x => x <> k) p.
Definition result : TransactionResult.t := TransactionResult.mk None None [].
Definition act (t : Transaction.t) (w : world store) : world store * option TransactionResult.t := (w, Some result).
Definition act_go (t : Transaction.t) (w : world store) : go (world store * option TransactionResult.t) := Ok (act t w).
Definition keep_epoch (h : BlockHead.t) (w : world store) : go (world store) := Ok w.
Definition commit_store (s : store) : go (store * option StateStore.store_error) := Ok (s, None).

Definition block_at (height : Z) : BlockHead.t :=
  BlockHead.mk (str "1") 1 height 0 0 [] (str "p") [] [] 0 [] [] 0 [] [] [] 7 0 [] [] [].

Definition block1 : Block.t := Block.mk (Some (block_at 1)) None [].

Definition result1 : BlockResult.t := BlockResult.mk None None [].

Definition chain1 : chain := mkChain None (Some block1) (Some result1) (Some block1) (Some result1) LedgerState_Uninitialized.

Definition state1 (v : Z) : compositionState store :=
  mkComp (<[Chain.StateStore_Name_Chain:=
      <[Chain.LatestBlockResult_Key:=Wire.enc BlockResult.desc _ result1]> (<[Chain.LatestBlock_Key:=Wire.enc Block.desc _ block1]> ∅)]> ∅)
    (Chain.mkChainState (str "main")) (Epoch.mkEpochState (str "main")) v CompSState_Idle.

Definition env1 : env (L := store) (S := store) (P := list bytes) :=
  mkEnv ∅ LedgerState_Uninitialized [state1 2; state1 3] {[str "main" := block1]} {[str "main" := result1]} ∅ [] [].

Definition packed (v : Z) : PackedTxs := mkPackedTxs v [] [Tx.sample_tx].

Definition entry1 (v : Z) (r : ref) : executionPackedTxs (T := tree) :=
  mkExecution r (packed v) (Some (mkPackedTxsResult v (root [hash (Wire.enc TransactionResult.desc _ result)]) [result]))
    [hash (Wire.enc Transaction.desc _ Tx.sample_tx)] [hash (Wire.enc TransactionResult.desc _ result)].

Definition executed (l : list (executionPackedTxs (T := tree))) (v : Z) : executionScheduler (T := tree) :=
  mkScheduler SchedulerState_Idle v (Z.of_nat (length l)) l.

Ltac wf := split_and!; [repeat constructor; vm_compute; repeat constructor..|by vm_compute].

Lemma result_wf : Tx.well_formed TransactionResult.desc result.
Proof. wf. Qed.

Definition env2 : env (L := store) (S := store) (P := list bytes) := mark env1 0 CompSState_Executed.
Definition env3 : env (L := store) (S := store) (P := list bytes) := mark env2 1 CompSState_Executed.


Abbreviation reached := (reach (L := store) hash [] upd root act_go remove keep_epoch commit_store 5).

Lemma first_executes :
  ExecutePackedTx hash [] upd root act_go remove 5 NewExecutionScheduler env1 (packed 2) 0 =
    Ok (executed [entry1 2 0] 2, env2, inr (packedTxsRS (entry1 2 0))).
Proof. reflexivity. Qed.

Lemma second_executes :
  ExecutePackedTx hash [] upd root act_go remove 5 (executed [entry1 2 0] 2) env2 (packed 3) 1 =
    Ok (executed [entry1 2 0; entry1 3 1] 3, env3, inr (packedTxsRS (entry1 3 1))).
Proof. reflexivity. Qed.

Lemma reached_two : reached (executed [entry1 2 0; entry1 3 1] 3) env3 [2; 3].
Proof.
  assert (H1 : reached (executed [entry1 2 0] 2) env2 [2]).
  { apply (reach_execute _ _ _ _ _ _ _ _ _ NewExecutionScheduler env1 [] (packed 2) 0 _ _ (packedTxsRS (entry1 2 0)));
      [apply reach_new|cbn; lia|exact first_executes]. }
  apply (reach_execute _ _ _ _ _ _ _ _ _ (executed [entry1 2 0] 2) env2 [2] (packed 3) 1 _ _ (packedTxsRS (entry1 3 1)));
    [exact H1|cbn; lia|exact second_executes].
Qed.

Lemma scheduler_consecutive_witness :
  Z.of_nat (length (exePackedTxsList (executed [entry1 2 0; entry1 3 1] 3))) < 5
  /\ lastStateVersion (executed [entry1 2 0; entry1 3 1] 3) = 3.
Proof.
  assert (H5 : 5 <= 5) by lia. assert (H4 : 0 < pt_StateVersion (packed 4) < 2 ^ 64 - 1) by (cbn; lia).
  destruct (scheduler_consecutive (L := store) hash [] upd root act_go remove keep_epoch commit_store 5
    _ env3 [2; 3] (packed 4) 1%nat reached_two H5 H4) as (_ & _ & H1 & H2 & _).
  exact (conj H1 H2).
Defined.

Lemma CompositionStateAtVersion_terminates_witness :
  CompositionStateAtVersion 3 (executed [entry1 2 0; entry1 3 1] 3) env3 3 = Some (Some 1%nat)
  /\ forall fuel, CompositionStateAtVersion fuel (executed [entry1 2 0; entry1 3 1] 3) (mark env3 1 CompSState_Commited) 3 = None.
Proof.
  split.
  - apply (CompositionStateAtVersion_terminates (executed [entry1 2 0; entry1 3 1] 3) env3 3); [|cbn; lia].
    repeat (apply List.Forall_cons; [by eexists|]). apply List.Forall_nil.
  - apply (CompositionStateAtVersion_terminates (executed [entry1 2 0; entry1 3 1] 3) (mark env3 1 CompSState_Commited) 3).
    repeat (apply List.Forall_cons; [by eexists|]). apply List.Forall_nil.
Defined.

Lemma encodable2 : encodable hash (block_at 2) 0 result1 (packed 2) (mkPackedTxsResult 2 [] [result]).
Proof.
  split; [wf|wf|apply List.Forall_cons; [exact Tx.sample_tx_well_formed|apply List.Forall_nil]
         |apply List.Forall_cons; [exact result_wf|apply List.Forall_nil]|wf..].
Qed.

Lemma published_block_roundtrip_witness :
  exists block blockRS msg,
    constructBlockAndBlockResult hash 0 (block_at 2) result1 (packed 2) (mkPackedTxsResult 2 [] [result]) = Ok (inr (block, blockRS))
    /\ block_info block blockRS = Ok msg /\ Block.Head block = Some (block_at 2).
Proof.
  destruct (published_block_roundtrip hash (block_at 2) 0 result1 (packed 2) (mkPackedTxsResult 2 [] [result]) encodable2)
    as (block & blockRS & msg & H1 & H2 & _ & H3 & _).
  exists block, blockRS, msg. exact (conj H1 (conj H2 H3)).
Defined.

Lemma encodable_entry : encodable hash (block_at 2) 0 result1 (packed 2)
  (mkPackedTxsResult 2 (root [hash (Wire.enc TransactionResult.desc _ result)]) [result]).
Proof.
  split; [wf|wf|apply List.Forall_cons; [exact Tx.sample_tx_well_formed|apply List.Forall_nil]
         |apply List.Forall_cons; [exact result_wf|apply List.Forall_nil]|wf..].
Qed.

Lemma block1_wf : Tx.well_formed Block.desc block1.
Proof. wf. Qed.

Lemma result1_wf : Tx.well_formed BlockResult.desc result1.
Proof. wf. Qed.

Lemma committing1 : committing (executed [entry1 2 0] 2) env2 2 (entry1 2 0) (UpdateCompSState (state1 2) CompSState_Executed) ∅ chain1
  (block_at 1) block1 result1 (mkPackedTxsResult 2 (root [hash (Wire.enc TransactionResult.desc _ result)]) [result]).
Proof.
  split; try reflexivity. split; [|by intros b [= <-]; apply block1_wf|by intros r [= <-]; apply result1_wf|reflexivity..].
  eexists. split; [cbn; reflexivity|]. split_and!; reflexivity.
Qed.


(** Five executions that no commit follows, of which the list has dropped the
    first: the bound on the versions in flight is reached, and the entry that
    would have to be committed to get below it is gone. *)
Fixpoint execute_all (s : executionScheduler (T := tree)) (e : env (L := store) (S := store) (P := list bytes)) (vs : list Z) :=
  match vs with
  | [] => Ok (s, e)
  | v :: vs => '(s, e, _) ← ExecutePackedTx hash [] upd root act_go remove 5 s e (mkPackedTxs v [] []) 0%nat; execute_all s e vs
  end.

Definition empty_entry (v : Z) : executionPackedTxs (T := tree) :=
  mkExecution 0%nat (mkPackedTxs v [] []) (Some (mkPackedTxsResult v [] [])) [] [].

Lemma execute_all_cons s e v vs : admissible s v = Ok (inr None) -> is_Some (e_heap e !! 0%nat) -> exists e',
  is_Some (e_heap e' !! 0%nat) /\ execute_all s e (v :: vs) =
    execute_all (mkScheduler SchedulerState_Idle v (u32 (exePackedCount s + 1)) (trim 5 (exePackedTxsList s ++ [empty_entry v]))) e' vs.
Proof.
  intros Ha [cs Hcs]. cbn [execute_all]. unfold ExecutePackedTx. cbn [pt_StateVersion]. rewrite Ha. run_Ok. rewrite Hcs.
  eexists. split; [|reflexivity]. cbn. rewrite !list_lookup_alter_eq, Hcs. by eexists.
Qed.

Lemma dropped_entry_blocks : exists s e,
  execute_all NewExecutionScheduler env1 [2; 3; 4; 5; 6] = Ok (s, e)
  /\ MaxStateVersion s block1 = Ok (inl EMaxAvail)
  /\ CommitPackedTx hash keep_epoch commit_store s e 2 0 (block_at 2) = Ok (s, e, Some (ENotFound 2)).
Proof.
  assert (H : is_Some (e_heap env1 !! 0%nat)) by (by eexists). revert H. generalize env1 as e. intros e H.
  do 5 (edestruct execute_all_cons as (? & ? & ->); [reflexivity|eassumption|]).
  eexists _, _. split; [reflexivity|]. split; reflexivity.
Qed.
End SchedulerExamples.
