(* ===== verification/RoleSelector.v ===== *)
(** Selecting nodes by weight (src/consensus/vrf): the launcher of an execution
    and the members of a domain are drawn with a SplitMix64 generator that is
    seeded with a hash, and proposers win a block by the inverse of a Poisson
    distribution in fixed-point arithmetic. *)
From Stdlib Require Import ZArith Lia Strings.Byte.
From stdpp Require Import base gmap list strings sorting.
From S2P Require Import Prelude Common Wire TxMessages ChainMessages TxBasic.
Import Util Types.
#[local] Open Scope Z_scope.

(** [new(big.Int).SetBytes]: the bytes as a big-endian number. *)
Definition SetBytes (b : bytes) : Z := fold_left (fun acc x => acc * 256 + b2z x) b 0.

(** * role_selector_vrf.go *)
Module RoleSelectorVRF.

Definition uint64Mask : Z := 0x7FFFFFFFFFFFFFFF.

Definition divider : Z := uint64Mask + 1.

Inductive RoleSelector := RoleSelector_Unknown | RoleSelector_ExecutionLauncher | RoleSelector_VoteCollector | RoleSelector_Nodes.

Definition RoleSelector_byte (r : RoleSelector) : Z :=
  match r with
  | RoleSelector_Unknown => 0
  | RoleSelector_ExecutionLauncher => 1
  | RoleSelector_VoteCollector => 2
  | RoleSelector_Nodes => 3
  end.

Definition RoleSelector_String (r : RoleSelector) : bytes :=
  match r with
  | RoleSelector_ExecutionLauncher => str "ExecutionLauncher"
  | RoleSelector_VoteCollector => str "VoteCollector"
  | _ => str "Unknown"
  end.

Definition RoleSelector_Value (s : bytes) : RoleSelector :=
  if decide (s = str "ExecutionLauncher") then RoleSelector_ExecutionLauncher
  else if decide (s = str "VoteCollector") then RoleSelector_VoteCollector
  else RoleSelector_Unknown.

Record candidateInfo := mkCandidate { nodeID : bytes; weight : Z }.

Inductive select_error :=
| EInvalidRole (r : RoleSelector)
| ENodeWeight (id : bytes)
| ESign
| EInvalidParameters.

(** SplitMix64: the new state and the number drawn. *)
Definition nextRandom (rand : Z) : Z * Z :=
  let rand := u64 (rand + 0x9e3779b97f4a7c15) in
  let z := rand in
  let z := u64 (Z.lxor z (Z.shiftr z 30) * 0xbf58476d1ce4e5b9) in
  let z := u64 (Z.lxor z (Z.shiftr z 27) * 0x94d049bb133111eb) in
  (rand, Z.lxor z (Z.shiftr z 31)).

Definition thresholdValue (seed totalWeight : Z) : Z * Z :=
  let '(seed, r) := nextRandom seed in
  (seed, u64 (Z.land r uint64Mask * totalWeight / divider)).

(** The thresholds of a draw of [count] nodes. *)
Fixpoint thresholds (count : nat) (seed totalWeight : Z) : list Z :=
  match count with
  | O => []
  | S count => let '(seed, v) := thresholdValue seed totalWeight in v :: thresholds count seed totalWeight
  end.

(** Heavier first, then by id. *)
Definition cand_le (a b : candidateInfo) : Prop :=
  weight b < weight a \/ (weight a = weight b /\ bytes_le (nodeID a) (nodeID b)).

#[export] Instance cand_le_dec a b : Decision (cand_le a b).
Proof. unfold cand_le. apply _. Defined.

Definition sort (canInfos : list candidateInfo) : list candidateInfo := merge_sort cand_le canInfos.

Definition hashToSeed (hash : bytes) : Z :=
  fold_left (fun acc b => Z.lor (Z.shiftl acc 8) (b2z b)) (take 8 (hash ++ replicate (8 - length hash) (z2b 0))) 0.

(** One draw per threshold, in the order of the candidates; an index past the
    thresholds is a panic, and candidates that run out are an error. *)
Fixpoint draw {A} (wt : A -> Z) (cans : list A) (vals : list Z) (cumulativeWeight : Z) (drawn : list A) :
    go (select_error + list A) :=
  match cans with
  | [] => Ok (inl EInvalidParameters)
  | can :: cans =>
      match vals with
      | [] => Panic
      | v :: rest =>
          let cumulative := u64 (cumulativeWeight + wt can) in
          if v <? cumulative
          then match rest with
               | [] => Ok (inr (drawn ++ [can]))
               | _ => draw wt cans rest cumulative (drawn ++ [can])
               end
          else draw wt cans vals cumulative drawn
      end
  end.

(** What is asked of the epoch service. *)
Record vrfServant := mkServant {
  GetActiveExecutorIDsOfDomain : bytes -> list bytes;
  GetActiveValidatorIDs : list bytes;
  GetActiveExecutorsTotalWeightOfDomain : bytes -> Z;
  GetActiveValidatorsTotalWeight : Z;
  GetNodeWeight : bytes -> option Z;
  GetLatestEpoch : option EpochInfo;
}.

Section Select.

(** The 256-bit blake2b digest and the crypt service; [None] is an error. *)
Variable blake2b : bytes -> bytes.
Context {K : Type}.
Variable Sign : K -> bytes -> option bytes.

(** The third number is written from the epoch on, so the epoch twice. *)
Definition makeVRFHash (role : RoleSelector) (epoch round : Z) (vrfProof : bytes) : bytes :=
  let b := Uint64ToBytes (RoleSelector_byte role) ++ Uint64ToBytes epoch ++ Uint64ToBytes round in
  blake2b (vrfProof ++ take 8 b ++ take 8 (drop 8 b) ++ take 16 (drop 8 b)).

Definition getVrfInputData (role : RoleSelector) (epoch stateVersion : Z) : bytes :=
  blake2b (z2b (RoleSelector_byte role) :: Uint64ToBytes epoch ++ Uint64ToBytes stateVersion).

Fixpoint getCandidateInfos (activeNodeID : list bytes) (servant : vrfServant) : select_error + list candidateInfo :=
  match activeNodeID with
  | [] => inr []
  | id :: ids =>
      match GetNodeWeight servant id with
      | None => inl (ENodeWeight id)
      | Some w =>
          match getCandidateInfos ids servant with
          | inl e => inl e
          | inr l => inr (mkCandidate id w :: l)
          end
      end
  end.

(** The proof of consensus of a block, which a nil head has not. *)
Definition consensus_proof (latestBlock : Block.t) : go (option bytes) :=
  match Block.Head latestBlock with
  | None => Panic
  | Some h =>
      Codec.Marshal ConsensusProof.desc
        (ConsensusProof.mk (BlockHead.ParentBlockHash h) (BlockHead.Height h) (BlockHead.VoteAggSignature h) [])
  end.

(** The draw among some nodes.  [sort.Strings] sorts the servant's own slice,
    whose order nobody else relies on. *)
Definition select_from (totalActiveWeight : Z) (activeNodeID : list bytes) (role : RoleSelector) (stateVersion : Z) (priKey : K)
    (latestBlock : Block.t) (servant : vrfServant) (count : nat) : go (select_error + (list bytes * bytes)) :=
  match getCandidateInfos (sort_Strings activeNodeID) servant with
  | inl e => Ok (inl e)
  | inr canInfos =>
      csProofBytes ← consensus_proof latestBlock;
      match GetLatestEpoch servant with
      | None => Panic
      | Some epochInfo =>
          let vrfInputData := getVrfInputData role (Epoch epochInfo) stateVersion in
          match Sign priKey vrfInputData with
          | None => Ok (inl ESign)
          | Some vrfProof =>
              let seed := hashToSeed (makeVRFHash role (Epoch epochInfo) stateVersion vrfInputData) in
              let vals := merge_sort Z.le (thresholds count seed totalActiveWeight) in
              r ← draw weight (sort canInfos) vals 0 [];
              Ok (match r with inl e => inl e | inr cans => inr ((nodeID <$> cans : list bytes), vrfProof) end)
          end
      end
  end.

(** The ids selected and the proof. *)
Definition Select (role : RoleSelector) (domainID : bytes) (stateVersion : Z) (priKey : K) (latestBlock : Block.t)
    (servant : vrfServant) (count : nat) : go (select_error + (list bytes * bytes)) :=
  match role with
  | RoleSelector_ExecutionLauncher =>
      select_from (GetActiveExecutorsTotalWeightOfDomain servant domainID) (GetActiveExecutorIDsOfDomain servant domainID)
        role stateVersion priKey latestBlock servant count
  | RoleSelector_VoteCollector =>
      select_from (GetActiveValidatorsTotalWeight servant) (GetActiveValidatorIDs servant)
        role stateVersion priKey latestBlock servant count
  | _ => Ok (inl (EInvalidRole role))
  end.

(** Nodes with different ids, sorted by id. *)
Definition node_le (a b : NodeInfo) : Prop := bytes_le (NodeID a) (NodeID b).

#[export] Instance node_le_dec a b : Decision (node_le a b).
Proof. unfold node_le. apply _. Defined.

Definition SelectExpectedNodes (epochInfo : EpochInfo) (latestBlock : Block.t) (nodes : list NodeInfo) (count : nat) :
    go (select_error + list NodeInfo) :=
  let totalWeight := fold_left (fun acc n => u64 (acc + Weight n)) nodes 0 in
  csProofBytes ← consensus_proof latestBlock;
  match Block.Head latestBlock with
  | None => Panic
  | Some h =>
      let vrfInputData := blake2b (default [] csProofBytes) in
      let seed := hashToSeed (makeVRFHash RoleSelector_Nodes (Epoch epochInfo) (BlockHead.Height h) vrfInputData) in
      let vals := merge_sort Z.le (thresholds count seed totalWeight) in
      draw Weight (merge_sort node_le nodes) vals 0 []
  end.
End Select.
End RoleSelectorVRF.

(** * proposer_selector_poiss.go *)
Module Poiss.

Definition precision : Z := 256.

Definition blocksPerEpoch : Z := 5.

(** [big.Int.Div] is Euclidean division, and panics for zero. *)
Definition big_Div (x y : Z) : go Z := if y =? 0 then Panic else Ok (Z.sgn y * (x / Z.abs y)).

(** Decimal coefficients in Q.128, brought to Q.256. *)
Definition parse (coefs : list Z) : list Z := (fun c => Z.shiftl c (precision - 128)) <$> coefs.

Definition expNumCoef : list Z := parse
  [ -648770010757830093818553637600;
    67469480939593786226847644286976;
    -3197587544499098424029388939001856;
    89244641121992890118377641805348864;
    -1579656163641440567800982336819953664;
    17685496037279256458459817590917169152;
    -115682590513835356866803355398940131328;
    340282366920938463463374607431768211456 ].

Definition expDenoCoef : list Z := parse
  [ 1225524182432722209606361;
    114095592300906098243859450;
    5665570424063336070530214243;
    194450132448609991765137938448;
    5068267641632683791026134915072;
    104716890604972796896895427629056;
    1748338658439454459487681798864896;
    23704654329841312470660182937960448;
    259380097567996910282699886670381056;
    2250336698853390384720606936038375424;
    14978272436876548034486263159246028800;
    72144088983913131323343765784380833792;
    224599776407103106596571252037123047424;
    340282366920938463463374607431768211456 ].

Definition polyval (p : list Z) (x : Z) : go Z :=
  match p with
  | [] => Panic
  | c0 :: cs => Ok (fold_left (fun res c => Z.shiftr (res * x) precision + c) cs c0)
  end.

Definition expneg (x : Z) : go Z :=
  num ← polyval expNumCoef x;
  deno ← polyval expDenoCoef x;
  big_Div (Z.shiftl num precision) deno.

Definition lambda (weight totalWeight : Z) : go Z := big_Div (Z.shiftl (weight * blocksPerEpoch) precision) totalWeight.

Definition MaxWinCount : Z := 26.

Record poiss := mkPoiss { lam : Z; pmf : Z; icdf : Z; k : Z }.

Definition newPoiss (lambda : Z) : go (poiss * Z) :=
  elam ← expneg lambda;
  let icdf := Z.shiftl 1 precision - elam in
  Ok (mkPoiss lambda elam icdf 0, icdf).

(** The counter never wraps: it is at most [MaxWinCount]. *)
Definition next (p : poiss) : go (poiss * Z) :=
  let k := u64 (k p + 1) in
  q ← big_Div (pmf p) k;
  let pmf := Z.shiftr (q * lam p) precision in
  let icdf := icdf p - pmf in
  Ok (mkPoiss (lam p) pmf icdf k, icdf).

(** The rounds of the loop are bounded by its own counter. *)
Fixpoint win_loop (rounds : nat) (lhs : Z) (p : poiss) (rhs : Z) (j : Z) : go Z :=
  match rounds with
  | O => Ok j
  | S rounds => if lhs <? rhs then '(p, rhs) ← next p; win_loop rounds lhs p rhs (j + 1) else Ok j
  end.

Section Select.
Variables (blake2b sha256 : bytes -> bytes).

Definition SelectProposer (VRFProof : bytes) (weight totalWeight : Z) : go Z :=
  let lhs := SetBytes (blake2b VRFProof) in
  lam ← lambda weight totalWeight;
  '(p, rhs) ← newPoiss lam;
  win_loop (Z.to_nat MaxWinCount) lhs p rhs 0.

(** The largest of the priorities of the wins. *)
Fixpoint max_loop (wins : nat) (i : Z) (vrf maxPrior : bytes) : bytes :=
  match wins with
  | O => maxPrior
  | S wins =>
      let prior := sha256 (vrf ++ Uint64ToBytes (u64 i)) in
      max_loop wins (i + 1) vrf (match bytes_Compare prior maxPrior with Gt => prior | _ => maxPrior end)
  end.

Definition MaxPriority (vrf : bytes) (winCount : Z) : bytes := max_loop (Z.to_nat winCount) 1 vrf [].
End Select.
End Poiss.
