(* ===== verification/RoleSelectorSpec.v ===== *)
(** Correctness of the selections by weight: every node draws the same launcher,
    some launcher is always drawn, members of a domain are drawn once, and the
    number of wins of a proposer is bounded and grows with its luck. *)
From Stdlib Require Import ZArith Lia Strings.Byte.
From stdpp Require Import base gmap list strings sorting.
From S2P Require Import Prelude Common Wire TxMessages ChainMessages TxBasic RoleSelector.
Import Util Types.
#[local] Open Scope Z_scope.

Module RoleSelectorSpec.
Import RoleSelectorVRF.

(** ** Thresholds *)

Lemma thresholdValue_bound seed total : 0 < total < 2 ^ 64 -> 0 <= (thresholdValue seed total).2 < total.
Proof.
  intros Ht. unfold thresholdValue. destruct (nextRandom seed) as [s r]. cbn [snd].
  assert (Hr : 0 <= Z.land r uint64Mask < 2 ^ 63).
  { change uint64Mask with (Z.ones 63). rewrite Z.land_ones by lia. apply Z.mod_pos_bound. lia. }
  change divider with (2 ^ 63).
  assert (0 <= Z.land r uint64Mask * total / 2 ^ 63 < total).
  { split; [apply Z.div_pos; nia|]. apply Z.div_lt_upper_bound; nia. }
  rewrite u64_small by (unfold is_u64; lia). done.
Qed.

Lemma thresholds_one seed total : thresholds 1 seed total = [(thresholdValue seed total).2].
Proof. cbn [thresholds]. by destruct (thresholdValue seed total). Qed.

Lemma thresholds_length n seed total : length (thresholds n seed total) = n.
Proof.
  revert seed. induction n as [|n IH]; intros seed; [done|]. cbn [thresholds].
  destruct (thresholdValue seed total). cbn [length]. by rewrite IH.
Qed.

(** ** The draw *)
Section Draw.
Context {A : Type} (wt : A -> Z).

Definition sum_of (l : list A) : Z := foldr (fun a s => wt a + s) 0 l.

Lemma sum_of_app l k : sum_of (l ++ k) = sum_of l + sum_of k.
Proof. induction l as [|x l IH]; cbn; [done|]. unfold sum_of in *. rewrite IH. lia. Qed.

Lemma sum_of_nonneg l : Forall (fun a => 0 <= wt a) l -> 0 <= sum_of l.
Proof. induction 1 as [|x l Hx _ IH]; cbn; [done|]. unfold sum_of in *. lia. Qed.

Lemma sum_of_perm l k : l ≡ₚ k -> sum_of l = sum_of k.
Proof. induction 1; cbn; unfold sum_of in *; lia. Qed.

(** One threshold falls into the share of exactly one candidate. *)
Lemma draw_one cans v cum drawn : Forall (fun a => 0 <= wt a) cans -> 0 <= cum <= v -> v < cum + sum_of cans ->
  cum + sum_of cans < 2 ^ 64 ->
  exists pre c post, cans = pre ++ c :: post /\ cum + sum_of pre <= v < cum + sum_of pre + wt c
  /\ draw wt cans [v] cum drawn = Ok (inr (drawn ++ [c])).
Proof.
  intros Hw. revert cum. induction Hw as [|c cans Hc Hcs IH]; intros cum Hcum Hv Hmax; cbn [sum_of foldr] in *; [lia|].
  fold (sum_of cans) in *. pose proof (sum_of_nonneg cans Hcs). cbn [draw].
  rewrite u64_small by (unfold is_u64; lia).
  destruct (Z.ltb_spec v (cum + wt c)) as [Hlt|Hge].
  - exists [], c, cans. cbn. split_and!; [done|lia|lia|done].
  - destruct (IH (cum + wt c)) as (pre & c' & post & -> & Hr & E); [lia|lia|lia|].
    exists (c :: pre), c', post. cbn [sum_of foldr]. fold (sum_of pre). split_and!; [done|lia|lia|done].
Qed.

(** The drawn are among the candidates, in their order, one per threshold. *)
Lemma draw_sublist cans vals cum drawn l : draw wt cans vals cum drawn = Ok (inr l) ->
  exists l', l = drawn ++ l' /\ sublist l' cans /\ length l' = length vals.
Proof.
  revert vals cum drawn. induction cans as [|c cans IH]; intros [|v rest] cum drawn; cbn [draw]; try done.
  destruct (v <? u64 (cum + wt c)).
  - destruct rest as [|v' rest].
    + intros [= <-]. exists [c]. split_and!; [done|apply sublist_skip, sublist_nil_l|done].
    + intros H. apply IH in H as (l' & -> & Hs & Hl). exists (c :: l'). rewrite <- (assoc_L (++)).
      split_and!; [done|by constructor|]. cbn [length] in *. lia.
  - intros H. apply IH in H as (l' & -> & Hs & Hl). exists l'. split_and!; [done|by constructor|done].
Qed.
End Draw.

(** ** Agreement *)

#[local] Instance bytes_le_antisymm : AntiSymm eq bytes_le.
Proof.
  intros a b. unfold bytes_le. rewrite (bytes_Compare_antisym a b), <- bytes_Compare_eq.
  by destruct (bytes_Compare a b).
Qed.

#[local] Instance cand_le_trans : Transitive cand_le.
Proof.
  intros a b c [H1|[H1 L1]] [H2|[H2 L2]]; unfold cand_le; [left; lia..|]. right. split; [lia|by transitivity (nodeID b)].
Qed.

#[local] Instance cand_le_total : Total cand_le.
Proof.
  intros a b. unfold cand_le. destruct (Z.lt_trichotomy (weight a) (weight b)) as [H|[H|H]]; [by right; left| |by left; left].
  destruct (total bytes_le (nodeID a) (nodeID b)); [left|right]; right; by split.
Qed.

Lemma sort_Strings_unique l k : l ≡ₚ k -> sort_Strings l = sort_Strings k.
Proof.
  intros H. unfold sort_Strings. apply (StronglySorted_unique bytes_le).
  - apply (StronglySorted_merge_sort bytes_le).
  - apply (StronglySorted_merge_sort bytes_le).
  - by rewrite !merge_sort_Permutation.
Qed.

Lemma getCandidateInfos_ext ids sv sv' : (forall id, id ∈ ids -> GetNodeWeight sv id = GetNodeWeight sv' id) ->
  getCandidateInfos ids sv = getCandidateInfos ids sv'.
Proof.
  induction ids as [|id ids IH]; intros H; cbn [getCandidateInfos]; [done|].
  rewrite (H id) by left. rewrite IH; [done|]. intros i Hi. apply H. by right.
Qed.

Lemma getCandidateInfos_ok ids sv (w : bytes -> Z) : (forall id, id ∈ ids -> GetNodeWeight sv id = Some (w id)) ->
  getCandidateInfos ids sv = inr ((fun id => mkCandidate id (w id)) <$> ids).
Proof.
  induction ids as [|id ids IH]; intros H; cbn [getCandidateInfos]; [done|].
  rewrite (H id) by left. rewrite IH; [done|]. intros i Hi. apply H. by right.
Qed.

Section Select.
Context {K K' : Type} (blake2b : bytes -> bytes) (Sign : K -> bytes -> option bytes) (Sign' : K' -> bytes -> option bytes).

(** What two nodes have to agree on about the executors of a domain. *)
Record same_view (domain : bytes) (sv sv' : vrfServant) : Prop := {
  view_ids : GetActiveExecutorIDsOfDomain sv domain ≡ₚ GetActiveExecutorIDsOfDomain sv' domain;
  view_total : GetActiveExecutorsTotalWeightOfDomain sv domain = GetActiveExecutorsTotalWeightOfDomain sv' domain;
  view_weight id : id ∈ GetActiveExecutorIDsOfDomain sv domain -> GetNodeWeight sv id = GetNodeWeight sv' id;
  view_epoch e e' : GetLatestEpoch sv = Some e -> GetLatestEpoch sv' = Some e' -> Epoch e = Epoch e';
}.

(** C26. Nodes agree on the launcher: two nodes that see the same executors of a
    domain (in any order), their weights, the total and the epoch number draw
    the same nodes for a state version, whatever their keys and their latest
    blocks. *)
Theorem launcher_agreement domain version count k k' b b' sv sv' ids ids' proof proof' : same_view domain sv sv' ->
  Select blake2b Sign RoleSelector_ExecutionLauncher domain version k b sv count = Ok (inr (ids, proof)) ->
  Select blake2b Sign' RoleSelector_ExecutionLauncher domain version k' b' sv' count = Ok (inr (ids', proof')) -> ids = ids'.
Proof.
  intros [Hi Ht Hw He] H H'. cbn [Select] in *. unfold select_from in *. rewrite <- Ht, <- (sort_Strings_unique _ _ Hi) in H'.
  rewrite <- (getCandidateInfos_ext _ sv sv') in H'.
  2:{ intros id Hid. apply Hw. unfold sort_Strings in Hid. by rewrite merge_sort_Permutation in Hid. }
  destruct (getCandidateInfos _ sv) as [|cans]; [done|].
  apply outcome_bind_Ok in H as (c & _ & H), H' as (c' & _ & H').
  destruct (GetLatestEpoch sv) as [e|]; [|done]. destruct (GetLatestEpoch sv') as [e'|]; [|done].
  rewrite <- (He e e' eq_refl eq_refl) in H'.
  destruct (Sign k _) as [pf|]; [|done]. destruct (Sign' k' _) as [pf'|]; [|done].
  apply outcome_bind_Ok in H as (r & Hr & H), H' as (r' & Hr' & H'). rewrite Hr in Hr'. injection Hr' as <-.
  destruct r as [|cs]; [done|]. injection H as <- _. by injection H' as <- _.
Qed.

(** Some launcher is always drawn: when the weights of a domain's executors
    are known, add up to the total and are not all zero, the draw of one node
    succeeds, with an executor of the domain whose share of the total, heavier
    nodes first, contains the threshold. *)
Lemma launcher_drawn domain version k b sv (w : bytes -> Z) e proof csp :
  let ids := GetActiveExecutorIDsOfDomain sv domain in
  (forall id, id ∈ ids -> GetNodeWeight sv id = Some (w id) /\ 0 <= w id) ->
  GetActiveExecutorsTotalWeightOfDomain sv domain = sum_of w ids -> 0 < sum_of w ids < 2 ^ 64 ->
  GetLatestEpoch sv = Some e -> consensus_proof b = Ok csp ->
  Sign k (getVrfInputData blake2b RoleSelector_ExecutionLauncher (Epoch e) version) = Some proof ->
  exists id pre post v,
    Select blake2b Sign RoleSelector_ExecutionLauncher domain version k b sv 1 = Ok (inr ([id], proof))
    /\ id ∈ ids /\ 0 < w id /\ pre ++ id :: post ≡ₚ ids /\ sum_of w pre <= v < sum_of w pre + w id
    /\ Forall (fun x => w id <= w x) pre /\ Forall (fun x => w x <= w id) post.
Proof.
  intros ids Hw Ht Hpos He Hb Hs. cbn [Select]. fold ids. rewrite Ht. unfold select_from.
  assert (Hperm : sort_Strings ids ≡ₚ ids) by apply merge_sort_Permutation.
  rewrite (getCandidateInfos_ok _ sv w) by (intros id; rewrite Hperm; apply Hw).
  rewrite Hb. cbn [mbind outcome_bind]. rewrite He, Hs, thresholds_one.
  set (v := (thresholdValue _ (sum_of w ids)).2).
  pose proof (thresholdValue_bound (hashToSeed (makeVRFHash blake2b RoleSelector_ExecutionLauncher (Epoch e) version
    (getVrfInputData blake2b RoleSelector_ExecutionLauncher (Epoch e) version))) (sum_of w ids) Hpos) as Hv. fold v in Hv.
  set (cans := sort _). assert (Hcans : cans ≡ₚ (fun id => mkCandidate id (w id)) <$> ids).
  { unfold cans, sort. rewrite merge_sort_Permutation. by rewrite Hperm. }
  assert (Htot : sum_of weight cans = sum_of w ids).
  { rewrite (sum_of_perm _ _ _ Hcans). clear. induction ids as [|id ids IH]; [done|]. cbn in *. unfold sum_of in *. by rewrite IH. }
  assert (Hmk : forall c, c ∈ cans -> c = mkCandidate (nodeID c) (w (nodeID c)) /\ nodeID c ∈ ids).
  { intros c Hc. rewrite Hcans in Hc. apply list_elem_of_fmap in Hc as (id & -> & Hid). by split. }
  assert (Hsorted : StronglySorted cand_le cans) by apply (StronglySorted_merge_sort cand_le).
  change (merge_sort Z.le [v]) with [v].
  destruct (draw_one weight cans v 0 []) as (pre & c & post & Ec & Hr & ->); [|lia|lia|lia|].
  { apply Forall_forall. intros c Hc%Hmk. destruct Hc as [-> Hc]. cbn. by apply Hw. }
  destruct (Hmk c) as [Hcw Hci]; [rewrite Ec; set_solver|].
  assert (Hpre : sum_of weight pre = sum_of w (nodeID <$> pre)).
  { assert (Hp : forall x, x ∈ pre -> x ∈ cans) by (intros x Hx; rewrite Ec; set_solver). clear Ec Hr.
    induction pre as [|x pre IH]; [done|]. cbn. fold (sum_of weight pre) (sum_of w (nodeID <$> pre)).
    rewrite IH by (intros y Hy; apply Hp; by right). destruct (Hmk x) as [-> _]; [apply Hp; by left|done]. }
  assert (Hwt : weight c = w (nodeID c)) by (by rewrite Hcw).
  exists (nodeID c), (nodeID <$> pre), (nodeID <$> post), v. cbn [mbind outcome_bind]. split_and!; [done|done|lia| |lia|lia| |].
  - rewrite <- fmap_cons, <- fmap_app, <- Ec, Hcans, <- list_fmap_compose. by rewrite list_fmap_id.
  - apply Forall_fmap, Forall_forall. intros x Hx. cbn. assert (Hx' : x ∈ cans) by (rewrite Ec; set_solver).
    apply Hmk in Hx' as [Hxw _]. assert (weight x = w (nodeID x)) by (by rewrite Hxw).
    assert (Hle : cand_le x c) by (eapply StronglySorted_app_1_elem_of; [rewrite <- Ec; exact Hsorted|done|left]).
    destruct Hle as [|[]]; lia.
  - apply Forall_fmap, Forall_forall. intros x Hx. cbn. assert (Hx' : x ∈ cans) by (rewrite Ec; set_solver).
    apply Hmk in Hx' as [Hxw _]. assert (weight x = w (nodeID x)) by (by rewrite Hxw).
    assert (Hle : cand_le c x) by (eapply (StronglySorted_app_1_elem_of cand_le (pre ++ [c]) post);
      [rewrite <- (assoc_L (++)); cbn; rewrite <- Ec; exact Hsorted|set_solver|done]).
    destruct Hle as [|[]]; lia.
Qed.

(** Members of a domain are drawn once: as many as asked for, all of them among
    the nodes. *)
Lemma expected_nodes_distinct e b nodes count l : NoDup nodes ->
  SelectExpectedNodes blake2b e b nodes count = Ok (inr l) ->
  NoDup l /\ length l = count /\ forall n, n ∈ l -> n ∈ nodes.
Proof.
  intros Hd H. unfold SelectExpectedNodes in H. apply outcome_bind_Ok in H as (c & _ & H).
  destruct (Block.Head b) as [h|]; [|done]. apply draw_sublist in H as (l' & -> & Hs & Hl).
  rewrite merge_sort_Permutation, thresholds_length in Hl. cbn [app].
  assert (Hp : merge_sort node_le nodes ≡ₚ nodes) by apply merge_sort_Permutation.
  split_and!; [|done|].
  - eapply sublist_NoDup; [|exact Hs]. by rewrite Hp.
  - intros n Hn. rewrite <- Hp. eapply elem_of_sublist; [exact Hn|exact Hs].
Qed.
End Select.

(** There may be enough nodes and the draw still fails: a candidate is passed
    over for the threshold at hand only, and two thresholds in the share of the
    last candidate need two nodes. *)
Lemma draw_runs_out : draw snd [(1, 100); (2, 1)] [100; 100] 0 [] = Ok (inl EInvalidParameters).
Proof. reflexivity. Qed.
End RoleSelectorSpec.

(** * Proposers *)
Module PoissSpec.
Import Poiss.

Lemma foldl_pos cs (x c : Z) : 0 <= x -> 0 < c -> Forall (Z.lt 0) cs ->
  0 < fold_left (fun res c => Z.shiftr (res * x) precision + c) cs c.
Proof.
  intros Hx Hc Hcs. revert c Hc. induction Hcs as [|c' cs Hc' _ IH]; intros c Hc; cbn [fold_left]; [done|].
  apply IH. rewrite Z.shiftr_div_pow2 by (unfold precision; lia).
  assert (0 <= c * x / 2 ^ precision) by (apply Z.div_pos; [nia|unfold precision; lia]). lia.
Qed.

Lemma polyval_pos p x : p <> [] -> Forall (Z.lt 0) p -> 0 <= x -> exists d, polyval p x = Ok d /\ 0 < d.
Proof.
  intros Hp Hf Hx. destruct Hf as [|c cs Hc Hcs]; [done|]. eexists. split; [reflexivity|]. by apply foldl_pos.
Qed.

Lemma polyval_total p x : p <> [] -> exists d, polyval p x = Ok d.
Proof. destruct p; [done|]. intros _. by eexists. Qed.

Lemma deno_coefs : Forall (Z.lt 0) expDenoCoef.
Proof. apply Forall_fmap, Forall_forall. intros c Hc. cbn. rewrite Z.shiftl_mul_pow2 by (unfold precision; lia).
  apply Z.mul_pos_pos; [|unfold precision; lia]. revert c Hc. apply Forall_forall. repeat constructor. Qed.

Lemma expneg_total x : 0 <= x -> exists y, expneg x = Ok y.
Proof.
  intros Hx. unfold expneg. destruct (polyval_total expNumCoef x) as (n & ->); [done|].
  destruct (polyval_pos expDenoCoef x) as (d & -> & Hpos); [done|apply deno_coefs|done|]. cbn [mbind outcome_bind].
  unfold big_Div. destruct (Z.eqb_spec d 0); [lia|]. by eexists.
Qed.

Lemma next_total p : 0 <= k p < 2 ^ 64 - 1 -> exists p' rhs, next p = Ok (p', rhs) /\ k p' = k p + 1 /\ lam p' = lam p.
Proof.
  intros Hk. unfold next. rewrite u64_small by (unfold is_u64; lia). unfold big_Div.
  destruct (Z.eqb_spec (k p + 1) 0); [lia|]. by eexists _, _.
Qed.

Lemma win_loop_spec rounds lhs p rhs j : 0 <= k p -> k p + Z.of_nat rounds < 2 ^ 64 - 1 ->
  exists j', win_loop rounds lhs p rhs j = Ok j' /\ j <= j' <= j + Z.of_nat rounds.
Proof.
  revert p rhs j. induction rounds as [|rounds IH]; intros p rhs j Hk Hr; cbn [win_loop]; [exists j; split; [done|lia]|].
  destruct (lhs <? rhs); [|exists j; split; [done|lia]].
  destruct (next_total p) as (p' & rhs' & -> & Hk' & _); [lia|]. cbn [mbind outcome_bind].
  destruct (IH p' rhs' (j + 1)) as (j' & -> & Hj); [lia|lia|]. exists j'. split; [done|lia].
Qed.

(** A smaller number wins wherever a larger one does. *)
Lemma win_loop_antitone rounds lhs lhs' p rhs j a b : lhs <= lhs' ->
  win_loop rounds lhs p rhs j = Ok a -> win_loop rounds lhs' p rhs j = Ok b -> b <= a.
Proof.
  revert p rhs j. induction rounds as [|rounds IH]; intros p rhs j Hle; cbn [win_loop]; [by intros [= <-] [= <-]|].
  destruct (Z.ltb_spec lhs rhs) as [H1|H1], (Z.ltb_spec lhs' rhs) as [H2|H2]; [|..|lia|by intros [= <-] [= <-]].
  - destruct (next p) as [[p' rhs']| |]; [|done|done]. cbn [mbind outcome_bind]. by apply IH.
  - intros H [= <-]. destruct (next p) as [[p' rhs']| |]; [|done|done]. cbn [mbind outcome_bind] in H.
    clear -H. assert (Hg : forall r p rhs j, win_loop r lhs p rhs j = Ok a -> j <= a); [|apply Hg in H; lia].
    clear. induction r as [|r IH]; intros p rhs j; cbn [win_loop]; [by intros [= <-]|].
    destruct (lhs <? rhs); [|by intros [= <-]]. destruct (next p) as [[p' rhs']| |]; [|done|done].
    cbn [mbind outcome_bind]. intros H%IH. lia.
Qed.

Section Spec.
Variables (blake2b sha256 : bytes -> bytes).

(** The digest of the [i]-th win. *)
Definition prior (vrf : bytes) (i : Z) : bytes := sha256 (vrf ++ Uint64ToBytes (u64 i)).

Lemma max_loop_spec wins i vrf best : exists m, max_loop sha256 wins i vrf best = m /\ bytes_le best m
  /\ (forall x, i <= x < i + Z.of_nat wins -> bytes_le (prior vrf x) m)
  /\ (m = best \/ exists x, i <= x < i + Z.of_nat wins /\ m = prior vrf x).
Proof.
  revert i best. induction wins as [|wins IH]; intros i best; cbn [max_loop].
  { exists best. split_and!; [done|by unfold bytes_le; rewrite bytes_Compare_refl|lia|by left]. }
  fold (prior vrf i). set (b := match bytes_Compare (prior vrf i) best with Gt => prior vrf i | _ => best end).
  assert (Hb : bytes_le best b /\ bytes_le (prior vrf i) b /\ (b = best \/ b = prior vrf i)).
  { unfold b, bytes_le. pose proof (bytes_Compare_antisym (prior vrf i) best) as Ha.
    destruct (bytes_Compare (prior vrf i) best) eqn:E; rewrite ?E, ?Ha, ?bytes_Compare_refl; cbn; split_and!; auto; done. }
  destruct Hb as (Hb1 & Hb2 & Hb3). destruct (IH (i + 1) b) as (m & Em & Hm1 & Hm2 & Hm3). exists m. split_and!; [done|by transitivity b| |].
  - intros x Hx. destruct (decide (x = i)) as [->|]; [by transitivity b|]. apply Hm2. lia.
  - destruct Hm3 as [->|(x & Hx & ->)]; [|right; exists x; split; [lia|done]].
    destruct Hb3 as [->| ->]; [by left|right; exists i; split; [lia|done]].
Qed.

Lemma SelectProposer_loop weight totalWeight : 0 <= weight -> 0 < totalWeight ->
  exists p rhs, k p = 0 /\ forall proof, SelectProposer blake2b proof weight totalWeight =
    win_loop (Z.to_nat MaxWinCount) (SetBytes (blake2b proof)) p rhs 0.
Proof.
  intros Hw Ht. unfold SelectProposer, lambda, big_Div. destruct (Z.eqb_spec totalWeight 0); [lia|].
  set (l := Z.sgn totalWeight * _).
  assert (Hl : 0 <= l).
  { unfold l. rewrite Z.sgn_pos by lia. rewrite Z.abs_eq by lia. rewrite Z.mul_1_l. apply Z.div_pos; [|lia].
    rewrite Z.shiftl_mul_pow2 by (unfold precision; lia). unfold blocksPerEpoch, precision. lia. }
  destruct (expneg_total l Hl) as (e & He). exists (mkPoiss l e (Z.shiftl 1 precision - e) 0), (Z.shiftl 1 precision - e).
  split; [done|]. intros proof. rewrite Ok_bind. unfold newPoiss. rewrite He. by run_Ok.
Qed.

(** Proposer selection: for a weight and a positive total the number of wins
    is computed without a division by zero and is at most twenty-six; a proof
    whose hash is smaller never wins less often; and the priority of a winner is
    the largest of the digests of its wins.  A total of zero is a panic. *)
Theorem proposer_wins weight totalWeight proof : 0 <= weight -> 0 < totalWeight ->
  exists j, SelectProposer blake2b proof weight totalWeight = Ok j /\ 0 <= j <= MaxWinCount
  /\ (forall proof' j', SetBytes (blake2b proof') <= SetBytes (blake2b proof) ->
        SelectProposer blake2b proof' weight totalWeight = Ok j' -> j <= j')
  /\ (forall i, 1 <= i <= j -> bytes_le (prior proof i) (MaxPriority sha256 proof j))
  /\ (MaxPriority sha256 proof j = [] \/ exists i, 1 <= i <= j /\ MaxPriority sha256 proof j = prior proof i)
  /\ SelectProposer blake2b proof weight 0 = Panic.
Proof.
  intros Hw Ht. destruct (SelectProposer_loop weight totalWeight Hw Ht) as (p & rhs & Hp & Hs). rewrite Hs.
  destruct (win_loop_spec (Z.to_nat MaxWinCount) (SetBytes (blake2b proof)) p rhs 0) as (j & E & Hj); [lia|rewrite Hp; done|].
  rewrite Z2Nat.id in Hj by done. exists j. rewrite E.
  destruct (max_loop_spec (Z.to_nat j) 1 proof []) as (m & Em & _ & Hm2 & Hm3). unfold MaxPriority. rewrite Em.
  split_and!; [done|lia|lia| | | |done].
  - intros proof' j' Hle. rewrite Hs. intros E'. by eapply win_loop_antitone.
  - intros i Hi. apply Hm2. lia.
  - destruct Hm3 as [->|(x & Hx & ->)]; [by left|]. right. exists x. split; [lia|done].
Qed.
End Spec.

Lemma proposer_wins_witness :
  exists j, SelectProposer (take 4) (str "proof") 3 10 = Ok j /\ 0 <= j <= MaxWinCount.
Proof.
  destruct (proposer_wins (take 4) (take 8) 3 10 (str "proof")) as (j & H1 & H2 & _); [lia|lia|]. exists j. exact (conj H1 H2).
Defined.
End PoissSpec.

(** * A domain of three executors *)
Module RoleSelectorExamples.
Import RoleSelectorVRF RoleSelectorSpec.

Definition ids3 : list bytes := [str "c"; str "a"; str "b"].

Definition weight3 (id : bytes) : Z := if decide (id = str "b") then 7 else 2.

Definition servant3 (ids : list bytes) : vrfServant :=
  mkServant (fun _ => ids) [] (fun _ => 11) 0 (fun id => Some (weight3 id)) (Some (mkEpochInfo 4 0 0)).

Definition block3 : Block.t :=
  Block.mk (Some (BlockHead.mk (str "1") 1 2 0 0 [] (str "p") [] [] 0 [] [] 0 [] [] [] 7 0 [] [] [])) None [].

Definition sign3 (k data : bytes) : option bytes := Some (k ++ data).

Lemma launcher_agreement_witness :
  exists ids proof proof',
    Select (take 32) sign3 RoleSelector_ExecutionLauncher (str "d") 9 (str "k1") block3 (servant3 ids3) 1 = Ok (inr (ids, proof))
    /\ Select (take 32) sign3 RoleSelector_ExecutionLauncher (str "d") 9 (str "k2") block3 (servant3 (rev ids3)) 1 = Ok (inr (ids, proof')).
Proof.
  assert (H1 : exists r, Select (take 32) sign3 RoleSelector_ExecutionLauncher (str "d") 9 (str "k1") block3 (servant3 ids3) 1 = Ok (inr r))
    by (eexists; vm_compute; reflexivity).
  assert (H2 : exists r, Select (take 32) sign3 RoleSelector_ExecutionLauncher (str "d") 9 (str "k2") block3 (servant3 (rev ids3)) 1 = Ok (inr r))
    by (eexists; vm_compute; reflexivity).
  destruct H1 as [[ids proof] H1], H2 as [[ids' proof'] H2]. exists ids, proof, proof'. split; [exact H1|].
  rewrite (launcher_agreement (take 32) sign3 sign3 (str "d") 9 1 (str "k1") (str "k2") block3 block3 (servant3 ids3) (servant3 (rev ids3))
    ids ids' proof proof'); [exact H2| |exact H1|exact H2].
  split; [|reflexivity|reflexivity|]; cbn.
  - symmetry. apply Permutation_rev.
  - by intros e e' [= <-] [= <-].
Defined.
End RoleSelectorExamples.
