(* ===== verification/EpochService.v ===== *)
(** Epochs and the selection of a consensus domain (src/consensus/epoch.go,
    src/consensus/domain_consensus_selector.go): the active nodes and their
    weights, the domain that a block's proof selects, and the change of epoch
    when a block is committed. *)
From Stdlib Require Import ZArith Lia Strings.Byte.
From stdpp Require Import base gmap list strings sorting.
From S2P Require Import Prelude Common Backend Wire TxMessages ChainMessages ConsMessages TxBasic StateStore StateBase StateNode StateChain Composition RoleSelector.
Import Util Types.
#[local] Open Scope Z_scope.

Definition CONSENSUS_VER : Z := 1.

(** Whether a set of roles contains one. *)
Definition has_role (roles role : Z) : bool := Z.land roles role =? role.

(** * epoch.go: the active nodes *)
Module ActiveNodes.

Record activeNodeInfos := mkInfos {
  activeExecutorIDs : list bytes;
  activeExecutorIDsOfDomain : gmap bytes (list bytes);
  activeProposerIDs : list bytes;
  activeValidatorIDs : list bytes;
  activeExecutorWeights : Z;
  activeExecutorWeightsOfDomain : gmap bytes Z;
  activeProposerWeights : Z;
  activeValidatorWeights : Z;
  nodeWeights : gmap bytes Z;
}.

Definition no_infos : activeNodeInfos := mkInfos [] ∅ [] [] 0 ∅ 0 0 ∅.

Definition add_executor (an : activeNodeInfos) (n : NodeInfo) : activeNodeInfos :=
  mkInfos (activeExecutorIDs an ++ [NodeID n]) (activeExecutorIDsOfDomain an) (activeProposerIDs an) (activeValidatorIDs an)
    (u64 (activeExecutorWeights an + Weight n)) (activeExecutorWeightsOfDomain an) (activeProposerWeights an)
    (activeValidatorWeights an) (<[NodeID n:=Weight n]> (nodeWeights an)).

(** A domain without execution data is dereferenced; a member that is no
    active executor weighs nothing. *)
Definition add_domain (an : activeNodeInfos) (d : NodeDomainInfo) : go activeNodeInfos :=
  match nd_ExeDomainData d with
  | None => Panic
  | Some data =>
      let members := default [] (ned_Members data) in
      let weights := fold_left (fun m id => <[nd_ID d:=u64 (default 0 (m !! nd_ID d) + default 0 (nodeWeights an !! id))]> m)
        members (activeExecutorWeightsOfDomain an) in
      Ok (mkInfos (activeExecutorIDs an)
            (<[nd_ID d:=default [] (activeExecutorIDsOfDomain an !! nd_ID d) ++ members]> (activeExecutorIDsOfDomain an))
            (activeProposerIDs an) (activeValidatorIDs an) (activeExecutorWeights an) weights (activeProposerWeights an)
            (activeValidatorWeights an) (nodeWeights an))
  end.

Fixpoint add_domains (an : activeNodeInfos) (ds : list NodeDomainInfo) : go activeNodeInfos :=
  match ds with
  | [] => Ok an
  | d :: ds => an ← add_domain an d; add_domains an ds
  end.

(** A member that proposes and validates counts as a proposer. *)
Definition add_member (an : activeNodeInfos) (m : NodeDomainMember) : activeNodeInfos :=
  let weights := <[ndm_NodeID m:=ndm_Weight m]> (nodeWeights an) in
  if has_role (ndm_NodeRole m) NodeRole_Proposer
  then mkInfos (activeExecutorIDs an) (activeExecutorIDsOfDomain an) (activeProposerIDs an ++ [ndm_NodeID m]) (activeValidatorIDs an)
         (activeExecutorWeights an) (activeExecutorWeightsOfDomain an) (u64 (activeProposerWeights an + ndm_Weight m))
         (activeValidatorWeights an) weights
  else if has_role (ndm_NodeRole m) NodeRole_Validator
  then mkInfos (activeExecutorIDs an) (activeExecutorIDsOfDomain an) (activeProposerIDs an) (activeValidatorIDs an ++ [ndm_NodeID m])
         (activeExecutorWeights an) (activeExecutorWeightsOfDomain an) (activeProposerWeights an)
         (u64 (activeValidatorWeights an + ndm_Weight m)) weights
  else mkInfos (activeExecutorIDs an) (activeExecutorIDsOfDomain an) (activeProposerIDs an) (activeValidatorIDs an)
         (activeExecutorWeights an) (activeExecutorWeightsOfDomain an) (activeProposerWeights an) (activeValidatorWeights an) weights.

Fixpoint add_members (an : activeNodeInfos) (ms : list (option NodeDomainMember)) : go activeNodeInfos :=
  match ms with
  | [] => Ok an
  | None :: _ => Panic
  | Some m :: ms => add_members (add_member an m) ms
  end.

(** ** Reads *)

Definition getActiveExecutorIDsOfDomain (an : activeNodeInfos) (domainID : bytes) : list bytes :=
  default [] (activeExecutorIDsOfDomain an !! domainID).

(** The map is ranged over in any order: some domain that has the node, or none. *)
Definition getDomainIDOfExecutor (an : activeNodeInfos) (nodeID : bytes) (domainID : bytes) : Prop :=
  (exists ids, activeExecutorIDsOfDomain an !! domainID = Some ids /\ (IsContainString nodeID ids).1 = true)
  \/ (domainID = [] /\ map_Forall (fun _ ids => (IsContainString nodeID ids).1 = false) (activeExecutorIDsOfDomain an)).

Definition getNodeWeight (an : activeNodeInfos) (nodeID : bytes) : option Z := nodeWeights an !! nodeID.

Definition getActiveExecutorsTotalWeightOfDomain (an : activeNodeInfos) (domainID : bytes) : Z :=
  default 0 (activeExecutorWeightsOfDomain an !! domainID).

(** What the role selector sees of the epoch service. *)
Definition servant (an : activeNodeInfos) (epoch : option EpochInfo) : RoleSelectorVRF.vrfServant :=
  RoleSelectorVRF.mkServant (getActiveExecutorIDsOfDomain an) (activeValidatorIDs an) (getActiveExecutorsTotalWeightOfDomain an)
    (activeValidatorWeights an) (getNodeWeight an) epoch.

Section Update.
Import Composition.
Context {L S : Type} `{!IStateStore S, !ILedger L S}.

(** Everything is cleared first and read anew; an error leaves what has been
    read so far.  The error of the latest block is dropped and a nil block
    dereferenced. *)
Definition update_from (cs : Chain.chainState) (members : list (option NodeDomainMember)) (w : world S) : go (world S * activeNodeInfos) :=
  '(w, executorInfos) ← on_store (Node.GetAll Node.executor) w;
  match executorInfos with
  | inl _ => Ok (w, no_infos)
  | inr executorInfos =>
      let an := fold_left add_executor executorInfos no_infos in
      '(w, latestBlock) ← Chain.GetLatestBlock cs w;
      match latestBlock with
      | inl _ => Panic
      | inr latestBlock =>
          match Block.Head latestBlock with
          | None => Panic
          | Some h =>
              '(w, domains) ← on_store (Domain.GetAllActiveNodeExecuteDomains (BlockHead.Height h)) w;
              match domains with
              | inl _ => Ok (w, an)
              | inr domains => an ← add_domains an domains; an ← add_members an members; Ok (w, an)
              end
          end
      end
  end.

(** The store is a new read-only one; the caches are those of the process. *)
Definition update (l : L) (members : list (option NodeDomainMember)) (w : world S) : go (L * world S * activeNodeInfos) :=
  '(l, cs) ← CreateCompositionStateReadonly l;
  '(w', an) ← update_from (cs_chain cs) members (mkWorld (cs_store cs) (w_ledger w) (latestBlockMap w) (latestBlockRSMap w) (latestEpochMap w));
  Ok (l, mkWorld (w_store w) (w_ledger w') (latestBlockMap w') (latestBlockRSMap w') (latestEpochMap w'), an).
End Update.
End ActiveNodes.

(** * domain_consensus_selector.go *)
Module DomainSelector.
Import Composition.

Section Select.
Context {L S C : Type} `{!IStateStore S, !ILedger L S}.
Variable blake2b : bytes -> bytes.

(** [NewDomainConsensusCrypt] on kyber's points and shares: it panics on an
    invalid public key. *)
Variable new_crypt : NodeInfo -> NodeConsensusDomain -> go C.

(** The member that is the node itself; a nil member is dereferenced. *)
Fixpoint find_self (nodeID : bytes) (ms : list (option NodeDomainMember)) : go (option NodeDomainMember) :=
  match ms with
  | [] => Ok None
  | None :: _ => Panic
  | Some m :: ms => if decide (ndm_NodeID m = nodeID) then Ok (Some m) else find_self nodeID ms
  end.

Definition NewDomainConsensusCrypt (selfNode : NodeInfo) (csDomain : NodeDomainInfo) : go (C * option NodeDomainMember) :=
  match nd_CSDomainData csDomain with
  | None => Panic
  | Some data =>
      c ← new_crypt selfNode data;
      m ← find_self (NodeID selfNode) (default [] (ncd_Members data));
      Ok (c, m)
  end.

(** The own node, the latest block and the domains in force at a height that
    is the block's, or the one after it. *)
Definition read_state (nodeID : bytes) (cs : Chain.chainState) (ahead : Z) : cmd (world S) state_error (option NodeInfo * Block.t * list NodeDomainInfo) :=
  selfNode ← on_store (Node.GetNode nodeID);
  latestBlock ← Chain.GetLatestBlock cs;
  match Block.Head latestBlock with
  | None => crash
  | Some h =>
      domains ← on_store (Domain.GetAllActiveNodeConsensusDomains (u64 (BlockHead.Height h + ahead)));
      mret (selfNode, latestBlock, domains)
  end.

(** The domain whose turn it is. *)
Definition pick (domains : list NodeDomainInfo) (latestBlock : Block.t) : go NodeDomainInfo :=
  match Block.Head latestBlock with
  | None => Panic
  | Some h =>
      let index := Z.to_nat (SetBytes (blake2b (BlockHead.VRFProof h)) mod Z.of_nat (length domains)) in
      match domains !! index with Some d => Ok d | None => Panic end
  end.

Record selection := mkSelection {
  sel_ID : bytes;
  sel_crypt : option C;
  sel_members : list (option NodeDomainMember);
  sel_self : option NodeDomainMember;
}.

Definition no_selection : selection := mkSelection [] None [] None.

Definition choose (selfNode : option NodeInfo) (latestBlock : Block.t) (domains : list NodeDomainInfo) : go selection :=
  if (length domains =? 0)%nat then Ok no_selection
  else
    selected ← pick domains latestBlock;
    match selfNode, nd_CSDomainData selected with
    | Some selfNode, Some data =>
        let members := default [] (ncd_Members data) in
        if has_role (Role selfNode) NodeRole_Executor then Ok (mkSelection (nd_ID selected) None members None)
        else '(c, self) ← NewDomainConsensusCrypt selfNode selected; Ok (mkSelection (nd_ID selected) (Some c) members self)
    | _, _ => Panic
    end.

(** A committed composition state is not read: a new read-only one is. *)
Definition Select (nodeID : bytes) (l : L) (cs : Chain.chainState) (st : CompSState) (w : world S) :
    go (L * world S * (state_error + selection)) :=
  '(l, w, r) ←
    (if decide (st = CompSState_Commited)
     then
       '(l, ro) ← CreateCompositionStateReadonly l;
       '(w', r) ← read_state nodeID (cs_chain ro) 0 (mkWorld (cs_store ro) (w_ledger w) (latestBlockMap w) (latestBlockRSMap w) (latestEpochMap w));
       Ok (l, mkWorld (w_store w) (w_ledger w') (latestBlockMap w') (latestBlockRSMap w') (latestEpochMap w'), r)
     else '(w, r) ← read_state nodeID cs 1 w; Ok (l, w, r));
  match r with
  | inl e => Ok (l, w, inl e)
  | inr (selfNode, latestBlock, domains) => s ← choose selfNode latestBlock domains; Ok (l, w, inr s)
  end.
End Select.
Arguments selection : clear implicits.
End DomainSelector.

(** * epoch.go: the service *)
Module EpochService.
Import Composition ActiveNodes DomainSelector.

Section Service.
Context {L S C : Type} `{!IStateStore S, !ILedger L S}.
Variable blake2b : bytes -> bytes.
Variable new_crypt : NodeInfo -> NodeConsensusDomain -> go C.

Record epochService := mkEpochService {
  es_nodeID : bytes;
  epochInterval : Z;
  currentEpoch : option EpochInfo;
  infos : activeNodeInfos;
  selfSelected : bool;
}.

(** What the service tells the rest of the node. *)
Inductive epoch_event :=
| ActiveNodesUpdated (an : activeNodeInfos)
| DKGUpdated (c : C)
| DomainSelected (m : ConsensusDomainSelectedMessage.t)
| EpochNew (e : EpochInfo).

Definition NewEpochService (nodeID : bytes) (interval : Z) (epoch : option EpochInfo) (exeActiveNodes : list NodeInfo) : epochService :=
  mkEpochService nodeID interval epoch (fold_left add_executor exeActiveNodes no_infos) false.

Definition set_infos (es : epochService) (an : activeNodeInfos) : epochService :=
  mkEpochService (es_nodeID es) (epochInterval es) (currentEpoch es) an (selfSelected es).

Definition set_selected (es : epochService) (b : bool) : epochService :=
  mkEpochService (es_nodeID es) (epochInterval es) (currentEpoch es) (infos es) b.

Definition UpdateData (es : epochService) (l : L) (members : list (option NodeDomainMember)) (w : world S) :
    go (epochService * L * world S * list epoch_event) :=
  '(l, w, an) ← update l members w;
  Ok (set_infos es an, l, w, [ActiveNodesUpdated an]).

Definition selected_message (chainID : bytes) (s : selection C) (self : NodeDomainMember) : ConsensusDomainSelectedMessage.t :=
  ConsensusDomainSelectedMessage.mk chainID CONSENSUS_VER [] [] (sel_ID s) (Z.of_nat (length (sel_members s)) mod 2 ^ 32)
    (ndm_NodeID self) (ndm_NodeRole self) (ndm_Weight self) [].

(** A selection with keys is taken over; the chain id is read from the
    composition state, an unreadable one is empty.  An error of the delivery
    is logged only. *)
Definition adopt (es : epochService) (l : L) (s : selection C) (c : C) (w : world S) :
    go (epochService * L * world S * list epoch_event) :=
  '(es, l, w, evs) ← UpdateData es l (sel_members s) w;
  match sel_self s with
  | Some self =>
      '(w, chainID) ← Chain.ChainID w;
      let id := match chainID with inr id => id | inl _ => [] end in
      Ok (set_selected es true, l, w, evs ++ [DKGUpdated c; DomainSelected (selected_message id s self)])
  | None => Ok (set_selected es false, l, w, evs ++ [DKGUpdated c])
  end.

(** A block that ends the epoch starts the next one: [currentEpoch] itself is
    not updated. *)
Definition UpdateEpoch (now : Z) (es : epochService) (l : L) (newBH : BlockHead.t) (cs : Chain.chainState) (ep : Epoch.epochState)
    (st : CompSState) (w : world S) : go (epochService * L * world S * list epoch_event * option state_error) :=
  match currentEpoch es with
  | None => Panic
  | Some cur =>
      let deltaH := i64 (i64 (BlockHead.Height newBH) - i64 (StartHeight cur)) in
      if negb (deltaH =? i64 (epochInterval es)) then Ok (es, l, w, [], None)
      else
        let newEpoch := mkEpochInfo (u64 (Epoch cur + 1)) (u64 now) (BlockHead.Height newBH) in
        '(w, r) ← Epoch.SetLatestEpoch ep (Some newEpoch) w;
        match r with
        | inl e => Ok (es, l, w, [], Some e)
        | inr _ =>
            '(l, w, sel) ← Select blake2b new_crypt (es_nodeID es) l cs st w;
            match sel with
            | inl e => Ok (es, l, w, [], Some e)
            | inr s =>
                match sel_crypt s with
                | None => Ok (es, l, w, [EpochNew newEpoch], None)
                | Some c => '(es, l, w, evs) ← adopt es l s c w; Ok (es, l, w, evs ++ [EpochNew newEpoch], None)
                end
            end
        end
  end.

(** One round of the start-up loop over the composition state found, if any:
    the loop ends with the first domain that has members and keys. *)
Definition start_round (es : epochService) (l : L) (compState : option (Chain.chainState * CompSState)) (w : world S) :
    go (epochService * L * world S * list epoch_event * bool) :=
  match compState with
  | None => Ok (es, l, w, [], false)
  | Some (cs, st) =>
      '(l, w, sel) ← Select blake2b new_crypt (es_nodeID es) l cs st w;
      match sel with
      | inl _ => Ok (es, l, w, [], false)
      | inr s =>
          match sel_crypt s, sel_members s with
          | Some c, _ :: _ => '(es, l, w, evs) ← adopt es l s c w; Ok (es, l, w, evs, true)
          | _, _ => Ok (es, l, w, [], false)
          end
      end
  end.
End Service.
End EpochService.
