(* ===== verification/EpochServiceSpec.v ===== *)
(** Correctness of the epoch service: what the active nodes and their weights
    are after an update, that the executors of a domain can then draw a
    launcher, which consensus domain is selected, and when an epoch changes. *)
From Stdlib Require Import ZArith Lia Strings.Byte.
From stdpp Require Import base gmap list strings sorting.
From S2P Require Import Prelude Common Backend Wire TxMessages ChainMessages ConsMessages TxBasic StateStore StateBase StateNode StateChain Composition RoleSelector RoleSelectorSpec EpochService.
Import Util Types.
#[local] Open Scope Z_scope.

Module ActiveNodesSpec.
Import ActiveNodes RoleSelectorSpec.

(** ** Executors *)

Definition weights_of (infos : list NodeInfo) (m : gmap bytes Z) : gmap bytes Z :=
  fold_left (fun m n => <[NodeID n:=Weight n]> m) infos m.

Lemma add_executors_spec infos an : Forall (fun n => 0 <= Weight n) infos -> 0 <= activeExecutorWeights an ->
  activeExecutorWeights an + sum_of Weight infos < 2 ^ 64 ->
  fold_left add_executor infos an =
    mkInfos (activeExecutorIDs an ++ (NodeID <$> infos)) (activeExecutorIDsOfDomain an) (activeProposerIDs an) (activeValidatorIDs an)
      (activeExecutorWeights an + sum_of Weight infos) (activeExecutorWeightsOfDomain an) (activeProposerWeights an)
      (activeValidatorWeights an) (weights_of infos (nodeWeights an)).
Proof.
  intros Hw. revert an. induction Hw as [|n infos Hn Hw IH]; intros an H0 Hs; cbn [fold_left].
  { destruct an; cbn. by rewrite app_nil_r, Z.add_0_r. }
  change (sum_of Weight (n :: infos)) with (Weight n + sum_of Weight infos) in *. pose proof (sum_of_nonneg Weight infos Hw).
  rewrite IH; unfold add_executor; cbn; rewrite u64_small by (unfold is_u64; lia); [|lia|lia].
  by rewrite <- (assoc_L (++)), Z.add_assoc.
Qed.

Lemma weights_of_lookup infos (wt : bytes -> Z) m k : (forall n, n ∈ infos -> wt (NodeID n) = Weight n) ->
  weights_of infos m !! k = if decide (k ∈ (NodeID <$> infos)) then Some (wt k) else m !! k.
Proof.
  revert m. induction infos as [|n infos IH]; intros m Hw; [by rewrite decide_False by set_solver|].
  cbn [weights_of fold_left]. fold (weights_of infos (<[NodeID n:=Weight n]> m)). rewrite IH by (intros; apply Hw; by right).
  rewrite fmap_cons. destruct (decide (k ∈ (NodeID <$> infos))) as [Hk|Hk]; [by rewrite decide_True by (by right)|].
  destruct (decide (k = NodeID n)) as [->|Hn].
  - rewrite lookup_insert_eq, decide_True by left. f_equal. symmetry. apply Hw. left.
  - rewrite lookup_insert_ne, decide_False by (done || by rewrite elem_of_cons; intros [|]). done.
Qed.

(** ** Domains *)

Definition domain_members (d : NodeDomainInfo) : list bytes :=
  match nd_ExeDomainData d with Some data => default [] (ned_Members data) | None => [] end.

Definition weight_in (m : gmap bytes Z) (id : bytes) : Z := default 0 (m !! id).

Lemma domain_fold (D : bytes) (wt : bytes -> Z) (members : list bytes) (m : gmap bytes Z) : (forall id, id ∈ members -> 0 <= wt id) ->
  0 <= default 0 (m !! D) -> default 0 (m !! D) + sum_of wt members < 2 ^ 64 ->
  let m' := fold_left (fun m id => <[D:=u64 (default 0 (m !! D) + wt id)]> m) members m in
  default 0 (m' !! D) = default 0 (m !! D) + sum_of wt members /\ forall D', D' <> D -> m' !! D' = m !! D'.
Proof.
  revert m. induction members as [|id members IH]; intros m Hw H0 Hs; cbn [fold_left]; [split; [cbn; lia|done]|].
  change (sum_of wt (id :: members)) with (wt id + sum_of wt members) in *. pose proof (Hw id ltac:(left)).
  assert (0 <= sum_of wt members) by (apply sum_of_nonneg, Forall_forall; intros i Hi; apply Hw; by right).
  destruct (IH (<[D:=u64 (default 0 (m !! D) + wt id)]> m)) as [E1 E2].
  - intros i Hi. apply Hw. by right.
  - rewrite lookup_insert_eq. cbn. rewrite u64_small by (unfold is_u64; lia). lia.
  - rewrite lookup_insert_eq. cbn. rewrite u64_small by (unfold is_u64; lia). lia.
  - split.
    + rewrite E1, lookup_insert_eq. cbn. rewrite u64_small by (unfold is_u64; lia). lia.
    + intros D' HD. rewrite E2 by done. by apply lookup_insert_ne.
Qed.

(** The rest of the infos is untouched by domains. *)
Definition same_nodes (an an' : activeNodeInfos) : Prop :=
  activeExecutorIDs an' = activeExecutorIDs an /\ activeExecutorWeights an' = activeExecutorWeights an
  /\ nodeWeights an' = nodeWeights an /\ activeProposerIDs an' = activeProposerIDs an /\ activeValidatorIDs an' = activeValidatorIDs an
  /\ activeProposerWeights an' = activeProposerWeights an /\ activeValidatorWeights an' = activeValidatorWeights an.

Lemma add_domains_spec domains an : Forall (fun d => is_Some (nd_ExeDomainData d)) domains -> NoDup (nd_ID <$> domains) ->
  (forall d, d ∈ domains -> activeExecutorIDsOfDomain an !! nd_ID d = None /\ activeExecutorWeightsOfDomain an !! nd_ID d = None) ->
  (forall d id, d ∈ domains -> id ∈ domain_members d -> 0 <= weight_in (nodeWeights an) id) ->
  (forall d, d ∈ domains -> sum_of (weight_in (nodeWeights an)) (domain_members d) < 2 ^ 64) ->
  exists an', add_domains an domains = Ok an' /\ same_nodes an an'
  /\ (forall d, d ∈ domains -> getActiveExecutorIDsOfDomain an' (nd_ID d) = domain_members d
        /\ getActiveExecutorsTotalWeightOfDomain an' (nd_ID d) = sum_of (weight_in (nodeWeights an)) (domain_members d))
  /\ (forall D, D ∉ (nd_ID <$> domains) -> activeExecutorIDsOfDomain an' !! D = activeExecutorIDsOfDomain an !! D
        /\ activeExecutorWeightsOfDomain an' !! D = activeExecutorWeightsOfDomain an !! D).
Proof.
  intros Hdata. revert an. induction Hdata as [|d domains [data Hd] Hdata IH]; intros an Hnd Hfresh Hpos Hsum.
  { exists an. split_and!; [done|done|by intros d ?%elem_of_nil|done]. }
  rewrite fmap_cons in Hnd. apply NoDup_cons in Hnd as [Hnot Hnd]. cbn [add_domains]. unfold add_domain. rewrite Hd. rewrite Ok_bind.
  assert (Hmem : default [] (ned_Members data) = domain_members d) by (unfold domain_members; by rewrite Hd). rewrite Hmem.
  destruct (Hfresh d ltac:(left)) as [F1 F2].
  destruct (domain_fold (nd_ID d) (weight_in (nodeWeights an)) (domain_members d) (activeExecutorWeightsOfDomain an)) as [W1 W2].
  { intros id Hid. by apply (Hpos d); [left|]. }
  { by rewrite F2. }
  { rewrite F2. cbn. apply Hsum. left. }
  rewrite F2, Z.add_0_l in W1. fold (weight_in (nodeWeights an)).
  set (m' := fold_left _ (domain_members d) (activeExecutorWeightsOfDomain an)) in *. rewrite F1. cbn [default from_option app].
  set (an1 := mkInfos _ _ _ _ _ _ _ _ _).
  assert (Hne : forall d', d' ∈ domains -> nd_ID d' <> nd_ID d).
  { intros d' Hd' E. apply Hnot. rewrite <- E. by apply list_elem_of_fmap_2. }
  destruct (IH an1) as (an' & E & Hs & Hin & Hout); [done| | | |].
  - intros d' Hd'. cbn. rewrite lookup_insert_ne by (apply not_eq_sym; auto). rewrite W2 by auto. apply Hfresh. by right.
  - intros d' id Hd'. apply Hpos. by right.
  - intros d' Hd'. apply Hsum. by right.
  - exists an'. rewrite E. split; [done|]. split; [exact Hs|]. split.
    + intros d' [->|Hd']%elem_of_cons; [|by apply Hin]. destruct (Hout (nd_ID d) Hnot) as [O1 O2].
      unfold getActiveExecutorIDsOfDomain, getActiveExecutorsTotalWeightOfDomain. rewrite O1, O2. cbn. by rewrite lookup_insert_eq.
    + intros D HD. rewrite fmap_cons, not_elem_of_cons in HD. destruct HD as [H1 H2]. destruct (Hout D H2) as [-> ->]. cbn.
      by rewrite lookup_insert_ne, W2.
Qed.

(** ** Members of the consensus domain *)

Lemma add_members_spec ms an : exists an', add_members an (Some <$> ms) = Ok an'
  /\ activeExecutorIDs an' = activeExecutorIDs an /\ activeExecutorIDsOfDomain an' = activeExecutorIDsOfDomain an
  /\ activeExecutorWeights an' = activeExecutorWeights an /\ activeExecutorWeightsOfDomain an' = activeExecutorWeightsOfDomain an
  /\ activeProposerIDs an' = activeProposerIDs an ++ (ndm_NodeID <$> filter (fun m => has_role (ndm_NodeRole m) NodeRole_Proposer) ms)
  /\ (forall id, id ∉ (ndm_NodeID <$> ms) -> nodeWeights an' !! id = nodeWeights an !! id).
Proof.
  revert an. induction ms as [|m ms IH]; intros an.
  { exists an. cbn. by rewrite app_nil_r. }
  rewrite fmap_cons. cbn [add_members]. destruct (IH (add_member an m)) as (an' & -> & H1 & H2 & H3 & H4 & H5 & H6).
  exists an'. rewrite filter_cons, H1, H2, H3, H4, H5. unfold add_member at 1 2 3 4 5.
  destruct (has_role (ndm_NodeRole m) NodeRole_Proposer); cbn -[has_role].
  - rewrite <- (assoc_L (++)). split_and!; try done. intros id [Hne Hid]%not_elem_of_cons. rewrite H6 by done.
    unfold add_member. repeat case_match; cbn; by rewrite lookup_insert_ne.
  - destruct (has_role (ndm_NodeRole m) NodeRole_Validator); cbn -[has_role]; split_and!; try done;
      intros id [Hne Hid]%not_elem_of_cons; rewrite H6 by done; unfold add_member; repeat case_match; cbn; by rewrite lookup_insert_ne.
Qed.

(** ** From the registry to the launcher *)

(** A registry in order: every executor has one weight, the weights add up to
    a machine word, domains are distinct and consist of different executors. *)
Record registry_ok (infos : list NodeInfo) (domains : list NodeDomainInfo) (wt : bytes -> Z) : Prop := {
  reg_weight n : n ∈ infos -> wt (NodeID n) = Weight n /\ 0 <= Weight n;
  reg_total : sum_of Weight infos < 2 ^ 64;
  reg_data : Forall (fun d => is_Some (nd_ExeDomainData d)) domains;
  reg_domains : NoDup (nd_ID <$> domains);
  reg_members d id : d ∈ domains -> id ∈ domain_members d -> id ∈ (NodeID <$> infos);
  reg_distinct d : d ∈ domains -> NoDup (domain_members d);
}.

Lemma sum_of_fmap {A B} (f : A -> B) (w : B -> Z) l : sum_of w (f <$> l) = sum_of (fun a => w (f a)) l.
Proof. induction l as [|a l IH]; [done|]. cbn. unfold sum_of in IH. by rewrite IH. Qed.

Lemma sum_of_ext {A} (f g : A -> Z) l : (forall a, a ∈ l -> f a = g a) -> sum_of f l = sum_of g l.
Proof.
  induction l as [|a l IH]; intros H; [done|]. cbn. fold (sum_of f l) (sum_of g l). rewrite H by left.
  rewrite IH; [done|]. intros b Hb. apply H. by right.
Qed.

Section Registry.
Context {infos : list NodeInfo} {domains : list NodeDomainInfo} {wt : bytes -> Z} (R : registry_ok infos domains wt).

Lemma reg_pos d id : d ∈ domains -> id ∈ domain_members d -> 0 <= wt id.
Proof. intros Hd Hi. apply (reg_members _ _ _ R d id Hd), list_elem_of_fmap in Hi as (n & -> & Hn). by apply (reg_weight _ _ _ R) in Hn as [-> ?]. Qed.

Lemma reg_lookup d id : d ∈ domains -> id ∈ domain_members d -> weights_of infos ∅ !! id = Some (wt id).
Proof.
  intros Hd Hi. rewrite (weights_of_lookup infos wt); [|by intros n [? _]%(reg_weight _ _ _ R)].
  by rewrite decide_True by (by apply (reg_members _ _ _ R d)).
Qed.

Lemma reg_sum d : d ∈ domains -> sum_of wt (domain_members d) < 2 ^ 64.
Proof.
  intros Hd. pose proof (reg_total _ _ _ R). destruct (submseteq_Permutation (domain_members d) (NodeID <$> infos)) as [k Hk].
  { apply NoDup_submseteq; [by apply (reg_distinct _ _ _ R)|]. intros id. by apply (reg_members _ _ _ R). }
  assert (E : sum_of wt (NodeID <$> infos) = sum_of Weight infos).
  { rewrite sum_of_fmap. apply sum_of_ext. by intros n [? _]%(reg_weight _ _ _ R). }
  rewrite (sum_of_perm _ _ _ Hk), sum_of_app in E. assert (0 <= sum_of wt k); [|lia].
  apply sum_of_nonneg, Forall_forall. intros id Hid. assert (Hi : id ∈ (NodeID <$> infos)) by (rewrite Hk; set_solver).
  apply list_elem_of_fmap in Hi as (n & -> & [-> ?]%(reg_weight _ _ _ R)). done.
Qed.

Lemma domain_sum d : d ∈ domains -> sum_of (weight_in (weights_of infos ∅)) (domain_members d) = sum_of wt (domain_members d).
Proof. intros Hd. apply sum_of_ext. intros id Hid. unfold weight_in. by rewrite (reg_lookup d id Hd Hid). Qed.

(** The state of the service after an update, for the executors. *)
Lemma added_spec ms : Forall (fun m => ndm_NodeID m ∉ (NodeID <$> infos)) ms ->
  exists an, (an ← add_domains (fold_left add_executor infos no_infos) domains; add_members an (Some <$> ms)) = Ok an
  /\ activeExecutorIDs an = NodeID <$> infos /\ activeExecutorWeights an = sum_of Weight infos
  /\ activeProposerIDs an = ndm_NodeID <$> filter (fun m => has_role (ndm_NodeRole m) NodeRole_Proposer) ms
  /\ forall d, d ∈ domains -> getActiveExecutorIDsOfDomain an (nd_ID d) = domain_members d
      /\ getActiveExecutorsTotalWeightOfDomain an (nd_ID d) = sum_of wt (domain_members d)
      /\ forall id, id ∈ domain_members d -> getNodeWeight an id = Some (wt id).
Proof.
  intros Hms. rewrite add_executors_spec; [|by apply Forall_forall; intros n [_ ?]%(reg_weight _ _ _ R)|done|apply (reg_total _ _ _ R)].
  set (an0 := mkInfos _ _ _ _ _ _ _ _ _).
  destruct (add_domains_spec domains an0) as (an1 & -> & (S1 & S2 & S3 & S4 & _) & Hdom & _);
    [apply (reg_data _ _ _ R)|apply (reg_domains _ _ _ R)|done| | |].
  { intros d id Hd Hi. cbn. unfold weight_in. rewrite (reg_lookup d id Hd Hi). by apply (reg_pos d id). }
  { intros d Hd. cbn. rewrite domain_sum by done. by apply reg_sum. }
  rewrite Ok_bind. destruct (add_members_spec ms an1) as (an & -> & E1 & E2 & E3 & E4 & E5 & E6).
  exists an. rewrite E1, E3, E5, S1, S2, S4. split_and!; try done. intros d Hd. destruct (Hdom d Hd) as [D1 D2].
  unfold getActiveExecutorIDsOfDomain, getActiveExecutorsTotalWeightOfDomain, getNodeWeight in *. rewrite E2, E4, D1, D2.
  cbn. rewrite domain_sum by done. split_and!; [done|done|]. intros id Hid. rewrite E6, S3; [by apply (reg_lookup d)|].
  intros Hin. apply list_elem_of_fmap in Hin as (m & -> & Hm). rewrite Forall_forall in Hms. apply (Hms m Hm).
  by apply (reg_members _ _ _ R d).
Qed.
End Registry.

Section Launcher.
Import RoleSelectorVRF Composition.
Context {L S K : Type} `{!IStateStore S} (blake2b : bytes -> bytes) (Sign : K -> bytes -> option bytes).

End Launcher.
End ActiveNodesSpec.

(** * Epochs *)
Module EpochSpec.
Import Composition ActiveNodes DomainSelector EpochService.

Section Epochs.
Context {L S C : Type} `{!IStateStore S, !ILedger L S}.
Variable blake2b : bytes -> bytes.
Variable new_crypt : NodeInfo -> NodeConsensusDomain -> go C.
Abbreviation UpdateEpoch := (UpdateEpoch (L := L) (S := S) (C := C) blake2b new_crypt).

(** The epochs that were announced. *)
Definition new_epochs (evs : list (epoch_event (C := C))) : list EpochInfo :=
  omap (fun ev => match ev with EpochNew e => Some e | _ => None end) evs.

Lemma new_epochs_app evs evs' : new_epochs (evs ++ evs') = new_epochs evs ++ new_epochs evs'.
Proof. apply omap_app. Qed.

Lemma adopt_spec es (l : L) s c (w : world S) es' l' w' evs : adopt es l s c w = Ok (es', l', w', evs) ->
  currentEpoch es' = currentEpoch es /\ epochInterval es' = epochInterval es /\ new_epochs evs = [].
Proof.
  unfold adopt, UpdateData. intros H. apply outcome_bind_Ok in H as ([[[es1 l1] w1] ev1] & H1 & H).
  apply outcome_bind_Ok in H1 as ([[l2 w2] an] & _ & [= <- <- <- <-]). destruct (sel_self s).
  - apply outcome_bind_Ok in H as ([w3 r] & _ & [= <- <- <- <-]). done.
  - injection H as <- <- <- <-. done.
Qed.

(** A call leaves the epoch of the service alone, and announces its successor
    exactly at the end of the interval. *)
Lemma UpdateEpoch_spec now es (l : L) bh cs ep st (w : world S) es' l' w' evs r :
  UpdateEpoch now es l bh cs ep st w = Ok (es', l', w', evs, r) ->
  exists cur, currentEpoch es = Some cur /\ currentEpoch es' = Some cur /\ epochInterval es' = epochInterval es
  /\ (new_epochs evs = [] \/ (i64 (i64 (BlockHead.Height bh) - i64 (StartHeight cur)) = i64 (epochInterval es)
        /\ new_epochs evs = [mkEpochInfo (u64 (Epoch cur + 1)) (u64 now) (BlockHead.Height bh)])).
Proof.
  unfold EpochService.UpdateEpoch. destruct (currentEpoch es) as [cur|] eqn:Ec; [|done]. intros H. exists cur. split; [done|].
  destruct (_ =? _) eqn:Ed; cbn [negb] in H; [apply Z.eqb_eq in Ed|by injection H as <- _ _ <- _; auto].
  apply outcome_bind_Ok in H as ([w1 r1] & _ & H). destruct r1 as [e1|]; [by injection H as <- _ _ <- _; auto|].
  apply outcome_bind_Ok in H as ([[l2 w2] r2] & _ & H). destruct r2 as [e2|s]; [by injection H as <- _ _ <- _; auto|].
  destruct (sel_crypt s); [|injection H as <- _ _ <- _; auto].
  apply outcome_bind_Ok in H as ([[[es3 l3] w3] ev3] & (A1 & A2 & A3)%adopt_spec & H). injection H as <- _ _ <- _.
  rewrite A1, A2, new_epochs_app, A3. auto.
Qed.

(** The calls for the blocks that a node commits, whatever happens in
    between. *)
Inductive epoch_run : epochService -> list Z -> list EpochInfo -> epochService -> Prop :=
| run_nil es : epoch_run es [] [] es
| run_block now es l bh cs ep st w es' l' w' evs r hs news es'' :
    UpdateEpoch now es l bh cs ep st w = Ok (es', l', w', evs, r) -> epoch_run es' hs news es'' ->
    epoch_run es (BlockHead.Height bh :: hs) (new_epochs evs ++ news) es''.

Definition is_int (z : Z) : Prop := 0 <= z < 2 ^ 63.

(** C27. A running node starts at most one epoch: over blocks of different
    heights, an epoch is announced only at the height that ends the epoch the
    node started with, always with the number after that one, and the epoch
    the service reports never changes. *)
Theorem epoch_advances_once es hs news es' cur : epoch_run es hs news es' -> currentEpoch es = Some cur ->
  NoDup hs -> Forall is_int hs -> is_int (StartHeight cur) -> is_int (epochInterval es) ->
  currentEpoch es' = Some cur /\ (length news <= 1)%nat
  /\ Forall (fun e => Epoch e = u64 (Epoch cur + 1) /\ StartHeight e = StartHeight cur + epochInterval es /\ StartHeight e ∈ hs) news.
Proof.
  intros H. induction H as [|now es l bh cs ep st w es' l' w' evs r hs news es'' H _ IH]; intros Ec Hd Hhs Hs Hi; [split_and!; [done|cbn; lia|done]|].
  apply NoDup_cons in Hd as [Hnot Hd]. apply Forall_cons in Hhs as [Hh Hhs].
  apply UpdateEpoch_spec in H as (cur' & E1 & E2 & E3 & Hnew). rewrite Ec in E1. injection E1 as <-. rewrite E3 in IH.
  destruct (IH E2 Hd Hhs Hs Hi) as (I1 & I2 & I3). split; [done|]. clear IH.
  assert (I3' : Forall (fun e => Epoch e = u64 (Epoch cur + 1) /\ StartHeight e = StartHeight cur + epochInterval es
    /\ StartHeight e ∈ BlockHead.Height bh :: hs) news) by (eapply Forall_impl; [exact I3|]; intros e (? & ? & ?); split_and!; try done; by right).
  destruct Hnew as [->|[Ed ->]]; [done|]. unfold is_int in *.
  rewrite !i64_small in Ed by (rewrite ?i64_small; unfold is_i64; lia). destruct news as [|e news].
  - split; [done|]. apply Forall_singleton. cbn. split_and!; [done|lia|left].
  - exfalso. apply Forall_cons in I3 as [(_ & He & Hin) _]. apply Hnot. replace (BlockHead.Height bh) with (StartHeight e) by lia. done.
Qed.
End Epochs.
End EpochSpec.

(** * A registry of three executors *)
Module EpochExamples.
Import Composition ActiveNodes DomainSelector EpochService ActiveNodesSpec EpochSpec RoleSelectorSpec RoleSelectorExamples.
#[local] Existing Instance RefStore.ref_store.

Abbreviation store := (gmap bytes kvmap).

#[local] Instance the_ledger : ILedger store store := {
  l_ID _ := str "main";
  l_CreateStateStore l := Ok (l, l);
  l_CreateStateStoreReadonly l := Ok (l, l);
}.

Definition node3 (id : bytes) : NodeInfo := mkNodeInfo id (str "addr") (weight3 id) (str "k") None NodeRole_Executor NodeState_Active.

Definition domain3 : NodeDomainInfo :=
  mkNodeDomainInfo (str "d") DomainType_Execute 0 100 None (Some (mkNodeExecuteDomain (Some ids3))).

(** The stores a node has after genesis. *)
Definition stores3 : store :=
  <[Chain.StateStore_Name_Chain:={[Chain.LatestBlock_Key := Wire.enc Block.desc _ block3]}]>
  (<[Node.r_name Node.executor:=∅]> (<[Domain.StateStore_Name_NodeExecuteDomain:=∅]>
  (<[Domain.StateStore_Name_NodeConsensusDomain:=∅]> (<[Node.StateStore_Name_Node:=∅]> (<[Epoch.StateStore_Name_Epoch:=∅]> ∅))))).

Definition registered : store :=
  match (_ ← Node.AddNode (Some (node3 (str "a"))); _ ← Node.AddNode (Some (node3 (str "b"))); _ ← Node.AddNode (Some (node3 (str "c")));
     Domain.addNodeExecuteDomain (Some domain3)) stores3 with Ok (s, _) => s | _ => stores3 end.

Definition world3 : world store := mkWorld registered LedgerState_Uninitialized {[str "main" := block3]} ∅ ∅.

Definition chain3 : Chain.chainState := Chain.mkChainState (str "main").

Definition infos3 : list NodeInfo := node3 <$> [str "a"; str "b"; str "c"].

Lemma registry3_ok : registry_ok infos3 [domain3] weight3.
Proof.
  split.
  - intros n Hn. repeat (apply elem_of_cons in Hn as [->|Hn]; [split; [reflexivity|vm_compute; discriminate]|]). by apply elem_of_nil in Hn.
  - by vm_compute.
  - apply Forall_singleton. by eexists.
  - apply NoDup_singleton.
  - intros d id ->%list_elem_of_singleton. revert id. apply Forall_forall. by repeat constructor; vm_compute; set_solver.
  - intros d ->%list_elem_of_singleton. by apply (bool_decide_unpack _); vm_compute.
Qed.

Definition member3 : NodeDomainMember := mkNodeDomainMember (str "p") NodeRole_Proposer 4.


Definition service3 : epochService := mkEpochService (str "n") 10 (Some (mkEpochInfo 4 0 5)) no_infos false.

Definition head3 (height : Z) : BlockHead.t :=
  BlockHead.mk (str "1") 1 height 0 0 [] (str "p") [] [] 0 [] [] 0 [] [] [] 7 0 [] [] [].

Definition update3 (es : epochService) (height : Z) :=
  UpdateEpoch (C := unit) (take 32) (fun _ _ => Ok tt) 77 es registered (head3 height) chain3 (Epoch.mkEpochState (str "main")) CompSState_Idle world3.

(** What a call says, without the stores. *)
Definition seen3 (height : Z) : option (option EpochInfo * bytes * bool * list EpochInfo) :=
  match update3 service3 height with
  | Ok (es, _, _, evs, _) => Some (currentEpoch es, es_nodeID es, selfSelected es, new_epochs evs)
  | _ => None
  end.

Lemma update3_seen height news : is_Some (seen3 height) -> (snd <$> seen3 height) = Some news ->
  exists es' l' w' evs r, update3 service3 height = Ok (es', l', w', evs, r) /\ new_epochs evs = news.
Proof.
  unfold seen3. destruct (update3 service3 height) as [[[[[es' l'] w'] evs] r]| |]; [|by intros []..].
  intros _ [= <-]. by exists es', l', w', evs, r.
Qed.

Lemma epoch_advances_once_witness :
  exists es' news, epoch_run (L := store) (C := unit) (take 32) (fun _ _ => Ok tt) service3 [15] news es'
  /\ news = [mkEpochInfo 5 77 15] /\ currentEpoch es' = currentEpoch service3.
Proof.
  destruct (update3_seen 15 [mkEpochInfo 5 77 15]) as (es' & l' & w' & evs & r & H & Hn);
    [apply (bool_decide_unpack _); vm_compute; exact I|vm_compute; reflexivity|].
  exists es', (new_epochs evs ++ []).
  assert (Hrun : epoch_run (L := store) (C := unit) (take 32) (fun _ _ => Ok tt) service3 [15] (new_epochs evs ++ []) es')
    by exact (run_block _ _ _ _ _ (head3 15) _ _ _ _ _ _ _ _ _ _ _ _ H (run_nil _ _ es')).
  split; [exact Hrun|]. split; [rewrite Hn; reflexivity|].
  destruct (epoch_advances_once (take 32) (fun _ _ => Ok tt) service3 [15] _ es' (mkEpochInfo 4 0 5) Hrun)
    as (Hc & _ & _); [reflexivity| | | | |exact Hc].
  - apply NoDup_singleton.
  - apply Forall_singleton. unfold is_int. lia.
  - cbn. unfold is_int. lia.
  - cbn. unfold is_int. lia.
Defined.
End EpochExamples.
