(* ===== verification/MessageDeliver.v ===== *)
(** Messages between consensus nodes (src/consensus/message_cons.go,
    message_deliver.go, message_deliver_dkg.go, handler.go, the dispatch of
    consensus.go, and the answers of src/network/message): what is signed and
    sent to whom, and what a node makes of the bytes it receives. *)
From Stdlib Require Import ZArith Lia Strings.Byte.
From stdpp Require Import base gmap list strings sorting.
From S2P Require Import Prelude Common Backend Wire TxMessages ChainMessages ConsMessages TxBasic Text Json JsonCodec StateStore StateBase StateNode StateChain Composition RoleSelector EpochService.
Import Util Types.
#[local] Open Scope Z_scope.

Definition MOD_NAME : bytes := str "consensus".

Definition ConsensusMessage_CSDomainSel : Z := 1.
Definition ConsensusMessage_PrepareExe : Z := 2.
Definition ConsensusMessage_PrepareExeIndic : Z := 3.
Definition ConsensusMessage_PrepareProp : Z := 4.
Definition ConsensusMessage_Propose : Z := 5.
Definition ConsensusMessage_ExeRSValidateReq : Z := 6.
Definition ConsensusMessage_BestPropose : Z := 7.
Definition ConsensusMessage_Vote : Z := 8.
Definition ConsensusMessage_Commit : Z := 9.
Definition ConsensusMessage_PartPubKey : Z := 10.
Definition ConsensusMessage_DKGDeal : Z := 11.
Definition ConsensusMessage_DKGDealResp : Z := 12.
Definition ConsensusMessage_DKGFinished : Z := 13.

(** * message_cons.go: the bytes that are signed *)

Definition DomainSel_DataBytes (m : ConsensusDomainSelectedMessage.t) : bytes :=
  ConsensusDomainSelectedMessage.DomainID m ++ drop 4 (Uint64ToBytes (ConsensusDomainSelectedMessage.MemberNumber m))
    ++ ConsensusDomainSelectedMessage.NodeIDOfMember m.

Definition TxsData (m : PreparePackedMessageExe.t) : bytes := mjoin (PreparePackedMessageExe.Txs m).

Definition Indication_DataBytes (m : PreparePackedMessageExeIndication.t) : bytes :=
  Uint64ToBytes (PreparePackedMessageExeIndication.StateVersion m).

Definition TxHashsData (m : PreparePackedMessageProp.t) : bytes := mjoin (PreparePackedMessageProp.TxHashs m).

Definition BlockHeadInfo (m : ProposeMessage.t) : outcome Wire.proto_error BlockHead.t :=
  Codec.Unmarshal BlockHead.desc (ProposeMessage.BlockHead m) (Wire.s_zero BlockHead.desc).

Definition TxAndResultHashsData (m : ExeResultValidateReqMessage.t) : bytes :=
  mjoin (ExeResultValidateReqMessage.TxHashs m) ++ mjoin (ExeResultValidateReqMessage.TxResultHashs m).

Definition TxAndResultProofsData (m : ExeResultValidateRespMessage.t) : bytes :=
  mjoin (ExeResultValidateRespMessage.TxProofs m) ++ mjoin (ExeResultValidateRespMessage.TxResultProofs m).

(** A message that is signed when it is delivered: its wire format, its type
    in the envelope, the bytes signed, and the signature fields. *)
Class Signed (M : Type) := {
  sg_schema : Wire.schema M;
  sg_laws :: Wire.mlaws sg_schema;
  sg_type : Z;
  sg_data : M -> bytes;
  set_sign : bytes -> bytes -> M -> M;
}.

#[export] Instance signed_CSDomainSel : Signed ConsensusDomainSelectedMessage.t := {
  sg_schema := ConsensusDomainSelectedMessage.desc;
  sg_laws := ConsensusDomainSelectedMessage.laws;
  sg_type := ConsensusMessage_CSDomainSel;
  sg_data := DomainSel_DataBytes;
  set_sign sig pk '(ConsensusDomainSelectedMessage.mk a b _ _ e f g h i j) := ConsensusDomainSelectedMessage.mk a b sig pk e f g h i j;
}.

#[export] Instance signed_PrepareExe : Signed PreparePackedMessageExe.t := {
  sg_schema := PreparePackedMessageExe.desc;
  sg_laws := PreparePackedMessageExe.laws;
  sg_type := ConsensusMessage_PrepareExe;
  sg_data := TxsData;
  set_sign sig pk '(PreparePackedMessageExe.mk a b c d _ _ g h i j k l m n o) := PreparePackedMessageExe.mk a b c d sig pk g h i j k l m n o;
}.

#[export] Instance signed_PrepareExeIndic : Signed PreparePackedMessageExeIndication.t := {
  sg_schema := PreparePackedMessageExeIndication.desc;
  sg_laws := PreparePackedMessageExeIndication.laws;
  sg_type := ConsensusMessage_PrepareExeIndic;
  sg_data := Indication_DataBytes;
  set_sign sig pk '(PreparePackedMessageExeIndication.mk a b c d _ _ g h i) := PreparePackedMessageExeIndication.mk a b c d sig pk g h i;
}.

#[export] Instance signed_PrepareProp : Signed PreparePackedMessageProp.t := {
  sg_schema := PreparePackedMessageProp.desc;
  sg_laws := PreparePackedMessageProp.laws;
  sg_type := ConsensusMessage_PrepareProp;
  sg_data := TxHashsData;
  set_sign sig pk '(PreparePackedMessageProp.mk a b c d _ _ g h i j k l m n o p q) := PreparePackedMessageProp.mk a b c d sig pk g h i j k l m n o p q;
}.

#[export] Instance signed_Propose : Signed ProposeMessage.t := {
  sg_schema := ProposeMessage.desc;
  sg_laws := ProposeMessage.laws;
  sg_type := ConsensusMessage_Propose;
  sg_data := ProposeMessage.BlockHead;
  set_sign sig pk '(ProposeMessage.mk a b c d _ _ g h i j k l) := ProposeMessage.mk a b c d sig pk g h i j k l;
}.

#[export] Instance signed_ExeRSValidateReq : Signed ExeResultValidateReqMessage.t := {
  sg_schema := ExeResultValidateReqMessage.desc;
  sg_laws := ExeResultValidateReqMessage.laws;
  sg_type := ConsensusMessage_ExeRSValidateReq;
  sg_data := TxAndResultHashsData;
  set_sign sig pk '(ExeResultValidateReqMessage.mk a b c d e _ _ h i j k) := ExeResultValidateReqMessage.mk a b c d e sig pk h i j k;
}.

#[export] Instance signed_BestPropose : Signed BestProposeMessage.t := {
  sg_schema := BestProposeMessage.desc;
  sg_laws := BestProposeMessage.laws;
  sg_type := ConsensusMessage_BestPropose;
  sg_data := BestProposeMessage.PropMsgData;
  set_sign sig pk '(BestProposeMessage.mk a b c d _ _ g h i j k) := BestProposeMessage.mk a b c d sig pk g h i j k;
}.

#[export] Instance signed_Vote : Signed VoteMessage.t := {
  sg_schema := VoteMessage.desc;
  sg_laws := VoteMessage.laws;
  sg_type := ConsensusMessage_Vote;
  sg_data := VoteMessage.BlockHead;
  set_sign sig pk '(VoteMessage.mk a b c d _ f _ h i j) := VoteMessage.mk a b c d sig f pk h i j;
}.

#[export] Instance signed_Commit : Signed CommitMessage.t := {
  sg_schema := CommitMessage.desc;
  sg_laws := CommitMessage.laws;
  sg_type := ConsensusMessage_Commit;
  sg_data := CommitMessage.BlockHead;
  set_sign sig pk '(CommitMessage.mk a b c d e _ _ h i j) := CommitMessage.mk a b c d e sig pk h i j;
}.

#[export] Instance signed_PartPubKey : Signed DKGPartPubKeyMessage.t := {
  sg_schema := DKGPartPubKeyMessage.desc;
  sg_laws := DKGPartPubKeyMessage.laws;
  sg_type := ConsensusMessage_PartPubKey;
  sg_data := DKGPartPubKeyMessage.PartPubKey;
  set_sign sig pk '(DKGPartPubKeyMessage.mk a b c _ _ f g) := DKGPartPubKeyMessage.mk a b c sig pk f g;
}.

#[export] Instance signed_DKGDeal : Signed DKGDealMessage.t := {
  sg_schema := DKGDealMessage.desc;
  sg_laws := DKGDealMessage.laws;
  sg_type := ConsensusMessage_DKGDeal;
  sg_data := DKGDealMessage.DealData;
  set_sign sig pk '(DKGDealMessage.mk a b c _ _ f g) := DKGDealMessage.mk a b c sig pk f g;
}.

#[export] Instance signed_DKGDealResp : Signed DKGDealRespMessage.t := {
  sg_schema := DKGDealRespMessage.desc;
  sg_laws := DKGDealRespMessage.laws;
  sg_type := ConsensusMessage_DKGDealResp;
  sg_data := DKGDealRespMessage.RespData;
  set_sign sig pk '(DKGDealRespMessage.mk a b c _ _ f g) := DKGDealRespMessage.mk a b c sig pk f g;
}.

#[export] Instance signed_DKGFinished : Signed DKGFinishedMessage.t := {
  sg_schema := DKGFinishedMessage.desc;
  sg_laws := DKGFinishedMessage.laws;
  sg_type := ConsensusMessage_DKGFinished;
  sg_data := DKGFinishedMessage.PubPolyCommit;
  set_sign sig pk '(DKGFinishedMessage.mk a b c _ _ f g h) := DKGFinishedMessage.mk a b c sig pk f g h;
}.


(** * message_deliver.go *)
Module Deliver.
Import ActiveNodes.

Definition ForwardExecute_Msg : bytes := str "/topia/execute/forward/msg/0.0.1".
Definition ForwardExecute_SyncMsg : bytes := str "/topia/execute/forward/sync/msg/0.0.1".
Definition ForwardPropose_Msg : bytes := str "/topia/propose/forward/msg/0.0.1".
Definition FrowardValidate_Msg : bytes := str "/topia/validate/forward/msg/0.0.1".

Inductive DeliverStrategy := DeliverStrategy_Unknown | DeliverStrategy_All | DeliverStrategy_Specifically.

#[export] Instance DeliverStrategy_eq_dec : EqDecision DeliverStrategy.
Proof. solve_decision. Defined.

(** The threshold keys of a consensus domain (dkg_bls.go).  An error is
    [None]; a recovered signature may be nil. *)
Class IDKGBls (D : Type) := {
  dkg_PubKey : D -> option bytes;
  dkg_Sign : D -> bytes -> option (bytes * bytes);
  dkg_Verify : D -> bytes -> bytes -> bool;
  dkg_RecoverSig : D -> bytes -> list bytes -> option (option bytes);
  dkg_Threshold : D -> Z;
  dkg_Finished : D -> bool;
}.

(** One call of the network: the peers, if they are given, the protocol, the
    module and the bytes. *)
Record send := mkSend {
  s_peers : option (list bytes);
  s_protocol : bytes;
  s_module : bytes;
  s_data : bytes;
}.

Inductive deliver_error :=
| ENilDKG
| ESign
| EPublicKey
| ENoExecutor
| ESend
| EInvalidRole
| EState (e : state_error)
| EResponse
| EUnmarshal (e : Wire.proto_error)
| EProof.

Section Deliver.
Context {D K : Type} `{!IDKGBls D}.

(** The crypt service; an error is [None]. *)
Variables (Sign : K -> bytes -> option bytes) (ConvertToPublic : K -> option bytes).

(** Whether the network accepts a call. *)
Variable Send : send -> bool.

Record messageDeliver := mkDeliver {
  md_nodeID : bytes;
  ready : bool;
  priKey : K;
  strategy : DeliverStrategy;
  md_dkgBls : option D;
}.

Definition updateDKGBls (md : messageDeliver) (d : D) : messageDeliver :=
  mkDeliver (md_nodeID md) true (priKey md) (strategy md) (Some d).

Definition isReady (md : messageDeliver) : go bool :=
  if ready md then match md_dkgBls md with Some d => Ok (dkg_Finished d) | None => Panic end else Ok false.

(** The polls while a caller waits for keys, at most ten. *)
Fixpoint wait_ready (polls : nat) (ready : nat -> bool) (waitCount : nat) : bool :=
  match polls with
  | O => false
  | S polls => if ready waitCount then true else wait_ready polls ready (S waitCount)
  end.

Definition deliverSendCommon (peers : option (list bytes)) (protocolID : bytes) (msgType : Z) (dataBytes : bytes) : go send :=
  csMsgBytes ← Codec.Marshal ConsensusMessage.desc (ConsensusMessage.mk msgType dataBytes []);
  Ok (mkSend peers protocolID MOD_NAME (default [] csMsgBytes)).

(** A message with the key's signature. *)
Definition sign_key {M} `{!Signed M} (md : messageDeliver) (m : M) : deliver_error + M :=
  match Sign (priKey md) (sg_data m) with
  | None => inl ESign
  | Some sig => match ConvertToPublic (priKey md) with None => inl EPublicKey | Some pk => inr (set_sign sig pk m) end
  end.

(** A message with the signature of the threshold keys. *)
Definition sign_dkg {M} `{!Signed M} (md : messageDeliver) (m : M) : deliver_error + M :=
  match md_dkgBls md with
  | None => inl ENilDKG
  | Some d => match dkg_Sign d (sg_data m) with None => inl ESign | Some (sig, pk) => inr (set_sign sig pk m) end
  end.

Definition sent (s : send) : option deliver_error := if Send s then None else Some ESend.

(** One call with a message. *)
Definition send_to {M} `{!Signed M} (peers : option (list bytes)) (protocolID : bytes) (m : M) : go (list send * option deliver_error) :=
  msgBytes ← Codec.Marshal sg_schema m;
  s ← deliverSendCommon peers protocolID sg_type (default [] msgBytes);
  Ok ([s], sent s).

(** The peers, when they are named. *)
Definition peers_of (md : messageDeliver) (ids : list bytes) : option (list bytes) :=
  if decide (strategy md = DeliverStrategy_Specifically) then Some ids else None.

(** Signed with the key and sent to executors, of which there have to be some. *)
Definition to_executors {M} `{!Signed M} (md : messageDeliver) (ids : list bytes) (m : M) : go (list send * option deliver_error) :=
  match sign_key md m with
  | inl e => Ok ([], Some e)
  | inr m =>
      if bool_decide (strategy md = DeliverStrategy_Specifically /\ ids = []) then Ok ([], Some ENoExecutor)
      else send_to (peers_of md ids) ForwardExecute_Msg m
  end.

Definition deliverConsensusDomainSelectedMessageExe (md : messageDeliver) (an : activeNodeInfos) (msg : ConsensusDomainSelectedMessage.t) :
    go (list send * option deliver_error) :=
  to_executors md (activeExecutorIDs an) msg.

Definition deliverPreparePackagedMessageExe (md : messageDeliver) (an : activeNodeInfos) (domainID : bytes) (msg : PreparePackedMessageExe.t) :
    go (list send * option deliver_error) :=
  to_executors md (getActiveExecutorIDsOfDomain an domainID) msg.

Definition deliverPreparePackagedMessageExeIndication (md : messageDeliver) (launcherID : bytes) (msg : PreparePackedMessageExeIndication.t) :
    go (list send * option deliver_error) :=
  match sign_key md msg with
  | inl e => Ok ([], Some e)
  | inr msg => send_to (peers_of md [launcherID]) ForwardExecute_Msg msg
  end.

(** The proposers are asked for until there are some; [polls] are the answers. *)
Fixpoint first_some (polls : list (list bytes)) : option (list bytes) :=
  match polls with
  | [] => None
  | [] :: polls => first_some polls
  | ids :: _ => Some ids
  end.

(** [None] when the caller still waits for proposers after the polls. *)
Definition deliverPreparePackagedMessageProp (md : messageDeliver) (polls : list (list bytes)) (msg : PreparePackedMessageProp.t) :
    go (option (list send * option deliver_error)) :=
  match sign_key md msg with
  | inl e => Ok (Some ([], Some e))
  | inr msg =>
      if decide (strategy md = DeliverStrategy_Specifically)
      then match first_some polls with
           | None => Ok None
           | Some ids => r ← send_to (Some ids) ForwardPropose_Msg msg; Ok (Some r)
           end
      else r ← send_to None ForwardPropose_Msg msg; Ok (Some r)
  end.

(** First the proposers but the node itself, then the validators: a failure
    with the proposers ends it without an error. *)
Definition to_consensus {M} `{!Signed M} (md : messageDeliver) (an : activeNodeInfos) (m : M) : go (list send * option deliver_error) :=
  msgBytes ← Codec.Marshal sg_schema m;
  s1 ← deliverSendCommon (peers_of md (RemoveIfExistString (md_nodeID md) (activeProposerIDs an))) ForwardPropose_Msg sg_type (default [] msgBytes);
  if negb (Send s1) then Ok ([s1], None)
  else
    s2 ← deliverSendCommon (peers_of md (activeValidatorIDs an)) FrowardValidate_Msg sg_type (default [] msgBytes);
    Ok ([s1; s2], sent s2).

(** The message is the proposer's cached one: it is returned with its signature. *)
Definition deliverProposeMessage (md : messageDeliver) (an : activeNodeInfos) (msg : ProposeMessage.t) :
    go (list send * ProposeMessage.t * option deliver_error) :=
  match sign_dkg md msg with
  | inl e => Ok ([], msg, Some e)
  | inr msg => '(ss, e) ← to_consensus md an msg; Ok (ss, msg, e)
  end.

Definition deliverBestProposeMessage (md : messageDeliver) (an : activeNodeInfos) (msg : BestProposeMessage.t) :
    go (list send * option deliver_error) :=
  match sign_key md msg with
  | inl e => Ok ([], Some e)
  | inr msg => to_consensus md an msg
  end.

Definition deliverVoteMessage (md : messageDeliver) (msg : VoteMessage.t) (proposer : bytes) : go (list send * option deliver_error) :=
  match sign_dkg md msg with
  | inl e => Ok ([], Some e)
  | inr msg => send_to (Some [proposer]) ForwardPropose_Msg msg
  end.

(** ** Commit messages *)

Definition set_RefIndex (i : Z) '(CommitMessage.mk a b c d _ f g h j k : CommitMessage.t) : CommitMessage.t :=
  CommitMessage.mk a b c d i f g h j k.

(** What a decoder has filled in when it stops with an error, which is not
    looked at. *)
Variables (partial_head : bytes -> BlockHead.t) (partial_chunk : bytes -> BlockHeadChunk.t).

Definition read_or {M} (sc : Wire.schema M) (partial : bytes -> M) (b : bytes) : go M :=
  match Wire.Unmarshal sc b (Wire.s_zero sc) with Ok m => Ok m | Err _ => Ok (partial b) | Panic => Panic end.

(** The executors of the domains of the chunks, one call each; without chunks
    there is one call to whoever the network knows. *)
Fixpoint chunk_peers (an : activeNodeInfos) (chunks : list bytes) : go (list (option (list bytes))) :=
  match chunks with
  | [] => Ok []
  | b :: chunks =>
      c ← read_or BlockHeadChunk.desc partial_chunk b;
      rest ← chunk_peers an chunks;
      Ok (Some (getActiveExecutorIDsOfDomain an (BlockHeadChunk.DomainID c)) :: rest)
  end.

Definition executor_peers (md : messageDeliver) (an : activeNodeInfos) (blockHead : bytes) : go (list (option (list bytes))) :=
  if decide (strategy md = DeliverStrategy_Specifically) then
    bh ← read_or BlockHead.desc partial_head blockHead;
    match BlockHead.HeadChunks bh with [] => Ok [None] | chunks => chunk_peers an chunks end
  else Ok [None].

(** Two goroutines share the message: the first writes the index and encodes
    the message for each call to executors, the second writes the original
    index and encodes the message for the others.  [wr] and [rd] are the
    numbers of steps of the first before the write and before the encoding of
    the second. *)
Definition seen_by_executors (wr : nat) (origin : Z) (i : nat) : Z :=
  if decide (wr = 2 * i + 1)%nat then origin else u32 (Z.of_nat i).

Definition seen_by_others (n wr rd : nat) (origin : Z) : Z :=
  match last (List.filter (fun i => (wr <=? 2 * i)%nat && (2 * i <? rd)%nat) (seq 0 n)) with
  | Some i => u32 (Z.of_nat i)
  | None => origin
  end.

Fixpoint executor_sends (wr : nat) (msg : CommitMessage.t) (i : nat) (peers : list (option (list bytes))) : go (list send) :=
  match peers with
  | [] => Ok []
  | p :: peers =>
      msgBytes ← Codec.Marshal CommitMessage.desc (set_RefIndex (seen_by_executors wr (CommitMessage.RefIndex msg) i) msg);
      s ← deliverSendCommon p ForwardExecute_Msg ConsensusMessage_Commit (default [] msgBytes);
      rest ← executor_sends wr msg (Datatypes.S i) peers;
      Ok (s :: rest)
  end.

(** The calls to executors, to the other proposers and to the validators; an
    error of a call is logged only. *)
Definition deliverCommitMessage (wr rd : nat) (md : messageDeliver) (an : activeNodeInfos) (msg : CommitMessage.t) :
    go (list send * option deliver_error) :=
  match sign_key md msg with
  | inl e => Ok ([], Some e)
  | inr msg =>
      exeCtxs ← executor_peers md an (CommitMessage.BlockHead msg);
      toExe ← executor_sends wr msg 0 exeCtxs;
      msgBytes ← Codec.Marshal CommitMessage.desc (set_RefIndex (seen_by_others (length exeCtxs) wr rd (CommitMessage.RefIndex msg)) msg);
      s1 ← deliverSendCommon (peers_of md (RemoveIfExistString (md_nodeID md) (activeProposerIDs an))) ForwardPropose_Msg
        ConsensusMessage_Commit (default [] msgBytes);
      s2 ← deliverSendCommon (peers_of md (activeValidatorIDs an)) FrowardValidate_Msg ConsensusMessage_Commit (default [] msgBytes);
      Ok (toExe ++ [s1; s2], None)
  end.

(** ** Requests with an answer *)

(** network/message: what comes back from a peer. *)
Record ResponseData := mkResponse { r_Data : option bytes; r_ErrMsg : bytes }.

Definition j_ResponseData : JsonCodec.codec ResponseData :=
  JsonCodec.j_struct (mkResponse None [])
    [JsonCodec.fld "Data" JsonCodec.j_bytes r_Data (fun x r => mkResponse x (r_ErrMsg r));
     JsonCodec.fld "ErrMsg" JsonCodec.j_string r_ErrMsg (fun x r => mkResponse (r_Data r) x)].

(** The data of a peer's answer that is no error; the texts of errors are for
    the log.  [None] for an answer is a call that failed. *)
Definition response_data (r : option bytes) : go (option (option bytes)) :=
  match r with
  | None => Ok None
  | Some b =>
      match JsonCodec.Unmarshal j_ResponseData b (JsonCodec.zero j_ResponseData) with
      | Err _ => Ok None
      | Ok d => Ok (if bool_decide (r_ErrMsg d <> []) then None else Some (r_Data d))
      | Panic => Panic
      end
  end.

Fixpoint ParseSendResp (resps : list (option bytes)) : go (list bytes) :=
  match resps with
  | [] => Ok []
  | r :: resps =>
      d ← response_data r;
      rest ← ParseSendResp resps;
      Ok (match d with Some d => default [] d :: rest | None => rest end)
  end.

(** What the peers answer to a call; [None] when it fails. *)
Variable SendWithResponse : send -> option (list (option bytes)).

Definition deliverSendWithRespCommon (peers : option (list bytes)) (protocolID : bytes) (msgType : Z) (dataBytes : bytes) :
    go (send * (deliver_error + list bytes)) :=
  s ← deliverSendCommon peers protocolID msgType dataBytes;
  match SendWithResponse s with
  | None => Ok (s, inl ESend)
  | Some resps =>
      rtnBytes ← ParseSendResp resps;
      Ok (s, match rtnBytes with [] => inl EResponse | _ => inr rtnBytes end)
  end.

Definition TxsResultValidity_MaxExecutor : Z := 2.

(** The peers at the random indexes; fewer indexes than asked for, or an index
    beyond the peers, is out of range. *)
Fixpoint pick_peers (count : nat) (peerIDs : list bytes) (randIndexs : list Z) : go (list bytes) :=
  match count with
  | O => Ok []
  | Datatypes.S count =>
      match randIndexs with
      | [] => Panic
      | i :: randIndexs =>
          match peerIDs !! Z.to_nat i with
          | None => Panic
          | Some p => rest ← pick_peers count peerIDs randIndexs; Ok (p :: rest)
          end
      end
  end.

(** [draws] are the random numbers; [None] when the loop that looks for
    different ones needs more. *)
Definition deliverResultValidateReqMessage (draws : list Z) (md : messageDeliver) (an : activeNodeInfos) (domainID : bytes)
    (msg : ExeResultValidateReqMessage.t) : go (option (list send * (deliver_error + ExeResultValidateRespMessage.t))) :=
  randExecutorID ←
    (if decide (strategy md = DeliverStrategy_Specifically) then
       let peerIDs := getActiveExecutorIDsOfDomain an domainID in
       match GenerateRandomNumber draws 0 (Z.of_nat (length peerIDs)) TxsResultValidity_MaxExecutor with
       | None => Ok None
       | Some randIndexs => ids ← pick_peers (Z.to_nat TxsResultValidity_MaxExecutor) peerIDs randIndexs; Ok (Some (Some ids))
       end
     else Ok (Some None));
  match randExecutorID with
  | None => Ok None
  | Some peers =>
      match sign_key md msg with
      | inl e => Ok (Some ([], inl e))
      | inr msg =>
          msgBytes ← Codec.Marshal sg_schema msg;
          '(s, resp) ← deliverSendWithRespCommon peers ForwardExecute_SyncMsg ConsensusMessage_ExeRSValidateReq (default [] msgBytes);
          match resp with
          | inl e => Ok (Some ([s], inl e))
          | inr [] => Ok (Some ([s], inl EResponse))
          | inr (b :: _) =>
              match Codec.Unmarshal ExeResultValidateRespMessage.desc b (Wire.s_zero ExeResultValidateRespMessage.desc) with
              | Ok m => Ok (Some ([s], inr m))
              | Err e => Ok (Some ([s], inl (EUnmarshal e)))
              | Panic => Panic
              end
          end
      end
  end.

(** The answer to a request, in which an error is reported by its text. *)
Definition deliverResultValidateRespMessage (errText : deliver_error -> bytes) (md : messageDeliver) (msg : ExeResultValidateRespMessage.t)
    (err : option bytes) : go bytes :=
  let respond (data : option bytes) (text : bytes) := Ok (JsonCodec.Marshal (JsonCodec.j_ptr j_ResponseData) (Some (mkResponse data text))) in
  match err with
  | Some text => respond None text
  | None =>
      let '(ExeResultValidateRespMessage.mk a b c d _ _ _ h i j k) := msg in
      let msg sig pk := ExeResultValidateRespMessage.mk a b c d (md_nodeID md) sig pk h i j k in
      match Sign (priKey md) (TxAndResultProofsData (msg [] [])) with
      | None => respond None (errText ESign)
      | Some sig =>
          match ConvertToPublic (priKey md) with
          | None => respond None (errText EPublicKey)
          | Some pk => msgBytes ← Codec.Marshal ExeResultValidateRespMessage.desc (msg sig pk); respond msgBytes []
          end
      end
  end.
End Deliver.
End Deliver.

(** * message_deliver_dkg.go *)
Module DeliverDKG.
Import Deliver Composition.

Section Deliver.
Context {L S K : Type} `{!IStateStore S, !ILedger L S}.
Variables (Sign : K -> bytes -> option bytes) (ConvertToPublic : K -> option bytes) (Send : send -> bool).

Record dkgMessageDeliver := mkDkgDeliver {
  dd_priKey : K;
  dd_strategy : DeliverStrategy;
  propCandNodeIDs : list bytes;
  valCandNodeIDs : list bytes;
}.

Definition updateCandNodeIDs (md : dkgMessageDeliver) (prop val : list bytes) : dkgMessageDeliver :=
  mkDkgDeliver (dd_priKey md) (dd_strategy md) prop val.

Definition dkg_sign {M} `{!Signed M} (md : dkgMessageDeliver) (m : M) : deliver_error + M :=
  match Sign (dd_priKey md) (sg_data m) with
  | None => inl ESign
  | Some sig => match ConvertToPublic (dd_priKey md) with None => inl EPublicKey | Some pk => inr (set_sign sig pk m) end
  end.

Definition dkg_peers (md : dkgMessageDeliver) (ids : list bytes) : option (list bytes) :=
  if decide (dd_strategy md = DeliverStrategy_Specifically) then Some ids else None.

(** The call to the validators has the peers of the proposers. *)
Definition deliverDKGPartPubKeyMessage (md : dkgMessageDeliver) (msg : DKGPartPubKeyMessage.t) : go (list send * option deliver_error) :=
  match dkg_sign md msg with
  | inl e => Ok ([], Some e)
  | inr msg =>
      '(ss1, _) ← send_to Send (dkg_peers md (propCandNodeIDs md)) ForwardPropose_Msg msg;
      '(ss2, e) ← send_to Send (dkg_peers md (propCandNodeIDs md)) FrowardValidate_Msg msg;
      Ok (ss1 ++ ss2, e)
  end.

(** The protocol is that of the node's role; a node that is not known is
    dereferenced. *)
Definition deliverDKGDealMessage (md : dkgMessageDeliver) (nodeID : bytes) (msg : DKGDealMessage.t) (l : L) (w : world S) :
    go (L * world S * list send * option deliver_error) :=
  '(l, cs) ← CreateCompositionStateReadonly l;
  '(w', nodeInfo) ← on_store (Node.GetNode nodeID)
     (mkWorld (cs_store cs) (w_ledger w) (latestBlockMap w) (latestBlockRSMap w) (latestEpochMap w));
  let w := mkWorld (w_store w) (w_ledger w') (latestBlockMap w') (latestBlockRSMap w') (latestEpochMap w') in
  match nodeInfo with
  | inl e => Ok (l, w, [], Some (EState e))
  | inr None => Panic
  | inr (Some nodeInfo) =>
      let forward protocol :=
        match dkg_sign md msg with
        | inl e => Ok (l, w, [], Some e)
        | inr msg => '(ss, e) ← send_to Send (dkg_peers md [nodeID]) protocol msg; Ok (l, w, ss, e)
        end in
      if has_role (Role nodeInfo) NodeRole_Proposer then forward ForwardPropose_Msg
      else if has_role (Role nodeInfo) NodeRole_Validator then forward FrowardValidate_Msg
      else Ok (l, w, [], Some EInvalidRole)
  end.

(** Both calls are made when the peers are named, none otherwise. *)
Definition to_candidates {M} `{!Signed M} (md : dkgMessageDeliver) (msg : M) : go (list send * option deliver_error) :=
  match dkg_sign md msg with
  | inl e => Ok ([], Some e)
  | inr msg =>
      if decide (dd_strategy md = DeliverStrategy_Specifically) then
        '(ss1, _) ← send_to Send (Some (propCandNodeIDs md)) ForwardPropose_Msg msg;
        '(ss2, e) ← send_to Send (Some (valCandNodeIDs md)) FrowardValidate_Msg msg;
        Ok (ss1 ++ ss2, e)
      else Ok ([], None)
  end.

Definition deliverDKGDealRespMessage (md : dkgMessageDeliver) (msg : DKGDealRespMessage.t) : go (list send * option deliver_error) :=
  to_candidates md msg.

Definition deliverDKGFinishedMessage (md : dkgMessageDeliver) (msg : DKGFinishedMessage.t) : go (list send * option deliver_error) :=
  to_candidates md msg.
End Deliver.
End DeliverDKG.

(** * handler.go and the dispatch of consensus.go *)
Module Dispatch.
Import ActiveNodes.

(** The channel a message goes to. *)
Inductive inbox :=
| ToCSDomainSelected (m : ConsensusDomainSelectedMessage.t)
| ToPreparePackedMsgExe (m : PreparePackedMessageExe.t)
| ToPreparePackedMsgExeIndic (m : PreparePackedMessageExeIndication.t)
| ToPreparePackedMsgProp (m : PreparePackedMessageProp.t)
| ToProposeMsg (m : ProposeMessage.t)
| ToBestProposeMsg (m : BestProposeMessage.t)
| ToVoteMsg (m : VoteMessage.t)
| ToCommitMsg (m : CommitMessage.t)
| ToDeal (m : DKGDealMessage.t)
| ToDealResp (m : DKGDealRespMessage.t)
| ToFinished (m : DKGFinishedMessage.t).

(** What dispatching some bytes comes to: a message is queued, discarded or
    answered; bytes without an envelope are refused; otherwise the goroutine
    ends without a signal, and the actor waits until its context is done. *)
Inductive handled :=
| Queued (i : inbox)
| Discarded
| Answer (m : ExeResultValidateReqMessage.t)
| Refused
| TimedOut.

Section Handler.
Variable id : bytes.
Variable an : activeNodeInfos.

Definition ProcessPreparePackedMsgExe (m : PreparePackedMessageExe.t) : handled :=
  if (IsContainString id (activeExecutorIDs an)).1 then Queued (ToPreparePackedMsgExe m) else Discarded.

Definition ProcessPreparePackedMsgExeIndication (m : PreparePackedMessageExeIndication.t) : handled :=
  if (IsContainString id (activeExecutorIDs an)).1 then Queued (ToPreparePackedMsgExeIndic m) else Discarded.

Definition ProcessPreparePackedMsgProp (m : PreparePackedMessageProp.t) : handled :=
  if (IsContainString id (activeProposerIDs an)).1 then Queued (ToPreparePackedMsgProp m) else Discarded.

Definition decode_then {M} `{!Signed M} (data : bytes) (process : M -> handled) : go handled :=
  match Codec.Unmarshal sg_schema data (Wire.s_zero sg_schema) with
  | Ok m => Ok (process m)
  | Err _ => Ok TimedOut
  | Panic => Panic
  end.

(** There is no case for the public keys of participants. *)
Definition dispatch (data : bytes) : go handled :=
  match Codec.Unmarshal ConsensusMessage.desc data (Wire.s_zero ConsensusMessage.desc) with
  | Err _ => Ok Refused
  | Panic => Panic
  | Ok consMsg =>
      let d := ConsensusMessage.Data consMsg in
      let t := ConsensusMessage.MsgType consMsg in
      if t =? ConsensusMessage_CSDomainSel then decode_then d (fun m => Queued (ToCSDomainSelected m))
      else if t =? ConsensusMessage_PrepareExe then decode_then d ProcessPreparePackedMsgExe
      else if t =? ConsensusMessage_PrepareExeIndic then decode_then d ProcessPreparePackedMsgExeIndication
      else if t =? ConsensusMessage_PrepareProp then decode_then d ProcessPreparePackedMsgProp
      else if t =? ConsensusMessage_Propose then decode_then d (fun m => Queued (ToProposeMsg m))
      else if t =? ConsensusMessage_ExeRSValidateReq then decode_then d Answer
      else if t =? ConsensusMessage_BestPropose then decode_then d (fun m => Queued (ToBestProposeMsg m))
      else if t =? ConsensusMessage_Vote then decode_then d (fun m => Queued (ToVoteMsg m))
      else if t =? ConsensusMessage_Commit then decode_then d (fun m => Queued (ToCommitMsg m))
      else if t =? ConsensusMessage_DKGDeal then decode_then d (fun m => Queued (ToDeal m))
      else if t =? ConsensusMessage_DKGDealResp then decode_then d (fun m => Queued (ToDealResp m))
      else if t =? ConsensusMessage_DKGFinished then decode_then d (fun m => Queued (ToFinished m))
      else Ok TimedOut
  end.
End Handler.
End Dispatch.
