(* ===== verification/MessageDeliverSpec.v ===== *)
(** Correctness of the messages between consensus nodes: what a node delivers
    is what the nodes it is sent to take up, and with which signature. *)
From Stdlib Require Import ZArith Lia Strings.Byte.
From stdpp Require Import base gmap list strings sorting.
From S2P Require Import Prelude Common Backend Wire TxMessages ChainMessages ConsMessages TxBasic Text Json JsonCodec StateStore StateBase StateNode StateChain Composition RoleSelector EpochService MessageDeliver.
Import Util Types.
#[local] Open Scope Z_scope.

Module DeliverSpec.
Import ActiveNodes Deliver Dispatch.

(** ** Envelopes *)

Definition envelope {M} `{!Signed M} (m : M) : ConsensusMessage.t :=
  ConsensusMessage.mk sg_type (Wire.enc sg_schema _ m) [].

(** A message that fits on the wire, alone and in its envelope. *)
Definition mailable {M} `{!Signed M} (m : M) : Prop :=
  Tx.well_formed sg_schema m /\ Tx.well_formed ConsensusMessage.desc (envelope m).

(** What a node makes of a message of some type. *)
Class Arrives (M : Type) `{!Signed M} := {
  taken_up : bytes -> activeNodeInfos -> M -> handled;
  dispatch_type id an data m : Codec.Unmarshal ConsensusMessage.desc data (Wire.s_zero ConsensusMessage.desc) = Ok m ->
    ConsensusMessage.MsgType m = sg_type -> dispatch id an data = decode_then (ConsensusMessage.Data m) (taken_up id an);
}.

Ltac by_type f := refine {| taken_up := f |}; intros id an data m H Ht; unfold dispatch; rewrite H, Ht; reflexivity.

#[export] Instance arrives_CSDomainSel : Arrives ConsensusDomainSelectedMessage.t.
Proof. by_type (fun (_ : bytes) (_ : activeNodeInfos) m => Queued (ToCSDomainSelected m)). Defined.

#[export] Instance arrives_PrepareExe : Arrives PreparePackedMessageExe.t.
Proof. by_type ProcessPreparePackedMsgExe. Defined.

#[export] Instance arrives_PrepareExeIndic : Arrives PreparePackedMessageExeIndication.t.
Proof. by_type ProcessPreparePackedMsgExeIndication. Defined.

#[export] Instance arrives_PrepareProp : Arrives PreparePackedMessageProp.t.
Proof. by_type ProcessPreparePackedMsgProp. Defined.

#[export] Instance arrives_Propose : Arrives ProposeMessage.t.
Proof. by_type (fun (_ : bytes) (_ : activeNodeInfos) m => Queued (ToProposeMsg m)). Defined.

#[export] Instance arrives_ExeRSValidateReq : Arrives ExeResultValidateReqMessage.t.
Proof. by_type (fun (_ : bytes) (_ : activeNodeInfos) m => Answer m). Defined.

#[export] Instance arrives_BestPropose : Arrives BestProposeMessage.t.
Proof. by_type (fun (_ : bytes) (_ : activeNodeInfos) m => Queued (ToBestProposeMsg m)). Defined.

#[export] Instance arrives_Vote : Arrives VoteMessage.t.
Proof. by_type (fun (_ : bytes) (_ : activeNodeInfos) m => Queued (ToVoteMsg m)). Defined.

#[export] Instance arrives_Commit : Arrives CommitMessage.t.
Proof. by_type (fun (_ : bytes) (_ : activeNodeInfos) m => Queued (ToCommitMsg m)). Defined.

#[export] Instance arrives_DKGDeal : Arrives DKGDealMessage.t.
Proof. by_type (fun (_ : bytes) (_ : activeNodeInfos) m => Queued (ToDeal m)). Defined.

#[export] Instance arrives_DKGDealResp : Arrives DKGDealRespMessage.t.
Proof. by_type (fun (_ : bytes) (_ : activeNodeInfos) m => Queued (ToDealResp m)). Defined.

#[export] Instance arrives_DKGFinished : Arrives DKGFinishedMessage.t.
Proof. by_type (fun (_ : bytes) (_ : activeNodeInfos) m => Queued (ToFinished m)). Defined.

(** The public keys of participants are sent, but no node takes them up. *)
Lemma part_pub_key_times_out id an m : mailable (M := DKGPartPubKeyMessage.t) m ->
  dispatch id an (Wire.enc ConsensusMessage.desc _ (envelope m)) = Ok TimedOut.
Proof.
  intros [_ He]. destruct (Tx.codec_roundtrip ConsensusMessage.desc _ He) as (_ & _ & H). unfold dispatch. by rewrite H.
Qed.

(** The call that carries a message. *)
Definition call {M} `{!Signed M} (peers : option (list bytes)) (protocolID : bytes) (m : M) : send :=
  mkSend peers protocolID MOD_NAME (Wire.enc ConsensusMessage.desc _ (envelope m)).

Lemma marshal_message {M} `{!Signed M} (m : M) : mailable m -> Codec.Marshal sg_schema m = Ok (Some (Wire.enc sg_schema _ m)).
Proof. intros [H _]. by destruct (Tx.codec_roundtrip sg_schema m H) as (E & _). Qed.

Lemma deliverSendCommon_call {M} `{!Signed M} peers protocolID (m : M) : mailable m ->
  deliverSendCommon peers protocolID sg_type (Wire.enc sg_schema _ m) = Ok (call peers protocolID m).
Proof.
  intros [_ He]. destruct (Tx.codec_roundtrip ConsensusMessage.desc _ He) as (E & _). unfold deliverSendCommon.
  fold (envelope m). by rewrite E.
Qed.

Lemma dispatch_call {M} `{!Signed M, !Arrives M} peers protocolID (m : M) id an : mailable m ->
  dispatch id an (s_data (call peers protocolID m)) = Ok (taken_up id an m).
Proof.
  intros [Hm He]. destruct (Tx.codec_roundtrip ConsensusMessage.desc _ He) as (_ & _ & E).
  cbn [call s_data]. rewrite (dispatch_type id an _ _ (E _)) by done. unfold decode_then.
  destruct (Tx.codec_roundtrip sg_schema m Hm) as (_ & _ & Em). cbn [ConsensusMessage.Data envelope]. by rewrite Em.
Qed.

Section Deliver.
Context {D K : Type} `{!IDKGBls D}.
Variables (Sign : K -> bytes -> option bytes) (ConvertToPublic : K -> option bytes) (Send : send -> bool).

Lemma send_to_call {M} `{!Signed M} peers protocolID (m : M) : mailable m ->
  send_to Send peers protocolID m = Ok ([call peers protocolID m], sent Send (call peers protocolID m)).
Proof.
  intros H. unfold send_to. rewrite marshal_message, Ok_bind, default_Some by done.
  rewrite deliverSendCommon_call by done. by rewrite Ok_bind.
Qed.

(** The two calls to the consensus nodes; the second is made when the first
    was accepted. *)
Lemma to_consensus_calls {M} `{!Signed M} (md : messageDeliver (D := D)) an (m : M) : mailable m ->
  let s1 := call (peers_of md (filter (fun id => id <> md_nodeID md) (activeProposerIDs an))) ForwardPropose_Msg m in
  let s2 := call (peers_of md (activeValidatorIDs an)) FrowardValidate_Msg m in
  to_consensus (K := K) Send md an m = Ok (if Send s1 then ([s1; s2], sent Send s2) else ([s1], None)).
Proof.
  intros H s1 s2. unfold to_consensus. rewrite marshal_message, Ok_bind, default_Some by done.
  rewrite RemoveIfExistString_filter, !deliverSendCommon_call by done. run_Ok. fold s1 s2. by destruct (Send s1).
Qed.

(** A vote reaches the proposer as it was signed: with threshold keys, the
    one call goes to the proposer alone over the proposers' protocol, and any
    node that receives it queues the vote with the signature over the block
    head and the key.  The delivery fails exactly when the network does. *)
Theorem vote_arrives (md : messageDeliver (D := D) (K := K)) msg proposer d sig pk : md_dkgBls md = Some d ->
  dkg_Sign d (VoteMessage.BlockHead msg) = Some (sig, pk) -> mailable (set_sign sig pk msg) ->
  exists s, deliverVoteMessage Send md msg proposer = Ok ([s], if Send s then None else Some ESend)
  /\ s_peers s = Some [proposer] /\ s_protocol s = ForwardPropose_Msg /\ s_module s = MOD_NAME
  /\ forall id an, dispatch id an (s_data s) = Ok (Queued (ToVoteMsg (set_sign sig pk msg))).
Proof.
  intros Hd Hs Hm. exists (call (Some [proposer]) ForwardPropose_Msg (set_sign sig pk msg)).
  unfold deliverVoteMessage, sign_dkg. rewrite Hd. change (sg_data msg) with (VoteMessage.BlockHead msg). rewrite Hs.
  rewrite send_to_call by done. split_and!; try done. intros id an. exact (dispatch_call _ _ (set_sign sig pk msg) id an Hm).
Qed.

(** A proposal reaches the other proposers and the validators: it is sent,
    signed with the threshold keys, to the active proposers but the node itself
    and then to the active validators, and every receiver queues it as it was
    signed.  When the network refuses the call to the proposers, no validator
    is sent the proposal, and yet no error is reported. *)
Theorem proposal_arrives (md : messageDeliver (D := D) (K := K)) an msg d sig pk : md_dkgBls md = Some d ->
  dkg_Sign d (ProposeMessage.BlockHead msg) = Some (sig, pk) -> mailable (set_sign sig pk msg) ->
  strategy md = DeliverStrategy_Specifically ->
  exists s1 s2, s_peers s1 = Some (filter (fun id => id <> md_nodeID md) (activeProposerIDs an)) /\ s_protocol s1 = ForwardPropose_Msg
  /\ s_peers s2 = Some (activeValidatorIDs an) /\ s_protocol s2 = FrowardValidate_Msg
  /\ deliverProposeMessage Send md an msg =
       Ok (if Send s1 then ([s1; s2], set_sign sig pk msg, if Send s2 then None else Some ESend) else ([s1], set_sign sig pk msg, None))
  /\ forall id an', dispatch id an' (s_data s1) = Ok (Queued (ToProposeMsg (set_sign sig pk msg)))
       /\ dispatch id an' (s_data s2) = Ok (Queued (ToProposeMsg (set_sign sig pk msg))).
Proof.
  intros Hd Hs Hm Hst. unfold deliverProposeMessage, sign_dkg. rewrite Hd.
  change (sg_data msg) with (ProposeMessage.BlockHead msg). rewrite Hs, to_consensus_calls by done. unfold peers_of. rewrite Hst.
  rewrite !decide_True by done. set (s1 := call _ ForwardPropose_Msg _). set (s2 := call _ FrowardValidate_Msg _). exists s1, s2.
  split_and!; try done; [rewrite Ok_bind; by destruct (Send s1)|].
  intros id an'. split; exact (dispatch_call _ _ (set_sign sig pk msg) id an' Hm).
Qed.

(** ** Commits *)

Variables (partial_head : bytes -> BlockHead.t) (partial_chunk : bytes -> BlockHeadChunk.t).

Lemma read_or_enc {M} (sc : Wire.schema M) `{!Wire.mlaws sc} (partial : bytes -> M) m : Tx.well_formed sc m ->
  read_or sc partial (Wire.enc sc _ m) = Ok m.
Proof.
  intros Hm. destruct (Tx.codec_roundtrip sc m Hm) as (_ & _ & E). specialize (E m). unfold Codec.Unmarshal in E. unfold read_or. by rewrite E.
Qed.

Lemma chunk_peers_spec an chunks : Forall (Tx.well_formed BlockHeadChunk.desc) chunks ->
  chunk_peers partial_chunk an (Wire.enc BlockHeadChunk.desc _ <$> chunks)
  = Ok ((fun c => Some (getActiveExecutorIDsOfDomain an (BlockHeadChunk.DomainID c))) <$> chunks).
Proof.
  intros H. induction H as [|c chunks Hc _ IH]; [done|]. rewrite !fmap_cons. cbn [chunk_peers].
  rewrite read_or_enc, Ok_bind by done. by rewrite IH, Ok_bind.
Qed.

(** The indexes that a commit may carry. *)
Definition indexes (n : nat) (origin : Z) : list Z := origin :: ((fun i => u32 (Z.of_nat i)) <$> seq 0 n).

Lemma seen_by_executors_index n wr origin i : (i < n)%nat -> seen_by_executors wr origin i ∈ indexes n origin.
Proof.
  intros Hi. unfold seen_by_executors. destruct (decide _); [left|]. right. apply list_elem_of_fmap. exists i. split; [done|].
  apply elem_of_seq. lia.
Qed.

Lemma seen_by_others_index n wr rd origin : seen_by_others n wr rd origin ∈ indexes n origin.
Proof.
  unfold seen_by_others. destruct (last _) as [i|] eqn:E; [|left]. right. apply list_elem_of_fmap. exists i. split; [done|].
  apply last_Some_elem_of, list_elem_of_In, filter_In in E as [E _]. by apply list_elem_of_In.
Qed.

Lemma commit_call m : mailable (M := CommitMessage.t) m ->
  Codec.Marshal CommitMessage.desc m = Ok (Some (Wire.enc CommitMessage.desc _ m))
  /\ forall peers protocolID, deliverSendCommon peers protocolID ConsensusMessage_Commit (Wire.enc CommitMessage.desc _ m) = Ok (call peers protocolID m).
Proof. intros Hm. exact (conj (marshal_message m Hm) (fun peers protocolID => deliverSendCommon_call peers protocolID m Hm)). Qed.

Lemma executor_sends_spec wr msg peers i : (forall j, j ∈ indexes (i + length peers) (CommitMessage.RefIndex msg) -> mailable (set_RefIndex j msg)) ->
  executor_sends wr msg i peers =
    Ok (imap (fun j p => call p ForwardExecute_Msg (set_RefIndex (seen_by_executors wr (CommitMessage.RefIndex msg) (i + j)) msg)) peers).
Proof.
  revert i. induction peers as [|p peers IH]; intros i Hm; [done|]. cbn [executor_sends imap length] in *.
  assert (Hi : mailable (set_RefIndex (seen_by_executors wr (CommitMessage.RefIndex msg) i) msg))
    by (apply Hm, seen_by_executors_index; lia).
  destruct (commit_call _ Hi) as [E1 E2]. rewrite E1, Ok_bind, default_Some, E2, Ok_bind. rewrite IH by (by rewrite Nat.add_succ_comm).
  rewrite Ok_bind, Nat.add_0_r.
  do 2 f_equal. apply imap_ext. intros j q _. cbn. by rewrite Nat.add_succ_r.
Qed.

(** A commit reaches the executors of every domain of the block: the i-th
    call goes to the active executors of the domain of the i-th chunk, and its
    receivers queue the signed commit with index i, unless the goroutine for
    the other nodes writes the original index between the write and the
    encoding for that call, in which case they queue the original index.  The
    last two calls go to the other proposers and to the validators. *)
Theorem commit_arrives wr rd (md : messageDeliver (D := D) (K := K)) an msg bh chunks sig pk : strategy md = DeliverStrategy_Specifically ->
  Sign (priKey md) (CommitMessage.BlockHead msg) = Some sig -> ConvertToPublic (priKey md) = Some pk ->
  CommitMessage.BlockHead msg = Wire.enc BlockHead.desc _ bh -> Tx.well_formed BlockHead.desc bh ->
  BlockHead.HeadChunks bh = Wire.enc BlockHeadChunk.desc _ <$> chunks -> Forall (Tx.well_formed BlockHeadChunk.desc) chunks ->
  chunks <> [] -> (forall j, j ∈ indexes (length chunks) (CommitMessage.RefIndex msg) -> mailable (set_RefIndex j (set_sign sig pk msg))) ->
  exists ss s1 s2, deliverCommitMessage Sign ConvertToPublic partial_head partial_chunk wr rd md an msg = Ok (ss ++ [s1; s2], None)
  /\ length ss = length chunks
  /\ (forall i c, chunks !! i = Some c -> exists s, ss !! i = Some s
        /\ s_peers s = Some (getActiveExecutorIDsOfDomain an (BlockHeadChunk.DomainID c)) /\ s_protocol s = ForwardExecute_Msg
        /\ forall id an', dispatch id an' (s_data s) = Ok (Queued (ToCommitMsg (set_RefIndex
             (if decide (wr = 2 * i + 1)%nat then CommitMessage.RefIndex msg else u32 (Z.of_nat i)) (set_sign sig pk msg)))))
  /\ s_peers s1 = Some (filter (fun id => id <> md_nodeID md) (activeProposerIDs an)) /\ s_peers s2 = Some (activeValidatorIDs an)
  /\ forall id an', dispatch id an' (s_data s1) = dispatch id an' (s_data s2)
       /\ dispatch id an' (s_data s1) = Ok (Queued (ToCommitMsg (set_RefIndex
            (seen_by_others (length chunks) wr rd (CommitMessage.RefIndex msg)) (set_sign sig pk msg)))).
Proof.
  intros Hst Hs Hpk Hb Hbh Hc Hwf Hne Hm. set (m := set_sign sig pk msg) in *.
  assert (Hr : CommitMessage.RefIndex m = CommitMessage.RefIndex msg) by (unfold m; by destruct msg).
  assert (Hbm : CommitMessage.BlockHead m = CommitMessage.BlockHead msg) by (unfold m; by destruct msg).
  unfold deliverCommitMessage, sign_key. change (sg_data msg) with (CommitMessage.BlockHead msg). rewrite Hs, Hpk. fold m.
  assert (Hp : executor_peers partial_head partial_chunk md an (CommitMessage.BlockHead m)
    = Ok ((fun c => Some (getActiveExecutorIDsOfDomain an (BlockHeadChunk.DomainID c))) <$> chunks)).
  { unfold executor_peers. rewrite decide_True by done. rewrite Hbm, Hb, read_or_enc, Ok_bind, Hc by done.
    destruct chunks as [|c chunks]; [done|]. exact (chunk_peers_spec an _ Hwf). }
  rewrite Hp, Ok_bind. rewrite executor_sends_spec by (by rewrite length_fmap, Hr). rewrite Ok_bind, length_fmap, Hr.
  assert (Hi : mailable (set_RefIndex (seen_by_others (length chunks) wr rd (CommitMessage.RefIndex msg)) m))
    by apply Hm, seen_by_others_index.
  destruct (commit_call _ Hi) as [E1 E2]. rewrite E1, Ok_bind, default_Some, !E2, !Ok_bind. eexists _, _, _. split; [reflexivity|].
  rewrite length_imap, length_fmap. split; [done|]. unfold peers_of. rewrite !decide_True, RemoveIfExistString_filter by done.
  split_and!; [|done|done|].
  - intros i c Hci. rewrite list_lookup_imap, list_lookup_fmap, Hci. eexists. split; [reflexivity|]. split; [done|]. split; [done|].
    intros id an'. exact (dispatch_call _ _ (set_RefIndex (seen_by_executors wr (CommitMessage.RefIndex msg) i) m) id an'
      (Hm _ (seen_by_executors_index _ wr _ i (lookup_lt_Some _ _ _ Hci)))).
  - intros id an'. split; [done|]. exact (dispatch_call _ _ _ id an' Hi).
Qed.

(** ** Requests to executors *)

Import JsonCodec.

Definition response_ok (r : ResponseData) : Prop := JsonCodec.utf8 (r_ErrMsg r).

Lemma ResponseData_lawful : JsonCodec.lawful j_ResponseData response_ok 1.
Proof. change 1 with (1 + Z.max 0 0). unfold j_ResponseData. JsonCodec.solve_struct. Qed.

Lemma response_data_answer b :
  response_data (Some (JsonCodec.Marshal (JsonCodec.j_ptr j_ResponseData) (Some (mkResponse (Some b) [])))) = Ok (Some (Some b)).
Proof.
  unfold response_data. change (JsonCodec.Marshal (JsonCodec.j_ptr j_ResponseData) (Some (mkResponse (Some b) [])))
    with (JsonCodec.Marshal j_ResponseData (mkResponse (Some b) [])).
  rewrite (JsonCodec.Unmarshal_Marshal j_ResponseData response_ok 1); [done|apply ResponseData_lawful|done|]. constructor.
Qed.

Definition with_executor (id sig pk : bytes) '(ExeResultValidateRespMessage.mk a b c d _ _ _ h i j k : ExeResultValidateRespMessage.t) :
    ExeResultValidateRespMessage.t :=
  ExeResultValidateRespMessage.mk a b c d id sig pk h i j k.

Lemma TxAndResultProofsData_with id sig pk m : TxAndResultProofsData (with_executor id sig pk m) = TxAndResultProofsData m.
Proof. by destruct m. Qed.

(** An executor's answer without an error is the message with its own id and
    signature. *)
Lemma answer_data errText (md : messageDeliver (D := D) (K := K)) resp sig pk :
  Sign (priKey md) (TxAndResultProofsData resp) = Some sig -> ConvertToPublic (priKey md) = Some pk ->
  Tx.well_formed ExeResultValidateRespMessage.desc (with_executor (md_nodeID md) sig pk resp) ->
  exists b, deliverResultValidateRespMessage Sign ConvertToPublic errText md resp None = Ok b
  /\ response_data (Some b) = Ok (Some (Some (Wire.enc ExeResultValidateRespMessage.desc _ (with_executor (md_nodeID md) sig pk resp)))).
Proof.
  intros Hs Hp Hw. unfold deliverResultValidateRespMessage. destruct resp as [a b c d ex sg pb h i j k].
  change (TxAndResultProofsData (ExeResultValidateRespMessage.mk a b c d (md_nodeID md) [] [] h i j k))
    with (TxAndResultProofsData (ExeResultValidateRespMessage.mk a b c d ex sg pb h i j k)). rewrite Hs, Hp.
  destruct (Tx.codec_roundtrip _ _ Hw) as (E & _). cbn [with_executor] in *. rewrite E, Ok_bind.
  eexists. split; [reflexivity|]. apply response_data_answer.
Qed.

Variable SendWithResponse : send -> option (list (option bytes)).

Lemma ParseSendResp_first fails b rest data : Forall (fun r => response_data r = Ok None) fails ->
  response_data (Some b) = Ok (Some (Some data)) -> Forall (fun r => exists d, response_data r = Ok d) rest ->
  exists more, ParseSendResp (fails ++ Some b :: rest) = Ok (data :: more).
Proof.
  intros Hf Hb Hr. assert (exists more, ParseSendResp rest = Ok more) as [more E].
  { induction Hr as [|r rest [d Hd] _ [more IH]]; [by eexists|]. cbn [ParseSendResp]. rewrite Hd, Ok_bind, IH, Ok_bind. by eexists. }
  induction Hf as [|f fails Hf _ [more' IH]].
  - exists more. cbn [app ParseSendResp]. by rewrite Hb, Ok_bind, E, Ok_bind.
  - exists more'. cbn [app ParseSendResp]. by rewrite Hf, Ok_bind, IH, Ok_bind.
Qed.

Lemma pick_peers_total (peerIDs : list bytes) idx : Forall (fun i => 0 <= i < Z.of_nat (length peerIDs)) idx ->
  exists ps, pick_peers (length idx) peerIDs idx = Ok ps /\ Forall2 (fun i p => peerIDs !! Z.to_nat i = Some p) idx ps.
Proof.
  intros H'. induction H' as [|i idx Hi _ (ps & E & Hps)]; [by exists []|].
  destruct (lookup_lt_is_Some_2 peerIDs (Z.to_nat i)) as [p Hp]; [lia|]. exists (p :: ps). cbn [length pick_peers].
  rewrite Hp, E, Ok_bind. by repeat constructor.
Qed.

(** A request for proofs is answered: it goes to two different executors of
    the domain, who take it up as it was signed, and the requester gets the
    first answer without an error, as the executor signed it.  A domain with
    fewer than two active executors crashes the requester. *)
Theorem result_request_answered draws (md mde : messageDeliver (D := D) (K := K)) an domainID msg sig pk resp sig' pk' errText answer
    fails rest : strategy md = DeliverStrategy_Specifically ->
  let ids := getActiveExecutorIDsOfDomain an domainID in
  Z.of_nat (length ids) < 2 ^ 63 -> Forall (fun d => 0 <= d < Z.of_nat (length ids)) draws ->
  Sign (priKey md) (TxAndResultHashsData msg) = Some sig -> ConvertToPublic (priKey md) = Some pk -> mailable (set_sign sig pk msg) ->
  Sign (priKey mde) (TxAndResultProofsData resp) = Some sig' -> ConvertToPublic (priKey mde) = Some pk' ->
  Tx.well_formed ExeResultValidateRespMessage.desc (with_executor (md_nodeID mde) sig' pk' resp) ->
  deliverResultValidateRespMessage Sign ConvertToPublic errText mde resp None = Ok answer ->
  Forall (fun r => response_data r = Ok None) fails -> Forall (fun r => exists d, response_data r = Ok d) rest ->
  (forall s, SendWithResponse s = Some (fails ++ Some answer :: rest)) ->
  let deliver := deliverResultValidateReqMessage Sign ConvertToPublic SendWithResponse draws md an domainID msg in
  ((length ids < 2)%nat -> deliver = Panic)
  /\ ((2 <= length ids)%nat -> is_Some (GenerateRandomNumber draws 0 (Z.of_nat (length ids)) TxsResultValidity_MaxExecutor) ->
      exists s i j p q, deliver = Ok (Some ([s], inr (with_executor (md_nodeID mde) sig' pk' resp)))
      /\ s_peers s = Some [p; q] /\ ids !! i = Some p /\ ids !! j = Some q /\ i <> j
      /\ forall id an', dispatch id an' (s_data s) = Ok (Answer (set_sign sig pk msg))).
Proof.
  intros Hst ids Hlen Hdr Hs Hp Hm Hs' Hp' Hw Ha Hf Hr Hnet deliver. unfold deliver, deliverResultValidateReqMessage. clear deliver.
  rewrite decide_True by done. fold ids. unfold GenerateRandomNumber.
  assert (Hn0 : (Z.of_nat (length ids) <? 0) = false) by (apply Z.ltb_ge; lia). rewrite Hn0. cbn [orb].
  rewrite i64_small by (unfold is_i64; lia). unfold TxsResultValidity_MaxExecutor. rewrite Z.sub_0_r. split.
  - intros Hl. destruct (Z.ltb_spec (Z.of_nat (length ids)) 2); [done|lia].
  - intros Hl. destruct (Z.ltb_spec (Z.of_nat (length ids)) 2); [lia|]. intros [idx Hidx]. rewrite Hidx.
    apply (generate_loop_spec draws 0 (Z.of_nat (length ids))) in Hidx as (Hnd & Hrg & Hlx);
      [|unfold is_i64; lia|unfold is_i64; lia|by rewrite Z.sub_0_r|constructor|constructor|cbn; lia].
    change (Z.to_nat 2) with 2%nat in *. destruct (pick_peers_total ids idx Hrg) as (ps & E & Hps). rewrite <- Hlx, E, !Ok_bind.
    destruct idx as [|i [|j [|? ?]]]; try done. inversion Hps as [|? p ? l' Hi Hps']; subst. inversion Hps' as [|? q ? l'' Hj Hps'']; subst.
    inversion Hps''; subst. unfold sign_key. change (sg_data msg) with (TxAndResultHashsData msg). rewrite Hs, Hp.
    rewrite marshal_message, Ok_bind, default_Some by done. unfold deliverSendWithRespCommon.
    pose proof (deliverSendCommon_call (Some [p; q]) ForwardExecute_SyncMsg _ Hm) as Ec.
    change (sg_type : Z) with ConsensusMessage_ExeRSValidateReq in Ec. rewrite Ec, Ok_bind, Hnet.
    destruct (answer_data errText mde resp sig' pk' Hs' Hp' Hw) as (b & Eb & Hb). rewrite Ha in Eb. injection Eb as <-.
    destruct (ParseSendResp_first fails answer rest _ Hf Hb Hr) as [more ->]. rewrite !Ok_bind.
    destruct (Tx.codec_roundtrip _ _ Hw) as (_ & _ & Ed). rewrite Ed.
    apply Forall_cons in Hrg as [Hri Hrg]. apply Forall_cons in Hrg as [Hrj _].
    eexists _, (Z.to_nat i), (Z.to_nat j), p, q. split; [reflexivity|]. split_and!; [done|done|done| |].
    + apply NoDup_cons in Hnd as [Hni _]. intros Eij. apply Hni. replace i with j by lia. left.
    + intros id an'. exact (dispatch_call _ _ _ id an' Hm).
Qed.
End Deliver.
End DeliverSpec.

(** * Deliveries of a node with two domains *)
Module DeliverExamples.
Import ActiveNodes Deliver Dispatch DeliverSpec.

#[local] Instance test_dkg : IDKGBls bytes := {
  dkg_PubKey d := Some d;
  dkg_Sign d m := Some (take 4 m, d);
  dkg_Verify d m s := bool_decide (s = take 4 m);
  dkg_RecoverSig d m ss := Some (Some (mjoin ss));
  dkg_Threshold d := 2;
  dkg_Finished d := true;
}.

Definition sign (k m : bytes) : option bytes := Some (k ++ take 4 m).
Definition public (k : bytes) : option bytes := Some (k ++ k).
Definition net (s : send) : bool := bool_decide (s_protocol s = ForwardPropose_Msg).

Definition node : messageDeliver (D := bytes) (K := bytes) :=
  mkDeliver (str "p1") true (str "key") DeliverStrategy_Specifically (Some (str "dkg")).

Definition nodes : activeNodeInfos :=
  mkInfos [] {[str "d1" := [str "e1"; str "e2"]; str "d2" := [str "e3"]]} [str "p0"; str "p1"; str "p2"] [str "v1"] 0 ∅ 0 0 ∅.

Definition chunk (domain : bytes) : BlockHeadChunk.t := BlockHeadChunk.mk 1 domain (str "e") 0 [] [] [].

Definition head : BlockHead.t :=
  BlockHead.mk (str "1") 1 8 0 7 [] (str "p1") [] [] 0 [] [] 2 (Wire.enc BlockHeadChunk.desc _ <$> [chunk (str "d1"); chunk (str "d2")])
    [] [] 7 0 [] [] [].

Definition head_bytes : bytes := Wire.enc BlockHead.desc _ head.

Definition vote : VoteMessage.t := VoteMessage.mk (str "1") 1 0 7 [] (str "v1") [] 8 head_bytes [].
Definition proposal : ProposeMessage.t := ProposeMessage.mk (str "1") 1 0 7 [] [] 8 (str "pri") (str "p1") [str "data"] head_bytes [].
Definition commit : CommitMessage.t := CommitMessage.mk (str "1") 1 0 7 0 [] [] 8 head_bytes [].
Definition request : ExeResultValidateReqMessage.t :=
  ExeResultValidateReqMessage.mk (str "1") 1 0 7 (str "v1") [] [] 8 [str "h1"] [str "r1"] [].
Definition response : ExeResultValidateRespMessage.t :=
  ExeResultValidateRespMessage.mk (str "1") 1 0 7 [] [] [] 8 [str "proof"] [str "rsproof"] [].

Ltac wf := split_and!; [repeat constructor; vm_compute; repeat constructor..|by vm_compute].
Ltac mail := split; [wf|wf].

Lemma vote_arrives_witness :
  exists s, deliverVoteMessage net node vote (str "p0") = Ok ([s], None) /\ s_peers s = Some [str "p0"]
  /\ dispatch (str "p0") nodes (s_data s) = Ok (Queued (ToVoteMsg (set_sign (take 4 head_bytes) (str "dkg") vote))).
Proof.
  destruct (vote_arrives net node vote (str "p0") (str "dkg") (take 4 head_bytes) (str "dkg")) as (s & E & Hp & Hpr & _ & Hd);
    [reflexivity|reflexivity|mail|].
  exists s. split; [|split; [exact Hp|exact (Hd (str "p0") nodes)]]. rewrite E. unfold net. rewrite Hpr. reflexivity.
Defined.

Lemma proposal_arrives_witness :
  exists s1 s2, deliverProposeMessage net node nodes proposal
    = Ok ([s1; s2], set_sign (take 4 head_bytes) (str "dkg") proposal, Some ESend)
  /\ s_peers s1 = Some [str "p0"; str "p2"] /\ s_peers s2 = Some [str "v1"].
Proof.
  destruct (proposal_arrives net node nodes proposal (str "dkg") (take 4 head_bytes) (str "dkg")) as (s1 & s2 & P1 & R1 & P2 & R2 & E & _);
    [reflexivity|reflexivity|mail|reflexivity|].
  exists s1, s2. split; [|split; [exact P1|exact P2]]. rewrite E. unfold net. rewrite R1, R2. reflexivity.
Defined.

Lemma commit_arrives_witness :
  exists ss s1 s2, deliverCommitMessage sign public (fun _ => head) (fun _ => chunk []) 4 4 node nodes commit = Ok (ss ++ [s1; s2], None)
  /\ exists s, ss !! 1%nat = Some s /\ s_peers s = Some [str "e3"]
  /\ dispatch (str "e3") nodes (s_data s)
     = Ok (Queued (ToCommitMsg (set_RefIndex 1 (set_sign (str "key" ++ take 4 head_bytes) (str "keykey") commit)))).
Proof.
  destruct (commit_arrives sign public (fun _ => head) (fun _ => chunk []) 4 4 node nodes commit head [chunk (str "d1"); chunk (str "d2")]
    (str "key" ++ take 4 head_bytes) (str "keykey")) as (ss & s1 & s2 & E & _ & H & _).
  - reflexivity.
  - reflexivity.
  - reflexivity.
  - reflexivity.
  - wf.
  - reflexivity.
  - repeat apply List.Forall_cons; try apply List.Forall_nil; wf.
  - discriminate.
  - assert (Hall : Forall (fun j => mailable (set_RefIndex j (set_sign (str "key" ++ take 4 head_bytes) (str "keykey") commit))) [0; 0; 1])
      by (repeat apply List.Forall_cons; try apply List.Forall_nil; mail).
    rewrite Forall_forall in Hall. exact Hall.
  - exists ss, s1, s2. split; [exact E|]. destruct (H 1%nat (chunk (str "d2")) eq_refl) as (s & Hs & Hp & _ & Hd).
    exists s. split; [exact Hs|]. split; [exact Hp|exact (Hd (str "e3") nodes)].
Defined.

(** The other goroutine's write between the write and the encoding for the
    second domain makes its executors take up the index of the first. *)
Lemma commit_index_race :
  match deliverCommitMessage sign public (fun _ => head) (fun _ => chunk []) 3 4 node nodes commit with
  | Ok ([_; s; _; _], None) =>
      match dispatch (str "e3") nodes (s_data s) with
      | Ok (Queued (ToCommitMsg m)) => s_peers s = Some [str "e3"] /\ CommitMessage.RefIndex m = 0
      | _ => False
      end
  | _ => False
  end.
Proof. vm_compute. split; reflexivity. Qed.

Lemma result_request_answered_witness :
  exists s answer, deliverResultValidateRespMessage sign public (fun _ => str "err") node response None = Ok answer
  /\ deliverResultValidateReqMessage sign public (fun _ => Some [None; Some answer]) [1; 0] node nodes (str "d1") request
     = Ok (Some ([s], inr (with_executor (str "p1") (str "keyproo") (str "keykey") response))).
Proof.
  destruct (answer_data sign public (fun _ => str "err") node response (str "keyproo") (str "keykey")) as (answer & Ea & _);
    [reflexivity|reflexivity|wf|].
  destruct (result_request_answered sign public (fun _ => Some [None; Some answer]) [1; 0] node node nodes (str "d1") request
    (str "keyh1r1") (str "keykey") response (str "keyproo") (str "keykey") (fun _ => str "err") answer [None] [])
    as (_ & H); [reflexivity|vm_compute; reflexivity|..].
  - repeat apply List.Forall_cons; try apply List.Forall_nil; vm_compute; split; congruence.
  - reflexivity.
  - reflexivity.
  - mail.
  - reflexivity.
  - reflexivity.
  - wf.
  - exact Ea.
  - apply Forall_singleton. reflexivity.
  - apply List.Forall_nil.
  - reflexivity.
  - destruct H as (s & _ & _ & _ & _ & E & _); [vm_compute; lia|vm_compute; eexists; reflexivity|].
    exists s, answer. split; [exact Ea|exact E].
Defined.
End DeliverExamples.
