(* ===== verification/Consensus.v ===== *)
(** Voting on blocks (src/consensus/vote_collector.go, validator.go and
    proposer.go): the handlers of a consensus node as steps on its state, the
    composition states it commits and what it sends. *)
From Stdlib Require Import ZArith Lia Strings.Byte.
From stdpp Require Import base gmap list strings sorting.
From S2P Require Import Prelude Common Backend Wire TxMessages ChainMessages ConsMessages TxBasic Text Json JsonCodec StateStore StateBase StateNode StateChain Composition Scheduler RoleSelector EpochService MessageDeliver.
Import Util Types.
#[local] Open Scope Z_scope.

(** * hashicorp/golang-lru *)

(** A cache of bounded size, by what its documentation says: the items, most
    recently used first. *)
Class LRU (C : Type -> Type -> Type) := {
  lru_New {K V : Type} : nat -> C K V;
  lru_Contains {K V : Type} `{!EqDecision K} : C K V -> K -> bool;
  lru_Add {K V : Type} `{!EqDecision K} : C K V -> K -> V -> C K V;
  lru_Get {K V : Type} `{!EqDecision K} : C K V -> K -> C K V * option V;
  lru_ContainsOrAdd {K V : Type} `{!EqDecision K} : C K V -> K -> V -> C K V * bool;
}.

Class LRULaws (C : Type -> Type -> Type) `{!LRU C} := {
  lru_items {K V : Type} : C K V -> list (K * V);
  lru_size {K V : Type} : C K V -> nat;
  lru_New_items {K V} n : lru_items (lru_New (K := K) (V := V) n) = [] /\ lru_size (lru_New (K := K) (V := V) n) = n;
  lru_Contains_spec {K V} `{!EqDecision K} (c : C K V) k : lru_Contains c k = bool_decide (k ∈ (lru_items c).*1);
  lru_Add_items {K V} `{!EqDecision K} (c : C K V) k v :
    lru_items (lru_Add c k v) = take (lru_size c) ((k, v) :: filter (fun x => x.1 <> k) (lru_items c))
    /\ lru_size (lru_Add c k v) = lru_size c;
  lru_Get_spec {K V} `{!EqDecision K} (c : C K V) k :
    (lru_Get c k).2 = snd <$> List.find (fun x => bool_decide (x.1 = k)) (lru_items c)
    /\ lru_size (lru_Get c k).1 = lru_size c
    /\ lru_items (lru_Get c k).1 ≡ₚ lru_items c;
  lru_ContainsOrAdd_spec {K V} `{!EqDecision K} (c : C K V) k v :
    lru_ContainsOrAdd c k v = if lru_Contains c k then (c, true) else (lru_Add c k v, false);
}.

(** * vote_collector.go *)
Module VoteCollector.
Import Deliver.

Section Collector.
Context {D : Type} `{!IDKGBls D}.

Record consensusVoteCollector := mkCollector {
  latestHeight : Z;
  votes : list VoteMessage.t;
  vc_dkgBls : option D;
}.

Definition newConsensusVoteCollector (latestHeight : Z) (d : option D) : consensusVoteCollector := mkCollector latestHeight [] d.

(** A vote for another block than the first is dropped; at the threshold the
    signatures are combined, and an error is [None]. *)
Definition tryAggregateSignAndAddVote (vc : consensusVoteCollector) (vote : VoteMessage.t) :
    go (consensusVoteCollector * option (option bytes)) :=
  let first := default vote (head (votes vc)) in
  if negb (bool_decide (VoteMessage.BlockHead first = VoteMessage.BlockHead vote)) then Ok (vc, Some None)
  else
    let vc := mkCollector (latestHeight vc) (votes vc ++ [vote]) (vc_dkgBls vc) in
    match vc_dkgBls vc with
    | None => Panic
    | Some d =>
        Ok (vc, if Z.of_nat (length (votes vc)) >=? dkg_Threshold d
                then dkg_RecoverSig d (VoteMessage.BlockHead first) (VoteMessage.Signature <$> votes vc)
                else Some None)
    end.

Definition reset (vc : consensusVoteCollector) : consensusVoteCollector := mkCollector (latestHeight vc) [] (vc_dkgBls vc).

Definition collector_updateDKGBls (vc : consensusVoteCollector) (d : D) : consensusVoteCollector :=
  mkCollector (latestHeight vc) (votes vc) (Some d).
End Collector.
Arguments consensusVoteCollector : clear implicits.
End VoteCollector.

(** * The node around the handlers *)
Module Cons.
Import Composition Deliver ActiveNodes EpochService.

Inductive cons_error :=
| EVoted (key : bytes)
| ESelfProposed
| ENotReady
| EDeliver (e : deliver_error)
| ENoCache
| EDelayed (version height : Z)
| ENilState (height : Z)
| EWire (e : Wire.proto_error)
| EStateErr (e : state_error)
| ECommit (e : StateStore.store_error)
| EBetterCached
| ENotValid
| ENotSelected
| EProposing
| EHaveProposed (height : Z)
| ELaunched (height : Z)
| EExists (version : Z)
| ECanNotPropose
| EThreshold
| EAggregate
| EPubKey
| ESignature
| EOutdated (version height : Z)
| ESameDomain
| EUnexpected (expected actual : Z)
| ENoChunk.

Section Node.
Context {L S D K : Type} `{!IStateStore S, !ILedger L S, !IDKGBls D}.

(** Timers that are started and cancelled, the calls of the network, what the
    node announces, and what it logs of delivered votes and commits. *)
Inductive event :=
| Sent (s : send)
| BlockAdded (b : Block.t)
| NetActiveNodes (an : activeNodeInfos)
| NewEpoch (e : EpochInfo)
| VoteDelivered (m : ProposeMessage.t)
| CommitDelivered (m : CommitMessage.t)
| CollectTimer
| BestTimer (height : Z)
| CancelBestTimer (height : Z).

(** The composition states by reference, the caches of the ledger's latest
    block, result and epoch, and the parts of the node; [idle] is a store that
    nothing reads. *)
Record node := mkNode {
  n_proc : Builder.process L S;
  n_ledgerState : LedgerState;
  n_blocks : gmap bytes Block.t;
  n_results : gmap bytes BlockResult.t;
  n_epochs : gmap bytes (option EpochInfo);
  n_es : epochService;
  n_md : messageDeliver (D := D) (K := K);
  idle : S;
  n_events : list event;
}.

Definition world_of (n : node) (s : S) : world S := mkWorld s (n_ledgerState n) (n_blocks n) (n_results n) (n_epochs n).

Definition set_caches (n : node) (p : Builder.process L S) (w : world S) : node :=
  mkNode p (w_ledger w) (latestBlockMap w) (latestBlockRSMap w) (latestEpochMap w) (n_es n) (n_md n) (idle n) (n_events n).

Definition emit (n : node) (evs : list event) : node :=
  mkNode (n_proc n) (n_ledgerState n) (n_blocks n) (n_results n) (n_epochs n) (n_es n) (n_md n) (idle n) (n_events n ++ evs).

Definition set_es (n : node) (es : epochService) : node :=
  mkNode (n_proc n) (n_ledgerState n) (n_blocks n) (n_results n) (n_epochs n) es (n_md n) (idle n) (n_events n).

Definition set_ledger (p : Builder.process L S) (l : L) : Builder.process L S :=
  Builder.mkProcess l (Builder.heap p) (Builder.full p) (Builder.simple p).

(** A read of the ledger through the caches. *)
Definition reading {A} (n : node) (f : L -> world S -> go (L * world S * A)) : go (node * A) :=
  '(l, w, a) ← f (Builder.p_ledger (n_proc n)) (world_of n (idle n));
  Ok (set_caches n (set_ledger (n_proc n) l) w, a).

Definition latest_block (n : node) : go (node * (state_error + Block.t)) := reading n GetLatestBlock.

Definition latest_epoch (n : node) : go (node * (state_error + option EpochInfo)) := reading n GetLatestEpoch.

(** Putting the world of a composition state back. *)
Definition put_world (n : node) (r : nat) (w : world S) : node :=
  let p := n_proc n in
  set_caches n (Builder.mkProcess (Builder.p_ledger p)
    (alter (fun cs => mkComp (w_store w) (cs_chain cs) (cs_epoch cs) (stateVersion cs) (state cs)) r (Builder.heap p))
    (Builder.full p) (Builder.simple p)) w.

Definition mark (n : node) (r : nat) (st : CompSState) : node :=
  mkNode (Builder.update_state (n_proc n) r st) (n_ledgerState n) (n_blocks n) (n_results n) (n_epochs n) (n_es n) (n_md n) (idle n)
    (n_events n).

Definition set_md (n : node) (md : messageDeliver) : node :=
  mkNode (n_proc n) (n_ledgerState n) (n_blocks n) (n_results n) (n_epochs n) (n_es n) md (idle n) (n_events n).

Variables (Sign : K -> bytes -> option bytes) (ConvertToPublic : K -> option bytes) (Send : send -> bool).

(** What the epoch service tells the node: the network learns the active
    nodes, the deliverer and the proposer take over the keys, and the executors
    are told of the selected domain; an error of that delivery is logged. *)
Definition apply_epoch_event (n : node) (ev : epoch_event (C := D)) : go node :=
  match ev with
  | ActiveNodesUpdated an => Ok (emit n [NetActiveNodes an])
  | DKGUpdated d => Ok (set_md n (updateDKGBls (n_md n) d))
  | DomainSelected m =>
      '(ss, _) ← deliverConsensusDomainSelectedMessageExe Sign ConvertToPublic Send (n_md n) (infos (n_es n)) m;
      Ok (emit n (Sent <$> ss))
  | EpochNew e => Ok (emit n [NewEpoch e])
  end.

Fixpoint apply_epoch_events (n : node) (evs : list (epoch_event (C := D))) : go node :=
  match evs with
  | [] => Ok n
  | ev :: evs => n ← apply_epoch_event n ev; apply_epoch_events n evs
  end.
End Node.
Arguments node : clear implicits.
End Cons.

(** * validator.go *)
Module Validator.
Import Composition Deliver ActiveNodes EpochService Cons.

Section Validator.
Context {L S D K : Type} {C : Type -> Type -> Type} `{!IStateStore S, !ILedger L S, !IDKGBls D, !LRU C}.
Variables (Sign : K -> bytes -> option bytes) (ConvertToPublic : K -> option bytes) (Send : send -> bool).
Variables (blake2b : bytes -> bytes) (new_crypt : NodeInfo -> NodeConsensusDomain -> go D).

(** [StateStore.Commit] *)
Variable Commit : S -> go (S * option StateStore.store_error).

Abbreviation node := (node L S D K).

Record consensusValidator := mkValidator {
  v_nodeID : bytes;
  propMsgCached : option ProposeMessage.t;
  bestPropMsgCached : option BestProposeMessage.t;
  propMsgVoted : C bytes unit;
  commitMsg : C Z unit;
}.

Definition newConsensusValidator (nodeID : bytes) : consensusValidator := mkValidator nodeID None None (lru_New 5) (lru_New 5).

Definition cache_prop (v : consensusValidator) (m : ProposeMessage.t) : consensusValidator :=
  mkValidator (v_nodeID v) (Some m) (bestPropMsgCached v) (propMsgVoted v) (commitMsg v).

Definition cache_best (v : consensusValidator) (m : BestProposeMessage.t) : consensusValidator :=
  mkValidator (v_nodeID v) (propMsgCached v) (Some m) (propMsgVoted v) (commitMsg v).

Definition set_commits (v : consensusValidator) (c : C Z unit) : consensusValidator :=
  mkValidator (v_nodeID v) (propMsgCached v) (bestPropMsgCached v) (propMsgVoted v) c.

(** Whether a priority beats that of the cached proposal for the next height. *)
Definition judgeLocalMaxPriBestForProposer (v : consensusValidator) (maxPri : bytes) (latest : BlockHead.t) : go (option cons_error) :=
  match propMsgCached v with
  | None => Ok None
  | Some propMsg =>
      match BlockHeadInfo propMsg with
      | Panic => Panic
      | Err e => Ok (Some (EWire e))
      | Ok bh =>
          if bool_decide (BlockHead.ChainID latest = ProposeMessage.ChainID propMsg)
             && (BlockHead.Height bh =? u64 (BlockHead.Height latest + 1))
             && (SetBytes maxPri <=? SetBytes (BlockHead.MaxPri bh))
          then Ok (Some EBetterCached) else Ok None
      end
  end.

Definition existProposeMsg (v : consensusValidator) (chainID : bytes) (round stateVersion : Z) (proposer : bytes) : bool :=
  match propMsgCached v with
  | None => false
  | Some m =>
      bool_decide (chainID = ProposeMessage.ChainID m) && (round =? ProposeMessage.Round m)
      && (stateVersion =? ProposeMessage.StateVersion m) && bool_decide (proposer = ProposeMessage.Proposer m)
  end.

(** The cached proposal is dereferenced before it is compared with nil. *)
Definition broadcastBestProposeMsg (v : consensusValidator) (n : node) : go (node * option cons_error) :=
  match propMsgCached v with
  | None => Panic
  | Some m =>
      if lru_Contains (commitMsg v) (ProposeMessage.StateVersion m) then Ok (n, None)
      else
        data ← Codec.Marshal ProposeMessage.desc m;
        '(ss, e) ← deliverBestProposeMessage Sign ConvertToPublic Send (n_md n) (infos (n_es n))
          (BestProposeMessage.mk (ProposeMessage.ChainID m) CONSENSUS_VER (ProposeMessage.Epoch m) (ProposeMessage.Round m) [] []
             (ProposeMessage.StateVersion m) (ProposeMessage.MaxPri m) (ProposeMessage.Proposer m) (default [] data) []);
        Ok (emit n (Sent <$> ss : list event), (EDeliver <$> e : option cons_error))
  end.

Definition at_sign : bytes := str "@".

(** The key under which a vote is remembered. *)
Definition vote_key (m : ProposeMessage.t) : bytes :=
  ProposeMessage.ChainID m ++ at_sign ++ Text.FormatUint (ProposeMessage.Version m) ++ at_sign ++ Text.FormatUint (ProposeMessage.Epoch m)
    ++ at_sign ++ Text.FormatUint (ProposeMessage.Round m) ++ at_sign ++ Text.FormatUint (ProposeMessage.StateVersion m)
    ++ at_sign ++ ProposeMessage.Proposer m.

Definition haveVoted (v : consensusValidator) (m : ProposeMessage.t) : bool := lru_Contains (propMsgVoted v) (vote_key m).

Definition addVotedPropMsg (v : consensusValidator) (key : bytes) : consensusValidator :=
  mkValidator (v_nodeID v) (propMsgCached v) (bestPropMsgCached v) (lru_Add (propMsgVoted v) key tt) (commitMsg v).

Definition produceVoteMsg (v : consensusValidator) (m : ProposeMessage.t) : VoteMessage.t :=
  VoteMessage.mk (ProposeMessage.ChainID m) CONSENSUS_VER (ProposeMessage.Epoch m) (ProposeMessage.Round m) [] (v_nodeID v) []
    (ProposeMessage.StateVersion m) (ProposeMessage.BlockHead m) [].

(** A vote is remembered when it was delivered. *)
Definition produceVoteAndDeliver (ready : nat -> bool) (v : consensusValidator) (n : node) (m : ProposeMessage.t) :
    go (consensusValidator * node * option cons_error) :=
  if haveVoted v m then Ok (v, n, Some (EVoted (vote_key m)))
  else if decide (ProposeMessage.Proposer m = v_nodeID v) then Ok (v, n, Some ESelfProposed)
  else if negb (wait_ready 10 ready 1) then Ok (v, n, Some ENotReady)
  else
    '(ss, e) ← deliverVoteMessage Send (n_md n) (produceVoteMsg v m) (ProposeMessage.Proposer m);
    let n := emit n (Sent <$> ss) in
    match e with
    | Some e => Ok (v, n, Some (EDeliver e))
    | None => Ok (addVotedPropMsg v (vote_key m), emit n [VoteDelivered m], None)
    end.

Definition checkValidBestProposeMsg (v : consensusValidator) (m : BestProposeMessage.t) : bool :=
  match bestPropMsgCached v with
  | None => true
  | Some c =>
      if bool_decide (BestProposeMessage.ChainID m = BestProposeMessage.ChainID c)
         && (BestProposeMessage.Version m =? BestProposeMessage.Version c) && (BestProposeMessage.Epoch m =? BestProposeMessage.Epoch c)
         && (BestProposeMessage.Round m =? BestProposeMessage.Round c) && (BestProposeMessage.StateVersion m =? BestProposeMessage.StateVersion c)
      then negb (bool_decide (BestProposeMessage.Proposer m = BestProposeMessage.Proposer c))
           && negb (SetBytes (BestProposeMessage.MaxPri m) <? SetBytes (BestProposeMessage.MaxPri c))
      else true
  end.

(** One message of [receiveBestProposeMsgStart]; what is not followed up is
    logged. *)
Definition receiveBestProposeMsg (ready : nat -> bool) (v : consensusValidator) (n : node) (m : BestProposeMessage.t) :
    go (consensusValidator * node) :=
  if negb (selfSelected (n_es n)) then Ok (v, n)
  else if lru_Contains (commitMsg v) (BestProposeMessage.StateVersion m) then Ok (v, n)
  else if negb (checkValidBestProposeMsg v m) then Ok (v, n)
  else
    match Codec.Unmarshal ProposeMessage.desc (BestProposeMessage.PropMsgData m) (Wire.s_zero ProposeMessage.desc) with
    | Panic => Panic
    | Err _ => Ok (v, n)
    | Ok propMsg =>
        '(v, n, e) ← produceVoteAndDeliver ready v n propMsg;
        match e with Some _ => Ok (v, n) | None => Ok (cache_best v m, n) end
    end.

(** The timer of [collectProposeMsgTimerStart] runs out. *)
Definition collectProposeMsgTimer (ready : nat -> bool) (v : consensusValidator) (n : node) : go (consensusValidator * node) :=
  match propMsgCached v with
  | None => Panic
  | Some m => '(v, n, _) ← produceVoteAndDeliver ready v n m; Ok (v, n)
  end.

(** [valid] is what the validation of the execution results says, which asks
    the executors; the answer is whether the proposal is taken, and whether the
    collecting of proposals starts. *)
Definition validateAndCollectProposeMsg (valid : bool) (v : consensusValidator) (maxPri propProposer : bytes) (m : ProposeMessage.t) :
    consensusValidator * bool * bool :=
  if negb valid then (v, false, false)
  else
    match propMsgCached v with
    | Some c =>
        if bool_decide (ProposeMessage.ChainID m = ProposeMessage.ChainID c) && (ProposeMessage.Round m =? ProposeMessage.Round c)
           && (ProposeMessage.StateVersion m =? ProposeMessage.StateVersion c)
        then
          if decide (ProposeMessage.Proposer c = propProposer) then (v, false, false)
          else if SetBytes (ProposeMessage.MaxPri c) <? SetBytes maxPri
               then (cache_prop v m, true, bool_decide (ProposeMessage.Proposer m = v_nodeID v))
               else (v, false, false)
        else (cache_prop v m, true, true)
    | None => (cache_prop v m, true, true)
    end.

(** One message of [receiveProposeMsgStart]. *)
Definition receiveProposeMsg (valid : bool) (v : consensusValidator) (n : node) (m : ProposeMessage.t) : go (consensusValidator * node) :=
  if negb (selfSelected (n_es n)) then Ok (v, n)
  else if lru_Contains (commitMsg v) (ProposeMessage.StateVersion m) then Ok (v, n)
  else
    '(n, latestBlock) ← latest_block n;
    match latestBlock with
    | inl _ => Ok (v, n)
    | inr b =>
        match Block.Head b with
        | None => Panic
        | Some h =>
            if ProposeMessage.StateVersion m <=? BlockHead.Height h then Ok (v, n)
            else
              let '(v, _, canCollectStart) := validateAndCollectProposeMsg valid v (ProposeMessage.MaxPri m) (ProposeMessage.Proposer m) m in
              Ok (v, if canCollectStart : bool then emit n [CollectTimer] else n)
        end
    end.

Definition constructBlockWithOnlyHead (h : BlockHead.t) : outcome Wire.proto_error Block.t :=
  match BlockOps.DeepCopy h with
  | Ok dst => Ok (Block.mk (Some dst) (Some (BlockData.mk (BlockHead.Version h) [] [])) [])
  | Err e => Err e
  | Panic => Panic
  end.

(** The block goes into the composition state of the version, the epoch is
    updated, the store committed and the state marked; then the event. *)
Definition commitMsgDispose (now : Z) (nodeID : bytes) (n : node) (bh : BlockHead.t) (m : CommitMessage.t) : go (node * option cons_error) :=
  '(p, r) ← Builder.simple_CreateCompositionState (n_proc n) nodeID (CommitMessage.StateVersion m);
  let n := mkNode p (n_ledgerState n) (n_blocks n) (n_results n) (n_epochs n) (n_es n) (n_md n) (idle n) (n_events n) in
  match r with
  | None => Ok (n, Some (ENilState (BlockHead.Height bh)))
  | Some r =>
      match Builder.heap p !! r with
      | None => Panic
      | Some cs =>
          match constructBlockWithOnlyHead bh with
          | Panic => Panic
          | Err e => Ok (n, Some (EWire e))
          | Ok block =>
              '(w, r1) ← Chain.SetLatestBlock (cs_chain cs) (Some block) (world_of n (cs_store cs));
              match r1, Block.Head block with
              | inl e, _ => Ok (put_world n r w, Some (EStateErr e))
              | inr _, None => Panic
              | inr _, Some h =>
                  '(es, l, w, evs, _) ← UpdateEpoch blake2b new_crypt now (n_es n) (Builder.p_ledger p) h (cs_chain cs) (cs_epoch cs) (state cs) w;
                  '(s, r3) ← Commit (w_store w);
                  let n := set_es (set_caches n (set_ledger p l) w) es in
                  let n := put_world n r (mkWorld s (w_ledger w) (latestBlockMap w) (latestBlockRSMap w) (latestEpochMap w)) in
                  n ← apply_epoch_events Sign ConvertToPublic Send n evs;
                  match r3 with
                  | Some e => Ok (n, Some (ECommit e))
                  | None => Ok (emit (mark n r CompSState_Commited) [BlockAdded block], None)
                  end
              end
          end
      end
  end.

(** One message of [receiveCommitMsgStart]: the head is taken as it comes. *)
Definition receiveCommitMsg (now : Z) (v : consensusValidator) (n : node) (m : CommitMessage.t) : go (consensusValidator * node) :=
  let '(c, seen) := lru_ContainsOrAdd (commitMsg v) (CommitMessage.StateVersion m) tt in
  let v := set_commits v c in
  if seen : bool then Ok (v, n)
  else
    match Codec.Unmarshal BlockHead.desc (CommitMessage.BlockHead m) (Wire.s_zero BlockHead.desc) with
    | Panic => Panic
    | Err _ => Ok (v, n)
    | Ok bh =>
        '(n, latestBlock) ← latest_block n;
        match latestBlock with
        | inl _ => Ok (v, n)
        | inr b =>
            match Block.Head b with
            | None => Panic
            | Some h =>
                if i64 (i64 (BlockHead.Height bh) - i64 (BlockHead.Height h)) <=? 0 then Ok (v, n)
                else '(n, _) ← commitMsgDispose now (v_nodeID v) n bh m; Ok (v, n)
            end
        end
    end.
End Validator.
Arguments consensusValidator : clear implicits.
End Validator.

(** * proposer.go *)
Module Proposer.
Import Composition Deliver ActiveNodes EpochService Cons VoteCollector Validator.

Section Proposer.
Context {L S D K : Type} {C : Type -> Type -> Type} `{!IStateStore S, !ILedger L S, !IDKGBls D, !LRU C}.
Variables (Sign : K -> bytes -> option bytes) (ConvertToPublic : K -> option bytes) (Send : send -> bool).
Variables (blake2b sha256 : bytes -> bytes) (new_crypt : NodeInfo -> NodeConsensusDomain -> go D).
Variable Commit : S -> go (S * option StateStore.store_error).

Abbreviation node := (node L S D K).
Abbreviation consensusValidator := (consensusValidator C).

(** The prepared messages of a version, by domain. *)
Record PreparePackedMessagePropMap := mkPropMap {
  pm_StateVersion : Z;
  PPMProps : list (bytes * PreparePackedMessageProp.t);
}.

(** Times are nanoseconds; a recorded height has the cancel function of its
    timer. *)
Record consensusProposer := mkProposer {
  p_nodeID : bytes;
  blockMaxCyclePeriod : Z;
  isProposing : bool;
  lastBlockHeight : Z;
  lastProposeHeight : Z;
  newHeightStartTimeStamp : Z;
  proposedRecord : C Z unit;
  votedRecord : C bytes unit;
  ppmPropList : list PreparePackedMessagePropMap;
  voteCollector : option (consensusVoteCollector D);
}.

Definition newConsensusProposer (nodeID : bytes) (period : Z) : consensusProposer :=
  mkProposer nodeID period false 0 0 0 (lru_New 10) (lru_New 200) [] None.

Definition set_list (p : consensusProposer) (l : list PreparePackedMessagePropMap) : consensusProposer :=
  mkProposer (p_nodeID p) (blockMaxCyclePeriod p) (isProposing p) (lastBlockHeight p) (lastProposeHeight p) (newHeightStartTimeStamp p)
    (proposedRecord p) (votedRecord p) l (voteCollector p).

Definition set_heights (p : consensusProposer) (blockHeight proposeHeight start : Z) : consensusProposer :=
  mkProposer (p_nodeID p) (blockMaxCyclePeriod p) (isProposing p) blockHeight proposeHeight start
    (proposedRecord p) (votedRecord p) (ppmPropList p) (voteCollector p).

Definition set_proposed (p : consensusProposer) (c : C Z unit) : consensusProposer :=
  mkProposer (p_nodeID p) (blockMaxCyclePeriod p) (isProposing p) (lastBlockHeight p) (lastProposeHeight p) (newHeightStartTimeStamp p)
    c (votedRecord p) (ppmPropList p) (voteCollector p).

Definition set_votedRecord (p : consensusProposer) (c : C bytes unit) : consensusProposer :=
  mkProposer (p_nodeID p) (blockMaxCyclePeriod p) (isProposing p) (lastBlockHeight p) (lastProposeHeight p) (newHeightStartTimeStamp p)
    (proposedRecord p) c (ppmPropList p) (voteCollector p).

Definition set_collector (p : consensusProposer) (vc : option (consensusVoteCollector D)) : consensusProposer :=
  mkProposer (p_nodeID p) (blockMaxCyclePeriod p) (isProposing p) (lastBlockHeight p) (lastProposeHeight p) (newHeightStartTimeStamp p)
    (proposedRecord p) (votedRecord p) (ppmPropList p) vc.

(** What a proposer signs to be elected. *)
Definition consensus_proof (h : BlockHead.t) : ConsensusProof.t :=
  ConsensusProof.mk (BlockHead.ParentBlockHash h) (BlockHead.Height h) (BlockHead.VoteAggSignature h) [].

Definition getVrfInputData (h : BlockHead.t) (proposeHeight : Z) : go bytes :=
  csProofBytes ← Codec.Marshal ConsensusProof.desc (consensus_proof h);
  Ok (blake2b (Uint64ToBytes (BlockHead.Epoch h) ++ Uint64ToBytes proposeHeight ++ default [] csProofBytes)).

(** The proof and the priority of a proposer who has won. *)
Definition canProposeBlock (p : consensusProposer) (v : consensusValidator) (n : node) (latest : BlockHead.t) (proposeHeight : Z) :
    go (cons_error + (bytes * bytes)) :=
  vrfData ← getVrfInputData latest proposeHeight;
  match Sign (priKey (n_md n)) vrfData with
  | None => Ok (inl ESignature)
  | Some vrfProof =>
      match getNodeWeight (infos (n_es n)) (p_nodeID p) with
      | None => Ok (inl ECanNotPropose)
      | Some localNodeWeight =>
          winCount ← Poiss.SelectProposer blake2b vrfProof (i64 localNodeWeight) (i64 (activeProposerWeights (infos (n_es n))));
          if winCount >=? 1 then
            let maxPri := Poiss.MaxPriority sha256 vrfProof winCount in
            e ← judgeLocalMaxPriBestForProposer v maxPri latest;
            Ok (match e with Some e => inl e | None => inr (vrfProof, maxPri) end)
          else Ok (inl ECanNotPropose)
      end
  end.

(** One prepared message on top of the list. *)
Definition add_prepared (l : list PreparePackedMessagePropMap) (m : PreparePackedMessageProp.t) :
    cons_error + list PreparePackedMessagePropMap :=
  let version := PreparePackedMessageProp.StateVersion m in
  let domainID := PreparePackedMessageProp.DomainID m in
  match last l with
  | None => inr (l ++ [mkPropMap version [(domainID, m)]])
  | Some latest =>
      if version =? pm_StateVersion latest then
        if bool_decide (domainID ∈ (PPMProps latest).*1) then inl ESameDomain
        else inr (removelast l ++ [mkPropMap version (PPMProps latest ++ [(domainID, m)])])
      else if version =? u64 (pm_StateVersion latest + 1) then inr (l ++ [mkPropMap version [(domainID, m)]])
      else inl (EUnexpected (u64 (pm_StateVersion latest + 1)) version)
  end.

(** One message of [receivePreparePackedMessagePropStart]. *)
Definition receivePreparePackedMessageProp (p : consensusProposer) (n : node) (m : PreparePackedMessageProp.t) : go (consensusProposer * node) :=
  if negb (selfSelected (n_es n)) then Ok (p, n)
  else
    '(n, latestBlock) ← latest_block n;
    match latestBlock with
    | inl _ => Ok (p, n)
    | inr b =>
        match Block.Head b with
        | None => Panic
        | Some h =>
            if PreparePackedMessageProp.StateVersion m <=? BlockHead.Height h then Ok (p, n)
            else Ok (match add_prepared (ppmPropList p) m with inl _ => p | inr l => set_list p l end, n)
        end
    end.

(** The loop of [getAvailPPMProp]: older maps are removed from the front, the
    map of the next version ends it, and a later one is looked at again and
    again.  The answer is the last map looked at, also when it was removed;
    [None] when [fuel] rounds do not end the loop. *)
Fixpoint avail_loop (fuel : nat) (latestHeight : Z) (l : list PreparePackedMessagePropMap) (front : option PreparePackedMessagePropMap) :
    option (list PreparePackedMessagePropMap * option PreparePackedMessagePropMap) :=
  match l with
  | [] => Some ([], front)
  | m :: l' =>
      match fuel with
      | O => None
      | Datatypes.S fuel =>
          if pm_StateVersion m =? u64 (latestHeight + 1) then Some (l, Some m)
          else if pm_StateVersion m <? u64 (latestHeight + 1) then avail_loop fuel latestHeight l' (Some m)
          else avail_loop fuel latestHeight l (Some m)
      end
  end.

Definition getAvailPPMProp (fuel : nat) (p : consensusProposer) (latestHeight : Z) :
    option (consensusProposer * option PreparePackedMessagePropMap) :=
  match avail_loop fuel latestHeight (ppmPropList p) None with
  | None => None
  | Some (l, front) =>
      Some (set_list p l,
            match front with Some m => if pm_StateVersion m =? latestHeight then None else Some m | None => None end)
  end.

Definition currentPPMProp (p : consensusProposer) : Z * Z :=
  match ppmPropList p with [] => (0, 0) | m :: _ => (pm_StateVersion m, Z.of_nat (length (ppmPropList p))) end.

(** The chunk of a domain in the head, and its hashes beside the head. *)
Definition BLOCK_VER : Z := 1.

Definition head_chunk (domainID : bytes) (m : PreparePackedMessageProp.t) : BlockHeadChunk.t :=
  BlockHeadChunk.mk BLOCK_VER domainID (PreparePackedMessageProp.Launcher m) (u32 (Z.of_nat (length (PreparePackedMessageProp.TxHashs m))))
    (PreparePackedMessageProp.TxRoot m) (PreparePackedMessageProp.TxResultRoot m) [].

Definition prop_data (domainID : bytes) (m : PreparePackedMessageProp.t) : PropData.t :=
  PropData.mk BLOCK_VER domainID (PreparePackedMessageProp.TxHashs m) (PreparePackedMessageProp.TxResultHashs m) [].

Fixpoint chunks_of (props : list (bytes * PreparePackedMessageProp.t)) : go (list bytes * list bytes) :=
  match props with
  | [] => Ok ([], [])
  | (domainID, m) :: props =>
      c ← Codec.Marshal BlockHeadChunk.desc (head_chunk domainID m);
      d ← Codec.Marshal PropData.desc (prop_data domainID m);
      '(cs, ds) ← chunks_of props;
      Ok (default [] c :: cs, default [] d :: ds)
  end.

(** [range] is the order in which the map is ranged over, [now] the time. *)
Definition produceProposeBlock (range : list (bytes * PreparePackedMessageProp.t) -> list (bytes * PreparePackedMessageProp.t)) (now : Z)
    (nodeID chainID : bytes) (latestEpoch : EpochInfo) (latestBlock : Block.t) (latest : BlockHead.t) (ppm : PreparePackedMessagePropMap)
    (vrfProof maxPri stateRoot : bytes) (proposeHeight : Z) : go (cons_error + ProposeMessage.t) :=
  blockHashBytes ← BlockOps.HashBytes blake2b latestBlock;
  csProofBytes ← Codec.Marshal ConsensusProof.desc (consensus_proof latest);
  '(chunks, datas) ← chunks_of (range (PPMProps ppm));
  if (length chunks =? 0)%nat then Ok (inl ENoChunk)
  else
    let bh := BlockHead.mk chainID BLOCK_VER (u64 (BlockHead.Height latest + 1)) (Epoch latestEpoch) (BlockHead.Height latest) blockHashBytes
      nodeID (default [] csProofBytes) vrfProof proposeHeight maxPri [] (u32 (Z.of_nat (length chunks))) chunks stateRoot [] (u64 now) 0 [] [] [] in
    newBlockHeadBytes ← Codec.Marshal BlockHead.desc bh;
    Ok (inr (ProposeMessage.mk chainID CONSENSUS_VER (Epoch latestEpoch) (BlockHead.Height latest) [] [] (pm_StateVersion ppm) maxPri nodeID datas
      (default [] newBlockHeadBytes) [])).

(** crypt/types: a signature with the key it is checked with, in JSON. *)
Record SignatureInfo := mkSignInfo { SignData : option bytes; si_PublicKey : option bytes }.

Definition j_SignatureInfo : JsonCodec.codec SignatureInfo :=
  JsonCodec.j_struct (mkSignInfo None None)
    [JsonCodec.fld "SignData" JsonCodec.j_bytes SignData (fun x r => mkSignInfo x (si_PublicKey r));
     JsonCodec.fld "PublicKey" JsonCodec.j_bytes si_PublicKey (fun x r => mkSignInfo (SignData r) x)].

Definition set_VoteAggSignature (sig : bytes)
    '(BlockHead.mk a b c d e f g h i j k _ m n o p q r s t u : BlockHead.t) : BlockHead.t :=
  BlockHead.mk a b c d e f g h i j k sig m n o p q r s t u.

(** The head voted for, with the combined signature. *)
Definition produceCommitMsg (n : node) (m : VoteMessage.t) (aggSign : bytes) : go (cons_error + (CommitMessage.t * BlockHead.t)) :=
  match Codec.Unmarshal BlockHead.desc (VoteMessage.BlockHead m) (Wire.s_zero BlockHead.desc) with
  | Panic => Panic
  | Err e => Ok (inl (EWire e))
  | Ok blockHead =>
      match md_dkgBls (n_md n) with
      | None => Panic
      | Some d =>
          match dkg_PubKey d with
          | None => Ok (inl EPubKey)
          | Some pubKey =>
              let bh := set_VoteAggSignature (JsonCodec.Marshal (JsonCodec.j_ptr j_SignatureInfo) (Some (mkSignInfo (Some aggSign) (Some pubKey)))) blockHead in
              b ← Codec.Marshal BlockHead.desc bh;
              Ok (inr (CommitMessage.mk (VoteMessage.ChainID m) (VoteMessage.Version m) (VoteMessage.Epoch m) (VoteMessage.Round m) 0 [] []
                (VoteMessage.StateVersion m) (default [] b) [], bh))
          end
      end
  end.

Variables (partial_head : bytes -> BlockHead.t) (partial_chunk : bytes -> BlockHeadChunk.t).

(** The cancel function of the timer of a height, if it is recorded. *)
Definition cancel_events (rec : option unit) (height : Z) : list event := match rec with Some _ => [CancelBestTimer height] | None => [] end.

(** The vote is counted; at the threshold the commit is produced, delivered
    and carried out, and the error of the last step is dropped.  [wr] and [rd]
    schedule the goroutines of the delivery. *)
Definition aggSignDisposeWhenRecvVoteMsg (wr rd : nat) (now : Z) (p : consensusProposer) (v : consensusValidator) (n : node)
    (m : VoteMessage.t) (cancel : list event) : go (consensusProposer * consensusValidator * node * option cons_error) :=
  match voteCollector p with
  | None => Panic
  | Some vc =>
      '(vc, aggSign) ← tryAggregateSignAndAddVote vc m;
      let p := set_collector p (Some vc) in
      match aggSign with
      | None => Ok (p, v, n, Some EAggregate)
      | Some None => Ok (p, v, n, Some EThreshold)
      | Some (Some aggSign) =>
          r ← produceCommitMsg n m aggSign;
          match r with
          | inl e => Ok (p, v, n, Some e)
          | inr (commit, bh) =>
              if lru_Contains (commitMsg v) (CommitMessage.StateVersion commit) then Ok (p, v, emit n cancel, None)
              else
                let v := set_commits v (lru_Add (commitMsg v) (CommitMessage.StateVersion commit) tt) in
                '(ss, e) ← deliverCommitMessage Sign ConvertToPublic partial_head partial_chunk wr rd (n_md n) (infos (n_es n)) commit;
                let n := emit n (Sent <$> ss : list event) in
                match e with
                | Some e => Ok (p, v, n, Some (EDeliver e))
                | None =>
                    '(n, _) ← commitMsgDispose Sign ConvertToPublic Send blake2b new_crypt Commit now (v_nodeID v) (emit n cancel) bh commit;
                    Ok (p, v, emit n [CommitDelivered commit], None)
                end
          end
      end
  end.

Definition voted_key (m : VoteMessage.t) : bytes := Text.FormatUint (VoteMessage.StateVersion m) ++ str "@" ++ VoteMessage.Voter m.

Definition setIfNotVoted (p : consensusProposer) (m : VoteMessage.t) : consensusProposer * bool :=
  let '(c, seen) := lru_ContainsOrAdd (votedRecord p) (voted_key m) tt in (set_votedRecord p c, seen).

(** One message of [receiveVoteMessageStart]; a vote before any proposal meets
    a nil collector. *)
Definition receiveVoteMessage (wr rd : nat) (now : Z) (p : consensusProposer) (v : consensusValidator) (n : node) (m : VoteMessage.t) :
    go (consensusProposer * consensusValidator * node) :=
  if negb (selfSelected (n_es n)) then Ok (p, v, n)
  else if lru_Contains (commitMsg v) (VoteMessage.StateVersion m) then Ok (p, v, n)
  else
    let '(p, seen) := setIfNotVoted p m in
    if seen : bool then Ok (p, v, n)
    else
      match voteCollector p with
      | None => Panic
      | Some vc =>
          if negb (VoteMessage.StateVersion m =? u64 (latestHeight vc + 1)) then Ok (p, v, n)
          else
            match md_dkgBls (n_md n) with
            | None => Panic
            | Some d =>
                if negb (dkg_Verify d (VoteMessage.BlockHead m) (VoteMessage.Signature m)) then Ok (p, v, n)
                else
                  let '(c, rec) := lru_Get (proposedRecord p) (lastBlockHeight p) in
                  '(p, v, n, e) ← aggSignDisposeWhenRecvVoteMsg wr rd now (set_proposed p c) v n m (cancel_events rec (lastBlockHeight p));
                  match e with
                  | Some _ => Ok (p, v, n)
                  | None => Ok (set_collector p (reset <$> voteCollector p), v, n)
                  end
            end
      end.

(** A proposal is done, with an error or without; or it waits for a prepared
    message; or the loop that looks for one never ends. *)
Inductive propose_result := Done (e : option cons_error) | Waiting | Spinning.

Definition set_proposing (p : consensusProposer) (b : bool) : consensusProposer :=
  mkProposer (p_nodeID p) (blockMaxCyclePeriod p) b (lastBlockHeight p) (lastProposeHeight p) (newHeightStartTimeStamp p)
    (proposedRecord p) (votedRecord p) (ppmPropList p) (voteCollector p).

Definition milliseconds (d : Z) : Z := Z.quot d 1000000.

(** A block above the last one starts a new height. *)
Definition new_height (now : Z) (p : consensusProposer) (n : node) (height : Z) : consensusProposer * node :=
  if (lastProposeHeight p =? 0) || (height >? lastBlockHeight p) then
    let p := set_heights p height height now in
    if height >? 1 then
      let '(c, rec) := lru_Get (proposedRecord p) (height - 1) in
      (set_proposed p c, emit n (cancel_events rec (height - 1)))
    else (p, n)
  else (p, n).

(** The height that a proposal is made for grows with the time that has
    passed since the latest block. *)
Definition propose_height (now : Z) (p : consensusProposer) (height : Z) : go Z :=
  let elapsed := u64 (milliseconds (now - newHeightStartTimeStamp p)) in
  let period := u64 (milliseconds (blockMaxCyclePeriod p)) in
  if period =? 0 then Panic else Ok (u64 (height + u64 (elapsed / period + 1))).

(** From the decision to propose on: the proposal is validated and cached as
    the node's own, voted for, sent to the others and recorded. *)
Definition launch (valid : bool) (ready : nat -> bool) (wr rd : nat) (now : Z) (p : consensusProposer) (v : consensusValidator) (n : node)
    (height : Z) (maxPri : bytes) (m : ProposeMessage.t) : go (consensusProposer * consensusValidator * node * option cons_error) :=
  match validateAndCollectProposeMsg valid v maxPri (p_nodeID p) m with
  | (v, false, _) => Ok (p, v, n, Some ENotValid)
  | (v, true, _) =>
      if negb (wait_ready 10 ready 1) then Ok (p, v, n, Some ENotReady)
      else
        let p := set_collector p (Some (newConsensusVoteCollector height (md_dkgBls (n_md n)))) in
        match md_dkgBls (n_md n) with
        | None => Panic
        | Some d =>
            match dkg_Sign d (ProposeMessage.BlockHead m) with
            | None => Ok (p, v, n, Some ESignature)
            | Some (sig, pk) =>
                let '(c, rec) := lru_Get (proposedRecord p) (lastBlockHeight p) in
                '(p, v, n, e) ← aggSignDisposeWhenRecvVoteMsg wr rd now (set_proposed p c) v n (set_sign sig pk (produceVoteMsg v m))
                  (cancel_events rec (lastBlockHeight p));
                match e with
                | None | Some EThreshold =>
                    '(ss, m, e) ← deliverProposeMessage Send (n_md n) (infos (n_es n)) m;
                    let n := emit n (Sent <$> ss : list event) in
                    let v := cache_prop v m in
                    match e with
                    | Some e => Ok (p, v, n, Some (EDeliver e))
                    | None => Ok (set_proposed p (lru_Add (proposedRecord p) height tt), v, emit n [BestTimer height], None)
                    end
                | Some e => Ok (p, v, n, Some e)
                end
            end
        end
  end.

(** What the environment supplies to a proposal: the times, whether the
    execution results are confirmed, when keys are there, the order of maps and
    of goroutines, and how many rounds a loop is given. *)
Record surroundings := mkSurroundings {
  t_height : Z;
  t_elapsed : Z;
  t_block : Z;
  s_valid : bool;
  s_ready : nat -> bool;
  s_range : list (bytes * PreparePackedMessageProp.t) -> list (bytes * PreparePackedMessageProp.t);
  s_wr : nat;
  s_rd : nat;
  s_fuel : nat;
}.

(** The root of a fresh sparse Merkle tree after some updates. *)
Variable tree_Root : list (bytes * bytes) -> bytes.

(** The part of [proposeBlockSpecification] from the read-only state on, for a
    latest block and epoch. *)
Definition propose_on (x : surroundings) (p : consensusProposer) (v : consensusValidator) (n : node) (cs : compositionState S)
    (latestEpoch : option EpochInfo) (latestBlock : Block.t) (latest : BlockHead.t) :
    go (consensusProposer * consensusValidator * node * propose_result) :=
  let height := BlockHead.Height latest in
  let '(p, n) := new_height (t_height x) p n height in
  if lru_Contains (proposedRecord p) height then Ok (p, v, n, Done (Some (EHaveProposed height)))
  else
    proposeHeightNew ← propose_height (t_elapsed x) p height;
    if (lastProposeHeight p >? 0) && (lastProposeHeight p >=? proposeHeightNew) then Ok (p, v, n, Done (Some (ELaunched (lastProposeHeight p))))
    else
      let p := set_heights p (lastBlockHeight p) proposeHeightNew (newHeightStartTimeStamp p) in
      '(w, chainID) ← Chain.ChainID (world_of n (cs_store cs));
      let chainID := match chainID with inr id => id | inl _ => [] end in
      if existProposeMsg v chainID height (u64 (height + 1)) (p_nodeID p) then Ok (p, v, n, Done (Some (EExists (u64 (height + 1)))))
      else
        c ← canProposeBlock p v n latest proposeHeightNew;
        match c with
        | inl _ => Ok (p, v, n, Done (Some ECanNotPropose))
        | inr (vrfProof, maxPri) =>
            '(_, root) ← StateRoot tree_Root (w_store w);
            match root with
            | inl e => Ok (p, v, n, Done (Some (EStateErr e)))
            | inr stateRoot =>
                match getAvailPPMProp (s_fuel x) p height with
                | None => Ok (p, v, n, Spinning)
                | Some (p, None) => Ok (p, v, n, Waiting)
                | Some (p, Some ppm) =>
                    match latestEpoch with
                    | None => Panic
                    | Some latestEpoch =>
                        m ← produceProposeBlock (s_range x) (t_block x) (p_nodeID p) chainID latestEpoch latestBlock latest ppm vrfProof maxPri
                          stateRoot proposeHeightNew;
                        match m with
                        | inl e => Ok (p, v, n, Done (Some e))
                        | inr m =>
                            '(p, v, n, e) ← launch (s_valid x) (s_ready x) (s_wr x) (s_rd x) (t_block x) p v n height maxPri m;
                            Ok (p, v, n, Done e)
                        end
                    end
                end
            end
        end.

(** A proposal after a block was added, or by the timer; one at a time.  A
    proposal that waits goes on proposing. *)
Definition proposeBlockSpecification (x : surroundings) (p : consensusProposer) (v : consensusValidator) (n : node) (addedBlock : option Block.t) :
    go (consensusProposer * consensusValidator * node * propose_result) :=
  if negb (selfSelected (n_es n)) then Ok (p, v, n, Done (Some ENotSelected))
  else if isProposing p then Ok (p, v, n, Done (Some EProposing))
  else
    '(l, cs) ← CreateCompositionStateReadonly (Builder.p_ledger (n_proc n));
    let n := set_caches n (set_ledger (n_proc n) l) (world_of n (idle n)) in
    '(n, latestEpoch) ← latest_epoch n;
    match latestEpoch with
    | inl e => Ok (p, v, n, Done (Some (EStateErr e)))
    | inr latestEpoch =>
        '(n, latestBlock) ← (match addedBlock with Some b => Ok (n, inr b) | None => latest_block n end);
        match latestBlock with
        | inl e => Ok (p, v, n, Done (Some (EStateErr e)))
        | inr latestBlock =>
            match Block.Head latestBlock with
            | None => Panic
            | Some latest =>
                '(p, v, n, r) ← propose_on x p v n cs latestEpoch latestBlock latest;
                Ok (set_proposing p (match r with Done _ => false | _ => true end), v, n, r)
            end
        end
    end.
End Proposer.
End Proposer.
