(* ===== verification/ConsensusSpec.v ===== *)
(** Correctness of voting: a node votes once for a proposal, keeps the best
    proposal, commits with enough votes for one block, and proposes the
    prepared messages of the next height. *)
From Stdlib Require Import ZArith Lia Strings.Byte.
From stdpp Require Import base gmap list strings sorting.
From S2P Require Import Prelude Common Backend Wire TxMessages ChainMessages ConsMessages TxBasic Text Json JsonCodec StateStore StateBase StateNode StateChain StateChainSpec Composition Scheduler RoleSelector RoleSelectorSpec EpochService MessageDeliver MessageDeliverSpec Consensus.
Import Util Types.
#[local] Open Scope Z_scope.

(** Adding a new key to a cache. *)
Section Caches.
Context {C : Type -> Type -> Type} `{!LRU C, !LRULaws C}.

Lemma filter_fst_ne {K V} `{!EqDecision K} (l : list (K * V)) k : k ∉ l.*1 -> filter (fun x => x.1 <> k) l = l.
Proof.
  induction l as [|x l IH]; intros H; [done|]. rewrite fmap_cons, not_elem_of_cons in H. destruct H as [H1 H2].
  rewrite filter_cons_True by done. by rewrite IH.
Qed.

Lemma lru_Add_keys {K V} `{!EqDecision K} (c : C K V) k v n ks : k ∉ (lru_items c).*1 -> lru_size c = S n ->
  (lru_items c).*1 = take (S n) ks -> (lru_items (lru_Add c k v)).*1 = take (S n) (k :: ks).
Proof.
  intros Hk Hs Hks. destruct (lru_Add_items c k v) as [-> _]. rewrite Hs, filter_fst_ne, fmap_take, fmap_cons, Hks by done. cbn [fst].
  cbn [take]. f_equal. rewrite take_take. f_equal. lia.
Qed.
End Caches.

(** * Votes *)
Module VoteSpec.
Import Composition Deliver ActiveNodes EpochService Cons Validator.

Section Votes.
Context {L S D K : Type} {C : Type -> Type -> Type} `{!IStateStore S, !ILedger L S, !IDKGBls D, !LRU C, !LRULaws C}.
Variables (Sign : K -> bytes -> option bytes) (ConvertToPublic : K -> option bytes) (Send : send -> bool).
Variables (blake2b : bytes -> bytes) (new_crypt : NodeInfo -> NodeConsensusDomain -> go D).
Variable Commit : S -> go (S * option StateStore.store_error).

Abbreviation node := (node L S D K).
Abbreviation consensusValidator := (consensusValidator C).

(** The proposals a node has voted for, in order. *)
Definition delivered (evs : list event) : list ProposeMessage.t :=
  omap (fun ev => match ev with VoteDelivered m => Some m | _ => None end) evs.

Lemma delivered_app evs evs' : delivered (evs ++ evs') = delivered evs ++ delivered evs'.
Proof. apply omap_app. Qed.

Lemma delivered_sends ss : delivered (Sent <$> ss : list event) = [].
Proof. by induction ss. Qed.

(** What a validator does: messages arrive and timers run out, and the rest of
    the node changes anything but the log. *)
Inductive vstep : consensusValidator * node -> consensusValidator * node -> Prop :=
| vs_best ready m v n v' n' : receiveBestProposeMsg Send ready v n m = Ok (v', n') -> vstep (v, n) (v', n')
| vs_propose valid m v n v' n' : receiveProposeMsg valid v n m = Ok (v', n') -> vstep (v, n) (v', n')
| vs_timer ready v n v' n' : collectProposeMsgTimer Send ready v n = Ok (v', n') -> vstep (v, n) (v', n')
| vs_commit now m v n v' n' : receiveCommitMsg Sign ConvertToPublic Send blake2b new_crypt Commit now v n m = Ok (v', n') ->
    vstep (v, n) (v', n')
| vs_node v n n' : delivered (n_events n') = delivered (n_events n) -> vstep (v, n) (v, n').

(** The cache has the keys of the last votes, and no key is among the votes
    shortly before it. *)
Definition recent (k : nat) (ks : list bytes) : Prop :=
  forall i j x, ks !! i = Some x -> ks !! j = Some x -> (i < j)%nat -> (i + k < j)%nat.

Record vote_inv (nodeID : bytes) (v : consensusValidator) (n : node) : Prop := {
  inv_id : v_nodeID v = nodeID;
  inv_keys : (lru_items (propMsgVoted v)).*1 = take 5 (reverse (vote_key <$> delivered (n_events n)));
  inv_size : lru_size (propMsgVoted v) = 5%nat;
  inv_recent : recent 5 (vote_key <$> delivered (n_events n));
  inv_others : Forall (fun m => ProposeMessage.Proposer m <> nodeID) (delivered (n_events n));
}.

Lemma recent_snoc k ks x : recent k ks -> x ∉ take k (reverse ks) -> recent k (ks ++ [x]).
Proof.
  intros H Hx i j y Hi Hj Hij. destruct (decide (j < length ks)%nat) as [Hl|Hl].
  - rewrite lookup_app_l in Hi, Hj by lia. eauto.
  - assert (j = length ks) as -> by (apply lookup_lt_Some in Hj; rewrite length_app in Hj; cbn in Hj; lia).
    rewrite lookup_app_l in Hi by lia. rewrite list_lookup_middle in Hj by done. injection Hj as <-.
    destruct (decide (i + k < length ks)%nat); [done|]. exfalso. apply Hx.
    apply list_elem_of_lookup. exists (length ks - 1 - i)%nat. rewrite lookup_take_lt by lia.
    rewrite reverse_lookup by lia. rewrite <- Hi. f_equal. lia.
Qed.

(** An attempt to vote: without an error the key was not among the last five. *)
Lemma produceVoteAndDeliver_inv id ready v (n : node) m v' n' e : vote_inv id v n -> produceVoteAndDeliver Send ready v n m = Ok (v', n', e) ->
  vote_inv id v' n' /\ propMsgCached v' = propMsgCached v /\ bestPropMsgCached v' = bestPropMsgCached v
  /\ commitMsg v' = commitMsg v.
Proof.
  intros [Hid Hk Hs Hr Ho]. unfold produceVoteAndDeliver. destruct (haveVoted v m) eqn:Ev; [by intros [= <- <- <-]|].
  destruct (decide _) as [|Hne]; [by intros [= <- <- <-]|]. destruct (negb _); [by intros [= <- <- <-]|]. intros H.
  apply outcome_bind_Ok in H as ([ss r] & _ & H).
  assert (Hev : delivered (n_events (emit n (Sent <$> ss : list event))) = delivered (n_events n)).
  { cbn. by rewrite delivered_app, delivered_sends, app_nil_r. }
  destruct r; injection H as <- <- <-; (split; [|done]).
  - split; by rewrite ?Hev.
  - unfold haveVoted in Ev. rewrite lru_Contains_spec, bool_decide_eq_false, Hk in Ev.
    assert (Hd : delivered (n_events (emit (emit n (Sent <$> ss : list event)) [VoteDelivered m])) = delivered (n_events n) ++ [m]).
    { cbn [n_events emit]. by rewrite !delivered_app, delivered_sends, app_nil_r. }
    split; rewrite ?Hd, ?fmap_app; cbn [addVotedPropMsg propMsgVoted v_nodeID fmap list_fmap].
    + done.
    + rewrite reverse_snoc. apply lru_Add_keys; [by rewrite Hk|done|done].
    + by destruct (lru_Add_items (propMsgVoted v) (vote_key m) tt) as [_ ->].
    + by apply recent_snoc.
    + apply Forall_app. split; [done|]. apply Forall_singleton. by rewrite <- Hid.
Qed.

Lemma latest_block_events (n n' : node) r : latest_block n = Ok (n', r) -> n_events n' = n_events n.
Proof. unfold latest_block, reading. intros H. by apply outcome_bind_Ok in H as ([[l w] a] & _ & [= <- _]). Qed.

(** The node carries on without delivering votes or commits. *)
Definition quietly (n n' : node) : Prop :=
  exists evs, n_events n' = n_events n ++ evs /\ Forall (fun ev => match ev with VoteDelivered _ | CommitDelivered _ => False | _ => True end) evs.

Lemma quietly_refl (n n' : node) : n_events n' = n_events n -> quietly n n'.
Proof. intros E. exists []. by rewrite app_nil_r. Qed.

Lemma quietly_trans (n1 n2 n3 : node) : quietly n1 n2 -> quietly n2 n3 -> quietly n1 n3.
Proof. intros (e1 & E1 & H1) (e2 & E2 & H2). exists (e1 ++ e2). rewrite E2, E1, (assoc_L (++)). split; [done|]. by apply Forall_app. Qed.

Lemma quietly_sends (n : node) ss : quietly n (emit n (Sent <$> ss : list event)).
Proof. exists (Sent <$> ss). split; [done|]. apply Forall_fmap, Forall_forall. done. Qed.

Lemma quietly_delivered (n n' : node) : quietly n n' -> delivered (n_events n') = delivered (n_events n).
Proof.
  intros (evs & -> & H). rewrite delivered_app. rewrite <- (app_nil_r (delivered (n_events n))) at 2. f_equal.
  by induction H as [|[]].
Qed.

Lemma apply_epoch_events_quietly (n n' : node) evs : apply_epoch_events Sign ConvertToPublic Send n evs = Ok n' -> quietly n n'.
Proof.
  revert n. induction evs as [|ev evs IH]; intros n H; cbn [apply_epoch_events] in H; [injection H as <-; by apply quietly_refl|].
  apply outcome_bind_Ok in H as (n1 & H1 & H). apply (quietly_trans n n1); [|by apply IH]. destruct ev; cbn [apply_epoch_event] in H1.
  - injection H1 as <-. eexists. split; [done|]. by apply Forall_singleton.
  - injection H1 as <-. by apply quietly_refl.
  - apply outcome_bind_Ok in H1 as ([ss e] & _ & [= <-]). apply quietly_sends.
  - injection H1 as <-. eexists. split; [done|]. by apply Forall_singleton.
Qed.

Lemma commitMsgDispose_quietly now nodeID (n n' : node) bh m e :
  commitMsgDispose Sign ConvertToPublic Send blake2b new_crypt Commit now nodeID n bh m = Ok (n', e) -> quietly n n'.
Proof.
  unfold commitMsgDispose. intros H. apply outcome_bind_Ok in H as ([p r] & _ & H).
  destruct r as [r|]; [|injection H as <- _; by apply quietly_refl]. destruct (Builder.heap p !! r) as [cs|]; [|done].
  destruct (constructBlockWithOnlyHead bh) as [block|e1|]; [|injection H as <- _; by apply quietly_refl|done].
  apply outcome_bind_Ok in H as ([w r1] & _ & H). destruct r1 as [e1|]; [injection H as <- _; by apply quietly_refl|].
  destruct (Block.Head block) as [h|]; [|done]. apply outcome_bind_Ok in H as ([[[[es l] w'] evs] e2] & _ & H).
  apply outcome_bind_Ok in H as ([s r3] & _ & H). apply outcome_bind_Ok in H as (n1 & H1%apply_epoch_events_quietly & H).
  destruct r3; injection H as <- _; [exact H1|]. eapply quietly_trans; [exact H1|]. eexists. split; [done|]. by apply Forall_singleton.
Qed.

Lemma vote_inv_same id (v v' : consensusValidator) (n n' : node) : vote_inv id v n -> propMsgVoted v' = propMsgVoted v -> v_nodeID v' = v_nodeID v ->
  delivered (n_events n') = delivered (n_events n) -> vote_inv id v' n'.
Proof. intros [H0 H1 H2 H3 H4] E1 E2 E3. split; by rewrite ?E1, ?E2, ?E3. Qed.

Lemma validateAndCollect_voted valid (v : consensusValidator) maxPri prop m v' a b :
  validateAndCollectProposeMsg valid v maxPri prop m = (v', a, b) -> propMsgVoted v' = propMsgVoted v /\ v_nodeID v' = v_nodeID v.
Proof. unfold validateAndCollectProposeMsg. intros H. repeat case_match; simplify_eq; done. Qed.

Lemma vstep_inv id s s' : vstep s s' -> vote_inv id s.1 s.2 -> vote_inv id s'.1 s'.2.
Proof.
  intros H Hi. destruct H as [ready m v n v' n' H|valid m v n v' n' H|ready v n v' n' H|now m v n v' n' H|v n n' H]; cbn in *.
  - unfold receiveBestProposeMsg in H. do 3 (case_match; [by simplify_eq|]).
    destruct (Codec.Unmarshal _ _ _) as [pm|?|]; [|by injection H as <- <-|done].
    apply outcome_bind_Ok in H as ([[v1 n1] e] & Hp & H). apply (produceVoteAndDeliver_inv id) in Hp as [Hp _]; [|done].
    destruct e; injection H as <- <-; [done|]. by refine (vote_inv_same id v1 (cache_best v1 m) n1 n1 Hp _ _ _).
  - unfold receiveProposeMsg in H. do 2 (case_match; [by simplify_eq|]).
    apply outcome_bind_Ok in H as ([n1 b] & Hb%latest_block_events & H).
    destruct b as [?|b]; [injection H as <- <-; eapply vote_inv_same; [exact Hi|done|done|by rewrite Hb]|].
    destruct (Block.Head b) as [h|]; [|done]. destruct (_ <=? _); [injection H as <- <-; eapply vote_inv_same; [exact Hi|done|done|by rewrite Hb]|].
    destruct (validateAndCollectProposeMsg _ _ _ _ _) as [[v1 a] c] eqn:E. apply validateAndCollect_voted in E as [E1 E2].
    injection H as <- <-. eapply vote_inv_same; [exact Hi|done|done|]. destruct c; cbn; by rewrite ?delivered_app, ?app_nil_r, Hb.
  - unfold collectProposeMsgTimer in H. destruct (propMsgCached v); [|done].
    apply outcome_bind_Ok in H as ([[v1 n1] e] & Hp & [= <- <-]). by apply (produceVoteAndDeliver_inv id) in Hp as [Hp _].
  - unfold receiveCommitMsg in H. destruct (lru_ContainsOrAdd _ _ _) as [c seen]. destruct seen; [injection H as <- <-; by refine (vote_inv_same id v _ n _ Hi _ _ _)|].
    destruct (Codec.Unmarshal _ _ _) as [bh|?|]; [|injection H as <- <-; by refine (vote_inv_same id v _ n _ Hi _ _ _)|done].
    apply outcome_bind_Ok in H as ([n1 b] & Hb%latest_block_events & H).
    destruct b as [?|b]; [injection H as <- <-; eapply vote_inv_same; [exact Hi|done|done|by rewrite Hb]|].
    destruct (Block.Head b) as [h|]; [|done]. destruct (_ <=? 0); [injection H as <- <-; eapply vote_inv_same; [exact Hi|done|done|by rewrite Hb]|].
    apply outcome_bind_Ok in H as ([n2 e] & Hc%commitMsgDispose_quietly%quietly_delivered & [= <- <-]). eapply vote_inv_same; [exact Hi|done|done|by rewrite Hc, Hb].
  - exact (vote_inv_same id _ _ _ _ Hi eq_refl eq_refl H).
Qed.

End Votes.
End VoteSpec.

(** * Proposals *)
Module ProposalSpec.
Import Composition Deliver ActiveNodes EpochService Cons Validator.

Section Collect.
Context {C : Type -> Type -> Type} `{!LRU C}.
Abbreviation consensusValidator := (consensusValidator C).

Definition pri (m : ProposeMessage.t) : Z := SetBytes (ProposeMessage.MaxPri m).

(** The proposals of a round, each with what its validation says. *)
Definition collect (v : consensusValidator) (ms : list (bool * ProposeMessage.t)) : consensusValidator :=
  fold_left (fun v bm => (validateAndCollectProposeMsg bm.1 v (ProposeMessage.MaxPri bm.2) (ProposeMessage.Proposer bm.2) bm.2).1.1) ms v.

Definition of_round (chainID : bytes) (round version : Z) (m : ProposeMessage.t) : Prop :=
  ProposeMessage.ChainID m = chainID /\ ProposeMessage.Round m = round /\ ProposeMessage.StateVersion m = version.

#[global] Instance of_round_dec chainID round version m : Decision (of_round chainID round version m).
Proof. unfold of_round. apply _. Defined.

Definition valid_of (ms : list (bool * ProposeMessage.t)) : list ProposeMessage.t := snd <$> List.filter fst ms.

Lemma collect_step chainID round version b m (v : consensusValidator) : of_round chainID round version m ->
  propMsgCached (validateAndCollectProposeMsg b v (ProposeMessage.MaxPri m) (ProposeMessage.Proposer m) m).1.1 =
    (if b then
       match propMsgCached v with
       | Some c => if decide (of_round chainID round version c)
                   then if decide (ProposeMessage.Proposer c = ProposeMessage.Proposer m) then Some c
                        else if pri c <? pri m then Some m else Some c
                   else Some m
       | None => Some m
       end
     else propMsgCached v).
Proof.
  intros (H1 & H2 & H3). unfold validateAndCollectProposeMsg, pri. destruct b; [|done]. cbn [negb].
  destruct (propMsgCached v) as [c|] eqn:Ec; [|done]. rewrite H1, H2, H3.
  destruct (decide (of_round chainID round version c)) as [(E1 & E2 & E3)|Hn].
  - rewrite E1, E2, E3, bool_decide_true, !Z.eqb_refl by done. cbn [andb]. destruct (decide _); [done|]. by destruct (_ <? _).
  - destruct (bool_decide _ && _ && _) eqn:E; [|done]. exfalso. apply Hn.
    apply andb_true_iff in E as [[E1%bool_decide_eq_true E2%Z.eqb_eq]%andb_true_iff E3%Z.eqb_eq]. by rewrite E1, E2, E3.
Qed.

(** C24. The best proposal of a round is kept: when proposals of one chain,
    round and state version arrive from different proposers in any order, and
    none of the round was cached before, the cached proposal is afterwards one
    of those that were validated, and none of them has a higher priority. *)
Theorem best_proposal_kept chainID round version (v : consensusValidator) ms : valid_of ms <> [] ->
  Forall (fun bm => of_round chainID round version bm.2) ms -> NoDup (ProposeMessage.Proposer <$> valid_of ms) ->
  (forall c, propMsgCached v = Some c -> ~ of_round chainID round version c) ->
  exists m, propMsgCached (collect v ms) = Some m /\ m ∈ valid_of ms /\ Forall (fun m' => pri m' <= pri m) (valid_of ms).
Proof.
  intros Hne Hms Hnd Hc.
  enough (H : (valid_of ms = [] -> propMsgCached (collect v ms) = propMsgCached v) /\ (valid_of ms <> [] ->
    exists m, propMsgCached (collect v ms) = Some m /\ m ∈ valid_of ms /\ Forall (fun m' => pri m' <= pri m) (valid_of ms)))
    by (by apply H). clear Hne.
  induction ms as [|[b m] ms IH] using rev_ind; [done|]. apply Forall_app in Hms as [Hms [Hm _]%Forall_cons].
  assert (Hv : valid_of (ms ++ [(b, m)]) = valid_of ms ++ (if b then [m] else [])).
  { unfold valid_of. rewrite List.filter_app, fmap_app. by destruct b. }
  rewrite Hv in *. assert (Hstep := collect_step chainID round version b m (collect v ms) Hm).
  assert (Ef : propMsgCached (collect v (ms ++ [(b, m)])) =
    propMsgCached (validateAndCollectProposeMsg b (collect v ms) (ProposeMessage.MaxPri m) (ProposeMessage.Proposer m) m).1.1)
    by (unfold collect; by rewrite fold_left_app).
  rewrite Ef, Hstep. destruct b; [|rewrite app_nil_r in *; by apply IH].
  rewrite fmap_app in Hnd. apply NoDup_app in Hnd as (Hnd & Hdis & _). destruct (IH Hms Hnd) as [I1 I2]. clear IH.
  split; [by intros [_ ?]%app_eq_nil|intros _]. destruct (decide (valid_of ms = [])) as [En|Hne].
  - rewrite (I1 En), En. exists m. split; [|split; [left|by apply Forall_singleton]].
    destruct (propMsgCached v) as [c|] eqn:Ec; [|done]. by rewrite decide_False by auto.
  - destruct (I2 Hne) as (c & -> & Hin & Hmax). assert (Hr : of_round chainID round version c).
    { rewrite Forall_forall in Hms. unfold valid_of in Hin. apply list_elem_of_fmap in Hin as (bm & -> & Hbm).
      apply Hms, list_elem_of_In. apply list_elem_of_In, filter_In in Hbm. tauto. }
    rewrite decide_True by done. rewrite decide_False.
    2:{ intros E. apply (Hdis (ProposeMessage.Proposer c)); [by apply list_elem_of_fmap_2|]. rewrite E. by left. }
    destruct (Z.ltb_spec (pri c) (pri m)).
    + exists m. split; [done|]. split; [set_solver|]. apply Forall_app. split; [|by apply Forall_singleton].
      eapply Forall_impl; [exact Hmax|]. cbn. lia.
    + exists c. split; [done|]. split; [set_solver|]. apply Forall_app. split; [done|]. by apply Forall_singleton.
Qed.
End Collect.
End ProposalSpec.

(** * Prepared messages *)
Module PreparedSpec.
Import Composition Deliver ActiveNodes EpochService Cons Validator Proposer.

(** The lists that arise from arriving messages and from taking maps off the
    front. *)
Inductive prepared : list PreparePackedMessagePropMap -> Prop :=
| prepared_nil : prepared []
| prepared_add l m l' : prepared l -> 0 <= PreparePackedMessageProp.StateVersion m < 2 ^ 64 - 1 -> add_prepared l m = inr l' -> prepared l'
| prepared_drop k l : prepared l -> prepared (drop k l).

(** Versions follow one another, and every domain has one message, of the
    version. *)
Record prepared_inv (l : list PreparePackedMessagePropMap) : Prop := {
  prep_next i m m' : l !! i = Some m -> l !! S i = Some m' -> pm_StateVersion m' = pm_StateVersion m + 1;
  prep_range m : m ∈ l -> 0 <= pm_StateVersion m < 2 ^ 64 - 1;
  prep_domains m : m ∈ l -> NoDup (PPMProps m).*1;
  prep_messages m d x : m ∈ l -> (d, x) ∈ PPMProps m ->
    PreparePackedMessageProp.StateVersion x = pm_StateVersion m /\ PreparePackedMessageProp.DomainID x = d;
}.

Lemma prepared_inv_drop k l : prepared_inv l -> prepared_inv (drop k l).
Proof.
  assert (Hin : forall m, m ∈ drop k l -> m ∈ l) by (intros m Hm; rewrite <- (take_drop k l); set_solver).
  intros [H1 H2 H3 H4]. split; [|eauto..]. intros i m m'. rewrite !lookup_drop, Nat.add_succ_r. apply H1.
Qed.

Lemma prepared_inv_snoc l m : prepared_inv l -> (forall x, last l = Some x -> pm_StateVersion m = pm_StateVersion x + 1) ->
  0 <= pm_StateVersion m < 2 ^ 64 - 1 -> NoDup (PPMProps m).*1 ->
  (forall d x, (d, x) ∈ PPMProps m -> PreparePackedMessageProp.StateVersion x = pm_StateVersion m /\ PreparePackedMessageProp.DomainID x = d) ->
  prepared_inv (l ++ [m]).
Proof.
  intros [H1 H2 H3 H4] Hl Hr Hd Hm. split.
  - intros i a b Ha Hb. destruct (decide (S i < length l)%nat).
    { rewrite lookup_app_l in Ha, Hb by lia. eauto. }
    assert (S i = length l) by (apply lookup_lt_Some in Hb; rewrite length_app in Hb; cbn in Hb; lia).
    rewrite list_lookup_middle in Hb by done. injection Hb as <-. rewrite lookup_app_l in Ha by lia. apply Hl.
    rewrite last_lookup. replace (Nat.pred (length l)) with i by lia. done.
  - intros x [Hx| ->%list_elem_of_singleton]%elem_of_app; auto.
  - intros x [Hx| ->%list_elem_of_singleton]%elem_of_app; auto.
  - intros x d y [Hx| ->%list_elem_of_singleton]%elem_of_app; eauto.
Qed.

Lemma prepared_inv_prefix l k : prepared_inv (l ++ k) -> prepared_inv l.
Proof.
  intros [H1 H2 H3 H4]. split.
  - intros i a b Ha Hb. eauto using lookup_app_l_Some.
  - intros m Hm. apply H2, elem_of_app. by left.
  - intros m Hm. apply H3, elem_of_app. by left.
  - intros m d x Hm. apply H4, elem_of_app. by left.
Qed.

Lemma prepared_ok l : prepared l -> prepared_inv l.
Proof.
  intros H. induction H as [|l m l' _ IH Hr Ha|k l _ IH]; [split; [done|set_solver..]| |by apply prepared_inv_drop].
  unfold add_prepared in Ha. destruct (last l) as [x|] eqn:El.
  2:{ injection Ha as <-. apply prepared_inv_snoc; [done|by rewrite El|done|apply NoDup_singleton|].
      intros d y [= -> ->]%list_elem_of_singleton. done. }
  apply last_Some in El as [l0 ->]. assert (Hxin : x ∈ l0 ++ [x]) by set_solver. pose proof (prep_range _ IH x Hxin) as Hxr.
  destruct (Z.eqb_spec (PreparePackedMessageProp.StateVersion m) (pm_StateVersion x)) as [E|En].
  - destruct (bool_decide _) eqn:Eb; [done|]. apply bool_decide_eq_false in Eb. rewrite removelast_last in Ha. injection Ha as <-.
    apply prepared_inv_snoc; cbn; [by eapply prepared_inv_prefix| |by rewrite E| |].
    + intros y [l1 ->]%last_Some. rewrite E. rewrite <- (assoc_L (++)) in IH. apply (prep_next _ IH (length l1)).
      * by apply list_lookup_middle.
      * rewrite lookup_app_r by lia. by replace (S (length l1) - length l1)%nat with 1%nat by lia.
    + rewrite fmap_app. apply NoDup_app. split; [by apply (prep_domains _ IH)|]. split; [|apply NoDup_singleton].
      intros d Hd ->%list_elem_of_singleton. done.
    + intros d y [Hy|[= -> ->]%list_elem_of_singleton]%elem_of_app; [|done]. rewrite E. by apply (prep_messages _ IH x).
  - destruct (Z.eqb_spec (PreparePackedMessageProp.StateVersion m) (u64 (pm_StateVersion x + 1))) as [E|]; [|done]. injection Ha as <-.
    rewrite u64_small in E by (unfold is_u64; lia). apply prepared_inv_snoc; cbn; [done| |done|apply NoDup_singleton|].
    + intros y Hy. rewrite last_snoc in Hy. congruence.
    + intros d y [= -> ->]%list_elem_of_singleton. done.
Qed.

(** ** The map of the next height *)

Section Avail.
Context {D : Type} {C : Type -> Type -> Type} `{!LRU C}.
Abbreviation consensusProposer := (consensusProposer (D := D) (C := C)).

Lemma avail_spins fuel h m l front : u64 (h + 1) < pm_StateVersion m -> avail_loop fuel h (m :: l) front = None.
Proof.
  intros Hm. revert front. induction fuel as [|fuel IH]; intros front; [done|]. cbn [avail_loop].
  destruct (Z.eqb_spec (pm_StateVersion m) (u64 (h + 1))); [lia|]. destruct (Z.ltb_spec (pm_StateVersion m) (u64 (h + 1))); [lia|]. apply IH.
Qed.

Lemma avail_drops fuel h l l' front : Forall (fun m => pm_StateVersion m < u64 (h + 1)) l -> (length l <= fuel)%nat ->
  avail_loop fuel h (l ++ l') front = avail_loop (fuel - length l) h l' (match last l with Some m => Some m | None => front end).
Proof.
  intros H. revert fuel front. induction H as [|m l Hm _ IH]; intros fuel front Hf; [by rewrite Nat.sub_0_r|].
  destruct fuel as [|fuel]; [cbn in Hf; lia|]. cbn [app avail_loop length] in *.
  destruct (Z.eqb_spec (pm_StateVersion m) (u64 (h + 1))); [lia|]. destruct (Z.ltb_spec (pm_StateVersion m) (u64 (h + 1))); [|lia].
  rewrite IH by lia. f_equal. rewrite last_cons. by destruct (last l).
Qed.

Lemma prepared_version l a i m : prepared_inv l -> (exists x, l !! 0%nat = Some x /\ pm_StateVersion x = a) -> l !! i = Some m ->
  pm_StateVersion m = a + Z.of_nat i.
Proof.
  intros [H1 _ _ _] (x & Hx & Ha). revert m. induction i as [|i IH]; intros m Hm; [rewrite Hx in Hm; injection Hm as <-; lia|].
  destruct (lookup_lt_is_Some_2 l i) as [y Hy]; [apply lookup_lt_Some in Hm; lia|]. rewrite (H1 i y m Hy Hm), (IH y Hy). lia.
Qed.

(** Looking for the prepared messages of the next height: on a list whose
    first version is [a], the search returns the map of the next height, with
    the messages of that version one per domain, when the list has it; it never
    returns when all versions are later; and when all are earlier the list is
    emptied and the last map is the answer, although it is too old, unless it
    is of the latest height itself. *)
Theorem prepared_available (p : consensusProposer) h a : prepared (ppmPropList p) -> 0 <= h < 2 ^ 64 - 1 ->
  (exists x, ppmPropList p !! 0%nat = Some x /\ pm_StateVersion x = a) ->
  let n := Z.of_nat (length (ppmPropList p)) in
  (h + 1 < a -> forall fuel, getAvailPPMProp fuel p h = None)
  /\ (a <= h + 1 < a + n -> forall fuel, (length (ppmPropList p) <= fuel)%nat ->
      exists m, getAvailPPMProp fuel p h = Some (set_list p (drop (Z.to_nat (h + 1 - a)) (ppmPropList p)), Some m)
      /\ pm_StateVersion m = h + 1 /\ NoDup (PPMProps m).*1
      /\ forall d x, (d, x) ∈ PPMProps m -> PreparePackedMessageProp.StateVersion x = h + 1 /\ PreparePackedMessageProp.DomainID x = d)
  /\ (a + n <= h + 1 -> forall fuel, (length (ppmPropList p) <= fuel)%nat ->
      getAvailPPMProp fuel p h = Some (set_list p [], if a + n - 1 =? h then None else last (ppmPropList p))).
Proof.
  intros Hp%prepared_ok Hh Ha n. assert (Hu : u64 (h + 1) = h + 1) by (apply u64_small; unfold is_u64; lia).
  assert (Hv : forall i m, ppmPropList p !! i = Some m -> pm_StateVersion m = a + Z.of_nat i) by (intros; by eapply prepared_version).
  assert (Hlow : forall k, a + Z.of_nat k <= h + 1 -> Forall (fun m => pm_StateVersion m < u64 (h + 1)) (take k (ppmPropList p))).
  { intros k Hk. apply Forall_forall. intros m [i [Hi Hik]%lookup_take_Some]%list_elem_of_lookup. rewrite (Hv i m Hi). lia. }
  unfold getAvailPPMProp. split_and!.
  - intros Hlt fuel. destruct Ha as (x & Hx & Hxa). destruct (ppmPropList p) as [|y l]; [done|]. injection Hx as ->.
    by rewrite avail_spins by lia.
  - intros Hr fuel Hf. set (k := Z.to_nat (h + 1 - a)).
    destruct (lookup_lt_is_Some_2 (ppmPropList p) k) as [m Hm]; [unfold k; lia|]. exists m.
    assert (Hmv : pm_StateVersion m = h + 1) by (rewrite (Hv k m Hm); unfold k; lia).
    rewrite <- (take_drop k (ppmPropList p)) at 1. assert (Hkl : (k <= length (ppmPropList p))%nat) by (unfold k; lia).
    rewrite avail_drops; [|apply Hlow; unfold k; lia|rewrite length_take; lia]. rewrite length_take, Nat.min_l by done.
    rewrite (drop_S _ _ _ Hm). destruct (fuel - k)%nat eqn:Ef; [apply lookup_lt_Some in Hm; lia|]. cbn [avail_loop].
    rewrite Hu, (proj2 (Z.eqb_eq _ _)) by done. rewrite (proj2 (Z.eqb_neq _ _)) by lia. split; [done|]. split; [done|].
    assert (Hin : m ∈ ppmPropList p) by (by eapply list_elem_of_lookup_2). split; [by apply (prep_domains _ Hp)|].
    intros d x Hx. rewrite <- Hmv. by apply (prep_messages _ Hp m).
  - intros Hr fuel Hf. rewrite <- (app_nil_r (ppmPropList p)) at 1. rewrite avail_drops; [| |done].
    2:{ rewrite <- (firstn_all (ppmPropList p)). apply Hlow. lia. }
    cbn [avail_loop]. destruct (last (ppmPropList p)) as [m|] eqn:El.
    + replace (avail_loop _ h [] (Some m)) with (Some ([] : list PreparePackedMessagePropMap, Some m)) by (by destruct (fuel - _)%nat).
      rewrite last_lookup in El. rewrite (Hv _ _ El). apply lookup_lt_Some in El.
      by replace (a + Z.of_nat (Nat.pred (length (ppmPropList p)))) with (a + n - 1) by lia.
    + apply last_None in El. destruct Ha as (x & Hx & _). by rewrite El in Hx.
Qed.
End Avail.
End PreparedSpec.

(** * Counting votes *)
Module CountSpec.
Import Composition Deliver ActiveNodes EpochService Cons VoteCollector Validator Proposer VoteSpec.

Section Count.
Context {L S D K : Type} {C : Type -> Type -> Type} `{!IStateStore S, !ILedger L S, !IDKGBls D, !LRU C, !LRULaws C}.
Variables (Sign : K -> bytes -> option bytes) (ConvertToPublic : K -> option bytes) (Send : send -> bool).
Variables (blake2b : bytes -> bytes) (new_crypt : NodeInfo -> NodeConsensusDomain -> go D).
Variable Commit : S -> go (S * option StateStore.store_error).
Variables (partial_head : bytes -> BlockHead.t) (partial_chunk : bytes -> BlockHeadChunk.t).

Abbreviation node := (node L S D K).
Abbreviation consensusValidator := (consensusValidator C).
Abbreviation consensusProposer := (consensusProposer (D := D) (C := C)).
Abbreviation receiveVoteMessage := (receiveVoteMessage Sign ConvertToPublic Send blake2b new_crypt Commit partial_head partial_chunk).
Abbreviation launch := (launch Sign ConvertToPublic Send blake2b new_crypt Commit partial_head partial_chunk).
Abbreviation aggSignDispose := (aggSignDisposeWhenRecvVoteMsg Sign ConvertToPublic Send blake2b new_crypt Commit partial_head partial_chunk).

(** ** What one vote does *)

Definition key_json (aggSign pubKey : bytes) : bytes :=
  JsonCodec.Marshal (JsonCodec.j_ptr j_SignatureInfo) (Some (mkSignInfo (Some aggSign) (Some pubKey))).

Definition commits (evs : list event) : list CommitMessage.t :=
  omap (fun ev => match ev with CommitDelivered m => Some m | _ => None end) evs.

Lemma commits_app evs evs' : commits (evs ++ evs') = commits evs ++ commits evs'.
Proof. apply omap_app. Qed.

Lemma commits_sends ss : commits (Sent <$> ss : list event) = [].
Proof. by induction ss. Qed.

Lemma commits_cancel rec h : commits (cancel_events rec h) = [].
Proof. by destruct rec. Qed.

(** A vote that is added: the votes so far are for the same head. *)
Lemma tryAggregate_spec (vc vc' : consensusVoteCollector D) m r : tryAggregateSignAndAddVote vc m = Ok (vc', r) ->
  latestHeight vc' = latestHeight vc /\ vc_dkgBls vc' = vc_dkgBls vc
  /\ ((vc' = vc /\ r = Some None)
      \/ (votes vc' = votes vc ++ [m] /\ VoteMessage.BlockHead (default m (head (votes vc))) = VoteMessage.BlockHead m
          /\ exists d, vc_dkgBls vc = Some d /\ (r = Some None \/ (dkg_Threshold d <= Z.of_nat (length (votes vc)) + 1
              /\ r = dkg_RecoverSig d (VoteMessage.BlockHead m) (VoteMessage.Signature <$> votes vc ++ [m]))))).
Proof.
  unfold tryAggregateSignAndAddVote. destruct (bool_decide _) eqn:E; cbn [negb].
  - apply bool_decide_eq_true in E. cbn [vc_dkgBls]. destruct (vc_dkgBls vc) as [d|] eqn:Ed; [|done]. intros [= <- <-]. cbn [latestHeight vc_dkgBls votes].
    split; [done|]. split; [done|]. right. split; [done|]. split; [done|]. exists d. split; [done|].
    destruct (Z.geb_spec (Z.of_nat (length (votes vc ++ [m]))) (dkg_Threshold d)) as [Hg|Hg]; [right|by left].
    rewrite length_app in Hg. cbn in Hg. split; [lia|]. by rewrite E.
  - intros [= <- <-]. auto.
Qed.

Lemma quietly_commits (n n' : node) : quietly n n' -> commits (n_events n') = commits (n_events n).
Proof.
  intros (evs & -> & H). rewrite commits_app. rewrite <- (app_nil_r (commits (n_events n))) at 2. f_equal.
  by induction H as [|[]].
Qed.

(** A vote that is disposed of: either nothing is committed, or there are votes
    enough and their combined signature is in the head of the commit. *)
Definition enough (v : consensusValidator) (n : node) (vc : consensusVoteCollector D) (m : VoteMessage.t) (c : CommitMessage.t) : Prop :=
  exists d d' pk aggSign bh, vc_dkgBls vc = Some d /\ dkg_Threshold d <= Z.of_nat (length (votes vc)) + 1
  /\ VoteMessage.BlockHead (default m (head (votes vc))) = VoteMessage.BlockHead m
  /\ dkg_RecoverSig d (VoteMessage.BlockHead m) (VoteMessage.Signature <$> votes vc ++ [m]) = Some (Some aggSign)
  /\ md_dkgBls (n_md n) = Some d' /\ dkg_PubKey d' = Some pk
  /\ Codec.Unmarshal BlockHead.desc (VoteMessage.BlockHead m) (Wire.s_zero BlockHead.desc) = Ok bh
  /\ (b ← Codec.Marshal BlockHead.desc (set_VoteAggSignature (key_json aggSign pk) bh); Ok (default [] b)) = Ok (CommitMessage.BlockHead c)
  /\ CommitMessage.StateVersion c = VoteMessage.StateVersion m
  /\ lru_Contains (commitMsg v) (VoteMessage.StateVersion m) = false.

Lemma aggSignDispose_spec wr rd now p v (n : node) m cancel p' v' n' e vc : voteCollector p = Some vc -> commits cancel = [] ->
  aggSignDispose wr rd now p v n m cancel = Ok (p', v', n', e) ->
  exists vc' r, tryAggregateSignAndAddVote vc m = Ok (vc', r) /\ p' = set_collector p (Some vc')
  /\ (commits (n_events n') = commits (n_events n) \/ exists c, commits (n_events n') = commits (n_events n) ++ [c] /\ enough v n vc m c).
Proof.
  intros Hvc Hcan. unfold aggSignDisposeWhenRecvVoteMsg. rewrite Hvc. intros H. apply outcome_bind_Ok in H as ([vc' r] & Ht & H).
  exists vc', r. split; [done|]. destruct r as [[aggSign|]|]; [|injection H as <- _ <- _; auto..].
  apply outcome_bind_Ok in H as (pc & Hpc & H). destruct pc as [e1|[c bh]]; [injection H as <- _ <- _; auto|].
  destruct (lru_Contains (commitMsg v) (CommitMessage.StateVersion c)) eqn:Ec.
  { injection H as <- _ <- _. split; [done|]. left. cbn [n_events emit]. by rewrite commits_app, Hcan, app_nil_r. }
  apply outcome_bind_Ok in H as ([ss e1] & _ & H). destruct e1 as [e1|].
  { injection H as <- _ <- _. split; [done|]. left. cbn [n_events emit]. by rewrite commits_app, commits_sends, app_nil_r. }
  apply outcome_bind_Ok in H as ([n2 e2] & Hq%commitMsgDispose_quietly%quietly_commits & H). injection H as <- _ <- _.
  split; [done|]. right. exists c. cbn [n_events emit] in *. rewrite commits_app, Hq, !commits_app, commits_sends, Hcan, !app_nil_r.
  split; [done|]. apply tryAggregate_spec in Ht as (_ & _ & [[_ ?]|(_ & Hh & d & Hd & Hr)]); [done|].
  destruct Hr as [?|[Hthr Hrec]]; [done|].
  unfold produceCommitMsg in Hpc. destruct (Codec.Unmarshal _ _ _) as [bh0|?|] eqn:Eu; [|done|done].
  destruct (md_dkgBls (n_md n)) as [d'|] eqn:Ed'; [|done]. destruct (dkg_PubKey d') as [pk|] eqn:Epk; [|done].
  apply outcome_bind_Ok in Hpc as (b & Hb & [= <- _]). cbn in Ec.
  exists d, d', pk, aggSign, bh0. split_and!; try done. unfold key_json. by rewrite Hb.
Qed.

(** ** A proposer's life *)

(** The votes a proposer has recorded: those before its present collector was
    made, and those since. *)
Definition history : Type := list VoteMessage.t * list VoteMessage.t.

Definition all_votes (h : history) : list VoteMessage.t := h.1 ++ h.2.

(** A collector is made once the proposal is valid and the keys are there. *)
Definition launched (valid : bool) (ready : nat -> bool) (v : consensusValidator) (maxPri nodeID : bytes) (m : ProposeMessage.t) : bool :=
  (validateAndCollectProposeMsg valid v maxPri nodeID m).1.2 && wait_ready 10 ready 1.

(** Whether [receiveVoteMessage] reaches the record with a new voter. *)
Definition records (p : consensusProposer) (v : consensusValidator) (n : node) (m : VoteMessage.t) : bool :=
  selfSelected (n_es n) && negb (lru_Contains (commitMsg v) (VoteMessage.StateVersion m)) && negb (lru_Contains (votedRecord p) (voted_key m)).

(** What a proposer does: votes arrive, proposals are launched, keys are
    replaced; the rest of the node leaves votes alone. *)
Inductive pstep : history * consensusProposer -> history * consensusProposer -> Prop :=
| ps_vote wr rd now m h p v n p' v' n' : receiveVoteMessage wr rd now p v n m = Ok (p', v', n') ->
    pstep (h, p) ((h.1, h.2 ++ if records p v n m then [m] else []), p')
| ps_launch valid ready wr rd now height maxPri m h p v n p' v' n' e : launch valid ready wr rd now p v n height maxPri m = Ok (p', v', n', e) ->
    pstep (h, p) (if launched valid ready v maxPri (p_nodeID p) m then (all_votes h, []) else h, p')
| ps_keys d h p : pstep (h, p) (h, set_collector p ((fun vc => collector_updateDKGBls vc d) <$> voteCollector p))
| ps_other h p p' : votedRecord p' = votedRecord p -> voteCollector p' = voteCollector p -> pstep (h, p) (h, p').

(** The record holds the keys of the last two hundred; a collector holds the
    node's own vote and votes recorded since it was made, for one head and the
    next version, each verified. *)
Record collected (cur : list VoteMessage.t) (vc : consensusVoteCollector D) (own rcv : list VoteMessage.t) : Prop := {
  col_votes : votes vc = own ++ rcv;
  col_own : (length own <= 1)%nat;
  col_cur : rcv `sublist_of` cur;
  col_head : forall m m', m ∈ votes vc -> m' ∈ votes vc -> VoteMessage.BlockHead m = VoteMessage.BlockHead m';
  col_version : Forall (fun m => VoteMessage.StateVersion m = u64 (latestHeight vc + 1)) rcv;
  col_verified : Forall (fun m => exists d : D, dkg_Verify d (VoteMessage.BlockHead m) (VoteMessage.Signature m) = true) rcv;
}.

Record count_inv (h : history) (p : consensusProposer) : Prop := {
  cnt_keys : (lru_items (votedRecord p)).*1 = take 200 (reverse (voted_key <$> all_votes h));
  cnt_size : lru_size (votedRecord p) = 200%nat;
  cnt_recent : recent 200 (voted_key <$> all_votes h);
  cnt_votes : match voteCollector p with None => True | Some vc => exists own rcv, collected h.2 vc own rcv end;
}.

Lemma collected_snoc cur vc own rcv m : collected cur vc own rcv -> collected (cur ++ [m]) vc own rcv.
Proof. intros [H1 H2 H3 H4 H5 H6]. split; try done. by apply sublist_inserts_r. Qed.

Lemma same_head (vs : list VoteMessage.t) m : (forall a b, a ∈ vs -> b ∈ vs -> VoteMessage.BlockHead a = VoteMessage.BlockHead b) ->
  VoteMessage.BlockHead (default m (head vs)) = VoteMessage.BlockHead m ->
  forall a b, a ∈ vs ++ [m] -> b ∈ vs ++ [m] -> VoteMessage.BlockHead a = VoteMessage.BlockHead b.
Proof.
  intros H Hm. assert (forall a, a ∈ vs ++ [m] -> VoteMessage.BlockHead a = VoteMessage.BlockHead m) as Ha; [|intros a b Ia Ib; by rewrite (Ha a Ia), (Ha b Ib)].
  intros a [Ia| ->%list_elem_of_singleton]%elem_of_app; [|done]. rewrite <- Hm. destruct vs as [|x vs]; [by apply elem_of_nil in Ia|].
  cbn. apply H; [done|]. by left.
Qed.

(** A record grows by the key that it did not hold. *)
Lemma setIfNotVoted_spec (p : consensusProposer) m : setIfNotVoted p m = (set_votedRecord p (if lru_Contains (votedRecord p) (voted_key m) then votedRecord p
  else lru_Add (votedRecord p) (voted_key m) tt), lru_Contains (votedRecord p) (voted_key m)).
Proof. unfold setIfNotVoted. rewrite lru_ContainsOrAdd_spec. by destruct (lru_Contains _ _). Qed.

Lemma record_new h p m : count_inv h p -> lru_Contains (votedRecord p) (voted_key m) = false ->
  let c := lru_Add (votedRecord p) (voted_key m) tt in
  (lru_items c).*1 = take 200 (reverse (voted_key <$> all_votes (h.1, h.2 ++ [m])))
  /\ lru_size c = 200%nat /\ recent 200 (voted_key <$> all_votes (h.1, h.2 ++ [m])).
Proof.
  intros [Hk Hs Hr _] E c. rewrite lru_Contains_spec, bool_decide_eq_false, Hk in E. unfold all_votes in *. cbn [fst snd].
  rewrite (assoc_L (++)), (fmap_app voted_key (h.1 ++ h.2)), list_fmap_singleton, reverse_snoc. split_and!.
  - apply lru_Add_keys; [by rewrite Hk|done|done].
  - unfold c. by destruct (lru_Add_items (votedRecord p) (voted_key m) tt) as [_ ->].
  - by apply recent_snoc.
Qed.

(** A vote extends what a collector holds. *)
Lemma collected_vote cur vc vc' own rcv m r d : collected cur vc own rcv -> VoteMessage.StateVersion m = u64 (latestHeight vc + 1) ->
  dkg_Verify (D := D) d (VoteMessage.BlockHead m) (VoteMessage.Signature m) = true ->
  tryAggregateSignAndAddVote vc m = Ok (vc', r) -> exists rcv', collected (cur ++ [m]) vc' own rcv'.
Proof.
  intros Hc Hv Hd Ht. apply tryAggregate_spec in Ht as (Hh & _ & [[-> _]|(Hvs & Hm & _)]); [exists rcv; by apply collected_snoc|].
  destruct Hc as [H1 H2 H3 H4 H5 H6]. exists (rcv ++ [m]). split; try done.
  - rewrite Hvs, H1. by rewrite (assoc_L (++)).
  - by apply sublist_app.
  - rewrite Hvs. by apply same_head.
  - rewrite Hh. apply Forall_app. split; [done|]. by apply Forall_singleton.
  - apply Forall_app. split; [done|]. apply Forall_singleton. eauto.
Qed.

(** One vote, in full: without a commit, or with votes enough. *)
Lemma receiveVote_spec h wr rd now p v (n : node) m p' v' n' : count_inv h p -> receiveVoteMessage wr rd now p v n m = Ok (p', v', n') ->
  count_inv (h.1, h.2 ++ if records p v n m then [m] else []) p'
  /\ (commits (n_events n') = commits (n_events n)
      \/ exists c vc own rcv d, commits (n_events n') = commits (n_events n) ++ [c] /\ voteCollector p = Some vc /\ collected h.2 vc own rcv
         /\ records p v n m = true /\ VoteMessage.StateVersion m = u64 (latestHeight vc + 1)
         /\ dkg_Verify (D := D) d (VoteMessage.BlockHead m) (VoteMessage.Signature m) = true /\ enough v n vc m c).
Proof.
  intros Hi. unfold receiveVoteMessage, records. destruct (selfSelected (n_es n)); cbn [negb andb]; [|intros [= <- <- <-]; rewrite app_nil_r; destruct h; auto].
  destruct (lru_Contains (commitMsg v) _) eqn:Ec; cbn [negb andb]; [intros [= <- <- <-]; rewrite app_nil_r; destruct h; auto|].
  rewrite setIfNotVoted_spec. destruct (lru_Contains (votedRecord p) (voted_key m)) eqn:Ek; cbn [negb].
  { intros [= <- <- <-]. rewrite app_nil_r. split; [|by left]. destruct h, p, Hi. by split. }
  destruct (record_new h p m Hi Ek) as (Hk & Hs & Hr). destruct Hi as [_ _ _ Hv]. cbn [voteCollector set_votedRecord].
  destruct (voteCollector p) as [vc|] eqn:Evc; [|done]. destruct Hv as (own & rcv & Hv).
  assert (Hsn : forall p1 : consensusProposer, votedRecord p1 = lru_Add (votedRecord p) (voted_key m) tt ->
     match voteCollector p1 with None => True | Some vc => exists own rcv, collected (h.2 ++ [m]) vc own rcv end -> count_inv (h.1, h.2 ++ [m]) p1).
  { intros p1 E1 Hv1. by split; rewrite ?E1. }
  destruct (_ =? _) eqn:Ever; cbn [negb].
  2: { intros [= <- <- <-]. split; [|by left]. apply Hsn; [done|]. cbn [voteCollector set_votedRecord]. rewrite Evc. eauto using collected_snoc. }
  apply Z.eqb_eq in Ever. destruct (md_dkgBls (n_md n)) as [d|]; [|done]. destruct (dkg_Verify _ _ _) eqn:Evf; cbn [negb].
  2: { intros [= <- <- <-]. split; [|by left]. apply Hsn; [done|]. cbn [voteCollector set_votedRecord]. rewrite Evc. eauto using collected_snoc. }
  destruct (lru_Get _ _) as [c rec]. intros H. apply outcome_bind_Ok in H as ([[[p1 v1] n1] e] & Ha & H).
  eapply aggSignDispose_spec in Ha as (vc' & r & Ht & -> & Hcm); [|exact Evc|apply commits_cancel].
  assert (Hn : n' = n1) by (destruct e; by injection H as _ _ ->). rewrite Hn. split.
  - destruct (collected_vote _ _ _ _ _ _ _ d Hv Ever Evf Ht) as [rcv' Hc']. destruct e; injection H as <- _ _; (apply Hsn; [done|]); cbn.
    + eauto.
    + exists [], []. split; cbn; [done|lia|apply sublist_nil_l|set_solver|done|done].
  - destruct Hcm as [?|(cm & ? & ?)]; [by left|right]. exists cm, vc, own, rcv, d. split_and!; done.
Qed.

Lemma launch_spec valid ready wr rd now p v (n : node) height maxPri m p' v' n' e :
  launch valid ready wr rd now p v n height maxPri m = Ok (p', v', n', e) ->
  votedRecord p' = votedRecord p
  /\ if launched valid ready v maxPri (p_nodeID p) m then exists vc, voteCollector p' = Some vc /\ (length (votes vc) <= 1)%nat
     else voteCollector p' = voteCollector p.
Proof.
  unfold launch, launched. destruct (validateAndCollectProposeMsg _ _ _ _ _) as [[v1 ok] b]; cbn [fst snd].
  destruct ok; cbn [andb]; [|by intros [= <- _ _ _]]. destruct (wait_ready _ _ _); cbn [negb]; [|by intros [= <- _ _ _]].
  destruct (md_dkgBls (n_md n)) as [d|] eqn:Ed; [|done]. destruct (dkg_Sign _ _) as [[sig pk]|]; [|intros [= <- _ _ _]; split; [done|]; eexists; split; [done|cbn; lia]].
  destruct (lru_Get _ _) as [c rec]. intros H. apply outcome_bind_Ok in H as ([[[p1 v2] n1] e1] & Ha & H).
  eapply aggSignDispose_spec in Ha as (vc' & r & Ht & -> & _); [|done|apply commits_cancel].
  assert (Hl : (length (votes vc') <= 1)%nat).
  { apply tryAggregate_spec in Ht as (_ & _ & [[-> _]|(-> & _)]); cbn; lia. }
  assert (votedRecord p' = votedRecord p /\ voteCollector p' = Some vc') as [H1 H2]; [|eauto].
  destruct e1 as [e1|]; [destruct e1|]; try (by injection H as <- _ _ _);
    (apply outcome_bind_Ok in H as ([[ss m1] e2] & _ & H); destruct e2; by injection H as <- _ _ _).
Qed.

Lemma pstep_inv s s' : pstep s s' -> count_inv s.1 s.2 -> count_inv s'.1 s'.2.
Proof.
  intros H Hi. destruct H as [wr rd now m h p v n p' v' n' H|valid ready wr rd now height maxPri m h p v n p' v' n' e H|d h p|h p p' E1 E2]; cbn [fst snd] in *.
  - by eapply receiveVote_spec in H as [H _].
  - apply launch_spec in H as [E1 H]. destruct Hi as [Hk Hs Hr Hv]. destruct (launched _ _ _ _ _ _).
    + destruct H as (vc & E2 & Hl). assert (Ea : all_votes (all_votes h, []) = all_votes h) by apply app_nil_r.
      split; rewrite ?E1, ?E2, ?Ea; [done..|]. exists (votes vc), []. split; [by rewrite app_nil_r|done|done| |done|done].
      destruct (votes vc) as [|x [|y l]]; [set_solver| |cbn in Hl; lia]. intros a b ->%list_elem_of_singleton ->%list_elem_of_singleton. done.
    + split; rewrite ?E1, ?H; done.
  - destruct Hi as [Hk Hs Hr Hv]. split; [done..|]. cbn. destruct (voteCollector p) as [vc|]; [|done]. cbn.
    destruct Hv as (own & rcv & [H1 H2 H3 H4 H5 H6]). exists own, rcv. by split.
  - destruct Hi as [Hk Hs Hr Hv]. split; rewrite ?E1, ?E2; done.
Qed.

Lemma count_inv_new nodeID period : count_inv ([], []) (newConsensusProposer (D := D) (C := C) nodeID period).
Proof.
  destruct (lru_New_items (C := C) (K := bytes) (V := unit) 200) as [E1 E2]. split; cbn; [by rewrite E1|done|by intros i j x ?|done].
Qed.

Lemma rtc_inv s s' : rtc pstep s s' -> count_inv s.1 s.2 -> count_inv s'.1 s'.2.
Proof. induction 1 as [|s s1 s2 H _ IH]; [done|]. intros Hi. apply IH. by eapply pstep_inv. Qed.

Lemma recent_nodup k ks cur : recent k (ks ++ cur) -> (length cur <= k + 1)%nat -> NoDup cur.
Proof.
  intros H Hl. apply NoDup_alt. intros i j x Hi Hj.
  assert (Ha : forall i j, cur !! i = Some x -> cur !! j = Some x -> ~ (i < j)%nat); [|pose proof (Ha i j Hi Hj); pose proof (Ha j i Hj Hi); lia].
  clear i j Hi Hj. intros i j Hi Hj Hij.
  assert ((length ks + i) + k < length ks + j)%nat.
  { apply (H _ _ x); [rewrite lookup_app_r by lia; rewrite <- Hi; f_equal; lia|rewrite lookup_app_r by lia; rewrite <- Hj; f_equal; lia|lia]. }
  apply lookup_lt_Some in Hj. lia.
Qed.

(** Votes for one version with different keys have different voters. *)
Lemma voters_distinct ver vs : Forall (fun m => VoteMessage.StateVersion m = ver) vs -> NoDup (voted_key <$> vs) -> NoDup (VoteMessage.Voter <$> vs).
Proof.
  intros Hv Hn. apply (NoDup_fmap_1 (fun id => Text.FormatUint ver ++ str "@" ++ id)). rewrite <- list_fmap_compose.
  erewrite Forall_fmap_ext_1; [exact Hn|]. eapply Forall_impl; [exact Hv|]. intros m <-. done.
Qed.

End Count.
End CountSpec.

(** * Examples *)

(** A cache as the documentation describes it. *)
Definition lru_list (K V : Type) : Type := nat * list (K * V).

#[export] Instance lru_list_ops : LRU lru_list := {
  lru_New K V n := (n, []);
  lru_Contains K V _ c k := bool_decide (k ∈ c.2.*1);
  lru_Add K V _ c k v := (c.1, take c.1 ((k, v) :: filter (fun x => x.1 <> k) c.2));
  lru_Get K V _ c k :=
    match List.find (fun x => bool_decide (x.1 = k)) c.2 with
    | Some x => (c, Some x.2)
    | None => (c, None)
    end;
  lru_ContainsOrAdd K V _ c k v :=
    if bool_decide (k ∈ c.2.*1) then (c, true) else ((c.1, take c.1 ((k, v) :: filter (fun x => x.1 <> k) c.2)), false);
}.

#[export] Instance lru_list_laws : LRULaws lru_list.
Proof.
  refine {| lru_items K V c := c.2; lru_size K V c := c.1 |}; try done.
  intros K V ? c k. cbn. destruct (List.find _ _); done.
Defined.

Module ConsensusExamples.
Import Composition Deliver ActiveNodes EpochService Cons VoteCollector Validator Proposer VoteSpec ProposalSpec PreparedSpec CountSpec DeliverExamples.
#[local] Existing Instances RefStore.ref_store test_dkg.

Abbreviation store := (gmap bytes kvmap).

#[local] Instance the_ledger : ILedger store store := {
  l_ID _ := str "main";
  l_CreateStateStore l := Ok (l, l);
  l_CreateStateStoreReadonly l := Ok (l, l);
}.

Definition node1 : Cons.node store store bytes bytes :=
  mkNode (Builder.mkProcess ∅ [] ∅ ∅) LedgerState_Uninitialized ∅ ∅ ∅
    (mkEpochService (str "p1") 10 (Some (mkEpochInfo 4 0 5)) nodes true) DeliverExamples.node ∅ [].

Definition heads (proposer pri : bytes) (round version : Z) : ProposeMessage.t :=
  ProposeMessage.mk (str "1") 1 0 round [] [] version pri proposer [str "data"] head_bytes [].

Definition best (m : ProposeMessage.t) : BestProposeMessage.t :=
  BestProposeMessage.mk (str "1") 1 0 (ProposeMessage.Round m) [] [] (ProposeMessage.StateVersion m) (ProposeMessage.MaxPri m)
    (ProposeMessage.Proposer m) (Wire.enc ProposeMessage.desc _ m) [].

Definition net_on (s : send) : bool := true.

Definition voted : option (Validator.consensusValidator lru_list * Cons.node store store bytes bytes) :=
  match receiveBestProposeMsg net_on (fun _ => true) (newConsensusValidator (str "p1")) node1 (best (heads (str "p0") (str "pri") 7 8)) with
  | Ok r => Some r
  | _ => None
  end.

Definition voted1 : Validator.consensusValidator lru_list * Cons.node store store bytes bytes :=
  default (newConsensusValidator (str "p1"), node1) voted.

Lemma voted_some :
  receiveBestProposeMsg net_on (fun _ => true) (newConsensusValidator (str "p1")) node1 (best (heads (str "p0") (str "pri") 7 8)) = Ok voted1
  /\ delivered (n_events voted1.2) = [heads (str "p0") (str "pri") 7 8].
Proof.
  split; [|by vm_compute]. assert (is_Some voted) as [r Hr] by (vm_compute; eauto). unfold voted1. rewrite Hr. revert Hr. unfold voted.
  destruct (receiveBestProposeMsg _ _ _ _ _); [|done..]. by intros [= ->].
Qed.


Lemma best_proposal_kept_witness :
  exists m, propMsgCached (collect (newConsensusValidator (C := lru_list) (str "v"))
    [(true, heads (str "a") (str "3") 7 8); (false, heads (str "b") (str "9") 7 8); (true, heads (str "c") (str "5") 7 8)]) = Some m
  /\ pri (heads (str "c") (str "5") 7 8) <= pri m.
Proof.
  destruct (best_proposal_kept (str "1") 7 8 (newConsensusValidator (C := lru_list) (str "v"))
    [(true, heads (str "a") (str "3") 7 8); (false, heads (str "b") (str "9") 7 8); (true, heads (str "c") (str "5") 7 8)]) as (m & E & _ & H).
  - discriminate.
  - repeat apply List.Forall_cons; try apply List.Forall_nil; by split_and!.
  - apply (bool_decide_unpack _). vm_compute. exact I.
  - intros c Hc. discriminate.
  - exists m. split; [exact E|]. rewrite Forall_forall in H. apply H. right. left.
Defined.

Definition prep (domain : bytes) (version : Z) : PreparePackedMessageProp.t :=
  PreparePackedMessageProp.mk (str "1") 1 0 7 [] [] [] [] [] domain (str "e1") version [] [] [str "h"] [str "r"] [].

Definition proposer2 : Proposer.consensusProposer (D := bytes) (C := lru_list) :=
  set_list (newConsensusProposer (str "p1") 1000000)
    [mkPropMap 5 [(str "d1", prep (str "d1") 5)]; mkPropMap 6 [(str "d1", prep (str "d1") 6); (str "d2", prep (str "d2") 6)]].

Lemma prepared_available_witness :
  exists m, getAvailPPMProp 2 proposer2 5 = Some (set_list proposer2 (drop 1 (ppmPropList proposer2)), Some m) /\ pm_StateVersion m = 6.
Proof.
  destruct (prepared_available proposer2 5 5) as (_ & H & _).
  - apply (prepared_add [mkPropMap 5 [(str "d1", prep (str "d1") 5)]; mkPropMap 6 [(str "d1", prep (str "d1") 6)]] (prep (str "d2") 6));
      [|cbn; lia|reflexivity].
    apply (prepared_add [mkPropMap 5 [(str "d1", prep (str "d1") 5)]] (prep (str "d1") 6)); [|cbn; lia|reflexivity].
    apply (prepared_add [] (prep (str "d1") 5)); [apply prepared_nil|cbn; lia|reflexivity].
  - lia.
  - eexists. split; reflexivity.
  - destruct (H ltac:(cbn; lia) 2%nat ltac:(cbn; lia)) as (m & E & Hv & _). exists m. split; [exact E|exact Hv].
Defined.

(** A proposer with a threshold of two: it launches a proposal, and the first
    vote that comes in commits it. *)
Abbreviation launch1 := (launch (C := lru_list) sign public net_on (take 32) (fun _ _ => Ok (str "dkg")) (fun s : store => Ok (s, None))
  (fun _ => head) (fun _ => chunk [])).
Abbreviation receive1 := (receiveVoteMessage (C := lru_list) sign public net_on (take 32) (fun _ _ => Ok (str "dkg")) (fun s : store => Ok (s, None))
  (fun _ => head) (fun _ => chunk [])).

Definition launching := launch1 true (fun _ => true) 0 0 0 (newConsensusProposer (str "p1") 1000000) (newConsensusValidator (str "p1")) node1 7 (str "pri")
  (heads (str "p1") (str "pri") 7 8).

Definition launched1 := match launching with Ok (p, v, n, _) => Some (p, v, n) | _ => None end.

Definition vote1 : VoteMessage.t := VoteMessage.mk (str "1") 1 0 7 (take 4 head_bytes) (str "v1") (str "dkg") 8 head_bytes [].

Definition counting := '(p, v, n) ← launched1; match receive1 0%nat 0%nat 0 p v n vote1 with Ok (p, v, n) => Some (p, v, n) | _ => None end.

(** What is seen of it, without the stores. *)
Definition seen1 : option (nat * list CommitMessage.t) :=
  '(_, _, n) ← launched1; '(_, _, n') ← counting; Some (length (commits (n_events n)), commits (n_events n')).

Lemma counting_commits : (fun x => (x.1, length x.2)) <$> seen1 = Some (0%nat, 1%nat).
Proof. vm_compute. reflexivity. Qed.

End ConsensusExamples.
