(* ===== verification/Executor.v ===== *)
(** The executor of the consensus (src/consensus/executor.go): the members of
    the selected domain, prepared messages that arrive, the launch of prepared
    messages, commits, and the goroutines that decode transactions. *)
From Stdlib Require Import ZArith Lia Strings.Byte.
From stdpp Require Import base gmap list strings.
From S2P Require Import Prelude Common Backend Wire TxMessages ChainMessages ConsMessages TxBasic StateStore StateBase StateNode StateChain Composition Scheduler RoleSelector EpochService MessageDeliver Consensus.
Import Util Types.
#[local] Open Scope Z_scope.

(** * UnmarshalTxsOfPreparePackedMessage *)

(** The workers decode five hundred transactions each; one that meets an
    invalid transaction says so on an unbuffered channel. One goroutine receives
    once from that channel and cancels the others; the caller waits for the
    workers, sends on the channel itself and waits for that goroutine. *)
Module UnmarshalTxs.

Definition batch : nat := 500.

Definition decode (b : bytes) : outcome Wire.proto_error Transaction.t :=
  Codec.Unmarshal Transaction.desc b (Wire.s_zero Transaction.desc).

Inductive position := Running (m : nat) | Sending | Finished.

Record worker := mkWorker {
  startI : nat;
  endI : nat;
  pos : position;
}.

Inductive receiver := Listening | Received | Ended.

Inductive caller := WaitWorkers | SendExit | WaitReceiver | Returned.

Record machine := mkMachine {
  cancelled : bool;
  workers : list worker;
  recv : receiver;
  main : caller;
  receivedTxList : list (option Transaction.t);
  errRtn : bool;
}.

Fixpoint spans (fuel i txSize : nat) : list (nat * nat) :=
  match fuel with
  | O => []
  | S fuel =>
      if (i <? txSize)%nat then
        let endIndex := if (txSize <=? i + batch)%nat then txSize else (i + batch)%nat in
        (i, endIndex) :: spans fuel endIndex txSize
      else []
  end.

Definition start (txs : list bytes) : machine :=
  mkMachine false ((fun ab => mkWorker ab.1 ab.2 (Running ab.1)) <$> spans (length txs) 0 (length txs)) Listening WaitWorkers
    (replicate (length txs) None) false.

Definition set_pos (s : machine) (i : nat) (p : position) : machine :=
  mkMachine (cancelled s) (alter (fun w => mkWorker (startI w) (endI w) p) i (workers s)) (recv s) (main s) (receivedTxList s) (errRtn s).

(** Steps of the goroutines, in any order. *)
Inductive step (txs : list bytes) (s : machine) : machine -> Prop :=
| s_decode i w m b tx : workers s !! i = Some w -> pos w = Running m -> (m < endI w)%nat -> cancelled s = false ->
    txs !! m = Some b -> decode b = Ok tx ->
    step txs s (set_pos (mkMachine (cancelled s) (workers s) (recv s) (main s) (<[m:=Some tx]> (receivedTxList s)) (errRtn s)) i (Running (S m)))
| s_invalid i w m b e : workers s !! i = Some w -> pos w = Running m -> (m < endI w)%nat -> cancelled s = false ->
    txs !! m = Some b -> decode b = Err e ->
    step txs s (set_pos (mkMachine (cancelled s) (workers s) (recv s) (main s) (receivedTxList s) true) i Sending)
| s_stop i w m : workers s !! i = Some w -> pos w = Running m -> (m < endI w)%nat -> cancelled s = true -> step txs s (set_pos s i Finished)
| s_done i w m : workers s !! i = Some w -> pos w = Running m -> (endI w <= m)%nat -> step txs s (set_pos s i Finished)
| s_send i w : workers s !! i = Some w -> pos w = Sending -> recv s = Listening ->
    step txs s (set_pos (mkMachine (cancelled s) (workers s) Received (main s) (receivedTxList s) (errRtn s)) i Finished)
| s_cancel : recv s = Received -> step txs s (mkMachine true (workers s) Ended (main s) (receivedTxList s) (errRtn s))
| s_joined : main s = WaitWorkers -> Forall (fun w => pos w = Finished) (workers s) ->
    step txs s (mkMachine (cancelled s) (workers s) (recv s) SendExit (receivedTxList s) (errRtn s))
| s_exit : main s = SendExit -> recv s = Listening ->
    step txs s (mkMachine (cancelled s) (workers s) Received WaitReceiver (receivedTxList s) (errRtn s))
| s_return : main s = WaitReceiver -> recv s = Ended ->
    step txs s (mkMachine (cancelled s) (workers s) (recv s) Returned (receivedTxList s) (errRtn s)).

(** What the call comes to: the transactions, or [None] when it never returns. *)
Fixpoint UnmarshalTxsOfPreparePackedMessage (txs : list bytes) : go (option (list Transaction.t)) :=
  match txs with
  | [] => Ok (Some [])
  | b :: txs =>
      match decode b with
      | Ok tx => r ← UnmarshalTxsOfPreparePackedMessage txs; Ok (option_map (cons tx) r)
      | Err _ => Ok None
      | Panic => Panic
      end
  end.
End UnmarshalTxs.

(** * executor.go *)
Module Executor.
Import Composition Deliver ActiveNodes EpochService Execution UnmarshalTxs.

Inductive exe_error :=
| ESameMember
| EInvalidMember
| EBuilder (version : Z)
| EChain (e : state_error)
| EExec (e : exec_error)
| ECount
| EDeliver (e : deliver_error)
| EDelayed
| EHead (e : Wire.proto_error)
| ETxRoot
| ELaunched
| ENotLauncher
| EBusy
| ESelect (e : RoleSelectorVRF.select_error)
| ESelected (count : nat).

(** A handler is done, or waits for something that has not come yet, or for
    something that never comes. *)
Inductive handling := Done (e : option exe_error) | WaitState | WaitVersion | WaitProposers | WaitIndications | Hung.

Section Executor.
Context {L S P T D K : Type} {C : Type -> Type -> Type} `{!IStateStore S, !ILedger L S, !IDKGBls D, !LRU C}.
Variables (Sign : K -> bytes -> option bytes) (ConvertToPublic : K -> option bytes) (Send : send -> bool).
Variable blake2b : bytes -> bytes.
Variables (empty : T) (Update : T -> bytes -> bytes -> T) (Root : T -> bytes).
Variable ExecuteTx : Transaction.t -> world S -> go (world S * option TransactionResult.t).

(** The transaction pool. *)
Variables (PickTxs : P -> list Transaction.t) (RemoveTxByKey : P -> bytes -> P).

Variable UpdateEpoch : BlockHead.t -> world S -> go (world S).
Variable Commit : S -> go (S * option StateStore.store_error).

(** [CSConfig.MaxPrepareMsgCache] *)
Variable maxCache : Z.

Abbreviation env := (env (L := L) (S := S) (P := P)).
Abbreviation executionScheduler := (executionScheduler (T := T)).
Abbreviation messageDeliver := (messageDeliver (D := D) (K := K)).

Record consensusExecutor := mkExecutor {
  x_nodeID : bytes;
  x_priKey : K;
  prepareMsgLunched : C Z unit;
  csDomainSelMsgList : list ConsensusDomainSelectedMessage.t;
  csDomainSelMembers : list NodeDomainMember;
}.

Definition newConsensusExecutor (nodeID : bytes) (priKey : K) : consensusExecutor := mkExecutor nodeID priKey (lru_New 10) [] [].

(** The node around the executor; [st_idle] is a store that nothing reads. *)
Record site := mkSite {
  st_sched : executionScheduler;
  st_env : env;
  st_full : gmap bytes Builder.compositionStateOfNodeFull;
  st_simple : gmap bytes Builder.compositionStateOfNodeSimple;
  st_es : epochService;
  st_md : messageDeliver;
  st_idle : S;
  st_sent : list send;
  st_told : list (epoch_event (C := D));
}.

Definition set_exec (s : site) (x : executionScheduler) (e : env) : site :=
  mkSite x e (st_full s) (st_simple s) (st_es s) (st_md s) (st_idle s) (st_sent s) (st_told s).

Definition set_launched (x : consensusExecutor) (c : C Z unit) : consensusExecutor :=
  mkExecutor (x_nodeID x) (x_priKey x) c (csDomainSelMsgList x) (csDomainSelMembers x).

Definition sending (s : site) (ss : list send) : site :=
  mkSite (st_sched s) (st_env s) (st_full s) (st_simple s) (st_es s) (st_md s) (st_idle s) (st_sent s ++ ss) (st_told s).

Definition process_of (s : site) : Builder.process L S :=
  Builder.mkProcess (e_ledger (st_env s)) (e_heap (st_env s)) (st_full s) (st_simple s).

Definition put_process (s : site) (p : Builder.process L S) : site :=
  let e := st_env s in
  mkSite (st_sched s)
    (mkEnv (Builder.p_ledger p) (e_ledgerState e) (Builder.heap p) (e_blocks e) (e_results e) (e_epochs e) (e_pool e) (e_events e))
    (Builder.full p) (Builder.simple p) (st_es s) (st_md s) (st_idle s) (st_sent s) (st_told s).

(** The caches of the latest block and epoch, with a store. *)
Definition caches (s : site) : world S :=
  let e := st_env s in mkWorld (st_idle s) (e_ledgerState e) (e_blocks e) (e_results e) (e_epochs e).

Definition put_caches (s : site) (l : L) (w : world S) : site :=
  let e := st_env s in
  set_exec s (st_sched s) (mkEnv l (w_ledger w) (e_heap e) (latestBlockMap w) (latestBlockRSMap w) (latestEpochMap w) (e_pool e) (e_events e)).

Definition latest_block (s : site) : go (site * (state_error + Block.t)) :=
  '(l, w, b) ← GetLatestBlock (e_ledger (st_env s)) (caches s); Ok (put_caches s l w, b).

(** A read through a composition state. *)
Definition reading {A} (s : site) (r : ref) (f : compositionState S -> world S -> go (world S * A)) : go (site * A) :=
  match e_heap (st_env s) !! r with
  | None => Panic
  | Some cs => '(w, a) ← f cs (world_of (st_env s) cs); Ok (set_exec s (st_sched s) (put_world (st_env s) r w), a)
  end.

Definition create (s : site) (nodeID : bytes) (version : Z) : go (site * option ref) :=
  '(p, r) ← Builder.full_CreateCompositionState (process_of s) nodeID version; Ok (put_process s p, r).

(** ** The members of the selected domain *)

Definition member_of (m : ConsensusDomainSelectedMessage.t) : NodeDomainMember :=
  mkNodeDomainMember (ConsensusDomainSelectedMessage.NodeIDOfMember m) (ConsensusDomainSelectedMessage.NodeRoleOfMember m)
    (ConsensusDomainSelectedMessage.NodeWeightOfMember m).

(** Whether a message fits the last one. *)
Definition fits (x : consensusExecutor) (m : ConsensusDomainSelectedMessage.t) : option exe_error :=
  match last (csDomainSelMsgList x) with
  | None => None
  | Some l =>
      if bool_decide (ConsensusDomainSelectedMessage.DomainID m = ConsensusDomainSelectedMessage.DomainID l)
         && (ConsensusDomainSelectedMessage.MemberNumber m =? ConsensusDomainSelectedMessage.MemberNumber l)
      then if decide (ConsensusDomainSelectedMessage.NodeIDOfMember m = ConsensusDomainSelectedMessage.NodeIDOfMember l)
           then Some ESameMember else None
      else Some EInvalidMember
  end.

(** One message of [startConsensusDomainSelectedMsg]; the error of a message
    that does not fit is logged. *)
Definition receiveConsensusDomainSelectedMsg (x : consensusExecutor) (s : site) (m : ConsensusDomainSelectedMessage.t) :
    go (consensusExecutor * site * option exe_error) :=
  match fits x m with
  | Some e => Ok (x, s, Some e)
  | None =>
      let msgs := csDomainSelMsgList x ++ [m] in
      let members := csDomainSelMembers x ++ [member_of m] in
      if u32 (Z.of_nat (length msgs)) =? ConsensusDomainSelectedMessage.MemberNumber m then
        '(es, l, w, evs) ← UpdateData (C := D) (st_es s) (e_ledger (st_env s)) (Some <$> members) (caches s);
        let s := put_caches s l w in
        Ok (mkExecutor (x_nodeID x) (x_priKey x) (prepareMsgLunched x) [] [],
            mkSite (st_sched s) (st_env s) (st_full s) (st_simple s) es (st_md s) (st_idle s) (st_sent s) (st_told s ++ evs), None)
      else Ok (mkExecutor (x_nodeID x) (x_priKey x) (prepareMsgLunched x) msgs members, s, None)
  end.

(** ** Prepared messages of other executors *)

(** From the creation of the composition state on, which is repeated until
    there is one. The parent's hash is compared for the log only, and an
    execution that fails is indicated to the launcher all the same. *)
Definition execute_received (x : consensusExecutor) (s : site) (m : PreparePackedMessageExe.t) : go (site * handling) :=
  let version := PreparePackedMessageExe.StateVersion m in
  '(s, r) ← create s (x_nodeID x) version;
  match r with
  | None => Ok (s, WaitState)
  | Some r =>
      '(s, b) ← reading s r (fun cs => Chain.GetLatestBlock (cs_chain cs));
      match b with
      | inl e => Ok (s, Executor.Done (Some (EChain e)))
      | inr latestBlock =>
          _ ← BlockOps.HashBytes blake2b latestBlock;
          txs ← UnmarshalTxsOfPreparePackedMessage (PreparePackedMessageExe.Txs m);
          match txs with
          | None => Ok (s, Hung)
          | Some txs =>
              if decide (Tx.TxRootByBytes blake2b empty Update Root (PreparePackedMessageExe.Txs m) = PreparePackedMessageExe.TxRoot m) then
                '(sched, e, _) ← ExecutePackedTx blake2b empty Update Root ExecuteTx RemoveTxByKey maxCache (st_sched s) (st_env s)
                  (mkPackedTxs version (PreparePackedMessageExe.TxRoot m) txs) r;
                '(ss, err) ← deliverPreparePackagedMessageExeIndication Sign ConvertToPublic Send (st_md s) (PreparePackedMessageExe.Launcher m)
                  (PreparePackedMessageExeIndication.mk (PreparePackedMessageExe.ChainID m) (PreparePackedMessageExe.Version m)
                     (PreparePackedMessageExe.Epoch m) (PreparePackedMessageExe.Round m) [] [] [] version []);
                Ok (sending (set_exec s sched e) ss, Executor.Done (EDeliver <$> err))
              else Ok (s, Executor.Done (Some ETxRoot))
          end
      end
  end.

(** One message of [receivePreparePackedMessageExeStart]. *)
Definition receivePreparePackedMessageExe (x : consensusExecutor) (s : site) (m : PreparePackedMessageExe.t) :
    go (consensusExecutor * site * handling) :=
  let '(c, seen) := lru_ContainsOrAdd (prepareMsgLunched x) (PreparePackedMessageExe.StateVersion m) tt in
  let x := set_launched x c in
  if seen : bool then Ok (x, s, Executor.Done (Some ELaunched))
  else '(s, h) ← execute_received x s m; Ok (x, s, h).

(** ** Commits *)

(** One message of [receiveCommitMsgStart]. *)
Definition receiveCommitMsg (s : site) (m : CommitMessage.t) : go (site * option exe_error) :=
  match Codec.Unmarshal BlockHead.desc (CommitMessage.BlockHead m) (Wire.s_zero BlockHead.desc) with
  | Panic => Panic
  | Err e => Ok (s, Some (EHead e))
  | Ok bh =>
      '(s, b) ← latest_block s;
      match b with
      | inl e => Ok (s, Some (EChain e))
      | inr latestBlock =>
          match Block.Head latestBlock with
          | None => Panic
          | Some h =>
              if i64 (i64 (BlockHead.Height bh) - i64 (BlockHead.Height h)) <=? 0 then Ok (s, Some EDelayed)
              else
                '(sched, e, err) ← CommitPackedTx blake2b UpdateEpoch Commit (st_sched s) (st_env s)
                  (CommitMessage.StateVersion m) (CommitMessage.RefIndex m) bh;
                Ok (set_exec s sched e, (EExec <$> err : option exe_error))
          end
      end
  end.

(** ** Launching *)

Definition canPrepare (x : consensusExecutor) (s : site) (domainID : bytes) (stateVersion : Z) (latestBlock : Block.t) :
    go (exe_error + bool * bytes) :=
  match schedulerState (st_sched s) with
  | SchedulerState_Idle =>
      r ← RoleSelectorVRF.Select blake2b Sign RoleSelectorVRF.RoleSelector_ExecutionLauncher domainID stateVersion (x_priKey x) latestBlock
        (servant (infos (st_es s)) (currentEpoch (st_es s))) 1;
      match r with
      | inl e => Ok (inl (ESelect e))
      | inr ([id], vrfProof) => Ok (inr (bool_decide (id = x_nodeID x), vrfProof))
      | inr (ids, _) => Ok (inl (ESelected (length ids)))
      end
  | _ => Ok (inl EBusy)
  end.

(** The encodings and hashes of the transactions and results, by index. *)
Fixpoint pack (txs : list Transaction.t) (rs : list TransactionResult.t) : go (list bytes * list bytes * list bytes) :=
  match txs, rs with
  | t :: txs, r :: rs =>
      b ← Codec.Marshal Transaction.desc t;
      h ← Tx.HashBytes blake2b t;
      rh ← Tx.TxResult_HashBytes blake2b r;
      '(bs, hs, rhs) ← pack txs rs;
      Ok (default [] b :: bs, default [] h :: hs, default [] rh :: rhs)
  | _, _ => Ok ([], [], [])
  end.

Definition makePreparePackedMsg (x : consensusExecutor) (s : site) (r : ref) (domainID vrfProof txRoot txRSRoot : bytes) (stateVersion : Z)
    (txList : list Transaction.t) (txResultList : list TransactionResult.t) :
    go (site * (exe_error + PreparePackedMessageExe.t * PreparePackedMessageProp.t)) :=
  if negb (length txList =? length txResultList)%nat then Ok (s, inl ECount)
  else
    '(s, ep) ← reading s r (fun cs => Epoch.GetLatestEpoch);
    match ep with
    | inl e => Ok (s, inl (EChain e))
    | inr epochInfo =>
        '(s, b) ← reading s r (fun cs => Chain.GetLatestBlock (cs_chain cs));
        match b with
        | inl e => Ok (s, inl (EChain e))
        | inr latestBlock =>
            parent ← BlockOps.HashBytes blake2b latestBlock;
            '(s, id) ← reading s r (fun cs => Chain.ChainID);
            match epochInfo, Block.Head latestBlock with
            | Some ep, Some h =>
                '(bs, hs, rhs) ← pack txList txResultList;
                let chainID := match id with inr id => id | inl _ => [] end in
                let pubKey := default [] (ConvertToPublic (x_priKey x)) in
                Ok (s, inr (
                  PreparePackedMessageExe.mk chainID CONSENSUS_VER (Epoch ep) (BlockHead.Height h) [] [] parent vrfProof pubKey domainID
                    (x_nodeID x) stateVersion txRoot bs [],
                  PreparePackedMessageProp.mk chainID CONSENSUS_VER (Epoch ep) (BlockHead.Height h) [] [] parent vrfProof pubKey domainID
                    (x_nodeID x) stateVersion txRoot txRSRoot hs rhs []))
            | _, _ => Panic
            end
        end
    end.

(** The counting of indications, the node itself included, until there are as
    many as executors: [None] when the messages that come do not bring the count
    to the number. *)
Fixpoint await_indications (recvCount requiredCount : nat) (arrivals : list PreparePackedMessageExeIndication.t) : option nat :=
  match arrivals with
  | [] => None
  | _ :: arrivals =>
      if (Datatypes.S recvCount =? requiredCount)%nat then Some (length arrivals)
      else await_indications (Datatypes.S recvCount) requiredCount arrivals
  end.

(** [arrivals] are the indications on the channel, of whatever version, and
    [polls] what asking for proposers gives. A delivery that fails ends the
    counting, and the proposers are told all the same. *)
Definition Prepare (arrivals : list PreparePackedMessageExeIndication.t) (polls : list (list bytes)) (x : consensusExecutor) (s : site)
    (domainID vrfProof : bytes) (stateVersion : Z) : go (consensusExecutor * site * handling) :=
  match PickTxs (e_pool (st_env s)) with
  | [] => Ok (x, s, Executor.Done None)
  | pendTxs =>
      '(s, r) ← create s (x_nodeID x) stateVersion;
      match r with
      | None => Ok (x, s, Executor.Done (Some (EBuilder stateVersion)))
      | Some r =>
          txRoot ← Tx.TxRoot blake2b empty Update Root pendTxs;
          '(sched, e, rs) ← ExecutePackedTx blake2b empty Update Root ExecuteTx RemoveTxByKey maxCache (st_sched s) (st_env s)
            (mkPackedTxs stateVersion txRoot pendTxs) r;
          let s := set_exec s sched e in
          match rs with
          | inl err => Ok (x, s, Executor.Done (Some (EExec err)))
          | inr None => Panic
          | inr (Some txsRS) =>
              '(s, ms) ← makePreparePackedMsg x s r domainID vrfProof txRoot (pr_TxRSRoot txsRS) stateVersion pendTxs (pr_TxsResult txsRS);
              match ms with
              | inl err => Ok (x, s, Executor.Done (Some err))
              | inr (packedMsgExe, packedMsgProp) =>
                  let activeExecutors := getActiveExecutorIDsOfDomain (infos (st_es s)) domainID in
                  '(ss, err) ← deliverPreparePackagedMessageExe Sign ConvertToPublic Send (st_md s) (infos (st_es s)) domainID packedMsgExe;
                  let s := sending s ss in
                  match err, await_indications 1 (length activeExecutors) arrivals with
                  | None, None => Ok (x, s, WaitIndications)
                  | _, _ =>
                      d ← deliverPreparePackagedMessageProp Sign ConvertToPublic Send (st_md s) polls packedMsgProp;
                      match d with
                      | None => Ok (x, s, WaitProposers)
                      | Some (ss, Some err) => Ok (x, sending s ss, Executor.Done (Some (EDeliver err)))
                      | Some (ss, None) =>
                          Ok (set_launched x (lru_ContainsOrAdd (prepareMsgLunched x) stateVersion tt).1, sending s ss, Executor.Done None)
                      end
                  end
              end
          end
      end
  end.

(** One tick of [prepareTimerStart], for the domain that the node found itself
    in when it started; the highest version is asked for until there is one. *)
Definition prepareTimer (arrivals : list PreparePackedMessageExeIndication.t) (polls : list (list bytes)) (x : consensusExecutor) (s : site)
    (domainID : bytes) : go (consensusExecutor * site * handling) :=
  '(s, b) ← latest_block s;
  match b with
  | inl e => Ok (x, s, Executor.Done (Some (EChain e)))
  | inr latestBlock =>
      v ← MaxStateVersion (st_sched s) latestBlock;
      match v with
      | inl _ => Ok (x, s, WaitVersion)
      | inr maxStateVersion =>
          let stateVersion := u64 (maxStateVersion + 1) in
          if lru_Contains (prepareMsgLunched x) stateVersion then Ok (x, s, Executor.Done (Some ELaunched))
          else
            can ← canPrepare x s domainID stateVersion latestBlock;
            match can with
            | inr (true, vrfProof) => Prepare arrivals polls x s domainID vrfProof stateVersion
            | inr (false, _) => Ok (x, s, Executor.Done (Some ENotLauncher))
            | inl e => Ok (x, s, Executor.Done (Some e))
            end
      end
  end.
End Executor.
End Executor.
