(* ===== verification/ExecutorSpec.v ===== *)
(** Correctness of the executor: the decoding goroutines, the agreement of
    launcher and executors on what is executed, and the end of a launch. *)
From Stdlib Require Import ZArith Lia Strings.Byte.
From stdpp Require Import base gmap list strings relations.
From S2P Require Import Prelude Common Backend Wire TxMessages ChainMessages ConsMessages TxBasic Text Json JsonCodec StateStore StateBase StateNode StateChain StateChainSpec Composition Scheduler SchedulerSpec RoleSelector EpochService MessageDeliver MessageDeliverSpec Consensus ConsensusSpec Executor.
Import Util Types.
#[local] Open Scope Z_scope.

(** * The decoding goroutines *)
Module UnmarshalSpec.
Import UnmarshalTxs.
#[local] Open Scope nat_scope.

(** ** The batches *)

Lemma spans_cover fuel i n k : n - i <= fuel -> i <= k < n -> exists ab, ab ∈ spans fuel i n /\ ab.1 <= k < ab.2.
Proof.
  revert i. induction fuel as [|fuel IH]; intros i Hf Hk; [lia|]. cbn [spans]. destruct (Nat.ltb_spec i n); [|lia].
  set (e := if n <=? i + batch then n else i + batch). assert (i < e <= n) as [He1 He2].
  { subst e. unfold batch. destruct (Nat.leb_spec n (i + 500)); lia. }
  destruct (decide (k < e)); [exists (i, e); split; [left|cbn; lia]|].
  destruct (IH e) as (ab & Hab & H2); [lia|lia|]. exists ab. split; [by right|done].
Qed.

Lemma spans_range fuel i n ab : ab ∈ spans fuel i n -> i <= ab.1 <= ab.2 /\ ab.2 <= n.
Proof.
  revert i. induction fuel as [|fuel IH]; intros i; cbn [spans]; [by intros ?%elem_of_nil|].
  destruct (Nat.ltb_spec i n); [|by intros ?%elem_of_nil]. set (e := if n <=? i + batch then n else i + batch).
  assert (i <= e <= n) by (subst e; unfold batch; destruct (Nat.leb_spec n (i + 500)); lia).
  intros [->|H1%IH]%elem_of_cons; cbn; lia.
Qed.

(** ** Every run ends *)

Definition todo (w : worker) : nat := match pos w with Running m => 3 + (endI w - m) | Sending => 1 | Finished => 0 end.

Definition measure (s : machine) : nat :=
  sum_list_with todo (workers s) + match recv s with Listening => 2 | Received => 1 | Ended => 0 end
  + match main s with WaitWorkers => 3 | SendExit => 2 | WaitReceiver => 1 | Returned => 0 end.

Lemma sum_alter (f : worker -> worker) ws i w : ws !! i = Some w ->
  sum_list_with todo (alter f i ws) + todo w = sum_list_with todo ws + todo (f w).
Proof.
  revert i. induction ws as [|x ws IH]; intros [|i] H; [done..| |].
  - injection H as ->. cbn. lia.
  - change (alter f (S i) (x :: ws)) with (x :: alter f i ws). specialize (IH i H). cbn [sum_list_with] in *. lia.
Qed.

Lemma step_measure txs s s' : step txs s s' -> measure s' < measure s.
Proof.
  intros H.
  assert (Ha : forall i w p, workers s !! i = Some w -> let w' := mkWorker (startI w) (endI w) p in todo w' < todo w ->
    sum_list_with todo (alter (fun w => mkWorker (startI w) (endI w) p) i (workers s)) < sum_list_with todo (workers s)).
  { intros i w p Hw w' Hlt. pose proof (sum_alter (fun w => mkWorker (startI w) (endI w) p) _ _ _ Hw). subst w'. cbn beta in *. lia. }
  destruct H as [i w m b tx Hw Hp Hlt _ _ _|i w m b e Hw Hp Hlt _ _ _|i w m Hw Hp Hlt _|i w m Hw Hp Hlt|i w Hw Hp Hr|Hr|Hm _|Hm Hr|Hm Hr];
    unfold measure; cbn [set_pos workers recv main]; rewrite ?Hr, ?Hm; try lia.
  - pose proof (Ha i w (Running (S m)) Hw ltac:(unfold todo; rewrite Hp; cbn; lia)). lia.
  - pose proof (Ha i w Sending Hw ltac:(unfold todo; rewrite Hp; cbn; lia)). lia.
  - pose proof (Ha i w Finished Hw ltac:(unfold todo; rewrite Hp; cbn; lia)). lia.
  - pose proof (Ha i w Finished Hw ltac:(unfold todo; rewrite Hp; cbn; lia)). lia.
  - pose proof (Ha i w Finished Hw ltac:(unfold todo; rewrite Hp; cbn; lia)). lia.
Qed.

(** ** Valid transactions *)

Definition filled (rs : list Transaction.t) (l : list (option Transaction.t)) (a b : nat) : Prop := forall k, a <= k < b -> l !! k = Some (rs !! k).

Record valid_inv (txs : list bytes) (rs : list Transaction.t) (s : machine) : Prop := {
  vi_err : errRtn s = false;
  vi_len : length (receivedTxList s) = length txs;
  vi_spans : (fun w => (startI w, endI w)) <$> workers s = spans (length txs) 0 (length txs);
  vi_workers i w : workers s !! i = Some w ->
    match pos w with
    | Running m => startI w <= m <= endI w /\ filled rs (receivedTxList s) (startI w) m
    | Sending => False
    | Finished => filled rs (receivedTxList s) (startI w) (endI w)
    end;
  vi_recv : match main s with WaitWorkers | SendExit => recv s = Listening | WaitReceiver => recv s <> Listening | Returned => recv s = Ended end;
  vi_cancel : cancelled s = true -> recv s = Ended;
  vi_main : main s = WaitWorkers \/ Forall (fun w => pos w = Finished) (workers s);
}.

Lemma valid_start txs rs : valid_inv txs rs (start txs).
Proof.
  split; cbn; try done.
  - apply length_replicate.
  - rewrite <- list_fmap_compose. etrans; [|apply list_fmap_id]. apply list_fmap_ext. intros i [a b] _. done.
  - intros i w Hw. rewrite list_lookup_fmap in Hw. apply fmap_Some in Hw as ([a b] & Hab & ->). cbn.
    apply list_elem_of_lookup_2, spans_range in Hab. cbn in Hab. split; [lia|]. intros k Hk. lia.
  - by left.
Qed.

Lemma filled_insert rs l a b m tx : m < length l -> rs !! m = Some tx -> filled rs l a b -> filled rs (<[m:=Some tx]> l) a b.
Proof.
  intros Hm Hr H k Hk. destruct (decide (k = m)) as [->|]; [rewrite list_lookup_insert_eq by done; by rewrite Hr|].
  rewrite list_lookup_insert_ne by done. auto.
Qed.

Lemma alter_spans (f : worker -> worker) (i : nat) (ws : list worker) : (forall w, startI (f w) = startI w /\ endI (f w) = endI w) ->
  (fun w => (startI w, endI w)) <$> alter f i ws = (fun w => (startI w, endI w)) <$> ws.
Proof.
  intros Hf. apply list_eq. intros j. rewrite !list_lookup_fmap. destruct (decide (i = j)) as [->|Hne].
  - rewrite list_lookup_alter_eq. destruct (ws !! j) as [w|]; [|done]. cbn. by destruct (Hf w) as [-> ->].
  - by rewrite list_lookup_alter_ne.
Qed.

(** A worker moves; the others keep what they have. *)
Lemma valid_move txs rs s i w p l : valid_inv txs rs s -> workers s !! i = Some w -> main s = WaitWorkers ->
  length l = length txs -> (forall a b, filled rs (receivedTxList s) a b -> filled rs l a b) ->
  match p with
  | Running m => startI w <= m <= endI w /\ filled rs l (startI w) m
  | Sending => False
  | Finished => filled rs l (startI w) (endI w)
  end ->
  valid_inv txs rs (set_pos (mkMachine (cancelled s) (workers s) (recv s) (main s) l (errRtn s)) i p).
Proof.
  intros [He Hl Hsp Hw Hr Hc Hm] Hi Hmain Hl' Hf Hp. split; cbn; try done.
  - by rewrite alter_spans.
  - intros j w' Hj. destruct (decide (i = j)) as [<-|Hne].
    + rewrite list_lookup_alter_eq, Hi in Hj. injection Hj as <-. cbn. done.
    + rewrite list_lookup_alter_ne in Hj by done. specialize (Hw j w' Hj). destruct (pos w'); [|done|by apply Hf].
      split; [apply Hw|apply Hf, Hw].
  - by left.
Qed.

Lemma valid_step txs rs s s' : Forall2 (fun b tx => decode b = Ok tx) txs rs -> step txs s s' -> valid_inv txs rs s -> valid_inv txs rs s'.
Proof.
  intros Hd H Hi.
  assert (Hmain : forall i w, workers s !! i = Some w -> pos w <> Finished -> main s = WaitWorkers).
  { intros i w Hw Hp. destruct (vi_main _ _ _ Hi) as [|Hall]; [done|]. by eapply Forall_lookup_1 in Hall. }
  destruct H as [i w m b tx Hw Hp Hlt Hca Hb Htx|i w m b e Hw Hp Hlt Hca Hb Htx|i w m Hw Hp Hlt Hca|i w m Hw Hp Hlt|i w Hw Hp Hr|Hr|Hm Hall|Hm Hr|Hm Hr].
  - pose proof (vi_workers _ _ _ Hi i w Hw) as Hwi. rewrite Hp in Hwi. destruct Hwi as [Hm Hf].
    assert (Hrs : rs !! m = Some tx). { destruct (Forall2_lookup_l _ _ _ _ _ Hd Hb) as (tx' & ? & E). rewrite Htx in E. by injection E as ->. }
    assert (Hml : m < length (receivedTxList s)) by (rewrite (vi_len _ _ _ Hi); by eapply lookup_lt_Some).
    eapply valid_move; eauto; [eapply Hmain; [done|by rewrite Hp]|by rewrite length_insert, (vi_len _ _ _ Hi)|intros; by apply filled_insert|].
    split; [lia|]. intros k Hk. destruct (decide (k = m)) as [->|]; [rewrite list_lookup_insert_eq by done; by rewrite Hrs|].
    rewrite list_lookup_insert_ne by done. apply Hf. lia.
  - exfalso. destruct (Forall2_lookup_l _ _ _ _ _ Hd Hb) as (tx' & _ & E). congruence.
  - exfalso. assert (main s = WaitWorkers) as Hmn by (eapply Hmain; [done|by rewrite Hp]). pose proof (vi_recv _ _ _ Hi) as Hr.
    rewrite Hmn, (vi_cancel _ _ _ Hi Hca) in Hr. done.
  - pose proof (vi_workers _ _ _ Hi i w Hw) as Hwi. rewrite Hp in Hwi. destruct Hwi as [Hm Hf].
    replace m with (endI w) in Hf by lia. destruct s. refine (valid_move txs rs _ i w Finished _ Hi Hw _ (vi_len _ _ _ Hi) (fun _ _ H => H) Hf).
    eapply Hmain; [done|by rewrite Hp].
  - exfalso. pose proof (vi_workers _ _ _ Hi i w Hw) as Hwi. by rewrite Hp in Hwi.
  - destruct Hi as [He Hl Hsp Hwk Hrc Hc Hm]. split; cbn; try done. destruct (main s); [congruence..|done|done].
  - destruct Hi as [He Hl Hsp Hwk Hrc Hc _]. split; cbn; try done; [by rewrite Hm in Hrc|by right].
  - destruct Hi as [He Hl Hsp Hwk Hrc Hc [|]]; [congruence|]. split; cbn; try done; [|by right]. intros E%Hc. congruence.
  - destruct Hi as [He Hl Hsp Hwk Hrc Hc [|]]; [congruence|]. split; cbn; try done. by right.
Qed.

#[local] Instance position_eq_dec : EqDecision position.
Proof. solve_decision. Defined.

Lemma valid_progress txs rs s : Forall2 (fun b tx => decode b = Ok tx) txs rs -> valid_inv txs rs s -> main s <> Returned -> exists s', step txs s s'.
Proof.
  intros Hd [He Hl Hsp Hw Hr Hc Hm] Hmn. destruct (main s) eqn:Em; [| | |done].
  - destruct (decide (Forall (fun w => pos w = Finished) (workers s))) as [Hall|Hn]; [eexists; by apply s_joined|].
    apply not_Forall_Exists in Hn; [|intros w; apply _]. apply Exists_exists in Hn as (w & [i Hi]%list_elem_of_lookup & Hp). specialize (Hw i w Hi).
    destruct (pos w) as [m| |] eqn:Ep; [|done|done]. destruct (decide (endI w <= m)) as [|Hlt]; [eexists; by eapply s_done|].
    assert (Hsw : (startI w, endI w) ∈ spans (length txs) 0 (length txs)).
    { rewrite <- Hsp. apply list_elem_of_fmap. exists w. split; [done|]. by eapply list_elem_of_lookup_2. }
    apply spans_range in Hsw. cbn in Hsw. destruct (lookup_lt_is_Some_2 txs m) as [b Hb]; [lia|].
    destruct (Forall2_lookup_l _ _ _ _ _ Hd Hb) as (tx & _ & Htx). eexists. eapply s_decode; eauto; [lia|].
    destruct (cancelled s); [|done]. rewrite Hc in Hr by done. done.
  - eexists. by apply s_exit.
  - destruct (recv s) eqn:Er; [done|eexists; by apply s_cancel|eexists; by apply s_return].
Qed.

Lemma valid_filled txs rs s : Forall2 (fun b tx => decode b = Ok tx) txs rs -> valid_inv txs rs s -> main s = Returned -> receivedTxList s = Some <$> rs.
Proof.
  intros Hd [He Hl Hsp Hw Hr Hc Hm] Hmn. destruct Hm as [|Hall]; [congruence|]. apply Forall2_length in Hd. apply list_eq. intros k.
  rewrite list_lookup_fmap. destruct (decide (k < length txs)) as [Hk|Hk].
  - destruct (spans_cover (length txs) 0 (length txs) k) as ([a b] & Hab & Hk2); [lia|lia|]. rewrite <- Hsp in Hab.
    apply list_elem_of_fmap in Hab as (w & [= -> ->] & [i Hi]%list_elem_of_lookup). specialize (Hw i w Hi).
    rewrite (Forall_lookup_1 _ _ _ _ Hall Hi) in Hw. rewrite (Hw k Hk2). by destruct (lookup_lt_is_Some_2 rs k) as [x ->]; [lia|].
  - rewrite !lookup_ge_None_2 by lia. done.
Qed.

(** ** An invalid transaction *)

Record invalid_inv (j m : nat) (s : machine) : Prop := {
  ii_worker : exists w, workers s !! j = Some w /\ startI w <= m < endI w
    /\ match pos w with Running k => k <= m | Sending => True | Finished => recv s <> Listening end;
  ii_cancel : cancelled s = true -> recv s = Ended;
  ii_main : main s = WaitWorkers \/ (main s = SendExit /\ Forall (fun w => pos w = Finished) (workers s));
}.

Lemma invalid_start txs m : m < length txs -> exists j, invalid_inv j m (start txs).
Proof.
  intros Hm. destruct (spans_cover (length txs) 0 (length txs) m) as ([a b] & [j Hj]%list_elem_of_lookup & Hab); [lia|lia|]. exists j. split; cbn; [|done|by left].
  exists (mkWorker a b (Running a)). rewrite list_lookup_fmap, Hj. cbn in *. split; [done|]. lia.
Qed.

(** One of the workers moves. *)
Lemma invalid_move j m s i w p r l e : invalid_inv j m s -> workers s !! i = Some w -> pos w <> Finished -> (r = recv s \/ r <> Listening /\ cancelled s = false) ->
  (i = j -> startI w <= m < endI w -> (match pos w with Running k => k <= m | _ => True end) ->
     match p with Running k => k <= m | Sending => True | Finished => r <> Listening end) ->
  invalid_inv j m (set_pos (mkMachine (cancelled s) (workers s) r (main s) l e) i p).
Proof.
  intros [(wj & Hj & Hr & Hp) Hc Hm] Hi Hnf Hrec Hnew. split; cbn.
  - destruct (decide (i = j)) as [<-|Hne].
    + assert (wj = w) as -> by congruence. exists (mkWorker (startI w) (endI w) p). rewrite list_lookup_alter_eq, Hi. cbn. split; [done|]. split; [done|].
      apply Hnew; [done|done|]. by destruct (pos w).
    + exists wj. rewrite list_lookup_alter_ne by done. split; [done|]. split; [done|]. destruct (pos wj); [done|done|]. by destruct Hrec as [->|[? _]].
  - destruct Hrec as [->|[_ ->]]; [done|done].
  - left. destruct Hm as [|[_ Hall]]; [done|]. exfalso. apply Hnf. by eapply Forall_lookup_1 in Hall.
Qed.

Lemma invalid_step txs j m b e s s' : txs !! m = Some b -> decode b = Err e -> step txs s s' -> invalid_inv j m s -> invalid_inv j m s'.
Proof.
  intros Hb Hd H Hi. assert (Hlc : recv s <> Ended -> cancelled s = false).
  { intros Hr. pose proof (ii_cancel _ _ _ Hi). destruct (cancelled s); [|done]. by destruct Hr; auto. }
  destruct H as [i w k b' tx Hw Hp Hlt Hca Hb' Htx|i w k b' e' Hw Hp Hlt Hca Hb' Htx|i w k Hw Hp Hlt Hca|i w k Hw Hp Hlt|i w Hw Hp Hr|Hr|Hm Hall|Hm Hr|Hm Hr].
  - eapply invalid_move; [done|done|by rewrite Hp|by left|]. rewrite Hp. intros -> Hm Hk. assert (k <> m) by congruence. lia.
  - eapply invalid_move; [done|done|by rewrite Hp|by left|]. done.
  - destruct s. refine (invalid_move j m _ i w Finished _ _ _ Hi Hw _ (or_introl eq_refl) _); [by rewrite Hp|]. intros _ _ _. by rewrite (ii_cancel _ _ _ Hi Hca).
  - destruct s. refine (invalid_move j m _ i w Finished _ _ _ Hi Hw _ (or_introl eq_refl) _); rewrite Hp; [done|]. intros -> Hm Hk. lia.
  - eapply invalid_move; [done|done|by rewrite Hp| |done]. right. split; [done|]. apply Hlc. by rewrite Hr.
  - destruct Hi as [(w & Hj & Hrg & Hp) Hc Hm]. split; cbn; [|done|done]. exists w. split; [done|]. split; [done|]. by destruct (pos w).
  - destruct Hi as [Hwk Hc _]. split; cbn; [done|done|]. by right.
  - exfalso. destruct Hi as [(w & Hj & Hrg & Hp) Hc [|[_ Hall]]]; [congruence|]. by rewrite (Forall_lookup_1 _ _ _ _ Hall Hj) in Hp.
  - exfalso. destruct (ii_main _ _ _ Hi) as [|[? _]]; congruence.
Qed.

(** ** What the call comes to *)

Lemma decode_total b : (len b < 2 ^ 63)%Z -> decode b <> Panic.
Proof. intros Hb. unfold decode, Codec.Unmarshal. pose proof (Wire.Unmarshal_safe Transaction.desc _ b (Wire.s_zero Transaction.desc) Hb) as H. by destruct (Wire.Unmarshal _ _ _). Qed.

Lemma UnmarshalTxs_spec txs : Forall (fun b => (len b < 2 ^ 63)%Z) txs ->
  (exists rs, UnmarshalTxsOfPreparePackedMessage txs = Ok (Some rs) /\ Forall2 (fun b tx => decode b = Ok tx) txs rs)
  \/ (UnmarshalTxsOfPreparePackedMessage txs = Ok None /\ exists m b e, txs !! m = Some b /\ decode b = Err e).
Proof.
  induction 1 as [|b txs Hb _ IH]; [left; by exists []|]. cbn [UnmarshalTxsOfPreparePackedMessage]. pose proof (decode_total b Hb).
  destruct (decode b) as [tx|e|] eqn:Ed; [| |done].
  - destruct IH as [(rs & -> & Hrs)|(-> & m & b' & e & Hm & He)]; [left; exists (tx :: rs); cbn; split; [done|by constructor]|].
    right. split; [done|]. by exists (S m), b', e.
  - right. split; [done|]. by exists 0, b, e.
Qed.

Lemma steps_inv (I : machine -> Prop) txs s s' : (forall a b, step txs a b -> I a -> I b) -> rtc (step txs) s s' -> I s -> I s'.
Proof. intros HI. induction 1; eauto. Qed.

(** Without a stuck state in the invariant, every state leads to the end. *)
Lemma leads_to (I : machine -> Prop) txs : (forall a b, step txs a b -> I a -> I b) -> (forall a, I a -> main a <> Returned -> exists b, step txs a b) ->
  forall s, I s -> exists s', rtc (step txs) s s' /\ main s' = Returned.
Proof.
  intros HI Hp s. remember (measure s) as n eqn:Hn. revert s Hn. induction (lt_wf n) as [n _ IH]. intros s -> Hs.
  assert (Hdec : main s = Returned \/ main s <> Returned) by (destruct (main s); auto). destruct Hdec as [|Hne]; [by exists s|].
  destruct (Hp s Hs Hne) as [s1 H1]. destruct (IH (measure s1) (step_measure _ _ _ H1) s1 eq_refl (HI _ _ H1 Hs)) as (s' & Hr & Hm).
  exists s'. split; [by eapply rtc_l|done].
Qed.

(** C15. The goroutines that decode a prepared message's transactions always
    come to rest. When every transaction decodes, each run can be completed and
    every completed run returns the decoded transactions in order without an
    error; when one does not decode, no run ever returns: the caller's own send
    on the channel, or a worker's, finds no receiver. *)
Theorem decoding_returns (txs : list bytes) : Forall (fun b => (len b < 2 ^ 63)%Z) txs ->
  (forall s, Acc (fun a b => step txs b a) s)
  /\ ((exists rs, UnmarshalTxsOfPreparePackedMessage txs = Ok (Some rs)
        /\ forall s, rtc (step txs) (start txs) s ->
             (exists s', rtc (step txs) s s' /\ main s' = Returned)
             /\ (main s = Returned -> receivedTxList s = Some <$> rs /\ errRtn s = false))
      \/ (UnmarshalTxsOfPreparePackedMessage txs = Ok None /\ forall s, rtc (step txs) (start txs) s -> main s <> Returned)).
Proof.
  intros Hl. split.
  { intros s. remember (measure s) as n eqn:Hn. revert s Hn. induction (lt_wf n) as [n _ IH]. intros s ->. constructor. intros s1 H1.
    by apply (IH (measure s1)); [apply step_measure with txs|]. }
  destruct (UnmarshalTxs_spec txs Hl) as [(rs & Hu & Hd)|(Hu & m & b & e & Hm & He)]; [left|right].
  - exists rs. split; [done|]. intros s Hs.
    assert (Hi : valid_inv txs rs s) by (eapply steps_inv; [intros; by eapply valid_step|exact Hs|apply valid_start]).
    split; [eapply (leads_to (valid_inv txs rs)); eauto using valid_step, valid_progress|].
    intros Hr. split; [by eapply valid_filled|apply Hi].
  - split; [done|]. intros s Hs. destruct (invalid_start txs m) as [j Hj]; [by eapply lookup_lt_Some|].
    assert (Hi : invalid_inv j m s) by (eapply steps_inv; [intros; by eapply invalid_step|exact Hs|done]).
    destruct (ii_main _ _ _ Hi) as [->|[-> _]]; done.
Qed.
End UnmarshalSpec.

(** * Launcher and executors *)
Module PrepareSpec.
Import Composition Deliver Dispatch DeliverSpec ActiveNodes EpochService Execution UnmarshalTxs Executor.

Section Prepare.
Context {L S P T D K : Type} {C : Type -> Type -> Type} `{!IStateStore S, !ILedger L S, !IDKGBls D, !LRU C, !LRULaws C}.
Variables (Sign : K -> bytes -> option bytes) (ConvertToPublic : K -> option bytes) (Send : send -> bool).
Variable blake2b : bytes -> bytes.
Variables (empty : T) (Update : T -> bytes -> bytes -> T) (Root : T -> bytes).
Variable ExecuteTx : Transaction.t -> world S -> go (world S * option TransactionResult.t).
Variables (PickTxs : P -> list Transaction.t) (RemoveTxByKey : P -> bytes -> P).
Variable maxCache : Z.

Abbreviation env := (env (L := L) (S := S) (P := P)).
Abbreviation scheduler := (executionScheduler (T := T)).
Abbreviation site := (site (L := L) (S := S) (P := P) (T := T) (D := D) (K := K)).
Abbreviation consensusExecutor := (consensusExecutor (K := K) (C := C)).
Abbreviation ExecutePackedTx := (ExecutePackedTx blake2b empty Update Root ExecuteTx RemoveTxByKey maxCache).
Abbreviation makePreparePackedMsg := (makePreparePackedMsg (L := L) (S := S) (P := P) (T := T) (D := D) (K := K) (C := C) ConvertToPublic blake2b).
Abbreviation receivePreparePackedMessageExe :=
  (receivePreparePackedMessageExe Sign ConvertToPublic Send blake2b empty Update Root ExecuteTx RemoveTxByKey maxCache).

Abbreviation tx_enc := (Wire.enc Transaction.desc _).

(** ** The messages of a packed list *)

Lemma pack_txs txs rs bs hs rhs : Forall (Tx.well_formed Transaction.desc) txs -> length txs = length rs ->
  pack blake2b txs rs = Ok (bs, hs, rhs) -> bs = tx_enc <$> txs /\ hs = blake2b <$> bs.
Proof.
  intros Ht. revert rs bs hs rhs. induction Ht as [|t txs Ht _ IH]; intros [|r rs] bs hs rhs Hl; try done; cbn [pack]; [by intros [= <- <- <-]|].
  destruct (Tx.codec_roundtrip Transaction.desc t Ht) as (E & _). unfold Tx.HashBytes, Tx.Bytes. rewrite E, !Ok_bind. intros H.
  apply outcome_bind_Ok in H as (rh & _ & H). apply outcome_bind_Ok in H as ([[bs' hs'] rhs'] & Hp & [= <- <- <-]).
  destruct (IH rs bs' hs' rhs') as [-> ->]; [cbn in Hl; lia|done|]. done.
Qed.

Lemma unmarshal_packed txs : Forall (Tx.well_formed Transaction.desc) txs -> UnmarshalTxsOfPreparePackedMessage (tx_enc <$> txs) = Ok (Some txs).
Proof.
  induction 1 as [|t txs Ht _ IH]; [done|]. rewrite fmap_cons. cbn [UnmarshalTxsOfPreparePackedMessage]. unfold decode.
  destruct (Tx.codec_roundtrip Transaction.desc t Ht) as (_ & _ & E). by rewrite E, IH.
Qed.

Lemma packed_root txs root : Forall (Tx.well_formed Transaction.desc) txs -> Tx.TxRoot blake2b empty Update Root txs = Ok root ->
  Tx.TxRootByBytes blake2b empty Update Root (tx_enc <$> txs) = root.
Proof. intros Ht. unfold Tx.TxRoot. rewrite Tx.TxRoot_loop_spec by done. by intros [= <-]. Qed.

(** What the messages carry. *)
Lemma make_messages x (s s1 : site) r domainID proof root rsRoot v txs rs mExe mProp : Forall (Tx.well_formed Transaction.desc) txs ->
  makePreparePackedMsg x s r domainID proof root rsRoot v txs rs = Ok (s1, inr (mExe, mProp)) ->
  PreparePackedMessageExe.StateVersion mExe = v /\ PreparePackedMessageExe.TxRoot mExe = root /\ PreparePackedMessageExe.Txs mExe = tx_enc <$> txs
  /\ PreparePackedMessageExe.Launcher mExe = x_nodeID x
  /\ PreparePackedMessageProp.StateVersion mProp = v /\ PreparePackedMessageProp.TxRoot mProp = root
  /\ PreparePackedMessageProp.TxResultRoot mProp = rsRoot /\ PreparePackedMessageProp.TxHashs mProp = blake2b <$> (tx_enc <$> txs).
Proof.
  intros Ht. unfold Executor.makePreparePackedMsg. destruct (Nat.eqb_spec (length txs) (length rs)) as [Hl|]; cbn [negb]; [|done].
  intros H. apply outcome_bind_Ok in H as ([s2 [e|ep]] & _ & H); [done|]. apply outcome_bind_Ok in H as ([s3 [e|b]] & _ & H); [done|].
  apply outcome_bind_Ok in H as (parent & _ & H). apply outcome_bind_Ok in H as ([s4 id] & _ & H).
  destruct ep as [ep|]; [|done]. destruct (Block.Head b) as [h|]; [|done].
  apply outcome_bind_Ok in H as ([[bs hs] rhs] & Hp & [= <- <- <-]). apply pack_txs in Hp as [-> ->]; done.
Qed.

(** ** Executing the same list on the same state *)

Lemma trim_last (l : list executionPackedTxs) (x : executionPackedTxs (T := T)) : last (trim maxCache (l ++ [x])) = Some x.
Proof.
  destruct (SchedulerSpec.trim_spec maxCache (l ++ [x])) as (dropped & E & Hne). specialize (Hne ltac:(by destruct l)).
  rewrite <- (SchedulerSpec.last_app_ne dropped _ Hne), <- E. apply last_snoc.
Qed.

Lemma same_execution (sched0 sched3 sched1 : scheduler) (e0 e3 e1 : env) r0 r3 cs0 cs3 p rs :
  Forall (Tx.well_formed Transaction.desc) (pt_TxList p) ->
  e_heap e0 !! r0 = Some cs0 -> e_heap e3 !! r3 = Some cs3 -> world_of e0 cs0 = world_of e3 cs3 ->
  admissible sched0 (pt_StateVersion p) = Ok (inr None) -> admissible sched3 (pt_StateVersion p) = Ok (inr None) ->
  ExecutePackedTx sched0 e0 p r0 = Ok (sched1, e1, inr (Some rs)) ->
  exists sched' e' t1 t2, ExecutePackedTx sched3 e3 p r3 = Ok (sched', e', inr (Some rs))
  /\ last (exePackedTxsList sched1) = Some (mkExecution r0 p (Some rs) t1 t2)
  /\ last (exePackedTxsList sched') = Some (mkExecution r3 p (Some rs) t1 t2).
Proof.
  intros Ht H0 H3 Hw A0 A3. unfold Execution.ExecutePackedTx. rewrite A0, A3, !Ok_bind, H0, H3, <- Hw. intros H.
  apply outcome_bind_Ok in H as ([w [err|rs1]] & -> & H); [done|]. rewrite Ok_bind.
  apply outcome_bind_Ok in H as ([t1 t2] & Ht12 & H). apply outcome_bind_Ok in H as (e2 & _ & H). injection H as <- _ ->.
  rewrite Ht12, Ok_bind. erewrite ExecuteSpec.remove_txs_spec by done. rewrite Ok_bind. eexists _, _, t1, t2. split; [reflexivity|].
  cbn [exePackedTxsList]. by rewrite !trim_last.
Qed.

Lemma lru_Add_contains {A V} `{!EqDecision A} (c : C A V) k w : (0 < lru_size c)%nat -> lru_Contains (lru_Add c k w) k = true.
Proof.
  intros H. rewrite lru_Contains_spec. apply bool_decide_eq_true. destruct (lru_Add_items c k w) as [-> _].
  destruct (lru_size c); [lia|]. left.
Qed.

(** What the indication to the launcher says. *)
Definition indication (m : PreparePackedMessageExe.t) : PreparePackedMessageExeIndication.t :=
  PreparePackedMessageExeIndication.mk (PreparePackedMessageExe.ChainID m) (PreparePackedMessageExe.Version m)
    (PreparePackedMessageExe.Epoch m) (PreparePackedMessageExe.Round m) [] [] [] (PreparePackedMessageExe.StateVersion m) [].

(** C12. Executors execute what the launcher executed: the message that a
    launcher makes of its packed list reaches the queue of every active
    executor, and an executor that has not seen the version, has a composition
    state for it in the state the launcher started from, and admits the version,
    executes the same transactions under the same version and root with the same
    results and trees, and indicates the version to the launcher. *)
Theorem prepared_executed_alike x (s0 s1 : site) r domainID proof rsRoot v txs rs root mExe mProp sig pk
    (sched0 sched1 : scheduler) (e0 e1 : env) r0 cs0 rsL :
  let p := mkPackedTxs v root txs in
  let m := set_sign sig pk mExe in
  Forall (Tx.well_formed Transaction.desc) txs -> Tx.TxRoot blake2b empty Update Root txs = Ok root ->
  makePreparePackedMsg x s0 r domainID proof root rsRoot v txs rs = Ok (s1, inr (mExe, mProp)) -> mailable m ->
  admissible sched0 v = Ok (inr None) -> e_heap e0 !! r0 = Some cs0 ->
  ExecutePackedTx sched0 e0 p r0 = Ok (sched1, e1, inr (Some rsL)) ->
  (forall peers protocolID id an, id ∈ activeExecutorIDs an ->
     dispatch id an (s_data (call peers protocolID m)) = Ok (Queued (ToPreparePackedMsgExe m)))
  /\ forall (x' : consensusExecutor) (s' s2 s3 : site) r3 b h cs3 ss err,
     (0 < lru_size (prepareMsgLunched x'))%nat -> lru_Contains (prepareMsgLunched x') v = false -> create s' (x_nodeID x') v = Ok (s2, Some r3) ->
     Executor.reading s2 r3 (fun cs => Chain.GetLatestBlock (cs_chain cs)) = Ok (s3, inr b) -> BlockOps.HashBytes blake2b b = Ok h ->
     e_heap (st_env s3) !! r3 = Some cs3 -> world_of e0 cs0 = world_of (st_env s3) cs3 -> admissible (st_sched s3) v = Ok (inr None) ->
     deliverPreparePackagedMessageExeIndication Sign ConvertToPublic Send (st_md s3) (x_nodeID x) (indication m) = Ok (ss, err) ->
     exists x'' sched' e' t1 t2, receivePreparePackedMessageExe x' s' m
       = Ok (x'', sending (set_exec s3 sched' e') ss, Executor.Done (Executor.EDeliver <$> err))
     /\ lru_Contains (prepareMsgLunched x'') v = true
     /\ last (exePackedTxsList sched1) = Some (mkExecution r0 p (Some rsL) t1 t2)
     /\ last (exePackedTxsList sched') = Some (mkExecution r3 p (Some rsL) t1 t2).
Proof.
  intros p m Ht Hroot Hmk Hmail A0 H0 Hex. destruct (make_messages _ _ _ _ _ _ _ _ _ _ _ _ _ Ht Hmk) as (Ev & Er & Etx & El & _).
  assert (PreparePackedMessageExe.StateVersion m = v /\ PreparePackedMessageExe.TxRoot m = root /\ PreparePackedMessageExe.Txs m = tx_enc <$> txs
    /\ PreparePackedMessageExe.Launcher m = x_nodeID x) as (Mv & Mr & Mtx & Ml) by (subst m; destruct mExe; done). split.
  - intros peers protocolID id an Hid. rewrite (dispatch_call peers protocolID m id an Hmail). cbn [taken_up arrives_PrepareExe].
    unfold ProcessPreparePackedMsgExe. pose proof (IsContainString_spec id (activeExecutorIDs an)) as Hcs.
    destruct (IsContainString id (activeExecutorIDs an)) as [found arr]. destruct Hcs as [Hcs _]. by rewrite (proj2 Hcs Hid).
  - intros x' s' s2 s3 r3 b h cs3 ss err Hsz Hx Hc Hb Hh H3 Hw A3 Hd.
    destruct (same_execution sched0 (st_sched s3) sched1 e0 (st_env s3) e1 r0 r3 cs0 cs3 p rsL) as (sched' & e' & t1 & t2 & Hx3 & L1 & L2); [done..|].
    unfold Executor.receivePreparePackedMessageExe. rewrite lru_ContainsOrAdd_spec, Mv, Hx. unfold execute_received.
    rewrite Mv, Mtx, Mr, Ml. cbn [x_nodeID set_launched]. rewrite Hc, Ok_bind, Hb, Ok_bind, Hh, Ok_bind, unmarshal_packed, Ok_bind by done.
    rewrite (packed_root txs root) by done. rewrite decide_True by done. fold p. rewrite Hx3, Ok_bind.
    unfold indication in Hd. rewrite Mv in Hd. rewrite Hd, !Ok_bind. eexists _, sched', e', t1, t2. split; [reflexivity|]. split; [|done].
    cbn [prepareMsgLunched set_launched]. by apply lru_Add_contains.
Qed.

(** ** The end of a launch *)

Lemma await_spec recvCount requiredCount arrivals : await_indications recvCount requiredCount arrivals
  = if decide (recvCount < requiredCount <= recvCount + length arrivals)%nat then Some (length arrivals - (requiredCount - recvCount))%nat else None.
Proof.
  revert recvCount. induction arrivals as [|a arrivals IH]; intros n; cbn [await_indications length].
  - rewrite decide_False by lia. done.
  - destruct (Nat.eqb_spec (Datatypes.S n) requiredCount) as [<-|Hne].
    + rewrite decide_True by lia. f_equal. lia.
    + rewrite IH. destruct (decide _); [rewrite decide_True by lia; f_equal; lia|rewrite decide_False by lia; done].
Qed.

(** The epoch service and the deliverer are as before. *)
Definition same_parts (s s' : site) : Prop := st_es s' = st_es s /\ st_md s' = st_md s.

Lemma create_parts (s s' : site) id v r : create s id v = Ok (s', r) -> same_parts s s'.
Proof. unfold create. intros H. by apply outcome_bind_Ok in H as ([p r'] & _ & [= <- _]). Qed.

Lemma reading_parts {A} (s s' : site) r (f : compositionState S -> world S -> go (world S * A)) a : Executor.reading s r f = Ok (s', a) -> same_parts s s'.
Proof. unfold Executor.reading. destruct (_ !! r); [|done]. intros H. by apply outcome_bind_Ok in H as ([w a'] & _ & [= <- _]). Qed.

Lemma same_parts_trans (s1 s2 s3 : site) : same_parts s1 s2 -> same_parts s2 s3 -> same_parts s1 s3.
Proof. intros [? ?] [? ?]. split; congruence. Qed.

Lemma make_parts x (s s1 : site) r domainID proof root rsRoot v txs rs ms :
  makePreparePackedMsg x s r domainID proof root rsRoot v txs rs = Ok (s1, ms) -> same_parts s s1.
Proof.
  unfold Executor.makePreparePackedMsg. destruct (negb _); [by intros [= <- _]|].
  intros H. apply outcome_bind_Ok in H as ([s2 [e|ep]] & H2%reading_parts & H); [by injection H as <- _|].
  apply outcome_bind_Ok in H as ([s3 [e|b]] & H3%reading_parts & H); [injection H as <- _; by eapply same_parts_trans|].
  apply outcome_bind_Ok in H as (parent & _ & H). apply outcome_bind_Ok in H as ([s4 id] & H4%reading_parts & H).
  destruct ep as [ep|]; [|done]. destruct (Block.Head b) as [h|]; [|done].
  apply outcome_bind_Ok in H as ([[bs hs] rhs] & _ & [= <- _]). eauto using same_parts_trans.
Qed.


(** ** The members of the selected domain *)

Fixpoint receive_members (x : consensusExecutor) (s : site) (ms : list ConsensusDomainSelectedMessage.t) : go (consensusExecutor * site) :=
  match ms with
  | [] => Ok (x, s)
  | m :: ms => '(x, s, _) ← receiveConsensusDomainSelectedMsg x s m; receive_members x s ms
  end.

Definition same_domain (d : bytes) (k : Z) (m : ConsensusDomainSelectedMessage.t) : Prop :=
  ConsensusDomainSelectedMessage.DomainID m = d /\ ConsensusDomainSelectedMessage.MemberNumber m = k.

Lemma members_so_far d k x (s : site) got ms : csDomainSelMsgList x = got -> csDomainSelMembers x = member_of <$> got ->
  Forall (same_domain d k) (got ++ ms) -> Z.of_nat (length (got ++ ms)) = k -> k < 2 ^ 32 -> ms <> [] ->
  (forall i a b, (got ++ ms) !! i = Some a -> (got ++ ms) !! Datatypes.S i = Some b ->
     ConsensusDomainSelectedMessage.NodeIDOfMember b <> ConsensusDomainSelectedMessage.NodeIDOfMember a) ->
  receive_members x s ms =
    ('(es, l, w, evs) ← UpdateData (C := D) (st_es s) (e_ledger (st_env s)) (Some <$> (member_of <$> (got ++ ms))) (caches s);
     let s := put_caches s l w in
     Ok (mkExecutor (x_nodeID x) (x_priKey x) (prepareMsgLunched x) [] [],
         mkSite (st_sched s) (st_env s) (st_full s) (st_simple s) es (st_md s) (st_idle s) (st_sent s) (st_told s ++ evs))).
Proof.
  revert x got. induction ms as [|m ms IH]; intros x got Hg Hmb Hall Hk Hk32 Hne Hadj; [done|]. cbn [receive_members].
  assert (Hm : same_domain d k m) by (rewrite Forall_app, Forall_cons in Hall; by destruct Hall as [_ [? _]]). destruct Hm as [Hmd Hmk].
  assert (Hf : fits x m = None).
  { unfold fits. rewrite Hg. destruct (last got) as [l|] eqn:El; [|done]. apply last_Some in El as [g ->].
    rewrite Forall_app, Forall_app, Forall_cons in Hall. destruct Hall as [[_ [[Hld Hlk] _]] _]. rewrite Hmd, Hmk, Hld, Hlk.
    rewrite bool_decide_true, Z.eqb_refl by done. cbn [andb]. rewrite decide_False; [done|].
    apply (Hadj (length g)); rewrite <- !(assoc_L (++)); [by apply list_lookup_middle|].
    rewrite lookup_app_r by lia. by replace (Datatypes.S (length g) - length g)%nat with 1%nat by lia. }
  unfold receiveConsensusDomainSelectedMsg. rewrite Hf, Hg, Hmb, Hmk.
  assert (Hu : u32 (Z.of_nat (length (got ++ [m]))) = Z.of_nat (length (got ++ [m]))).
  { unfold u32. apply Z.mod_small. rewrite length_app in *. cbn [length] in *. lia. }
  rewrite Hu. destruct ms as [|m' ms].
  - rewrite (proj2 (Z.eqb_eq _ _)) by done. rewrite !fmap_app. cbn [fmap list_fmap].
    destruct (UpdateData _ _ _ _) as [[[[es l] w] evs]|?|]; [|done|done]. done.
  - rewrite (proj2 (Z.eqb_neq _ _)) by (rewrite length_app in *; cbn [length] in *; lia). rewrite Ok_bind.
    rewrite (IH _ (got ++ [m])); rewrite <- ?(assoc_L (++)); try done. cbn. by rewrite fmap_app.
Qed.

(** Once every member of the selected domain has announced itself, the
    executor takes the members over in the order of their messages: the active
    nodes are updated with exactly them, once, and the lists are empty again. *)
Theorem members_adopted d x (s : site) ms : csDomainSelMsgList x = [] -> csDomainSelMembers x = [] ->
  ms <> [] -> Z.of_nat (length ms) < 2 ^ 32 -> Forall (same_domain d (Z.of_nat (length ms))) ms ->
  (forall i a b, ms !! i = Some a -> ms !! Datatypes.S i = Some b ->
     ConsensusDomainSelectedMessage.NodeIDOfMember b <> ConsensusDomainSelectedMessage.NodeIDOfMember a) ->
  receive_members x s ms =
    ('(es, l, w, evs) ← UpdateData (C := D) (st_es s) (e_ledger (st_env s)) (Some <$> (member_of <$> ms)) (caches s);
     let s := put_caches s l w in
     Ok (x, mkSite (st_sched s) (st_env s) (st_full s) (st_simple s) es (st_md s) (st_idle s) (st_sent s) (st_told s ++ evs))).
Proof.
  intros H1 H2 Hne Hl Hall Hadj. rewrite (members_so_far d (Z.of_nat (length ms)) x s [] ms); [|done|by rewrite H2|done..].
  destruct (UpdateData _ _ _ _) as [[[[es l] w] evs]|?|]; [|done|done]. rewrite !Ok_bind. destruct x; cbn in *. by subst.
Qed.
End Prepare.
End PrepareSpec.

(** * Examples *)
Module ExecutorExamples.
Import Composition Deliver Dispatch DeliverSpec ActiveNodes EpochService Execution UnmarshalTxs Executor UnmarshalSpec PrepareSpec.
Import SchedulerExamples DeliverExamples.
#[local] Existing Instances RefStore.ref_store test_dkg SchedulerExamples.the_ledger.

Lemma decoding_returns_witness :
  UnmarshalTxsOfPreparePackedMessage [str "not a transaction"] = Ok None
  /\ forall s, rtc (step [str "not a transaction"]) (start [str "not a transaction"]) s -> UnmarshalTxs.main s <> Returned.
Proof.
  destruct (decoding_returns [str "not a transaction"]) as [_ [(rs & H & _)|H]]; [|exfalso; revert H; vm_compute; discriminate|exact H].
  repeat constructor.
Defined.

Definition store5 : SchedulerExamples.store :=
  <[Chain.StateStore_Name_Chain:=
      <[Chain.ChainID_Key:=str "1"]> (<[Chain.LatestBlock_Key:=Wire.enc Block.desc _ block1]> ∅)]>
  (<[Epoch.StateStore_Name_Epoch:={[Epoch.LatestEpoch_Key := JsonCodec.Marshal (JsonCodec.j_ptr Epoch.j_EpochInfo) (Some (mkEpochInfo 4 0 5))]}]> ∅).

Definition comp5 : compositionState SchedulerExamples.store :=
  mkComp store5 (Chain.mkChainState (str "main")) (Epoch.mkEpochState (str "main")) 2 CompSState_Idle.

Definition env5 : env (L := SchedulerExamples.store) (S := SchedulerExamples.store) (P := list bytes) :=
  mkEnv ∅ LedgerState_Uninitialized [comp5] {[str "main" := block1]} {[str "main" := result1]} ∅ [] [].

Definition executors5 : activeNodeInfos :=
  mkInfos [str "e1"; str "e2"] {[str "d1" := [str "e1"; str "e2"]]} [str "p1"] [] 0 ∅ 0 0 ∅.

Definition site5 (id : bytes) : site (L := SchedulerExamples.store) (S := SchedulerExamples.store) (P := list bytes) (T := tree) (D := bytes) (K := bytes) :=
  mkSite NewExecutionScheduler env5 {[id := Builder.mkFull (Some 0%nat) {[2]}]} ∅ (mkEpochService id 10 (Some (mkEpochInfo 4 0 5)) executors5 false)
    (mkDeliver id true (str "key") DeliverStrategy_Specifically (Some (str "dkg"))) ∅ [] [].

Definition executor5 (id : bytes) : Executor.consensusExecutor (K := bytes) (C := lru_list) := newConsensusExecutor id (str "key").

Definition root5 : bytes := Eval vm_compute in root [hash (Wire.enc Transaction.desc _ Tx.sample_tx)].

Definition made5 := Executor.makePreparePackedMsg public hash (executor5 (str "e1")) (site5 (str "e1")) 0 (str "d1") (str "proof") root5 (str "rs") 2
  [Tx.sample_tx] [result].

Definition messages5 : option (PreparePackedMessageExe.t * PreparePackedMessageProp.t) :=
  Eval vm_compute in match made5 with Ok (_, inr ms) => Some ms | _ => None end.

Lemma made5_messages : exists s1 mExe mProp, made5 = Ok (s1, inr (mExe, mProp)) /\ messages5 = Some (mExe, mProp).
Proof.
  assert (H : match made5 with Ok (_, inr ms) => Some ms | _ => None end = messages5) by (vm_compute; reflexivity).
  destruct made5 as [[s1 [e|[mExe mProp]]]|?|]; [discriminate| |discriminate..]. by exists s1, mExe, mProp.
Qed.

Definition exe5 : PreparePackedMessageExe.t := default (Wire.s_zero PreparePackedMessageExe.desc) (fst <$> messages5).

Lemma exe5_mailable : mailable (set_sign (str "sig") (str "pk") exe5).
Proof. split; DeliverExamples.wf. Qed.

Definition launched5 := ExecutePackedTx hash [] upd root act_go remove 5 NewExecutionScheduler env5 (mkPackedTxs 2 root5 [Tx.sample_tx]) 0.

Definition sends5 : list send :=
  Eval vm_compute in match deliverPreparePackagedMessageExeIndication sign public (fun _ => true) (st_md (site5 (str "e2"))) (str "e1")
      (indication (set_sign (str "sig") (str "pk") exe5)) with Ok (ss, _) => ss | _ => [] end.

Lemma prepared_executed_alike_witness :
  exists x'' s'' sched1 e1 rsL sched' e', launched5 = Ok (sched1, e1, inr (Some rsL))
  /\ Executor.receivePreparePackedMessageExe sign public (fun _ => true) hash [] upd root act_go remove 5 (executor5 (str "e2")) (site5 (str "e2"))
       (set_sign (str "sig") (str "pk") exe5) = Ok (x'', s'', Executor.Done None)
  /\ st_sched s'' = sched' /\ st_env s'' = e'
  /\ (packedTxsRS <$> last (exePackedTxsList sched')) = (packedTxsRS <$> last (exePackedTxsList sched1)).
Proof.
  destruct made5_messages as (s1 & mExe & mProp & Hmk & Hms).
  assert (He : exe5 = mExe) by (unfold exe5; rewrite Hms; reflexivity).
  assert (Hl : exists sched1 e1 rsL, launched5 = Ok (sched1, e1, inr (Some rsL))) .
  { assert (Hb : match launched5 with Ok (_, _, inr (Some _)) => true | _ => false end = true) by (vm_compute; reflexivity).
    destruct launched5 as [[[sched1 e1] [e|[rsL|]]]|?|]; [discriminate| |discriminate..]. by exists sched1, e1, rsL. }
  destruct Hl as (sched1 & e1 & rsL & Hl). subst mExe.
  destruct (prepared_executed_alike sign public (fun _ => true) hash [] upd root act_go remove 5 (executor5 (str "e1")) (site5 (str "e1")) s1 0
    (str "d1") (str "proof") (str "rs") 2 [Tx.sample_tx] [result] root5 exe5 mProp (str "sig") (str "pk") NewExecutionScheduler sched1 env5 e1 0
    comp5 rsL) as [_ H].
  - constructor; [exact Tx.sample_tx_well_formed|constructor].
  - reflexivity.
  - exact Hmk.
  - exact exe5_mailable.
  - reflexivity.
  - reflexivity.
  - exact Hl.
  - destruct (H (executor5 (str "e2")) (site5 (str "e2")) (site5 (str "e2")) (site5 (str "e2")) 0%nat block1
      (hash (Wire.enc Block.desc _ block1)) comp5 sends5 None) as (x'' & sched' & e' & t1 & t2 & Hr & _ & L1 & L2).
    + cbn. lia.
    + reflexivity.
    + reflexivity.
    + reflexivity.
    + reflexivity.
    + reflexivity.
    + reflexivity.
    + reflexivity.
    + vm_compute. reflexivity.
    + exists x'', (sending (set_exec (site5 (str "e2")) sched' e') sends5), sched1, e1, rsL, sched', e'. split; [exact Hl|]. split; [exact Hr|]. split; [reflexivity|]. split; [reflexivity|].
      rewrite L1, L2. reflexivity.
Defined.

(** A pool with one transaction and a domain with one executor. *)
Definition single5 : activeNodeInfos := mkInfos [str "e1"] {[str "d1" := [str "e1"]]} [str "p1"] [] 0 ∅ 0 0 ∅.

Definition alone5 : site (L := SchedulerExamples.store) (S := SchedulerExamples.store) (P := list bytes) (T := tree) (D := bytes) (K := bytes) :=
  mkSite NewExecutionScheduler env5 {[str "e1" := Builder.mkFull (Some 0%nat) {[2]}]} ∅
    (mkEpochService (str "e1") 10 (Some (mkEpochInfo 4 0 5)) single5 false) (st_md (site5 (str "e1"))) ∅ [] [].

Definition prepared5 (arrivals : list PreparePackedMessageExeIndication.t) :=
  Prepare sign public (fun _ => true) hash [] upd root act_go (fun _ : list bytes => [Tx.sample_tx]) remove 5 arrivals [[str "p1"]]
    (executor5 (str "e1")) alone5 (str "d1") (str "proof") 2.

Lemma sent5 m ss err : deliverPreparePackagedMessageExe sign public (fun _ => true) (st_md alone5) single5 (str "d1") m = Ok (ss, err) -> err = None.
Proof.
  unfold deliverPreparePackagedMessageExe, to_executors, sign_key. cbn [sign public]. rewrite bool_decide_false by (intros [_ H]; revert H; vm_compute; discriminate).
  unfold send_to. intros H. apply outcome_bind_Ok in H as (b & _ & H). by apply outcome_bind_Ok in H as (s & _ & [= _ <-]).
Qed.


Definition announcement (id : bytes) : ConsensusDomainSelectedMessage.t :=
  ConsensusDomainSelectedMessage.mk (str "1") 1 [] [] (str "d") 2 id 4 7 [].

Lemma members_adopted_witness :
  receive_members (executor5 (str "e1")) (site5 (str "e1")) [announcement (str "p1"); announcement (str "p2")]
  = ('(es, l, w, evs) ← UpdateData (C := bytes) (st_es (site5 (str "e1"))) (e_ledger env5) (Some <$> (member_of <$> [announcement (str "p1"); announcement (str "p2")]))
       (caches (site5 (str "e1")));
     let s := put_caches (site5 (str "e1")) l w in
     Ok (executor5 (str "e1"), mkSite (st_sched s) (st_env s) (st_full s) (st_simple s) es (st_md s) (st_idle s) (st_sent s) (st_told s ++ evs))).
Proof.
  apply (members_adopted (str "d") (executor5 (str "e1")) (site5 (str "e1")) [announcement (str "p1"); announcement (str "p2")]);
    [reflexivity|reflexivity|discriminate|cbn; lia|repeat constructor|].
  intros [|[|i]] a b Ha Hb; [|discriminate|discriminate]. injection Ha as <-. injection Hb as <-. discriminate.
Defined.
End ExecutorExamples.
