(* ===== verification/ResultValidate.v ===== *)
(** The validation of execution results (src/consensus/exers_validate.go): a
    proposal's transactions are sampled and executors asked for proofs, which
    are checked against the roots of the proposal; and the executor's answer
    (ProcessExeResultValidateReq of src/consensus/handler.go). *)
From Stdlib Require Import ZArith Lia Strings.Byte.
From stdpp Require Import base gmap list strings.
From S2P Require Import Prelude Common Backend Wire TxMessages ChainMessages ConsMessages TxBasic Text Json JsonCodec StateStore StateBase StateChain Composition Scheduler RoleSelector EpochService MessageDeliver.
Import Util Types.
#[local] Open Scope Z_scope.

(** The sparse Merkle trees of the library, by what its documentation says of
    them: a tree maps keys to values; a proof is in JSON; a branch can be added to
    a partial tree when it proves the value under the root. *)
Class SMT (T DT : Type) := {
  smt_empty : T;
  smt_Update : T -> bytes -> bytes -> T;
  smt_Root : T -> bytes;
  smt_Prove : T -> bytes -> option bytes;
  deep_New : bytes -> DT;
  deep_AddBranch : DT -> bytes -> bytes -> bytes -> option DT;
  deep_Root : DT -> bytes;
}.

Class SMTLaws (T DT : Type) `{!SMT T DT} := {
  smt_Get : T -> bytes -> bytes;
  smt_Get_empty k : smt_Get smt_empty k = [];
  smt_Get_Update t k v k' : smt_Get (smt_Update t k v) k' = if decide (k = k') then v else smt_Get t k';
  smt_Root_binds t t' : smt_Root t = smt_Root t' -> forall k, smt_Get t k = smt_Get t' k;
  smt_Prove_total t k : is_Some (smt_Prove t k);
  deep_New_Root r : deep_Root (deep_New r) = r;
  deep_AddBranch_spec d t k pf v : smt_Prove t k = Some pf ->
    is_Some (deep_AddBranch d pf k v) <-> deep_Root d = smt_Root t /\ smt_Get t k = v;
  deep_AddBranch_Root d pf k v d' : deep_AddBranch d pf k v = Some d' -> deep_Root d' = deep_Root d;
}.

(** * exers_validate.go *)
Module ResultValidate.
Import Composition Deliver ActiveNodes Execution.

Inductive validate_error :=
| EPropData (e : Wire.proto_error)
| ETxCount (txs results : nat)
| ERandom
| ERequest (e : deliver_error)
| EProofCount
| EBranch
| ERoot.

Section Validate.
Context {D K T DT : Type} `{!IDKGBls D, !SMT T DT}.
Variables (Sign : K -> bytes -> option bytes) (ConvertToPublic : K -> option bytes).
Variable SendWithResponse : send -> option (list (option bytes)).

Abbreviation messageDeliver := (messageDeliver (D := D) (K := K)).

Definition ValidateTxMinCount : nat := 3.

(** [PropData.TxRoot] and [PropData.TxResultRoot]. *)
Definition hash_tree (hs : list bytes) : T := foldl (fun t h => smt_Update t h h) smt_empty hs.

Definition TxRoot (p : PropData.t) : bytes := smt_Root (hash_tree (PropData.TxHashs p)).

Definition TxResultRoot (p : PropData.t) : bytes := smt_Root (hash_tree (PropData.TxResultHashs p)).

(** The hashes at random indexes; without a number there is an error of the
    random source. *)
Fixpoint sample (count : nat) (draws : list nat) (txHashs txResultHashs : list bytes) : go (option (list bytes * list bytes)) :=
  match count, draws with
  | O, _ => Ok (Some ([], []))
  | Datatypes.S _, [] => Ok None
  | Datatypes.S count, i :: draws =>
      match txHashs !! i, txResultHashs !! i with
      | Some h, Some rh =>
          rest ← sample count draws txHashs txResultHashs;
          Ok (match rest with Some (hs, rhs) => Some (h :: hs, rh :: rhs) | None => None end)
      | _, _ => Panic
      end
  end.

(** [None] when the draws of executors do not suffice. *)
Definition resultValidateDataRequest (nodeID : bytes) (md : messageDeliver) (an : activeNodeInfos) (draws : list nat) (peers : list Z)
    (propMsg : ProposeMessage.t) (propData : PropData.t) (validateTxCount : nat) :
    go (option (validate_error + ExeResultValidateRespMessage.t * list bytes * list bytes)) :=
  r ← sample validateTxCount draws (PropData.TxHashs propData) (PropData.TxResultHashs propData);
  match r with
  | None => Ok (Some (inl ERandom))
  | Some (hs, rhs) =>
      d ← deliverResultValidateReqMessage Sign ConvertToPublic SendWithResponse peers md an (PropData.DomainID propData)
        (ExeResultValidateReqMessage.mk (ProposeMessage.ChainID propMsg) (PropData.Version propData) (ProposeMessage.Epoch propMsg)
           (ProposeMessage.Round propMsg) nodeID [] [] (ProposeMessage.StateVersion propMsg) hs rhs []);
      Ok (match d with
          | None => None
          | Some (_, inl e) => Some (inl (ERequest e))
          | Some (_, inr resp) => Some (inr (resp, hs, rhs))
          end)
  end.

(** A proof without its hash, or a result's proof that is missing, is out of
    range. *)
Fixpoint add_branches (d1 d2 : DT) (proofs rsProofs hs rhs : list bytes) : go (option (DT * DT)) :=
  match proofs with
  | [] => Ok (Some (d1, d2))
  | pf :: proofs =>
      match hs with
      | [] => Panic
      | h :: hs =>
          match deep_AddBranch d1 pf h h with
          | None => Ok None
          | Some d1 =>
              match rsProofs, rhs with
              | rpf :: rsProofs, rh :: rhs =>
                  match deep_AddBranch d2 rpf rh rh with
                  | None => Ok None
                  | Some d2 => add_branches d1 d2 proofs rsProofs hs rhs
                  end
              | _, _ => Panic
              end
          end
      end
  end.

Definition validateExeResultResp (origTxRoot origTxRSRoot : bytes) (txHashs txResultHashs : list bytes) (resp : ExeResultValidateRespMessage.t) :
    go (option validate_error) :=
  r ← add_branches (deep_New origTxRoot) (deep_New origTxRSRoot) (ExeResultValidateRespMessage.TxProofs resp)
    (ExeResultValidateRespMessage.TxResultProofs resp) txHashs txResultHashs;
  match r with
  | None => Ok (Some EBranch)
  | Some (d1, d2) => Ok (if bool_decide (origTxRoot = deep_Root d1 /\ origTxRSRoot = deep_Root d2) then None else Some ERoot)
  end.

(** What one goroutine finds out about an encoded part of the proposal;
    [None] when the draws of executors do not suffice. *)
Definition validate_part (nodeID : bytes) (md : messageDeliver) (an : activeNodeInfos) (draws : list nat) (peers : list Z)
    (propMsg : ProposeMessage.t) (part : bytes) : go (option (option validate_error)) :=
  match PropData.Unmarshal part (Wire.s_zero PropData.desc) with
  | Panic => Panic
  | Err e => Ok (Some (Some (EPropData e)))
  | Ok propData =>
      let txs := length (PropData.TxHashs propData) in
      let results := length (PropData.TxResultHashs propData) in
      if negb (txs =? results)%nat then Ok (Some (Some (ETxCount txs results)))
      else
        let validateTxCount := if (txs <? ValidateTxMinCount)%nat then txs else ValidateTxMinCount in
        r ← resultValidateDataRequest nodeID md an draws peers propMsg propData validateTxCount;
        match r with
        | None => Ok None
        | Some (inl e) => Ok (Some (Some e))
        | Some (inr (resp, hs, rhs)) =>
            if negb (length (ExeResultValidateRespMessage.TxProofs resp) =? validateTxCount)%nat
               || negb (length (ExeResultValidateRespMessage.TxResultProofs resp) =? validateTxCount)%nat
            then Ok (Some (Some EProofCount))
            else e ← validateExeResultResp (TxRoot propData) (TxResultRoot propData) hs rhs resp; Ok (Some e)
        end
  end.

(** The goroutines share the variable of the loop that starts them: each has
    the value that it reads for the part and the one under which it reports. *)
Record turn := mkTurn {
  t_read : nat;
  t_report : nat;
  t_draws : list nat;
  t_peers : list Z;
}.

(** The goroutines in the order in which they report. *)
Fixpoint run_turns (nodeID : bytes) (md : messageDeliver) (an : activeNodeInfos) (propMsg : ProposeMessage.t) (turns : list turn)
    (errs : list (option validate_error)) : go (option (list (option validate_error))) :=
  match turns with
  | [] => Ok (Some errs)
  | t :: turns =>
      match ProposeMessage.PropDatas propMsg !! t_read t with
      | None => Panic
      | Some part =>
          r ← validate_part nodeID md an (t_draws t) (t_peers t) propMsg part;
          match r with
          | None => Ok None
          | Some e => run_turns nodeID md an propMsg turns (<[t_report t:=e]> errs)
          end
      end
  end.

Definition Validate (nodeID : bytes) (md : messageDeliver) (an : activeNodeInfos) (turns : list turn) (propMsg : ProposeMessage.t) :
    go (option bool) :=
  match ProposeMessage.PropDatas propMsg with
  | [] => Ok (Some true)
  | parts =>
      r ← run_turns nodeID md an propMsg turns (replicate (length parts) None);
      Ok (match r with None => None | Some errs => Some (forallb (fun e => match e with None => true | Some _ => false end) errs) end)
  end.

(** ** The executor's answer *)

Definition ProcessExeResultValidateReq (errText : deliver_error -> bytes) (execText : exec_error -> bytes) (md : messageDeliver)
    (sched : executionScheduler (T := T)) (m : ExeResultValidateReqMessage.t) : go bytes :=
  r ← PackedTxProofForValidity smt_Prove sched (ExeResultValidateReqMessage.StateVersion m) (ExeResultValidateReqMessage.TxHashs m)
    (ExeResultValidateReqMessage.TxResultHashs m);
  let resp proofs rsProofs := ExeResultValidateRespMessage.mk (ExeResultValidateReqMessage.ChainID m) (ExeResultValidateReqMessage.Version m)
    (ExeResultValidateReqMessage.Epoch m) (ExeResultValidateReqMessage.Round m) [] [] [] (ExeResultValidateReqMessage.StateVersion m)
    proofs rsProofs [] in
  match r with
  | inl e => deliverResultValidateRespMessage Sign ConvertToPublic errText md (resp [] []) (Some (execText e))
  | inr l => deliverResultValidateRespMessage Sign ConvertToPublic errText md (resp l.*1 l.*2) None
  end.
End Validate.
End ResultValidate.
