(* ===== verification/ResultValidateSpec.v ===== *)
(** Correctness of the validation of execution results: an executor's answer
    is accepted exactly when its trees have the roots of the proposal, and what
    the goroutines that share a loop variable come to. *)
From Stdlib Require Import ZArith Lia Strings.Byte.
From stdpp Require Import base gmap list strings.
From S2P Require Import Prelude Common Backend Wire TxMessages ChainMessages ConsMessages TxBasic Text Json JsonCodec StateStore StateBase StateChain Composition Scheduler SchedulerSpec RoleSelector EpochService MessageDeliver MessageDeliverSpec ResultValidate.
Import Util Types.
#[local] Open Scope Z_scope.

Module ValidateSpec.
Import Composition Deliver ActiveNodes Execution ResultValidate.

(** ** What a proof shows *)

Section Spec.
Context {D K T DT : Type} `{!IDKGBls D, !SMT T DT, !SMTLaws T DT}.

Abbreviation hash_tree := (hash_tree (T := T) (DT := DT)).

Lemma hash_tree_Get hs h : smt_Get (hash_tree hs) h = if decide (h ∈ hs) then h else [].
Proof.
  unfold ResultValidate.hash_tree. induction hs as [|x hs IH] using rev_ind; [by rewrite decide_False by set_solver; apply smt_Get_empty|].
  rewrite foldl_app. cbn [foldl]. rewrite smt_Get_Update, IH. destruct (decide (x = h)) as [->|]; [by rewrite decide_True by set_solver|].
  destruct (decide (h ∈ hs)); [by rewrite decide_True by set_solver|by rewrite decide_False by set_solver].
Qed.

(** Proofs from a tree are taken exactly by partial trees with its root, for
    hashes that it has. *)
Lemma branches_spec t1 t2 (l : list (bytes * bytes)) hs rhs (d1 d2 : DT) : length hs = length l -> length rhs = length l ->
  Forall2 (fun h p => smt_Prove t1 h = Some p) hs l.*1 -> Forall2 (fun h p => smt_Prove t2 h = Some p) rhs l.*2 ->
  exists r, add_branches d1 d2 l.*1 l.*2 hs rhs = Ok r
  /\ (is_Some r <-> (l <> [] -> deep_Root d1 = smt_Root t1 /\ deep_Root d2 = smt_Root t2)
       /\ Forall (fun h => smt_Get t1 h = h) hs /\ Forall (fun h => smt_Get t2 h = h) rhs)
  /\ (forall d1' d2', r = Some (d1', d2') -> deep_Root d1' = deep_Root d1 /\ deep_Root d2' = deep_Root d2).
Proof.
  revert hs rhs d1 d2. induction l as [|[p1 p2] l IH]; intros [|h hs] [|rh rhs] d1 d2 H1 H2 F1 F2; try done; cbn.
  - exists (Some (d1, d2)). split; [done|]. split; [|by intros ? ? [= <- <-]]. split; [|eauto]. intros _. split; [done|]. by split.
  - apply Forall2_cons in F1 as [P1 F1]. apply Forall2_cons in F2 as [P2 F2]. cbn [fst snd] in P1, P2.
    pose proof (deep_AddBranch_spec d1 t1 h p1 h P1) as A1. pose proof (deep_AddBranch_spec d2 t2 rh p2 rh P2) as A2.
    destruct (deep_AddBranch d1 p1 h h) as [d1'|] eqn:E1.
    2:{ exists None. split; [done|]. split; [|done]. split; [by intros [? ?]|]. intros (Hr & [Hg _]%Forall_cons & _). destruct (proj2 A1) as [? ?]; [|done]. split; [by apply Hr|done]. }
    destruct (deep_AddBranch d2 p2 rh rh) as [d2'|] eqn:E2.
    2:{ exists None. split; [done|]. split; [|done]. split; [by intros [? ?]|]. intros (Hr & _ & [Hg _]%Forall_cons). destruct (proj2 A2) as [? ?]; [|done]. split; [by apply Hr|done]. }
    apply deep_AddBranch_Root in E1, E2. destruct (IH hs rhs d1' d2') as (r & Er & Hs & Hd); [cbn in *; lia|cbn in *; lia|done|done|].
    exists r. split; [done|]. destruct A1 as [A1 _], A2 as [A2 _]. destruct A1 as [R1 G1]; [eauto|]. destruct A2 as [R2 G2]; [eauto|].
    rewrite E1, E2 in *. split; [|done]. rewrite Hs, !Forall_cons. naive_solver.
Qed.

Lemma tree_Root_iff (t : T) hs h : h ∈ hs -> smt_Root t = smt_Root (hash_tree hs) -> smt_Get t h = h.
Proof. intros Hh Hr. rewrite (smt_Root_binds _ _ Hr). by rewrite hash_tree_Get, decide_True. Qed.

(** The executor finds a proof for every hash. *)
Lemma proofs_loop_total (x : executionPackedTxs (T := T)) hs rhs : length hs = length rhs ->
  exists l, proofs_loop smt_Prove x hs rhs = Ok (inr l) /\ length l = length hs
  /\ Forall2 (fun h p => smt_Prove (treeTx x) h = Some p) hs l.*1 /\ Forall2 (fun h p => smt_Prove (treeTxRS x) h = Some p) rhs l.*2.
Proof.
  revert rhs. induction hs as [|h hs IH]; intros [|rh rhs] Hl; try done; [exists []; by repeat constructor|]. cbn [proofs_loop].
  destruct (smt_Prove_total (treeTx x) h) as [p1 E1]. destruct (smt_Prove_total (treeTxRS x) rh) as [p2 E2]. rewrite E1, E2.
  destruct (IH rhs) as (l & -> & Hll & F1 & F2); [cbn in Hl; lia|]. rewrite Ok_bind. exists ((p1, p2) :: l). split; [done|]. cbn.
  split; [lia|]. split; by constructor.
Qed.

Lemma sample_spec count draws hs rhs l r : sample count draws hs rhs = Ok (Some (l, r)) ->
  length l = count /\ length r = count /\ Forall (fun h => h ∈ hs) l /\ Forall (fun h => h ∈ rhs) r.
Proof.
  revert draws l r. induction count as [|count IH]; intros draws l r H; cbn in H; [injection H as <- <-; by repeat constructor|].
  destruct draws as [|i draws]; [done|]. destruct (hs !! i) as [h|] eqn:E1; [|done]. destruct (rhs !! i) as [rh|] eqn:E2; [|done].
  apply outcome_bind_Ok in H as ([[l' r']|] & Hs & H); [|done]. injection H as <- <-. destruct (IH _ _ _ Hs) as (? & ? & ? & ?).
  cbn. split; [lia|]. split; [lia|]. split; constructor; eauto using list_elem_of_lookup_2.
Qed.

(** Proofs of hashes of the proposal, checked against its roots. *)
Lemma validate_answer (x : executionPackedTxs (T := T)) (p : PropData.t) hs rhs (l : list (bytes * bytes)) resp : hs <> [] ->
  length hs = length l -> length rhs = length l ->
  Forall (fun h => h ∈ PropData.TxHashs p) hs -> Forall (fun h => h ∈ PropData.TxResultHashs p) rhs ->
  Forall2 (fun h p => smt_Prove (treeTx x) h = Some p) hs l.*1 -> Forall2 (fun h p => smt_Prove (treeTxRS x) h = Some p) rhs l.*2 ->
  ExeResultValidateRespMessage.TxProofs resp = l.*1 -> ExeResultValidateRespMessage.TxResultProofs resp = l.*2 ->
  let agree := smt_Root (treeTx x) = TxRoot p /\ smt_Root (treeTxRS x) = TxResultRoot p in
  (agree /\ validateExeResultResp (TxRoot p) (TxResultRoot p) hs rhs resp = Ok None)
  \/ (~ agree /\ validateExeResultResp (TxRoot p) (TxResultRoot p) hs rhs resp = Ok (Some EBranch)).
Proof.
  intros Hne H1 H2 M1 M2 F1 F2 E1 E2 agree. unfold validateExeResultResp. rewrite E1, E2.
  destruct (branches_spec (treeTx x) (treeTxRS x) l hs rhs (deep_New (TxRoot p)) (deep_New (TxResultRoot p)) H1 H2 F1 F2) as (r & -> & Hs & Hd).
  rewrite !deep_New_Root in Hs, Hd. rewrite Ok_bind. assert (Hl : l <> []) by (by destruct l, hs).
  destruct r as [[d1 d2]|].
  - left. destruct Hs as [Hs _]. destruct Hs as (Hr & _); [eauto|]. destruct (Hr Hl) as [R1 R2]. split; [done|].
    destruct (Hd d1 d2 eq_refl) as [-> ->]. by rewrite bool_decide_true.
  - right. split; [|done]. intros [A1 A2]. destruct Hs as [_ Hs]. destruct Hs as [? ?]; [|done]. split; [by rewrite A1, A2|].
    split; (eapply Forall_impl; [eassumption|]); cbn; intros h Hh; by eapply tree_Root_iff.
Qed.

(** ** One part of a proposal *)

Variables (Sign : K -> bytes -> option bytes) (ConvertToPublic : K -> option bytes).
Variable SendWithResponse : send -> option (list (option bytes)).

Abbreviation messageDeliver := (messageDeliver (D := D) (K := K)).
Abbreviation validate_part := (validate_part (D := D) (K := K) (T := T) (DT := DT) Sign ConvertToPublic SendWithResponse).

(** The request for the proofs of some hashes. *)
Definition request (nodeID : bytes) (m : ProposeMessage.t) (p : PropData.t) (hs rhs : list bytes) : ExeResultValidateReqMessage.t :=
  ExeResultValidateReqMessage.mk (ProposeMessage.ChainID m) (PropData.Version p) (ProposeMessage.Epoch m) (ProposeMessage.Round m) nodeID [] []
    (ProposeMessage.StateVersion m) hs rhs [].

Definition sampled (p : PropData.t) : nat :=
  if (length (PropData.TxHashs p) <? ValidateTxMinCount)%nat then length (PropData.TxHashs p) else ValidateTxMinCount.


(** ** The goroutines *)

Abbreviation Validate := (Validate (D := D) (K := K) (T := T) (DT := DT) Sign ConvertToPublic SendWithResponse).

(** What the goroutine of a turn finds out, for parts that are answered. *)
Definition finds (nodeID : bytes) (md : messageDeliver) (an : activeNodeInfos) (m : ProposeMessage.t) (res : turn -> option validate_error)
    (t : turn) : Prop :=
  exists part, ProposeMessage.PropDatas m !! t_read t = Some part
  /\ validate_part nodeID md an (t_draws t) (t_peers t) m part = Ok (Some (res t)).

Lemma run_turns_spec nodeID md an m res turns errs : Forall (finds nodeID md an m res) turns ->
  run_turns Sign ConvertToPublic SendWithResponse nodeID md an m turns errs
  = Ok (Some (foldl (fun errs t => <[t_report t:=res t]> errs) errs turns)).
Proof.
  intros H. revert errs. induction H as [|t turns (part & Hp & Hv) _ IH]; intros errs; [done|]. cbn [run_turns foldl].
  by rewrite Hp, Hv, Ok_bind, IH.
Qed.

Lemma reports_length res turns errs :
  length (foldl (fun errs t => <[t_report t:=res t]> errs) errs turns) = length (errs : list (option validate_error)).
Proof. revert errs. induction turns as [|t turns IH]; intros errs; [done|]. cbn [foldl]. by rewrite IH, length_insert. Qed.

Lemma reports_lookup res turns errs k : (k < length errs)%nat ->
  foldl (fun errs t => <[t_report t:=res t]> errs) (errs : list (option validate_error)) turns !! k =
    match last (filter (fun t => t_report t = k) turns) with Some t => Some (res t) | None => errs !! k end.
Proof.
  intros Hk. induction turns as [|t turns IH] using rev_ind; [done|]. rewrite foldl_snoc, filter_app.
  destruct (decide (t_report t = k)) as [E|E].
  - rewrite filter_cons_True, filter_nil, last_snoc by done. rewrite E. apply list_lookup_insert_eq. by rewrite reports_length.
  - rewrite filter_cons_False, filter_nil, app_nil_r by done. by rewrite list_lookup_insert_ne.
Qed.

Lemma filter_all (P : turn -> Prop) `{!forall t, Decision (P t)} turns : Forall P turns -> filter P turns = turns.
Proof. induction 1 as [|t turns Ht _ IH]; [done|]. by rewrite filter_cons_True, IH. Qed.

Lemma only_report (turns : list turn) t : NoDup (t_report <$> turns) -> t ∈ turns -> last (filter (fun x => t_report x = t_report t) turns) = Some t.
Proof.
  induction turns as [|x turns IH]; [by intros _ ?%elem_of_nil|]. rewrite fmap_cons. intros [Hx Hnd]%NoDup_cons [->|Ht]%elem_of_cons.
  - rewrite filter_cons_True by done. destruct (filter _ turns) as [|y l] eqn:E; [done|]. exfalso.
    assert (Hy : y ∈ filter (fun z => t_report z = t_report x) turns) by (rewrite E; left).
    apply list_elem_of_filter in Hy as [Ey Hy%(list_elem_of_fmap_2 t_report)]. by rewrite Ey in Hy.
  - rewrite filter_cons_False; [by apply IH|]. intros E. apply Hx. rewrite E. by apply list_elem_of_fmap_2.
Qed.

Definition accepted (e : option validate_error) : bool := match e with None => true | Some _ => false end.

(** C14. The parts of a proposal are validated by goroutines that read the
    variable of the loop that starts them. When every goroutine reads its own
    part and reports under its index, in whatever order they end, the proposal is
    accepted exactly when every part is. When they all see the value that the
    variable has after the loop, the report of the one that ends last decides,
    and it is about the last part: the other parts are not looked at. *)
Theorem parts_validated nodeID (md : messageDeliver) an m res turns : ProposeMessage.PropDatas m <> [] ->
  Forall (finds nodeID md an m res) turns ->
  (t_report <$> turns ≡ₚ seq 0 (length (ProposeMessage.PropDatas m)) -> Forall (fun t => t_read t = t_report t) turns ->
     Validate nodeID md an turns m = Ok (Some (forallb (fun t => accepted (res t)) turns)))
  /\ (forall t0, last turns = Some t0 ->
     Forall (fun t => t_read t = Nat.pred (length (ProposeMessage.PropDatas m)) /\ t_report t = Nat.pred (length (ProposeMessage.PropDatas m))) turns ->
     Validate nodeID md an turns m = Ok (Some (accepted (res t0)))).
Proof.
  intros Hne Hf. unfold ResultValidate.Validate. destruct (ProposeMessage.PropDatas m) as [|part parts] eqn:Em; [done|].
  rewrite (run_turns_spec nodeID md an m res), Ok_bind by done. set (n := length (part :: parts)). set (errs := foldl _ _ _).
  assert (Hl : length errs = n) by (unfold errs; by rewrite reports_length, length_replicate).
  assert (Hk : forall k, (k < n)%nat -> errs !! k = match last (filter (fun t => t_report t = k) turns) with Some t => Some (res t) | None => Some None end).
  { intros k Hk. unfold errs. rewrite reports_lookup by (by rewrite length_replicate). destruct (last _); [done|]. by apply lookup_replicate_2. }
  fold accepted. split.
  - intros Hp _. do 2 f_equal. apply eq_true_iff_eq. rewrite !forallb_forall. split.
    + intros H t Ht%list_elem_of_In. assert (Hin : t_report t ∈ t_report <$> turns) by (by apply list_elem_of_fmap_2).
      rewrite Hp in Hin. apply elem_of_seq in Hin. assert (Hnd : NoDup (t_report <$> turns)) by (rewrite Hp; apply NoDup_seq).
      specialize (Hk (t_report t) ltac:(lia)). rewrite (only_report turns t Hnd Ht) in Hk.
      apply H, list_elem_of_In. by eapply list_elem_of_lookup_2.
    + intros H e He%list_elem_of_In. apply list_elem_of_lookup in He as [k He]. assert (Hkn : (k < n)%nat) by (rewrite <- Hl; by eapply lookup_lt_Some).
      rewrite (Hk k Hkn) in He. destruct (last _) as [t|] eqn:El; [|by injection He as <-]. injection He as <-.
      apply H, list_elem_of_In. apply last_Some_elem_of, list_elem_of_filter in El as [_ ?]. done.
  - intros t0 Ht0 Hall. do 2 f_equal. fold n in Hall. assert (Hn : (0 < n)%nat) by (unfold n; cbn; lia).
    assert (Hall' : Forall (fun t => t_report t = Nat.pred n) turns) by (eapply Forall_impl; [exact Hall|]; by intros t [_ ?]).
    assert (Hlast : errs !! Nat.pred n = Some (res t0)).
    { rewrite Hk by lia. rewrite filter_all by done. by rewrite Ht0. }
    apply eq_true_iff_eq. rewrite forallb_forall. split.
    + intros H. apply H, list_elem_of_In. by eapply list_elem_of_lookup_2.
    + intros H e He%list_elem_of_In. apply list_elem_of_lookup in He as [k He]. assert (Hkn : (k < n)%nat) by (rewrite <- Hl; by eapply lookup_lt_Some).
      destruct (decide (k = Nat.pred n)) as [->|Hne']; [congruence|]. rewrite (Hk k Hkn) in He.
      destruct (last (filter _ turns)) as [t|] eqn:El; [|by injection He as <-]. exfalso.
      apply last_Some_elem_of, list_elem_of_filter in El as [E Ht]. rewrite Forall_forall in Hall'. rewrite (Hall' t Ht) in E. done.
Qed.
End Spec.
End ValidateSpec.

(** * Examples *)

(** A tree as the documentation describes it, with itself as the proof. *)
Module TestTree.

Fixpoint pos_bytes (p : positive) : bytes :=
  match p with xH => [] | xO p => x00 :: pos_bytes p | xI p => x01 :: pos_bytes p end.

Fixpoint bytes_pos (b : bytes) : positive :=
  match b with [] => xH | x00 :: b => xO (bytes_pos b) | _ :: b => xI (bytes_pos b) end.

Lemma test_bits_inverse p : bytes_pos (pos_bytes p) = p.
Proof. induction p as [p IH|p IH|]; cbn; by rewrite ?IH. Qed.

Abbreviation tree := (gmap bytes bytes).

Definition tree_root (t : tree) : bytes := pos_bytes (encode t).

Definition root_tree (b : bytes) : option tree := decode (bytes_pos b).

Lemma root_tree_root t : root_tree (tree_root t) = Some t.
Proof. unfold root_tree, tree_root. rewrite test_bits_inverse. apply decode_encode. Qed.

#[export] Instance test_smt : SMT tree bytes := {
  smt_empty := ∅;
  smt_Update t k v := <[k:=v]> t;
  smt_Root := tree_root;
  smt_Prove t k := Some (tree_root t);
  deep_New r := r;
  deep_AddBranch d pf k v :=
    match root_tree pf with
    | Some t => if bool_decide (d = tree_root t /\ default [] (t !! k) = v) then Some d else None
    | None => None
    end;
  deep_Root d := d;
}.

#[export] Instance test_smt_laws : SMTLaws tree bytes.
Proof.
  refine {| smt_Get (t : tree) k := default [] (t !! k) |}; cbn.
  - intros k. by rewrite lookup_empty.
  - intros t k v k'. destruct (decide (k = k')) as [->|]; [by rewrite lookup_insert_eq|by rewrite lookup_insert_ne].
  - intros t t' E k. apply (f_equal root_tree) in E. rewrite !root_tree_root in E. by injection E as ->.
  - eauto.
  - done.
  - intros d t k pf v [= <-]. rewrite root_tree_root. destruct (bool_decide _) eqn:E.
    + apply bool_decide_eq_true in E. split; [done|eauto].
    + apply bool_decide_eq_false in E. split; [by intros [? ?]|done].
  - intros d pf k v d'. destruct (root_tree pf); [|done]. destruct (bool_decide _); [|done]. by intros [= <-].
Defined.
End TestTree.

Module ValidateExamples.
Import Composition Deliver ActiveNodes Execution ResultValidate ValidateSpec DeliverExamples TestTree.
#[local] Existing Instance test_dkg.

Definition part6 : PropData.t := PropData.mk 1 (str "d1") [str "h1"; str "h2"] [str "r1"; str "r2"] [].

Definition propose6 : ProposeMessage.t :=
  ProposeMessage.mk (str "1") 1 0 7 [] [] 8 (str "pri") (str "p1") [Wire.enc PropData.desc _ part6] head_bytes [].

Definition tree_of (hs : list bytes) : tree := hash_tree (T := tree) (DT := bytes) hs.

Definition entry6 : executionPackedTxs (T := tree) :=
  mkExecution 0 (mkPackedTxs 8 [] []) (Some (mkPackedTxsResult 8 [] [])) (tree_of (PropData.TxHashs part6)) (tree_of (PropData.TxResultHashs part6)).

Definition sched6 : executionScheduler (T := tree) := mkScheduler SchedulerState_Idle 8 1 [entry6].

(** The executors answer from their scheduler. *)
Definition answer6 : option bytes :=
  Eval vm_compute in
    match ProcessExeResultValidateReq (DT := bytes) sign public (fun _ => str "err") (fun _ => str "err") DeliverExamples.node sched6
      (ValidateSpec.request (str "v1") propose6 part6 [str "h1"; str "h2"] [str "r1"; str "r2"]) with
    | Ok b => Some b
    | _ => None
    end.

Definition respond6 (s : send) : option (list (option bytes)) := Some [answer6].

Definition validate6 := validate_part (T := tree) (DT := bytes) sign public respond6 (str "v1") DeliverExamples.node nodes [0; 1]%nat [1; 0] propose6
  (Wire.enc PropData.desc _ part6).

Definition delivered6 := deliverResultValidateReqMessage sign public respond6 [1; 0] DeliverExamples.node nodes (str "d1")
  (ValidateSpec.request (str "v1") propose6 part6 [str "h1"; str "h2"] [str "r1"; str "r2"]).

Definition proofs6 : list (bytes * bytes) := [(tree_root (treeTx entry6), tree_root (treeTxRS entry6)); (tree_root (treeTx entry6), tree_root (treeTxRS entry6))].

Lemma delivered6_resp : exists ss resp, delivered6 = Ok (Some (ss, inr resp))
  /\ ExeResultValidateRespMessage.TxProofs resp = proofs6.*1 /\ ExeResultValidateRespMessage.TxResultProofs resp = proofs6.*2.
Proof.
  assert (H : match delivered6 with
              | Ok (Some (_, inr resp)) => Some (ExeResultValidateRespMessage.TxProofs resp, ExeResultValidateRespMessage.TxResultProofs resp)
              | _ => None
              end = Some (proofs6.*1, proofs6.*2)) by (vm_compute; reflexivity).
  destruct delivered6 as [[[ss [e|resp]]|]|?|]; try discriminate. exists ss, resp. injection H as H1 H2. by rewrite H1, H2.
Qed.


Lemma parts_validated_witness :
  Validate (T := tree) (DT := bytes) sign public respond6 (str "v1") DeliverExamples.node nodes [mkTurn 0 0 [0; 1]%nat [1; 0]] propose6 = Ok (Some true).
Proof.
  assert (Hv : validate6 = Ok (Some None)).
  { assert (Hb : match validate6 with Ok (Some None) => true | _ => false end = true) by (vm_compute; reflexivity).
    destruct validate6 as [[[e|]|]|?|]; try discriminate. reflexivity. }
  destruct (parts_validated (T := tree) (DT := bytes) sign public respond6 (str "v1") DeliverExamples.node nodes propose6 (fun _ => None)
    [mkTurn 0 0 [0; 1]%nat [1; 0]]) as [H _].
  - discriminate.
  - constructor; [|constructor]. exists (Wire.enc PropData.desc _ part6). split; [reflexivity|exact Hv].
  - rewrite H; [reflexivity|reflexivity|]. constructor; [reflexivity|constructor].
Defined.
End ValidateExamples.
