(* ===== verification/Servant.v ===== *)
(** What a transaction sees of the node: the gas and chain configuration
    (src/configuration), the transaction servant and its simulating variant
    (src/transaction/basic/servant.go), and the servant of the virtual machines
    with its gas account (src/vm/service/servant.go). *)
From Stdlib Require Import ZArith Lia Strings.Byte.
From Stdlib Require Import Floats.SpecFloat.
From stdpp Require Import base gmap list strings.
From S2P Require Import Prelude Common Wire ChainMessages TxBasic StateBase StateChain Account.
Import Util Types SafeCalculate.
#[local] Open Scope Z_scope.

(** * configuration/gas.go, configuration/chain.go *)

(** A [float64] in the format of the IEEE standard. *)
Abbreviation float64 := spec_float.

Record GasConfiguration := mkGasConfig {
  MinGasPrice : Z;
  GasPriceMultiple : float64;
  MinGasLimit : Z;
  GasEachByte : Z;
  MaxGasEachBlock : Z;
}.

Definition float_1 : float64 := S754_finite false 4503599627370496 (-52).

Definition DefGasConfiguration : GasConfiguration := mkGasConfig 1000000000 float_1 50000 1500 1500000000.

Record ChainConfiguration := mkChainConfig {
  MaxTargetItem : Z;
  MaxCodeSize : Z;
  MaxTxCountOfEachBlock : Z;
  MaxTxSizeOfEachBlock : Z;
}.

Definition DefChainConfiguration : ChainConfiguration := mkChainConfig 50 10000000 1000 1000000.

(** * transaction/basic/servant.go *)
Module Servant.

(** The interface, over the state [W] the calls work on.  Every call gives an
    error of its own; the configuration is that of the process. *)
Record TransactionServant (W : Type) := mkServant {
  ChainID : cmd W state_error bytes;
  NetworkType : cmd W state_error Types.NetworkType;
  GetNonce : bytes -> cmd W state_error Z;
  GetBalance : bytes -> bytes -> cmd W state_error (option Z);
  GetAccount : bytes -> cmd W state_error Account.Account;
  GetTxPoolSize : Z;
  GetLatestBlock : cmd W state_error Block.t;
  GetGasConfig : GasConfiguration;
  GetChainConfig : ChainConfiguration;
  AddAccount : option Account.Account -> cmd W state_error unit;
  UpdateAccount : option Account.Account -> cmd W state_error unit;
  UpdateNonce : bytes -> Z -> cmd W state_error unit;
  UpdateBalance : bytes -> bytes -> option Z -> cmd W state_error unit;
  UpdateName : bytes -> bytes -> cmd W state_error unit;
}.
Arguments ChainID {W}.
Arguments NetworkType {W}.
Arguments GetNonce {W}.
Arguments GetBalance {W}.
Arguments GetAccount {W}.
Arguments GetTxPoolSize {W}.
Arguments GetLatestBlock {W}.
Arguments GetGasConfig {W}.
Arguments GetChainConfig {W}.
Arguments AddAccount {W}.
Arguments UpdateAccount {W}.
Arguments UpdateNonce {W}.
Arguments UpdateBalance {W}.
Arguments UpdateName {W}.

(** The servant on the chain state and the account state of a composition
    state. *)
Definition NewTransactionServant {S} `{!IStateStore S} (gas : GasConfiguration) (chain : ChainConfiguration)
    (chainState : Chain.chainState) (txPoolSize : Z) : TransactionServant (world S) :=
  mkServant _
    Chain.ChainID Chain.NetworkType
    (fun addr => on_store (AccountState.GetNonce addr))
    (fun addr symbol => on_store (AccountState.GetBalance addr symbol))
    (fun addr => on_store (AccountState.GetAccount addr))
    txPoolSize (Chain.GetLatestBlock chainState) gas chain
    (fun acc => on_store (AccountState.AddAccount acc))
    (fun acc => on_store (AccountState.UpdateAccount acc))
    (fun addr nonce => on_store (AccountState.UpdateNonce addr nonce))
    (fun addr symbol value => on_store (AccountState.UpdateBalance addr symbol value))
    (fun addr name => on_store (AccountState.UpdateName addr name)).

(** The simulating servant: the reads of another one, and writes that do
    nothing. *)
Definition NewTansactionServantSimulate {W} (gas : GasConfiguration) (chain : ChainConfiguration)
    (tsBaseRead : TransactionServant W) : TransactionServant W :=
  mkServant _
    (ChainID tsBaseRead) (NetworkType tsBaseRead) (GetNonce tsBaseRead) (GetBalance tsBaseRead) (GetAccount tsBaseRead)
    (GetTxPoolSize tsBaseRead) (GetLatestBlock tsBaseRead) gas chain
    (fun _ => mret tt) (fun _ => mret tt) (fun _ _ => mret tt) (fun _ _ _ => mret tt) (fun _ _ => mret tt).
End Servant.

(** * vm/service/servant.go *)
Module VMServant.

Inductive gas_error := EGasOverflow (e : calc_error) | ErrInsufficientGas.

Record vmServant (W : Type) := mkVMServant {
  BaseServant : Servant.TransactionServant W;
  maxGasLimit : Z;
  gasUsed : Z;
}.
Arguments mkVMServant {W}.
Arguments BaseServant {W}.
Arguments maxGasLimit {W}.
Arguments gasUsed {W}.

Definition NewVMServant {W} (bServant : Servant.TransactionServant W) (maxGasLimit : Z) : vmServant W :=
  mkVMServant bServant maxGasLimit 0.

(** The sum is tested and not kept: the servant stays as it is. *)
Definition GasUsedAccumulate {W} (vs : vmServant W) (gasAdd : Z) : option gas_error :=
  match SafeAddUint64 (gasUsed vs) gasAdd with
  | Err e => Some (EGasOverflow e)
  | Ok gasAdded => if gasAdded >? maxGasLimit vs then Some ErrInsufficientGas else None
  | Panic => None
  end.
End VMServant.
