(* ===== verification/NativeVM.v ===== *)
(** The virtual machines (src/vm): their types, the context a contract runs in
    and the decoding of its arguments (src/vm/service), the native machine with
    its table of methods (src/vm/native/native.go) and its contracts
    (src/vm/native/contract), the Topia machine, which is not written yet
    (src/vm/tvm), and the factory that hands them out (src/vm/factory.go).

    The native machine finds its methods by reflection.  A method is described
    by its name, the types of its parameters and results, and what it does. *)
From Stdlib Require Import ZArith Lia Strings.Byte.
From stdpp Require Import base gmap list strings.
From S2P Require Import Prelude Common Wire Text Json JsonCodec StateBase StateNode StateChain Address Account Servant.
Import Util Types SafeCalculate Servant VMServant.
#[local] Open Scope Z_scope.

(** * vm/type/types.go *)
Module VMType.

Inductive ReturnCode :=
| ReturnCode_Ok
| ReturnCode_NotEnable
| ReturnCode_InvalidVMCtx
| ReturnCode_ContractNotFound
| ReturnCode_MethodNotFound
| ReturnCode_InvalidParam
| ReturnCode_InvalidReturn
| ReturnCode_MethodSignatureErr
| ReturnCode_ExecuteErr
| ReturnCode_InsufficientGas
| ReturnCode_CallStackOverFlow
| ReturnCode_StorageErr
| ReturnCode_LoadErr
| ReturnCode_InvalidAccount
| ReturnCode_PermissionErr
| ReturnCode_UnknownErr.

#[export] Instance ReturnCode_eq_dec : EqDecision ReturnCode.
Proof. solve_decision. Defined.

Inductive VMType := VMType_Unknown | VMType_NATIVE | VMType_TVM.

#[export] Instance VMType_eq_dec : EqDecision VMType.
Proof. solve_decision. Defined.

Record VMResult := mkVMResult {
  Code : ReturnCode;
  ErrMsg : bytes;
  GasUsed : Z;
  Data : option bytes;
}.

Definition VMType_String (vt : VMType) : bytes :=
  match vt with VMType_NATIVE => str "native" | VMType_TVM => str "tvm" | VMType_Unknown => str "unknown" end.

Definition VMType_Value (vtStr : bytes) : VMType :=
  if decide (vtStr = str "native") then VMType_NATIVE
  else if decide (vtStr = str "tvm") then VMType_TVM
  else VMType_Unknown.

Definition ReturnCode_String (rc : ReturnCode) : bytes :=
  match rc with
  | ReturnCode_Ok => str "Ok"
  | ReturnCode_NotEnable => str "VM Disable"
  | ReturnCode_InvalidVMCtx => str "Invalid vm context"
  | ReturnCode_ContractNotFound => str "Contract not found"
  | ReturnCode_MethodNotFound => str "Method not found"
  | ReturnCode_InvalidParam => str "Invalid input params"
  | ReturnCode_InvalidReturn => str "Invalid return values"
  | ReturnCode_MethodSignatureErr => str "Method signature error"
  | ReturnCode_ExecuteErr => str "VM execute error"
  | ReturnCode_InsufficientGas => str "Insufficient Gas"
  | ReturnCode_CallStackOverFlow => str "Call stack overflow"
  | ReturnCode_StorageErr => str "Data storage error"
  | ReturnCode_LoadErr => str "Data load error"
  | ReturnCode_InvalidAccount => str "Invalid account info"
  | ReturnCode_PermissionErr => str "Permission error"
  | ReturnCode_UnknownErr => str "Unknown error"
  end.
End VMType.

(** * vm/service *)
Module VMService.

(** ** context_vm.go *)

Inductive VMCtxKey := VMCtxKey_Unknown | VMCtxKey_VMServant | VMCtxKey_FromAddr.

#[export] Instance VMCtxKey_eq_dec : EqDecision VMCtxKey.
Proof. solve_decision. Defined.

Definition VMCtxKey_String (vkey : VMCtxKey) : bytes :=
  match vkey with
  | VMCtxKey_VMServant => str "VMServant"
  | VMCtxKey_FromAddr => str "FromAddr"
  | VMCtxKey_Unknown => str "unknown"
  end.

Definition VMCtxKey_Value (vkeyStr : bytes) : VMCtxKey :=
  if decide (vkeyStr = str "VMServant") then VMCtxKey_VMServant
  else if decide (vkeyStr = str "FromAddr") then VMCtxKey_FromAddr
  else VMCtxKey_Unknown.

(** The types of parameters and results that matter to the machine. *)
Inductive go_type :=
| T_Context
| T_Error
| T_Bool
| T_Int (width : Z)
| T_Uint (width : Z)
| T_String
| T_Array
| T_Struct
| T_Slice
| T_Map
| T_Ptr
| T_Other.

#[export] Instance go_type_eq_dec : EqDecision go_type.
Proof. solve_decision. Defined.

(** An argument: a text, a list of texts, a number, or the zero value of
    another type. *)
Inductive go_value := V_String (s : bytes) | V_Strings (l : list bytes) | V_Number (n : Z) | V_Zero (t : go_type).

Inductive args_error := EArgsLen (actual expected : Z) | EArgNumber | EArgHex | EArgJson.

Definition ContractMethodArgs_Separation : byte := "@"%byte.

(** [strings.Split] at one character: the texts between the separators. *)
Fixpoint Split (sep : byte) (s : bytes) : list bytes :=
  match s with
  | [] => [[]]
  | b :: s =>
      if Byte.eqb b sep then [] :: Split sep s
      else match Split sep s with [] => [[b]] | w :: ws => (b :: w) :: ws end
  end.

(** [strconv.ParseBool] *)
Definition ParseBool (s : bytes) : option bool :=
  if decide (s ∈ str <$> ["1"; "t"; "T"; "true"; "TRUE"; "True"]%string) then Some true
  else if decide (s ∈ str <$> ["0"; "f"; "F"; "false"; "FALSE"; "False"]%string) then Some false
  else None.

(** [hex.DecodeString] *)
Fixpoint hex_DecodeString (s : bytes) : option bytes :=
  match s with
  | [] => Some []
  | c1 :: c2 :: s =>
      match Address.hex_digit_value c1, Address.hex_digit_value c2, hex_DecodeString s with
      | Some v1, Some v2, Some r => Some (z2b (v1 * 16 + v2) :: r)
      | _, _, _ => None
      end
  | _ => None
  end.

(** One argument.  A number or a boolean that parses is stored through the
    pointer [reflect.New] returned and not through the value it points to,
    which panics.  A slice, a map or a pointer is decoded into the
    [reflect.Value] itself, which [json.Unmarshal] refuses: the result is an
    error also when the text is valid. *)
Definition parse_arg (arg : bytes) (paramType : go_type) : outcome args_error go_value :=
  match paramType with
  | T_Int _ => match Text.ParseInt 64 arg with None => Err EArgNumber | Some _ => Panic end
  | T_Uint _ => match Text.ParseUint 64 arg with None => Err EArgNumber | Some _ => Panic end
  | T_Bool => match ParseBool arg with None => Err EArgNumber | Some _ => Panic end
  | T_String => Ok (V_String arg)
  | T_Slice | T_Map | T_Ptr => match hex_DecodeString arg with None => Err EArgHex | Some _ => Err EArgJson end
  | t => Ok (V_Zero t)
  end.

Fixpoint parse_args (args : list bytes) (paramTypes : list go_type) : outcome args_error (list go_value) :=
  match args, paramTypes with
  | arg :: args, t :: paramTypes => v ← parse_arg arg t; vs ← parse_args args paramTypes; Ok (v :: vs)
  | _, _ => Ok []
  end.

Definition ParseArgs (Args : bytes) (paramTypes : list go_type) : outcome args_error (list go_value) :=
  let args := Split ContractMethodArgs_Separation Args in
  if negb (length args =? length paramTypes)%nat then
    Err (EArgsLen (Z.of_nat (length args)) (Z.of_nat (length paramTypes)))
  else parse_args args paramTypes.

(** ** context_contract.go *)
Section Context_.
Context {W : Type}.

(** What a context holds; the newest value of a key counts. *)
Inductive ctx_value := CV_Servant (vs : vmServant W) | CV_Addr (addr : bytes).

Definition context : Type := list (VMCtxKey * ctx_value).

Definition WithValue (ctx : context) (k : VMCtxKey) (v : ctx_value) : context := (k, v) :: ctx.

Definition Value (ctx : context) (k : VMCtxKey) : option ctx_value :=
  snd <$> (snd <$> list_find (fun kv => kv.1 = k) ctx).

Record VMContext := mkVMContext {
  Context_ : context;
  Servant_ : vmServant W;
  NodeID : bytes;
  ContractAddr : bytes;
  VMCode : option bytes;
  Method : bytes;
  Args : bytes;
}.

(** A key without a value panics: the message asks a nil type for its name. *)
Fixpoint GetCtxValues (ctx : context) (ctxKeys : list VMCtxKey) : go (list ctx_value) :=
  match ctxKeys with
  | [] => Ok []
  | k :: ctxKeys =>
      match Value ctx k with
      | None => Panic
      | Some v => vs ← GetCtxValues ctx ctxKeys; Ok (v :: vs)
      end
  end.

(** A value of the other kind is written over memory of a different type;
    the model stops there. *)
Definition GetServant (ctx : context) : go (vmServant W) :=
  vs ← GetCtxValues ctx [VMCtxKey_VMServant];
  match vs with [CV_Servant vmServant] => Ok vmServant | _ => Panic end.

Definition GetFromAccount (ctx : context) : cmd W state_error Account.Account := fun w =>
  vs ← GetCtxValues ctx [VMCtxKey_VMServant; VMCtxKey_FromAddr];
  match vs with
  | [CV_Servant vmServant; CV_Addr fromAddr] => GetAccount (BaseServant vmServant) fromAddr w
  | _ => Panic
  end.
End Context_.
Arguments ctx_value : clear implicits.
Arguments context : clear implicits.
Arguments VMContext : clear implicits.
End VMService.

(** * vm/native/contract *)
Module Contract.
Import VMService.

Definition Account_BindName : Z := 100.

Definition Account_GrantAccessMethods : Z := 100.

Definition Account_GrantAccessRoot : Z := 100.

Definition Account_RevokeGrantAccess : Z := 100.

Definition Account_RevokeGrantAccessMethods : Z := 100.

Inductive contract_error :=
| EParent (e : state_error)
| EAccount (e : state_error)
| ENotChild
| EGas (e : gas_error)
| EUpdate (e : state_error).

(** A result of a method: the name of its type and its JSON. *)
Record out_value := mkOut { ov_type : bytes; ov_json : bytes }.

Section Methods.
Context {W : Type}.

(** A call of the servant, its error wrapped. *)
Definition wrapping {A} (f : state_error -> contract_error) (c : cmd W state_error A) : cmd W contract_error A := fun w =>
  match c w with
  | Ok (w, inl e) => Ok (w, inl (f e))
  | Ok (w, inr a) => Ok (w, inr a)
  | Err e => match e with end
  | Panic => Panic
  end.

Definition charge (vmServant : vmServant W) (gas : Z) : cmd W contract_error unit := fun w =>
  match GasUsedAccumulate vmServant gas with
  | Some e => Ok (w, inl (EGas e))
  | None => Ok (w, inr tt)
  end.

Definition with_servant {A} (ctx : context W) (f : vmServant W -> cmd W contract_error A) : cmd W contract_error A := fun w =>
  vmServant ← GetServant ctx; f vmServant w.

Definition BindName (ctx : context W) (parentAddr addr accountName : bytes) : cmd W contract_error unit :=
  with_servant ctx (fun vmServant =>
    parentAcc ← wrapping EParent (GetAccount (BaseServant vmServant) parentAddr);
    if negb (Account.IsChild accountName (Account.Name parentAcc)) then fail ENotChild
    else
      _ ← charge vmServant (u64 (Account_BindName + GasEachByte (GetGasConfig (BaseServant vmServant)) * len accountName));
      wrapping EUpdate (UpdateName (BaseServant vmServant) addr accountName)).

(** Both accounts are read at the parent's address. *)
Definition grantAccessOperation (ctx : context W) (parentAddr addr : bytes) (operaGas : Z)
    (operation : Account.Account -> go (Account.Account * Z)) : cmd W contract_error unit :=
  with_servant ctx (fun vmServant =>
    parentAcc ← wrapping EParent (GetAccount (BaseServant vmServant) parentAddr);
    acc ← wrapping EAccount (GetAccount (BaseServant vmServant) parentAddr);
    if negb (Account.IsChild (Account.Name acc) (Account.Name parentAcc)) then fail ENotChild
    else
      '(acc, usedSize) ← (fun w => r ← operation acc; Ok (w, inr r)) : cmd W contract_error (Account.Account * Z);
      _ ← charge vmServant (u64 (operaGas + GasEachByte (GetGasConfig (BaseServant vmServant)) * usedSize));
      wrapping EUpdate (UpdateAccount (BaseServant vmServant) (Some acc))).

Definition set_Token (a : Account.Account) (t : option Account.AccountToken) : Account.Account :=
  Account.mkAccount (Account.Addr a) (Account.Nonce a) (Account.Name a) t (Account.Balances a) (Account.CodeHash a) (Account.Version a).

(** [acc.Token.Permission.f(contractAddr, method)] for each method. *)
Fixpoint on_methods (f : Account.Permission -> bytes -> bytes -> go Account.Permission) (contractAddr : bytes)
    (methods : list bytes) (acc : Account.Account) : go Account.Account :=
  match methods with
  | [] => Ok acc
  | method :: methods =>
      match Account.Token acc with
      | Some (Account.mkAccountToken n m (Some perm)) =>
          perm ← f perm contractAddr method;
          on_methods f contractAddr methods (set_Token acc (Some (Account.mkAccountToken n m (Some perm))))
      | _ => Panic
      end
  end.

Definition total_len (l : list bytes) : Z := foldr (fun m n => len m + n) 0 l.

Definition GrantAccessMethods (ctx : context W) (parentAddr addr contractAddr : bytes) (methods : list bytes) (gasLimit : Z) :
    cmd W contract_error unit :=
  grantAccessOperation ctx parentAddr addr Account_GrantAccessMethods (fun acc =>
    let '(acc, usedSize) :=
      match Account.Token acc with
      | None => (set_Token acc (Some (Account.NewAccountToken (Account.NewPermissionContractMethod gasLimit))), 2)
      | Some _ => (acc, 0)
      end in
    acc ← on_methods Account.AddMethod contractAddr methods acc;
    Ok (acc, usedSize + len contractAddr + total_len methods)).

Definition GrantAccessRoot (ctx : context W) (parentAddr addr : bytes) : cmd W contract_error unit :=
  grantAccessOperation ctx parentAddr addr Account_GrantAccessRoot (fun acc =>
    match Account.Token acc with
    | None => Ok (set_Token acc (Some (Account.NewAccountToken Account.NewPermissionRoot)), 2)
    | Some _ => Ok (acc, 0)
    end).

Definition RevokeGrantAccess (ctx : context W) (parentAddr addr : bytes) : cmd W contract_error unit :=
  grantAccessOperation ctx parentAddr addr Account_RevokeGrantAccess (fun acc => Ok (set_Token acc None, 0)).

Definition RevokeGrantAccessMethods (ctx : context W) (parentAddr addr contractAddr : bytes) (methods : list bytes) :
    cmd W contract_error unit :=
  grantAccessOperation ctx parentAddr addr Account_RevokeGrantAccessMethods (fun acc =>
    match Account.Token acc with
    | None => Ok (acc, 0)
    | Some _ => acc ← on_methods Account.RemoveMethod contractAddr methods acc; Ok (acc, 0)
    end).

(** ** contract_example.go *)

Definition TestFuncSimple (i : Z) : Z := i64 (i + 100).

Definition TestFuncWithStruct (NodeID : bytes) : NodeInfo * Z * bytes :=
  (mkNodeInfo NodeID [] 1000 [] None NodeRole_Executor NodeState_Active, 100, str "ContractTest").
End Methods.
End Contract.

(** * vm/native/native.go *)
Module NativeVM.
Import VMType VMService Contract.

Inductive vm_error :=
| ENotEnable
| EInvalidCtx (contract method : bytes) (e : option state_error)
| EPermission (contract method addr : bytes)
| EContractNotFound (contract : bytes)
| EMethodNotFound (contract method : bytes)
| EParams (contract method : bytes) (e : args_error)
| EParamsLen (contract method : bytes) (expected actual : Z)
| EReturn (contract method : bytes) (expected actual : Z)
| EExecute (e : contract_error)
| EUnknown (contract method : bytes).

Section Machine.
Context {W : Type}.

(** [tpcmm.CurrentNetworkType] *)
Variable CurrentNetworkType : Types.NetworkType.

(** The text of an error. *)
Variable Error : vm_error -> bytes.

(** A method as reflection shows it, its parameters without the receiver. *)
Record method := mkMethod {
  m_Name : bytes;
  m_In : list go_type;
  m_Out : list go_type;
  m_Call : context W -> list go_value -> cmd W contract_error (list out_value);
}.

Record nativeContractMethod := mkNative {
  nm_method : context W -> list go_value -> cmd W contract_error (list out_value);
  paramTypes : list go_type;
  resultErrorOutIndex : Z;
}.

(** [log]: whether a logger has been set. *)
Record NativeVM := mkNativeVM {
  log : bool;
  state : bool;
  contractMethotds : gmap bytes (gmap bytes nativeContractMethod);
}.

Definition AllowContractMethodParamTypes (t : go_type) : bool :=
  match t with T_Context | T_Error | T_Other => false | _ => true end.

(** The test of a pointer's element asks for three kinds at once and so
    refuses every pointer; a structure is refused as well. *)
Definition param_allowed (t : go_type) : bool :=
  AllowContractMethodParamTypes t && negb (bool_decide (t = T_Ptr)) && negb (bool_decide (t = T_Struct)).

Definition registerMethod (m : method) : go nativeContractMethod :=
  match m_In m with
  | [] => Panic
  | t :: params =>
      if bool_decide (t <> T_Context) then Panic
      else
        match last (m_Out m) with
        | None => Panic
        | Some t =>
            if bool_decide (t <> T_Error) then Panic
            else if forallb param_allowed params then
              Ok (mkNative (m_Call m) (m_In m) (Z.of_nat (length (m_Out m)) - 1))
            else Panic
        end
  end.

Fixpoint registerMethods (ms : list method) (contractMap : gmap bytes nativeContractMethod) :
    go (gmap bytes nativeContractMethod) :=
  match ms with
  | [] => Ok contractMap
  | m :: ms => nm ← registerMethod m; registerMethods ms (<[m_Name m:=nm]> contractMap)
  end.

Definition registerContract (nvm : NativeVM) (addr : bytes) (contract : list method) : go NativeVM :=
  contractMap ← registerMethods contract (default ∅ (contractMethotds nvm !! addr));
  Ok (mkNativeVM (log nvm) (state nvm) (<[addr:=contractMap]> (contractMethotds nvm))).

(** A method that returns only an error. *)
Definition no_results (c : cmd W contract_error unit) : cmd W contract_error (list out_value) := _ ← c; mret [].

(** The exported methods in the order of their names.  [Call] with values of
    the wrong types panics. *)
Definition ContractAccount : list method :=
  [mkMethod (str "BindName") [T_Context; T_String; T_String; T_String] [T_Error] (fun ctx vs =>
     match vs with
     | [V_String parentAddr; V_String addr; V_String name] => no_results (BindName ctx parentAddr addr name)
     | _ => crash
     end);
   mkMethod (str "GrantAccessMethods") [T_Context; T_String; T_String; T_String; T_Slice; T_Uint 64] [T_Error] (fun ctx vs =>
     match vs with
     | [V_String parentAddr; V_String addr; V_String contractAddr; V_Strings methods; V_Number gasLimit] =>
         no_results (GrantAccessMethods ctx parentAddr addr contractAddr methods gasLimit)
     | _ => crash
     end);
   mkMethod (str "GrantAccessRoot") [T_Context; T_String; T_String] [T_Error] (fun ctx vs =>
     match vs with
     | [V_String parentAddr; V_String addr] => no_results (GrantAccessRoot ctx parentAddr addr)
     | _ => crash
     end);
   mkMethod (str "RevokeGrantAccess") [T_Context; T_String; T_String] [T_Error] (fun ctx vs =>
     match vs with
     | [V_String parentAddr; V_String addr] => no_results (RevokeGrantAccess ctx parentAddr addr)
     | _ => crash
     end);
   mkMethod (str "RevokeGrantAccessMethods") [T_Context; T_String; T_String; T_String; T_Slice] [T_Error] (fun ctx vs =>
     match vs with
     | [V_String parentAddr; V_String addr; V_String contractAddr; V_Strings methods] =>
         no_results (RevokeGrantAccessMethods ctx parentAddr addr contractAddr methods)
     | _ => crash
     end)].

Definition ContractTest : list method :=
  [mkMethod (str "TestFuncSimple") [T_Context; T_Int 64] [T_Int 64; T_Error] (fun ctx vs =>
     match vs with
     | [V_Number i] => mret [mkOut (str "int") (JsonCodec.Marshal (JsonCodec.j_int 64) (TestFuncSimple i))]
     | _ => crash
     end);
   mkMethod (str "TestFuncWithStruct") [T_Context; T_String] [T_Ptr; T_Int 64; T_String; T_Error] (fun ctx vs =>
     match vs with
     | [V_String NodeID] =>
         let '(node, n, s) := TestFuncWithStruct NodeID in
         mret [mkOut (str "*common.NodeInfo") (JsonCodec.Marshal Node.j_NodeInfo node);
               mkOut (str "int") (JsonCodec.Marshal (JsonCodec.j_int 64) n);
               mkOut (str "string") (JsonCodec.Marshal JsonCodec.j_string s)]
     | _ => crash
     end)].

Definition NewNativeVM : go NativeVM :=
  nvm ← registerContract (mkNativeVM false true ∅) (Address.NativeContractAddr_Account CurrentNetworkType) ContractAccount;
  registerContract nvm (str "ContractTest") ContractTest.

Definition UpdateState (nvm : NativeVM) (st : bool) : NativeVM := mkNativeVM (log nvm) st (contractMethotds nvm).

Definition SetLogger (nvm : NativeVM) : NativeVM := mkNativeVM true (state nvm) (contractMethotds nvm).

(** The result and the error of a call, and the nodes whose event hub is told
    of it. *)
Record vm_return := mkReturn {
  vr_result : option VMResult;
  vr_error : option vm_error;
  vr_trig : list bytes;
}.

Definition returned (code : ReturnCode) (e : vm_error) : vm_return :=
  mkReturn (Some (mkVMResult code (Error e) 0 None)) (Some e) [].

(** The results under the names of their types and their positions. *)
Definition rtnValMap (rtns : list out_value) : gmap bytes (option bytes) :=
  list_to_map (imap (fun i o => (ov_type o ++ str "_" ++ Text.FormatUint (Z.of_nat i + 1), Some (ov_json o))) rtns).

(** A panic of the method is recovered, logged, and gives nil for both; it
    happens before the method writes, so the state is the one before. *)
Definition doExecute (nvm : NativeVM) (ctx : context W) (nodeID contractAddr methodName : bytes)
    (ncMethod : nativeContractMethod) (paramIns : list go_value) : W -> go (W * vm_return) := fun w =>
  match nm_method ncMethod ctx paramIns w with
  | Panic => if log nvm then Ok (w, mkReturn None None []) else Panic
  | Err e => match e with end
  | Ok (w, inl e) => Ok (w, returned ReturnCode_ExecuteErr (EExecute e))
  | Ok (w, inr rtns) =>
      if negb (Z.of_nat (length rtns) =? resultErrorOutIndex ncMethod) then
        Ok (w, returned ReturnCode_InvalidReturn
                 (EReturn contractAddr methodName (resultErrorOutIndex ncMethod + 1) (Z.of_nat (length rtns) + 1)))
      else if resultErrorOutIndex ncMethod =? 0 then
        Ok (w, mkReturn (Some (mkVMResult ReturnCode_Ok [] 0 None)) None [])
      else
        Ok (w, mkReturn (Some (mkVMResult ReturnCode_Ok [] 0
                 (Some (JsonCodec.Marshal (JsonCodec.j_map JsonCodec.j_bytes) (Some (rtnValMap rtns)))))) None [nodeID])
  end.

Definition DeployContract (ctx : VMContext W) : W -> go (W * vm_return) := fun _ => Panic.

(** Whether the account may call the method. *)
Definition permitted (acc : Account.Account) (contractAddr methodName : bytes) : go bool :=
  match Account.Token acc with
  | Some (Account.mkAccountToken _ _ (Some perm)) =>
      '(ok, _) ← Account.HasMethodPerm perm contractAddr methodName; Ok ok
  | _ => Ok false
  end.

Definition ExecuteContract (nvm : NativeVM) (ctx : VMContext W) : W -> go (W * vm_return) := fun w =>
  if negb (state nvm) then Ok (w, returned ReturnCode_NotEnable ENotEnable)
  else if bool_decide (ContractAddr ctx = [] \/ Method ctx = []) then
    Ok (w, returned ReturnCode_InvalidVMCtx (EInvalidCtx (ContractAddr ctx) (Method ctx) None))
  else
    let exeCtx := WithValue (Context_ ctx) VMCtxKey_VMServant (CV_Servant (Servant_ ctx)) in
    '(w, fromAcc) ← GetFromAccount exeCtx w;
    match fromAcc with
    | inl e => Ok (w, returned ReturnCode_InvalidVMCtx (EInvalidCtx (ContractAddr ctx) (Method ctx) (Some e)))
    | inr fromAcc =>
        permOK ← permitted fromAcc (ContractAddr ctx) (Method ctx);
        if negb permOK then
          Ok (w, returned ReturnCode_PermissionErr (EPermission (ContractAddr ctx) (Method ctx) (Account.Addr fromAcc)))
        else
          match contractMethotds nvm !! ContractAddr ctx with
          | None => Ok (w, returned ReturnCode_ContractNotFound (EContractNotFound (ContractAddr ctx)))
          | Some contractMap =>
              match contractMap !! Method ctx with
              | None => Ok (w, returned ReturnCode_MethodNotFound (EMethodNotFound (ContractAddr ctx) (Method ctx)))
              | Some ncMethod =>
                  match ParseArgs (Args ctx) (drop 1 (paramTypes ncMethod)) with
                  | Panic => Panic
                  | Err e => Ok (w, returned ReturnCode_MethodSignatureErr (EParams (ContractAddr ctx) (Method ctx) e))
                  | Ok paramValues =>
                      if negb (Z.of_nat (length paramValues) =? Z.of_nat (length (paramTypes ncMethod)) - 1) then
                        Ok (w, returned ReturnCode_InvalidParam
                                 (EParamsLen (ContractAddr ctx) (Method ctx)
                                    (Z.of_nat (length (paramTypes ncMethod)) - 1) (Z.of_nat (length paramValues))))
                      else doExecute nvm exeCtx (NodeID ctx) (ContractAddr ctx) (Method ctx) ncMethod paramValues w
                  end
              end
          end
    end.
End Machine.
Arguments NativeVM : clear implicits.
Arguments method : clear implicits.
Arguments nativeContractMethod : clear implicits.
End NativeVM.

(** * vm/tvm, vm/factory.go *)
Module VMFactory.
Import VMType VMService NativeVM.

Section Factory.
Context {W : Type}.
Variable Error : vm_error -> bytes.

(** The Topia machine panics on every call. *)
Inductive VirtualMachine := Native (nvm : NativeVM W) | TopiaVM.

Abbreviation factory := (list (VMType * VirtualMachine)).

Definition GetVM (f : factory) (vmType : VMType) : option VirtualMachine :=
  snd <$> (snd <$> list_find (fun tv => tv.1 = vmType) f).

Definition RegisterVM (f : factory) (vmType : VMType) (vm : VirtualMachine) : go factory :=
  match GetVM f vmType with
  | Some _ => Panic
  | None => Ok ((vmType, vm) :: f)
  end.

Definition GetVMFactory (CurrentNetworkType : Types.NetworkType) : go factory :=
  nvm ← NewNativeVM CurrentNetworkType;
  f ← RegisterVM [] VMType_NATIVE (Native nvm);
  RegisterVM f VMType_TVM TopiaVM.

Definition SetLogger (f : factory) : factory :=
  (fun tv => (tv.1, match tv.2 with Native nvm => Native (NativeVM.SetLogger nvm) | TopiaVM => TopiaVM end)) <$> f.

(** The calls on what [GetVM] returned; nil panics. *)
Definition vm_ExecuteContract (vm : option VirtualMachine) (ctx : VMContext W) : W -> go (W * vm_return) :=
  match vm with
  | Some (Native nvm) => ExecuteContract Error nvm ctx
  | Some TopiaVM | None => fun _ => Panic
  end.

Definition vm_DeployContract (vm : option VirtualMachine) (ctx : VMContext W) : W -> go (W * vm_return) :=
  match vm with
  | Some (Native nvm) => DeployContract ctx
  | Some TopiaVM | None => fun _ => Panic
  end.
End Factory.
Arguments VirtualMachine : clear implicits.
End VMFactory.
