(* ===== verification/Crypt.v ===== *)
(** The signature services (src/crypt): the ed25519 service over libsodium
    (src/crypt/ed25519), the secp256k1 service over libsecp256k1
    (src/crypt/secp256), and the choice between them (src/crypt/interface.go).
    The two C libraries are parameters. *)
From Stdlib Require Import ZArith Lia Strings.Byte.
From stdpp Require Import base gmap list strings.
From S2P Require Import Prelude Common Wire Address.
Import Types.
#[local] Open Scope Z_scope.

(** What the services call of libsodium; [None] is a failure. *)
Class Sodium := {
  crypto_sign_seed_keypair : bytes -> option (bytes * bytes);
  crypto_sign_ed25519_sk_to_pk : bytes -> bytes;
  crypto_sign_detached : bytes -> bytes -> option bytes;
  crypto_sign_verify_detached : bytes -> bytes -> bytes -> bool;
  crypto_sign_ed25519_open_batch : list (bytes * bytes * bytes) -> bool;
}.

(** A detached signature has 64 bytes and verifies under the key's public
    half, which has 32. *)
Class SodiumLaws `{!Sodium} := {
  sk_to_pk_len sk : len sk = 64 -> len (crypto_sign_ed25519_sk_to_pk sk) = 32;
  sign_detached_law sk m : len sk = 64 -> m <> [] ->
    exists sig, crypto_sign_detached sk m = Some sig /\ len sig = 64
      /\ crypto_sign_verify_detached sig m (crypto_sign_ed25519_sk_to_pk sk) = true;
}.

(** What the services call of libsecp256k1: a public key created and
    serialized, a recoverable signature made and serialized, a public key
    recovered and serialized. *)
Class Secp256k1 := {
  secp256k1_context_randomize : bytes -> bool;
  secp256k1_ec_seckey_verify : bytes -> bool;
  secp256k1_pubkey_create_serialize : bytes -> option bytes;
  secp256k1_sign_recoverable : bytes -> bytes -> option bytes;
  secp256k1_recover_serialize : bytes -> bytes -> option bytes;
}.

Inductive crypt_error :=
| EArgument
| ELibrary
| ERandom
| EPubKeyLen (expected actual : Z)
| EVerify
| EAddr (e : Address.addr_error).

(** [x, err := f(addr)] for the functions on addresses. *)
Definition addr_result {A} (r : Address.addr_error + A) : outcome crypt_error A :=
  match r with inl e => Err (EAddr e) | inr a => Ok a end.

(** * crypt/ed25519 *)
Module Ed25519.

Definition PublicKeyBytes : Z := 32.

Definition PrivateKeyBytes : Z := 64.

Definition SignatureBytes : Z := 64.

Definition KeyGenSeedBytes : Z := 32.

Section Service.
Context `{!Sodium}.
Variable blake2b : Z -> bytes -> bytes.
Variable CurrentNetworkType : NetworkType.

(** ** ed25519_cgo.go *)

Definition generateKeyPairFromSeed (seed : bytes) : outcome crypt_error (bytes * bytes) :=
  if negb (len seed =? KeyGenSeedBytes) then Err EArgument
  else match crypto_sign_seed_keypair seed with Some k => Ok k | None => Err ELibrary end.

Definition seckeyToPubkey (sec : bytes) : outcome crypt_error bytes :=
  if negb (len sec =? PrivateKeyBytes) then Err EArgument else Ok (crypto_sign_ed25519_sk_to_pk sec).

Definition signDetached (sec msg : bytes) : outcome crypt_error bytes :=
  if negb (len sec =? PrivateKeyBytes) || (len msg =? 0) then Err EArgument
  else match crypto_sign_detached sec msg with Some sig => Ok sig | None => Err ELibrary end.

Definition verifyDetached (pub msg sig : bytes) : outcome crypt_error bool :=
  if negb (len pub =? PublicKeyBytes) || (len msg =? 0) || negb (len sig =? SignatureBytes) then Err EArgument
  else if crypto_sign_verify_detached sig msg pub then Ok true else Err EVerify.

(** ** ed25519.go *)

Definition pubKeyFromAddr (addr : bytes) : outcome crypt_error bytes :=
  match Address.Payload blake2b addr with
  | Panic => Panic
  | Err e => Err (EAddr e)
  | Ok payload =>
      let payload := default [] payload in
      if negb (len payload =? PublicKeyBytes) then Err (EPubKeyLen PublicKeyBytes (len payload)) else Ok payload
  end.

(** From the bytes the random source gives, or its error. *)
Definition GeneratePriPubKey (seed : option bytes) : outcome crypt_error (bytes * bytes) :=
  match seed with None => Err ERandom | Some seed => generateKeyPairFromSeed seed end.

Definition ConvertToPublic (priKey : bytes) : outcome crypt_error bytes :=
  if negb (len priKey =? PrivateKeyBytes) then Err EArgument else seckeyToPubkey priKey.

Definition Sign (priKey msg : bytes) : outcome crypt_error bytes :=
  if negb (len priKey =? PrivateKeyBytes) || (len msg =? 0) then Err EArgument else signDetached priKey msg.

Definition Verify (addr msg signData : bytes) : outcome crypt_error bool :=
  if (len msg =? 0) || negb (len signData =? SignatureBytes) then Err EArgument
  else pubKey ← pubKeyFromAddr addr; verifyDetached pubKey msg signData.

(** The slices of the arguments, position by position. *)
Definition triples (pubKeys msgs signDatas : list bytes) : list (bytes * bytes * bytes) :=
  zip (zip pubKeys msgs) signDatas.

Definition BatchVerify (pubKeys msgs signDatas : list bytes) : outcome crypt_error bool :=
  if negb (length pubKeys =? length signDatas)%nat || negb (length pubKeys =? length msgs)%nat then Err EArgument
  else if existsb (fun t => (len t.1.1 =? 0) || (len t.1.2 =? 0) || (len t.2 =? 0)) (triples pubKeys msgs signDatas)
  then Err EArgument
  else Ok (crypto_sign_ed25519_open_batch (triples pubKeys msgs signDatas)).

Fixpoint verify_each (l : list (bytes * bytes * bytes)) : outcome crypt_error bool :=
  match l with
  | [] => Ok true
  | (pub, msg, sig) :: l => _ ← verifyDetached pub msg sig; verify_each l
  end.

Definition batchVerifyOneByOne (pubKeys msgs signDatas : list bytes) : outcome crypt_error bool :=
  if negb (length pubKeys =? length signDatas)%nat || negb (length pubKeys =? length msgs)%nat then Err EArgument
  else if existsb (fun t => negb (len t.1.1 =? PublicKeyBytes) || (len t.1.2 =? 0) || negb (len t.2 =? SignatureBytes))
            (triples pubKeys msgs signDatas)
  then Err EArgument
  else verify_each (triples pubKeys msgs signDatas).

Definition CreateAddress (pubKey : bytes) : outcome crypt_error bytes :=
  if negb (len pubKey =? Address.AddressLen_ED25519) then Err (EPubKeyLen Address.AddressLen_ED25519 (len pubKey))
  else addr_result (Address.NewAddress blake2b CurrentNetworkType CryptTypes.CryptType_Ed25519 pubKey).
End Service.
End Ed25519.

(** * crypt/secp256 *)
Module Secp256.

Definition PublicKeyBytes : Z := 65.

Definition PrivateKeyBytes : Z := 32.

Definition SignatureRecoverableBytes : Z := 65.

Definition MsgBytes : Z := 32.

Section Service.
Context `{!Secp256k1}.
Variable blake2b : Z -> bytes -> bytes.
Variable CurrentNetworkType : NetworkType.

(** ** secp256k1_cgo.go *)

Definition ecPubkeyCreateAndSerialize (seckey : bytes) : outcome crypt_error bytes :=
  if negb (len seckey =? PrivateKeyBytes) then Err EArgument
  else match secp256k1_pubkey_create_serialize seckey with Some pub => Ok pub | None => Err ELibrary end.

Definition ecdsaSignAndSerialize (seckey msg : bytes) : outcome crypt_error bytes :=
  if negb (len seckey =? PrivateKeyBytes) || negb (len msg =? MsgBytes) then Err EArgument
  else match secp256k1_sign_recoverable seckey msg with Some sig => Ok sig | None => Err ELibrary end.

(** The last byte is read at an index a shorter signature does not have. *)
Definition ecdsaRecoverPubkey (msg signData : bytes) : outcome crypt_error bytes :=
  if negb (len msg =? MsgBytes) || (len signData >? SignatureRecoverableBytes) || (len signData <? SignatureRecoverableBytes - 1)
  then Err EArgument
  else if len signData <? SignatureRecoverableBytes then Panic
  else match secp256k1_recover_serialize msg signData with Some pub => Ok pub | None => Err ELibrary end.

(** ** secp256.go *)

(** Three random keys at most; the last one is used whether or not it is
    valid. *)
Fixpoint pick_seckey (n : nat) (draws : list (option bytes)) (seckey : bytes) : outcome crypt_error bytes :=
  match n, draws with
  | O, _ => Ok seckey
  | S n, Some d :: draws =>
      if negb (len d =? PrivateKeyBytes) then Err EArgument
      else if secp256k1_ec_seckey_verify d then Ok d else pick_seckey n draws d
  | S n, _ => Err ERandom
  end.

Definition maxLoopCreateSeckey : nat := 3.

Definition GeneratePriPubKey (randomize : option bytes) (draws : list (option bytes)) : outcome crypt_error (bytes * bytes) :=
  match randomize with
  | None => Err ERandom
  | Some r =>
      if negb (secp256k1_context_randomize r) then Err ELibrary
      else
        seckey ← pick_seckey maxLoopCreateSeckey draws (replicate 32 x00);
        pubkey ← ecPubkeyCreateAndSerialize seckey;
        Ok (seckey, pubkey)
  end.

Definition ConvertToPublic (priKey : bytes) : outcome crypt_error bytes :=
  if negb (len priKey =? PrivateKeyBytes) then Err EArgument else ecPubkeyCreateAndSerialize priKey.

(** The digest is computed, and the message is what is signed. *)
Definition Sign (priKey msg : bytes) : outcome crypt_error bytes :=
  let signMsg := blake2b MsgBytes msg in
  if negb (len priKey =? PrivateKeyBytes) || negb (len signMsg =? MsgBytes) then Err EArgument
  else ecdsaSignAndSerialize priKey msg.

Definition RecoverPublicKey (msg signData : bytes) : outcome crypt_error bytes :=
  if negb (len msg =? MsgBytes) || negb (len signData =? SignatureRecoverableBytes) then Err EArgument
  else ecdsaRecoverPubkey msg signData.

Definition CreateAddress (pubKey : bytes) : outcome crypt_error bytes :=
  let addressHash := blake2b Address.AddressLen_Secp256 pubKey in
  if negb (len addressHash =? Address.AddressLen_Secp256) then
    Err (EPubKeyLen Address.AddressLen_Secp256 (len addressHash))
  else addr_result (Address.NewAddress blake2b CurrentNetworkType CryptTypes.CryptType_Secp256 addressHash).

(** The error of the recovery is overwritten, and its key is nil. *)
Definition Verify (addr msg : bytes) (signData : option bytes) : outcome crypt_error bool :=
  let signMsg := blake2b MsgBytes msg in
  if negb (len signMsg =? MsgBytes) || bool_decide (signData = None) then Err EArgument
  else
    match RecoverPublicKey signMsg (default [] signData) with
    | Panic => Panic
    | r =>
        let pubKey := match r with Ok pubKey => pubKey | _ => [] end in
        addrGen ← CreateAddress pubKey; Ok (bool_decide (addrGen = addr))
    end.
End Service.
End Secp256.

(** * crypt/interface.go *)
Module Crypt.
Section Service.
Context `{!Sodium, !Secp256k1}.
Variable blake2b : Z -> bytes -> bytes.
Variable CurrentNetworkType : NetworkType.

Inductive CryptService := ServiceEd25519 | ServiceSecp256.

(** Any other type panics. *)
Definition CreateCryptService (cryptType : CryptTypes.CryptType) : go CryptService :=
  if cryptType =? CryptTypes.CryptType_Ed25519 then Ok ServiceEd25519
  else if cryptType =? CryptTypes.CryptType_Secp256 then Ok ServiceSecp256
  else Panic.

Definition ConvertToPublic (s : CryptService) (priKey : bytes) : outcome crypt_error bytes :=
  match s with ServiceEd25519 => Ed25519.ConvertToPublic priKey | ServiceSecp256 => Secp256.ConvertToPublic priKey end.

Definition Sign (s : CryptService) (priKey msg : bytes) : outcome crypt_error bytes :=
  match s with ServiceEd25519 => Ed25519.Sign priKey msg | ServiceSecp256 => Secp256.Sign blake2b priKey msg end.

Definition Verify (s : CryptService) (addr msg : bytes) (signData : option bytes) : outcome crypt_error bool :=
  match s with
  | ServiceEd25519 => Ed25519.Verify blake2b addr msg (default [] signData)
  | ServiceSecp256 => Secp256.Verify blake2b CurrentNetworkType addr msg signData
  end.

Definition CreateAddress (s : CryptService) (pubKey : bytes) : outcome crypt_error bytes :=
  match s with
  | ServiceEd25519 => Ed25519.CreateAddress blake2b CurrentNetworkType pubKey
  | ServiceSecp256 => Secp256.CreateAddress blake2b CurrentNetworkType pubKey
  end.
End Service.
End Crypt.

(** * Correctness *)
Section Spec.
Context `{!Sodium, !SodiumLaws, !Secp256k1}.
Variable blake2b : Z -> bytes -> bytes.
Variable CurrentNetworkType : NetworkType.

(** A blake2b digest has the size it is asked for. *)
Hypothesis blake2b_len : forall n x, 1 <= n <= 64 -> len (blake2b n x) = n.
Hypothesis network : Address.is_network CurrentNetworkType.

Lemma ed25519_address pub : len pub = 32 ->
  exists addr, Ed25519.CreateAddress blake2b CurrentNetworkType pub = Ok addr
    /\ Ed25519.pubKeyFromAddr blake2b addr = Ok pub
    /\ Address.decode blake2b addr = Ok (CurrentNetworkType, CryptTypes.CryptType_Ed25519, Some pub) /\ addr <> [].
Proof.
  intros Hl. assert (Hne : pub <> []) by (intros ->; done).
  assert (Hc : Address.is_crypt CryptTypes.CryptType_Ed25519) by (by right; right).
  pose proof (Address.decode_text blake2b blake2b_len CurrentNetworkType CryptTypes.CryptType_Ed25519 pub network Hc Hl) as Hd.
  exists (Address.text blake2b CurrentNetworkType CryptTypes.CryptType_Ed25519 pub). split_and!.
  - unfold Ed25519.CreateAddress. change Address.AddressLen_ED25519 with 32. rewrite Hl, Z.eqb_refl. cbn [negb].
    unfold Address.NewAddress.
    rewrite (proj2 (Address.encode_text blake2b CurrentNetworkType CryptTypes.CryptType_Ed25519 pub
      (Address.text blake2b CurrentNetworkType CryptTypes.CryptType_Ed25519 pub))); [done|]. by split_and!.
  - unfold Ed25519.pubKeyFromAddr, Address.Payload, Address.accessor.
    rewrite (proj2 (Z.eqb_neq _ 0)) by (unfold Address.text, len; simpl; lia).
    rewrite Hd. cbv beta iota zeta delta [mbind outcome_bind from_option id snd].
    change Ed25519.PublicKeyBytes with 32. by rewrite Hl.
  - done.
  - unfold Address.text. done.
Qed.

(** What an ed25519 key signs, its address verifies. *)
Lemma ed25519_signature_verifies sk m : len sk = 64 -> m <> [] ->
  exists pub addr sig, Ed25519.ConvertToPublic sk = Ok pub
    /\ Ed25519.CreateAddress blake2b CurrentNetworkType pub = Ok addr
    /\ Ed25519.Sign sk m = Ok sig
    /\ Ed25519.Verify blake2b addr m sig = Ok true.
Proof.
  intros Hsk Hm. assert (Hl : (len m =? 0) = false) by (apply Z.eqb_neq; destruct m; unfold len; simpl; [done|lia]).
  destruct (sign_detached_law sk m Hsk Hm) as (sig & Hs & Hsl & Hv).
  destruct (ed25519_address _ (sk_to_pk_len sk Hsk)) as (addr & Ha & Hp & _ & _).
  exists (crypto_sign_ed25519_sk_to_pk sk), addr, sig.
  unfold Ed25519.ConvertToPublic, Ed25519.seckeyToPubkey, Ed25519.Sign, Ed25519.signDetached, Ed25519.Verify, Ed25519.verifyDetached.
  change Ed25519.PrivateKeyBytes with 64. change Ed25519.SignatureBytes with 64. change Ed25519.PublicKeyBytes with 32.
  rewrite Hp, Hsk, Hl, Hs, Hsl, Z.eqb_refl. cbn [negb orb mbind outcome_bind].
  by rewrite (sk_to_pk_len sk Hsk), Z.eqb_refl, Hv.
Qed.


(** The secp256k1 service drops the error of a recovery: to the address
    of the empty public key it verifies every signature that is not 65 bytes
    long over every message.  Its own signatures do not help: [Sign] signs the
    message in place of its digest, and fails for every message that is not 32
    bytes long. *)
Theorem secp256_unsound : exists addr,
  Crypt.CreateAddress blake2b CurrentNetworkType Crypt.ServiceSecp256 [] = Ok addr
  /\ Address.IsValid blake2b addr CurrentNetworkType = Ok true
  /\ (forall msg sig, len sig <> 65 -> Crypt.Verify blake2b CurrentNetworkType Crypt.ServiceSecp256 addr msg (Some sig) = Ok true)
  /\ (forall sk msg, len msg <> 32 -> Crypt.Sign blake2b Crypt.ServiceSecp256 sk msg = Err EArgument).
Proof.
  set (h := blake2b Address.AddressLen_Secp256 []).
  assert (Hl : len h = 20) by (apply blake2b_len; unfold Address.AddressLen_Secp256; lia).
  assert (Hc : Address.is_crypt CryptTypes.CryptType_Secp256) by (by right; left).
  pose proof (Address.decode_text blake2b blake2b_len CurrentNetworkType CryptTypes.CryptType_Secp256 h network Hc Hl) as Hd.
  exists (Address.text blake2b CurrentNetworkType CryptTypes.CryptType_Secp256 h).
  assert (Ha : Secp256.CreateAddress blake2b CurrentNetworkType [] = Ok (Address.text blake2b CurrentNetworkType CryptTypes.CryptType_Secp256 h)).
  { unfold Secp256.CreateAddress. fold h. change Address.AddressLen_Secp256 with 20. rewrite Hl, Z.eqb_refl. cbn [negb].
    unfold Address.NewAddress. rewrite (proj2 (Address.encode_text blake2b CurrentNetworkType CryptTypes.CryptType_Secp256 h
      (Address.text blake2b CurrentNetworkType CryptTypes.CryptType_Secp256 h))); [done|]. split_and!; [done|done| |done]. intros E. by rewrite E in Hl. }
  assert (H32 : forall msg, (len (blake2b Secp256.MsgBytes msg) =? Secp256.MsgBytes) = true)
    by (intros msg; apply Z.eqb_eq, blake2b_len; unfold Secp256.MsgBytes; lia).
  split_and!; [exact Ha| | |].
  - unfold Address.IsValid. rewrite Hd. by rewrite Z.eqb_refl.
  - intros msg sig Hs. cbn [Crypt.Verify]. unfold Secp256.Verify. rewrite H32, bool_decide_eq_false_2 by done. cbn [negb orb].
    unfold Secp256.RecoverPublicKey. rewrite H32. change Secp256.SignatureRecoverableBytes with 65.
    cbn [default from_option id]. rewrite (proj2 (Z.eqb_neq (len sig) 65)) by done. cbn [negb orb]. rewrite Ha. cbn [mbind outcome_bind].
    by rewrite bool_decide_eq_true_2.
  - intros sk msg Hm. cbn [Crypt.Sign]. unfold Secp256.Sign. rewrite H32. cbn [negb]. rewrite orb_false_r.
    destruct (negb _); [done|]. unfold Secp256.ecdsaSignAndSerialize. change Secp256.MsgBytes with 32.
    rewrite (proj2 (Z.eqb_neq (len msg) 32)) by done. cbn [negb]. by rewrite orb_true_r.
Qed.
End Spec.

(** ** Examples *)
Module CryptExample.
Import Address.

(** Libraries to run the examples with. *)
#[local] Instance toy_sodium : Sodium := {
  crypto_sign_seed_keypair seed := Some (seed ++ seed, seed);
  crypto_sign_ed25519_sk_to_pk sk := take 32 sk;
  crypto_sign_detached sk m := Some (take 32 sk ++ toy_hash 32 m);
  crypto_sign_verify_detached sig m pk := bool_decide (sig = pk ++ toy_hash 32 m);
  crypto_sign_ed25519_open_batch l := forallb (fun t => bool_decide (t.2 = t.1.1 ++ toy_hash 32 t.1.2)) l;
}.

#[local] Instance toy_sodium_laws : SodiumLaws.
Proof.
  split.
  - intros sk H. cbn. unfold len in *. rewrite length_take. lia.
  - intros sk m H Hm. exists (take 32 sk ++ toy_hash 32 m). split_and!; [done| |by apply bool_decide_eq_true_2].
    unfold len in *. rewrite length_app, length_take. unfold toy_hash. rewrite length_replicate. lia.
Qed.

#[local] Instance toy_secp : Secp256k1 := {
  secp256k1_context_randomize _ := true;
  secp256k1_ec_seckey_verify _ := true;
  secp256k1_pubkey_create_serialize sk := Some (toy_hash 65 sk);
  secp256k1_sign_recoverable sk m := Some (toy_hash 65 (sk ++ m));
  secp256k1_recover_serialize m sig := None;
}.

Definition key64 : bytes := z2b <$> seqZ 1 64.


Lemma secp256_unsound_witness : exists addr,
  Crypt.CreateAddress toy_hash NetworkType_Testnet Crypt.ServiceSecp256 [] = Ok addr
  /\ Crypt.Verify toy_hash NetworkType_Testnet Crypt.ServiceSecp256 addr (str "pay mallory") (Some []) = Ok true.
Proof.
  destruct (secp256_unsound toy_hash NetworkType_Testnet toy_hash_len (or_intror eq_refl)) as (addr & H1 & _ & H2 & _).
  exists addr. split; [exact H1|]. apply H2. discriminate.
Defined.
End CryptExample.
