(* ===== verification/Universal.v ===== *)
(** Universal transactions (src/transaction): the verifiers of all transactions
    ([basic/verifier_basic.go]), the transfer, deployment and invocation of
    contracts with their verifiers, gas and execution (src/transaction/universal),
    and the factory that makes the action of a transaction
    (src/transaction/factory.go).

    A call that reads the node runs on a state [W] through a transaction
    servant; it is an [act], whose errors are part of its result. *)
From Stdlib Require Import ZArith Lia Strings.Byte.
From Stdlib Require Import Floats.SpecFloat.
From stdpp Require Import base gmap list strings.
From S2P Require Import Prelude Common Wire TxMessages ChainMessages TxBasic Text Json JsonCodec StateBase StateChain Address Account Servant Crypt NativeVM.
Import Util Types SafeCalculate Servant VMServant Tx.
#[local] Open Scope Z_scope.

(** * Calls on a state *)
Definition act (W A : Type) : Type := W -> go (W * A).

#[export] Instance act_ret W : MRet (act W) := fun A a w => Ok (w, a).

#[export] Instance act_bind W : MBind (act W) := fun A B f c w => '(w, a) ← c w; f a w.

(** [x, err := f()], with the error tested later. *)
Definition attempt {W E A} (c : cmd W E A) : act W (E + A) := c.

(** A call that does not touch the state. *)
Definition pure {W A} (c : go A) : act W A := fun w => a ← c; Ok (w, a).

(** The loop every [Apply...Verifiers] function is. *)
Fixpoint apply_all {W T} (verifiers : list (T -> act W VerifyResult)) (t : T) (vrResult : VerifyResult) : act W VerifyResult :=
  match verifiers with
  | [] => mret vrResult
  | verifier :: verifiers =>
      vR ← verifier t;
      match vR with
      | VerifyResult_Reject => mret VerifyResult_Reject
      | VerifyResult_Ignore => apply_all verifiers t vR
      | _ => apply_all verifiers t vrResult
      end
  end.

(** * transaction/basic/verifier_basic.go *)
Module BasicVerify.

Definition TransactionCategory_Topia_Universal : bytes := str "topia_universal".

Definition TransactionCategory_Eth : bytes := str "eth".

Record SignatureInfo := mkSignatureInfo { SignData : option bytes; PublicKey : option bytes }.

Definition j_SignatureInfo : JsonCodec.codec SignatureInfo :=
  JsonCodec.j_struct (mkSignatureInfo None None)
    [JsonCodec.fld "SignData" JsonCodec.j_bytes SignData (fun x r => mkSignatureInfo x (PublicKey r));
     JsonCodec.fld "PublicKey" JsonCodec.j_bytes PublicKey (fun x r => mkSignatureInfo (SignData r) x)].

Section Verifiers.
Context {W : Type} `{!Sodium, !Secp256k1}.
Variable blake2b : Z -> bytes -> bytes.
Variable CurrentNetworkType : Types.NetworkType.
Variable txServant : TransactionServant W.

Definition TransactionChainIDVerifier (t : tx) : act W VerifyResult :=
  chainID ← attempt (ChainID txServant);
  pure (Tx.TransactionChainIDVerifier (match chainID with inr c => c | inl _ => [] end) t).

(** The head of a transaction; without one the dereference panics. *)
Definition with_head {A} (t : tx) (f : TransactionHead.t -> go A) : act W A :=
  pure (match Transaction.Head t with None => Panic | Some h => f h end).

Definition TransactionFromAddressVerifier (t : tx) : act W VerifyResult :=
  with_head t (fun h =>
    let fromAddr := Address.NewFromBytes (TransactionHead.FromAddr h) in
    let fEth := Address.IsEth fromAddr in
    if fEth && bool_decide (TransactionHead.Category h = TransactionCategory_Eth) then Ok VerifyResult_Accept
    else if negb fEth then
      isValid ← Address.IsValid blake2b fromAddr CurrentNetworkType;
      Ok (if isValid : bool then VerifyResult_Accept else VerifyResult_Reject)
    else Ok VerifyResult_Reject).

(** Whether a signature in JSON is one of the address over the message; an
    address of a type without a service panics. *)
Definition check_signature (addr sign msg : bytes) : go VerifyResult :=
  match Address.CryptType blake2b addr with
  | Panic => Panic
  | Err _ => Ok VerifyResult_Reject
  | Ok cryType =>
      match JsonCodec.Unmarshal j_SignatureInfo sign (JsonCodec.zero j_SignatureInfo) with
      | Panic => Panic
      | Err _ => Ok VerifyResult_Reject
      | Ok signInfo =>
          cryService ← Crypt.CreateCryptService cryType;
          match Crypt.Verify blake2b CurrentNetworkType cryService addr msg (SignData signInfo) with
          | Panic => Panic
          | Ok true => Ok VerifyResult_Accept
          | _ => Ok VerifyResult_Reject
          end
      end
  end.

(** The data is read after the service is made, and only then. *)
Definition TransactionSignatureVerifier (t : tx) : act W VerifyResult :=
  with_head t (fun h =>
    match Transaction.Data t with
    | None =>
        match Address.CryptType blake2b (TransactionHead.FromAddr h),
              JsonCodec.Unmarshal j_SignatureInfo (TransactionHead.Signature h) (JsonCodec.zero j_SignatureInfo) with
        | Ok _, Ok _ => Panic
        | Panic, _ => Panic
        | Ok _, Panic => Panic
        | _, _ => Ok VerifyResult_Reject
        end
    | Some d =>
        check_signature (Address.NewFromBytes (TransactionHead.FromAddr h)) (TransactionHead.Signature h)
          (TransactionData.Specification d)
    end).

Definition ApplyTransactionVerifiers (t : tx) (verifiers : list (tx -> act W VerifyResult)) : act W VerifyResult :=
  apply_all verifiers t VerifyResult_Accept.

Definition BasicVerify (m : tx) : act W VerifyResult :=
  ApplyTransactionVerifiers m
    [TransactionChainIDVerifier; TransactionFromAddressVerifier; TransactionSignatureVerifier].
End Verifiers.
End BasicVerify.

(** * transaction/universal *)
Module Universal.
Import BasicVerify.

Definition TransactionUniversalType_Transfer : Z := 1.

Definition TransactionUniversalType_ContractDeploy : Z := 2.

Definition TransactionUniversalType_ContractInvoke : Z := 3.

Definition TransactionUniversalType_NativeInvoke : Z := 4.

Definition TransactionUniversalType_Relay : Z := 5.

Definition TransactionUniversalType_DataTransfer : Z := 6.

Definition TransactionUniversalType_String (tr : Z) : bytes :=
  if tr =? 1 then str "Transfer"
  else if tr =? 2 then str "ContractDeploy"
  else if tr =? 3 then str "ContractInvoke"
  else if tr =? 4 then str "NativeInvoke"
  else if tr =? 5 then str "Relay"
  else if tr =? 6 then str "DataTransfer"
  else str "Unknown".

Definition TransactionUniversalType_Value (trs : bytes) : Z :=
  if decide (trs = str "Transfer") then 1
  else if decide (trs = str "ContractDeploy") then 2
  else if decide (trs = str "ContractInvoke") then 3
  else if decide (trs = str "NativeInvoke") then 4
  else if decide (trs = str "Relay") then 5
  else if decide (trs = str "DataTransfer") then 6
  else 0.

Definition TransactionResultUniversal_OK : Z := 0.

Definition TransactionResultUniversal_Err : Z := 1.

(** [currency.TokenSymbol_Native] *)
Definition TokenSymbol_Native : bytes := str "TPA".

(** ** The three kinds of data, which travel as JSON *)

Record TargetItem := mkTarget { Symbol : bytes; Value : option Z }.

Definition j_TargetItem : JsonCodec.codec TargetItem :=
  JsonCodec.j_struct (mkTarget [] None)
    [JsonCodec.fld "Symbol" JsonCodec.j_string Symbol (fun x t => mkTarget x (Value t));
     JsonCodec.fld "Value" JsonCodec.j_big Value (fun x t => mkTarget (Symbol t) x)].

Record transferData := mkTransferData { TargetAddr : bytes; Targets : option (list TargetItem) }.

Definition j_transferData : JsonCodec.codec transferData :=
  JsonCodec.j_struct (mkTransferData [] None)
    [JsonCodec.fld "TargetAddr" JsonCodec.j_string TargetAddr (fun x t => mkTransferData x (Targets t));
     JsonCodec.fld "Targets" (JsonCodec.j_slice j_TargetItem) Targets (fun x t => mkTransferData (TargetAddr t) x)].

Record deployData := mkDeployData { ContractAddress : bytes; Code : option bytes }.

Definition j_deployData : JsonCodec.codec deployData :=
  JsonCodec.j_struct (mkDeployData [] None)
    [JsonCodec.fld "ContractAddress" JsonCodec.j_string ContractAddress (fun x t => mkDeployData x (Code t));
     JsonCodec.fld "Code" JsonCodec.j_bytes Code (fun x t => mkDeployData (ContractAddress t) x)].

Record invokeData := mkInvokeData { ContractAddr : bytes; Method : bytes; Args : bytes }.

Definition j_invokeData : JsonCodec.codec invokeData :=
  JsonCodec.j_struct (mkInvokeData [] [] [])
    [JsonCodec.fld "ContractAddr" JsonCodec.j_string ContractAddr (fun x t => mkInvokeData x (Method t) (Args t));
     JsonCodec.fld "Method" JsonCodec.j_string Method (fun x t => mkInvokeData (ContractAddr t) x (Args t));
     JsonCodec.fld "Args" JsonCodec.j_string Args (fun x t => mkInvokeData (ContractAddr t) (Method t) x)].

(** The actions; each has the two heads of its transaction. *)
Record action (D : Type) := mkAction {
  a_head : TransactionHead.t;
  a_uniHead : TransactionUniversalHead.t;
  a_data : D;
}.
Arguments mkAction {D}.
Arguments a_head {D}.
Arguments a_uniHead {D}.
Arguments a_data {D}.

Definition TransactionUniversalTransfer : Type := action transferData.

Definition TransactionUniversalDeploy : Type := action deployData.

Definition TransactionUniversalInvoke : Type := action invokeData.

Inductive TransactionAction :=
| ATransfer (t : TransactionUniversalTransfer)
| ADeploy (d : TransactionUniversalDeploy)
| AInvoke (i : TransactionUniversalInvoke).

Definition Transfer_DataBytes (txfer : TransactionUniversalTransfer) : bytes := JsonCodec.Marshal j_transferData (a_data txfer).

Definition Deploy_DataBytes (txdp : TransactionUniversalDeploy) : bytes := JsonCodec.Marshal j_deployData (a_data txdp).

Definition Invoke_DataBytes (txiv : TransactionUniversalInvoke) : bytes := JsonCodec.Marshal j_invokeData (a_data txiv).

Record TransactionUniversalWithHead := mkWithHead { wh_head : TransactionHead.t; wh_uni : TransactionUniversal.t }.

Definition ContructTransactionUniversalWithHead (txHead : TransactionHead.t) (txUniHead : TransactionUniversalHead.t)
    (txUnidata : bytes) : TransactionUniversalWithHead :=
  mkWithHead txHead (TransactionUniversal.mk (Some txUniHead) (Some (TransactionUniversalData.mk txUnidata [])) []).

(** The transaction around a universal one. *)
Definition wrap (txuni : TransactionUniversalWithHead) : go tx :=
  txUniBytes ← Codec.Marshal TransactionUniversal.desc (wh_uni txuni);
  Ok (Transaction.mk (Some (wh_head txuni)) (Some (TransactionData.mk (default [] txUniBytes) [])) []).

Definition DataLen (txuni : TransactionUniversalWithHead) : go Z :=
  match TransactionUniversal.Data (wh_uni txuni) with
  | None => Panic
  | Some d => Ok (len (TransactionUniversalData.Specification d))
  end.

Section Hash.
Variable blake2b256 : bytes -> bytes.

Definition action_HashBytes (head : TransactionHead.t) (uniHead : TransactionUniversalHead.t) (data : bytes) : go (option bytes) :=
  t ← wrap (ContructTransactionUniversalWithHead head uniHead data);
  Tx.HashBytes blake2b256 t.

Definition Transfer_HashBytes (txfer : TransactionUniversalTransfer) : go (option bytes) :=
  action_HashBytes (a_head txfer) (a_uniHead txfer) (Transfer_DataBytes txfer).

Definition Deploy_HashBytes (txdp : TransactionUniversalDeploy) : go (option bytes) :=
  action_HashBytes (a_head txdp) (a_uniHead txdp) (Deploy_DataBytes txdp).

Definition Invoke_HashBytes (txiv : TransactionUniversalInvoke) : go (option bytes) :=
  action_HashBytes (a_head txiv) (a_uniHead txiv) (Invoke_DataBytes txiv).
End Hash.

(** Data that is not JSON, and a type without an action, panic. *)
Definition GetSpecificTransactionAction (m : TransactionUniversal.t) (txHead : TransactionHead.t) : go TransactionAction :=
  match TransactionUniversal.Head m with
  | None => Panic
  | Some h =>
      let spec {D} (c : JsonCodec.codec D) (mk : action D -> TransactionAction) : go TransactionAction :=
        match TransactionUniversal.Data m with
        | None => Panic
        | Some d =>
            match JsonCodec.Unmarshal c (TransactionUniversalData.Specification d) (JsonCodec.zero c) with
            | Ok data => Ok (mk (mkAction txHead h data))
            | _ => Panic
            end
        end in
      if TransactionUniversalHead.Type_ h =? TransactionUniversalType_Transfer then spec j_transferData ATransfer
      else if TransactionUniversalHead.Type_ h =? TransactionUniversalType_ContractDeploy then spec j_deployData ADeploy
      else if TransactionUniversalHead.Type_ h =? TransactionUniversalType_ContractInvoke then spec j_invokeData AInvoke
      else Panic
  end.

(** [CreatTransactionAction] of src/transaction/factory.go. *)
Definition CreatTransactionAction (t : tx) : go TransactionAction :=
  match Transaction.Head t, Transaction.Data t with
  | Some head, Some data =>
      if decide (TransactionHead.Category head = TransactionCategory_Topia_Universal) then
        match Codec.Unmarshal TransactionUniversal.desc (TransactionData.Specification data)
                (Wire.s_zero TransactionUniversal.desc) with
        | Ok txUni => GetSpecificTransactionAction txUni head
        | _ => Panic
        end
      else Panic
  | _, _ => Panic
  end.
End Universal.

(** ** gas.go, gasprice.go *)
Module Gas.
Import BasicVerify Universal.

Definition computeBasicGas (gasConfig : GasConfiguration) (txUniDataLen : Z) : Z :=
  u64 (MinGasLimit gasConfig + u64 (txUniDataLen * GasEachByte gasConfig)).

(** [float64(x)] of an unsigned integer, rounded to nearest even. *)
Definition float_of_uint (x : Z) : float64 := binary_normalize 53 1024 x 0 false.

Definition float_add : float64 -> float64 -> float64 := SFadd 53 1024.

(** The integer part of a finite number. *)
Definition float_trunc (f : float64) : option Z :=
  match f with
  | S754_zero _ => Some 0
  | S754_finite s m e =>
      let a := if 0 <=? e then Z.pos m * 2 ^ e else Z.pos m / 2 ^ (- e) in
      Some (if s then - a else a)
  | _ => None
  end.

Section Price.
Context {W : Type}.

(** [math.Pow]; and [uint64(f)] where [f] is no number of the type, which
    depends on the machine. *)
Variable Pow : float64 -> float64 -> float64.
Variable uint_overflow : float64 -> Z.

(** What a failed decode leaves in the chunk, whose error is dropped. *)
Variable partial_chunk : bytes -> BlockDataChunk.t.

Definition uint_of_float (f : float64) : Z :=
  match float_trunc f with
  | Some z => if (0 <=? z) && (z <? 2 ^ 64) then z else u64 (uint_overflow f)
  | None => u64 (uint_overflow f)
  end.

(** The lowest price of the universal transactions, 0 for none yet. *)
Fixpoint min_price_txs (txs : list bytes) (m : Z) : go Z :=
  match txs with
  | [] => Ok m
  | txBytes :: txs =>
      match Codec.Unmarshal Transaction.desc txBytes (Wire.s_zero Transaction.desc) with
      | Ok t =>
          match Transaction.Head t with
          | None => Panic
          | Some h =>
              if decide (TransactionHead.Category h = TransactionCategory_Topia_Universal) then
                match Transaction.Data t with
                | None => Panic
                | Some d =>
                    match Codec.Unmarshal TransactionUniversal.desc (TransactionData.Specification d)
                            (Wire.s_zero TransactionUniversal.desc) with
                    | Ok txUni =>
                        match TransactionUniversal.Head txUni with
                        | None => Panic
                        | Some uh =>
                            let p := TransactionUniversalHead.GasPrice uh in
                            min_price_txs txs (if (m =? 0) || (m >? p) then p else m)
                        end
                    | _ => Panic
                    end
                end
              else min_price_txs txs m
          end
      | _ => Panic
      end
  end.

Fixpoint min_price_chunks (chunks : list bytes) (m : Z) : go Z :=
  match chunks with
  | [] => Ok m
  | dataChunkBytes :: chunks =>
      let dataChunk :=
        match BlockDataChunk.Unmarshal dataChunkBytes (Wire.s_zero BlockDataChunk.desc) with
        | Ok c => Ok c
        | Err _ => Ok (partial_chunk dataChunkBytes)
        | Panic => Panic
        end in
      c ← dataChunk;
      m ← min_price_txs (BlockDataChunk.Txs c) m;
      min_price_chunks chunks m
  end.

Variable txServant : TransactionServant W.

Definition getMinGasPriceOfLatestBlock : act W (state_error + Z) :=
  latestBlock ← attempt (GetLatestBlock txServant);
  match latestBlock with
  | inl e => mret (inl e)
  | inr b =>
      pure
        (match Block.Head b with
         | None => Panic
         | Some h =>
             if BlockHead.ChunkCount h =? 0 then Ok (inr (MinGasPrice (GetGasConfig txServant)))
             else
               match Block.Data b with
               | None => Panic
               | Some d =>
                   m ← min_price_chunks (BlockData.DataChunks d) 0;
                   Ok (inr (if m =? 0 then MinGasPrice (GetGasConfig txServant) else m))
               end
         end)
  end.

(** The price after [n] more pending blocks. *)
Fixpoint raise_price (n : nat) (price : float64) : float64 :=
  match n with
  | O => price
  | S n => raise_price n (float_add price (Pow price (GasPriceMultiple (GetGasConfig txServant))))
  end.

(** The blocks the pool would fill: nothing is counted when the size is a
    multiple of the size of a block. *)
Definition pendingBlocks : go Z :=
  let size := u64 (GetTxPoolSize txServant) in
  let max := MaxTxSizeOfEachBlock (GetChainConfig txServant) in
  if max =? 0 then Panic else Ok (if size mod max >? 0 then u64 (size / max + 1) else 0).

Definition ComputeGasPrice : act W (state_error + Z) :=
  pendingBlock ← pure pendingBlocks;
  if pendingBlock <=? 1 then mret (inr (MinGasPrice (GetGasConfig txServant)))
  else
    txMinGasPrice ← getMinGasPriceOfLatestBlock;
    match txMinGasPrice with
    | inl e => mret (inl e)
    | inr p =>
        let price := uint_of_float (raise_price (Z.to_nat (pendingBlock - 1)) (float_of_uint p)) in
        let cap := u64 (MinGasPrice (GetGasConfig txServant) * 5) in
        mret (inr (if price >=? cap then cap else price))
    end.
End Price.
End Gas.

(** ** transfer.go, deploy.go, invoke.go: execution *)
Module Execute.
Import VMType VMService NativeVM VMFactory BasicVerify Universal Gas.

(** [x.Cmp(y)]; the same pointer is equal to itself, nil too. *)
Definition big_Cmp (x y : option Z) : go comparison :=
  match x, y with
  | Some x, Some y => Ok (Z.compare x y)
  | None, None => Ok Eq
  | _, _ => Panic
  end.

(** [x.String()] *)
Definition big_String (x : option Z) : bytes :=
  match x with Some x => Text.FormatInt x | None => str "<nil>" end.

Section Execution.
Context {W : Type}.
Variable blake2b256 : bytes -> bytes.
Variable CurrentNetworkType : Types.NetworkType.

(** The texts of the errors of the state and of the machines. *)
Variable state_Error : state_error -> bytes.
Variable vm_Error : vm_error -> bytes.

(** The machines of the process, the context of the call, the node. *)
Variable vms : list (VMType * VirtualMachine W).
Variable ctx : context W.
Variable nodeID : bytes.
Variable txServant : TransactionServant W.

(** The result of an execution in its envelope. *)
Definition make_result (head : TransactionHead.t) (hash : option bytes) (gasUsed : Z) (errMsg : bytes) (status : Z)
    (data : option bytes) : go (option TransactionResult.t) :=
  b ← Codec.Marshal TransactionResultUniversal.desc
        (TransactionResultUniversal.mk (TransactionHead.Version head) (default [] hash) gasUsed errMsg status (default [] data) []);
  Ok (match b with
      | None => None
      | Some b =>
          Some (TransactionResult.mk
            (Some (TransactionResultHead.mk (TransactionHead.Category head) (TransactionHead.ChainID head) (TransactionHead.Version head) []))
            (Some (TransactionResultData.mk b [])) [])
      end).

(** *** Transfers *)

(** The accounts a transfer works on.  Each is an object of its own, read
    from the state, also when the addresses are the same. *)
Record transfer_accounts := mkAccounts {
  fromAcc : Account.Account;
  targetAcc : Account.Account;
  feePayerAcc : Account.Account;
}.

Definition balances (a : Account.Account) : gmap bytes (option Z) := default ∅ (Account.Balances a).

Definition insufficient (fromAddr symbol remaining required : bytes) : bytes :=
  str "Insufficient currency to transfer: from addr " ++ fromAddr ++ str ", currency " ++ symbol
  ++ str " remaining " ++ remaining ++ str ", required " ++ required.

(** The first loop: every item alone is covered by the balance. *)
Fixpoint check_targets (fromAddr : bytes) (from : Account.Account) (targets : list TargetItem) : go (option bytes) :=
  match targets with
  | [] => Ok None
  | item :: targets =>
      match balances from !! Symbol item with
      | None => Ok (Some (insufficient fromAddr (Symbol item) (str "0") (big_String (Value item))))
      | Some fromCurrency =>
          c ← big_Cmp fromCurrency (Value item);
          match c with
          | Lt => Ok (Some (insufficient fromAddr (Symbol item) (big_String fromCurrency) (big_String (Value item))))
          | _ => check_targets fromAddr from targets
          end
      end
  end.

(** The second loop; the error of the decrease is dropped. *)
Fixpoint move_targets (targets : list TargetItem) (target from : Account.Account) : go (Account.Account * Account.Account) :=
  match targets with
  | [] => Ok (target, from)
  | item :: targets =>
      target ← Account.BalanceIncrease target (Symbol item) (Value item);
      r ← Account.BalanceDecrease from (Symbol item) (Value item);
      move_targets targets target (match r with inl a => a | inr a => a end)
  end.

(** What [currencyTransfer] returns, with the accounts as it leaves them. *)
Record transfer_outcome := mkTransferred {
  to_gasUsed : Z;
  to_errMsg : bytes;
  to_status : Z;
  to_accounts : option transfer_accounts;
}.

(** The three reads, then the checks, then the moves: on the objects, which
    are not written back. *)
Definition transfer_on (txfer : TransactionUniversalTransfer) (gasUsed : Z) (accs : transfer_accounts) : go transfer_outcome :=
  let gasVal := SafeMul gasUsed (TransactionUniversalHead.GasPrice (a_uniHead txfer)) in
  let payer := TransactionUniversalHead.FeePayer (a_uniHead txfer) in
  let from := TransactionHead.FromAddr (a_head txfer) in
  let targets := default [] (Targets (a_data txfer)) in
  match default None (balances (feePayerAcc accs) !! TokenSymbol_Native) with
  | None => Panic
  | Some feePayerBal =>
      if feePayerBal <? gasVal then
        Ok (mkTransferred gasUsed
              (str "Insufficient currency for gas fee: fee payer " ++ payer ++ str ", remaining " ++ Text.FormatInt feePayerBal
               ++ str ", required " ++ Text.FormatInt gasVal) TransactionResultUniversal_Err (Some accs))
      else
        e ← check_targets from (fromAcc accs) targets;
        match e with
        | Some errMsg => Ok (mkTransferred gasUsed errMsg TransactionResultUniversal_Err (Some accs))
        | None =>
            '(target, from) ← move_targets targets (targetAcc accs) (fromAcc accs);
            let payerAcc :=
              Account.set_Balances (feePayerAcc accs)
                (Some (<[TokenSymbol_Native:=Some (feePayerBal - gasVal)]> (balances (feePayerAcc accs)))) in
            Ok (mkTransferred gasUsed [] TransactionResultUniversal_OK (Some (mkAccounts from target payerAcc)))
        end
  end.

Definition read_error (gasUsed : Z) (e : state_error) : transfer_outcome :=
  mkTransferred gasUsed (state_Error e) TransactionResultUniversal_Err None.

Definition currencyTransfer (txfer : TransactionUniversalTransfer) : act W transfer_outcome :=
  let gasUsed := computeBasicGas (GetGasConfig txServant) (len (Transfer_DataBytes txfer)) in
  fromAcc ← attempt (GetAccount txServant (TransactionHead.FromAddr (a_head txfer)));
  match fromAcc with
  | inl e => mret (read_error gasUsed e)
  | inr fromAcc =>
      targetAcc ← attempt (GetAccount txServant (TargetAddr (a_data txfer)));
      match targetAcc with
      | inl e => mret (read_error gasUsed e)
      | inr targetAcc =>
          feePayerAcc ← attempt (GetAccount txServant (TransactionUniversalHead.FeePayer (a_uniHead txfer)));
          match feePayerAcc with
          | inl e => mret (read_error gasUsed e)
          | inr feePayerAcc => pure (transfer_on txfer gasUsed (mkAccounts fromAcc targetAcc feePayerAcc))
          end
      end
  end.

Definition Transfer_Execute (txfer : TransactionUniversalTransfer) : act W (option TransactionResult.t) :=
  r ← currencyTransfer txfer;
  pure (hash ← Transfer_HashBytes blake2b256 txfer;
        make_result (a_head txfer) hash (to_gasUsed r) (to_errMsg r) (to_status r) None).

(** *** Contracts *)

(** The message of a call; a nil result panics. *)
Definition vm_message (r : vm_return) (vmResult : VMResult) : bytes :=
  if decide (VMType.Code vmResult = ReturnCode_Ok) then match vr_error r with None => [] | Some e => vm_Error e end
  else ReturnCode_String (VMType.Code vmResult) ++ str ": " ++ ErrMsg vmResult.

(** The status is OK whatever the machine returned. *)
Definition Deploy_Execute (txdp : TransactionUniversalDeploy) : act W (option TransactionResult.t) :=
  let vmServant := NewVMServant txServant (MaxGasEachBlock (GetGasConfig txServant)) in
  let vmContext := mkVMContext ctx vmServant nodeID [] (Code (a_data txdp)) [] [] in
  let gasUsed := computeBasicGas (GetGasConfig txServant) (len (Deploy_DataBytes txdp)) in
  r ← (vm_DeployContract (GetVM vms VMType_TVM) vmContext : act W vm_return);
  match vr_result r with
  | None => pure Panic
  | Some vmResult =>
      pure (hash ← Deploy_HashBytes blake2b256 txdp;
            make_result (a_head txdp) hash gasUsed (vm_message r vmResult) TransactionResultUniversal_OK (VMType.Data vmResult))
  end.

Definition Invoke_Execute (txiv : TransactionUniversalInvoke) : act W (option TransactionResult.t) :=
  let vmServant := NewVMServant txServant (MaxGasEachBlock (GetGasConfig txServant)) in
  let d := a_data txiv in
  let vmContext := mkVMContext ctx vmServant nodeID (ContractAddr d) None (Method d) (Args d) in
  let gasUsed := computeBasicGas (GetGasConfig txServant) (len (Invoke_DataBytes txiv)) in
  let vmType := if Address.IsNativeContractAddress CurrentNetworkType (ContractAddr d) then VMType_NATIVE else VMType_TVM in
  r ← (vm_ExecuteContract vm_Error (GetVM vms vmType) vmContext : act W vm_return);
  match vr_result r with
  | None => pure Panic
  | Some vmResult =>
      pure (hash ← Invoke_HashBytes blake2b256 txiv;
            make_result (a_head txiv) hash (u64 (gasUsed + VMType.GasUsed vmResult)) (vm_message r vmResult)
              TransactionResultUniversal_OK (VMType.Data vmResult))
  end.

Definition action_Execute (a : TransactionAction) : act W (option TransactionResult.t) :=
  match a with
  | ATransfer t => Transfer_Execute t
  | ADeploy d => Deploy_Execute d
  | AInvoke i => Invoke_Execute i
  end.

(** *** simulate.go *)

Inductive sim_error := ENoVM (txType : bytes) | EVM (e : vm_error) | EVMResult (msg : bytes).

Definition Simulate_Execute (contractAddr method args : bytes) (txType : Z) : act W (sim_error + Z) :=
  let vmServant := NewVMServant txServant (2 ^ 64 - 1) in
  let vmContext := mkVMContext [] vmServant nodeID contractAddr None method args in
  let vm := if txType =? TransactionUniversalType_NativeInvoke then GetVM vms VMType_NATIVE
            else if txType =? TransactionUniversalType_ContractInvoke then GetVM vms VMType_TVM else None in
  match vm with
  | None => mret (inl (ENoVM (TransactionUniversalType_String txType)))
  | Some _ =>
      r ← (vm_ExecuteContract vm_Error vm vmContext : act W vm_return);
      match vr_error r, vr_result r with
      | Some e, _ => mret (inl (EVM e))
      | None, None => pure Panic
      | None, Some vmResult =>
          if decide (VMType.Code vmResult = ReturnCode_Ok) then mret (inr (VMType.GasUsed vmResult))
          else mret (inl (EVMResult (ErrMsg vmResult)))
      end
  end.
End Execution.
End Execute.

(** ** gas_estimator.go and the verifiers *)
Module Verify.
Import VMType VMService NativeVM VMFactory BasicVerify Universal Gas Execute.

Inductive est_error := EEstDecode | EEstGas (e : calc_error) | EEstResult (msg : bytes).

Section Verifiers.
Context {W : Type} `{!Sodium, !Secp256k1}.
Variable blake2b : Z -> bytes -> bytes.
Variable CurrentNetworkType : Types.NetworkType.
Variable state_Error : state_error -> bytes.
Variable vm_Error : vm_error -> bytes.
Variable Pow : float64 -> float64 -> float64.
Variable uint_overflow : float64 -> Z.
Variable partial_chunk : bytes -> BlockDataChunk.t.
Variable vms : list (VMType * VirtualMachine W).
Variable ctx : context W.
Variable nodeID : bytes.
Variable txServant : TransactionServant W.

Abbreviation execute := (action_Execute (blake2b 32) CurrentNetworkType state_Error vm_Error vms ctx nodeID txServant).

(** The head of a universal transaction; without one the dereference panics. *)
Definition uni_head (txUni : TransactionUniversalWithHead) : go TransactionUniversalHead.t :=
  match TransactionUniversal.Head (wh_uni txUni) with None => Panic | Some h => Ok h end.

(** The estimate of an invocation: the contract is executed. *)
Definition estimate_invoke (txUni : TransactionUniversalWithHead) (gasUsed price : Z) : act W (est_error + option Z) :=
  a ← pure (GetSpecificTransactionAction (wh_uni txUni) (wh_head txUni));
  txRS ← execute a;
  match txRS with
  | None | Some (TransactionResult.mk _ None _) => pure Panic
  | Some (TransactionResult.mk _ (Some d) _) =>
      match Codec.Unmarshal TransactionResultUniversal.desc (TransactionResultData.Specification d)
              (Wire.s_zero TransactionResultUniversal.desc) with
      | Panic => pure Panic
      | Err _ => mret (inl EEstDecode)
      | Ok txUniRS =>
          if TransactionResultUniversal.Status txUniRS =? TransactionResultUniversal_OK then
            match SafeAddUint64 gasUsed (TransactionResultUniversal.GasUsed txUniRS) with
            | Ok g => mret (inr (Some (SafeMul g price)))
            | Err e => mret (inl (EEstGas e))
            | Panic => pure Panic
            end
          else mret (inl (EEstResult (TransactionResultUniversal.ErrString txUniRS)))
      end
  end.

(** The result is a [*big.Int]: nil with a nil error when there is no price,
    and zero for transfers and native invocations, whose cases are empty. *)
Definition Estimate (txUni : TransactionUniversalWithHead) : act W (est_error + option Z) :=
  n ← pure (DataLen txUni);
  let gasUsed := computeBasicGas (GetGasConfig txServant) n in
  gasPriceC ← ComputeGasPrice Pow uint_overflow partial_chunk txServant;
  match gasPriceC with
  | inl _ => mret (inr None)
  | inr gasPriceC =>
      h ← pure (uni_head txUni);
      let price := if gasPriceC >? TransactionUniversalHead.GasPrice h then gasPriceC else TransactionUniversalHead.GasPrice h in
      let ty := TransactionUniversalHead.Type_ h in
      if ty =? TransactionUniversalType_Transfer then mret (inr (Some 0))
      else if ty =? TransactionUniversalType_ContractDeploy then mret (inr (Some (SafeMul gasUsed price)))
      else if ty =? TransactionUniversalType_NativeInvoke then mret (inr (Some 0))
      else if ty =? TransactionUniversalType_ContractInvoke then estimate_invoke txUni gasUsed price
      else mret (inr (Some 0))
  end.

(** *** verifier_universal.go *)

Definition accept_if (b : bool) : VerifyResult := if b then VerifyResult_Accept else VerifyResult_Reject.

Definition TransactionUniversalPayerAddressVerifier (txUni : TransactionUniversalWithHead) : act W VerifyResult :=
  h ← pure (uni_head txUni);
  isValid ← pure (Address.IsValid blake2b (Address.NewFromBytes (TransactionUniversalHead.FeePayer h)) CurrentNetworkType);
  mret (accept_if isValid).

Definition TransactionUniversalGasVerifier (txUni : TransactionUniversalWithHead) : act W VerifyResult :=
  h ← pure (uni_head txUni);
  if TransactionUniversalHead.GasPrice h <? MinGasPrice (GetGasConfig txServant) then mret VerifyResult_Reject
  else if TransactionUniversalHead.GasLimit h <? MinGasLimit (GetGasConfig txServant) then mret VerifyResult_Reject
  else
    estiGas ← Estimate txUni;
    match estiGas with
    | inl _ => mret VerifyResult_Reject
    | inr estiGas =>
        balVal ← attempt (GetBalance txServant (Address.NewFromBytes (TransactionUniversalHead.FeePayer h)) TokenSymbol_Native);
        match balVal with
        | inl _ => mret VerifyResult_Reject
        | inr balVal =>
            c ← pure (big_Cmp estiGas balVal);
            mret (match c with Gt => VerifyResult_Reject | _ => VerifyResult_Accept end)
        end
    end.

Definition TransactionUniversalNonceVerifier (txUni : TransactionUniversalWithHead) : act W VerifyResult :=
  latestNonce ← attempt (GetNonce txServant (Address.NewFromBytes (TransactionHead.FromAddr (wh_head txUni))));
  match latestNonce with
  | inl _ => mret VerifyResult_Reject
  | inr latestNonce => mret (accept_if (TransactionHead.Nonce (wh_head txUni) =? u64 (latestNonce + 1)))
  end.

(** A transaction without data has panicked in the gas verifier. *)
Definition TransactionUniversalPayerSignatureVerifier (txUni : TransactionUniversalWithHead) : act W VerifyResult :=
  h ← pure (uni_head txUni);
  pure (match TransactionUniversal.Data (wh_uni txUni) with
        | None => Panic
        | Some d =>
            check_signature blake2b CurrentNetworkType (Address.NewFromBytes (TransactionUniversalHead.FeePayer h))
              (TransactionUniversalHead.FeePayerSignature h) (TransactionUniversalData.Specification d)
        end).

Definition ApplyTransactionUniversalVerifiers (txUni : TransactionUniversalWithHead)
    (verifiers : list (TransactionUniversalWithHead -> act W VerifyResult)) : act W VerifyResult :=
  apply_all verifiers txUni VerifyResult_Accept.

(** *** universal.go *)

(** The cases of the two [switch] statements: only an accepted transaction
    meets the further verifiers, and an ignored one is accepted. *)
Definition and_then (vR : VerifyResult) (next : act W VerifyResult) : act W VerifyResult :=
  match vR with
  | VerifyResult_Reject => mret VerifyResult_Reject
  | VerifyResult_Ignore => mret VerifyResult_Accept
  | VerifyResult_Accept => next
  | ValidationResult_Unknown => pure Panic
  end.

Definition TxUniVerify (txuni : TransactionUniversalWithHead) : act W VerifyResult :=
  t ← pure (wrap txuni);
  vR ← BasicVerify blake2b CurrentNetworkType txServant t;
  and_then vR
    (ApplyTransactionUniversalVerifiers txuni
       [TransactionUniversalPayerAddressVerifier; TransactionUniversalGasVerifier; TransactionUniversalNonceVerifier;
        TransactionUniversalPayerSignatureVerifier]).

(** *** verifier_transfer.go *)

Definition TransactionUniversalTransferTargetAddressVerifier (txTr : TransactionUniversalTransfer) : act W VerifyResult :=
  let targetAddr := TargetAddr (a_data txTr) in
  isValid ← pure (Address.IsValid blake2b targetAddr CurrentNetworkType);
  if negb isValid then mret VerifyResult_Reject
  else mret (accept_if (Address.IsPayable CurrentNetworkType targetAddr)).

Definition TransactionUniversalTransferTargetItemsVerifier (txTr : TransactionUniversalTransfer) : act W VerifyResult :=
  mret (accept_if (negb (len (default [] (Targets (a_data txTr))) >? MaxTargetItem (GetChainConfig txServant)))).

Definition ApplyTransactionUniversalTransferVerifiers (txTr : TransactionUniversalTransfer)
    (verifiers : list (TransactionUniversalTransfer -> act W VerifyResult)) : act W VerifyResult :=
  apply_all verifiers txTr VerifyResult_Accept.

(** *** verifier_deploy.go *)

Definition TransactionUniversalDeployContractAddressVerifier (txDP : TransactionUniversalDeploy) : act W VerifyResult :=
  mret VerifyResult_Accept.

Definition TransactionUniversalDeployCodeVerifier (txDP : TransactionUniversalDeploy) : act W VerifyResult :=
  mret (accept_if (negb (len (default [] (Code (a_data txDP))) >? MaxCodeSize (GetChainConfig txServant)))).

Definition ApplyTransactionUniversalDeployVerifiers (txDP : TransactionUniversalDeploy)
    (verifiers : list (TransactionUniversalDeploy -> act W VerifyResult)) : act W VerifyResult :=
  apply_all verifiers txDP VerifyResult_Accept.

(** *** verifier_invoke.go *)

Definition TransactionUniversalInvokeContractAddressVerifier (txIV : TransactionUniversalInvoke) : act W VerifyResult :=
  mret VerifyResult_Accept.

Definition TransactionUniversalInvokeMethodVerifier (txIV : TransactionUniversalInvoke) : act W VerifyResult :=
  mret (accept_if (negb (len (Method (a_data txIV)) =? 0))).

(** The expression looks at the first character: a letter, a digit or the
    separator. *)
Definition args_match (s : bytes) : bool :=
  match s with
  | [] => false
  | c :: _ =>
      Text.in_range 97 122 c || Text.in_range 65 90 c || Text.in_range 48 57 c || Byte.eqb c "@"
  end.

Definition TransactionUniversalInvokeArgsVerifier (txIV : TransactionUniversalInvoke) : act W VerifyResult :=
  mret (accept_if (args_match (Args (a_data txIV)))).

Definition ApplyTransactionUniversalInvokeVerifiers (txIV : TransactionUniversalInvoke)
    (verifiers : list (TransactionUniversalInvoke -> act W VerifyResult)) : act W VerifyResult :=
  apply_all verifiers txIV VerifyResult_Accept.

(** *** The three [Verify] methods *)

Definition Transfer_Verify (txfer : TransactionUniversalTransfer) : act W VerifyResult :=
  vR ← TxUniVerify (ContructTransactionUniversalWithHead (a_head txfer) (a_uniHead txfer) (Transfer_DataBytes txfer));
  and_then vR
    (ApplyTransactionUniversalTransferVerifiers txfer
       [TransactionUniversalTransferTargetAddressVerifier; TransactionUniversalTransferTargetItemsVerifier]).

Definition Deploy_Verify (txdp : TransactionUniversalDeploy) : act W VerifyResult :=
  vR ← TxUniVerify (ContructTransactionUniversalWithHead (a_head txdp) (a_uniHead txdp) (Deploy_DataBytes txdp));
  and_then vR
    (ApplyTransactionUniversalDeployVerifiers txdp
       [TransactionUniversalDeployContractAddressVerifier; TransactionUniversalDeployCodeVerifier]).

Definition Invoke_Verify (txiv : TransactionUniversalInvoke) : act W VerifyResult :=
  vR ← TxUniVerify (ContructTransactionUniversalWithHead (a_head txiv) (a_uniHead txiv) (Invoke_DataBytes txiv));
  and_then vR
    (ApplyTransactionUniversalInvokeVerifiers txiv
       [TransactionUniversalInvokeContractAddressVerifier; TransactionUniversalInvokeMethodVerifier;
        TransactionUniversalInvokeArgsVerifier]).

Definition action_Verify (a : TransactionAction) : act W VerifyResult :=
  match a with ATransfer t => Transfer_Verify t | ADeploy d => Deploy_Verify d | AInvoke i => Invoke_Verify i end.

(** [CreatTransactionAction(tx).Execute(...)], what the scheduler runs. *)
Definition execute_tx (t : tx) : act W (option TransactionResult.t) :=
  a ← pure (CreatTransactionAction t); execute a.

(** [EstimateGas] and [ExecuteTxSim] of src/service/transaction.go. *)
Inductive sim_tx_error := ESimCategory | ESimVerify | ESimEstimate (e : est_error).

Definition action_with_head (a : TransactionAction) : TransactionUniversalWithHead :=
  match a with
  | ATransfer t => ContructTransactionUniversalWithHead (a_head t) (a_uniHead t) (Transfer_DataBytes t)
  | ADeploy d => ContructTransactionUniversalWithHead (a_head d) (a_uniHead d) (Deploy_DataBytes d)
  | AInvoke i => ContructTransactionUniversalWithHead (a_head i) (a_uniHead i) (Invoke_DataBytes i)
  end.

Definition EstimateGas (t : tx) : act W (sim_tx_error + option Z) :=
  match Transaction.Head t with
  | None => pure Panic
  | Some h =>
      if decide (TransactionHead.Category h <> TransactionCategory_Topia_Universal) then mret (inl ESimCategory)
      else
        a ← pure (CreatTransactionAction t);
        r ← Estimate (action_with_head a);
        mret (match r with inl e => inl (ESimEstimate e) | inr g => inr g end)
  end.

Definition ExecuteTxSim (t : tx) : act W (sim_tx_error + option TransactionResult.t) :=
  match Transaction.Head t with
  | None => pure Panic
  | Some h =>
      if decide (TransactionHead.Category h <> TransactionCategory_Topia_Universal) then mret (inl ESimCategory)
      else
        a ← pure (CreatTransactionAction t);
        vR ← action_Verify a;
        if decide (vR = VerifyResult_Reject) then mret (inl ESimVerify)
        else rs ← execute a; mret (inr rs)
  end.
End Verifiers.
End Verify.

(** ** transaction.go, factory.go: making transactions *)
Module NewTx.
Import BasicVerify Universal.

Section Make.
Context `{!Sodium, !Secp256k1}.
Variable blake2b : Z -> bytes -> bytes.
Variable CurrentNetworkType : Types.NetworkType.

(** Every error of the service panics. *)
Definition must {A} (r : outcome crypt_error A) : go A := match r with Ok a => Ok a | _ => Panic end.

(** The signature of the data with the public key, in JSON. *)
Definition sign_info (s : Crypt.CryptService) (privKey data pubKey : bytes) : go bytes :=
  signData ← must (Crypt.Sign blake2b s privKey data);
  Ok (JsonCodec.Marshal (JsonCodec.j_ptr j_SignatureInfo) (Some (mkSignatureInfo (Some signData) (Some pubKey)))).

(** The chain id is not set. *)
Definition NewTransaction (cryptService : Crypt.CryptService) (privKey : option bytes) (nonce : Z) (txCategory : bytes)
    (txVersion : Z) (data : bytes) : go tx :=
  match privKey with
  | None => Panic
  | Some privKey =>
      if len data =? 0 then Panic
      else
        txFromPubKey ← must (Crypt.ConvertToPublic cryptService privKey);
        txFromAddr ← must (Crypt.CreateAddress blake2b CurrentNetworkType cryptService txFromPubKey);
        if bool_decide (txCategory = TransactionCategory_Eth) && negb (Address.IsEth txFromAddr) then Panic
        else
          signBytes ← sign_info cryptService privKey data txFromPubKey;
          Ok (Transaction.mk
                (Some (TransactionHead.mk txCategory [] txVersion 0 0 txFromAddr nonce signBytes []))
                (Some (TransactionData.mk data [])) [])
  end.

Definition ConstructTransactionWithUniversalTransfer (cryptService : Crypt.CryptService) (fromPriKey : option bytes)
    (feePayerPriKey : bytes) (nonce gasPrice gasLimit : Z) (targetAddr : bytes) (targets : option (list TargetItem)) : go tx :=
  let trDataBytes := JsonCodec.Marshal j_transferData (mkTransferData targetAddr targets) in
  txUniSignData ← must (Crypt.Sign blake2b cryptService feePayerPriKey trDataBytes);
  feePayerPubKey ← must (Crypt.ConvertToPublic cryptService feePayerPriKey);
  feePayerAddr ← must (Crypt.CreateAddress blake2b CurrentNetworkType cryptService feePayerPubKey);
  let txUniSignBytes :=
    JsonCodec.Marshal (JsonCodec.j_ptr j_SignatureInfo) (Some (mkSignatureInfo (Some txUniSignData) (Some feePayerPubKey))) in
  let txUni :=
    TransactionUniversal.mk
      (Some (TransactionUniversalHead.mk 1 feePayerAddr gasPrice gasLimit TransactionUniversalType_Transfer txUniSignBytes 0 []))
      (Some (TransactionUniversalData.mk trDataBytes [])) [] in
  txDataBytes ← Codec.Marshal TransactionUniversal.desc txUni;
  NewTransaction cryptService fromPriKey nonce TransactionCategory_Topia_Universal 1 (default [] txDataBytes).
End Make.
End NewTx.
