(* ===== verification/UniversalSpec.v ===== *)
(** Correctness of universal transactions: what a transfer does to the
    accounts, and that it does nothing to the state; what an accepted transfer
    has been checked for; that a constructed transfer is read back, and is
    rejected for its missing chain id; the range of the gas price; that
    executing a contract panics. *)
From Stdlib Require Import ZArith Lia Strings.Byte.
From Stdlib Require Import Floats.SpecFloat.
From stdpp Require Import base gmap list strings.
From S2P Require Import Prelude Common Backend Wire TxMessages ChainMessages TxBasic Text Json JsonCodec StateBase StateChain Address Account AccountSpec Servant Crypt NativeVM Universal.
Import Util Types SafeCalculate Servant VMServant Tx.
#[local] Open Scope Z_scope.

(** Reading a result of an act that has succeeded. *)
Lemma act_bind_Ok {W A B} (c : act W A) (f : A -> act W B) w w' b :
  (c ≫= f) w = Ok (w', b) -> exists w1 a, c w = Ok (w1, a) /\ f a w1 = Ok (w', b).
Proof.
  unfold mbind, act_bind. intros H. apply outcome_bind_Ok in H as ([w1 a] & H1 & H2). eauto.
Qed.

Lemma pure_Ok {W A} (c : go A) (w w' : W) a : pure c w = Ok (w', a) -> w' = w /\ c = Ok a.
Proof. unfold pure. intros H. apply outcome_bind_Ok in H as (x & -> & [= <- <-]). done. Qed.

Lemma mret_Ok {W A} (a a' : A) (w w' : W) : (mret a : act W A) w = Ok (w', a') -> w' = w /\ a' = a.
Proof. intros [= <- <-]. done. Qed.

Lemma act_run {W A B} (c : act W A) (f : A -> act W B) w w1 a : c w = Ok (w1, a) -> (c ≫= f) w = f a w1.
Proof. intros H. unfold mbind, act_bind. by rewrite H. Qed.

(** * Transfers *)
Module TransferSpec.
Import Universal Gas Execute.

(** The amount of a currency an account holds; nothing is zero. *)
Definition holds (a : Account.Account) (symbol : bytes) : Z := default 0 (mjoin (balances a !! symbol)).

(** The amount of a currency the items move. *)
Definition amount (targets : list TargetItem) (symbol : bytes) : Z :=
  foldr (fun i n => if decide (Symbol i = symbol) then default 0 (Value i) + n else n) 0 targets.

Lemma amount_notin targets s : s ∉ Symbol <$> targets -> amount targets s = 0.
Proof.
  induction targets as [|i ts IH]; [done|]. rewrite fmap_cons, not_elem_of_cons. intros [Hne Hin].
  cbn [amount foldr]. rewrite decide_False by done. by apply IH.
Qed.

Lemma holds_set a k x m s :
  holds (Account.set_Balances a (Some (<[k:=Some x]> m))) s = if decide (k = s) then x else default 0 (mjoin (m !! s)).
Proof.
  unfold holds, balances, Account.set_Balances. cbn [Account.Balances from_option id].
  destruct (decide (k = s)) as [<-|Hne]; [by rewrite lookup_insert_eq|by rewrite lookup_insert_ne].
Qed.

Lemma BalanceIncrease_holds a symbol value a' : Account.BalanceIncrease a symbol value = Ok a' ->
  exists v, value = Some v /\ forall s, holds a' s = holds a s + (if decide (symbol = s) then v else 0).
Proof.
  unfold Account.BalanceIncrease. destruct (Account.Balances a) as [m|] eqn:Em; [|done]. destruct value as [v|]; [|done].
  intros H. exists v. split; [done|]. intros s.
  assert (Hh : holds a s = default 0 (mjoin (m !! s))) by (unfold holds, balances; by rewrite Em). rewrite Hh.
  destruct (m !! symbol) as [[b|]|] eqn:Eb; [|done|].
  all: injection H as <-; rewrite holds_set; destruct (decide (symbol = s)) as [<-|Hne]; rewrite ?Eb; simpl; lia.
Qed.

(** A decrease that is covered. *)
Lemma BalanceDecrease_holds a symbol v b : balances a !! symbol = Some (Some b) -> v <= b ->
  exists a', Account.BalanceDecrease a symbol (Some v) = Ok (inr a')
    /\ (forall s, holds a' s = holds a s - (if decide (symbol = s) then v else 0))
    /\ forall s, s <> symbol -> balances a' !! s = balances a !! s.
Proof.
  intros Hb Hv. unfold Account.BalanceDecrease. fold (balances a). rewrite Hb, (proj2 (Z.ltb_ge b v)) by done.
  eexists. split; [done|]. split; [intros s|intros s Hs].
  - rewrite holds_set. unfold holds, balances in *. destruct (decide (symbol = s)) as [<-|Hne]; [rewrite Hb|]; simpl; lia.
  - unfold balances at 1. cbn. by rewrite lookup_insert_ne.
Qed.

Lemma check_targets_None fromAddr from targets : check_targets fromAddr from targets = Ok None ->
  Forall (fun i => exists b, balances from !! Symbol i = Some b /\ (Value i = None /\ b = None
    \/ exists v n, Value i = Some v /\ b = Some n /\ v <= n)) targets.
Proof.
  induction targets as [|i ts IH]; [constructor|]. cbn [check_targets].
  destruct (balances from !! Symbol i) as [b|] eqn:Eb; [|done]. intros H.
  apply outcome_bind_Ok in H as (c & Hc & H). destruct c; [|done|].
  all: constructor; [|by apply IH]; exists b; split; [done|].
  all: unfold big_Cmp in Hc; destruct b as [n|], (Value i) as [v|]; try discriminate; first [by left|right; exists v, n].
  all: injection Hc as Hc; split_and!; [done..|]; revert Hc; case Z.compare_spec; intros; done || lia.
Qed.

(** The moves of items of different currencies that are all covered. *)
Lemma move_targets_spec targets target from target' from' : NoDup (Symbol <$> targets) ->
  Forall (fun i => exists b, balances from !! Symbol i = Some b /\ (Value i = None /\ b = None
    \/ exists v n, Value i = Some v /\ b = Some n /\ v <= n)) targets ->
  move_targets targets target from = Ok (target', from') ->
  Forall (fun i => is_Some (Value i)) targets
  /\ forall s, holds target' s = holds target s + amount targets s /\ holds from' s = holds from s - amount targets s.
Proof.
  revert target from. induction targets as [|i ts IH]; intros target from Hnd Hall H.
  { injection H as <- <-. split; [constructor|]. intros s. cbn. lia. }
  rewrite fmap_cons, NoDup_cons in Hnd. destruct Hnd as [Hi Hnd].
  inversion Hall as [|? ? (b & Hb & Hv) Hrest]; subst. cbn [move_targets] in H.
  apply outcome_bind_Ok in H as (target1 & Hinc & H). apply BalanceIncrease_holds in Hinc as (v & Ev & Ht).
  destruct Hv as [[Hn _]|(v' & n & Ev' & -> & Hle)]; [congruence|]. rewrite Ev in Ev'. injection Ev' as <-.
  destruct (BalanceDecrease_holds from (Symbol i) v n Hb Hle) as (from1 & Hdec & Hf & Hsame).
  rewrite Ev, Hdec, Ok_bind in H. destruct (IH target1 from1 Hnd) as [Hvs Hs]; [|done|].
  { eapply Forall_impl; [apply Forall_and; split; [exact Hrest|exact (proj2 (Forall_forall _ _) (fun x Hx => Hx))]|].
    intros j [(b' & Hb' & Hj) Hin]. exists b'. split; [|done]. rewrite Hsame; [done|].
    intros E. apply Hi. rewrite <- E. by apply list_elem_of_fmap_2. }
  split; [constructor; eauto|]. intros s. destruct (Hs s) as [-> ->]. rewrite Ht, Hf. cbn [amount foldr]. rewrite Ev.
  fold (amount ts s). destruct (decide (Symbol i = s)); cbn; lia.
Qed.

(** An account whose balances are all there. *)
Definition solid (a : Account.Account) : Prop := exists m, Account.Balances a = Some m /\ map_Forall (fun _ => is_Some) m.

Lemma solid_set a m k x : map_Forall (fun _ => is_Some) m -> solid (Account.set_Balances a (Some (<[k:=Some x]> m))).
Proof. intros Hm. eexists. split; [done|]. by apply map_Forall_insert_2. Qed.

Lemma solid_lookup a s b : solid a -> balances a !! s = Some b -> exists v, b = Some v.
Proof. intros (m & E & Hm). unfold balances. rewrite E. intros Hs. exact (Hm s b Hs). Qed.

Lemma BalanceIncrease_total a symbol v : solid a -> exists a', Account.BalanceIncrease a symbol (Some v) = Ok a' /\ solid a'.
Proof.
  intros (m & E & Hm). unfold Account.BalanceIncrease. rewrite E. destruct (m !! symbol) as [b|] eqn:Eb.
  - destruct (Hm _ _ Eb) as [n ->]. eexists. split; [done|]. by apply solid_set.
  - eexists. split; [done|]. by apply solid_set.
Qed.

Lemma BalanceDecrease_total a symbol v : solid a ->
  exists r, Account.BalanceDecrease a symbol (Some v) = Ok r /\ solid (match r with inl a' => a' | inr a' => a' end).
Proof.
  intros Ha. unfold Account.BalanceDecrease. fold (balances a). destruct (balances a !! symbol) as [b|] eqn:Eb; [|by eexists].
  destruct (solid_lookup a symbol b Ha Eb) as [n ->]. destruct (n <? v); [by eexists|]. eexists. split; [done|].
  destruct Ha as (m & E & Hm). unfold balances. rewrite E. by apply solid_set.
Qed.

Lemma move_targets_total targets target from : solid target -> solid from ->
  Forall (fun i => is_Some (Value i)) targets -> exists r, move_targets targets target from = Ok r.
Proof.
  intros Ht Hf Hv. revert target from Ht Hf. induction Hv as [|i ts [v Ev] _ IH]; intros target from Ht Hf; [by eexists|].
  cbn [move_targets]. rewrite Ev. destruct (BalanceIncrease_total target (Symbol i) v Ht) as (t1 & -> & Ht1).
  destruct (BalanceDecrease_total from (Symbol i) v Hf) as (f1 & -> & Hf1). rewrite !Ok_bind. by apply IH.
Qed.

(** The item is covered by a balance of the account. *)
Definition covered (from : Account.Account) (i : TargetItem) : bool :=
  match balances from !! Symbol i, Value i with Some (Some b), Some v => v <=? b | _, _ => false end.

Lemma check_targets_total fromAddr from targets : solid from -> Forall (fun i => is_Some (Value i)) targets ->
  exists e, check_targets fromAddr from targets = Ok e
    /\ forallb (covered from) targets = match e with None => true | Some _ => false end.
Proof.
  intros Hf Hv. induction Hv as [|i ts [v Ev] _ IH]; [by exists None|]. cbn [check_targets forallb].
  unfold covered at 1. rewrite Ev. destruct (balances from !! Symbol i) as [b|] eqn:Eb; [|by eexists].
  destruct (solid_lookup from _ b Hf Eb) as [n ->]. cbn [big_Cmp]. rewrite Ok_bind.
  destruct IH as (e & He & Hiff). case Z.compare_spec; intros Hcmp.
  - exists e. by rewrite (proj2 (Z.leb_le v n)) by lia.
  - eexists. by rewrite (proj2 (Z.leb_gt v n)) by lia.
  - exists e. by rewrite (proj2 (Z.leb_le v n)) by lia.
Qed.

(** The fee of a transfer. *)
Definition fee (txfer : TransactionUniversalTransfer) (gasUsed : Z) : Z :=
  SafeMul gasUsed (TransactionUniversalHead.GasPrice (a_uniHead txfer)).

(** A transfer on three accounts: it succeeds exactly when the fee and every
    item are covered, and then the amounts have moved. *)
Lemma transfer_on_spec txfer gasUsed accs bal :
  let targets := default [] (Targets (a_data txfer)) in
  NoDup (Symbol <$> targets) -> Forall (fun i => is_Some (Value i)) targets ->
  solid (fromAcc accs) -> solid (targetAcc accs) ->
  balances (feePayerAcc accs) !! TokenSymbol_Native = Some (Some bal) ->
  exists r accs', transfer_on txfer gasUsed accs = Ok r /\ to_accounts r = Some accs' /\ to_gasUsed r = gasUsed
  /\ (if (fee txfer gasUsed <=? bal) && forallb (covered (fromAcc accs)) targets then
         to_status r = TransactionResultUniversal_OK /\ to_errMsg r = []
         /\ (forall s, holds (targetAcc accs') s = holds (targetAcc accs) s + amount targets s
                    /\ holds (fromAcc accs') s = holds (fromAcc accs) s - amount targets s)
         /\ (forall s, holds (feePayerAcc accs') s
                    = holds (feePayerAcc accs) s - (if decide (TokenSymbol_Native = s) then fee txfer gasUsed else 0))
       else to_status r = TransactionResultUniversal_Err /\ accs' = accs).
Proof.
  intros targets Hnd Hv Hf Ht Hbal. unfold transfer_on. fold targets. rewrite Hbal. cbn [default from_option id].
  fold (fee txfer gasUsed). rewrite (Z.leb_antisym bal). destruct (bal <? fee txfer gasUsed).
  { do 2 eexists. by split_and!. }
  destruct (check_targets_total (TransactionHead.FromAddr (a_head txfer)) (fromAcc accs) targets Hf Hv) as (e & He & Hcov).
  rewrite He, Ok_bind, Hcov. destruct e as [msg|]; [do 2 eexists; by split_and!|].
  destruct (move_targets_total targets (targetAcc accs) (fromAcc accs) Ht Hf Hv) as ([t1 f1] & Hm). rewrite Hm, Ok_bind.
  do 2 eexists. split_and!; [done..|]. cbn [negb andb]. split_and!; [done|done| |].
  - cbn [fromAcc targetAcc]. apply (move_targets_spec targets (targetAcc accs) (fromAcc accs) t1 f1 Hnd); [|done].
    apply Forall_forall. intros i Hi. rewrite forallb_forall in Hcov. specialize (Hcov i (proj1 (list_elem_of_In _ _) Hi)).
    unfold covered in Hcov. destruct (balances (fromAcc accs) !! Symbol i) as [[b|]|], (Value i) as [v|]; try done.
    exists (Some b). split; [done|]. right. exists v, b. split_and!; [done..|]. by apply Z.leb_le.
  - intros s. cbn [feePayerAcc]. rewrite holds_set. unfold holds. destruct (decide (TokenSymbol_Native = s)) as [<-|]; [|lia].
    rewrite Hbal. simpl. lia.
Qed.

Section State.
Context {S : Type} `{!IStateStore S}.
Variables (gas : GasConfiguration) (chain : ChainConfiguration) (chainState : Chain.chainState) (poolSize : Z).
Variable state_Error : state_error -> bytes.
Variable blake2b256 : bytes -> bytes.

Abbreviation servant := (NewTransactionServant (S := S) gas chain chainState poolSize).

Lemma on_store_same {A} (c : cmd S state_error A) (w : world S) r : c (w_store w) = Ok (w_store w, r) -> on_store c w = Ok (w, r).
Proof. intros H. unfold on_store. rewrite H. by destruct w. Qed.

Lemma on_store_Ok {A} (c : cmd S state_error A) (w w' : world S) r : on_store c w = Ok (w', r) ->
  exists s, c (w_store w) = Ok (s, r) /\ (s = w_store w -> w' = w).
Proof.
  unfold on_store. intros H. destruct (c (w_store w)) as [[s r']|e|] eqn:E; [|done|done]. injection H as <- <-.
  exists s. split; [done|]. intros ->. by destruct w.
Qed.

(** Reading an account leaves the store as it is. *)
Lemma GetAccount_reads addr (s s' : S) r : AccountState.GetAccount addr s = Ok (s', r) -> s' = s.
Proof.
  unfold AccountState.GetAccount, mbind, cmd_bind, st_Get, reading, unmarshal. intros H.
  destruct (ss_GetStateData s AccountState.StateStore_Name_Account addr) as [b|e|]; [|by injection H|done].
  destruct (JsonCodec.Unmarshal Account.j_Account (default [] b) (JsonCodec.zero Account.j_Account)); [by injection H..|done].
Qed.

Lemma GetAccount_same addr (w w' : world S) r : GetAccount servant addr w = Ok (w', r) -> w' = w.
Proof.
  intros H. cbn in H. apply on_store_Ok in H as (s & Hs & He). apply He. by apply GetAccount_reads in Hs.
Qed.

Lemma currencyTransfer_same txfer (w w' : world S) r : currencyTransfer state_Error servant txfer w = Ok (w', r) -> w' = w.
Proof.
  unfold currencyTransfer. intros H.
  apply act_bind_Ok in H as (w1 & [e|fa] & H1 & H); apply GetAccount_same in H1 as ->; [by apply mret_Ok in H as []|].
  apply act_bind_Ok in H as (w2 & [e|ta] & H2 & H); apply GetAccount_same in H2 as ->; [by apply mret_Ok in H as []|].
  apply act_bind_Ok in H as (w3 & [e|pa] & H3 & H); apply GetAccount_same in H3 as ->; [by apply mret_Ok in H as []|].
  by apply pure_Ok in H as [].
Qed.

(** A transfer is not saved: whatever [Execute] returns, the state it
    leaves is the state it found.  The balances are changed on copies of the
    accounts that are dropped. *)
Theorem transfer_not_saved (txfer : TransactionUniversalTransfer) (w w' : world S) rs :
  Transfer_Execute blake2b256 state_Error servant txfer w = Ok (w', rs) -> w' = w.
Proof.
  intros H. unfold Transfer_Execute in H. apply act_bind_Ok in H as (w1 & r & H1 & H).
  apply currencyTransfer_same in H1 as ->. by apply pure_Ok in H as [].
Qed.

Context `{!StateStoreLaws S}.
Import AccountSpec.

Lemma GetAccount_found (w : world S) d m addr a : account_rep (w_store w) d m -> addr <> [] -> m !! addr = Some a ->
  attempt (GetAccount servant addr) w = Ok (w, inr a) /\ solid a.
Proof.
  intros Hr Hne Ha. split.
  - apply on_store_same. by rewrite (GetAccount_spec _ d m addr Hr Hne), Ha.
  - destruct Hr as [_ Hm]. by destruct (Hm addr a Ha) as ([_ Hs] & _).
Qed.

(** C20. A transfer of different currencies between accounts of the state
    succeeds exactly when the payer's native balance covers the fee and each
    item is covered by the sender's balance.  Then every amount has left the
    sender's account object and arrived in the target's, their sum is the same
    in every currency, and the payer's object has paid the fee; otherwise the
    result is an error and no object has changed.  It always returns. *)
Theorem transfer_exact (txfer : TransactionUniversalTransfer) (w : world S) d m fa ta pa bal :
  let targets := default [] (Targets (a_data txfer)) in
  let payer := TransactionUniversalHead.FeePayer (a_uniHead txfer) in
  let gasUsed := computeBasicGas gas (len (Transfer_DataBytes txfer)) in
  account_rep (w_store w) d m ->
  TransactionHead.FromAddr (a_head txfer) <> [] -> m !! TransactionHead.FromAddr (a_head txfer) = Some fa ->
  TargetAddr (a_data txfer) <> [] -> m !! TargetAddr (a_data txfer) = Some ta ->
  payer <> [] -> m !! payer = Some pa -> balances pa !! TokenSymbol_Native = Some (Some bal) ->
  NoDup (Symbol <$> targets) -> Forall (fun i => is_Some (Value i)) targets ->
  exists r accs, currencyTransfer state_Error servant txfer w = Ok (w, r) /\ to_accounts r = Some accs /\ to_gasUsed r = gasUsed
  /\ if (fee txfer gasUsed <=? bal) && forallb (covered fa) targets then
       to_status r = TransactionResultUniversal_OK /\ to_errMsg r = []
       /\ (forall s, holds (targetAcc accs) s = holds ta s + amount targets s
                  /\ holds (fromAcc accs) s = holds fa s - amount targets s
                  /\ holds (fromAcc accs) s + holds (targetAcc accs) s = holds fa s + holds ta s
                  /\ holds (feePayerAcc accs) s = holds pa s - (if decide (TokenSymbol_Native = s) then fee txfer gasUsed else 0))
     else to_status r = TransactionResultUniversal_Err /\ accs = mkAccounts fa ta pa.
Proof.
  intros targets payer gasUsed Hr Hf Hfa Ht Hta Hp Hpa Hbal Hnd Hv.
  destruct (GetAccount_found w d m _ fa Hr Hf Hfa) as [Ef Hsf]. destruct (GetAccount_found w d m _ ta Hr Ht Hta) as [Et Hst].
  destruct (GetAccount_found w d m _ pa Hr Hp Hpa) as [Ep _].
  destruct (transfer_on_spec txfer gasUsed (mkAccounts fa ta pa) bal Hnd Hv Hsf Hst Hbal) as (r & accs & E & Ha & Hg & Hc).
  exists r, accs. split_and!; [|done|done|].
  - unfold currencyTransfer. rewrite (act_run _ _ _ _ _ Ef), (act_run _ _ _ _ _ Et), (act_run _ _ _ _ _ Ep).
    change (GetGasConfig servant) with gas. fold gasUsed. unfold pure. by rewrite E.
  - cbn [fromAcc targetAcc feePayerAcc] in Hc. destruct ((fee txfer gasUsed <=? bal) && forallb (covered fa) (default [] (Targets (a_data txfer)))) eqn:Ec;
      unfold targets; rewrite Ec; [|done]. destruct Hc as (H1 & H2 & H3 & H4). split_and!; [done|done|]. intros s.
    destruct (H3 s) as [Hs1 Hs2]. rewrite Hs1, Hs2, (H4 s). split_and!; lia.
Qed.
End State.
End TransferSpec.

(** * A run *)
Module TransferExample.
Import Universal Gas Execute TransferSpec AccountSpec.
#[local] Existing Instance RefStore.ref_store.
#[local] Existing Instance RefStore.ref_store_laws.

Definition alice : bytes := str "t3alice".

Definition bob : bytes := str "t3bob".

Definition account_with (addr : bytes) (tpa : Z) : Account.Account :=
  with_balance TokenSymbol_Native tpa (Account.NewDefaultAccount addr).

Definition book : gmap bytes Account.Account := <[alice:=account_with alice 1000000]> (<[bob:=account_with bob 5]> ∅).

Definition world0 : world RefStore.t :=
  mkWorld (<[AccountState.StateStore_Name_Account:=JsonCodec.Marshal Account.j_Account <$> book]> ∅) LedgerState_AutoInc ∅ ∅ ∅.

(** A transfer of Alice to Bob, paid by Alice at the price of one. *)
Definition to_bob (items : list TargetItem) : TransactionUniversalTransfer :=
  mkAction (TransactionHead.mk (str "topia_universal") (str "1") 1 0 0 alice 1 [] [])
    (TransactionUniversalHead.mk 1 alice 1 60000 TransactionUniversalType_Transfer [] 0 [])
    (mkTransferData bob (Some items)).

Lemma account_with_ok addr n : JsonCodec.utf8 addr -> account_ok (account_with addr n) /\ Account.Addr (account_with addr n) = addr.
Proof. intros H. split; [|done]. apply account_ok_edits; [by apply NewDefaultAccount_ok|done]. Qed.

Lemma book_rep : account_rep (w_store world0) ∅ book.
Proof.
  split; [done|]. apply map_Forall_insert_2; [split_and!; [by apply account_with_ok..|done]|].
  apply map_Forall_insert_2; [split_and!; [by apply account_with_ok..|done]|]. apply map_Forall_empty.
Qed.

Lemma transfer_exact_witness :
  exists r accs, currencyTransfer (fun _ => []) (NewTransactionServant DefGasConfiguration DefChainConfiguration (Chain.mkChainState (str "l")) 0)
      (to_bob [mkTarget TokenSymbol_Native (Some 7)]) world0 = Ok (world0, r)
  /\ to_accounts r = Some accs /\ to_status r = TransactionResultUniversal_OK
  /\ holds (targetAcc accs) TokenSymbol_Native = 12 /\ holds (fromAcc accs) TokenSymbol_Native = 999993.
Proof.
  destruct (transfer_exact (S := RefStore.t) DefGasConfiguration DefChainConfiguration (Chain.mkChainState (str "l")) 0 (fun _ => [])
    (to_bob [mkTarget TokenSymbol_Native (Some 7)]) world0 ∅ book (account_with alice 1000000) (account_with bob 5)
    (account_with alice 1000000) 1000000) as (r & accs & E & Ha & _ & Hc).
  - exact book_rep.
  - done.
  - reflexivity.
  - done.
  - reflexivity.
  - done.
  - reflexivity.
  - reflexivity.
  - apply NoDup_singleton.
  - repeat constructor. by eexists.
  - exists r, accs. assert (Ht : (fee (to_bob [mkTarget TokenSymbol_Native (Some 7)])
      (computeBasicGas DefGasConfiguration (len (Transfer_DataBytes (to_bob [mkTarget TokenSymbol_Native (Some 7)])))) <=? 1000000)
      && forallb (covered (account_with alice 1000000)) (default [] (Targets (a_data (to_bob [mkTarget TokenSymbol_Native (Some 7)])))) = true)
      by (vm_compute; reflexivity).
    rewrite Ht in Hc. destruct Hc as (Hs & _ & H). destruct (H TokenSymbol_Native) as (-> & -> & _).
    split_and!; [exact E|exact Ha|exact Hs|vm_compute; reflexivity|vm_compute; reflexivity].
Defined.

(** The same currency twice: each item alone is covered by the balance, the
    second decrease fails unnoticed, and Bob's account grows by more than
    Alice's shrinks. *)
Lemma duplicate_items_mint :
  (match transfer_on (to_bob [mkTarget TokenSymbol_Native (Some 600000); mkTarget TokenSymbol_Native (Some 600000)]) 1
           (mkAccounts (account_with alice 1000000) (account_with bob 5) (account_with alice 1000000)) with
   | Ok r => (to_status r, (fun a => (holds (fromAcc a) TokenSymbol_Native, holds (targetAcc a) TokenSymbol_Native)) <$> to_accounts r)
   | _ => (1, None)
   end) = (TransactionResultUniversal_OK, Some (400000, 1200005)).
Proof. vm_compute. reflexivity. Qed.

(** A negative amount takes from the target. *)
Lemma negative_item_takes :
  (match transfer_on (to_bob [mkTarget TokenSymbol_Native (Some (-5))]) 1
           (mkAccounts (account_with alice 1000000) (account_with bob 5) (account_with alice 1000000)) with
   | Ok r => (to_status r, (fun a => (holds (fromAcc a) TokenSymbol_Native, holds (targetAcc a) TokenSymbol_Native)) <$> to_accounts r)
   | _ => (1, None)
   end) = (TransactionResultUniversal_OK, Some (1000005, 0)).
Proof. vm_compute. reflexivity. Qed.

Lemma transfer_not_saved_witness :
  exists rs, Transfer_Execute (@rev byte) (fun _ => [])
      (NewTransactionServant DefGasConfiguration DefChainConfiguration (Chain.mkChainState (str "l")) 0)
      (to_bob [mkTarget TokenSymbol_Native (Some 7)]) world0 = Ok (world0, rs) /\ rs <> None.
Proof.
  destruct (Transfer_Execute (@rev byte) (fun _ => [])
      (NewTransactionServant DefGasConfiguration DefChainConfiguration (Chain.mkChainState (str "l")) 0)
      (to_bob [mkTarget TokenSymbol_Native (Some 7)]) world0) as [[w' rs]|e|] eqn:E.
  - exists rs. rewrite (transfer_not_saved _ _ _ _ _ _ _ _ _ _ E). split; [reflexivity|].
    assert (Hn : (match Transfer_Execute (@rev byte) (fun _ => [])
      (NewTransactionServant DefGasConfiguration DefChainConfiguration (Chain.mkChainState (str "l")) 0)
      (to_bob [mkTarget TokenSymbol_Native (Some 7)]) world0 with Ok (_, None) => false | _ => true end) = true)
      by (vm_compute; reflexivity).
    rewrite E in Hn. by destruct rs.
  - destruct e.
  - assert (Hn : is_ok (Transfer_Execute (@rev byte) (fun _ => [])
      (NewTransactionServant DefGasConfiguration DefChainConfiguration (Chain.mkChainState (str "l")) 0)
      (to_bob [mkTarget TokenSymbol_Native (Some 7)]) world0) = true) by (vm_compute; reflexivity).
    rewrite E in Hn. done.
Defined.
End TransferExample.

(** * Verification *)
Module VerifySpec.
Import VMType VMService NativeVM VMFactory BasicVerify Universal Gas Execute Verify TransferSpec.

Lemma wrap_Ok x t : wrap x = Ok t -> exists b, Codec.Marshal TransactionUniversal.desc (wh_uni x) = Ok (Some b)
  /\ t = Transaction.mk (Some (wh_head x)) (Some (TransactionData.mk b [])) [].
Proof.
  unfold wrap, Codec.Marshal. intros H. apply outcome_bind_Ok in H as (ob & H & [= <-]).
  apply outcome_bind_Ok in H as (b & -> & [= <-]). by exists b.
Qed.

(** Conversion opens the verifiers first and never runs the encoders. *)
#[local] Strategy expand [TxUniVerify Transfer_Verify BasicVerify ApplyTransactionVerifiers ApplyTransactionUniversalVerifiers
  ApplyTransactionUniversalTransferVerifiers].
#[local] Strategy 1000 [wrap JsonCodec.Marshal JsonCodec.Unmarshal Codec.Marshal Codec.Unmarshal].

Section Chains.
Context {W T : Type}.

(** The verifier accepts or rejects. *)
Definition decides (v : T -> act W VerifyResult) : Prop :=
  forall t w w' r, v t w = Ok (w', r) -> r = VerifyResult_Accept \/ r = VerifyResult_Reject.

(** All verifiers accept, one after the other. *)
Fixpoint passes (vs : list (T -> act W VerifyResult)) (t : T) (w w' : W) : Prop :=
  match vs with
  | [] => w' = w
  | v :: vs => exists w1, v t w = Ok (w1, VerifyResult_Accept) /\ passes vs t w1 w'
  end.

Lemma apply_all_decides vs t (w w' : W) r : Forall decides vs -> apply_all vs t VerifyResult_Accept w = Ok (w', r) ->
  r = VerifyResult_Reject \/ r = VerifyResult_Accept /\ passes vs t w w'.
Proof.
  intros Hvs. revert w. induction Hvs as [|v vs Hv _ IH]; intros w H; cbn [apply_all passes] in *.
  { apply mret_Ok in H as [-> ->]. auto. }
  apply act_bind_Ok in H as (w1 & vR & Hvr & H). destruct (Hv _ _ _ _ Hvr) as [-> | ->].
  - apply IH in H as [->|[-> Hp]]; [auto|right]. eauto.
  - apply mret_Ok in H as [-> ->]. auto.
Qed.

Lemma and_then_Accept vR (next : act W VerifyResult) w w' : vR <> VerifyResult_Ignore ->
  and_then vR next w = Ok (w', VerifyResult_Accept) -> vR = VerifyResult_Accept /\ next w = Ok (w', VerifyResult_Accept).
Proof. intros Hne H. destruct vR; try done. Qed.
End Chains.

Section Decisions.
Context {W : Type} `{libsodium : !Sodium, libsecp : !Secp256k1}.
Variables (blake2b : Z -> bytes -> bytes) (CurrentNetworkType : Types.NetworkType).
Variables (state_Error : state_error -> bytes) (vm_Error : vm_error -> bytes).
Variables (Pow : float64 -> float64 -> float64) (uint_overflow : float64 -> Z) (partial_chunk : bytes -> BlockDataChunk.t).
Variables (vms : list (VMType * VirtualMachine W)) (ctx : context W) (nodeID : bytes) (txServant : TransactionServant W).

Lemma check_signature_decides addr sign msg r : check_signature blake2b CurrentNetworkType addr sign msg = Ok r ->
  r = VerifyResult_Accept \/ r = VerifyResult_Reject.
Proof.
  unfold check_signature. intros H. destruct (Address.CryptType blake2b addr) as [c|e|]; [|naive_solver|done].
  destruct (JsonCodec.Unmarshal j_SignatureInfo sign (JsonCodec.zero j_SignatureInfo)) as [i|e|]; [|naive_solver|done].
  apply outcome_bind_Ok in H as (s & _ & H). split_matches; naive_solver.
Qed.

Lemma basic_decides : Forall decides [TransactionChainIDVerifier txServant; TransactionFromAddressVerifier blake2b CurrentNetworkType;
  TransactionSignatureVerifier blake2b CurrentNetworkType].
Proof.
  repeat apply Forall_cons_2; [| | |apply Forall_nil_2]; intros t w w' r H.
  - unfold TransactionChainIDVerifier in H. apply act_bind_Ok in H as (w1 & c & _ & H). apply pure_Ok in H as [_ H].
    unfold Tx.TransactionChainIDVerifier in H. destruct (Transaction.Head t); [|done]. injection H as <-. case_bool_decide; auto.
  - unfold TransactionFromAddressVerifier, with_head in H. apply pure_Ok in H as [_ H]. destruct (Transaction.Head t); [|done].
    destruct (_ && _); [injection H; auto|]. destruct (negb _); [|injection H; auto].
    apply outcome_bind_Ok in H as (b & _ & H). destruct b; injection H; auto.
  - unfold TransactionSignatureVerifier, with_head in H. apply pure_Ok in H as [_ H]. destruct (Transaction.Head t); [|done].
    destruct (Transaction.Data t); [by eapply check_signature_decides|]. split_matches; naive_solver.
Qed.

Lemma accept_if_decides b : accept_if b = VerifyResult_Accept \/ accept_if b = VerifyResult_Reject.
Proof. destruct b; auto. Qed.

Lemma accept_if_Accept b : accept_if b = VerifyResult_Accept <-> b = true.
Proof. by destruct b. Qed.

Abbreviation universal_verifiers :=
  [TransactionUniversalPayerAddressVerifier blake2b CurrentNetworkType;
   TransactionUniversalGasVerifier blake2b CurrentNetworkType state_Error vm_Error Pow uint_overflow partial_chunk vms ctx nodeID txServant;
   TransactionUniversalNonceVerifier txServant; TransactionUniversalPayerSignatureVerifier blake2b CurrentNetworkType].

Lemma universal_decides : Forall decides universal_verifiers.
Proof.
  repeat apply Forall_cons_2; [| | | |apply Forall_nil_2]; intros t w w' r H.
  - unfold TransactionUniversalPayerAddressVerifier in H. apply act_bind_Ok in H as (w1 & h & _ & H).
    apply act_bind_Ok in H as (w2 & b & _ & H). apply mret_Ok in H as [_ ->]. apply accept_if_decides.
  - unfold TransactionUniversalGasVerifier in H. apply act_bind_Ok in H as (w1 & h & _ & H).
    destruct (_ <? _); [apply mret_Ok in H as [_ ->]; auto|]. destruct (_ <? _); [apply mret_Ok in H as [_ ->]; auto|].
    apply act_bind_Ok in H as (w2 & [e|g] & _ & H); [apply mret_Ok in H as [_ ->]; auto|].
    apply act_bind_Ok in H as (w3 & [e|bal] & _ & H); [apply mret_Ok in H as [_ ->]; auto|].
    apply act_bind_Ok in H as (w4 & c & _ & H). apply mret_Ok in H as [_ ->]. destruct c; auto.
  - unfold TransactionUniversalNonceVerifier in H. apply act_bind_Ok in H as (w1 & [e|n] & _ & H);
      apply mret_Ok in H as [_ ->]; [auto|]. apply accept_if_decides.
  - unfold TransactionUniversalPayerSignatureVerifier in H. apply act_bind_Ok in H as (w1 & h & _ & H).
    apply pure_Ok in H as [_ H]. destruct (TransactionUniversal.Data _); [|done]. by eapply check_signature_decides.
Qed.

Lemma transfer_decides : Forall decides [TransactionUniversalTransferTargetAddressVerifier (W := W) blake2b CurrentNetworkType;
  TransactionUniversalTransferTargetItemsVerifier txServant].
Proof.
  repeat apply Forall_cons_2; [| |apply Forall_nil_2]; intros t w w' r H.
  - unfold TransactionUniversalTransferTargetAddressVerifier in H. apply act_bind_Ok in H as (w1 & b & _ & H).
    destruct (negb b); apply mret_Ok in H as [_ ->]; [auto|]. apply accept_if_decides.
  - apply mret_Ok in H as [_ ->]. apply accept_if_decides.
Qed.

Abbreviation basic_verifiers :=
  [TransactionChainIDVerifier txServant; TransactionFromAddressVerifier blake2b CurrentNetworkType;
   TransactionSignatureVerifier blake2b CurrentNetworkType].

Abbreviation uni_verify :=
  (TxUniVerify blake2b CurrentNetworkType state_Error vm_Error Pow uint_overflow partial_chunk vms ctx nodeID txServant).

(** A universal transaction is accepted when all seven verifiers pass. *)
Lemma TxUniVerify_decides txuni w w' r : uni_verify txuni w = Ok (w', r) ->
  r = VerifyResult_Reject \/ r = VerifyResult_Accept
    /\ exists t w1, wrap txuni = Ok t /\ passes basic_verifiers t w w1 /\ passes universal_verifiers txuni w1 w'.
Proof.
  intros H. unfold TxUniVerify in H. apply act_bind_Ok in H as (w0 & t & Ht & H). apply pure_Ok in Ht as [-> Ht].
  apply act_bind_Ok in H as (w1 & vR & Hb & H).
  apply (apply_all_decides _ _ _ _ _ basic_decides) in Hb as [->|[-> Hp]]; [left; by apply mret_Ok in H as []|].
  apply (apply_all_decides _ _ _ _ _ universal_decides) in H as [|[-> Hq]]; [auto|right]. split; [done|]. eauto.
Qed.

(** The common shape of the three [Verify] methods. *)
Lemma Verify_Accept {T} txuni (vs : list (T -> act W VerifyResult)) x w w' : Forall decides vs ->
  (vR ← uni_verify txuni; and_then vR (apply_all vs x VerifyResult_Accept)) w = Ok (w', VerifyResult_Accept) ->
  exists t w1 w2, wrap txuni = Ok t /\ passes basic_verifiers t w w1 /\ passes universal_verifiers txuni w1 w2 /\ passes vs x w2 w'.
Proof.
  intros Hvs H. apply act_bind_Ok in H as (w2 & vR & Hu & H).
  apply TxUniVerify_decides in Hu as [->|[-> (t & w1 & Ht & Hp & Hq)]]; [by apply mret_Ok in H as []|].
  apply (apply_all_decides _ _ _ _ _ Hvs) in H as [|[_ Hr]]; [done|]. by exists t, w1, w2.
Qed.
End Decisions.

Section State.
Context {S : Type} `{stores : !IStateStore S, libsodium : !Sodium, libsecp : !Secp256k1}.
Variables (blake2b : Z -> bytes -> bytes) (CurrentNetworkType : Types.NetworkType).
Variables (state_Error : state_error -> bytes) (vm_Error : vm_error -> bytes).
Variables (Pow : float64 -> float64 -> float64) (uint_overflow : float64 -> Z) (partial_chunk : bytes -> BlockDataChunk.t).
Variables (vms : list (VMType * VirtualMachine (world S))) (ctx : context (world S)) (nodeID : bytes).
Variables (gas : GasConfiguration) (chain : ChainConfiguration) (chainState : Chain.chainState) (poolSize : Z).

Abbreviation servant := (NewTransactionServant (S := S) gas chain chainState poolSize).

Lemma ChainID_same (w w' : world S) r : ChainID servant w = Ok (w', r) -> w' = w /\ exists c, r = inr c.
Proof.
  cbn. unfold Chain.ChainID, mbind, cmd_bind, trying. intros H.
  destruct (on_store _ w) as [[w1 r1]|e|] eqn:E; [|done|done]. injection H as <- <-. split; [|eauto].
  apply on_store_Ok in E as (s & Hs & He). apply He. unfold st_Get, reading in Hs.
  destruct (ss_GetStateData _ _ _); by simplify_eq.
Qed.

(** A read of an account and what is computed of it. *)
Lemma read_account_same {A} addr (f : Account.Account -> cmd S state_error A) (w w' : world S) r :
  (forall a s, exists r', f a s = Ok (s, r')) ->
  on_store (a ← AccountState.GetAccount addr; f a) w = Ok (w', r) ->
  w' = w /\ (a ← AccountState.GetAccount addr; f a) (w_store w) = Ok (w_store w, r).
Proof.
  intros Hf H. apply on_store_Ok in H as (s & Hs & He). assert (s = w_store w) as ->; [|auto].
  unfold mbind, cmd_bind in Hs. destruct (AccountState.GetAccount addr (w_store w)) as [[s1 [e|a]]|e|] eqn:Eg; [| |done|done].
  - apply GetAccount_reads in Eg as ->. by injection Hs.
  - apply GetAccount_reads in Eg as ->. destruct (Hf a (w_store w)) as [r' Hr]. rewrite Hr in Hs. by injection Hs.
Qed.

Lemma GetNonce_same addr (w w' : world S) r : GetNonce servant addr w = Ok (w', r) ->
  w' = w /\ AccountState.GetNonce addr (w_store w) = Ok (w_store w, r).
Proof. apply read_account_same. intros a s. by eexists. Qed.

Lemma GetBalance_same addr symbol (w w' : world S) r : GetBalance servant addr symbol w = Ok (w', r) ->
  w' = w /\ AccountState.GetBalance addr symbol (w_store w) = Ok (w_store w, r).
Proof. apply read_account_same. intros a s. destruct (_ !! symbol); by eexists. Qed.

(** The latest block may become the cached one; the store is only read. *)
Lemma GetLatestBlock_store (w w' : world S) r : GetLatestBlock servant w = Ok (w', r) -> w_store w' = w_store w.
Proof.
  cbn. unfold Chain.GetLatestBlock, mbind, cmd_bind. intros H.
  destruct (on_store _ w) as [[w1 r1]|e|] eqn:E; [|done|done].
  assert (w1 = w) as ->.
  { apply on_store_Ok in E as (s & Hs & He). apply He. unfold st_Get, reading in Hs. destruct (ss_GetStateData _ _ _); by simplify_eq. }
  destruct r1 as [e|b]; [by injection H as <- _|]. unfold unmarshal_proto, modify in H.
  destruct (Codec.Unmarshal Block.desc _ _); [|by injection H as <- _|done]. by injection H as <- _.
Qed.

Lemma ComputeGasPrice_store (w w' : world S) r :
  ComputeGasPrice Pow uint_overflow partial_chunk servant w = Ok (w', r) -> w_store w' = w_store w.
Proof.
  intros H. unfold ComputeGasPrice in H. apply act_bind_Ok in H as (w1 & n & Hn & H). apply pure_Ok in Hn as [-> _].
  destruct (n <=? 1); [by apply mret_Ok in H as [-> _]|]. apply act_bind_Ok in H as (w2 & p & Hp & H).
  assert (w' = w2) as -> by (destruct p; by apply mret_Ok in H as [-> _]).
  unfold getMinGasPriceOfLatestBlock in Hp. apply act_bind_Ok in Hp as (w3 & [e|b] & Hb & Hp); apply GetLatestBlock_store in Hb.
  - by apply mret_Ok in Hp as [-> _].
  - by apply pure_Ok in Hp as [-> _].
Qed.

(** The estimate of a transfer reads the state. *)
Lemma Estimate_transfer txUni h (w w' : world S) r : TransactionUniversal.Head (wh_uni txUni) = Some h ->
  TransactionUniversalHead.Type_ h = TransactionUniversalType_Transfer ->
  Estimate blake2b CurrentNetworkType state_Error vm_Error Pow uint_overflow partial_chunk vms ctx nodeID servant txUni w = Ok (w', r) ->
  w_store w' = w_store w.
Proof.
  intros Hh Hty H. unfold Estimate in H. apply act_bind_Ok in H as (w1 & n & Hn & H). apply pure_Ok in Hn as [-> _].
  apply act_bind_Ok in H as (w2 & [e|p] & Hp & H); apply ComputeGasPrice_store in Hp; [by apply mret_Ok in H as [-> _]|].
  apply act_bind_Ok in H as (w3 & h' & Hh' & H). apply pure_Ok in Hh' as [-> Hh']. unfold uni_head in Hh'. rewrite Hh in Hh'.
  injection Hh' as <-. rewrite Hty in H. cbn in H. by apply mret_Ok in H as [-> _].
Qed.

Abbreviation signed := (fun addr sign msg => check_signature blake2b CurrentNetworkType addr sign msg = Ok VerifyResult_Accept).

(** What the three basic verifiers have checked. *)
Lemma basic_passed t h d (w w' : world S) : Transaction.Head t = Some h -> Transaction.Data t = Some d ->
  passes [TransactionChainIDVerifier servant; TransactionFromAddressVerifier blake2b CurrentNetworkType;
          TransactionSignatureVerifier blake2b CurrentNetworkType] t w w' ->
  w' = w /\ Chain.ChainID w = Ok (w, inr (TransactionHead.ChainID h))
  /\ (if Address.IsEth (TransactionHead.FromAddr h) then TransactionHead.Category h = TransactionCategory_Eth
      else Address.IsValid blake2b (TransactionHead.FromAddr h) CurrentNetworkType = Ok true)
  /\ signed (TransactionHead.FromAddr h) (TransactionHead.Signature h) (TransactionData.Specification d).
Proof.
  intros Hh Hd (w1 & H1 & w2 & H2 & w3 & H3 & ->). unfold TransactionChainIDVerifier in H1.
  apply act_bind_Ok in H1 as (w0 & c & Hc & H1). pose proof Hc as Hc'. apply ChainID_same in Hc as [-> [c0 ->]].
  apply pure_Ok in H1 as [-> H1]. unfold Tx.TransactionChainIDVerifier in H1. rewrite Hh in H1. injection H1 as H1.
  case_bool_decide as Hb; [|done]. apply bytes_Compare_eq in Hb as <-.
  unfold TransactionFromAddressVerifier, with_head in H2. rewrite Hh in H2. apply pure_Ok in H2 as [-> H2].
  unfold TransactionSignatureVerifier, with_head in H3. rewrite Hh, Hd in H3. apply pure_Ok in H3 as [-> H3].
  split_and!; [done|exact Hc'| |exact H3]. unfold Address.NewFromBytes in H2.
  destruct (Address.IsEth (TransactionHead.FromAddr h)); cbn [andb negb] in H2.
  - case_bool_decide; [done|]. by injection H2.
  - apply outcome_bind_Ok in H2 as (b & -> & H2). by destruct b.
Qed.

(** What the four universal verifiers have checked of a transfer. *)
Lemma universal_passed txuni uh data (w w' : world S) :
  TransactionUniversal.Head (wh_uni txuni) = Some uh -> TransactionUniversal.Data (wh_uni txuni) = Some data ->
  TransactionUniversalHead.Type_ uh = TransactionUniversalType_Transfer ->
  passes [TransactionUniversalPayerAddressVerifier blake2b CurrentNetworkType;
    TransactionUniversalGasVerifier blake2b CurrentNetworkType state_Error vm_Error Pow uint_overflow partial_chunk vms ctx nodeID servant;
    TransactionUniversalNonceVerifier servant; TransactionUniversalPayerSignatureVerifier blake2b CurrentNetworkType] txuni w w' ->
  w_store w' = w_store w
  /\ Address.IsValid blake2b (TransactionUniversalHead.FeePayer uh) CurrentNetworkType = Ok true
  /\ MinGasPrice gas <= TransactionUniversalHead.GasPrice uh /\ MinGasLimit gas <= TransactionUniversalHead.GasLimit uh
  /\ (exists b, AccountState.GetBalance (TransactionUniversalHead.FeePayer uh) TokenSymbol_Native (w_store w) = Ok (w_store w, inr b))
  /\ (exists n, AccountState.GetNonce (TransactionHead.FromAddr (wh_head txuni)) (w_store w) = Ok (w_store w, inr n)
        /\ TransactionHead.Nonce (wh_head txuni) = u64 (n + 1))
  /\ signed (TransactionUniversalHead.FeePayer uh) (TransactionUniversalHead.FeePayerSignature uh)
       (TransactionUniversalData.Specification data).
Proof.
  intros Hh Hd Hty (w1 & H1 & w2 & H2 & w3 & H3 & w4 & H4 & ->).
  unfold TransactionUniversalPayerAddressVerifier in H1. apply act_bind_Ok in H1 as (w0 & uh' & Hu & H1).
  apply pure_Ok in Hu as [-> Hu]. unfold uni_head in Hu. rewrite Hh in Hu. injection Hu as <-.
  apply act_bind_Ok in H1 as (w0 & v & Hv & H1). apply pure_Ok in Hv as [-> Hv]. apply mret_Ok in H1 as [-> H1]. symmetry in H1.
  apply accept_if_Accept in H1 as ->.
  unfold TransactionUniversalGasVerifier in H2. apply act_bind_Ok in H2 as (w0 & uh' & Hu & H2).
  apply pure_Ok in Hu as [-> Hu]. unfold uni_head in Hu. rewrite Hh in Hu. injection Hu as <-. cbn [GetGasConfig NewTransactionServant] in H2.
  destruct (Z.ltb_spec (TransactionUniversalHead.GasPrice uh) (MinGasPrice gas)) as [|Hp]; [by apply mret_Ok in H2 as []|].
  destruct (Z.ltb_spec (TransactionUniversalHead.GasLimit uh) (MinGasLimit gas)) as [|Hl]; [by apply mret_Ok in H2 as []|].
  apply act_bind_Ok in H2 as (w5 & [e|g] & He & H2); [by apply mret_Ok in H2 as []|].
  apply (Estimate_transfer txuni uh _ _ _ Hh Hty) in He.
  apply act_bind_Ok in H2 as (w6 & [e|b] & Hb & H2); apply GetBalance_same in Hb as [-> Hb]; [by apply mret_Ok in H2 as []|].
  apply act_bind_Ok in H2 as (w6 & c & Hc & H2). apply pure_Ok in Hc as [-> _]. apply mret_Ok in H2 as [-> _].
  unfold TransactionUniversalNonceVerifier in H3. apply act_bind_Ok in H3 as (w6 & [e|n] & Hn & H3); apply GetNonce_same in Hn as [-> Hn];
    [by apply mret_Ok in H3 as []|]. apply mret_Ok in H3 as [-> H3]. symmetry in H3. apply accept_if_Accept, Z.eqb_eq in H3.
  unfold TransactionUniversalPayerSignatureVerifier in H4. apply act_bind_Ok in H4 as (w6 & uh' & Hu & H4).
  apply pure_Ok in Hu as [-> Hu]. unfold uni_head in Hu. rewrite Hh in Hu. injection Hu as <-.
  apply pure_Ok in H4 as [-> H4]. rewrite Hd in H4. rewrite He in Hb, Hn. split_and!; eauto.
Qed.

Lemma CreatTransactionAction_transfer t txfer : CreatTransactionAction t = Ok (ATransfer txfer) ->
  TransactionHead.Category (a_head txfer) = TransactionCategory_Topia_Universal
  /\ TransactionUniversalHead.Type_ (a_uniHead txfer) = TransactionUniversalType_Transfer.
Proof.
  unfold CreatTransactionAction. destruct (Transaction.Head t) as [h|]; [|done]. destruct (Transaction.Data t) as [d|]; [|done].
  destruct (decide _) as [Hc|]; [|done]. destruct (Codec.Unmarshal _ _ _) as [m| |]; [|done|done].
  unfold GetSpecificTransactionAction. destruct (TransactionUniversal.Head m) as [uh|]; [|done].
  destruct (TransactionUniversal.Data m) as [ud|].
  - destruct (Z.eqb_spec (TransactionUniversalHead.Type_ uh) TransactionUniversalType_Transfer) as [Ht|].
    + destruct (JsonCodec.Unmarshal j_transferData _ _); [|done|done]. by intros [= <-].
    + destruct (_ =? _); [by destruct (JsonCodec.Unmarshal j_deployData _ _)|].
      destruct (_ =? _); [by destruct (JsonCodec.Unmarshal j_invokeData _ _)|done].
  - by repeat destruct (_ =? _).
Qed.

Lemma Transfer_Verify_passed txfer (w w' : world S) :
  Transfer_Verify blake2b CurrentNetworkType state_Error vm_Error Pow uint_overflow partial_chunk vms ctx nodeID servant txfer w
    = Ok (w', VerifyResult_Accept) ->
  exists t w1 w2, wrap (ContructTransactionUniversalWithHead (a_head txfer) (a_uniHead txfer) (Transfer_DataBytes txfer)) = Ok t
  /\ passes [TransactionChainIDVerifier servant; TransactionFromAddressVerifier blake2b CurrentNetworkType;
             TransactionSignatureVerifier blake2b CurrentNetworkType] t w w1
  /\ passes [TransactionUniversalPayerAddressVerifier blake2b CurrentNetworkType;
      TransactionUniversalGasVerifier blake2b CurrentNetworkType state_Error vm_Error Pow uint_overflow partial_chunk vms ctx nodeID servant;
      TransactionUniversalNonceVerifier servant; TransactionUniversalPayerSignatureVerifier blake2b CurrentNetworkType]
      (ContructTransactionUniversalWithHead (a_head txfer) (a_uniHead txfer) (Transfer_DataBytes txfer)) w1 w2
  /\ passes [TransactionUniversalTransferTargetAddressVerifier blake2b CurrentNetworkType;
             TransactionUniversalTransferTargetItemsVerifier servant] txfer w2 w'.
Proof. exact (Verify_Accept _ _ _ _ _ _ _ _ _ _ _ _ _ _ _ _ (transfer_decides blake2b CurrentNetworkType servant)). Qed.

(** C21. What an accepted transfer has been checked for: the chain id is that
    of the state; the sender's address is one of the network, and the sender
    has signed the encoding of the universal transaction; the payer's address
    is one of the network, the payer has signed the data and has an account;
    the gas price and limit are at least the configured ones; the nonce is the
    one after the sender's; the target is a payable address of the network; the
    items are not too many.  The store has only been read. *)
Theorem accepted_transfer_checked t txfer (w w' : world S) : CreatTransactionAction t = Ok (ATransfer txfer) ->
  Transfer_Verify blake2b CurrentNetworkType state_Error vm_Error Pow uint_overflow partial_chunk vms ctx nodeID servant txfer w
    = Ok (w', VerifyResult_Accept) ->
  let h := a_head txfer in
  let uh := a_uniHead txfer in
  let payer := TransactionUniversalHead.FeePayer uh in
  let from := TransactionHead.FromAddr h in
  let valid addr := Address.IsValid blake2b addr CurrentNetworkType = Ok true in
  w_store w' = w_store w
  /\ Chain.ChainID w = Ok (w, inr (TransactionHead.ChainID h))
  /\ (Address.IsEth from = false /\ valid from /\ valid payer)
  /\ (exists msg, Codec.Marshal TransactionUniversal.desc
          (TransactionUniversal.mk (Some uh) (Some (TransactionUniversalData.mk (Transfer_DataBytes txfer) [])) []) = Ok (Some msg)
        /\ signed from (TransactionHead.Signature h) msg)
  /\ signed payer (TransactionUniversalHead.FeePayerSignature uh) (Transfer_DataBytes txfer)
  /\ (MinGasPrice gas <= TransactionUniversalHead.GasPrice uh /\ MinGasLimit gas <= TransactionUniversalHead.GasLimit uh)
  /\ (exists b, AccountState.GetBalance payer TokenSymbol_Native (w_store w) = Ok (w_store w, inr b))
  /\ (exists n, AccountState.GetNonce from (w_store w) = Ok (w_store w, inr n) /\ TransactionHead.Nonce h = u64 (n + 1))
  /\ (valid (TargetAddr (a_data txfer)) /\ Address.IsPayable CurrentNetworkType (TargetAddr (a_data txfer)) = true)
  /\ len (default [] (Targets (a_data txfer))) <= MaxTargetItem chain.
Proof.
  intros Hc H h uh payer from valid. apply CreatTransactionAction_transfer in Hc as [Hcat Hty].
  apply Transfer_Verify_passed in H as (t' & w1 & w2 & Ht & Hb & Hu & Hx).
  apply wrap_Ok in Ht as (b & Hm & ->).
  destruct (basic_passed (Transaction.mk (Some h) (Some (TransactionData.mk b [])) []) h
    (TransactionData.mk b []) _ _ eq_refl eq_refl Hb) as (-> & Hid & Hfrom & Hsig).
  destruct (universal_passed (ContructTransactionUniversalWithHead h uh (Transfer_DataBytes txfer)) uh
    (TransactionUniversalData.mk (Transfer_DataBytes txfer) []) _ _ eq_refl eq_refl Hty Hu) as (Hst & Hp & Hgp & Hgl & Hbal & Hn & Hps).
  destruct Hx as (w3 & H1 & w4 & H2 & ->). unfold TransactionUniversalTransferTargetAddressVerifier in H1.
  apply act_bind_Ok in H1 as (w5 & v & Hv & H1). apply pure_Ok in Hv as [-> Hv].
  destruct v; [|by apply mret_Ok in H1 as []]. apply mret_Ok in H1 as [-> H1]. symmetry in H1. apply accept_if_Accept in H1.
  apply mret_Ok in H2 as [-> H2]. symmetry in H2. apply accept_if_Accept in H2.
  assert (He : Address.IsEth from = false /\ valid from).
  { revert Hfrom. fold from. fold h in Hcat. rewrite Hcat. by destruct (Address.IsEth from). }
  split; [exact Hst|]. split; [exact Hid|]. split; [exact (conj (proj1 He) (conj (proj2 He) Hp))|].
  split; [exists b; split; [exact Hm|exact Hsig]|].
  split; [exact Hps|]. split; [exact (conj Hgp Hgl)|]. split; [exact Hbal|]. split; [exact Hn|]. split; [exact (conj Hv H1)|].
  rewrite negb_true_iff, Z.gtb_ltb, Z.ltb_ge in H2. exact H2.
Qed.
End State.
End VerifySpec.

(** * Constructed transfers *)
Module TransferJson.
Import JsonCodec Universal.

Lemma TargetItem_lawful : lawful j_TargetItem (fun t => utf8 (Symbol t) /\ True) 1.
Proof. change 1 with (1 + Z.max 0 0). unfold j_TargetItem. solve_struct. Qed.

#[local] Hint Resolve TargetItem_lawful : json.

(** The texts of a transfer are valid UTF-8. *)
Definition data_ok (d : transferData) : Prop :=
  utf8 (TargetAddr d) /\ all_of (fun t => utf8 (Symbol t) /\ True) (Targets d).

Lemma transferData_lawful : lawful j_transferData data_ok 3.
Proof. change 3 with (1 + Z.max 0 2). unfold j_transferData, data_ok. solve_struct. Qed.

Lemma transferData_read d : data_ok d ->
  Unmarshal j_transferData (Marshal j_transferData d) (zero j_transferData) = Ok d.
Proof.
  intros Hd. apply (Unmarshal_Marshal _ data_ok 3); [apply transferData_lawful|unfold Json.maxNestingDepth; lia|done].
Qed.

End TransferJson.

Module ConstructSpec.
Import VMType VMService NativeVM VMFactory BasicVerify Universal Gas Execute Verify NewTx TransferSpec VerifySpec TransferJson.

Section Make.
Context `{libsodium : !Sodium, libsecp : !Secp256k1}.
Variables (blake2b : Z -> bytes -> bytes) (CurrentNetworkType : Types.NetworkType).

Lemma must_Ok {A} (r : outcome crypt_error A) a : must r = Ok a -> r = Ok a.
Proof. destruct r; naive_solver. Qed.

(** The universal transaction that is made. *)
Definition made (payer : bytes) (gasPrice gasLimit : Z) (sign data : bytes) : TransactionUniversal.t :=
  TransactionUniversal.mk
    (Some (TransactionUniversalHead.mk 1 payer gasPrice gasLimit TransactionUniversalType_Transfer sign 0 []))
    (Some (TransactionUniversalData.mk data [])) [].

Lemma NewTransaction_fields s privKey nonce cat ver data t : NewTransaction blake2b CurrentNetworkType s privKey nonce cat ver data = Ok t ->
  exists h, t = Transaction.mk (Some h) (Some (TransactionData.mk data [])) [] /\ TransactionHead.Category h = cat
    /\ TransactionHead.Nonce h = nonce /\ TransactionHead.ChainID h = [].
Proof.
  unfold NewTransaction. destruct privKey as [k|]; [|done]. destruct (len data =? 0); [done|]. intros H.
  apply outcome_bind_Ok in H as (pub & _ & H). apply outcome_bind_Ok in H as (addr & _ & H).
  destruct (_ && _); [done|]. apply outcome_bind_Ok in H as (sb & _ & H). injection H as <-. by eexists.
Qed.

(** The signature of the payer over the data, as it is sent. *)
Definition sign_text (sd pub : bytes) : bytes :=
  JsonCodec.Marshal (JsonCodec.j_ptr j_SignatureInfo) (Some (mkSignatureInfo (Some sd) (Some pub))).

Lemma Construct_fields s fromKey payerKey nonce gasPrice gasLimit target targets t sd pub payer :
  let data := JsonCodec.Marshal j_transferData (mkTransferData target targets) in
  Crypt.Sign blake2b s payerKey data = Ok sd -> Crypt.ConvertToPublic s payerKey = Ok pub ->
  Crypt.CreateAddress blake2b CurrentNetworkType s pub = Ok payer ->
  ConstructTransactionWithUniversalTransfer blake2b CurrentNetworkType s fromKey payerKey nonce gasPrice gasLimit target targets = Ok t ->
  exists h b,
    Codec.Marshal TransactionUniversal.desc (made payer gasPrice gasLimit (sign_text sd pub) data) = Ok b
    /\ t = Transaction.mk (Some h) (Some (TransactionData.mk (default [] b) [])) []
    /\ TransactionHead.Category h = TransactionCategory_Topia_Universal
    /\ TransactionHead.Nonce h = nonce /\ TransactionHead.ChainID h = [].
Proof.
  intros data Hs Hp Ha. unfold ConstructTransactionWithUniversalTransfer. fold data. rewrite Hs, Hp. cbn [must]. rewrite !Ok_bind, Ha.
  cbn [must]. rewrite Ok_bind. intros H.
  apply outcome_bind_Ok in H as (b & Hb & H). apply NewTransaction_fields in H as (h & -> & Hc & Hn & Hi).
  exists h, b. done.
Qed.

Lemma made_read payer gasPrice gasLimit sign data h b :
  Codec.Marshal TransactionUniversal.desc (made payer gasPrice gasLimit sign (JsonCodec.Marshal j_transferData data)) = Ok b ->
  Tx.well_formed TransactionUniversal.desc (made payer gasPrice gasLimit sign (JsonCodec.Marshal j_transferData data)) ->
  data_ok data -> TransactionHead.Category h = TransactionCategory_Topia_Universal ->
  CreatTransactionAction (Transaction.mk (Some h) (Some (TransactionData.mk (default [] b) [])) [])
  = Ok (ATransfer (mkAction h (TransactionUniversalHead.mk 1 payer gasPrice gasLimit TransactionUniversalType_Transfer sign 0 []) data)).
Proof.
  intros Hb Hwf Hd Hc. destruct (Tx.codec_roundtrip TransactionUniversal.desc _ Hwf) as (Hm & _ & Hu).
  rewrite Hm in Hb. injection Hb as <-. unfold CreatTransactionAction. cbn [Transaction.Head Transaction.Data].
  rewrite decide_True by done. cbn [TransactionData.Specification default from_option id]. rewrite Hu.
  unfold GetSpecificTransactionAction, made. cbn [TransactionUniversal.Head TransactionUniversal.Data TransactionUniversalHead.Type_].
  change (TransactionUniversalType_Transfer =? TransactionUniversalType_Transfer) with true. cbv iota zeta.
  cbn [TransactionUniversalData.Specification]. by rewrite transferData_read.
Qed.

Lemma ChainID_rejects {W} (txServant : TransactionServant W) t h w c : Transaction.Head t = Some h -> TransactionHead.ChainID h = [] ->
  ChainID txServant w = Ok (w, inr c) -> c <> [] ->
  TransactionChainIDVerifier txServant t w = Ok (w, VerifyResult_Reject).
Proof.
  intros Hh Hi Hc Hne. unfold TransactionChainIDVerifier. rewrite (act_run (attempt (ChainID txServant)) _ _ _ _ Hc).
  unfold pure, Tx.TransactionChainIDVerifier. rewrite Hh, Hi, bool_decide_eq_false_2; [done|]. intros E%bytes_Compare_eq. congruence.
Qed.

Lemma Transfer_Verify_no_chain {W} (txServant : TransactionServant W) state_Error vm_Error Pow uo pc vms ctx nodeID txfer w c b :
  Codec.Marshal TransactionUniversal.desc
    (TransactionUniversal.mk (Some (a_uniHead txfer)) (Some (TransactionUniversalData.mk (Transfer_DataBytes txfer) [])) []) = Ok b ->
  TransactionHead.ChainID (a_head txfer) = [] -> ChainID txServant w = Ok (w, inr c) -> c <> [] ->
  Transfer_Verify blake2b CurrentNetworkType state_Error vm_Error Pow uo pc vms ctx nodeID txServant txfer w = Ok (w, VerifyResult_Reject).
Proof.
  intros Hm Hi Hc Hne. set (t := Transaction.mk (Some (a_head txfer)) (Some (TransactionData.mk (default [] b) [])) []).
  assert (Hw : pure (wrap (ContructTransactionUniversalWithHead (a_head txfer) (a_uniHead txfer) (Transfer_DataBytes txfer))) w = Ok (w, t)).
  { unfold pure, wrap, ContructTransactionUniversalWithHead. cbn [wh_uni wh_head]. by rewrite Hm. }
  assert (Hb : BasicVerify blake2b CurrentNetworkType txServant t w = Ok (w, VerifyResult_Reject)).
  { unfold BasicVerify, ApplyTransactionVerifiers. cbn [apply_all].
    by rewrite (act_run _ _ _ _ _ (ChainID_rejects txServant t (a_head txfer) w c eq_refl Hi Hc Hne)). }
  unfold Transfer_Verify. rewrite (act_run _ _ w w VerifyResult_Reject); [reflexivity|]. unfold TxUniVerify.
  rewrite (act_run _ _ _ _ _ Hw), (act_run _ _ _ _ _ Hb). reflexivity.
Qed.

(** A transfer that [ConstructTransactionWithUniversalTransfer] makes is
    read back by [CreatTransactionAction] with its target, items, nonce, price,
    limit and payer.  Its chain id is empty: in any state that has a chain id,
    [Verify] rejects it. *)
Theorem constructed_transfer s fromKey payerKey nonce gasPrice gasLimit target targets t sd pub payer :
  let data := JsonCodec.Marshal j_transferData (mkTransferData target targets) in
  let uh := TransactionUniversalHead.mk 1 payer gasPrice gasLimit TransactionUniversalType_Transfer (sign_text sd pub) 0 [] in
  Crypt.Sign blake2b s payerKey data = Ok sd -> Crypt.ConvertToPublic s payerKey = Ok pub ->
  Crypt.CreateAddress blake2b CurrentNetworkType s pub = Ok payer ->
  data_ok (mkTransferData target targets) ->
  Tx.well_formed TransactionUniversal.desc (made payer gasPrice gasLimit (sign_text sd pub) data) ->
  ConstructTransactionWithUniversalTransfer blake2b CurrentNetworkType s fromKey payerKey nonce gasPrice gasLimit target targets = Ok t ->
  exists h, TransactionHead.Nonce h = nonce /\ TransactionHead.ChainID h = []
  /\ CreatTransactionAction t = Ok (ATransfer (mkAction h uh (mkTransferData target targets)))
  /\ forall W (txServant : TransactionServant W) state_Error vm_Error Pow uo pc vms ctx nodeID w c,
       ChainID txServant w = Ok (w, inr c) -> c <> [] ->
       Transfer_Verify blake2b CurrentNetworkType state_Error vm_Error Pow uo pc vms ctx nodeID txServant
         (mkAction h uh (mkTransferData target targets)) w = Ok (w, VerifyResult_Reject).
Proof.
  intros data uh Hs Hp Ha Hd Hwf Hc. destruct (Construct_fields _ _ _ _ _ _ _ _ _ _ _ _ Hs Hp Ha Hc) as (h & b & Hb & -> & Hcat & Hn & Hi).
  exists h. split; [done|]. split; [done|]. split; [exact (made_read _ _ _ _ _ h b Hb Hwf Hd Hcat)|].
  intros W txServant E1 E2 Pow uo pc vms ctx nodeID w c Hid Hne. exact (Transfer_Verify_no_chain txServant E1 E2 Pow uo pc vms ctx nodeID (mkAction h uh (mkTransferData target targets)) w c b Hb Hi Hid Hne).
Qed.
End Make.
End ConstructSpec.

(** ** A transfer from its construction to its verification *)
Module MakeExample.
Import VMType VMService NativeVM VMFactory BasicVerify Universal Gas Execute Verify NewTx TransferSpec TransferExample VerifySpec TransferJson ConstructSpec.
#[local] Existing Instance RefStore.ref_store.
#[local] Existing Instance RefStore.ref_store_laws.
#[local] Existing Instance CryptExample.toy_sodium.
#[local] Existing Instance CryptExample.toy_secp.

Definition net : Types.NetworkType := NetworkType_Testnet.

Definition got {E A} (r : outcome E A) (d : A) : A := match r with Ok a => a | _ => d end.

Definition address_of (key : bytes) : bytes :=
  got (Crypt.CreateAddress Address.toy_hash net Crypt.ServiceEd25519 (got (Crypt.ConvertToPublic Crypt.ServiceEd25519 key) [])) [].

Definition carol_key : bytes := CryptExample.key64.

Definition carol : bytes := Eval vm_compute in address_of carol_key.

Definition dave : bytes := Eval vm_compute in address_of (rev carol_key).

Definition to_dave : transferData := mkTransferData dave (Some [mkTarget TokenSymbol_Native (Some 7)]).

Definition made_tx : Transaction.t := Eval vm_compute in
  got (ConstructTransactionWithUniversalTransfer Address.toy_hash net Crypt.ServiceEd25519 (Some carol_key) carol_key 1 1000000000 60000
         dave (Targets to_dave)) (Wire.s_zero Transaction.desc).

Definition carol_world : world RefStore.t :=
  mkWorld {[AccountState.StateStore_Name_Account:={[carol:=JsonCodec.Marshal Account.j_Account (account_with carol 1000000)]}]}
    LedgerState_AutoInc ∅ ∅ ∅.

Definition carol_servant : TransactionServant (world RefStore.t) :=
  NewTransactionServant DefGasConfiguration DefChainConfiguration (Chain.mkChainState (str "l")) 0.

Definition made_action : TransactionUniversalTransfer := Eval vm_compute in
  match CreatTransactionAction made_tx with Ok (ATransfer x) => x | _ => to_bob [] end.

Definition verify_made (w : world RefStore.t) : go (world RefStore.t * VerifyResult) :=
  Transfer_Verify Address.toy_hash net (fun _ => []) (fun _ => []) (fun x _ => x) (fun _ => 0) (fun _ => Wire.s_zero BlockDataChunk.desc)
    [] [] (str "n") carol_servant made_action w.

Lemma verify_made_accepts : exists w', verify_made carol_world = Ok (w', VerifyResult_Accept).
Proof.
  assert (H : (match verify_made carol_world with Ok (_, r) => bool_decide (r = VerifyResult_Accept) | _ => false end) = true)
    by (vm_compute; reflexivity).
  destruct (verify_made carol_world) as [[w' r]|e|]; [|done|done]. apply bool_decide_eq_true in H as ->. by exists w'.
Qed.

Lemma accepted_transfer_checked_witness :
  exists n, AccountState.GetNonce carol (w_store carol_world) = Ok (w_store carol_world, inr n)
    /\ TransactionHead.Nonce (a_head made_action) = u64 (n + 1).
Proof.
  destruct verify_made_accepts as [w' Hv]. unfold verify_made, carol_servant in Hv.
  assert (Hc : CreatTransactionAction made_tx = Ok (ATransfer made_action)) by (vm_compute; reflexivity).
  destruct (accepted_transfer_checked (S := RefStore.t) Address.toy_hash net (fun _ => []) (fun _ => []) (fun x _ => x) (fun _ => 0)
    (fun _ => Wire.s_zero BlockDataChunk.desc) [] [] (str "n") DefGasConfiguration DefChainConfiguration (Chain.mkChainState (str "l")) 0
    made_tx made_action carol_world w' Hc Hv) as (_ & _ & _ & _ & _ & _ & _ & Hn & _).
  exact Hn.
Defined.

Definition carol_pub : bytes := Eval vm_compute in got (Crypt.ConvertToPublic Crypt.ServiceEd25519 carol_key) [].

Definition data_sign : bytes := Eval vm_compute in
  got (Crypt.Sign Address.toy_hash Crypt.ServiceEd25519 carol_key (JsonCodec.Marshal j_transferData to_dave)) [].

Lemma made_well_formed : Tx.well_formed TransactionUniversal.desc
  (made carol 1000000000 60000 (sign_text data_sign carol_pub) (JsonCodec.Marshal j_transferData to_dave)).
Proof.
  set (x := made _ _ _ _ _). vm_compute in x. subst x. split_and!; [repeat constructor; vm_compute; repeat constructor..|by vm_compute].
Qed.

Lemma constructed_transfer_witness :
  exists h, TransactionHead.Nonce h = 1 /\ TransactionHead.ChainID h = []
    /\ CreatTransactionAction made_tx = Ok (ATransfer (mkAction h (a_uniHead made_action) to_dave)).
Proof.
  assert (Hs : Crypt.Sign Address.toy_hash Crypt.ServiceEd25519 carol_key (JsonCodec.Marshal j_transferData to_dave) = Ok data_sign) by (vm_compute; reflexivity).
  assert (Hp : Crypt.ConvertToPublic Crypt.ServiceEd25519 carol_key = Ok carol_pub) by (vm_compute; reflexivity).
  assert (Ha : Crypt.CreateAddress Address.toy_hash net Crypt.ServiceEd25519 carol_pub = Ok carol) by (vm_compute; reflexivity).
  assert (Hd : data_ok to_dave) by (split; [|repeat constructor]; vm_compute; reflexivity).
  assert (Hw : Tx.well_formed TransactionUniversal.desc
    (made carol 1000000000 60000 (sign_text data_sign carol_pub) (JsonCodec.Marshal j_transferData to_dave))) by exact made_well_formed.
  assert (Ht : ConstructTransactionWithUniversalTransfer Address.toy_hash net Crypt.ServiceEd25519 (Some carol_key) carol_key 1 1000000000 60000
    dave (Targets to_dave) = Ok made_tx) by (vm_compute; reflexivity).
  assert (Hu : TransactionUniversalHead.mk 1 carol 1000000000 60000 TransactionUniversalType_Transfer (sign_text data_sign carol_pub) 0 []
    = a_uniHead made_action) by (vm_compute; reflexivity).
  destruct (constructed_transfer Address.toy_hash net Crypt.ServiceEd25519 (Some carol_key) carol_key 1 1000000000 60000 dave (Targets to_dave)
    made_tx data_sign carol_pub carol Hs Hp Ha Hd Hw Ht) as (h & Hn & Hi & Hr & _).
  exists h. split; [exact Hn|]. split; [exact Hi|]. rewrite <- Hu. exact Hr.
Defined.
End MakeExample.
