(* ===== verification/ContractSpec.v ===== *)
(** Correctness of the gas price and of the virtual machines: the range of the
    price, what a successful native call has been checked for and which methods
    can be called at all, what granting and revoking access change, and that
    deploying and invoking contracts, and estimating an invocation, panic. *)
From Stdlib Require Import ZArith Lia Strings.Byte.
From stdpp Require Import base gmap list strings.
From S2P Require Import Prelude Common Backend Wire TxMessages ChainMessages TxBasic Text Json JsonCodec StateBase StateChain Address Account AccountSpec Servant Crypt NativeVM Universal UniversalSpec.
Import Util Types SafeCalculate Servant VMServant Tx.
#[local] Open Scope Z_scope.

(** * The gas price *)
Module GasSpec.
Import Gas.

Section Price.
Context {W : Type}.
Variables (Pow : float64 -> float64 -> float64) (uint_overflow : float64 -> Z) (partial_chunk : bytes -> BlockDataChunk.t).
Variable txServant : TransactionServant W.

Lemma uint_of_float_range f : is_u64 (uint_of_float uint_overflow f).
Proof.
  unfold uint_of_float. destruct (float_trunc f) as [z|]; [|apply u64_range].
  destruct (_ && _) eqn:E; [|apply u64_range]. apply andb_true_iff in E as [H1%Z.leb_le H2%Z.ltb_lt]. done.
Qed.

(** The suggested gas price lies between zero and five times the lowest
    one.  When the transactions of the pool fill at most one block, and also
    when they fill a whole number of blocks however large, it is the lowest. *)
Theorem gas_price_range (w w' : W) p : let minPrice := MinGasPrice (GetGasConfig txServant) in
  0 <= minPrice -> 5 * minPrice < 2 ^ 64 ->
  ComputeGasPrice Pow uint_overflow partial_chunk txServant w = Ok (w', inr p) ->
  0 <= p <= 5 * minPrice
  /\ let size := u64 (GetTxPoolSize txServant) in
     let max := MaxTxSizeOfEachBlock (GetChainConfig txServant) in
     (size < max \/ 0 < max /\ size mod max = 0 -> p = minPrice /\ w' = w).
Proof.
  intros minPrice H0 H5 H. unfold ComputeGasPrice in H. apply act_bind_Ok in H as (w1 & n & Hn & H).
  apply pure_Ok in Hn as [-> Hn]. unfold pendingBlocks in Hn. fold minPrice in H.
  set (size := u64 (GetTxPoolSize txServant)) in *. set (max := MaxTxSizeOfEachBlock (GetChainConfig txServant)) in *.
  destruct (Z.eqb_spec max 0) as [|Hmax]; [done|]. injection Hn as Hn.
  destruct (Z.leb_spec n 1) as [Hle|Hgt].
  { apply mret_Ok in H as [-> [= ->]]. split; [lia|]. done. }
  split.
  - apply act_bind_Ok in H as (w2 & [e|q] & _ & H); [by apply mret_Ok in H as []|]. apply mret_Ok in H as [-> [= ->]].
    pose proof (uint_of_float_range (raise_price Pow txServant (Z.to_nat (n - 1)) (float_of_uint q))) as Hr. unfold is_u64 in Hr.
    rewrite (u64_small (minPrice * 5)) by (unfold is_u64; lia). rewrite Z.geb_leb. destruct (Z.leb_spec (minPrice * 5) (uint_of_float uint_overflow
      (raise_price Pow txServant (Z.to_nat (n - 1)) (float_of_uint q)))); lia.
  - cbv zeta. fold size max. intros [Hlt|[Hp Hz]]; exfalso.
    + assert (0 <= size) by apply u64_range. rewrite Z.div_small in Hn by lia. destruct (_ >? _); [|lia].
      change (u64 (0 + 1)) with 1 in Hn. lia.
    + rewrite Hz in Hn. change (0 >? 0) with false in Hn. cbv iota in Hn. lia.
Qed.
End Price.

Definition pool_servant (pool : Z) : TransactionServant unit :=
  mkServant unit crash crash (fun _ => crash) (fun _ _ => crash) (fun _ => crash) pool
    (mret (Block.mk (Some (Wire.s_zero BlockHead.desc)) None [])) DefGasConfiguration DefChainConfiguration
    (fun _ => crash) (fun _ => crash) (fun _ _ => crash) (fun _ _ _ => crash) (fun _ _ => crash).

Definition price (pool : Z) : go (unit * (state_error + Z)) :=
  ComputeGasPrice (W := unit) (fun x _ => x) (fun _ => 0) (fun _ => Wire.s_zero BlockDataChunk.desc) (pool_servant pool) tt.

(** With the default configuration the price doubles with every further block
    the pool fills, up to the cap ([Pow(x, 1) = x] is a special case of
    [math.Pow]). *)
Lemma default_price_doubles :
  (fun pool => match price pool with Ok (_, inr p) => p | _ => 0 end) <$> [999999; 1000001; 2000001; 3000001; 3000000]
  = [1000000000; 2000000000; 4000000000; 5000000000; 1000000000].
Proof. vm_compute. reflexivity. Qed.

Lemma gas_price_range_witness : 0 <= 1000000000 <= 5 * 1000000000 /\ price 3000000 = Ok (tt, inr 1000000000).
Proof.
  assert (H : price 3000000 = Ok (tt, inr 1000000000)) by (vm_compute; reflexivity). split; [|exact H].
  refine (proj1 (gas_price_range (fun x _ => x) (fun _ => 0) (fun _ => Wire.s_zero BlockDataChunk.desc) (pool_servant 3000000) tt tt
    1000000000 _ _ H)); cbn; lia.
Defined.
End GasSpec.

(** * The native machine *)
Module NativeSpec.
Import VMType VMService Contract NativeVM VMFactory.

(** The types whose arguments can parse: numbers, booleans, slices, maps and
    pointers are not among them. *)
Definition readable (t : go_type) : bool :=
  match t with T_Int _ | T_Uint _ | T_Bool | T_Slice | T_Map | T_Ptr => false | _ => true end.

Lemma parse_arg_Ok arg t v : parse_arg arg t = Ok v -> readable t = true.
Proof. destruct t; cbn [parse_arg readable]; try done; intros H; split_matches. Qed.

Lemma parse_args_readable args ts vs : parse_args args ts = Ok vs -> length args = length ts -> forallb readable ts = true.
Proof.
  revert ts vs. induction args as [|a args IH]; intros [|t ts] vs H Hl; try done.
  cbn [parse_args] in H. apply outcome_bind_Ok in H as (v & Hv & H). apply outcome_bind_Ok in H as (vs' & Hvs & H).
  cbn [forallb]. rewrite (parse_arg_Ok _ _ _ Hv). apply (IH _ _ Hvs). by injection Hl as Hl.
Qed.

Lemma ParseArgs_readable args ts vs : ParseArgs args ts = Ok vs -> forallb readable ts = true.
Proof.
  unfold ParseArgs. destruct (Nat.eqb_spec (length (Split ContractMethodArgs_Separation args)) (length ts)); [|done].
  cbn [negb]. intros H. by apply (parse_args_readable _ _ _ H).
Qed.

Section Machine.
Context {W : Type}.
Variables (CurrentNetworkType : Types.NetworkType) (Error : vm_error -> bytes).

(** C23. What a successful call of the native machine has been checked for:
    the machine is enabled, the context names a caller whose account is there
    and whose token permits the method, the contract and the method are
    registered, and no parameter of the method is a number, a boolean, a slice,
    a map or a pointer: such arguments never parse. *)
Theorem native_call_checked (nvm : NativeVM W) (ctx : VMContext W) (w w' : W) r result :
  ExecuteContract Error nvm ctx w = Ok (w', r) -> vr_result r = Some result -> Code result = ReturnCode_Ok ->
  exists w1 fromAddr fromAcc contractMap ncMethod args,
    state nvm = true
    /\ Value (Context_ ctx) VMCtxKey_FromAddr = Some (CV_Addr fromAddr)
    /\ GetAccount (BaseServant (Servant_ ctx)) fromAddr w = Ok (w1, inr fromAcc)
    /\ permitted fromAcc (ContractAddr ctx) (Method ctx) = Ok true
    /\ contractMethotds nvm !! ContractAddr ctx = Some contractMap /\ contractMap !! Method ctx = Some ncMethod
    /\ ParseArgs (Args ctx) (drop 1 (paramTypes ncMethod)) = Ok args
    /\ forallb readable (drop 1 (paramTypes ncMethod)) = true
    /\ exists outs, nm_method ncMethod (WithValue (Context_ ctx) VMCtxKey_VMServant (CV_Servant (Servant_ ctx))) args w1 = Ok (w', inr outs).
Proof.
  intros H Hr Hc. unfold ExecuteContract in H. destruct (state nvm) eqn:Es; cbn [negb] in H; [|by simplify_eq/=].
  case_bool_decide; [by simplify_eq/=|]. apply outcome_bind_Ok in H as ([w1 fa] & Hfa & H).
  destruct fa as [e|fromAcc]; [by simplify_eq/=|]. apply outcome_bind_Ok in H as (ok & Hok & H).
  destruct ok; cbn [negb] in H; [|by simplify_eq/=].
  destruct (contractMethotds nvm !! ContractAddr ctx) as [cm|] eqn:Ecm; [|by simplify_eq/=].
  destruct (cm !! Method ctx) as [nm|] eqn:Enm; [|by simplify_eq/=].
  destruct (ParseArgs (Args ctx) (drop 1 (paramTypes nm))) as [vs|e|] eqn:Ea; [|by simplify_eq/=|done].
  destruct (negb _); [by simplify_eq/=|]. unfold GetFromAccount in Hfa. apply outcome_bind_Ok in Hfa as (cvs & Hv & Hfa).
  cbn [GetCtxValues] in Hv. change (Value (WithValue (Context_ ctx) VMCtxKey_VMServant (CV_Servant (Servant_ ctx))) VMCtxKey_VMServant)
    with (Some (CV_Servant (Servant_ ctx))) in Hv. cbn [mbind outcome_bind] in Hv.
  assert (Hv' : Value (WithValue (Context_ ctx) VMCtxKey_VMServant (CV_Servant (Servant_ ctx))) VMCtxKey_FromAddr
    = Value (Context_ ctx) VMCtxKey_FromAddr).
  { unfold Value, WithValue. cbn. by destruct (list_find _ (Context_ ctx)) as [[]|]. }
  rewrite Hv' in Hv. destruct (Value (Context_ ctx) VMCtxKey_FromAddr) as [[vs'|addr]|] eqn:Ev; simplify_eq/=.
  exists w1, addr, fromAcc, cm, nm, vs. split_and!; try done; [by eapply ParseArgs_readable|].
  unfold doExecute in H. destruct (nm_method nm _ vs w1) as [[w2 [e|outs]]|[]|]; [by simplify_eq/=| |by destruct (log nvm); simplify_eq/=].
  exists outs. destruct (negb _); [by simplify_eq/=|]. by destruct (_ =? 0); simplify_eq/=.
Qed.

(** The machines of a node. *)
Lemma GetVMFactory_machines vms : GetVMFactory (W := W) CurrentNetworkType = Ok vms ->
  exists nvm, GetVM vms VMType_NATIVE = Some (Native nvm) /\ state nvm = true /\ GetVM vms VMType_TVM = Some TopiaVM.
Proof.
  unfold GetVMFactory. intros H. apply outcome_bind_Ok in H as (nvm & Hn & H). cbn in H. injection H as <-.
  exists nvm. split; [done|]. split; [|done]. unfold NewNativeVM, registerContract in Hn.
  apply outcome_bind_Ok in Hn as (n1 & Hn1 & Hn). apply outcome_bind_Ok in Hn1 as (cm & _ & [= <-]).
  apply outcome_bind_Ok in Hn as (cm' & _ & [= <-]). done.
Qed.
End Machine.
End NativeSpec.

(** * Granting and revoking access *)
Module GrantSpec.
Import VMService Contract AccountSpec TransferSpec.

Section State.
Context {S : Type} `{stores : !IStateStore S, laws : !StateStoreLaws S}.
Variables (gas : GasConfiguration) (chain : ChainConfiguration) (chainState : Chain.chainState) (poolSize : Z).

Abbreviation servant := (NewTransactionServant (S := S) gas chain chainState poolSize).

Lemma cmd_run {E A B} (c : cmd (world S) E A) (f : A -> cmd (world S) E B) (w w' : world S) a :
  c w = Ok (w', inr a) -> (c ≫= f) w = f a w'.
Proof. intros H. unfold mbind, cmd_bind. by rewrite H. Qed.

Lemma wrapping_run {A} (f : state_error -> contract_error) (c : cmd (world S) state_error A) (w w' : world S) a :
  c w = Ok (w', inr a) -> wrapping f c w = Ok (w', inr a).
Proof. intros H. unfold wrapping. by rewrite H. Qed.

Lemma charge_run (vs : vmServant (world S)) g (w : world S) : GasUsedAccumulate vs g = None -> charge vs g w = Ok (w, inr tt).
Proof. intros H. unfold charge. by rewrite H. Qed.

(** The account that is changed is the parent's. *)
Lemma grantAccessOperation_spec (vs : vmServant (world S)) ctx parentAddr addr operaGas operation (w : world S) d m pa pa' usedSize :
  BaseServant vs = servant -> Value ctx VMCtxKey_VMServant = Some (CV_Servant vs) ->
  account_rep (w_store w) d m -> parentAddr <> [] -> m !! parentAddr = Some pa ->
  operation pa = Ok (pa', usedSize) -> account_ok pa' -> Account.Addr pa' = Account.Addr pa ->
  GasUsedAccumulate vs (u64 (operaGas + GasEachByte gas * usedSize)) = None ->
  exists w', grantAccessOperation ctx parentAddr addr operaGas operation w = Ok (w', inr tt)
    /\ account_rep (w_store w') d (<[parentAddr:=pa']> m).
Proof.
  intros Hb Hctx Hr Hne Hpa Hop Hok Haddr Hgas.
  assert (Hget : GetAccount servant parentAddr w = Ok (w, inr pa)) by apply (GetAccount_found gas chain chainState poolSize w d m parentAddr pa Hr Hne Hpa).
  assert (Hpaddr : Account.Addr pa = parentAddr) by apply (proj2 Hr parentAddr pa Hpa).
  destruct (write_spec false (w_store w) d m pa' Hr Hok) as (s' & Hw & Hr'); [by rewrite Haddr, Hpaddr|].
  exists (mkWorld s' (w_ledger w) (latestBlockMap w) (latestBlockRSMap w) (latestEpochMap w)). split.
  2:{ cbn [w_store]. by rewrite Haddr, Hpaddr in Hr'. }
  unfold grantAccessOperation, with_servant, GetServant. cbn [GetCtxValues]. rewrite Hctx. cbn [mbind outcome_bind]. rewrite Hb.
  rewrite (cmd_run _ _ _ _ _ (wrapping_run EParent _ _ _ _ Hget)), (cmd_run _ _ _ _ _ (wrapping_run EAccount _ _ _ _ Hget)).
  replace (Account.IsChild (Account.Name pa) (Account.Name pa)) with true.
  2:{ symmetry. unfold Account.IsChild. cbn. by apply bool_decide_eq_true_2. }
  cbn [negb]. rewrite (cmd_run _ _ w w (pa', usedSize)) by (by rewrite Hop).
  change (GetGasConfig servant) with gas. rewrite (cmd_run _ _ _ _ _ (charge_run vs _ w Hgas)).
  apply wrapping_run. cbn [UpdateAccount NewTransactionServant]. unfold on_store.
  change (AccountState.UpdateAccount (Some pa') (w_store w)) with
    ((accBytes ← AccountState.marshal_account pa'; st_Update AccountState.StateStore_Name_Account (Account.Addr pa') accBytes) (w_store w)).
  by rewrite Hw.
Qed.

Lemma set_Token_ok a t : account_ok a -> JsonCodec.opt_ok token_ok t -> account_ok (set_Token a t).
Proof. intros [(H1 & H2 & H3 & _ & H5 & H6 & H7) Hb] Ht. split; [|exact Hb]. exact (conj H1 (conj H2 (conj H3 (conj Ht (conj H5 (conj H6 H7)))))). Qed.

Lemma root_token_ok : token_ok (Account.NewAccountToken Account.NewPermissionRoot).
Proof. by destruct (NewDefaultAccount_ok [] eq_refl) as [(_ & _ & _ & H & _) _]. Qed.

Lemma gas_enough (vs : vmServant (world S)) n : gasUsed vs = 0 -> 0 <= n -> n <= maxGasLimit vs < 2 ^ 64 -> GasUsedAccumulate vs (u64 n) = None.
Proof.
  intros H0 Hn Hm. unfold GasUsedAccumulate, SafeAddUint64. rewrite H0, Z.add_0_l, !(u64_small n) by (unfold is_u64; lia).
  rewrite !Z.geb_leb, (proj2 (Z.leb_le 0 n)), Z.leb_refl by lia. cbn [andb]. rewrite Z.gtb_ltb.
  by rewrite (proj2 (Z.ltb_ge (maxGasLimit vs) n)) by lia.
Qed.

(** [GrantAccessRoot] and [RevokeGrantAccess] for a child account change
    the parent's: revoking takes the parent's own token away, granting gives
    the parent a token when it has none, and the child's account stays as it
    is. *)
Theorem access_changes_parent (vs : vmServant (world S)) ctx parentAddr addr (w : world S) d m pa :
  BaseServant vs = servant -> Value ctx VMCtxKey_VMServant = Some (CV_Servant vs) ->
  gasUsed vs = 0 -> 0 <= GasEachByte gas -> 100 + GasEachByte gas * 2 <= maxGasLimit vs < 2 ^ 64 ->
  account_rep (w_store w) d m -> parentAddr <> [] -> m !! parentAddr = Some pa -> addr <> parentAddr ->
  (exists w', RevokeGrantAccess ctx parentAddr addr w = Ok (w', inr tt)
     /\ account_rep (w_store w') d (<[parentAddr:=set_Token pa None]> m)
     /\ <[parentAddr:=set_Token pa None]> m !! addr = m !! addr)
  /\ (exists w' pa', GrantAccessRoot ctx parentAddr addr w = Ok (w', inr tt)
     /\ pa' = match Account.Token pa with
              | None => set_Token pa (Some (Account.NewAccountToken Account.NewPermissionRoot))
              | Some _ => pa
              end
     /\ account_rep (w_store w') d (<[parentAddr:=pa']> m) /\ <[parentAddr:=pa']> m !! addr = m !! addr).
Proof.
  intros Hb Hctx H0 Hg Hmax Hr Hne Hpa Haddr. destruct (proj2 Hr parentAddr pa Hpa) as (Hok & _ & _). split.
  - destruct (grantAccessOperation_spec vs ctx parentAddr addr Account_RevokeGrantAccess (fun acc => Ok (set_Token acc None, 0))
      w d m pa (set_Token pa None) 0 Hb Hctx Hr Hne Hpa eq_refl) as (w' & E & Hr'); [by apply set_Token_ok|done| |].
    { apply gas_enough; [done|unfold Account_RevokeGrantAccess; lia..]. }
    exists w'. split_and!; [exact E|done|by rewrite lookup_insert_ne].
  - set (pa' := match Account.Token pa with
              | None => set_Token pa (Some (Account.NewAccountToken Account.NewPermissionRoot)) | Some _ => pa end).
    set (used := match Account.Token pa with None => 2 | Some _ => 0 end).
    destruct (grantAccessOperation_spec vs ctx parentAddr addr Account_GrantAccessRoot (fun acc =>
      match Account.Token acc with
      | None => Ok (set_Token acc (Some (Account.NewAccountToken Account.NewPermissionRoot)), 2)
      | Some _ => Ok (acc, 0)
      end) w d m pa pa' used Hb Hctx Hr Hne Hpa) as (w' & E & Hr').
    + unfold pa', used. by destruct (Account.Token pa).
    + unfold pa'. destruct (Account.Token pa); [done|]. apply set_Token_ok; [done|]. exact root_token_ok.
    + unfold pa'. by destruct (Account.Token pa).
    + apply gas_enough; [done|..]; unfold used, Account_GrantAccessRoot; destruct (Account.Token pa); lia.
    + exists w', pa'. split_and!; [exact E|done|done|by rewrite lookup_insert_ne].
Qed.
End State.
End GrantSpec.

(** * Contracts in transactions *)
Module ContractTxSpec.
Import VMType VMService NativeVM VMFactory NativeSpec BasicVerify Universal Gas Execute Verify.

Section Machine.
Context {W : Type} `{libsodium : !Sodium, libsecp : !Secp256k1}.
Variables (blake2b : Z -> bytes -> bytes) (CurrentNetworkType : Types.NetworkType).
Variables (state_Error : state_error -> bytes) (vm_Error : vm_error -> bytes).
Variables (Pow : float64 -> float64 -> float64) (uint_overflow : float64 -> Z) (partial_chunk : bytes -> BlockDataChunk.t).
Variables (vms : list (VMType * VirtualMachine W)) (ctx : context W) (nodeID : bytes) (txServant : TransactionServant W).

(** The machines of the process, and a context as the scheduler and the pool
    pass it: without the address of the caller. *)
Hypothesis machines : GetVMFactory (W := W) CurrentNetworkType = Ok vms.
Hypothesis no_caller : VMService.Value ctx VMCtxKey_FromAddr = None.

Lemma native_without_caller (nvm : NativeVM W) (c : VMContext W) w : state nvm = true -> VMService.ContractAddr c <> [] ->
  VMService.Method c <> [] -> VMService.Value (Context_ c) VMCtxKey_FromAddr = None -> ExecuteContract vm_Error nvm c w = Panic.
Proof.
  intros Hs Ha Hm Hv. unfold ExecuteContract. rewrite Hs, bool_decide_eq_false_2 by tauto. cbn [negb].
  unfold GetFromAccount. cbn [GetCtxValues]. change (VMService.Value (WithValue (Context_ c) VMCtxKey_VMServant (CV_Servant (Servant_ c))) VMCtxKey_VMServant)
    with (Some (CV_Servant (Servant_ c))). cbn [mbind outcome_bind].
  replace (VMService.Value (WithValue (Context_ c) VMCtxKey_VMServant (CV_Servant (Servant_ c))) VMCtxKey_FromAddr) with (@None (ctx_value W)); [done|].
  rewrite <- Hv. unfold VMService.Value, WithValue. cbn. by destruct (list_find _ (Context_ c)) as [[]|].
Qed.

Lemma native_address_nonempty : Address.NativeContractAddr_Account CurrentNetworkType <> [].
Proof.
  unfold Address.NativeContractAddr_Account, Address.CreateNativeContractAddress. by repeat destruct (_ =? _).
Qed.

Lemma invoke_panics (txiv : TransactionUniversalInvoke) w : Method (a_data txiv) <> [] ->
  Invoke_Execute (blake2b 32) CurrentNetworkType vm_Error vms ctx nodeID txServant txiv w = Panic.
Proof.
  intros Hm. destruct (GetVMFactory_machines CurrentNetworkType vms machines) as (nvm & Hn & Hs & Ht).
  unfold Invoke_Execute, mbind, act_bind. destruct (Address.IsNativeContractAddress CurrentNetworkType (ContractAddr (a_data txiv))) eqn:E.
  - rewrite Hn. cbn [vm_ExecuteContract]. rewrite native_without_caller; [done|done| |done|done]. cbn.
    apply bool_decide_eq_true in E. rewrite E. apply native_address_nonempty.
  - by rewrite Ht.
Qed.

(** No contract runs: executing a deployment panics, executing an
    invocation of any method panics, for the contracts of the Topia machine
    because it is not implemented and for the native ones because the context
    does not name the caller; and so does verifying an invocation whose price
    and limit suffice, because its gas is estimated by executing it. *)
Theorem contracts_panic (txdp : TransactionUniversalDeploy) (txiv : TransactionUniversalInvoke) (w : W) :
  Method (a_data txiv) <> [] ->
  Deploy_Execute (blake2b 32) vm_Error vms ctx nodeID txServant txdp w = Panic
  /\ Invoke_Execute (blake2b 32) CurrentNetworkType vm_Error vms ctx nodeID txServant txiv w = Panic
  /\ forall txuni uh w1 p, GetSpecificTransactionAction (wh_uni txuni) (wh_head txuni) = Ok (AInvoke txiv) ->
       TransactionUniversal.Head (wh_uni txuni) = Some uh ->
       MinGasPrice (GetGasConfig txServant) <= TransactionUniversalHead.GasPrice uh ->
       MinGasLimit (GetGasConfig txServant) <= TransactionUniversalHead.GasLimit uh ->
       ComputeGasPrice Pow uint_overflow partial_chunk txServant w = Ok (w1, inr p) ->
       TransactionUniversalGasVerifier blake2b CurrentNetworkType state_Error vm_Error Pow uint_overflow partial_chunk vms ctx nodeID
         txServant txuni w = Panic.
Proof.
  intros Hm. split; [|split; [by apply invoke_panics|]].
  - destruct (GetVMFactory_machines CurrentNetworkType vms machines) as (nvm & _ & _ & Ht).
    unfold Deploy_Execute, mbind, act_bind. by rewrite Ht.
  - intros txuni uh w1 p Ha Hh Hp Hl Hc. unfold TransactionUniversalGasVerifier.
    assert (Hu : pure (uni_head txuni) w = Ok (w, uh)) by (unfold pure, uni_head; by rewrite Hh).
    rewrite (act_run _ _ _ _ _ Hu). rewrite (proj2 (Z.ltb_ge _ _) Hp), (proj2 (Z.ltb_ge _ _) Hl).
    assert (He : Estimate blake2b CurrentNetworkType state_Error vm_Error Pow uint_overflow partial_chunk vms ctx nodeID txServant txuni w = Panic).
    2:{ unfold mbind at 1, act_bind at 1. by rewrite He. }
    assert (Hty : TransactionUniversalHead.Type_ uh = TransactionUniversalType_ContractInvoke /\ exists n, DataLen txuni = Ok n).
    { unfold GetSpecificTransactionAction in Ha. rewrite Hh in Ha. unfold DataLen.
      destruct (TransactionUniversal.Data (wh_uni txuni)) as [d|]; [|by repeat destruct (_ =? _)]. split; [|by eexists].
      destruct (_ =? _); [by destruct (JsonCodec.Unmarshal j_transferData _ _)|].
      destruct (_ =? _); [by destruct (JsonCodec.Unmarshal j_deployData _ _)|].
      destruct (Z.eqb_spec (TransactionUniversalHead.Type_ uh) TransactionUniversalType_ContractInvoke); done. }
    destruct Hty as [Hty [n Hn]]. assert (Hd : pure (DataLen txuni) w = Ok (w, n)) by (unfold pure; by rewrite Hn).
    unfold Estimate. rewrite (act_run _ _ _ _ _ Hd), (act_run _ _ _ _ _ Hc).
    assert (Hu1 : pure (uni_head txuni) w1 = Ok (w1, uh)) by (unfold pure, uni_head; by rewrite Hh).
    rewrite (act_run _ _ _ _ _ Hu1), Hty. cbn [Z.eqb TransactionUniversalType_ContractInvoke TransactionUniversalType_Transfer
      TransactionUniversalType_ContractDeploy TransactionUniversalType_NativeInvoke Pos.eqb]. unfold estimate_invoke.
    assert (Hs : pure (GetSpecificTransactionAction (wh_uni txuni) (wh_head txuni)) w1 = Ok (w1, AInvoke txiv)) by (unfold pure; by rewrite Ha).
    rewrite (act_run _ _ _ _ _ Hs). unfold mbind, act_bind. cbn [action_Execute]. by rewrite invoke_panics.
Qed.
End Machine.
End ContractTxSpec.

(** * Examples *)
Module ContractExample.
Import VMType VMService Contract NativeVM VMFactory NativeSpec GrantSpec BasicVerify Universal Gas Execute Verify ContractTxSpec.
Import TransferSpec TransferExample MakeExample AccountSpec.
#[local] Existing Instance RefStore.ref_store.
#[local] Existing Instance RefStore.ref_store_laws.
#[local] Existing Instance CryptExample.toy_sodium.
#[local] Existing Instance CryptExample.toy_secp.

Definition alice_servant : vmServant (world RefStore.t) := NewVMServant carol_servant 100000.

Definition machine : NativeVM (world RefStore.t) := got (NewNativeVM net) (mkNativeVM false false ∅).

Definition call_of (contract : bytes) (method args : string) : VMContext (world RefStore.t) :=
  mkVMContext [(VMCtxKey_FromAddr, CV_Addr alice)] alice_servant (str "n") contract None (str method) (str args).

Definition status (r : go (world RefStore.t * vm_return)) : option (option ReturnCode) :=
  match r with Ok (_, r) => Some (VMType.Code <$> vr_result r) | _ => None end.

(** A call that succeeds, a number that panics, a slice that never parses. *)
Lemma native_calls :
  status (ExecuteContract (fun _ => []) machine (call_of (str "ContractTest") "TestFuncWithStruct" "n1") world0) = Some (Some ReturnCode_Ok)
  /\ status (ExecuteContract (fun _ => []) machine (call_of (str "ContractTest") "TestFuncSimple" "1") world0) = None
  /\ status (ExecuteContract (fun _ => []) machine
       (call_of (Address.NativeContractAddr_Account net) "RevokeGrantAccessMethods" "t3alice@t3bob@c@5b5d") world0)
     = Some (Some ReturnCode_MethodSignatureErr).
Proof. vm_compute. done. Qed.

Lemma native_call_checked_witness : exists fromAcc contractMap ncMethod,
  permitted fromAcc (str "ContractTest") (str "TestFuncWithStruct") = Ok true
  /\ contractMethotds machine !! str "ContractTest" = Some contractMap /\ contractMap !! str "TestFuncWithStruct" = Some ncMethod
  /\ forallb readable (drop 1 (paramTypes ncMethod)) = true.
Proof.
  pose proof (proj1 native_calls) as H. unfold status in H.
  destruct (ExecuteContract (fun _ => []) machine (call_of (str "ContractTest") "TestFuncWithStruct" "n1") world0) as [[w' r]|e|] eqn:E; [|done|done].
  destruct (vr_result r) as [result|] eqn:Er; [|done]. injection H as H.
  destruct (native_call_checked (fun _ => []) machine (call_of (str "ContractTest") "TestFuncWithStruct" "n1") world0 w' r result E Er H)
    as (w1 & fromAddr & fromAcc & cm & nm & args & _ & _ & _ & Hp & Hc & Hm & _ & Hr & _).
  exists fromAcc, cm, nm. split; [exact Hp|]. split; [exact Hc|]. split; [exact Hm|exact Hr].
Defined.

(** Alice revokes an access of Bob's and loses the own token. *)
Lemma access_changes_parent_witness :
  exists w', RevokeGrantAccess [(VMCtxKey_VMServant, CV_Servant alice_servant)] alice bob world0 = Ok (w', inr tt)
    /\ account_rep (w_store w') ∅ (<[alice:=set_Token (account_with alice 1000000) None]> book).
Proof.
  destruct (access_changes_parent (S := RefStore.t) DefGasConfiguration DefChainConfiguration (Chain.mkChainState (str "l")) 0 alice_servant
    [(VMCtxKey_VMServant, CV_Servant alice_servant)] alice bob world0 ∅ book (account_with alice 1000000)) as [(w' & E & Hr & _) _].
  - reflexivity.
  - reflexivity.
  - reflexivity.
  - cbn. lia.
  - cbn. lia.
  - exact book_rep.
  - discriminate.
  - reflexivity.
  - discriminate.
  - exists w'. split; [exact E|exact Hr].
Defined.

Definition invoke_account : TransactionUniversalInvoke :=
  mkAction (a_head (to_bob [])) (a_uniHead (to_bob [])) (mkInvokeData (Address.NativeContractAddr_Account net) (str "BindName") []).

Lemma contracts_panic_witness : exists vms, GetVMFactory net = Ok vms
  /\ Invoke_Execute (W := world RefStore.t) (Address.toy_hash 32) net (fun _ => []) vms [] (str "n") carol_servant invoke_account world0 = Panic.
Proof.
  assert (Hok : is_ok (GetVMFactory (W := world RefStore.t) net) = true) by (vm_compute; reflexivity).
  destruct (GetVMFactory (W := world RefStore.t) net) as [vms|e|] eqn:E; [|done|done]. exists vms. split; [reflexivity|].
  refine (proj1 (proj2 (contracts_panic Address.toy_hash net (fun _ => []) (fun _ => []) (fun x _ => x) (fun _ => 0)
    (fun _ => Wire.s_zero BlockDataChunk.desc) vms [] (str "n") carol_servant E eq_refl
    (mkAction (a_head (to_bob [])) (a_uniHead (to_bob [])) (mkDeployData [] None)) invoke_account world0 _))).
  discriminate.
Defined.
End ContractExample.
