(* ===== verification/BlockSub.v ===== *)
(** The chain component (src/chain): the collectors of published blocks
    (src/chain/archiver, src/chain/universal), the subscriber that validates
    and commits published blocks ([blockinfo_sub.go]), the dispatcher of
    arriving messages ([chain.go]) and the choice between forks
    ([fork_choice.go]). *)
From Stdlib Require Import ZArith Lia Strings.Byte.
From Stdlib Require Import Floats.SpecFloat.
From stdpp Require Import base gmap list strings.
From S2P Require Import Prelude Common Backend Wire TxMessages ChainMessages TxBasic Json JsonCodec StateStore StateBase StateNode StateChain Account Composition Scheduler TxPool EpochService MessageDeliver Servant Universal.
Import Util Types.
#[local] Open Scope Z_scope.

(** * chain/archiver, chain/universal *)
Module BlockCollector.

Inductive collect_error := ESameData (height : Z) | EDifferentHead (height : Z) | EHeight (received current : Z).

Record collectedBlockInfo := mkCollected { ci_block : Block.t; ci_blockRS : BlockResult.t }.

(** The collector of an archiver keeps the parts of the current height. *)
Inductive collector := Universal | Archiver (blockList : list collectedBlockInfo).

Definition CreateBlockCollector (nodeRole : Z) : collector :=
  if Z.land nodeRole NodeRole_Archiver =? NodeRole_Archiver then Archiver [] else Universal.

(** A field of a nil pointer panics. *)
Definition deref {A} (p : option A) : go A := match p with Some a => Ok a | None => Panic end.

Fixpoint isExistSameBlockData (origin : option BlockData.t) (blockList : list collectedBlockInfo) : go bool :=
  match blockList with
  | [] => Ok false
  | target :: blockList =>
      o ← deref origin;
      t ← deref (Block.Data (ci_block target));
      if bool_decide (BlockData.Version o <> BlockData.Version t) then isExistSameBlockData origin blockList
      else if existsb (fun c => bool_decide (c ∈ BlockData.DataChunks t)) (BlockData.DataChunks o) then Ok true
      else isExistSameBlockData origin blockList
  end.

(** Appending the chunks of the other parts to those of the first. *)
Fixpoint assemble (first : collectedBlockInfo) (others : list collectedBlockInfo) : go collectedBlockInfo :=
  match others with
  | [] => Ok first
  | other :: others =>
      d ← deref (Block.Data (ci_block first));
      d' ← deref (Block.Data (ci_block other));
      r ← deref (BlockResult.Data (ci_blockRS first));
      r' ← deref (BlockResult.Data (ci_blockRS other));
      assemble
        (mkCollected
           (Block.mk (Block.Head (ci_block first))
              (Some (BlockData.mk (BlockData.Version d) (BlockData.DataChunks d ++ BlockData.DataChunks d') (BlockData.XXX_unrecognized d)))
              (Block.XXX_unrecognized (ci_block first)))
           (BlockResult.mk (BlockResult.Head (ci_blockRS first))
              (Some (BlockResultData.mk (BlockResultData.Version r)
                       (BlockResultData.ResultDataChunks r ++ BlockResultData.ResultDataChunks r') (BlockResultData.XXX_unrecognized r)))
              (BlockResult.XXX_unrecognized (ci_blockRS first))))
        others
  end.

(** [Collect] of an archiver; [None] for the result are two nils. *)
Definition archiver_Collect (blockList : list collectedBlockInfo) (block : Block.t) (blockRS : BlockResult.t) :
    go (list collectedBlockInfo * (collect_error + option (Block.t * BlockResult.t))) :=
  let new := mkCollected block blockRS in
  match blockList with
  | [] => Ok ([new], inr None)
  | first :: others =>
      h ← deref (Block.Head block);
      h0 ← deref (Block.Head (ci_block first));
      if BlockHead.Height h =? BlockHead.Height h0 then
        recvBlockBytes ← BlockHead.Marshal h;
        bhBytes ← BlockHead.Marshal h0;
        if bool_decide (recvBlockBytes = bhBytes) then
          same ← isExistSameBlockData (Block.Data block) blockList;
          if negb same then Ok (blockList ++ [new], inr None)
          else Ok (blockList, inl (ESameData (BlockHead.Height h)))
        else Ok (blockList, inl (EDifferentHead (BlockHead.Height h)))
      else if BlockHead.Height h =? u64 (BlockHead.Height h0 + 1) then
        r ← assemble first others;
        Ok ([new], inr (Some (ci_block r, ci_blockRS r)))
      else Ok (blockList, inl (EHeight (BlockHead.Height h) (BlockHead.Height h0)))
  end.

Definition Collect (bc : collector) (block : Block.t) (blockRS : BlockResult.t) :
    go (collector * (collect_error + option (Block.t * BlockResult.t))) :=
  match bc with
  | Universal => Ok (bc, inr (Some (block, blockRS)))
  | Archiver l => '(l, r) ← archiver_Collect l block blockRS; Ok (Archiver l, r)
  end.
End BlockCollector.

(** * chain/blockinfo_sub.go *)
Module BlockInfoSub.
Import Composition Execution BlockCollector TxPool.

Inductive sub_error :=
| EDecode (e : Wire.proto_error)
| ECollect (e : collect_error)
| ELatest (e : state_error)
| ENoCompState (height : Z)
| ECommitBlock (e : exec_error).

Section Subscriber.
Context {L S P T : Type} `{!IStateStore S, !ILedger L S}.

Variable blake2b : bytes -> bytes.

(** The sparse Merkle tree. *)
Variables (empty : T) (Update : T -> bytes -> bytes -> T) (Root : T -> bytes).

Variable UpdateEpoch : BlockHead.t -> world S -> go (world S).

Variable Commit : S -> go (S * option StateStore.store_error).

(** What a failed decoding leaves in a chunk; the error is not looked at. *)
Variables (partial_head : bytes -> BlockHeadChunk.t) (partial_data : bytes -> BlockDataChunk.t)
  (partial_result : bytes -> BlockResultDataChunk.t).

Variable config : ChainConfiguration.

(** The text of a decoding error. *)
Variable wire_Error : Wire.proto_error -> bytes.

(** A store to read the caches of the process with; it is not looked at. *)
Variable no_store : S.

Abbreviation env := (env (L := L) (S := S) (P := P)).
Abbreviation scheduler := (executionScheduler (T := T)).

Inductive CompStateBuilderType := CompStateBuilderType_Full | CompStateBuilderType_Simple.

(** The subscriber with the process around it: the builders' maps are those of
    the process. *)
Record blockInfoSubProcessor := mkSub {
  nodeID : bytes;
  cType : CompStateBuilderType;
  blockCollector : collector;
  s_scheduler : scheduler;
  s_env : env;
  s_full : gmap bytes Builder.compositionStateOfNodeFull;
  s_simple : gmap bytes Builder.compositionStateOfNodeSimple;
}.

Definition set_collector (bsp : blockInfoSubProcessor) (c : collector) : blockInfoSubProcessor :=
  mkSub (nodeID bsp) (cType bsp) c (s_scheduler bsp) (s_env bsp) (s_full bsp) (s_simple bsp).

Definition set_env (bsp : blockInfoSubProcessor) (e : env) : blockInfoSubProcessor :=
  mkSub (nodeID bsp) (cType bsp) (blockCollector bsp) (s_scheduler bsp) e (s_full bsp) (s_simple bsp).

(** The index of a chunk is taken from the message; beyond the head's chunks it
    panics. *)
Fixpoint validate_chunks (head : BlockHead.t) (results : list bytes) (i : nat) (chunks : list bytes) : go ValidationResult :=
  match chunks with
  | [] => Ok ValidationAccept
  | dataChunkBytes :: chunks =>
      dataChunk ← Deliver.read_or BlockDataChunk.desc partial_data dataChunkBytes;
      headBytes ← deref (BlockHead.HeadChunks head !! Z.to_nat (BlockDataChunk.RefIndex dataChunk));
      headChunk ← Deliver.read_or BlockHeadChunk.desc partial_head headBytes;
      let txCount := len (BlockDataChunk.Txs dataChunk) in
      if txCount >? MaxTxCountOfEachBlock config then Ok ValidationReject
      else if bool_decide (Tx.TxRootByBytes blake2b empty Update Root (BlockDataChunk.Txs dataChunk) <> BlockHeadChunk.TxRoot headChunk)
      then Ok ValidationReject
      else
        resultBytes ← deref (results !! i);
        resultDataChunk ← Deliver.read_or BlockResultDataChunk.desc partial_result resultBytes;
        if negb (txCount =? len (BlockResultDataChunk.TxResults resultDataChunk)) then Ok ValidationReject
        else validate_chunks head results (Datatypes.S i) chunks
  end.

Definition validateRemoteBlockInfo (block : Block.t) (blockResult : BlockResult.t) : go ValidationResult :=
  data ← deref (Block.Data block);
  match BlockData.DataChunks data with
  | [] => Ok ValidationAccept
  | chunks =>
      head ← deref (Block.Head block);
      let results := match BlockResult.Data blockResult with Some d => BlockResultData.ResultDataChunks d | None => [] end in
      validate_chunks head results 0 chunks
  end.

Definition checkAndParseSubData (info : PubSubMessageBlockInfo.t) : outcome Wire.proto_error (Block.t * BlockResult.t) :=
  block ← Codec.Unmarshal Block.desc (PubSubMessageBlockInfo.Block info) (Wire.s_zero Block.desc);
  blockRS ← Codec.Unmarshal BlockResult.desc (PubSubMessageBlockInfo.BlockResult info) (Wire.s_zero BlockResult.desc);
  Ok (block, blockRS).

(** The three decodings of a message. *)
Definition parse_message (data : bytes) : outcome Wire.proto_error (Block.t * BlockResult.t) :=
  chainMsg ← Codec.Unmarshal ChainMessage.desc data (Wire.s_zero ChainMessage.desc);
  blockInfo ← Codec.Unmarshal PubSubMessageBlockInfo.desc (ChainMessage.Data chainMsg) (Wire.s_zero PubSubMessageBlockInfo.desc);
  checkAndParseSubData blockInfo.

(** The log reads the height of the head. *)
Definition Validate (isLocal : bool) (data : option bytes) : go ValidationResult :=
  match data with
  | None => Ok ValidationReject
  | Some data =>
      match parse_message data with
      | Panic => Panic
      | Err _ => Ok ValidationReject
      | Ok (block, blockRS) =>
          _ ← deref (Block.Head block);
          if isLocal then Ok ValidationAccept else validateRemoteBlockInfo block blockRS
      end
  end.

(** An executor commits the state that its execution of the version left; the
    others make a composition state. *)
Definition GetCompositionState (bsp : blockInfoSubProcessor) (stateVersion : Z) : go (blockInfoSubProcessor * option ref) :=
  match cType bsp with
  | CompStateBuilderType_Full =>
      Ok (bsp, match CompositionStateOfExePackedTxs (s_scheduler bsp) stateVersion with inl _ => None | inr r => Some r end)
  | CompStateBuilderType_Simple =>
      let e := s_env bsp in
      '(p, r) ← Builder.simple_CreateCompositionState (Builder.mkProcess (e_ledger e) (e_heap e) (s_full bsp) (s_simple bsp))
                  (nodeID bsp) stateVersion;
      Ok (mkSub (nodeID bsp) (cType bsp) (blockCollector bsp) (s_scheduler bsp)
            (mkEnv (Builder.p_ledger p) (e_ledgerState e) (Builder.heap p) (e_blocks e) (e_results e) (e_epochs e) (e_pool e) (e_events e))
            (Builder.full p) (Builder.simple p), r)
  end.

(** The latest block of the ledger, through the caches of the process. *)
Definition latest_block (e : env) : go (env * (state_error + Block.t)) :=
  '(l, w, b) ← Composition.GetLatestBlock (e_ledger e) (mkWorld no_store (e_ledgerState e) (e_blocks e) (e_results e) (e_epochs e));
  Ok (mkEnv l (w_ledger w) (e_heap e) (latestBlockMap w) (latestBlockRSMap w) (latestEpochMap w) (e_pool e) (e_events e), b).

(** What the collector returns is only tested: the block that is committed is
    the one that has arrived. *)
Definition Process (bsp : blockInfoSubProcessor) (info : PubSubMessageBlockInfo.t) : go (blockInfoSubProcessor * option sub_error) :=
  match checkAndParseSubData info with
  | Panic => Panic
  | Err e => Ok (bsp, Some (EDecode e))
  | Ok (block, blockRS) =>
      head ← deref (Block.Head block);
      _ ← deref (A := BlockResultHead.t) (BlockResult.Head blockRS);
      '(c, collected) ← Collect (blockCollector bsp) block blockRS;
      let bsp := set_collector bsp c in
      match collected with
      | inl e => Ok (bsp, Some (ECollect e))
      | inr None => Ok (bsp, None)
      | inr (Some _) =>
          '(e, latestBlock) ← latest_block (s_env bsp);
          let bsp := set_env bsp e in
          match latestBlock with
          | inl e => Ok (bsp, Some (ELatest e))
          | inr latestBlock =>
              latestHead ← deref (Block.Head latestBlock);
              if BlockHead.Height latestHead >=? BlockHead.Height head then Ok (bsp, None)
              else
                '(bsp, compState) ← GetCompositionState bsp (BlockHead.Height head);
                match compState with
                | None => Ok (bsp, Some (ENoCompState (BlockHead.Height head)))
                | Some r =>
                    '(e, err) ← CommitBlock UpdateEpoch Commit (s_env bsp) block blockRS (Some r);
                    Ok (set_env bsp e, option_map ECommitBlock err)
                end
          end
      end
  end.

(** [NewBlockInfoSubProcessor]; an error of the look-up counts as no. *)
Definition NewBlockInfoSubProcessor (nodeID : bytes) (nodeRole : Z) (s : scheduler) (e : env)
    (full : gmap bytes Builder.compositionStateOfNodeFull) (simple : gmap bytes Builder.compositionStateOfNodeSimple) :
    go blockInfoSubProcessor :=
  '(l, csStateRN) ← CreateCompositionStateReadonly (e_ledger e);
  '(_, r) ← Node.IsExist Node.executor nodeID (cs_store csStateRN);
  let isExecutor := match r with inr b => b | inl _ => false end in
  Ok (mkSub nodeID (if isExecutor then CompStateBuilderType_Full else CompStateBuilderType_Simple) (CreateBlockCollector nodeRole) s
        (mkEnv l (e_ledgerState e) (e_heap e) (e_blocks e) (e_results e) (e_epochs e) (e_pool e) (e_events e)) full simple).

(** ** chain.go *)

(** The pool's [AddTx] for a local transaction; an error comes with its text. *)
Variable AddTx : P -> Transaction.t -> go (P * option bytes).

Definition ChainMessage_Tx : Z := 1.

(** What [dispatch] answers: only a transaction is answered. *)
Definition dispatch (bsp : blockInfoSubProcessor) (data : bytes) : go (blockInfoSubProcessor * option bytes) :=
  match Codec.Unmarshal ChainMessage.desc data (Wire.s_zero ChainMessage.desc) with
  | Panic => Panic
  | Err _ => Ok (bsp, None)
  | Ok chainMsg =>
      if ChainMessage.MsgType chainMsg =? ChainMessage_BlockInfo then
        match Codec.Unmarshal PubSubMessageBlockInfo.desc (ChainMessage.Data chainMsg) (Wire.s_zero PubSubMessageBlockInfo.desc) with
        | Panic => Panic
        | Err _ => Ok (bsp, None)
        | Ok info => '(bsp, _) ← Process bsp info; Ok (bsp, None)
        end
      else if ChainMessage.MsgType chainMsg =? ChainMessage_Tx then
        let respond (bsp : blockInfoSubProcessor) (text : bytes) :=
          Ok (bsp, Some (JsonCodec.Marshal (JsonCodec.j_ptr Deliver.j_ResponseData) (Some (Deliver.mkResponse None text)))) in
        match Codec.Unmarshal Transaction.desc (ChainMessage.Data chainMsg) (Wire.s_zero Transaction.desc) with
        | Panic => Panic
        | Err e => respond bsp (wire_Error e)
        | Ok t =>
            _ ← Tx.TxID blake2b t;
            '(p, err) ← AddTx (e_pool (s_env bsp)) t;
            respond (set_env bsp (set_pool (s_env bsp) p)) (default [] err)
        end
      else Ok (bsp, None)
  end.
End Subscriber.
End BlockInfoSub.

(** * chain/fork_choice.go, chain/block_weight.go *)
Module ForkChoice.
Import BlockCollector.

(** [new(big.Int).SetBytes] *)
Definition SetBytes (b : bytes) : Z := foldl (fun acc x => acc * 256 + b2z x) 0 b.

(** The heights are not compared: the test is of [bh1] with itself. *)
Definition BlockHeadChoice (bh1 bh2 : BlockHead.t) : BlockHead.t :=
  match SetBytes (BlockHead.MaxPri bh1) ?= SetBytes (BlockHead.MaxPri bh2) with
  | Lt => bh2
  | _ => bh1
  end.

Section Choice.
Variable blake2b : bytes -> bytes.

(** The loop of [FindAncestor] runs from the last blocks to the first; [last]
    is [chain1[i+1]]. *)
Fixpoint ancestor_loop (rchain1 rchain2 : list Block.t) (last : option Block.t) : go (option Block.t) :=
  match rchain1, rchain2 with
  | b1 :: rchain1, b2 :: rchain2 =>
      cbHashBytes1 ← BlockOps.HashBytes blake2b b1;
      cbHashBytes2 ← BlockOps.HashBytes blake2b b2;
      if bool_decide (cbHashBytes1 = cbHashBytes2) then ancestor_loop rchain1 rchain2 (Some b1) else Ok last
  | _, _ => Ok None
  end.

Definition FindAncestor (chain1 chain2 : list Block.t) : go (option Block.t) :=
  ancestor_loop (reverse chain1) (reverse chain2) None.
End Choice.

Section Weights.
Context {S : Type} `{!IStateStore S}.

(** [CreateStateStoreReadonlyAt] of the ledger: an error leaves a nil store,
    with which the composition state panics. *)
Variable CreateStateStoreReadonlyAt : Z -> go S.

Variables (ledgerID : bytes) (blocksPerEpoch : Z).

(** The value of a read whose error is dropped. *)
Definition value_or_zero (c : cmd S state_error Z) (s : S) : go (S * Z) :=
  '(s, r) ← c s; Ok (s, match r with inr z => z | inl _ => 0 end).

(** [Rat.Float64] of a fraction of integers: the nearest float, of a quotient
    with enough digits whose last one says whether it is exact. *)
Definition rat_Float64 (num den : Z) : float64 :=
  let q := Z.abs num * 2 ^ 192 / den in
  let exact := bool_decide (q * den = Z.abs num * 2 ^ 192) in
  let m := 2 * q + (if exact then 0 else 1) in
  binary_normalize 53 1024 (if num <? 0 then - m else m) (-193) false.

Definition ComputeNodeWeightRatio (height : Z) (nodeID : bytes) : go float64 :=
  s ← CreateStateStoreReadonlyAt height;
  compStateRN ← Composition.createCompositionStateWithStateStore ledgerID 0 s;
  '(s, totalWeight) ← value_or_zero Node.GetTotalWeight (Composition.cs_store compStateRN);
  '(s, nodeWeight) ← value_or_zero (Node.GetNodeWeight nodeID) s;
  match Gas.float_trunc (Gas.float_of_uint totalWeight) with
  | Some 0 | None => Panic
  | Some total => Ok (rat_Float64 (i64 (u64 (nodeWeight * blocksPerEpoch))) total)
  end.

Definition ratio_at (chain : list Block.t) (i : nat) : go float64 :=
  b ← deref (chain !! i);
  h ← deref (Block.Head b);
  ComputeNodeWeightRatio (BlockHead.Height h) (BlockHead.Proposer h).

(** The loop of [ChainChoiceAfterAncestor]: [i] is never increased.  [None]:
    the loop is still running when the fuel is used up. *)
Fixpoint choice_loop (fuel : nat) (chain1 chain2 : list Block.t) (i : nat) (wTotalRadio1 wTotalRadio2 : float64) :
    option (go (list Block.t)) :=
  match fuel with
  | O => None
  | Datatypes.S fuel =>
      if (i <? Nat.max (length chain1) (length chain2))%nat then
        match (if (i <=? length chain1)%nat then w ← ratio_at chain1 i; Ok (SFadd 53 1024 wTotalRadio1 w) else Ok wTotalRadio1) with
        | Ok w1 =>
            match (if (i <? length chain2)%nat then w ← ratio_at chain2 i; Ok (SFadd 53 1024 wTotalRadio2 w) else Ok wTotalRadio2) with
            | Ok w2 => choice_loop fuel chain1 chain2 i w1 w2
            | _ => Some Panic
            end
        | _ => Some Panic
        end
      else Some (Ok (if SFltb wTotalRadio1 wTotalRadio2 then chain2 else chain1))
  end.

Definition ChainChoiceAfterAncestor (fuel : nat) (chain1 chain2 : list Block.t) : option (go (list Block.t)) :=
  match chain1, chain2 with
  | [], _ => Some (Ok chain2)
  | _, [] => Some (Ok chain1)
  | _, _ => choice_loop fuel chain1 chain2 0 (S754_zero false) (S754_zero false)
  end.
End Weights.
End ForkChoice.
