(* ===== verification/BlockSubSpec.v ===== *)
(** Correctness of the chain component: a published block is accepted and taken
    up by the nodes that receive it, what an archiver collects and what it
    commits, the common ancestor of two chains, and that the choice between two
    chains never ends. *)
From Stdlib Require Import ZArith Lia Strings.Byte.
From Stdlib Require Import Floats.SpecFloat.
From stdpp Require Import base gmap list strings.
From S2P Require Import Prelude Common Backend Wire TxMessages ChainMessages TxBasic Text Json JsonCodec StateStore StateBase StateNode StateChain StateChainSpec Account Composition Scheduler SchedulerSpec TxPool EpochService MessageDeliver MessageDeliverSpec Servant Universal BlockSub.
Import Util Types.
#[local] Open Scope Z_scope.

(** * Published blocks *)
Module SubSpec.
Import Composition Execution BlockSpec ChainSpec CommitSpec BlockCollector TxPool BlockInfoSub DeliverSpec.

Section Spec.
Context {L S P T : Type} `{!IStateStore S, !StateStoreLaws S, !ILedger L S}.
Variable blake2b : bytes -> bytes.
Variables (empty : T) (Update : T -> bytes -> bytes -> T) (Root : T -> bytes).
Variable UpdateEpoch : BlockHead.t -> world S -> go (world S).
Variable Commit : S -> go (S * option StateStore.store_error).
Variables (partial_head : bytes -> BlockHeadChunk.t) (partial_data : bytes -> BlockDataChunk.t)
  (partial_result : bytes -> BlockResultDataChunk.t).
Variables (config : ChainConfiguration) (wire_Error : Wire.proto_error -> bytes) (no_store : S).
Variable AddTx : P -> Transaction.t -> go (P * option bytes).

(** The updater of epochs leaves the chain state alone, and the store commits. *)
Hypothesis UpdateEpoch_chain : forall head cs w d c, chain_rep (S := S) cs w d c ->
  exists w' d', UpdateEpoch head w = Ok w' /\ chain_rep cs w' d' c.
Hypothesis Commit_ok : forall st m, named st m -> exists st', Commit st = Ok (st', None) /\ named st' m.

Abbreviation sub := (blockInfoSubProcessor (L := L) (S := S) (P := P) (T := T)).
Abbreviation validate := (Validate blake2b empty Update Root partial_head partial_data partial_result config).
Abbreviation process := (Process (L := L) (S := S) (P := P) (T := T) UpdateEpoch Commit no_store).
Abbreviation dispatched := (dispatch (L := L) (S := S) (P := P) (T := T) blake2b UpdateEpoch Commit wire_Error no_store AddTx).

(** The head of a block announces the packed list as its chunk [idx]. *)
Record announced (head : BlockHead.t) (idx : Z) (p : PackedTxs) (rs : PackedTxsResult) (hc : BlockHeadChunk.t) : Prop := {
  an_chunk : Tx.well_formed BlockHeadChunk.desc hc;
  an_index : BlockHead.HeadChunks head !! Z.to_nat idx = Some (Wire.enc BlockHeadChunk.desc _ hc);
  an_root : Tx.TxRoot blake2b empty Update Root (pt_TxList p) = Ok (BlockHeadChunk.TxRoot hc);
  an_count : len (pt_TxList p) <= MaxTxCountOfEachBlock config;
  an_results : length (pr_TxsResult rs) = length (pt_TxList p);
}.

Lemma parse_published head idx prev p rs : encodable blake2b head idx prev p rs ->
  checkAndParseSubData (info_of (block_of head idx p) (result_of blake2b head idx prev p rs))
    = Ok (block_of head idx p, result_of blake2b head idx prev p rs)
  /\ parse_message (Wire.enc ChainMessage.desc _ (message_of (block_of head idx p) (result_of blake2b head idx prev p rs)))
    = Ok (block_of head idx p, result_of blake2b head idx prev p rs).
Proof.
  intros He. assert (Hp : checkAndParseSubData (info_of (block_of head idx p) (result_of blake2b head idx prev p rs))
    = Ok (block_of head idx p, result_of blake2b head idx prev p rs)).
  { unfold checkAndParseSubData, info_of. cbn [PubSubMessageBlockInfo.Block PubSubMessageBlockInfo.BlockResult].
    destruct (Tx.codec_roundtrip _ _ (en_block _ _ _ _ _ _ He)) as (_ & _ & ->). run_Ok.
    destruct (Tx.codec_roundtrip _ _ (en_result _ _ _ _ _ _ He)) as (_ & _ & ->). by run_Ok. }
  split; [done|]. unfold parse_message. destruct (Tx.codec_roundtrip _ _ (en_message _ _ _ _ _ _ He)) as (_ & _ & ->). run_Ok.
  cbn [ChainMessage.Data message_of]. destruct (Tx.codec_roundtrip _ _ (en_info _ _ _ _ _ _ He)) as (_ & _ & ->). by run_Ok.
Qed.

Lemma TxRoot_encoded txs root : Forall (Tx.well_formed Transaction.desc) txs -> Tx.TxRoot blake2b empty Update Root txs = Ok root ->
  Tx.TxRootByBytes blake2b empty Update Root (Wire.enc Transaction.desc _ <$> txs) = root.
Proof. intros Ht. unfold Tx.TxRoot. rewrite Tx.TxRoot_loop_spec by done. by intros [= <-]. Qed.

Lemma len_encoded (txs : list Transaction.t) : len (Wire.enc Transaction.desc _ <$> txs) = len txs.
Proof. unfold len. by rewrite length_fmap. Qed.

Lemma validate_published head idx prev p rs hc isLocal : encodable blake2b head idx prev p rs -> announced head idx p rs hc ->
  validate isLocal (Some (Wire.enc ChainMessage.desc _ (message_of (block_of head idx p) (result_of blake2b head idx prev p rs))))
  = Ok ValidationAccept.
Proof.
  intros He Ha. unfold Validate. destruct (parse_published _ _ _ _ _ He) as [_ ->]. cbn [Block.Head block_of deref]. run_Ok.
  destruct isLocal; [done|]. unfold validateRemoteBlockInfo. cbn [Block.Data Block.Head block_of deref]. run_Ok.
  cbn [BlockData.DataChunks]. run_Ok. cbn [validate_chunks]. rewrite read_or_enc by apply He. run_Ok.
  cbn [BlockDataChunk.RefIndex chunk_of]. rewrite (an_index _ _ _ _ _ Ha). cbn [deref]. run_Ok. rewrite read_or_enc by apply Ha. run_Ok.
  cbn [BlockDataChunk.Txs chunk_of]. rewrite len_encoded, Z.gtb_ltb, (proj2 (Z.ltb_ge _ _)) by apply Ha.
  rewrite bool_decide_eq_false_2; [|intros Hne; apply Hne, TxRoot_encoded; [apply He|apply Ha]].
  cbn [BlockResult.Data result_of BlockResultData.ResultDataChunks lookup list_lookup deref]. run_Ok.
  rewrite read_or_enc by apply He. run_Ok. cbn [BlockResultDataChunk.TxResults data_chunk_of].
  assert (Hl : len (blake2b ∘ Wire.enc TransactionResult.desc _ <$> pr_TxsResult rs) = len (pt_TxList p)).
  { unfold len. rewrite length_fmap. f_equal. apply Ha. }
  by rewrite Hl, Z.eqb_refl.
Qed.

(** ** Taking a block up *)

(** The composition state that is at hand for a version. *)
Definition at_hand (bsp : sub) (v : Z) (r : ref) : Prop :=
  match cType bsp with
  | CompStateBuilderType_Full => exists x, find_version (s_scheduler bsp) v = Some x /\ ep_compState x = r
  | CompStateBuilderType_Simple => exists n cs, s_simple bsp !! nodeID bsp = Some n /\ Builder.compStates n !! Text.FormatUint v = Some r
      /\ e_heap (s_env bsp) !! r = Some cs /\ state cs <> CompSState_Commited
  end.

Lemma GetCompositionState_at_hand bsp v r : at_hand bsp v r -> GetCompositionState bsp v = Ok (bsp, Some r).
Proof.
  unfold at_hand, GetCompositionState. destruct bsp as [id ct bc s e f m]. cbn [cType nodeID s_scheduler s_simple s_env s_full blockCollector].
  destruct ct.
  - intros (x & Hx & <-). unfold CompositionStateOfExePackedTxs. by rewrite Hx.
  - intros (n & cs & Hn & Hr & Hcs & Hne). unfold Builder.simple_CreateCompositionState, Builder.simple_node. cbn [Builder.simple].
    rewrite Hn. unfold Builder.simple_createCompositionStateOfNode. rewrite Hr. unfold Builder.commited. cbn [Builder.heap].
    rewrite Hcs, bool_decide_eq_false_2 by done. run_Ok. cbn [Builder.p_ledger Builder.heap Builder.full Builder.simple]. by destruct e.
Qed.

Lemma latest_cached (e : env (L := L) (S := S) (P := P)) b : e_blocks e !! l_ID (e_ledger e) = Some b -> latest_block no_store e = Ok (e, inr b).
Proof.
  intros H. unfold latest_block, Composition.GetLatestBlock, from_cache_or, Chain.cached_block. cbn [latestBlockMap]. rewrite H. run_Ok.
  by destruct e.
Qed.

(** The node is about to commit the block of a head: the latest block is below
    it, and a composition state with the chain is at hand. *)
Record receiving (bsp : sub) (head : BlockHead.t) (r : ref) (cs : compositionState S) (d : gmap bytes kvmap) (c : chain) : Prop := {
  rc_latest : exists b h, e_blocks (s_env bsp) !! l_ID (e_ledger (s_env bsp)) = Some b /\ Block.Head b = Some h
    /\ BlockHead.Height h < BlockHead.Height head;
  rc_hand : at_hand bsp (BlockHead.Height head) r;
  rc_state : e_heap (s_env bsp) !! r = Some cs;
  rc_chain : chain_rep (cs_chain cs) (world_of (s_env bsp) cs) d c;
}.

(** The node has the block. *)
Definition taken_up (bsp bsp' : sub) (r : ref) (c : chain) (block : Block.t) (blockRS : BlockResult.t) : Prop :=
  exists cs' d', e_heap (s_env bsp') !! r = Some cs' /\ state cs' = CompSState_Commited
    /\ chain_rep (cs_chain cs') (world_of (s_env bsp') cs') d' (chain_after c block blockRS)
    /\ e_events (s_env bsp') = e_events (s_env bsp) ++ [BlockAdded block].

(** Whatever the collector returns, if it returns something, the block that has
    arrived is committed. *)
Lemma Process_commits bsp head idx prev p rs r cs d c bc x :
  encodable blake2b head idx prev p rs -> receiving bsp head r cs d c ->
  Collect (blockCollector bsp) (block_of head idx p) (result_of blake2b head idx prev p rs) = Ok (bc, inr (Some x)) ->
  exists bsp', process bsp (info_of (block_of head idx p) (result_of blake2b head idx prev p rs)) = Ok (bsp', None)
    /\ blockCollector bsp' = bc /\ taken_up bsp bsp' r c (block_of head idx p) (result_of blake2b head idx prev p rs).
Proof.
  intros He [(b & h & Hb & Hh & Hlt) Hr Hcs Hc] Hcol. unfold Process. destruct (parse_published _ _ _ _ _ He) as [-> _].
  change (deref (Block.Head (block_of head idx p))) with (Ok head : go BlockHead.t). rewrite Ok_bind.
  assert (exists rh, deref (BlockResult.Head (result_of blake2b head idx prev p rs)) = Ok rh) as (rh & ->) by (by eexists).
  rewrite Ok_bind, Hcol. run_Ok. unfold set_collector. cbn [s_env]. rewrite (latest_cached _ b Hb). run_Ok. rewrite Hh. cbn [deref]. run_Ok.
  rewrite Z.geb_leb, (proj2 (Z.leb_gt _ _) Hlt).
  change (set_env (mkSub (nodeID bsp) (cType bsp) bc (s_scheduler bsp) (s_env bsp) (s_full bsp) (s_simple bsp)) (s_env bsp))
    with (set_collector bsp bc).
  rewrite (GetCompositionState_at_hand (set_collector bsp bc) _ r Hr). run_Ok.
  destruct (CommitBlock_installs blake2b UpdateEpoch Commit UpdateEpoch_chain (s_env bsp) r cs d c head idx prev p rs Hcs Hc He Commit_ok)
    as (e' & cs' & d' & E & H1 & H2 & H3 & H4 & H5 & H6).
  cbn [s_env set_collector]. rewrite E. run_Ok. eexists. split; [reflexivity|]. split; [done|]. by exists cs', d'.
Qed.


(** ** Archivers *)

Definition chunks (b : Block.t) : list bytes := match Block.Data b with Some d => BlockData.DataChunks d | None => [] end.

Definition result_chunks (b : BlockResult.t) : list bytes :=
  match BlockResult.Data b with Some d => BlockResultData.ResultDataChunks d | None => [] end.

Definition has_data (i : collectedBlockInfo) : Prop := is_Some (Block.Data (ci_block i)) /\ is_Some (BlockResult.Data (ci_blockRS i)).

(** Assembling appends the chunks of the parts in the order of their arrival. *)
Lemma assemble_spec first others : has_data first -> Forall has_data others ->
  exists r, assemble first others = Ok r /\ Block.Head (ci_block r) = Block.Head (ci_block first)
    /\ chunks (ci_block r) = mjoin (chunks ∘ ci_block <$> first :: others)
    /\ result_chunks (ci_blockRS r) = mjoin (result_chunks ∘ ci_blockRS <$> first :: others).
Proof.
  intros Hf Ho. revert first Hf. induction Ho as [|i others Hi _ IH]; intros first Hf.
  { exists first. cbn. by rewrite !app_nil_r. }
  cbn [assemble]. destruct Hf as [[d Hd] [rd Hrd]], Hi as [[d' Hd'] [rd' Hrd']]. rewrite Hd, Hd', Hrd, Hrd'. cbn [deref]. run_Ok.
  match goal with |- context [assemble ?f _] => destruct (IH f) as (r & -> & Hh & H1 & H2) end; [split; by eexists|].
  exists r. split; [done|]. split; [exact Hh|]. rewrite H1, H2. cbn. unfold chunks, result_chunks. cbn.
  rewrite Hd, Hd', Hrd, Hrd'. cbn. by rewrite <- !(assoc_L (++)).
Qed.

(** No chunk of the data is in a collected part. *)
Definition fresh (cs : list bytes) (l : list collectedBlockInfo) : Prop :=
  Forall (fun i => Forall (fun c => c ∉ chunks (ci_block i)) cs) l.

Lemma isExist_fresh o l : Forall has_data l -> fresh (BlockData.DataChunks o) l -> isExistSameBlockData (Some o) l = Ok false.
Proof.
  intros Hd Hn. induction Hd as [|i l [[d Hd] _] _ IH]; [done|]. apply Forall_cons in Hn as [Hi Hn].
  cbn [isExistSameBlockData]. rewrite Hd. cbn [deref]. run_Ok. specialize (IH Hn). case_bool_decide; [exact IH|].
  replace (existsb _ _) with false; [exact IH|]. symmetry.
  assert (Hch : chunks (ci_block i) = BlockData.DataChunks d) by (unfold chunks; by rewrite Hd). rewrite Hch in Hi.
  clear Hn IH. induction Hi as [|c cs Hc _ IHc]; [done|]. cbn [existsb]. by rewrite IHc, bool_decide_eq_false_2.
Qed.

Lemma head_marshals head : Tx.well_formed BlockHead.desc head -> exists b, BlockHead.Marshal head = Ok b.
Proof. intros (Hv & _ & Hs). eexists. exact (Wire.Marshal_enc BlockHead.desc _ head Hv Hs). Qed.

Lemma Collect_adds head block blockRS o first others : Tx.well_formed BlockHead.desc head -> Block.Head block = Some head -> Block.Data block = Some o ->
  Block.Head (ci_block first) = Some head -> Forall has_data (first :: others) -> fresh (BlockData.DataChunks o) (first :: others) ->
  Collect (Archiver (first :: others)) block blockRS = Ok (Archiver (first :: others ++ [mkCollected block blockRS]), inr None).
Proof.
  intros Hw Hb Ho Hh Hd Hn. destruct (head_marshals head Hw) as [b Hm]. cbn [Collect archiver_Collect]. rewrite Hb, Hh, Ho. cbn [deref]. run_Ok. rewrite Z.eqb_refl, Hm. run_Ok.
  rewrite bool_decide_eq_true_2 by done. rewrite (isExist_fresh o _ Hd Hn). by run_Ok.
Qed.

(** A part of the collected height with a new chunk is only collected. *)
Lemma archiver_adds bsp head idx prev p rs first others : encodable blake2b head idx prev p rs ->
  blockCollector bsp = Archiver (first :: others) -> Block.Head (ci_block first) = Some head -> Forall has_data (first :: others) ->
  fresh (chunks (block_of head idx p)) (first :: others) ->
  process bsp (info_of (block_of head idx p) (result_of blake2b head idx prev p rs))
  = Ok (set_collector bsp (Archiver (first :: others ++ [mkCollected (block_of head idx p) (result_of blake2b head idx prev p rs)])), None).
Proof.
  intros He Hb Hh Hd Hn. unfold Process. destruct (parse_published _ _ _ _ _ He) as [-> _].
  change (deref (Block.Head (block_of head idx p))) with (Ok head : go BlockHead.t). rewrite Ok_bind.
  assert (exists rh, deref (BlockResult.Head (result_of blake2b head idx prev p rs)) = Ok rh) as (rh & ->) by (by eexists).
  rewrite Ok_bind, Hb. erewrite (Collect_adds head); [by run_Ok|apply He|done|done|done|done|exact Hn].
Qed.

(** What an archiver collects and what it commits: the parts of a height
    are collected without a change of the chain, and the first part of the next
    height makes the collector return the block of all their chunks in the
    order of arrival.  But the block that is committed then is that first part
    of the next height: what has been assembled is dropped. *)
Theorem archiver_drops_assembled bsp head idx prev p rs r cs d c first others h0 :
  encodable blake2b head idx prev p rs -> receiving bsp head r cs d c ->
  blockCollector bsp = Archiver (first :: others) -> Block.Head (ci_block first) = Some h0 ->
  0 <= BlockHead.Height h0 < 2 ^ 64 - 1 -> BlockHead.Height head = BlockHead.Height h0 + 1 -> Forall has_data (first :: others) ->
  let block := block_of head idx p in
  let blockRS := result_of blake2b head idx prev p rs in
  exists whole wholeRS bsp',
    Collect (Archiver (first :: others)) block blockRS = Ok (Archiver [mkCollected block blockRS], inr (Some (whole, wholeRS)))
    /\ Block.Head whole = Some h0 /\ chunks whole = mjoin (chunks ∘ ci_block <$> first :: others)
    /\ result_chunks wholeRS = mjoin (result_chunks ∘ ci_blockRS <$> first :: others)
    /\ process bsp (info_of block blockRS) = Ok (bsp', None) /\ blockCollector bsp' = Archiver [mkCollected block blockRS]
    /\ taken_up bsp bsp' r c block blockRS.
Proof.
  intros He Hr Hb Hh Hr0 Hn Hd block blockRS. apply Forall_cons in Hd as [Hf Ho].
  destruct (assemble_spec first others Hf Ho) as (w & Hw & Hwh & H1 & H2).
  assert (Hc : Collect (Archiver (first :: others)) block blockRS = Ok (Archiver [mkCollected block blockRS], inr (Some (ci_block w, ci_blockRS w)))).
  { cbn [Collect archiver_Collect]. change (deref (Block.Head block)) with (Ok head : go BlockHead.t). rewrite Hh. cbn [deref]. run_Ok.
    rewrite (proj2 (Z.eqb_neq _ _)) by lia. rewrite u64_small by (unfold is_u64; lia). rewrite Hn, Z.eqb_refl, Hw. by run_Ok. }
  rewrite <- Hb in Hc. destruct (Process_commits bsp head idx prev p rs r cs d c _ _ He Hr Hc) as (bsp' & E & Hbc & Ht). rewrite Hb in Hc.
  exists (ci_block w), (ci_blockRS w), bsp'. rewrite Hwh. split_and!; done.
Qed.
End Spec.
End SubSpec.

(** * Forks *)
Module ForkSpec.
Import BlockCollector ForkChoice.

Section Ancestor.
Variable blake2b : bytes -> bytes.

(** Two blocks hash alike, or do not. *)
Definition alike (b1 b2 : Block.t) : Prop := exists h, BlockOps.HashBytes blake2b b1 = Ok h /\ BlockOps.HashBytes blake2b b2 = Ok h.

Definition unlike (b1 b2 : Block.t) : Prop :=
  exists h1 h2, BlockOps.HashBytes blake2b b1 = Ok h1 /\ BlockOps.HashBytes blake2b b2 = Ok h2 /\ h1 <> h2.

Lemma loop_alike r1 r2 l1 l2 last : Forall2 alike r1 r2 ->
  ancestor_loop blake2b (r1 ++ l1) (r2 ++ l2) last = ancestor_loop blake2b l1 l2 (match list.last r1 with Some b => Some b | None => last end).
Proof.
  intros H. revert last. induction H as [|b1 b2 r1 r2 (h & E1 & E2) _ IH]; intros last; [done|].
  cbn [app ancestor_loop]. rewrite E1, E2. run_Ok. rewrite bool_decide_eq_true_2 by done. rewrite IH. destruct r1 as [|x r1]; [done|].
  change (list.last (b1 :: x :: r1)) with (list.last (x :: r1)). destruct (list.last (x :: r1)) eqn:E; [done|]. by apply last_None in E.
Qed.

(** [FindAncestor] on two chains, newest block first, that share their older
    blocks: the newest shared block when both chains have blocks of their own,
    and nothing when one of them has none. *)
Lemma FindAncestor_spec chain1 chain2 com1 com2 : Forall2 alike com1 com2 ->
  (forall b1 b2, last chain1 = Some b1 -> last chain2 = Some b2 -> unlike b1 b2) ->
  FindAncestor blake2b (chain1 ++ com1) (chain2 ++ com2)
  = Ok (match chain1, chain2 with [], _ | _, [] => None | _, _ => head com1 end).
Proof.
  intros Hc Hu. unfold FindAncestor. rewrite !reverse_app, loop_alike; [|by apply Forall2_reverse].
  rewrite last_reverse. destruct chain1 as [|x1 chain1 _] using rev_ind; [done|]. destruct chain2 as [|x2 chain2 _] using rev_ind.
  { rewrite reverse_snoc. cbn. by destruct chain1. }
  rewrite !reverse_snoc. cbn [ancestor_loop]. rewrite !last_snoc in Hu. destruct (Hu x1 x2 eq_refl eq_refl) as (h1 & h2 & -> & -> & Hne).
  run_Ok. rewrite bool_decide_eq_false_2 by done. destruct chain1, chain2; cbn; by destruct com1.
Qed.
End Ancestor.

Section Weights.
Context {S : Type} `{!IStateStore S}.
Variables (CreateStateStoreReadonlyAt : Z -> go S) (ledgerID : bytes) (blocksPerEpoch : Z).

(** The choice between two chains that both have blocks is never made: the
    loop does not advance. *)
Lemma ChainChoice_never_returns fuel chain1 chain2 c : chain1 <> [] -> chain2 <> [] ->
  ChainChoiceAfterAncestor CreateStateStoreReadonlyAt ledgerID blocksPerEpoch fuel chain1 chain2 <> Some (Ok c).
Proof.
  intros H1 H2. unfold ChainChoiceAfterAncestor. destruct chain1 as [|b1 chain1]; [done|]. destruct chain2 as [|b2 chain2]; [done|].
  generalize (S754_zero false) at 1 as w1. generalize (S754_zero false) as w2.
  induction fuel as [|fuel IH]; intros w2 w1; [done|]. cbn [choice_loop]. change (0 <? _)%nat with true. cbv iota.
  match goal with |- match ?x with _ => _ end <> _ => destruct x as [w1'| |] end; [|done|done].
  match goal with |- match ?x with _ => _ end <> _ => destruct x as [w2'| |] end; [apply IH|done|done].
Qed.
End Weights.
End ForkSpec.

(** * Examples *)
Module SubExample.
Import Composition Execution BlockSpec ChainSpec CommitSpec SchedulerExamples BlockCollector TxPool BlockInfoSub SubSpec.
#[local] Existing Instance RefStore.ref_store.
#[local] Existing Instance RefStore.ref_store_laws.
#[local] Existing Instance the_ledger.

(** The chunk of the sample transaction, and a head that announces it. *)
Definition chunk1 : BlockHeadChunk.t :=
  BlockHeadChunk.mk 1 (str "d") (str "l") 1 (root [hash (Wire.enc Transaction.desc _ Tx.sample_tx)]) [] [].

Definition announcing (height : Z) : BlockHead.t :=
  BlockHead.mk (str "1") 1 height 0 0 [] (str "p") [] [] 0 [] [] 1 [Wire.enc BlockHeadChunk.desc _ chunk1] [] [] 7 0 [] [] [].

Definition results1 : PackedTxsResult := mkPackedTxsResult 2 [] [result].

Lemma encodable_announcing : encodable hash (announcing 2) 0 result1 (packed 2) results1.
Proof.
  split; [wf|wf|apply List.Forall_cons; [exact Tx.sample_tx_well_formed|apply List.Forall_nil]
         |apply List.Forall_cons; [exact result_wf|apply List.Forall_nil]|wf..].
Qed.

Lemma announced1 : announced hash [] upd root DefChainConfiguration (announcing 2) 0 (packed 2) results1 chunk1.
Proof. split; [wf|reflexivity|vm_compute; reflexivity|cbn; unfold len; cbn; lia|reflexivity]. Qed.

(** An executor that has executed the version. *)
Definition follower (c : collector) : blockInfoSubProcessor (L := store) (S := store) (P := list bytes) (T := tree) :=
  mkSub (str "n") CompStateBuilderType_Full c (executed [entry1 2 0] 2) env2 ∅ ∅.

Lemma follower_receiving c : receiving (follower c) (announcing 2) 0 (UpdateCompSState (state1 2) CompSState_Executed) ∅ chain1.
Proof.
  pose proof committing1 as H. split.
  - exists block1, (block_at 1). split_and!; [reflexivity|reflexivity|cbn; lia].
  - exists (entry1 2 0). by split.
  - reflexivity.
  - apply H.
Qed.


(** The parts of height one that an archiver has collected. *)
Definition part (n : Z) : collectedBlockInfo :=
  mkCollected (Block.mk (Some (block_at 1)) (Some (BlockData.mk 1 [[z2b n]] [])) [])
    (BlockResult.mk None (Some (BlockResultData.mk 1 [[z2b n]] [])) []).

Lemma archiver_drops_assembled_witness : exists whole wholeRS bsp',
  chunks whole = [[z2b 5]; [z2b 6]] /\ Block.Head whole = Some (block_at 1)
  /\ Process keep_epoch commit_store ∅ (follower (Archiver [part 5; part 6]))
       (info_of (block_of (announcing 2) 0 (packed 2)) (result_of hash (announcing 2) 0 result1 (packed 2) results1)) = Ok (bsp', None)
  /\ e_events (s_env bsp') = [BlockAdded (block_of (announcing 2) 0 (packed 2))]
  /\ result_chunks wholeRS = [[z2b 5]; [z2b 6]].
Proof.
  destruct (archiver_drops_assembled (L := store) hash keep_epoch commit_store ∅
    (fun h cs w d c H => ex_intro _ w (ex_intro _ d (conj eq_refl H))) (fun st m H => ex_intro _ st (conj eq_refl H))
    (follower (Archiver [part 5; part 6])) (announcing 2) 0 result1 (packed 2) results1 0%nat _ ∅ chain1 (part 5) [part 6] (block_at 1)
    encodable_announcing (follower_receiving (Archiver [part 5; part 6])) eq_refl eq_refl)
    as (whole & wholeRS & bsp' & _ & H1 & H2 & H3 & H4 & _ & (cs' & d' & _ & _ & _ & H5)).
  - cbn. lia.
  - reflexivity.
  - repeat constructor; by eexists.
  - exists whole, wholeRS, bsp'. split; [exact H2|]. split; [exact H1|]. split; [exact H4|]. split; [exact H5|exact H3].
Defined.
End SubExample.
