(* ===== verification/DkgExchange.v ===== *)
(** The distributed generation of the consensus key (src/consensus/dkg.go,
    dkg_exchange.go): the generator around kyber's, the goroutines that
    exchange deals, responses and finish messages, each as the step it makes
    for one message, and the notification of the updaters.

    kyber is a class: its generator is changed by deals and responses. *)
From Stdlib Require Import ZArith Lia Strings.Byte.
From stdpp Require Import base gmap list strings sorting.
From S2P Require Import Prelude Common Backend Wire TxMessages ChainMessages ConsMessages TxBasic StateStore StateBase StateNode StateChain Composition RoleSelector EpochService MessageDeliver.
Import Util Types.
#[local] Open Scope Z_scope.

(** The errors of kyber that are told apart. *)
Inductive vss_error := ErrDealAlreadyProcessed | ErrNoDealBeforeResponse | ErrExistResponseOfSameOrigin | ErrOther.

#[export] Instance vss_error_eq_dec : EqDecision vss_error.
Proof. solve_decision. Defined.

(** What is used of kyber: [G] is the generator, whose methods change it. A
    map is the list of its entries in the order of the iteration.  [gen_PubKey]
    is the commitment of the public polynomial of the generator's share. *)
Class Kyber (Scalar Point G Deal Response : Type) := {
  StringHexToScalar : bytes -> option Scalar;
  StringHexToPoint : bytes -> option Point;
  PointToStringHex : Point -> bytes;
  NewDistKeyGenerator : Scalar -> list Point -> Z -> option G;
  GetParticipantPub : G -> Z -> option Point;
  GetDealVerifySignPub : G -> Z -> option Point;
  GetVerifierPubOfDealer : G -> Z -> option Point;
  gen_Deals : G -> G * option (list (Z * Deal));
  gen_ProcessDeal : G -> Deal -> G * (vss_error + Response);
  ExpectedDeals : G -> Z;
  ProcessResponse : G -> Response -> G * option vss_error;
  Certified : G -> bool;
  gen_PubKey : G -> option bytes;
  gen_PriShare : G -> option bytes;
  gen_PubShares : G -> Z -> option (list bytes);
  Deal_Index : Deal -> Z;
  Deal_MarshalMsg : Deal -> option bytes;
  Deal_UnmarshalMsg : bytes -> option Deal;
  Approval : Response -> bool;
  Response_MarshalMsg : Response -> option bytes;
  Response_UnmarshalMsg : bytes -> option Response;
}.

(** * dkg.go *)
Module Dkg.
Section Crypt.
Context {Scalar Point G Deal Response : Type} `{!Kyber Scalar Point G Deal Response}.

Record dkgCrypt := mkDkg {
  triggerNumber : Z;
  initPartPubKeys : list Point;
  threshold : Z;
  nParticipant : Z;
  remoteDeals : list Deal;
  remoteAdvanResp : list Response;
  remoteFinished : list DKGFinishedMessage.t;
  dkGenerator : G;
}.

Definition set_gen (d : dkgCrypt) (g : G) : dkgCrypt :=
  mkDkg (triggerNumber d) (initPartPubKeys d) (threshold d) (nParticipant d) (remoteDeals d) (remoteAdvanResp d) (remoteFinished d) g.

Definition add_deal (d : dkgCrypt) (deal : Deal) : dkgCrypt :=
  mkDkg (triggerNumber d) (initPartPubKeys d) (threshold d) (nParticipant d) (remoteDeals d ++ [deal]) (remoteAdvanResp d)
    (remoteFinished d) (dkGenerator d).

Definition add_finished (d : dkgCrypt) (m : DKGFinishedMessage.t) : dkgCrypt :=
  mkDkg (triggerNumber d) (initPartPubKeys d) (threshold d) (nParticipant d) (remoteDeals d) (remoteAdvanResp d)
    (remoteFinished d ++ [m]) (dkGenerator d).

(** [log.Panicf] panics. *)
Definition must {A} (r : option A) : go A := match r with Some a => Ok a | None => Panic end.

Definition newDKGCrypt (triggerNumber : Z) (initPrivKey : bytes) (initPartPubKeys : list bytes) (threshold nParticipant : Z) :
    go dkgCrypt :=
  if bool_decide (initPrivKey = [] \/ initPartPubKeys = []) then Panic
  else
    priKey ← must (StringHexToScalar initPrivKey);
    if negb (Z.of_nat (length initPartPubKeys) =? nParticipant) then Panic
    else
      initPartPubKeyP ← must (mapM StringHexToPoint initPartPubKeys);
      dGen ← must (NewDistKeyGenerator priKey initPartPubKeyP threshold);
      Ok (mkDkg triggerNumber initPartPubKeyP threshold nParticipant [] [] [] dGen).

Definition pubKey (d : dkgCrypt) (index : Z) : go bytes :=
  p ← must (GetParticipantPub (dkGenerator d) index); Ok (PointToStringHex p).

Definition dealSignVerifyPub (d : dkgCrypt) (dealIndex : Z) : go bytes :=
  p ← must (GetDealVerifySignPub (dkGenerator d) dealIndex); Ok (PointToStringHex p).

Definition getDeals (d : dkgCrypt) : dkgCrypt * option (list (Z * Deal)) :=
  let '(g, r) := gen_Deals (dkGenerator d) in (set_gen d g, r).

(** The texts that are compared; an error leaves nil. *)
Definition deal_bytes (deal : Deal) : bytes := default [] (Deal_MarshalMsg deal).

Definition resp_bytes (resp : Response) : bytes := default [] (Response_MarshalMsg resp).

Definition addAdvanceResp (d : dkgCrypt) (resp : Response) : dkgCrypt :=
  if existsb (fun res => bool_decide (resp_bytes res = resp_bytes resp)) (remoteAdvanResp d) then d
  else mkDkg (triggerNumber d) (initPartPubKeys d) (threshold d) (nParticipant d) (remoteDeals d) (remoteAdvanResp d ++ [resp])
         (remoteFinished d) (dkGenerator d).

Definition processResp (d : dkgCrypt) (resp : Response) : dkgCrypt * option vss_error :=
  let '(g, e) := ProcessResponse (dkGenerator d) resp in (set_gen d g, e).

(** The responses that came before their deals; another error ends the loop. *)
Fixpoint advance_loop (l : list Response) (g : G) : G :=
  match l with
  | [] => g
  | resp :: l =>
      match ProcessResponse g resp with
      | (g, None) | (g, Some ErrExistResponseOfSameOrigin) => advance_loop l g
      | (g, Some _) => g
      end
  end.

Definition processAdvanceResp (d : dkgCrypt) : dkgCrypt := set_gen d (advance_loop (remoteAdvanResp d) (dkGenerator d)).

Definition Finished (d : dkgCrypt) : bool := Certified (dkGenerator d).

Definition PubKey (d : dkgCrypt) : option bytes := gen_PubKey (dkGenerator d).

Definition PriShare (d : dkgCrypt) : option bytes := gen_PriShare (dkGenerator d).

Definition PubShares (d : dkgCrypt) : option (list bytes) := gen_PubShares (dkGenerator d) (nParticipant d).

(** The error of a deal: that of the library, or that it has been received. *)
Inductive deal_error := EVss (e : vss_error) | ESameDeal (index : Z).

(** [processDeal] up to the callback; the flag says whether it is made. *)
Definition processDeal (d : dkgCrypt) (deal : Deal) : dkgCrypt * bool * (deal_error + Response) :=
  if existsb (fun dl => bool_decide (deal_bytes dl = deal_bytes deal)) (remoteDeals d) then (d, false, inl (ESameDeal (Deal_Index deal)))
  else
    let d := add_deal d deal in
    let '(g, r) := gen_ProcessDeal (dkGenerator d) deal in
    let d := set_gen d g in
    let r := match r with inl e => inl (EVss e) | inr r => inr r end in
    if ExpectedDeals g =? nParticipant d - 1 then
      let d := processAdvanceResp d in (d, Finished d, r)
    else (d, false, r).
End Crypt.
Arguments dkgCrypt : clear implicits.
End Dkg.

(** * dkg_exchange.go *)
Module Exchange.
Import Dkg Deliver DeliverDKG.

Inductive DKGExchangeState :=
| DKGExchangeState_Unknown
| DKGExchangeState_IDLE
| DKGExchangeState_Exchanging_PartPubKey
| DKGExchangeState_Exchanging_Deal
| DKGExchangeState_Finished.

#[export] Instance DKGExchangeState_eq_dec : EqDecision DKGExchangeState.
Proof. solve_decision. Defined.

Definition DKGExchangeState_String (s : DKGExchangeState) : bytes :=
  match s with
  | DKGExchangeState_IDLE => str "Idle"
  | DKGExchangeState_Exchanging_PartPubKey => str "ExchangingPartPubKey"
  | DKGExchangeState_Exchanging_Deal => str "ExchangingDeal"
  | DKGExchangeState_Finished => str "Finished"
  | DKGExchangeState_Unknown => str "Unknown"
  end.

Definition DKGExchangeState_Value (s : bytes) : DKGExchangeState :=
  if decide (s = str "Idle") then DKGExchangeState_IDLE
  else if decide (s = str "ExchangingPartPubKey") then DKGExchangeState_Exchanging_PartPubKey
  else if decide (s = str "ExchangingDeal") then DKGExchangeState_Exchanging_Deal
  else if decide (s = str "Finished") then DKGExchangeState_Finished
  else DKGExchangeState_Unknown.

Section Exchange.
Context {Scalar Point G Deal Response : Type} `{!Kyber Scalar Point G Deal Response}.
Context {L S K U : Type} `{!IStateStore S, !ILedger L S}.
Variables (Sign : K -> bytes -> option bytes) (ConvertToPublic : K -> option bytes) (Send : send -> bool).

Abbreviation crypt := (dkgCrypt Point G Deal Response).

(** The exchange with what is around it: the ledger and the caches that the
    delivery of deals reads, the messages sent, the notifications made, the
    number of goroutines that wait for deals, responses and finish messages,
    and whether a goroutine that waits for ever holds the lock of the deals.
    [finishedCh] is the number of values in the channel of capacity one, from
    which nothing receives. *)
Record dkgExchange := mkExchange {
  chainID : bytes;
  nodeID : bytes;
  startCh : list Z;
  finishedCh : Z;
  initDKGPrivKey : bytes;
  initDKGPartPubKeys : option (gmap bytes bytes);
  dkgState : DKGExchangeState;
  ex_crypt : option crypt;
  dkgBLSUpdaters : list U;
  ex_deliver : dkgMessageDeliver (K := K);
  ex_ledger : L;
  ex_world : world S;
  sent : list send;
  notified : list (U * crypt);
  deal_loops : nat;
  resp_loops : nat;
  finished_loops : nat;
  deals_locked : bool;
}.

Definition set_finishedCh (ex : dkgExchange) (n : Z) : dkgExchange :=
  mkExchange (chainID ex) (nodeID ex) (startCh ex) n (initDKGPrivKey ex) (initDKGPartPubKeys ex) (dkgState ex) (ex_crypt ex)
    (dkgBLSUpdaters ex) (ex_deliver ex) (ex_ledger ex) (ex_world ex) (sent ex) (notified ex) (deal_loops ex) (resp_loops ex)
    (finished_loops ex) (deals_locked ex).

Definition set_startCh (ex : dkgExchange) (l : list Z) : dkgExchange :=
  mkExchange (chainID ex) (nodeID ex) l (finishedCh ex) (initDKGPrivKey ex) (initDKGPartPubKeys ex) (dkgState ex) (ex_crypt ex)
    (dkgBLSUpdaters ex) (ex_deliver ex) (ex_ledger ex) (ex_world ex) (sent ex) (notified ex) (deal_loops ex) (resp_loops ex)
    (finished_loops ex) (deals_locked ex).

Definition updateDKGPrivKey (ex : dkgExchange) (dkgPriKey : bytes) : dkgExchange :=
  mkExchange (chainID ex) (nodeID ex) (startCh ex) (finishedCh ex) dkgPriKey (initDKGPartPubKeys ex) (dkgState ex) (ex_crypt ex)
    (dkgBLSUpdaters ex) (ex_deliver ex) (ex_ledger ex) (ex_world ex) (sent ex) (notified ex) (deal_loops ex) (resp_loops ex)
    (finished_loops ex) (deals_locked ex).

Definition updateDKGPartPubKeys (ex : dkgExchange) (keys : gmap bytes bytes) : dkgExchange :=
  mkExchange (chainID ex) (nodeID ex) (startCh ex) (finishedCh ex) (initDKGPrivKey ex) (Some keys) (dkgState ex) (ex_crypt ex)
    (dkgBLSUpdaters ex) (ex_deliver ex) (ex_ledger ex) (ex_world ex) (sent ex) (notified ex) (deal_loops ex) (resp_loops ex)
    (finished_loops ex) (deals_locked ex).

Definition updateDKGState (ex : dkgExchange) (st : DKGExchangeState) : dkgExchange :=
  mkExchange (chainID ex) (nodeID ex) (startCh ex) (finishedCh ex) (initDKGPrivKey ex) (initDKGPartPubKeys ex) st (ex_crypt ex)
    (dkgBLSUpdaters ex) (ex_deliver ex) (ex_ledger ex) (ex_world ex) (sent ex) (notified ex) (deal_loops ex) (resp_loops ex)
    (finished_loops ex) (deals_locked ex).

Definition setDKGCrypt (ex : dkgExchange) (d : crypt) : dkgExchange :=
  mkExchange (chainID ex) (nodeID ex) (startCh ex) (finishedCh ex) (initDKGPrivKey ex) (initDKGPartPubKeys ex) (dkgState ex) (Some d)
    (dkgBLSUpdaters ex) (ex_deliver ex) (ex_ledger ex) (ex_world ex) (sent ex) (notified ex) (deal_loops ex) (resp_loops ex)
    (finished_loops ex) (deals_locked ex).

Definition addDKGBLSUpdater (ex : dkgExchange) (u : U) : dkgExchange :=
  mkExchange (chainID ex) (nodeID ex) (startCh ex) (finishedCh ex) (initDKGPrivKey ex) (initDKGPartPubKeys ex) (dkgState ex) (ex_crypt ex)
    (dkgBLSUpdaters ex ++ [u]) (ex_deliver ex) (ex_ledger ex) (ex_world ex) (sent ex) (notified ex) (deal_loops ex) (resp_loops ex)
    (finished_loops ex) (deals_locked ex).

Definition set_deliver (ex : dkgExchange) (md : dkgMessageDeliver) : dkgExchange :=
  mkExchange (chainID ex) (nodeID ex) (startCh ex) (finishedCh ex) (initDKGPrivKey ex) (initDKGPartPubKeys ex) (dkgState ex) (ex_crypt ex)
    (dkgBLSUpdaters ex) md (ex_ledger ex) (ex_world ex) (sent ex) (notified ex) (deal_loops ex) (resp_loops ex)
    (finished_loops ex) (deals_locked ex).

(** After a delivery. *)
Definition add_sent (ex : dkgExchange) (l : L) (w : world S) (ss : list send) : dkgExchange :=
  mkExchange (chainID ex) (nodeID ex) (startCh ex) (finishedCh ex) (initDKGPrivKey ex) (initDKGPartPubKeys ex) (dkgState ex) (ex_crypt ex)
    (dkgBLSUpdaters ex) (ex_deliver ex) l w (sent ex ++ ss) (notified ex) (deal_loops ex) (resp_loops ex)
    (finished_loops ex) (deals_locked ex).

(** The goroutines that wait, and the lock of the deals. *)
Definition set_loops (ex : dkgExchange) (deals resps fins : nat) (locked : bool) : dkgExchange :=
  mkExchange (chainID ex) (nodeID ex) (startCh ex) (finishedCh ex) (initDKGPrivKey ex) (initDKGPartPubKeys ex) (dkgState ex) (ex_crypt ex)
    (dkgBLSUpdaters ex) (ex_deliver ex) (ex_ledger ex) (ex_world ex) (sent ex) (notified ex) deals resps fins locked.

(** [notifyUpdater]: every updater is given the crypt, in the order in which
    they have been added. *)
Definition notifyUpdater (ex : dkgExchange) (d : crypt) : dkgExchange :=
  mkExchange (chainID ex) (nodeID ex) (startCh ex) (finishedCh ex) (initDKGPrivKey ex) (initDKGPartPubKeys ex) (dkgState ex) (ex_crypt ex)
    (dkgBLSUpdaters ex) (ex_deliver ex) (ex_ledger ex) (ex_world ex) (sent ex) (notified ex ++ ((fun u => (u, d)) <$> dkgBLSUpdaters ex))
    (deal_loops ex) (resp_loops ex) (finished_loops ex) (deals_locked ex).

Definition newDKGExchange (chainID nodeID initDKGPrivKey : bytes) (md : dkgMessageDeliver) (l : L) (w : world S) : dkgExchange :=
  mkExchange chainID nodeID [] 0 initDKGPrivKey None DKGExchangeState_IDLE None [] md l w [] [] 0 0 0 false.

Definition bytes_le_sort (l : list bytes) : list bytes := merge_sort bytes_le l.

(** The type assertion of a value that has not been stored panics. *)
Definition getDKGPartPubKeys (ex : dkgExchange) : go (list bytes) :=
  keys ← must (initDKGPartPubKeys ex); Ok (bytes_le_sort (snd <$> map_to_list (K := bytes) (A := bytes) keys)).

Definition initWhenStart (ex : dkgExchange) (triggerNumber : Z) : go dkgExchange :=
  dkgPartPubKeys ← getDKGPartPubKeys ex;
  let nParticipant := Z.of_nat (length dkgPartPubKeys) in
  d ← newDKGCrypt triggerNumber (initDKGPrivKey ex) dkgPartPubKeys (2 * nParticipant / 3 + 1) nParticipant;
  Ok (setDKGCrypt ex d).

(** The channel has room for one number: with another one in it the caller
    waits, which the flag says. *)
Definition start (ex : dkgExchange) (triggerNumber : Z) : dkgExchange * bool :=
  match startCh ex with
  | [] => (set_loops (set_startCh ex [triggerNumber]) (Datatypes.S (deal_loops ex)) (Datatypes.S (resp_loops ex))
             (Datatypes.S (finished_loops ex)) (deals_locked ex), false)
  | _ => (ex, true)
  end.

(** A node with the key; the map is searched in the order of the iteration. *)
Definition getNodeIDByDKGPartPubKey (ex : dkgExchange) (dkgPartPubKey : bytes) : go bytes :=
  keys ← must (initDKGPartPubKeys ex);
  Ok (match List.find (fun kv => bool_decide (kv.2 = dkgPartPubKey)) (map_to_list (K := bytes) (A := bytes) keys) with
      | Some (id, _) => id
      | None => []
      end).

(** *** startSendDealLoop *)

(** One deal to its participant.  The texts of the log ask for the keys of the
    dealer and of the deal. *)
Definition send_deal (ex : dkgExchange) (d : crypt) (i : Z) (deal : Deal) : go dkgExchange :=
  let dealMsg := DKGDealMessage.mk (chainID ex) CONSENSUS_VER (triggerNumber d) [] [] (deal_bytes deal) [] in
  pk ← pubKey d (u32 i);
  destNodeID ← getNodeIDByDKGPartPubKey ex pk;
  if bool_decide (destNodeID = []) then Panic
  else
    _ ← must (GetVerifierPubOfDealer (dkGenerator d) i);
    _ ← dealSignVerifyPub d (Deal_Index deal);
    '(l, w, ss, err) ← deliverDKGDealMessage Sign ConvertToPublic Send (ex_deliver ex) destNodeID dealMsg (ex_ledger ex) (ex_world ex);
    match err with
    | Some _ => Panic
    | None => Ok (add_sent ex l w ss)
    end.

Fixpoint send_deals (ex : dkgExchange) (d : crypt) (deals : list (Z * Deal)) : go dkgExchange :=
  match deals with
  | [] => Ok ex
  | (i, deal) :: deals => ex ← send_deal ex d i deal; send_deals ex d deals
  end.

Definition on_start (ex : dkgExchange) (number : Z) : go dkgExchange :=
  d ← must (ex_crypt ex);
  if negb (triggerNumber d =? number) then Panic
  else
    let '(d, deals) := getDeals d in
    deals ← must deals;
    ex ← send_deals (setDKGCrypt ex d) d deals;
    Ok (updateDKGState ex DKGExchangeState_Exchanging_Deal).

(** *** callBackWhenFinished *)

(** The flag says that the goroutine waits for room in [finishedCh], for
    ever. *)
Definition callBackWhenFinished (ex : dkgExchange) (d : crypt) : go (dkgExchange * bool) :=
  let ex := updateDKGState ex DKGExchangeState_Finished in
  if finishedCh ex >=? 1 then Ok (ex, true)
  else
    let ex := set_finishedCh ex (finishedCh ex + 1) in
    pubPolicyComm ← must (PubKey d);
    let finishedMsg := DKGFinishedMessage.mk (chainID ex) CONSENSUS_VER (triggerNumber d) [] [] (nodeID ex) pubPolicyComm [] in
    '(ss, err) ← deliverDKGFinishedMessage Sign ConvertToPublic Send (ex_deliver ex) finishedMsg;
    match err with
    | Some _ => Panic
    | None =>
        let ex := add_sent ex (ex_ledger ex) (ex_world ex) ss in
        if Z.of_nat (length (remoteFinished d)) <? nParticipant d - 1 then Ok (ex, false)
        else if forallb (fun m => bool_decide (DKGFinishedMessage.PubPolyCommit m = pubPolicyComm)) (remoteFinished d) then
          Ok (notifyUpdater (updateDKGState ex DKGExchangeState_IDLE) d, false)
        else Panic
    end.

(** *** startReceiveDealLoop *)

(** A goroutine whose callback waits keeps the lock of the deals; one that
    finds it held waits as well. *)
Definition on_deal (ex : dkgExchange) (dealMsg : DKGDealMessage.t) : go dkgExchange :=
  deal ← must (Deal_UnmarshalMsg (DKGDealMessage.DealData dealMsg));
  d ← must (ex_crypt ex);
  if deals_locked ex then Ok (set_loops ex (pred (deal_loops ex)) (resp_loops ex) (finished_loops ex) true)
  else
    let '(d, finished, r) := processDeal d deal in
    let ex := setDKGCrypt ex d in
    '(ex, waits) ← (if (finished : bool) then callBackWhenFinished ex d else Ok (ex, false));
    if (waits : bool) then Ok (set_loops ex (pred (deal_loops ex)) (resp_loops ex) (finished_loops ex) true)
    else
      match r with
      | inl (EVss ErrDealAlreadyProcessed) => _ ← dealSignVerifyPub d (Deal_Index deal); Ok ex
      | inl _ => Panic
      | inr dealResp =>
          _ ← dealSignVerifyPub d (Deal_Index deal);
          if negb (Approval dealResp) then Panic
          else
            dealRespBytes ← must (Response_MarshalMsg dealResp);
            '(ss, err) ← deliverDKGDealRespMessage Sign ConvertToPublic Send (ex_deliver ex)
                           (DKGDealRespMessage.mk (chainID ex) CONSENSUS_VER (triggerNumber d) [] [] dealRespBytes []);
            match err with
            | Some _ => Panic
            | None => Ok (add_sent ex (ex_ledger ex) (ex_world ex) ss)
            end
      end.

(** *** startReceiveDealRespLoop *)

Definition on_resp (ex : dkgExchange) (dealRespMsg : DKGDealRespMessage.t) : go dkgExchange :=
  resp ← must (Response_UnmarshalMsg (DKGDealRespMessage.RespData dealRespMsg));
  d ← must (ex_crypt ex);
  let '(d, err) := processResp d resp in
  d ← match err with
      | None | Some ErrExistResponseOfSameOrigin => Ok d
      | Some ErrNoDealBeforeResponse => Ok (addAdvanceResp d resp)
      | Some _ => Panic
      end;
  let ex := setDKGCrypt ex d in
  if Finished d then
    '(ex, waits) ← callBackWhenFinished ex d;
    Ok (if (waits : bool) then set_loops ex (deal_loops ex) (pred (resp_loops ex)) (finished_loops ex) (deals_locked ex) else ex)
  else Ok ex.

(** *** startReceiveFinishedMsg *)

(** The messages that have come before the node has finished are counted and
    not compared. *)
Definition on_finished (ex : dkgExchange) (finishedMsg : DKGFinishedMessage.t) : go dkgExchange :=
  d ← must (ex_crypt ex);
  if negb (Finished d) then Ok (setDKGCrypt ex (add_finished d finishedMsg))
  else
    match PubKey d with
    | None => Ok ex
    | Some selfPubPolicyCommt =>
        if bool_decide (selfPubPolicyCommt <> DKGFinishedMessage.PubPolyCommit finishedMsg) then Ok ex
        else
          let d := add_finished d finishedMsg in
          let ex := setDKGCrypt ex d in
          if Z.of_nat (length (remoteFinished d)) >=? nParticipant d - 1 then
            Ok (notifyUpdater (updateDKGState ex DKGExchangeState_IDLE) d)
          else Ok ex
    end.

(** A step of one of the goroutines; a goroutine that waits for ever takes no
    message any more. *)
Inductive step : dkgExchange -> dkgExchange -> Prop :=
| step_start ex n ex' : startCh ex = [n] -> on_start (set_startCh ex []) n = Ok ex' -> step ex ex'
| step_deal ex m ex' : (0 < deal_loops ex)%nat -> on_deal ex m = Ok ex' -> step ex ex'
| step_resp ex m ex' : (0 < resp_loops ex)%nat -> on_resp ex m = Ok ex' -> step ex ex'
| step_finished ex m ex' : (0 < finished_loops ex)%nat -> on_finished ex m = Ok ex' -> step ex ex'.
End Exchange.
End Exchange.
