(* ===== verification/DomainConsensus.v ===== *)
(** The consensus domain service (src/consensus/domain_consensus.go): the choice
    of the candidate nodes of a domain, the trigger of the key generation by a
    new block, and the domain that is saved when it has finished. *)
From Stdlib Require Import ZArith Lia Strings.Byte.
From Stdlib Require Import Floats.SpecFloat.
From stdpp Require Import base gmap list strings sorting.
From S2P Require Import Prelude Common Backend Wire TxMessages ChainMessages ConsMessages TxBasic StateStore StateBase StateNode StateChain Account Composition Scheduler RoleSelector EpochService MessageDeliver Servant Universal BlockSub DkgExchange.
Import Util Types.
#[local] Open Scope Z_scope.

Module DomainConsensus.
Import Dkg Exchange DeliverDKG RoleSelectorVRF BlockCollector.

Definition ConsensusDomain_MinProposer : Z := 3.
Definition ConsensusDomain_MaxProposer : Z := 30.
Definition ConsensusDomain_MinValidator : Z := 4.
Definition ConsensusDomain_MaxValidator : Z := 70.
Definition ConsensusDomain_MaxDomainOfEachNode : Z := 5.
Definition ConsensusDomain_TriggerTimesOfEachEpoch : Z := 1.

(** The constants 0.3 and 1.0 - 0.3 as numbers of the type. *)
Definition ConsensusDomain_ProposerRadio : float64 := ForkChoice.rat_Float64 3 10.
Definition validator_radio : float64 := ForkChoice.rat_Float64 7 10.

Inductive domain_error :=
| EProposers (count : Z)
| EValidators (count : Z)
| EStateRead (e : state_error)
| ESelect (e : select_error).

(** [math.Ceil] of a finite number, as an [int]. *)
Definition float_ceil (f : float64) : Z :=
  match f with
  | S754_finite s m e =>
      let z := if s then Z.neg m else Z.pos m in
      if 0 <=? e then z * 2 ^ e else - ((- z) / 2 ^ (- e))
  | _ => 0
  end.

(** ** Candidates *)

(** Whether the node has joined at most the maximal number of domains; the
    count is tested after each domain. *)
Fixpoint joinable (nodeID : bytes) (nodeDomains : list NodeDomainInfo) (joinedDomainCnt : Z) : go bool :=
  match nodeDomains with
  | [] => Ok true
  | ndInfo :: nodeDomains =>
      data ← deref (nd_CSDomainData ndInfo);
      ids ← NodeIDs (default [] (ncd_Members data));
      let joinedDomainCnt := if (IsContainString nodeID ids).1 then joinedDomainCnt + 1 else joinedDomainCnt in
      if joinedDomainCnt >? ConsensusDomain_MaxDomainOfEachNode then Ok false
      else joinable nodeID nodeDomains joinedDomainCnt
  end.

Fixpoint removeInvalidActiveNodes (activeNodes : list NodeInfo) (nodeDomains : list NodeDomainInfo) : go (list NodeInfo) :=
  match activeNodes with
  | [] => Ok []
  | nodeInfo :: activeNodes =>
      isValid ← joinable (NodeID nodeInfo) nodeDomains 0;
      good ← removeInvalidActiveNodes activeNodes nodeDomains;
      Ok (if (isValid : bool) then nodeInfo :: good else good)
  end.

Section Service.
Context {Scalar Point G Deal Response : Type} `{!Kyber Scalar Point G Deal Response}.
Context {L S K : Type} `{!IStateStore S, !ILedger L S}.
Variable blake2b : bytes -> bytes.

(** [SelectExpectedNodes] of the selector; the epoch is dereferenced. *)
Definition select (epochInfo : option EpochInfo) (blk : Block.t) (nodes : list NodeInfo) (count : Z) : go (domain_error + list NodeInfo) :=
  e ← deref epochInfo;
  r ← SelectExpectedNodes blake2b e blk nodes (Z.to_nat count);
  Ok (match r with inl err => inl (ESelect err) | inr l => inr l end).

Definition count_of (l : list NodeInfo) : Z := Z.of_nat (length l).

(** The two lists once they are long enough: longer ones are cut, the
    validators to the maximum of the proposers, and then one of them once more
    by the ratio. *)
Definition adjust (epochInfo : option EpochInfo) (blk : Block.t) (props vals : list NodeInfo) (propCnt valCnt : Z) :
    go (domain_error + (list NodeInfo * list NodeInfo)) :=
  let pvRadio := SFdiv 53 1024 (Gas.float_of_uint propCnt) (Gas.float_of_uint valCnt) in
  if SFltb ConsensusDomain_ProposerRadio pvRadio && (propCnt >? ConsensusDomain_MinProposer) then
    let cnt := float_ceil (SFmul 53 1024 ConsensusDomain_ProposerRadio (Gas.float_of_uint valCnt)) in
    let cnt := if cnt <? ConsensusDomain_MinProposer then ConsensusDomain_MinProposer else cnt in
    r ← select epochInfo blk props cnt;
    Ok (match r with inl e => inl e | inr props => inr (props, vals) end)
  else if SFltb pvRadio ConsensusDomain_ProposerRadio && (valCnt >? ConsensusDomain_MinValidator) then
    let cnt := float_ceil (SFmul 53 1024 validator_radio (Gas.float_of_uint valCnt)) in
    let cnt := if cnt <? ConsensusDomain_MinValidator then ConsensusDomain_MinValidator else cnt in
    r ← select epochInfo blk vals cnt;
    Ok (match r with inl e => inl e | inr vals => inr (props, vals) end)
  else Ok (inr (props, vals)).

(** A list above its maximum is drawn from; [cut] is the number drawn. *)
Definition cut_nodes (epochInfo : option EpochInfo) (blk : Block.t) (nodes : list NodeInfo) (max cut : Z) :
    go (domain_error + (list NodeInfo * Z)) :=
  if count_of nodes >? max then
    r ← select epochInfo blk nodes cut;
    Ok (match r with inl e => inl e | inr nodes => inr (nodes, cut) end)
  else Ok (inr (nodes, count_of nodes)).

(** The part of [getJoinableConsensusCandidateNodes] after the reads. *)
Definition choose_candidates (epochInfo : option EpochInfo) (blk : Block.t) (activeProposers activeValidators : list NodeInfo)
    (nodeDomains : list NodeDomainInfo) : go (domain_error + (list NodeInfo * list NodeInfo)) :=
  props ← removeInvalidActiveNodes activeProposers nodeDomains;
  if count_of props <? ConsensusDomain_MinProposer then Ok (inl (EProposers (count_of activeProposers)))
  else
    r ← cut_nodes epochInfo blk props ConsensusDomain_MaxProposer ConsensusDomain_MaxProposer;
    match r with
    | inl e => Ok (inl e)
    | inr (props, propCnt) =>
        vals ← removeInvalidActiveNodes activeValidators nodeDomains;
        if count_of vals <? ConsensusDomain_MinValidator then Ok (inl (EValidators (count_of activeValidators)))
        else
          r ← cut_nodes epochInfo blk vals ConsensusDomain_MaxValidator ConsensusDomain_MaxProposer;
          match r with
          | inl e => Ok (inl e)
          | inr (vals, valCnt) => adjust epochInfo blk props vals propCnt valCnt
          end
    end.

(** A read of the state in a sequence of tests. *)
Definition reading_state {A B} (c : cmd (world S) state_error A) (f : A -> world S -> go (world S * (domain_error + B))) :
    world S -> go (world S * (domain_error + B)) := fun w =>
  '(w, r) ← c w;
  match r with inl e => Ok (w, inl (EStateRead e)) | inr a => f a w end.

Definition getJoinableConsensusCandidateNodes (blk : Block.t) (l : L) (w : world S) :
    go (L * world S * (domain_error + (list NodeInfo * list NodeInfo))) :=
  '(l, compStateRN) ← Composition.CreateCompositionStateReadonly l;
  '(w', r) ← reading_state Epoch.GetLatestEpoch (fun epochInfo =>
    reading_state (on_store (Node.GetAll Node.proposer)) (fun activeProposers =>
      if count_of activeProposers <? ConsensusDomain_MinProposer then fun w => Ok (w, inl (EProposers (count_of activeProposers)))
      else
        reading_state (on_store (Node.GetAll Node.validator)) (fun activeValidators =>
          if count_of activeValidators <? ConsensusDomain_MinValidator then fun w => Ok (w, inl (EValidators (count_of activeValidators)))
          else fun w =>
            head ← deref (Block.Head blk);
            reading_state (on_store (Domain.GetAllActiveNodeConsensusDomains (BlockHead.Height head))) (fun nodeDomains w =>
              r ← choose_candidates epochInfo blk activeProposers activeValidators nodeDomains; Ok (w, r)) w)))
    (mkWorld (Composition.cs_store compStateRN) (w_ledger w) (latestBlockMap w) (latestBlockRSMap w) (latestEpochMap w));
  Ok (l, mkWorld (w_store w) (w_ledger w') (latestBlockMap w') (latestBlockRSMap w') (latestEpochMap w'), r).

(** ** A new block *)

(** The updaters of the exchange are services; there is one of each node, so
    that [tt] names it. *)
Abbreviation exchange := (dkgExchange (Point := Point) (G := G) (Deal := Deal) (Response := Response) (L := L) (S := S) (K := K) (U := unit)).

Record domainConsensusService := mkService {
  ds_nodeID : bytes;
  BlocksPerEpoch : Z;
  lastBlock : option Block.t;
  ds_triggerNumber : Z;
  triggerBlock : option Block.t;
  selfSelected : bool;
  candidateNodes : gmap bytes NodeDomainMember;
  dkgEx : exchange;
}.

Definition set_lastBlock (ds : domainConsensusService) (b : Block.t) : domainConsensusService :=
  mkService (ds_nodeID ds) (BlocksPerEpoch ds) (Some b) (ds_triggerNumber ds) (triggerBlock ds) (selfSelected ds) (candidateNodes ds) (dkgEx ds).

Definition set_trigger (ds : domainConsensusService) (n : Z) (b : Block.t) : domainConsensusService :=
  mkService (ds_nodeID ds) (BlocksPerEpoch ds) (lastBlock ds) n (Some b) (selfSelected ds) (candidateNodes ds) (dkgEx ds).

Definition set_candidates (ds : domainConsensusService) (self : bool) (nodes : gmap bytes NodeDomainMember) : domainConsensusService :=
  mkService (ds_nodeID ds) (BlocksPerEpoch ds) (lastBlock ds) (ds_triggerNumber ds) (triggerBlock ds) self nodes (dkgEx ds).

Definition set_exchange (ds : domainConsensusService) (ex : exchange) : domainConsensusService :=
  mkService (ds_nodeID ds) (BlocksPerEpoch ds) (lastBlock ds) (ds_triggerNumber ds) (triggerBlock ds) (selfSelected ds) (candidateNodes ds) ex.

(** The ids of the other nodes of a list. *)
Definition others (nodeID : bytes) (nodes : list NodeInfo) : list bytes :=
  filter (fun id => id <> nodeID) (NodeID <$> nodes).

(** The members by their ids; validators are written after proposers. *)
Definition members (props vals : list NodeInfo) : gmap bytes NodeDomainMember :=
  foldl (fun m n => <[NodeID n := mkNodeDomainMember (NodeID n) NodeRole_Validator (Weight n)]> m)
    (foldl (fun m n => <[NodeID n := mkNodeDomainMember (NodeID n) NodeRole_Proposer (Weight n)]> m) ∅ props) vals.

Definition part_keys (nodes : list NodeInfo) : gmap bytes bytes :=
  foldl (fun m n => <[NodeID n := DKGPartPubKey n]> m) ∅ nodes.

(** The number of the trigger that a height belongs to; a span of zero
    panics. *)
Definition trigger_number (blocksPerEpoch height : Z) : go Z :=
  let tSpan := blocksPerEpoch / ConsensusDomain_TriggerTimesOfEachEpoch in
  if tSpan =? 0 then Panic else Ok (u64 (height / tSpan * tSpan + 1)).

(** One block in [collectConsensusCandidateNodeStart].  The flag says that the
    goroutine waits in [start].  [selfSelected] is never reset. *)
Definition on_block (ds : domainConsensusService) (newBlock : Block.t) : go (domainConsensusService * bool) :=
  head ← deref (Block.Head newBlock);
  let ds := set_lastBlock ds newBlock in
  if bool_decide (dkgState (dkgEx ds) <> DKGExchangeState_IDLE) then Ok (ds, false)
  else
    tNumber ← trigger_number (BlocksPerEpoch ds) (BlockHead.Height head);
    if tNumber =? ds_triggerNumber ds then Ok (ds, false)
    else
      let ds := set_trigger ds tNumber newBlock in
      '(l, w, r) ← getJoinableConsensusCandidateNodes newBlock (ex_ledger (dkgEx ds)) (ex_world (dkgEx ds));
      let ds := set_exchange ds (add_sent (dkgEx ds) l w []) in
      match r with
      | inl _ => Ok (ds, false)
      | inr (props, vals) =>
          let self := selfSelected ds || bool_decide (ds_nodeID ds ∈ NodeID <$> props ++ vals) in
          let ds := set_candidates ds self (members props vals) in
          if self then
            let ex := updateDKGPartPubKeys (dkgEx ds) (part_keys (props ++ vals)) in
            let ex := set_deliver ex (updateCandNodeIDs (ex_deliver ex) (others (ds_nodeID ds) props) (others (ds_nodeID ds) vals)) in
            ex ← initWhenStart ex tNumber;
            let '(ex, waits) := start (addDKGBLSUpdater ex tt) tNumber in
            Ok (set_exchange ds ex, waits)
          else Ok (ds, false)
      end.

(** ** The domain *)

(** [sha256.Sum256], and the bytes that [math/rand] reads from a source with a
    seed. *)
Variables (sha256 : bytes -> bytes) (rand_Read : Z -> nat -> bytes).

(** [CreateDomainID] of a seed that is not empty. *)
Definition CreateDomainID (seed : bytes) : bytes :=
  let seedNumber := i64 (foldl (fun acc x => acc * 256 + b2z x) 0 (take 8 (sha256 seed))) in
  Tx.hex_EncodeToString (rand_Read seedNumber 10).

(** The domain that is saved; the members are in the order of the iteration of
    the map. *)
Definition produced_domain (ds : domainConsensusService) (threshold : Z) (pubKey : option bytes) (pubShares : option (list bytes)) :
    go NodeDomainInfo :=
  b ← deref (triggerBlock ds);
  bHash ← BlockOps.BlockHash blake2b b;
  validStart ← (if ds_triggerNumber ds =? 1 then head ← deref (Block.Head b); Ok (u64 (BlockHead.Height head + 1)) else Ok 0);
  let validEnd := u64 (validStart + 50 * EpochSpan) in
  let nodes := snd <$> map_to_list (K := bytes) (A := NodeDomainMember) (candidateNodes ds) in
  Ok (mkNodeDomainInfo (CreateDomainID bHash) DomainType_Consensus validStart validEnd
        (Some (mkNodeConsensusDomain threshold (Z.of_nat (length nodes)) pubKey (option_map (fmap Some) pubShares) (Some (Some <$> nodes)))) None).

(** [updateDKGBls] and [ProduceAndSaveNodeDomain] on the composition state that
    they have been given: the errors of both writes are dropped. *)
Definition save_domain (ds : domainConsensusService) (d : dkgCrypt Point G Deal Response) : S -> go S := fun s =>
  ndInfo ← produced_domain ds (threshold d) (PubKey d) (PubShares d);
  s ← match PriShare d with
      | None => Ok s
      | Some priShare => '(s, _) ← Node.UpdateDKGPriShare (ds_nodeID ds) (Some priShare) s; Ok s
      end;
  '(s, _) ← Domain.AddNodeDomain (Some ndInfo) s;
  Ok s.

(** ** The composition state for it *)
Section Site.
Context {P T : Type}.

(** The composition state of a version: that of the executed list or of the
    pool, or a new one.  [None] when the search of the executed versions has
    not ended within [fuel] rounds. *)
Definition getRequiredCompositionState (full : bool) (fuel : nat) (s : Execution.executionScheduler (T := T))
    (e : Execution.env (L := L) (S := S) (P := P)) (p : Builder.process L S) (nodeID : bytes) (version : Z) :
    option (go (Builder.process L S * option nat)) :=
  match (if full then Execution.CompositionStateAtVersion fuel s e version
         else Some (Builder.simple_CompositionStateAtVersion p nodeID version)) with
  | None => None
  | Some (Some r) => Some (Ok (p, Some r))
  | Some None =>
      Some (if full then Builder.full_CreateCompositionState p nodeID version else Builder.simple_CreateCompositionState p nodeID version)
  end.

(** The process has the heap of [e]; a nil state panics. *)
Definition ProduceAndSaveNodeDomain (full : bool) (fuel : nat) (s : Execution.executionScheduler (T := T))
    (e : Execution.env (L := L) (S := S) (P := P)) (p : Builder.process L S) (ds : domainConsensusService)
    (d : dkgCrypt Point G Deal Response) : option (go (Builder.process L S)) :=
  match lastBlock ds with
  | Some (Block.mk (Some head) _ _) =>
      match getRequiredCompositionState full fuel s e p (ds_nodeID ds) (u64 (BlockHead.Height head + 1)) with
      | None => None
      | Some r => Some (
          '(p, r) ← r;
          r ← deref r;
          cs ← deref (Builder.heap p !! r);
          st ← save_domain ds d (Composition.cs_store cs);
          Ok (Builder.mkProcess (Builder.p_ledger p)
                (alter (fun cs => Composition.mkComp st (Composition.cs_chain cs) (Composition.cs_epoch cs) (Composition.stateVersion cs)
                          (Composition.state cs)) r (Builder.heap p))
                (Builder.full p) (Builder.simple p)))
      end
  | _ => Some Panic
  end.
End Site.

Definition ContainedInCandidateNodes (ds : domainConsensusService) (nodeID : bytes) : bool :=
  existsb (fun kv => bool_decide (ndm_NodeID kv.2 = nodeID)) (map_to_list (K := bytes) (A := NodeDomainMember) (candidateNodes ds)).

Definition CandidateNodesNumber (ds : domainConsensusService) : Z := Z.of_nat (size (candidateNodes ds)).
End Service.
End DomainConsensus.
