(* ===== verification/DkgSpec.v ===== *)
(** Correctness of the generation of the consensus key and of the domains made
    with it: when the updaters are notified, what becomes of a deal that comes
    twice and of a response that comes after the end, the sizes of the lists of
    candidates, and how long a domain is valid. *)
From Stdlib Require Import ZArith Lia Strings.Byte.
From Stdlib Require Import Floats.SpecFloat.
From stdpp Require Import base gmap list strings sorting.
From S2P Require Import Prelude Common Backend Wire TxMessages ChainMessages ConsMessages TxBasic StateStore StateBase StateNode StateChain StateChainSpec Account Composition Scheduler SchedulerSpec RoleSelector RoleSelectorSpec EpochService MessageDeliver Servant Universal BlockSub DkgExchange DomainConsensus.
Import Util Types.
#[local] Open Scope Z_scope.

(** * The exchange *)
Module ExchangeSpec.
Import Dkg Deliver DeliverDKG Exchange.

Lemma kyber_Ok {A} (r : option A) a : Dkg.must r = Ok a -> r = Some a.
Proof. destruct r; naive_solver. Qed.

Section Spec.
Context {Scalar Point G Deal Response : Type} `{!Kyber Scalar Point G Deal Response}.
Context {L S K U : Type} `{!IStateStore S, !ILedger L S}.
Variables (Sign : K -> bytes -> option bytes) (ConvertToPublic : K -> option bytes) (Send : send -> bool).

Abbreviation exchange := (dkgExchange (Point := Point) (G := G) (Deal := Deal) (Response := Response) (L := L) (S := S) (K := K) (U := U)).
Abbreviation crypt := (dkgCrypt Point G Deal Response).
Abbreviation run := (rtc (step (L := L) (S := S) (U := U) Sign ConvertToPublic Send)).

(** ** What the handlers do to the fields that matter *)

(** The fields that one handler leaves alone when it sends. *)
Lemma send_deals_frame (ex : exchange) d deals ex' : send_deals Sign ConvertToPublic Send ex d deals = Ok ex' ->
  exists l w ss, ex' = add_sent ex l w ss.
Proof.
  revert ex. induction deals as [|[i deal] deals IH]; intros ex H; cbn [send_deals] in H.
  { injection H as <-. exists (ex_ledger ex), (ex_world ex), []. destruct ex. unfold add_sent. cbn. by rewrite app_nil_r. }
  apply outcome_bind_Ok in H as (ex1 & H1 & H). unfold send_deal in H1. apply outcome_bind_Ok in H1 as (pk & _ & H1).
  apply outcome_bind_Ok in H1 as (dest & _ & H1). case_bool_decide; [done|]. apply outcome_bind_Ok in H1 as (p & _ & H1).
  apply outcome_bind_Ok in H1 as (p' & _ & H1). apply outcome_bind_Ok in H1 as ([[[l w] ss] err] & _ & H1).
  destruct err; [done|]. injection H1 as <-. apply IH in H as (l' & w' & ss' & ->). exists l', w', (ss ++ ss'). destruct ex. unfold add_sent. cbn.
  by rewrite (assoc_L (++)).
Qed.

(** The outcome of the callback: it waits, or it passes the channel and, with
    enough finish messages, all of which agree, notifies. *)
Lemma callBack_cases (ex : exchange) d ex' waits : callBackWhenFinished Sign ConvertToPublic Send ex d = Ok (ex', waits) ->
  (1 <= finishedCh ex /\ waits = true /\ ex' = updateDKGState ex DKGExchangeState_Finished)
  \/ (finishedCh ex < 1 /\ waits = false /\ exists pk ss, PubKey d = Some pk
      /\ let ex1 := add_sent (set_finishedCh (updateDKGState ex DKGExchangeState_Finished) (finishedCh ex + 1)) (ex_ledger ex) (ex_world ex) ss in
         (Z.of_nat (length (remoteFinished d)) < nParticipant d - 1 /\ ex' = ex1
          \/ nParticipant d - 1 <= Z.of_nat (length (remoteFinished d))
             /\ Forall (fun m => DKGFinishedMessage.PubPolyCommit m = pk) (remoteFinished d)
             /\ ex' = notifyUpdater (updateDKGState ex1 DKGExchangeState_IDLE) d)).
Proof.
  unfold callBackWhenFinished. change (finishedCh (updateDKGState ex DKGExchangeState_Finished)) with (finishedCh ex).
  rewrite Z.geb_leb. destruct (Z.leb_spec 1 (finishedCh ex)) as [Hf|Hf]; [intros [= <- <-]; by left|].
  intros H. right. apply outcome_bind_Ok in H as (pk & Hpk & H). apply kyber_Ok in Hpk.
  apply outcome_bind_Ok in H as ([ss err] & _ & H). destruct err; [done|]. 
  destruct (Z.ltb_spec (Z.of_nat (length (remoteFinished d))) (nParticipant d - 1)) as [Hn|Hn].
  { injection H as <- <-. split; [done|]. split; [done|]. exists pk, ss. split; [done|]. by left. }
  destruct (forallb _ _) eqn:Ef; [|done]. injection H as <- <-. split; [done|]. split; [done|]. exists pk, ss. split; [done|]. right.
  split; [done|]. split; [|done]. apply Forall_forall. intros m Hm. rewrite forallb_forall in Ef.
  specialize (Ef m (proj1 (list_elem_of_In _ _) Hm)). by apply bool_decide_eq_true in Ef.
Qed.

Abbreviation called := (callBackWhenFinished (L := L) (S := S) (U := U) Sign ConvertToPublic Send).

(** The paths of [on_deal]. *)
Lemma on_deal_cases (ex ex' : exchange) m : on_deal Sign ConvertToPublic Send ex m = Ok ex' ->
  exists deal d d' finished r, Deal_UnmarshalMsg (DKGDealMessage.DealData m) = Some deal /\ ex_crypt ex = Some d
  /\ processDeal d deal = (d', finished, r)
  /\ (deals_locked ex = true /\ ex' = set_loops ex (pred (deal_loops ex)) (resp_loops ex) (finished_loops ex) true
      \/ deals_locked ex = false /\ (exists ex1, finished = true /\ called (setDKGCrypt ex d') d' = Ok (ex1, true)
            /\ ex' = set_loops ex1 (pred (deal_loops ex1)) (resp_loops ex1) (finished_loops ex1) true)
      \/ deals_locked ex = false /\ (exists ex1 ss, (finished = true /\ called (setDKGCrypt ex d') d' = Ok (ex1, false)
              \/ finished = false /\ ex1 = setDKGCrypt ex d')
            /\ (r = inl (EVss ErrDealAlreadyProcessed) /\ ex' = ex1
                \/ (exists resp, r = inr resp) /\ ex' = add_sent ex1 (ex_ledger ex1) (ex_world ex1) ss))).
Proof.
  intros H. unfold on_deal in H. apply outcome_bind_Ok in H as (deal & Hd & H). apply kyber_Ok in Hd.
  apply outcome_bind_Ok in H as (d & Hc & H). apply kyber_Ok in Hc. destruct (processDeal d deal) as [[d' fin] r] eqn:Ep.
  exists deal, d, d', fin, r. split; [done|]. split; [done|]. split; [done|].
  destruct (deals_locked ex) eqn:Hl; [left; by injection H|right]. apply outcome_bind_Ok in H as ([ex1 waits] & Hcb & H).
  destruct waits; [left|right]; (split; [done|]).
  { injection H as <-. exists ex1. destruct fin; [done|]. by injection Hcb. }
  assert (Hcb' : fin = true /\ called (setDKGCrypt ex d') d' = Ok (ex1, false) \/ fin = false /\ ex1 = setDKGCrypt ex d').
  { destruct fin; [by left|right]. by injection Hcb as <-. }
  destruct r as [[e|i]|resp].
  - destruct e; try done. apply outcome_bind_Ok in H as (p & _ & [= <-]). exists ex1, []. split; [done|]. by left.
  - done.
  - apply outcome_bind_Ok in H as (p & _ & H). destruct (negb _); [done|]. apply outcome_bind_Ok in H as (b & _ & H).
    apply outcome_bind_Ok in H as ([ss err] & _ & H). destruct err; [done|]. injection H as <-. exists ex1, ss. split; [done|]. right. by split; [eexists|].
Qed.

(** The paths of [on_resp]. *)
Lemma on_resp_cases (ex ex' : exchange) m : on_resp Sign ConvertToPublic Send ex m = Ok ex' ->
  exists d d' resp err, ex_crypt ex = Some d /\ Response_UnmarshalMsg (DKGDealRespMessage.RespData m) = Some resp
  /\ processResp d resp = (d', err)
  /\ let d'' := match err with Some ErrNoDealBeforeResponse => addAdvanceResp d' resp | _ => d' end in
     (Finished d'' = false /\ ex' = setDKGCrypt ex d''
      \/ Finished d'' = true /\ (exists ex1, called (setDKGCrypt ex d'') d'' = Ok (ex1, false) /\ ex' = ex1)
      \/ Finished d'' = true /\ (exists ex1, called (setDKGCrypt ex d'') d'' = Ok (ex1, true)
            /\ ex' = set_loops ex1 (deal_loops ex1) (pred (resp_loops ex1)) (finished_loops ex1) (deals_locked ex1))).
Proof.
  intros H. unfold on_resp in H. apply outcome_bind_Ok in H as (resp & Hr & H). apply kyber_Ok in Hr.
  apply outcome_bind_Ok in H as (d & Hc & H). apply kyber_Ok in Hc. destruct (processResp d resp) as [d' err] eqn:Ep.
  exists d, d', resp, err. split; [done|]. split; [done|]. split; [done|]. apply outcome_bind_Ok in H as (d2 & H2 & H).
  assert (d2 = match err with Some ErrNoDealBeforeResponse => addAdvanceResp d' resp | _ => d' end) as -> by (destruct err as [[]|]; try done; by injection H2).
  cbv zeta. destruct (Finished _) eqn:Ef; [right|left; by injection H]. apply outcome_bind_Ok in H as ([ex1 waits] & Hcb & [= <-]).
  destruct waits; [right|left]; (split; [done|]); by exists ex1.
Qed.

(** ** Notifications *)

(** The generator has finished, enough finish messages have come, and the key
    is that of the last of them. *)
Definition agreed (d : crypt) : Prop :=
  Finished d = true /\ nParticipant d - 1 <= Z.of_nat (length (remoteFinished d))
  /\ exists pk, PubKey d = Some pk /\ forall m, last (remoteFinished d) = Some m -> DKGFinishedMessage.PubPolyCommit m = pk.

Lemma processDeal_finished d deal d' r : processDeal d deal = (d', true, r) -> Finished d' = true.
Proof.
  unfold processDeal. destruct (existsb _ _); [done|]. destruct (gen_ProcessDeal _ _) as [g r'].
  destruct (_ =? _); [|done]. by intros [= <- ? _].
Qed.

Lemma callBack_notified (ex : exchange) d ex' waits : called ex d = Ok (ex', waits) -> Finished d = true ->
  Forall (agreed ∘ snd) (notified ex) -> Forall (agreed ∘ snd) (notified ex').
Proof.
  intros H Hf Hn. apply callBack_cases in H as [(_ & _ & ->)|(_ & _ & pk & ss & Hpk & [[_ ->]|(Hc & Ha & ->)])]; [done|done|].
  cbn. apply Forall_app. split; [done|]. apply Forall_fmap, Forall_true. intros u. split; [done|]. split; [done|]. exists pk. split; [done|].
  intros m Hm. rewrite Forall_forall in Ha. apply Ha. by apply last_Some_elem_of.
Qed.

(** C18. In every run of the exchange an updater is given a key only when the
    generator is certified, as many finish messages as there are other
    participants have been counted, and the last of them names the same key. *)
Theorem dkg_notified_agreed (ex ex' : exchange) : run ex ex' -> Forall (agreed ∘ snd) (notified ex) -> Forall (agreed ∘ snd) (notified ex').
Proof.
  induction 1 as [|ex ex1 ex' Hs _ IH]; [done|]. intros Hn. apply IH. clear IH. destruct Hs as [ex n ex1 _ H|ex m ex1 _ H|ex m ex1 _ H|ex m ex1 _ H].
  - unfold on_start in H. apply outcome_bind_Ok in H as (d & _ & H). destruct (negb _); [done|]. destruct (getDeals d) as [d' deals].
    apply outcome_bind_Ok in H as (l & _ & H). apply outcome_bind_Ok in H as (ex2 & H2 & [= <-]).
    apply send_deals_frame in H2 as (? & ? & ? & ->). done.
  - apply on_deal_cases in H as (deal & d & d' & fin & r & _ & _ & Hp & [[_ ->]|[(_ & ex2 & -> & Hcb & ->)|(_ & ex2 & ss & Hcb & Hr)]]); [done| |].
    + apply processDeal_finished in Hp. exact (callBack_notified _ _ _ _ Hcb Hp Hn).
    + assert (Hx : Forall (agreed ∘ snd) (notified ex2)).
      { destruct Hcb as [[-> Hcb]|[_ ->]]; [|done]. apply processDeal_finished in Hp. exact (callBack_notified _ _ _ _ Hcb Hp Hn). }
      by destruct Hr as [[_ ->]|[_ ->]].
  - apply on_resp_cases in H as (d & d' & resp & err & _ & _ & _ & [[_ ->]|[(Hf & ex2 & Hcb & ->)|(Hf & ex2 & Hcb & ->)]]); [done|..];
      exact (callBack_notified _ _ _ _ Hcb Hf Hn).
  - unfold on_finished in H. apply outcome_bind_Ok in H as (d & _ & H). destruct (Finished d) eqn:Ef; cbn [negb] in H; [|by injection H as <-].
    destruct (PubKey d) as [pk|] eqn:Epk; [|by injection H as <-]. case_bool_decide as Hpk; [by injection H as <-|].
    destruct (_ >=? _) eqn:Ec; [|by injection H as <-]. injection H as <-. apply Z.geb_ge in Ec. cbn in Ec |- *. apply Forall_app. split; [done|].
    apply Forall_fmap, Forall_true. intros u. split; [exact Ef|]. split; [cbn; lia|]. exists pk. split; [exact Epk|]. cbn. intros m' Hm.
    rewrite last_snoc in Hm. injection Hm as <-. by symmetry.
Qed.

(** ** Deals that come twice *)

(** The deals received for the current generator. *)
Definition deals_of (ex : exchange) : list Deal := match ex_crypt ex with Some d => remoteDeals d | None => [] end.

Lemma processDeal_deals d deal d' fin r : processDeal d deal = (d', fin, r) ->
  (exists i, r = inl (ESameDeal i)) /\ d' = d \/ remoteDeals d' = remoteDeals d ++ [deal].
Proof.
  unfold processDeal. destruct (existsb _ _); [intros [= <- _ <-]; left; by split; [eexists|]|]. intros H. right.
  destruct (gen_ProcessDeal _ _) as [g r']. destruct (_ =? _); by injection H as <- _ _.
Qed.

Lemma callBack_crypt (ex : exchange) d ex' waits : called ex d = Ok (ex', waits) ->
  ex_crypt ex' = ex_crypt ex /\ startCh ex' = startCh ex /\ deals_locked ex' = deals_locked ex.
Proof. intros H. by apply callBack_cases in H as [(_ & _ & ->)|(_ & _ & pk & ss & _ & [[_ ->]|(_ & _ & ->)])]. Qed.

(** A deal that has been processed is kept. *)
Lemma on_deal_keeps (ex ex' : exchange) m : on_deal Sign ConvertToPublic Send ex m = Ok ex' ->
  exists deal, Deal_UnmarshalMsg (DKGDealMessage.DealData m) = Some deal /\ is_Some (ex_crypt ex')
  /\ (deals_of ex' = deals_of ex /\ deals_locked ex' = true \/ deals_of ex' = deals_of ex ++ [deal]).
Proof.
  intros H. apply on_deal_cases in H as (deal & d & d' & fin & r & Hu & Hc & Hp & H). exists deal. split; [done|]. unfold deals_of. rewrite Hc.
  pose proof (processDeal_deals _ _ _ _ _ Hp) as Hd.
  destruct H as [[_ ->]|[(_ & ex2 & -> & Hcb & ->)|(_ & ex2 & ss & Hcb & Hr)]].
  - cbn [ex_crypt set_loops deals_locked]. rewrite Hc. split; [done|]. by left.
  - destruct (callBack_crypt _ _ _ _ Hcb) as (E & _). cbn [ex_crypt set_loops setDKGCrypt deals_locked] in *. rewrite E. split; [done|].
    destruct Hd as [[_ ->]|Hd]; [by left|by right].
  - assert (E : ex_crypt ex2 = Some d').
    { destruct Hcb as [[_ Hcb]|[_ ->]]; [|done]. destruct (callBack_crypt _ _ _ _ Hcb) as (E & _). exact E. }
    assert (E' : ex_crypt ex' = Some d') by (destruct Hr as [[_ ->]|[_ ->]]; exact E). rewrite E'. split; [done|]. right.
    destruct Hd as [[[i ->] _]|Hd]; [|done]. destruct Hr as [[Hr _]|[[resp Hr] _]]; done.
Qed.

Lemma step_deals (ex ex' : exchange) : step Sign ConvertToPublic Send ex ex' -> deals_of ex `prefix_of` deals_of ex'.
Proof.
  intros [ex1 n ex2 _ H|ex1 m ex2 _ H|ex1 m ex2 _ H|ex1 m ex2 _ H].
  - unfold on_start in H. apply outcome_bind_Ok in H as (d & Hd & H). apply kyber_Ok in Hd. destruct (negb _); [done|].
    destruct (getDeals d) as [d' deals] eqn:Eg. apply outcome_bind_Ok in H as (l & _ & H). apply outcome_bind_Ok in H as (ex3 & H2 & [= <-]).
    apply send_deals_frame in H2 as (? & ? & ? & ->). unfold deals_of. cbn in Hd |- *. rewrite Hd. unfold getDeals in Eg.
    destruct (gen_Deals _) as [g r]. by injection Eg as <- _.
  - apply on_deal_keeps in H as (deal & _ & _ & [[-> _]| ->]); [done|by eexists].
  - apply on_resp_cases in H as (d & d' & resp & err & Hc & _ & Hp & H).
    assert (Hd : remoteDeals (match err with Some ErrNoDealBeforeResponse => addAdvanceResp d' resp | _ => d' end) = remoteDeals d).
    { unfold processResp in Hp. destruct (ProcessResponse _ _) as [g e]. injection Hp as <- <-. destruct e as [[]|]; try done.
      unfold addAdvanceResp. by destruct (existsb _ _). }
    unfold deals_of. rewrite Hc. destruct H as [[_ ->]|[(_ & ex3 & Hcb & ->)|(_ & ex3 & Hcb & ->)]].
    + cbn. by rewrite Hd.
    + destruct (callBack_crypt _ _ _ _ Hcb) as (E & _). rewrite E. cbn. by rewrite Hd.
    + destruct (callBack_crypt _ _ _ _ Hcb) as (E & _). cbn [ex_crypt set_loops]. rewrite E. cbn. by rewrite Hd.
  - unfold on_finished in H. apply outcome_bind_Ok in H as (d & Hd & H). apply kyber_Ok in Hd. unfold deals_of. rewrite Hd.
    destruct (negb _); [by injection H as <-|]. destruct (PubKey d); [|injection H as <-; by rewrite Hd].
    case_bool_decide; [injection H as <-; by rewrite Hd|]. by destruct (_ >=? _); injection H as <-.
Qed.

(** C36. A deal that is delivered twice stops the node: once it has been
    processed, its second arrival panics at every later time, as long as the
    generator is the same and the lock of the deals is free. *)
Theorem replayed_deal_panics (ex ex1 ex2 : exchange) m : on_deal Sign ConvertToPublic Send ex m = Ok ex1 -> deals_locked ex1 = false ->
  run ex1 ex2 -> deals_locked ex2 = false -> on_deal Sign ConvertToPublic Send ex2 m = Panic.
Proof.
  intros H Hl1 Hr Hl2. apply on_deal_keeps in H as (deal & Hu & _ & Hd).
  assert (Hin : deal ∈ deals_of ex1) by (destruct Hd as [[_ Hl]| ->]; [congruence|set_solver]).
  assert (Hp : deals_of ex1 `prefix_of` deals_of ex2).
  { clear -Hr. induction Hr as [|x y z Hs _ IH]; [done|]. etrans; [by apply step_deals|done]. }
  destruct Hp as [l Hp]. unfold on_deal. rewrite Hu. cbn [Dkg.must]. run_Ok. unfold deals_of at 1 in Hp.
  destruct (ex_crypt ex2) as [d|] eqn:Ec; [|done]. cbn [Dkg.must]. run_Ok. rewrite Hl2. unfold processDeal.
  replace (existsb _ _) with true; [done|]. symmetry. apply existsb_exists. exists deal. split; [|by apply bool_decide_eq_true_2].
  apply list_elem_of_In. rewrite Hp. apply elem_of_app. by left.
Qed.

(** ** Responses that come late *)

(** Certification is final: kyber's generator stays certified. *)
Hypothesis certified_stays : forall (g : G) (r : Response), Certified g = true -> Certified (ProcessResponse g r).1 = true.

(** The steps of all goroutines but the one of the finish messages. *)
Inductive quiet : exchange -> exchange -> Prop :=
| quiet_start ex n ex' : startCh ex = [n] -> on_start Sign ConvertToPublic Send (set_startCh ex []) n = Ok ex' -> quiet ex ex'
| quiet_deal ex m ex' : (0 < deal_loops ex)%nat -> on_deal Sign ConvertToPublic Send ex m = Ok ex' -> quiet ex ex'
| quiet_resp ex m ex' : (0 < resp_loops ex)%nat -> on_resp Sign ConvertToPublic Send ex m = Ok ex' -> quiet ex ex'.

(** The exchange has finished once, and is marked as finished again. *)
Definition stalled (ex : exchange) : Prop := 1 <= finishedCh ex /\ startCh ex = [] /\ dkgState ex = DKGExchangeState_Finished.

Lemma callBack_stalled (ex : exchange) d ex' waits : called ex d = Ok (ex', waits) -> 1 <= finishedCh ex -> startCh ex = [] ->
  waits = true /\ stalled ex' /\ resp_loops ex' = resp_loops ex.
Proof. intros H Hf Hs. apply callBack_cases in H as [(_ & -> & ->)|(Hlt & _)]; [|lia]. by split_and!. Qed.

Lemma quiet_stalled (ex ex' : exchange) : rtc quiet ex ex' -> stalled ex -> stalled ex'.
Proof.
  induction 1 as [|ex ex1 ex' Hs _ IH]; [done|]. intros (Hf & Hst & Hd). apply IH. clear IH.
  destruct Hs as [ex n ex1 Hn H|ex m ex1 _ H|ex m ex1 _ H]; [congruence| |].
  - apply on_deal_cases in H as (deal & d & d' & fin & r & _ & _ & Hp & [[_ ->]|[(_ & ex2 & -> & Hcb & ->)|(_ & ex2 & ss & Hcb & Hr)]]).
    + done.
    + by destruct (callBack_stalled _ _ _ _ Hcb Hf Hst) as (_ & H & _).
    + destruct Hcb as [[_ Hcb]|[_ ->]]; [by destruct (callBack_stalled _ _ _ _ Hcb Hf Hst) as (? & _)|]. by destruct Hr as [[_ ->]|[_ ->]].
  - apply on_resp_cases in H as (d & d' & resp & err & _ & _ & _ & [[_ ->]|[(_ & ex2 & Hcb & ->)|(_ & ex2 & Hcb & ->)]]); [done|..];
      by destruct (callBack_stalled _ _ _ _ Hcb Hf Hst) as (? & ? & _).
Qed.

(** A response that finds the generator certified and the channel full. *)
Lemma late_response (ex ex' : exchange) m d : ex_crypt ex = Some d -> Finished d = true -> 1 <= finishedCh ex -> startCh ex = [] ->
  on_resp Sign ConvertToPublic Send ex m = Ok ex' -> stalled ex' /\ resp_loops ex' = pred (resp_loops ex).
Proof.
  intros Hc Hf H1 Hs H. apply on_resp_cases in H as (d0 & d' & resp & err & Hc' & _ & Hp & H). rewrite Hc in Hc'. injection Hc' as <-.
  assert (Hfin : Finished (match err with Some ErrNoDealBeforeResponse => addAdvanceResp d' resp | _ => d' end) = true).
  { unfold processResp in Hp. pose proof (certified_stays (dkGenerator d) resp Hf) as Hg. destruct (ProcessResponse _ _) as [g e].
    injection Hp as <- <-. destruct e as [[]|]; try done. unfold addAdvanceResp. by destruct (existsb _ _). }
  cbv zeta in H. rewrite Hfin in H. destruct H as [[? _]|[(_ & ex2 & Hcb & ->)|(_ & ex2 & Hcb & ->)]]; [done|..];
    destruct (callBack_stalled _ _ _ _ Hcb H1 Hs) as (Hw & Hst & Hr); [done|]. split; [exact Hst|]. cbn. by rewrite Hr.
Qed.
End Spec.
End ExchangeSpec.

(** * The service *)
Module ServiceSpec.
Import Dkg Deliver DeliverDKG Exchange ExchangeSpec BlockCollector DomainConsensus RoleSelectorVRF RoleSelectorSpec.

(** ** Candidates *)
Section Candidates.
Variable blake2b : bytes -> bytes.

Lemma select_drawn e blk nodes count l : select blake2b e blk nodes count = Ok (inr l) ->
  length l = Z.to_nat count /\ forall n, n ∈ l -> n ∈ nodes.
Proof.
  unfold select. intros H. apply outcome_bind_Ok in H as (ep & _ & H). apply outcome_bind_Ok in H as (r & Hr & H).
  destruct r as [err|l']; [done|]. injection H as <-. unfold SelectExpectedNodes in Hr. apply outcome_bind_Ok in Hr as (c & _ & Hr).
  destruct (Block.Head blk) as [h|]; [|done]. apply draw_sublist in Hr as (l'' & -> & Hs & Hl).
  rewrite merge_sort_Permutation, thresholds_length in Hl. split; [done|]. intros n Hn.
  rewrite <- (merge_sort_Permutation node_le nodes). eapply elem_of_sublist; [exact Hn|exact Hs].
Qed.

Lemma removeInvalid_spec nodes doms good : removeInvalidActiveNodes nodes doms = Ok good ->
  (forall n, n ∈ good -> n ∈ nodes /\ joinable (NodeID n) doms 0 = Ok true).
Proof.
  revert good. induction nodes as [|x nodes IH]; intros good H n Hn; cbn [removeInvalidActiveNodes] in H.
  { injection H as <-. by apply elem_of_nil in Hn. }
  apply outcome_bind_Ok in H as (v & Hv & H). apply outcome_bind_Ok in H as (g & Hg & [= <-]). specialize (IH g Hg).
  destruct v; [|by destruct (IH n Hn); split; [right|]]. apply elem_of_cons in Hn as [->|Hn]; [split; [left|done]|].
  destruct (IH n Hn). split; [by right|done].
Qed.

Lemma cut_spec e blk nodes max cut l c : 0 <= cut <= max -> cut_nodes blake2b e blk nodes max cut = Ok (inr (l, c)) ->
  c = count_of l /\ (forall n, n ∈ l -> n ∈ nodes) /\ (c = cut \/ l = nodes /\ c <= max).
Proof.
  intros Hc. unfold cut_nodes. rewrite Z.gtb_ltb. destruct (Z.ltb_spec max (count_of nodes)) as [Hlt|Hge].
  - intros H. apply outcome_bind_Ok in H as (r & Hr & H). destruct r as [err|l']; [done|]. injection H as <- <-.
    apply select_drawn in Hr as [Hl Hin]. unfold count_of. rewrite Hl. split; [lia|]. split; [done|]. by left.
  - intros [= <- <-]. split; [done|]. split; [done|]. by right.
Qed.

(** The numbers drawn for the ratio, for every admissible number of
    validators. *)
Lemma ratio_counts v : 4 <= v <= 70 ->
  float_ceil (SFmul 53 1024 ConsensusDomain_ProposerRadio (Gas.float_of_uint v)) <= 21
  /\ float_ceil (SFmul 53 1024 validator_radio (Gas.float_of_uint v)) <= v.
Proof.
  intros Hv. assert (Hall : forallb (fun v => (float_ceil (SFmul 53 1024 ConsensusDomain_ProposerRadio (Gas.float_of_uint v)) <=? 21)
    && (float_ceil (SFmul 53 1024 validator_radio (Gas.float_of_uint v)) <=? v)) (seqZ 4 67) = true) by (vm_compute; reflexivity).
  rewrite forallb_forall in Hall. specialize (Hall v). rewrite <- list_elem_of_In, elem_of_seqZ in Hall. specialize (Hall ltac:(lia)).
  apply andb_true_iff in Hall as [H1%Z.leb_le H2%Z.leb_le]. done.
Qed.

Lemma adjust_bounds e blk ps vs props vals : 3 <= count_of ps <= 30 -> 4 <= count_of vs <= 70 ->
  adjust blake2b e blk ps vs (count_of ps) (count_of vs) = Ok (inr (props, vals)) ->
  3 <= count_of props <= 30 /\ 4 <= count_of vals <= count_of vs
  /\ (forall n, n ∈ props -> n ∈ ps) /\ (forall n, n ∈ vals -> n ∈ vs).
Proof.
  intros Hp Hv H. unfold adjust in H. destruct (ratio_counts (count_of vs) Hv) as [R1 R2].
  set (cp := float_ceil _) in R1. set (cv := float_ceil _) in R2. fold cp cv in H. clearbody cp cv. destruct (_ && _) in H.
  - apply outcome_bind_Ok in H as (r & Hr & H). destruct r as [err|l]; [done|]. injection H as <- <-. apply select_drawn in Hr as [Hl Hin].
    change ConsensusDomain_MinProposer with 3 in Hl. unfold count_of at 1 2. rewrite Hl.
    destruct (_ <? 3) eqn:E; [split_and!; try done; lia|]. apply Z.ltb_ge in E. split_and!; try done; lia.
  - destruct (_ && _) in H; [|injection H as <- <-; split_and!; try done; lia].
    apply outcome_bind_Ok in H as (r & Hr & H). destruct r as [err|l]; [done|]. injection H as <- <-. apply select_drawn in Hr as [Hl Hin].
    change ConsensusDomain_MinValidator with 4 in Hl. assert (Hc : count_of l = Z.of_nat (length l)) by done. rewrite Hl in Hc.
    destruct (_ <? 4) eqn:E; [split_and!; try done; lia|]. apply Z.ltb_ge in E. split_and!; try done; lia.
Qed.

(** The choice of the candidates; with more than seventy joinable validators
    at most thirty are left. *)
Lemma choose_bounds e blk ps vs doms props vals : choose_candidates blake2b e blk ps vs doms = Ok (inr (props, vals)) ->
  3 <= count_of props <= 30 /\ 4 <= count_of vals <= 70
  /\ (forall n, n ∈ props -> n ∈ ps /\ joinable (NodeID n) doms 0 = Ok true)
  /\ (forall n, n ∈ vals -> n ∈ vs /\ joinable (NodeID n) doms 0 = Ok true)
  /\ (forall good, removeInvalidActiveNodes vs doms = Ok good -> 70 < count_of good -> count_of vals <= 30).
Proof.
  unfold choose_candidates, ConsensusDomain_MinProposer, ConsensusDomain_MinValidator. intros H. apply outcome_bind_Ok in H as (gp & Hgp & H).
  destruct (Z.ltb_spec (count_of gp) 3) as [|Hp3]; [done|]. apply outcome_bind_Ok in H as (r & Hr & H). destruct r as [err|[ps' pc]]; [done|].
  apply (cut_spec _ _ _ ConsensusDomain_MaxProposer) in Hr as (-> & Hpin & Hpc); [|unfold ConsensusDomain_MaxProposer; lia].
  apply outcome_bind_Ok in H as (gv & Hgv & H). destruct (Z.ltb_spec (count_of gv) 4) as [|Hv4]; [done|].
  apply outcome_bind_Ok in H as (r & Hr & H). destruct r as [err|[vs' vc]]; [done|].
  apply (cut_spec _ _ _ ConsensusDomain_MaxValidator) in Hr as (-> & Hvin & Hvc); [|unfold ConsensusDomain_MaxProposer, ConsensusDomain_MaxValidator; lia].
  unfold ConsensusDomain_MaxProposer, ConsensusDomain_MaxValidator in *.
  assert (Hp : 3 <= count_of ps' <= 30) by (destruct Hpc as [->|[-> ?]]; lia).
  assert (Hv : 4 <= count_of vs' <= 70) by (destruct Hvc as [->|[-> ?]]; lia).
  apply adjust_bounds in H as (B1 & B2 & I1 & I2); [|done..]. split_and!; [lia..| | |].
  - intros n Hn. by apply (removeInvalid_spec _ _ _ Hgp), Hpin, I1.
  - intros n Hn. by apply (removeInvalid_spec _ _ _ Hgv), Hvin, I2.
  - intros good Hgood Hlt. rewrite Hgood in Hgv. injection Hgv as <-. destruct Hvc as [Hvc|[-> Hvc]]; lia.
Qed.
End Candidates.

Section Service.
Context {Scalar Point G Deal Response : Type} `{!Kyber Scalar Point G Deal Response}.
Context {L S K : Type} `{!IStateStore S, !ILedger L S}.
Variable blake2b : bytes -> bytes.
Variables (Sign : K -> bytes -> option bytes) (ConvertToPublic : K -> option bytes) (Send : send -> bool).
Variables (sha256 : bytes -> bytes) (rand_Read : Z -> nat -> bytes).

Abbreviation exchange := (dkgExchange (Point := Point) (G := G) (Deal := Deal) (Response := Response) (L := L) (S := S) (K := K) (U := unit)).
Abbreviation service := (domainConsensusService (Point := Point) (G := G) (Deal := Deal) (Response := Response) (L := L) (S := S) (K := K)).

Lemma reading_state_Ok {A B} (c : cmd (world S) state_error A) (f : A -> world S -> go (world S * (domain_error + B))) w w' b :
  reading_state c f w = Ok (w', inr b) -> exists w1 a, c w = Ok (w1, inr a) /\ f a w1 = Ok (w', inr b).
Proof. unfold reading_state. intros H. apply outcome_bind_Ok in H as ([w1 [e|a]] & Hc & H); [done|]. by exists w1, a. Qed.


(** ** The validity of domains *)

Lemma trigger_number_one bpe height : 0 < bpe < 2 ^ 64 -> 0 <= height < 2 ^ 64 - 1 ->
  exists n, trigger_number bpe height = Ok n /\ (n = 1 <-> height < bpe).
Proof.
  intros Hb Hh. unfold trigger_number, ConsensusDomain_TriggerTimesOfEachEpoch. rewrite Z.div_1_r, (proj2 (Z.eqb_neq bpe 0)) by lia.
  eexists. split; [reflexivity|]. pose proof (Z.mul_div_le height bpe ltac:(lia)) as Hm.
  pose proof (Z.div_pos height bpe ltac:(lia) ltac:(lia)) as Hq. rewrite (Z.mul_comm (_ / _)). set (q := height / bpe) in *.
  assert (0 <= bpe * q) by nia. rewrite u64_small by (unfold is_u64; lia). split.
  - intros E. assert (q = 0) as Hz by nia. subst q. apply Z.div_small_iff in Hz; lia.
  - intros Hlt. assert (q = 0) as Hz by (apply Z.div_small; lia). lia.
Qed.

(** C38. A domain of the first epoch is valid for fifty epoch spans from the
    block after the one that has triggered it.  A domain of any later epoch is
    given the heights from zero to fifty epoch spans: from height 15000 on it
    is never active. *)
Theorem domains_expire (ds : service) b head threshold pk ps nd : triggerBlock ds = Some b -> Block.Head b = Some head ->
  0 < BlocksPerEpoch ds < 2 ^ 64 -> 0 <= BlockHead.Height head < 2 ^ 63 ->
  trigger_number (BlocksPerEpoch ds) (BlockHead.Height head) = Ok (ds_triggerNumber ds) ->
  produced_domain blake2b sha256 rand_Read ds threshold pk ps = Ok nd ->
  if decide (BlockHead.Height head < BlocksPerEpoch ds)
  then forall height, Domain.is_active height nd = true <-> BlockHead.Height head + 1 <= height < BlockHead.Height head + 1 + 15000
  else forall height, 15000 <= height -> Domain.is_active height nd = false.
Proof.
  intros Hb Hh Hbpe Hr Ht H. destruct (trigger_number_one (BlocksPerEpoch ds) (BlockHead.Height head) Hbpe ltac:(lia)) as (n & Hn & Hone).
  rewrite Ht in Hn. injection Hn as <-. unfold produced_domain in H. rewrite Hb in H. cbn [deref] in H. rewrite Ok_bind in H.
  apply outcome_bind_Ok in H as (bh & _ & H). apply outcome_bind_Ok in H as (vs & Hvs & [= <-]). rewrite Hh in Hvs.
  unfold Domain.is_active. cbn [nd_ValidHeightStart nd_ValidHeightEnd]. change (50 * EpochSpan) with 15000. destruct (decide _) as [Hlt|Hge].
  - rewrite (proj2 Hone Hlt) in Hvs. cbn in Hvs. injection Hvs as <-. intros height.
    pose proof (u64_range (u64 (u64 (BlockHead.Height head + 1) + 15000) - EpochSpan)) as Hu. unfold is_u64 in Hu.
    rewrite !(u64_small (BlockHead.Height head + 1)), (u64_small (BlockHead.Height head + 1 + 15000)) in * by (unfold is_u64; lia).
    rewrite !andb_true_iff, !Z.geb_le, Z.ltb_lt. lia.
  - rewrite (proj2 (Z.eqb_neq _ 1)) in Hvs by tauto. injection Hvs as <-. intros height Hle. change (u64 (0 + 15000)) with 15000.
    rewrite (proj2 (Z.ltb_ge height 15000)) by lia. by rewrite andb_false_r.
Qed.

(** ** The end of the exchanges *)

(** Certification is final. *)
Hypothesis certified_stays : forall (g : G) (r : Response), Certified g = true -> Certified (ProcessResponse g r).1 = true.

(** C37. A response that arrives after the node has finished ends the making of
    domains: the goroutine waits for ever, the exchange is marked as finished
    and stays so until a finish message arrives, and meanwhile the service does
    nothing with a new block but remember it. *)
Theorem late_response_stalls (ex ex1 ex2 : exchange) m d : ex_crypt ex = Some d -> Finished d = true -> 1 <= finishedCh ex -> startCh ex = [] ->
  on_resp Sign ConvertToPublic Send ex m = Ok ex1 -> rtc (quiet Sign ConvertToPublic Send) ex1 ex2 ->
  resp_loops ex1 = pred (resp_loops ex)
  /\ forall (ds : service) b, dkgEx ds = ex2 -> is_Some (Block.Head b) -> on_block blake2b ds b = Ok (set_lastBlock ds b, false).
Proof.
  intros Hc Hf H1 Hs H Hq. destruct (late_response Sign ConvertToPublic Send certified_stays ex ex1 m d Hc Hf H1 Hs H) as [Hst Hl].
  split; [exact Hl|]. intros ds b Hds [h Hb]. destruct (quiet_stalled Sign ConvertToPublic Send ex1 ex2 Hq Hst) as (_ & _ & Hd).
  unfold on_block. rewrite Hb. cbn [deref]. run_Ok. cbn [dkgEx set_lastBlock]. rewrite Hds, Hd. by rewrite bool_decide_eq_true_2.
Qed.
End Service.
End ServiceSpec.

(** * A domain of two nodes *)
Module DkgExamples.
Import Dkg Deliver DeliverDKG Exchange ExchangeSpec DomainConsensus ServiceSpec.
#[local] Existing Instances RefStore.ref_store SchedulerSpec.SchedulerExamples.the_ledger.

Abbreviation store := (gmap bytes kvmap).

(** A generator that counts: it is certified once it has a deal and a
    response. *)
#[local] Instance counting : Kyber bytes bytes (Z * Z) bytes bytes := {
  StringHexToScalar := Some;
  StringHexToPoint := Some;
  PointToStringHex := id;
  NewDistKeyGenerator _ _ _ := Some (0, 0);
  GetParticipantPub _ i := Some [z2b i];
  GetDealVerifySignPub _ i := Some [z2b i];
  GetVerifierPubOfDealer _ i := Some [z2b i];
  gen_Deals g := (g, Some []);
  gen_ProcessDeal g d := ((g.1 + 1, g.2), inr d);
  ExpectedDeals g := g.1;
  ProcessResponse g r := ((g.1, g.2 + 1), None);
  Certified g := (1 <=? g.1) && (1 <=? g.2);
  gen_PubKey g := Some (str "key");
  gen_PriShare g := Some (str "share");
  gen_PubShares g n := Some (repeat (str "s") (Z.to_nat n));
  Deal_Index d := 0;
  Deal_MarshalMsg := Some;
  Deal_UnmarshalMsg := Some;
  Approval _ := true;
  Response_MarshalMsg := Some;
  Response_UnmarshalMsg := Some;
}.

Lemma counting_stays (g : Z * Z) (r : bytes) : Certified g = true -> Certified (ProcessResponse g r).1 = true.
Proof. destruct g as [a b]. cbn. rewrite !andb_true_iff, !Z.leb_le. lia. Qed.

Definition sign (k d : bytes) : option bytes := Some (k ++ take 2 d).
Definition to_public (k : bytes) : option bytes := Some k.
Definition reaches (s : send) : bool := true.

Abbreviation exchange := (dkgExchange (Point := bytes) (G := Z * Z) (Deal := bytes) (Response := bytes) (L := store) (S := store) (K := bytes) (U := unit)).

(** The exchange of the node [a], which makes keys with [b]. *)
Definition idle : exchange :=
  addDKGBLSUpdater (updateDKGPartPubKeys
    (newDKGExchange (str "c") (str "a") (str "k") (mkDkgDeliver (str "k") DeliverStrategy_All [str "b"] []) ∅
       (mkWorld ∅ LedgerState_Uninitialized ∅ ∅ ∅))
    (<[str "a":=str "x"]> {[str "b" := str "y"]})) tt.

Definition the (r : go exchange) : exchange := match r with Ok ex => ex | _ => idle end.

Definition is_Ok (r : go exchange) : bool := match r with Ok _ => true | _ => false end.

Lemma Ok_the r : is_Ok r = true -> r = Ok (the r).
Proof. by destruct r. Qed.

Definition started : exchange := (start (the (initWhenStart idle 1)) 1).1.

Definition deal_msg : DKGDealMessage.t := DKGDealMessage.mk (str "c") 1 1 [] [] (str "deal") [].
Definition resp_msg : DKGDealRespMessage.t := DKGDealRespMessage.mk (str "c") 1 1 [] [] (str "resp") [].
Definition finished_msg : DKGFinishedMessage.t := DKGFinishedMessage.mk (str "c") 1 1 [] [] (str "b") (str "key") [].

Definition begun : exchange := the (on_start sign to_public reaches (set_startCh started []) 1).
Definition dealt : exchange := the (on_deal sign to_public reaches begun deal_msg).
Definition certified : exchange := the (on_resp sign to_public reaches dealt resp_msg).
Definition notifying : exchange := the (on_finished certified finished_msg).
Definition late : exchange := the (on_resp sign to_public reaches notifying resp_msg).

Lemma begun_dealt : on_deal sign to_public reaches begun deal_msg = Ok dealt.
Proof. apply Ok_the. vm_compute. reflexivity. Qed.

Lemma dealt_certified : step sign to_public reaches dealt certified.
Proof. apply step_resp with resp_msg; [vm_compute; lia|]. apply Ok_the. vm_compute. reflexivity. Qed.

Lemma certified_notifying : step sign to_public reaches certified notifying.
Proof. apply step_finished with finished_msg; [vm_compute; lia|]. apply Ok_the. vm_compute. reflexivity. Qed.

Lemma dkg_notified_agreed_witness : length (notified notifying) = 1%nat /\ Forall (agreed ∘ snd) (notified notifying).
Proof.
  split; [vm_compute; reflexivity|]. apply (dkg_notified_agreed sign to_public reaches started notifying).
  - apply rtc_l with begun; [apply step_start with 1; [vm_compute; reflexivity|apply Ok_the; vm_compute; reflexivity]|].
    apply rtc_l with dealt; [apply step_deal with deal_msg; [vm_compute; lia|exact begun_dealt]|].
    apply rtc_l with certified; [exact dealt_certified|]. apply rtc_once, certified_notifying.
  - apply List.Forall_nil.
Defined.

Lemma replayed_deal_panics_witness : on_deal sign to_public reaches notifying deal_msg = Panic.
Proof.
  apply (replayed_deal_panics sign to_public reaches begun dealt notifying deal_msg).
  - exact begun_dealt.
  - vm_compute. reflexivity.
  - apply rtc_l with certified; [exact dealt_certified|]. apply rtc_once, certified_notifying.
  - vm_compute. reflexivity.
Defined.

(** ** The service *)

Definition hash : bytes -> bytes := take 32.

Definition block_at (height : Z) : Block.t :=
  Block.mk (Some (BlockHead.mk (str "1") 1 height 0 0 [] (str "p") [] [] 0 [] [] 0 [] [] [] 7 0 [] [] [])) None [].

Definition service_of (ex : exchange) (number : Z) (trigger : option Block.t) :
    domainConsensusService (Point := bytes) (G := Z * Z) (Deal := bytes) (Response := bytes) (L := store) (S := store) (K := bytes) :=
  mkService (str "a") 100 trigger number trigger true {[str "b" := mkNodeDomainMember (str "b") NodeRole_Proposer 3]} ex.

Lemma late_response_stalls_witness :
  on_block hash (service_of late 1 (Some (block_at 1))) (block_at 200) =
    Ok (set_lastBlock (service_of late 1 (Some (block_at 1))) (block_at 200), false).
Proof.
  assert (Hc : exists d, ex_crypt notifying = Some d /\ Finished d = true) by (eexists; split; vm_compute; reflexivity). destruct Hc as (d & Hc & Hf).
  destruct (late_response_stalls hash sign to_public reaches counting_stays notifying late late resp_msg d Hc Hf) as [_ H].
  - vm_compute. discriminate.
  - vm_compute. reflexivity.
  - apply Ok_the. vm_compute. reflexivity.
  - apply rtc_refl.
  - apply H; [reflexivity|by eexists].
Defined.

Definition rand_bytes (seed : Z) (n : nat) : bytes := repeat (z2b seed) n.

(** The domain of a trigger in the first and in the fourth epoch. *)
Definition domain_of (number height : Z) : NodeDomainInfo :=
  match produced_domain hash hash rand_bytes (service_of notifying number (Some (block_at height))) 2 (Some (str "key")) None with
  | Ok nd => nd
  | _ => mkNodeDomainInfo [] DomainType_Consensus 0 0 None None
  end.

Lemma domains_expire_witness :
  Domain.is_active 50 (domain_of 1 8) = true /\ Domain.is_active 15010 (domain_of 1 8) = false
  /\ Domain.is_active 20001 (domain_of 20001 20000) = false.
Proof.
  split; [|split].
  - refine (proj2 (domains_expire hash hash rand_bytes (service_of notifying 1 (Some (block_at 8))) (block_at 8)
      (default (Wire.s_zero BlockHead.desc) (Block.Head (block_at 8))) 2 (Some (str "key")) None (domain_of 1 8) eq_refl eq_refl _ _ _ _ 50) _);
      cbn; try lia; vm_compute; reflexivity.
  - vm_compute. reflexivity.
  - refine (domains_expire hash hash rand_bytes (service_of notifying 20001 (Some (block_at 20000))) (block_at 20000)
      (default (Wire.s_zero BlockHead.desc) (Block.Head (block_at 20000))) 2 (Some (str "key")) None (domain_of 20001 20000) eq_refl eq_refl _ _ _ _ 20001 _);
      cbn; try lia; vm_compute; reflexivity.
Defined.

(** A state with three proposers and four validators. *)
Definition node_of (id : bytes) (role : Z) : NodeInfo := mkNodeInfo id (str "addr") 5 (str "k") None role NodeState_Active.

Definition empty_stores : store :=
  foldr (fun n s => <[n := ∅]> s) ∅ [Node.r_name Node.proposer; Node.r_name Node.validator; Node.StateStore_Name_Node;
    Domain.StateStore_Name_NodeConsensusDomain; Epoch.StateStore_Name_Epoch].

Definition registered : store :=
  foldl (fun s n => match Node.AddNode (Some n) s with Ok (s, _) => s | _ => s end) empty_stores
    (((fun id => node_of id NodeRole_Proposer) <$> [str "p"; str "q"; str "r"])
   ++ ((fun id => node_of id NodeRole_Validator) <$> [str "s"; str "t"; str "u"; str "v"])).

Definition caches : world store := mkWorld registered LedgerState_Uninitialized ∅ ∅ ∅.

Definition chosen : option (list NodeInfo * list NodeInfo) :=
  match getJoinableConsensusCandidateNodes hash (block_at 5) registered caches with Ok (_, _, inr c) => Some c | _ => None end.

Lemma chosen_made props vals : chosen = Some (props, vals) ->
  exists l w, getJoinableConsensusCandidateNodes hash (block_at 5) registered caches = Ok (l, w, inr (props, vals)).
Proof.
  unfold chosen. generalize (getJoinableConsensusCandidateNodes hash (block_at 5) registered caches).
  intros [[[l w] [e|c]]| |] H; [done| |done..]. injection H as ->. by exists l, w.
Qed.

End DkgExamples.
