(* ===== verification/Hexutil.v ===== *)
(** The hexadecimal texts of the web3 interface
    (src/api/web3/eth/types/hexutil/hexutil.go, json.go): byte strings and
    quantities with the prefix 0x, their JSON and GraphQL forms.

    A function with two results gives both, so that what comes with an error is
    seen.  An [Unmarshal] is given the receiver and gives the new one.  Words
    are those of a 64-bit machine. *)
From Stdlib Require Import ZArith Lia Strings.Byte.
From stdpp Require Import base gmap list strings.
From S2P Require Import Prelude Common Wire TxBasic Address.
#[local] Open Scope Z_scope.

(** * encoding/hex, strconv and math/big *)
Module HexLib.
Inductive hex_error := InvalidByteError (c : byte) | ErrLength.
Inductive num_error := ErrRange | ErrNumSyntax.

(** [hex.Decode]: the bytes before the first error, and the error. *)
Fixpoint hex_Decode (src : bytes) : bytes * option hex_error :=
  match src with
  | [] => ([], None)
  | [p] => ([], Some (match Address.hex_digit_value p with None => InvalidByteError p | Some _ => ErrLength end))
  | p :: q :: src =>
      match Address.hex_digit_value p, Address.hex_digit_value q with
      | None, _ => ([], Some (InvalidByteError p))
      | _, None => ([], Some (InvalidByteError q))
      | Some a, Some b => let '(dst, err) := hex_Decode src in (z2b (Z.lor (Z.shiftl a 4) b) :: dst, err)
      end
  end.

(** [strconv.ParseUint] in base 16 with 64 bits. *)
Definition maxVal : Z := 2 ^ 64 - 1.
Definition cutoff : Z := maxVal / 16 + 1.

Fixpoint parse_loop (s : bytes) (n : Z) : Z * option num_error :=
  match s with
  | [] => (n, None)
  | c :: s =>
      match Address.hex_digit_value c with
      | None => (0, Some ErrNumSyntax)
      | Some d =>
          if n >=? cutoff then (maxVal, Some ErrRange)
          else
            let n := u64 (n * 16) in
            let n1 := u64 (n + d) in
            if (n1 <? n) || (n1 >? maxVal) then (maxVal, Some ErrRange) else parse_loop s n1
      end
  end.

Definition ParseUint16 (s : bytes) : Z * option num_error :=
  match s with [] => (0, Some ErrNumSyntax) | _ => parse_loop s 0 end.

(** The digits of a number in base 16, in lower case. *)
Fixpoint digits16 (fuel : nat) (n : Z) (acc : bytes) : bytes :=
  match fuel with
  | O => acc
  | S fuel => let acc := Tx.hex_digit (n mod 16) :: acc in if n <? 16 then acc else digits16 fuel (n / 16) acc
  end.

(** [strconv.AppendUint] to an empty slice, and [big.Int.Text], in base 16. *)
Definition FormatUint16 (n : Z) : bytes := digits16 (S (Z.to_nat (Z.log2 n))) n [].

Definition Text16 (n : Z) : bytes := if n <? 0 then "-"%byte :: FormatUint16 (- n) else FormatUint16 n.

(** [big.Int.SetBits]: the least significant word first. *)
Fixpoint SetBits (words : list Z) : Z :=
  match words with [] => 0 | w :: words => w + 2 ^ 64 * SetBits words end.
End HexLib.

(** * hexutil *)
Module Hexutil.
Import HexLib.

Definition uintBits : Z := 64.

Inductive decError :=
| ErrEmptyString | ErrSyntax | ErrMissingPrefix | ErrOddLength | ErrEmptyNumber | ErrLeadingZero
| ErrUint64Range | ErrUintRange | ErrBig256Range.

#[export] Instance decError_eq_dec : EqDecision decError.
Proof. solve_decision. Defined.

Definition decError_Error (err : decError) : bytes :=
  match err with
  | ErrEmptyString => str "empty hex string"
  | ErrSyntax => str "invalid hex string"
  | ErrMissingPrefix => str "hex string without 0x prefix"
  | ErrOddLength => str "hex string of odd length"
  | ErrEmptyNumber => str "hex string " ++ [x22] ++ str "0x" ++ [x22]
  | ErrLeadingZero => str "hex number with leading zero digits"
  | ErrUint64Range => str "hex number > 64 bits"
  | ErrUintRange => str "hex number > 64 bits"
  | ErrBig256Range => str "hex number > 256 bits"
  end.

(** [mapError], for the errors of the two packages. *)
Definition mapError (err : num_error + hex_error) : decError :=
  match err with
  | inl ErrRange => ErrUint64Range
  | inl ErrNumSyntax => ErrSyntax
  | inr (InvalidByteError _) => ErrSyntax
  | inr ErrLength => ErrOddLength
  end.

Definition has0xPrefix (input : bytes) : bool :=
  match input with
  | c0 :: c1 :: _ => Byte.eqb c0 "0" && (Byte.eqb c1 "x" || Byte.eqb c1 "X")
  | _ => false
  end.

Definition Decode (input : bytes) : bytes * option decError :=
  if len input =? 0 then ([], Some ErrEmptyString)
  else if negb (has0xPrefix input) then ([], Some ErrMissingPrefix)
  else let '(b, err) := hex_Decode (drop 2 input) in (b, option_map (mapError ∘ inr) err).

Definition must_value {A} (r : A * option decError) : go A :=
  match r with (dec, None) => Ok dec | (_, Some _) => Panic end.

Definition MustDecode (input : bytes) : go bytes := must_value (Decode input).

Definition Encode (b : bytes) : bytes := str "0x" ++ Tx.hex_EncodeToString b.

(** The digits of a quantity. *)
Definition checkNumber (input : bytes) : decError + bytes :=
  if len input =? 0 then inl ErrEmptyString
  else if negb (has0xPrefix input) then inl ErrMissingPrefix
  else
    let input := drop 2 input in
    match input with
    | [] => inl ErrEmptyNumber
    | c :: _ => if (1 <? len input) && Byte.eqb c "0" then inl ErrLeadingZero else inr input
    end.

Definition DecodeUint64 (input : bytes) : Z * option decError :=
  match checkNumber input with
  | inl err => (0, Some err)
  | inr raw => let '(dec, err) := ParseUint16 raw in (dec, option_map (mapError ∘ inl) err)
  end.

Definition MustDecodeUint64 (input : bytes) : go Z := must_value (DecodeUint64 input).

Definition EncodeUint64 (i : Z) : bytes := str "0x" ++ FormatUint16 i.

Definition bigWordNibbles : nat := 16.
Definition badNibble : Z := 2 ^ 64 - 1.

Definition decodeNibble (c : byte) : Z :=
  let z := b2z c in
  if (48 <=? z) && (z <=? 57) then z - 48
  else if (65 <=? z) && (z <=? 70) then z - 65 + 10
  else if (97 <=? z) && (z <=? 102) then z - 97 + 10
  else badNibble.

(** The nibbles of one word; a bad one ends the call. *)
Fixpoint word_loop (s : bytes) (word : Z) : option Z :=
  match s with
  | [] => Some word
  | c :: s =>
      let nib := decodeNibble c in
      if nib =? badNibble then None else word_loop s (u64 (u64 (word * 16) + nib))
  end.

(** The words, from the end of the text. *)
Fixpoint words_loop (n : nat) (raw : bytes) (e : nat) : option (list Z) :=
  match n with
  | O => Some []
  | S n =>
      let start := (e - bigWordNibbles)%nat in
      match word_loop (take (e - start) (drop start raw)) 0 with
      | None => None
      | Some w => option_map (cons w) (words_loop n raw start)
      end
  end.

Definition decode_words (raw : bytes) : decError + Z :=
  if 64 <? len raw then inl ErrBig256Range
  else
    match words_loop (length raw / bigWordNibbles + 1) raw (length raw) with
    | None => inl ErrSyntax
    | Some words => inr (SetBits words)
    end.

Definition DecodeBig (input : bytes) : decError + Z :=
  match checkNumber input with inl err => inl err | inr raw => decode_words raw end.

Definition MustDecodeBig (input : bytes) : go Z := match DecodeBig input with inl _ => Panic | inr dec => Ok dec end.

Definition EncodeBig (bigint : Z) : bytes :=
  if Z.sgn bigint =? 0 then str "0x0"
  else if Z.sgn bigint >? 0 then str "0x" ++ Text16 bigint
  else str "-0x" ++ drop 1 (Text16 bigint).

(** ** json.go *)

(** What the functions of json.go fail with. *)
Inductive error :=
| EDec (e : decError)
| EFixedLength (got want : Z) (typname : bytes)
| UnmarshalTypeError (value typ : bytes)
| EUnexpected (typ : bytes).

Definition isString (input : bytes) : bool :=
  (2 <=? len input) && bool_decide (head input = Some x22) && bool_decide (last input = Some x22).

Definition unquoted (input : bytes) : bytes := take (length input - 2) (drop 1 input).

Definition checkText (input : bytes) (wantPrefix : bool) : decError + bytes :=
  if len input =? 0 then inr []
  else
    let after raw := if len raw mod 2 =? 0 then inr raw else inl ErrOddLength in
    if has0xPrefix input then after (drop 2 input)
    else if wantPrefix then inl ErrMissingPrefix
    else after input.

Definition checkNumberText (input : bytes) : decError + bytes :=
  if len input =? 0 then inr [] else checkNumber input.

Definition wrapTypeError (err : option error) (typ : bytes) : option error :=
  match err with Some (EDec e) => Some (UnmarshalTypeError (decError_Error e) typ) | _ => err end.

Definition errNonString (typ : bytes) : error := UnmarshalTypeError (str "non-string") typ.

(** [UnmarshalJSON], the same for every type. *)
Definition unmarshal_json {A} (typ : bytes) (UnmarshalText : A -> bytes -> A * option error) (b : A) (input : bytes) : A * option error :=
  if negb (isString input) then (b, Some (errNonString typ))
  else let '(b, err) := UnmarshalText b (unquoted input) in (b, wrapTypeError err typ).

(** *** Bytes *)

Definition Bytes_MarshalText (b : bytes) : bytes := str "0x" ++ Tx.hex_EncodeToString b.

Definition Bytes_UnmarshalText (b input : bytes) : bytes * option error :=
  match checkText input true with
  | inl err => (b, Some (EDec err))
  | inr raw =>
      match hex_Decode raw with
      | (_, Some err) => (b, Some (EDec (mapError (inr err))))
      | (dec, None) => (dec, None)
      end
  end.

Definition Bytes_UnmarshalJSON : bytes -> bytes -> bytes * option error := unmarshal_json (str "types.Bytes") Bytes_UnmarshalText.

(** The values of a GraphQL query that are told apart. *)
Inductive gql := GString (s : bytes) | GInt32 (n : Z) | GOther (typ : bytes).

Definition gql_type (v : gql) : bytes :=
  match v with GString _ => str "string" | GInt32 _ => str "int32" | GOther t => t end.

Definition Bytes_UnmarshalGraphQL (b : bytes) (input : gql) : bytes * option error :=
  match input with
  | GString s => match Decode s with (_, Some err) => (b, Some (EDec err)) | (data, None) => (data, None) end
  | _ => (b, Some (EUnexpected (gql_type input)))
  end.

(** *** Fixed sizes *)

(** The syntax is verified before [out] is changed, so that [hex.Decode]
    replaces all of it. *)
Definition unmarshal_fixed (wantPrefix : bool) (typname input out : bytes) : bytes * option error :=
  match checkText input wantPrefix with
  | inl err => (out, Some (EDec err))
  | inr raw =>
      if negb (len raw / 2 =? len out) then (out, Some (EFixedLength (len raw) (len out * 2) typname))
      else if existsb (fun c => decodeNibble c =? badNibble) raw then (out, Some (EDec ErrSyntax))
      else let dec := (hex_Decode raw).1 in (dec ++ drop (length dec) out, None)
  end.

Definition UnmarshalFixedText : bytes -> bytes -> bytes -> bytes * option error := unmarshal_fixed true.

Definition UnmarshalFixedUnprefixedText : bytes -> bytes -> bytes -> bytes * option error := unmarshal_fixed false.

Definition UnmarshalFixedJSON (typ input out : bytes) : bytes * option error :=
  unmarshal_json typ (fun out input => UnmarshalFixedText typ input out) out input.

(** *** Big *)

Definition Big_MarshalText (b : Z) : bytes := EncodeBig b.

Definition Big_UnmarshalText (b : Z) (input : bytes) : Z * option error :=
  match checkNumberText input with
  | inl err => (b, Some (EDec err))
  | inr raw => match decode_words raw with inl err => (b, Some (EDec err)) | inr dec => (dec, None) end
  end.

Definition Big_UnmarshalJSON : Z -> bytes -> Z * option error := unmarshal_json (str "*types.Big") Big_UnmarshalText.

Definition Big_UnmarshalGraphQL (b : Z) (input : gql) : Z * option error :=
  match input with
  | GString s => Big_UnmarshalText b s
  | GInt32 n => (n, None)
  | GOther _ => (b, Some (EUnexpected (gql_type input)))
  end.

(** *** Uint64 and Uint *)

Definition Uint64_MarshalText (b : Z) : bytes := str "0x" ++ FormatUint16 b.

Definition Uint64_UnmarshalText (b : Z) (input : bytes) : Z * option error :=
  match checkNumberText input with
  | inl err => (b, Some (EDec err))
  | inr raw =>
      if 16 <? len raw then (b, Some (EDec ErrUint64Range))
      else match word_loop raw 0 with None => (b, Some (EDec ErrSyntax)) | Some dec => (dec, None) end
  end.

Definition Uint64_UnmarshalJSON : Z -> bytes -> Z * option error := unmarshal_json (str "types.Uint64") Uint64_UnmarshalText.

Definition Uint64_UnmarshalGraphQL (b : Z) (input : gql) : Z * option error :=
  match input with
  | GString s => Uint64_UnmarshalText b s
  | GInt32 n => (u64 n, None)
  | GOther _ => (b, Some (EUnexpected (gql_type input)))
  end.

Definition Uint_MarshalText (b : Z) : bytes := Uint64_MarshalText b.

Definition Uint_UnmarshalText (b : Z) (input : bytes) : Z * option error :=
  let '(n, err) := Uint64_UnmarshalText 0 input in
  match err with
  | Some (EDec ErrUint64Range) => (b, Some (EDec ErrUintRange))
  | _ =>
      if n >? 2 ^ uintBits - 1 then (b, Some (EDec ErrUintRange))
      else match err with Some e => (b, Some e) | None => (n, None) end
  end.

Definition Uint_UnmarshalJSON : Z -> bytes -> Z * option error := unmarshal_json (str "types.Uint") Uint_UnmarshalText.
End Hexutil.
