(* ===== verification/HexutilSpec.v ===== *)
(** Correctness of the hexadecimal texts of the web3 interface: the decoders
    accept exactly the texts that the encoders make, up to the case of letters,
    and the decoding of large numbers by machine words is the evaluation of the
    digits. *)
From Stdlib Require Import ZArith Lia Strings.Byte.
From stdpp Require Import base gmap list strings.
From S2P Require Import Prelude Common Wire TxBasic Address Hexutil.
#[local] Open Scope Z_scope.

Module HexutilSpec.
Import Wire HexLib Hexutil.

(** ** Digits *)

(** Letters in lower case. *)
Definition lower (c : byte) : byte := if (65 <=? b2z c) && (b2z c <=? 90) then z2b (b2z c + 32) else c.

Abbreviation digit := Address.hex_digit_value.

Lemma digit_lower c : digit (lower c) = digit c.
Proof. by destruct c. Qed.

Lemma digit_Some c v : digit c = Some v -> 0 <= v < 16 /\ lower c = Tx.hex_digit v.
Proof. destruct c; intros H; vm_compute in H; first [discriminate H | injection H as <-; split; [lia|reflexivity]]. Qed.

Lemma digit_iff c v : digit c = Some v <-> 0 <= v < 16 /\ lower c = Tx.hex_digit v.
Proof.
  split; [apply digit_Some|]. intros [Hv Hc]. rewrite <- digit_lower, Hc. by apply Address.hex_digit_value_digit.
Qed.

Lemma decodeNibble_digit c : decodeNibble c = default badNibble (digit c).
Proof. by destruct c. Qed.

Lemma lower_digit v : 0 <= v < 16 -> lower (Tx.hex_digit v) = Tx.hex_digit v.
Proof. intros Hv. by apply digit_iff, Address.hex_digit_value_digit. Qed.

(** ** Evaluation *)

Fixpoint value (s : bytes) (acc : Z) : option Z :=
  match s with
  | [] => Some acc
  | c :: s => match digit c with None => None | Some d => value s (acc * 16 + d) end
  end.

Lemma value_app s t acc : value (s ++ t) acc = match value s acc with None => None | Some v => value t v end.
Proof. revert acc. induction s as [|c s IH]; intros acc; cbn [value app]; [done|]. by destruct (digit c). Qed.

Lemma value_acc s acc : value s acc = option_map (fun v => acc * 16 ^ len s + v) (value s 0).
Proof.
  revert acc. induction s as [|c s IH]; intros acc; cbn [value]; [cbn [option_map]; f_equal; change (16 ^ len []) with 1; lia|].
  destruct (digit c) as [d|]; [|done]. rewrite IH, (IH (0 * 16 + d)). destruct (value s 0) as [v|]; cbn; [|done]. f_equal.
  rewrite len_cons, Z.pow_add_r by (unfold len; lia). change (16 ^ 1) with 16. ring.
Qed.

Lemma value_bounds s v : value s 0 = Some v -> 0 <= v < 16 ^ len s.
Proof.
  revert v. induction s as [|c s IH] using rev_ind; intros v; [intros [= <-]; split; [lia|reflexivity]|]. rewrite value_app.
  destruct (value s 0) as [v'|]; [|done]. cbn [value]. destruct (digit c) as [d|] eqn:Ed; [|done]. intros [= <-].
  apply digit_Some in Ed as [Hd _]. specialize (IH v' eq_refl). rewrite len_app, Z.pow_add_r by (unfold len; cbn; lia).
  change (16 ^ len [c]) with 16. lia.
Qed.

(** Texts of one length with the same value are the same up to case. *)
Lemma value_inj s t v : length s = length t -> value s 0 = Some v -> value t 0 = Some v -> lower <$> s = lower <$> t.
Proof.
  revert t v. induction s as [|c s IH] using rev_ind; intros t v Hl Hs Ht.
  { by apply symmetry, nil_length_inv in Hl as ->. }
  destruct t as [|e t _] using rev_ind; [rewrite length_app in Hl; cbn in Hl; lia|]. rewrite !length_app in Hl. cbn in Hl.
  rewrite value_app in Hs, Ht. destruct (value s 0) as [v1|] eqn:Es; [|done]. destruct (value t 0) as [v2|] eqn:Et; [|done]. cbn [value] in Hs, Ht.
  destruct (digit c) as [d1|] eqn:E1; [|done]. destruct (digit e) as [d2|] eqn:E2; [|done]. apply digit_Some in E1 as [? H1], E2 as [? H2].
  injection Hs as Hs. injection Ht as Ht. assert (v1 = v2 /\ d1 = d2) as [-> ->] by lia. rewrite !fmap_app. f_equal; [|cbn; congruence].
  by apply (IH t v2 ltac:(lia) eq_refl).
Qed.

Lemma value_lower s acc : value (lower <$> s) acc = value s acc.
Proof. revert acc. induction s as [|c s IH]; intros acc; [done|]. cbn [fmap list_fmap value]. rewrite digit_lower. by destruct (digit c). Qed.

(** Texts without leading zeros. *)
Definition canonical (s : bytes) : Prop :=
  match s with [] => False | [_] => True | c :: _ => lower c <> "0"%byte end.

Lemma canonical_bounds s v : canonical s -> value s 0 = Some v -> 16 ^ (len s - 1) <= v < 16 ^ len s \/ v = 0 /\ len s = 1.
Proof.
  intros Hc Hv. pose proof (value_bounds s v Hv) as Hb. destruct s as [|c s]; [done|]. cbn [value] in Hv. destruct (digit c) as [d|] eqn:Ed; [|done].
  rewrite value_acc in Hv. destruct (value s 0) as [w|] eqn:Ew; [|done]. injection Hv as <-. apply value_bounds in Ew.
  apply digit_Some in Ed as [Hd Hl]. rewrite len_cons in *. replace (1 + len s - 1) with (len s) by lia.
  destruct (decide (d = 0)) as [->|Hd0].
  - destruct s as [|c' s]; [right; change (len (@nil byte)) with 0 in *; change (16 ^ 0) with 1 in *; lia|]. exfalso. by apply Hc.
  - left. split; [|lia]. assert (1 * 16 ^ len s <= (0 * 16 + d) * 16 ^ len s) by (apply Z.mul_le_mono_nonneg_r; lia). lia.
Qed.

Lemma canonical_unique s t v : canonical s -> canonical t -> value s 0 = Some v -> value t 0 = Some v -> lower <$> s = lower <$> t.
Proof.
  intros Cs Ct Hs Ht. apply (value_inj s t v); [|done..]. assert (len s = len t); [|unfold len in *; lia].
  pose proof (value_bounds _ _ Hs). pose proof (value_bounds _ _ Ht).
  assert (1 <= len s /\ 1 <= len t) as [? ?] by (destruct s, t; try done; rewrite !len_cons; unfold len; lia).
  assert (forall a b, 1 <= a -> 16 ^ (a - 1) <= v -> v < 16 ^ b -> a <= b).
  { intros a b Ha ? ?. destruct (Z.le_gt_cases a b); [done|]. assert (16 ^ b <= 16 ^ (a - 1)) by (apply Z.pow_le_mono_r; lia). lia. }
  destruct (canonical_bounds s v Cs Hs) as [?|[-> ?]], (canonical_bounds t _ Ct Ht) as [?|[? ?]]; try lia.
  apply Z.le_antisymm; eauto with lia.
Qed.

(** ** Formatting *)

Lemma digits16_spec fuel n acc : 0 <= n < 16 ^ Z.of_nat fuel -> (0 < fuel)%nat ->
  exists d, digits16 fuel n acc = d ++ acc /\ value d 0 = Some n /\ canonical d /\ lower <$> d = d.
Proof.
  revert n acc. induction fuel as [|fuel IH]; intros n acc Hn Hf; [lia|]. cbn [digits16].
  assert (Hm : 0 <= n mod 16 < 16) by (apply Z.mod_pos_bound; lia).
  assert (Hd : digit (Tx.hex_digit (n mod 16)) = Some (n mod 16)) by (by apply Address.hex_digit_value_digit).
  destruct (Z.ltb_spec n 16) as [Hlt|Hge].
  - exists [Tx.hex_digit (n mod 16)]. cbn [value fmap list_fmap]. rewrite Hd, (lower_digit _ Hm), Z.mod_small by lia. by split_and!.
  - rewrite Nat2Z.inj_succ, Z.pow_succ_r in Hn by lia. destruct fuel as [|fuel]; [cbn in Hn; lia|].
    destruct (IH (n / 16) (Tx.hex_digit (n mod 16) :: acc)) as (d & -> & Hv & Hc & Hl);
      [split; [apply Z.div_pos; lia|apply Z.div_lt_upper_bound; lia]|lia|].
    exists (d ++ [Tx.hex_digit (n mod 16)]). split_and!.
    + by rewrite <- (assoc_L (++)).
    + rewrite value_app, Hv. cbn [value]. rewrite Hd. f_equal. pose proof (Z.div_mod n 16). lia.
    + destruct d as [|c [|c' d]]; [done| |done]. cbn [canonical app]. intros E0. cbn [value] in Hv. destruct (digit c) as [v|] eqn:Ev; [|done].
      injection Hv as Hv. apply digit_Some in Ev as [Hv' Hlo]. rewrite E0 in Hlo. assert (0 < n / 16) by (apply Z.div_str_pos; lia).
      assert (Hz : digit "0"%byte = Some v) by (rewrite Hlo; by apply Address.hex_digit_value_digit). change (Some 0 = Some v) in Hz. injection Hz as Hz. lia.
    + rewrite fmap_app, Hl. cbn. by rewrite lower_digit.
Qed.

(** The text of a number has its value, no leading zero and small letters. *)
Lemma FormatUint16_spec n : 0 <= n ->
  value (FormatUint16 n) 0 = Some n /\ canonical (FormatUint16 n) /\ lower <$> FormatUint16 n = FormatUint16 n.
Proof.
  intros Hn. unfold FormatUint16. destruct (digits16_spec (S (Z.to_nat (Z.log2 n))) n []) as (d & -> & H); [|lia|by rewrite app_nil_r].
  split; [done|]. rewrite Nat2Z.inj_succ, Z2Nat.id by apply Z.log2_nonneg. destruct (decide (n = 0)) as [->|Hn0]; [by vm_compute|].
  eapply Z.lt_le_trans; [apply Z.log2_spec; lia|]. apply Z.pow_le_mono_l. lia.
Qed.

(** A text without leading zeros has the value [n] exactly when it is the text
    of [n] up to case. *)
Lemma value_iff s n : canonical s -> value s 0 = Some n <-> 0 <= n /\ lower <$> s = FormatUint16 n.
Proof.
  intros Hc. split.
  - intros Hv. pose proof (value_bounds s n Hv). split; [lia|]. destruct (FormatUint16_spec n ltac:(lia)) as (Fv & Fc & Fl).
    rewrite <- Fl. by apply (canonical_unique s (FormatUint16 n) n).
  - intros [Hn He]. destruct (FormatUint16_spec n Hn) as (Fv & _). by rewrite <- value_lower, He.
Qed.

Lemma len_lower s : len (lower <$> s) = len s.
Proof. unfold len. by rewrite length_fmap. Qed.

(** The number of digits. *)
Lemma len_value s n k : canonical s -> value s 0 = Some n -> 1 <= k -> len s <= k <-> n < 16 ^ k.
Proof.
  intros Hc Hv Hk. pose proof (value_bounds s n Hv). split.
  - intros Hl. assert (16 ^ len s <= 16 ^ k) by (apply Z.pow_le_mono_r; lia). lia.
  - intros Hlt. destruct (canonical_bounds s n Hc Hv) as [[Hb _]|[_ ->]]; [|done].
    destruct (Z.le_gt_cases (len s) k); [done|]. assert (16 ^ k <= 16 ^ (len s - 1)) by (apply Z.pow_le_mono_r; lia). lia.
Qed.

(** ** The loops *)

Lemma value_ge s acc v : 0 <= acc -> value s acc = Some v -> acc <= v /\ acc * 16 ^ len s <= v.
Proof.
  rewrite value_acc. intros Ha. destruct (value s 0) as [w|] eqn:Ew; [|done]. intros [= <-]. apply value_bounds in Ew.
  assert (1 <= 16 ^ len s) by (pose proof (Z.pow_pos_nonneg 16 (len s)); pose proof (len_nonneg s); lia). nia.
Qed.

(** A word of at most sixteen digits does not overflow. *)
Lemma word_loop_value s w : 0 <= w -> (w + 1) * 16 ^ len s <= 2 ^ 64 -> word_loop s w = value s w.
Proof.
  revert w. induction s as [|c s IH]; intros w Hw Hb; [done|]. cbn [word_loop value]. rewrite decodeNibble_digit.
  destruct (digit c) as [d|] eqn:Ed; [|done]. apply digit_Some in Ed as [Hd _]. change (default badNibble (Some d)) with d.
  rewrite (proj2 (Z.eqb_neq d badNibble)) by (unfold badNibble; lia). rewrite len_cons, Z.pow_add_r in Hb by (pose proof (len_nonneg s); lia).
  change (16 ^ 1) with 16 in Hb. assert (1 <= 16 ^ len s) by (pose proof (Z.pow_pos_nonneg 16 (len s)); pose proof (len_nonneg s); lia).
  assert (w * 16 + 16 <= 2 ^ 64) by nia. rewrite !u64_small by (rewrite ?u64_small; unfold is_u64; lia). apply IH; [lia|nia].
Qed.

Lemma words_loop_value n raw e : (e <= length raw)%nat -> (e <= 16 * n)%nat -> option_map SetBits (words_loop n raw e) = value (take e raw) 0.
Proof.
  revert e. induction n as [|n IH]; intros e He Hn; cbn [words_loop]; [by replace e with 0%nat by lia|].
  unfold bigWordNibbles. set (start := (e - 16)%nat). set (chunk := take (e - start) (drop start raw)).
  assert (Hs : take e raw = take start raw ++ chunk).
  { unfold chunk. rewrite <- (take_drop start (take e raw)) at 1. rewrite take_take, Nat.min_l, take_drop_commute by lia. f_equal. f_equal. f_equal. lia. }
  assert (Hl : len chunk = Z.of_nat (e - start)) by (unfold len, chunk; rewrite length_take, length_drop; lia).
  assert (16 ^ len chunk <= 2 ^ 64) by (change (2 ^ 64) with (16 ^ 16); apply Z.pow_le_mono_r; lia).
  rewrite Hs, value_app, word_loop_value, (value_acc chunk 0) by lia. specialize (IH start ltac:(lia) ltac:(lia)).
  destruct (value (take start raw) 0) as [v|] eqn:Ev; destruct (words_loop n raw start) as [ws|]; cbn [option_map] in IH; try done.
  - injection IH as IH. rewrite (value_acc chunk v). destruct (value chunk 0) as [w|]; cbn [option_map SetBits]; [|done].
    f_equal. rewrite IH. destruct (decide (start = 0%nat)) as [E0|E0]; [rewrite E0 in Ev; injection Ev as <-; lia|].
    rewrite Hl. replace (Z.of_nat (e - start)) with 16 by lia. change (16 ^ 16) with (2 ^ 64). lia.
  - destruct (value chunk 0); done.
Qed.

Lemma decode_words_iff raw n : canonical raw -> decode_words raw = inr n <-> value raw 0 = Some n /\ n < 2 ^ 256.
Proof.
  intros Hc. unfold decode_words. change (2 ^ 256) with (16 ^ 64).
  pose proof (words_loop_value (length raw / bigWordNibbles + 1) raw (length raw) ltac:(lia)) as Hw. rewrite firstn_all in Hw.
  specialize (Hw ltac:(unfold bigWordNibbles; pose proof (Nat.div_mod_eq (length raw) 16); pose proof (Nat.mod_upper_bound (length raw) 16); lia)).
  destruct (Z.ltb_spec 64 (len raw)) as [Hgt|Hle].
  - split; [done|]. intros [Hv Hlt]. apply (len_value raw n 64 Hc Hv ltac:(lia)) in Hlt. lia.
  - destruct (words_loop _ _ _) as [ws|]; cbn [option_map] in Hw; rewrite <- Hw; [|naive_solver]. split.
    + intros [= <-]. split; [done|]. apply (len_value raw (SetBits ws) 64 Hc); [done|lia|done].
    + by intros [[= ->] _].
Qed.

Lemma parse_loop_iff s n m : 0 <= n < 2 ^ 64 -> parse_loop s n = (m, None) <-> value s n = Some m /\ m < 2 ^ 64.
Proof.
  revert n. induction s as [|c s IH]; intros n Hn; cbn [parse_loop value]; [naive_solver lia|].
  destruct (digit c) as [d|] eqn:Ed; [|naive_solver]. apply digit_Some in Ed as [Hd _]. change cutoff with (2 ^ 60). rewrite Z.geb_leb.
  destruct (Z.leb_spec (2 ^ 60) n) as [Hge|Hlt].
  - split; [done|]. intros [Hv Hm]. apply value_ge in Hv as [Hv _]; lia.
  - rewrite !u64_small by (rewrite ?u64_small; unfold is_u64; lia). unfold maxVal. destruct (Z.ltb_spec (n * 16 + d) (n * 16)); [lia|].
    rewrite Z.gtb_ltb. destruct (Z.ltb_spec (2 ^ 64 - 1) (n * 16 + d)); [lia|]. apply IH. lia.
Qed.

(** ** Prefixes *)

Lemma zero_iff c : Byte.eqb c "0" = true <-> lower c = "0"%byte.
Proof. by destruct c. Qed.

Lemma x_iff c : Byte.eqb c "x" || Byte.eqb c "X" = true <-> lower c = "x"%byte.
Proof. by destruct c. Qed.

Lemma prefixed_iff input t : lower <$> input = str "0x" ++ t <-> has0xPrefix input = true /\ lower <$> drop 2 input = t.
Proof.
  change (str "0x" ++ t) with ("0"%byte :: "x"%byte :: t). destruct input as [|c0 [|c1 raw]]; cbn [fmap list_fmap has0xPrefix drop]; [naive_solver..|].
  rewrite andb_true_iff, zero_iff, x_iff. split; [intros [= -> -> <-]; done|intros [[-> ->] <-]; done].
Qed.

Lemma prefixed_len input : has0xPrefix input = true -> (len input =? 0) = false.
Proof. by destruct input as [|c0 [|c1 raw]]. Qed.

Lemma checkNumber_iff input raw : checkNumber input = inr raw <-> has0xPrefix input = true /\ raw = drop 2 input /\ canonical raw.
Proof.
  unfold checkNumber. destruct (has0xPrefix input) eqn:Hp; [rewrite (prefixed_len _ Hp)|destruct (len input =? 0); naive_solver].
  cbn [negb]. destruct (drop 2 input) as [|c s]; [naive_solver|]. rewrite len_cons. destruct s as [|c' s].
  { change (1 <? 1 + len (@nil byte)) with false. cbn [andb]. naive_solver. }
  replace (1 <? 1 + len (c' :: s)) with true by (symmetry; apply Z.ltb_lt; rewrite len_cons; pose proof (len_nonneg s); lia). cbn [andb].
  destruct (Byte.eqb c "0") eqn:E0; [apply zero_iff in E0; naive_solver|]. split; [|naive_solver]. intros [= <-]. split_and!; try done.
  cbn [canonical]. rewrite <- zero_iff. by rewrite E0.
Qed.

(** ** Quantities *)

(** The digits of a quantity and its value. *)
Lemma quantity_iff input n : (exists raw, checkNumber input = inr raw /\ value raw 0 = Some n) <-> 0 <= n /\ lower <$> input = str "0x" ++ FormatUint16 n.
Proof.
  rewrite prefixed_iff. split.
  - intros (raw & (Hp & -> & Hc)%checkNumber_iff & Hv). apply value_iff in Hv as [Hn Hl]; done.
  - intros (Hn & Hp & Hl). exists (drop 2 input). destruct (FormatUint16_spec n Hn) as (Fv & Fc & _).
    assert (Hv : value (drop 2 input) 0 = Some n) by (by rewrite <- value_lower, Hl). split; [|done]. apply checkNumber_iff. split_and!; try done.
    rewrite <- Hl in Fc. destruct (drop 2 input) as [|c [|c' s]]; [done..|]. cbn [fmap list_fmap canonical] in Fc |- *. intros E. apply Fc. rewrite E. done.
Qed.

Lemma EncodeBig_eq n : 0 <= n -> EncodeBig n = str "0x" ++ FormatUint16 n.
Proof.
  intros Hn. unfold EncodeBig, Text16. destruct (decide (n = 0)) as [->|]; [done|]. rewrite Z.sgn_pos by lia. cbn [Z.eqb Z.gtb Z.compare Pos.compare Pos.compare_cont].
  by rewrite (proj2 (Z.ltb_ge n 0)) by lia.
Qed.

Lemma checkNumber_canonical input raw : checkNumber input = inr raw -> canonical raw.
Proof. intros H. by apply checkNumber_iff in H as (_ & _ & ?). Qed.

Lemma Uint64_text_iff b input n : input <> [] -> Uint64_UnmarshalText b input = (n, None) <-> DecodeUint64 input = (n, None).
Proof.
  intros Hi. unfold Uint64_UnmarshalText, DecodeUint64, checkNumberText.
  replace (len input =? 0) with false by (symmetry; apply Z.eqb_neq; destruct input; [done|rewrite len_cons; pose proof (len_nonneg input); lia]).
  destruct (checkNumber input) as [e|raw] eqn:Hc; [naive_solver|]. apply checkNumber_canonical in Hc.
  assert (HP : ParseUint16 raw = parse_loop raw 0) by (by destruct raw). rewrite HP. destruct (parse_loop raw 0) as [m err] eqn:Ep.
  destruct (Z.ltb_spec 16 (len raw)) as [Hgt|Hle].
  - split; [done|]. destruct err; [done|]. intros [= ->]. apply parse_loop_iff in Ep as [Hv Hm]; [|lia].
    apply (len_value raw n 16 Hc Hv ltac:(lia)) in Hm. lia.
  - assert (16 ^ len raw <= 2 ^ 64) by (change (2 ^ 64) with (16 ^ 16); apply Z.pow_le_mono_r; lia).
    rewrite word_loop_value by lia. transitivity (parse_loop raw 0 = (n, None)).
    + rewrite parse_loop_iff by lia. destruct (value raw 0) as [v|] eqn:Ev; [|naive_solver].
      pose proof (value_bounds raw v Ev). split; [intros [= <-]; split; [done|lia]|by intros [[= ->] _]].
    + rewrite Ep. destruct err; naive_solver.
Qed.

Lemma DecodeUint64_iff input n : DecodeUint64 input = (n, None) <-> 0 <= n < 2 ^ 64 /\ lower <$> input = EncodeUint64 n.
Proof.
  transitivity ((exists raw, checkNumber input = inr raw /\ value raw 0 = Some n) /\ n < 2 ^ 64).
  - unfold DecodeUint64. destruct (checkNumber input) as [e|raw] eqn:Hc; [naive_solver|]. apply checkNumber_canonical in Hc.
    assert (HP : ParseUint16 raw = parse_loop raw 0) by (by destruct raw). rewrite HP.
    transitivity (parse_loop raw 0 = (n, None)); [destruct (parse_loop raw 0) as [m [e|]]; naive_solver|]. rewrite parse_loop_iff by lia. naive_solver.
  - rewrite quantity_iff. unfold EncodeUint64. intuition lia.
Qed.

Lemma DecodeBig_iff input n : DecodeBig input = inr n <-> 0 <= n < 2 ^ 256 /\ lower <$> input = EncodeBig n.
Proof.
  transitivity ((exists raw, checkNumber input = inr raw /\ value raw 0 = Some n) /\ n < 2 ^ 256).
  - unfold DecodeBig. destruct (checkNumber input) as [e|raw] eqn:Hc; [naive_solver|]. apply checkNumber_canonical in Hc.
    rewrite (decode_words_iff raw n Hc). naive_solver.
  - rewrite quantity_iff. split; [intros [[Hn Hl] Hlt]; by rewrite EncodeBig_eq|intros [Hn Hl]; rewrite EncodeBig_eq in Hl; [tauto|lia]].
Qed.

Lemma Big_text_iff b input n : input <> [] -> Big_UnmarshalText b input = (n, None) <-> DecodeBig input = inr n.
Proof.
  intros Hi. unfold Big_UnmarshalText, DecodeBig, checkNumberText.
  replace (len input =? 0) with false by (symmetry; apply Z.eqb_neq; destruct input; [done|rewrite len_cons; pose proof (len_nonneg input); lia]).
  destruct (checkNumber input) as [e|raw]; [naive_solver|]. destruct (decode_words raw); naive_solver.
Qed.

Lemma Uint64_text_range b input n : Uint64_UnmarshalText b input = (n, None) -> 0 <= n < 2 ^ 64.
Proof.
  destruct (decide (input = [])) as [->|Hi]; [intros [= <-]; lia|]. rewrite Uint64_text_iff, DecodeUint64_iff by done. tauto.
Qed.

Lemma Uint_text_iff b input n : Uint_UnmarshalText b input = (n, None) <-> Uint64_UnmarshalText 0 input = (n, None).
Proof.
  unfold Uint_UnmarshalText. destruct (Uint64_UnmarshalText 0 input) as [m err] eqn:E. destruct err as [e|].
  - split; [|done]. destruct e as [[]| | |]; try done; by destruct (_ >? _).
  - apply Uint64_text_range in E. by rewrite Z.gtb_ltb, (proj2 (Z.ltb_ge _ _)) by (unfold uintBits; lia).
Qed.

(** C39. The decoders of quantities accept exactly the texts that the encoders
    make of numbers in their range, up to the case of letters: 64 bits for
    [DecodeUint64], 256 for [DecodeBig].  The JSON types accept the same texts
    with the same numbers, and the empty text as zero. *)
Theorem quantities_exact input n b :
  (DecodeUint64 input = (n, None) <-> 0 <= n < 2 ^ 64 /\ lower <$> input = EncodeUint64 n)
  /\ (DecodeBig input = inr n <-> 0 <= n < 2 ^ 256 /\ lower <$> input = EncodeBig n)
  /\ (Uint64_UnmarshalText b input = (n, None) <-> input = [] /\ n = 0 \/ DecodeUint64 input = (n, None))
  /\ (Uint_UnmarshalText b input = (n, None) <-> input = [] /\ n = 0 \/ DecodeUint64 input = (n, None))
  /\ (Big_UnmarshalText b input = (n, None) <-> input = [] /\ n = 0 \/ DecodeBig input = inr n).
Proof.
  assert (H64 : forall b, Uint64_UnmarshalText b input = (n, None) <-> input = [] /\ n = 0 \/ DecodeUint64 input = (n, None)).
  { intros b'. destruct (decide (input = [])) as [->|Hi]; [|rewrite Uint64_text_iff by done; naive_solver].
    split; [intros [= <-]; by left|intros [[_ ->]|H]; [reflexivity|discriminate H]]. }
  split_and!; [apply DecodeUint64_iff|apply DecodeBig_iff|apply H64| |].
  - by rewrite <- (H64 0), Uint_text_iff.
  - destruct (decide (input = [])) as [->|Hi]; [split; [intros [= <-]; by left|intros [[_ ->]|H]; [reflexivity|discriminate H]]|]. rewrite Big_text_iff by done. naive_solver.
Qed.

(** ** Byte strings *)

Lemma bytes_ind2 (P : bytes -> Prop) : P [] -> (forall c, P [c]) -> (forall c d s, P s -> P (c :: d :: s)) -> forall s, P s.
Proof.
  intros H0 H1 H2 s. enough (P s /\ forall c, P (c :: s)) by tauto. induction s as [|c s [IH1 IH2]]; [by split|]. split; [apply IH2|].
  intros d. apply H2, IH1.
Qed.

Lemma hex_pair a b : 0 <= a < 16 -> 0 <= b < 16 -> Tx.hex_byte (z2b (Z.lor (Z.shiftl a 4) b)) = [Tx.hex_digit a; Tx.hex_digit b].
Proof.
  intros Ha Hb. assert (Hall : forallb (fun a => forallb (fun b =>
      bool_decide (Tx.hex_byte (z2b (Z.lor (Z.shiftl a 4) b)) = [Tx.hex_digit a; Tx.hex_digit b])) (seqZ 0 16)) (seqZ 0 16) = true)
    by (vm_compute; reflexivity).
  rewrite forallb_forall in Hall. specialize (Hall a). rewrite <- list_elem_of_In, elem_of_seqZ, forallb_forall in Hall.
  specialize (Hall ltac:(lia) b). rewrite <- list_elem_of_In, elem_of_seqZ in Hall. specialize (Hall ltac:(lia)). by apply bool_decide_eq_true in Hall.
Qed.

Lemma hex_byte_digits x : exists a b, 0 <= a < 16 /\ 0 <= b < 16 /\ Tx.hex_byte x = [Tx.hex_digit a; Tx.hex_digit b] /\ z2b (Z.lor (Z.shiftl a 4) b) = x.
Proof. exists (Z.shiftr (b2z x) 4), (Z.land (b2z x) 15). by destruct x. Qed.

Lemma hex_Decode_iff s b : hex_Decode s = (b, None) <-> lower <$> s = Tx.hex_EncodeToString b.
Proof.
  revert b. induction s as [|c|c d s IH] using bytes_ind2; intros b.
  - destruct b; [done|]. naive_solver.
  - split; [done|]. by destruct b.
  - unfold Tx.hex_EncodeToString in *. cbn [hex_Decode fmap list_fmap]. split.
    + destruct (digit c) as [v|] eqn:Ec; [|done]. destruct (digit d) as [w|] eqn:Ed; [|done]. destruct (hex_Decode s) as [dst err] eqn:Es.
      intros [= <- ->]. apply digit_Some in Ec as [Hv Ec], Ed as [Hw Ed]. cbn [fmap list_fmap concat]. rewrite hex_pair by done. cbn [app].
      f_equal; [done|]. f_equal; [done|]. by apply IH.
    + destruct b as [|x b]; [done|]. cbn [fmap list_fmap concat]. destruct (hex_byte_digits x) as (v & w & Hv & Hw & -> & Hx). cbn [app].
      intros [= Ec Ed Es]. rewrite (proj2 (digit_iff c v)), (proj2 (digit_iff d w)) by done. apply IH in Es. by rewrite Es, Hx.
Qed.

Lemma hex_Decode_len s b : hex_Decode s = (b, None) -> len s = 2 * len b.
Proof. rewrite hex_Decode_iff. intros H. by rewrite <- len_lower, H, Address.hex_length. Qed.

(** Digits of an even number decode. *)
Lemma hex_Decode_total s : len s mod 2 = 0 -> existsb (fun c => decodeNibble c =? badNibble) s = false -> exists b, hex_Decode s = (b, None).
Proof.
  assert (Hd : forall c, (decodeNibble c =? badNibble) = false -> exists v, digit c = Some v).
  { intros c. rewrite decodeNibble_digit. destruct (digit c) as [v|]; [by eexists|done]. }
  induction s as [|c|c d s IH] using bytes_ind2; [by eexists|done|]. rewrite !len_cons. intros He. cbn [existsb]. rewrite !orb_false_iff.
  intros (Hc & Hd' & Hs). destruct (Hd c Hc) as [v Hv]. destruct (Hd d Hd') as [w Hw]. cbn [hex_Decode]. rewrite Hv, Hw.
  destruct IH as [b Hb]; [|done|rewrite Hb; by eexists]. replace (1 + (1 + len s)) with (len s + 1 * 2) in He by lia. by rewrite Z.mod_add in He.
Qed.

Lemma hex_Decode_nibbles s b : hex_Decode s = (b, None) -> existsb (fun c => decodeNibble c =? badNibble) s = false.
Proof.
  revert b. induction s as [|c|c d s IH] using bytes_ind2; intros b; [done..|]. cbn [hex_Decode existsb]. rewrite !decodeNibble_digit.
  destruct (digit c) as [v|] eqn:Ec; [|done]. destruct (digit d) as [w|] eqn:Ed; [|done]. destruct (hex_Decode s) as [dst err]. intros [= _ ->].
  apply digit_Some in Ec as [Hv _], Ed as [Hw _]. change (default badNibble (Some v)) with v. change (default badNibble (Some w)) with w.
  rewrite !(proj2 (Z.eqb_neq _ badNibble)) by (unfold badNibble; lia). by apply (IH dst).
Qed.

Lemma Decode_iff input b : Decode input = (b, None) <-> lower <$> input = Encode b.
Proof.
  unfold Encode. rewrite prefixed_iff. unfold Decode. destruct (has0xPrefix input) eqn:Hp.
  - rewrite (prefixed_len _ Hp). cbn [negb]. rewrite <- hex_Decode_iff. destruct (hex_Decode _) as [dst [e|]]; naive_solver.
  - destruct (len input =? 0); naive_solver.
Qed.

(** The text that [checkText] gives, for one that is not empty. *)
Lemma checkText_iff input raw : input <> [] -> checkText input true = inr raw <-> has0xPrefix input = true /\ raw = drop 2 input /\ len raw mod 2 = 0.
Proof.
  intros Hi. unfold checkText.
  replace (len input =? 0) with false by (symmetry; apply Z.eqb_neq; destruct input; [done|rewrite len_cons; pose proof (len_nonneg input); lia]).
  destruct (has0xPrefix input); [|naive_solver]. destruct (Z.eqb_spec (len (drop 2 input) mod 2) 0); naive_solver.
Qed.

Lemma Decode_raw input b : Decode input = (b, None) <-> has0xPrefix input = true /\ hex_Decode (drop 2 input) = (b, None).
Proof. rewrite Decode_iff, hex_Decode_iff. unfold Encode. apply prefixed_iff. Qed.

(** [Decode] accepts exactly the texts that [Encode] makes, up to the case
    of letters.  The JSON type accepts the same texts with the same bytes, and
    the empty text as no bytes; the decoders of fixed sizes accept those whose
    bytes fill the receiver. *)
Lemma hex_bytes_exact input b b0 out typ :
  (Decode input = (b, None) <-> lower <$> input = Encode b)
  /\ (Bytes_UnmarshalText b0 input = (b, None) <-> input = [] /\ b = [] \/ Decode input = (b, None))
  /\ (UnmarshalFixedText typ input out = (b, None) <-> len b = len out /\ (input = [] /\ b = [] \/ Decode input = (b, None))).
Proof.
  split; [apply Decode_iff|]. unfold Bytes_UnmarshalText, UnmarshalFixedText, unmarshal_fixed.
  destruct (decide (input = [])) as [->|Hi].
  { split; [split; [intros [= <-]; by left|intros [[_ ->]|H]; [reflexivity|discriminate H]]|]. change (checkText [] true) with (@inr decError bytes []).
    cbv beta iota. change (len (@nil byte) / 2) with 0. destruct (Z.eqb_spec 0 (len out)) as [Ho|Ho]; cbn [negb].
    - destruct out; [|rewrite len_cons in Ho; pose proof (len_nonneg out); lia].
      split; [intros [= <-]; split; [done|]; by left|intros [_ [[_ ->]|H]]; [reflexivity|discriminate H]].
    - split; [done|]. intros [Hl [[_ ->]|H]]; [done|discriminate H]. }
  rewrite Decode_raw. destruct (checkText input true) as [e|raw] eqn:Ec.
  - assert (Hno : ~ (has0xPrefix input = true /\ hex_Decode (drop 2 input) = (b, None))); [|naive_solver].
    intros [Hp Hd]. apply hex_Decode_len in Hd. enough (checkText input true = inr (drop 2 input)) by congruence. apply checkText_iff; [done|].
    split_and!; try done. rewrite Hd, Z.mul_comm. by apply Z.mod_mul.
  - apply checkText_iff in Ec as (Hp & -> & He); [|done]. split; [destruct (hex_Decode _) as [dst [e|]]; naive_solver|].
    destruct (Z.eqb_spec (len (drop 2 input) / 2) (len out)) as [Ho|Ho]; cbn [negb].
    + destruct (existsb _ _) eqn:Ex; [split; [done|]; intros (_ & [[? _]|[_ Hd]]); [done|]; apply hex_Decode_nibbles in Hd; congruence|].
      destruct (hex_Decode_total _ He Ex) as [dst Hd]. rewrite Hd. cbn [fst]. apply hex_Decode_len in Hd as Hl.
      assert (len dst = len out) by (rewrite <- Ho, Hl, Z.mul_comm, Z.div_mul by lia; done).
      rewrite drop_ge by (unfold len in *; lia). rewrite app_nil_r. naive_solver.
    + split; [done|]. intros (Hl & [[? _]|[_ Hd]]); [done|]. apply hex_Decode_len in Hd. rewrite Hd, Z.mul_comm, Z.div_mul in Ho by lia. done.
Qed.

(** ** JSON *)

Definition quoted (t : bytes) : bytes := x22 :: t ++ [x22].

Lemma quoted_string t : isString (quoted t) = true.
Proof.
  unfold isString, quoted. rewrite len_cons, len_app. change (len [x22]) with 1. rewrite (proj2 (Z.leb_le _ _)) by (pose proof (len_nonneg t); lia).
  change (x22 :: t ++ [x22]) with ((x22 :: t) ++ [x22]). by rewrite last_snoc.
Qed.

Lemma unquoted_quoted t : unquoted (quoted t) = t.
Proof.
  unfold unquoted, quoted. cbn [length drop]. rewrite length_app. cbn [length]. replace (S (length t + 1) - 2)%nat with (length t) by lia. apply take_app_length.
Qed.

Lemma unmarshal_quoted {A} typ (U : A -> bytes -> A * option error) b t :
  unmarshal_json typ U b (quoted t) = let '(b, err) := U b t in (b, wrapTypeError err typ).
Proof. unfold unmarshal_json. by rewrite quoted_string, unquoted_quoted. Qed.

Lemma lower_encoded b : lower <$> Tx.hex_EncodeToString b = Tx.hex_EncodeToString b.
Proof.
  unfold Tx.hex_EncodeToString. induction b as [|x b IH]; [done|]. cbn [fmap list_fmap concat]. rewrite fmap_app. f_equal; [|exact IH].
  destruct (hex_byte_digits x) as (v & w & Hv & Hw & -> & _). cbn. by rewrite !lower_digit.
Qed.

Lemma lower_quantity n : 0 <= n -> lower <$> (str "0x" ++ FormatUint16 n) = str "0x" ++ FormatUint16 n.
Proof. intros Hn. rewrite fmap_app. f_equal. by apply FormatUint16_spec. Qed.

(** A number that is too long. *)
Lemma Big_too_long b n : 2 ^ 256 <= n -> Big_UnmarshalText b (EncodeBig n) = (b, Some (EDec ErrBig256Range)).
Proof.
  intros Hn. rewrite EncodeBig_eq by lia. unfold Big_UnmarshalText, checkNumberText. rewrite len_app. change (len (str "0x")) with 2.
  rewrite (proj2 (Z.eqb_neq _ 0)) by (pose proof (len_nonneg (FormatUint16 n)); lia).
  destruct (proj2 (quantity_iff (str "0x" ++ FormatUint16 n) n)) as (raw & Hr & Hv); [split; [lia|by apply lower_quantity; lia]|].
  rewrite Hr. apply checkNumber_canonical in Hr. unfold decode_words. destruct (Z.ltb_spec 64 (len raw)) as [_|Hle]; [done|].
  apply (len_value raw n 64 Hr Hv ltac:(lia)) in Hle. change (16 ^ 64) with (2 ^ 256) in Hle. lia.
Qed.


End HexutilSpec.
